(* ===== verification/_CoqProject ===== *)
-Q . S2P
Prelude.v
StdMap.v
InfoHash.v
SockAddr.v
Node.v
NodeCache.v
RoutingTable.v
Status.v
Sha256.v
MsgPack.v
Ledger.v
Token.v
Asset.v
Chain.v
Transaction.v
Base64.v
Value.v
Query.v
QueryText.v
Storage.v
DhtStorage.v
DhtState.v
Maintain.v
Message.v
Wire.v
Fragment.v
Reply.v
NodeInfo.v
ValueCache.v
OpCache.v
SearchNode.v
Search.v
DhtOps.v
DhtSearch.v
SearchStep.v
RateLimiter.v
NetworkEngine.v
Serving.v
Retry.v
Partial.v
DhtServe.v
Crypto.v
SecureDht.v
Scheduler.v
Prefix.v
PhtCache.v
Pht.v
PhtSearch.v
Client.v
