(* ===== verification/Prelude.v ===== *)
(** * Verified Blockchain and OpenDHT: a verification development

    The repository holds a peer-to-peer ledger, src/verified-blockchain, and the
    distributed hash table it runs on, src/opendht-2.1.4.  A ledger node keeps
    tokens, assets, blocks and a chain in key-value stores, and talks to other
    nodes by putting and listening to values in the DHT.  A DHT node keeps a routing
    table of other nodes, sends them requests, stores the values and listeners of
    the keys it is close to, and runs timed jobs.  Both serialise with MessagePack.

    ** Parts and files

    - [Prelude]: scopes, tactics, hint databases, machine integers, bytes, and
      [outcome], the ways a C++ call ends (return, exception, undefined behaviour,
      [std::terminate]).
    - [StdMap]: [std::map] and [std::multimap] as sorted association lists, with the
      class [KeyOrder] of what they need of a comparison.
    - [InfoHash] (include/opendht/infohash.h): [Hash<N>], its order, bits, XOR metric
      and text.
    - [SockAddr] (include/opendht/sockaddr.h, src/utils.cpp): socket addresses as
      bytes, [ipCmp], [splitPort].
    - [Node] (src/request.h, include/opendht/node.h, src/node.cpp): requests as a
      state machine, nodes, and the store of the objects they share by pointer.
    - [RoutingTable] (routing_table.h and .cpp): buckets, [onNewNode], [split],
      [findClosestNodes]; [NetworkEngine::sendPing] is the class [PingEngine].
    - [Status] (src/dht.cpp): the status of the two networks and the bootstrap, as a
      machine whose steps are status changes, hosts, pings and jobs.
    - [NodeCache] (node_cache.h and .cpp): the weak references to known nodes.
    - [Value], [Query], [QueryText] (include/opendht/value.h, src/value.cpp): values,
      their wire format and signatures over the class [Gnutls]; filters, field values,
      queries, and the text of queries with the stream operations its parser uses.
    - [Storage] (src/storage.h, src/listener.h): the values and listeners of one key,
      with the usage of each address; [std::partition] is the class [Partition].
    - [DhtStorage] (the storage operations of src/dht.cpp): storing, refreshing,
      erasing, expiring, and the discarding of values when the limit is exceeded.
      [DhtState]: the values saved and loaded.  [Maintain]: the maintenance of storages
      and buckets and the addresses that peers report; the draws are arguments.
    - [Message] (src/parsed_message.h): the parser of packets and the reassembly of
      values sent in parts; [Wire], [Fragment], [Reply], [NodeInfo]: the packers of
      src/network_engine.cpp for requests, parts, replies and node lists.
    - [NetworkEngine] (src/network_engine.cpp): requests with their retries, the
      processing of packets, over the class [Handlers] of the node's callbacks; its
      monad keeps the state when an exception is thrown.  [Serving], [Retry] and
      [Partial] compose it with the packers and the parser, for handlers that satisfy
      [HandlersLaws].
    - [ValueCache], [OpCache] (src/value_cache.h, src/op_cache.h and .cpp): what a
      listener is told of the values that many nodes hold.
    - [SearchNode], [Search] (src/search.h): the nodes of a search with their requests,
      and a search with its gets, puts and listeners.
    - [DhtOps], [DhtSearch], [SearchStep], [DhtServe] (src/dht.cpp): the operations of
      a user on two networks; the table of searches; the steps of a search, which send
      requests through the class [NetSend] (laws [NetSendLaws], discharged by
      [node_net]); the handlers of requests, with their tokens.
    - [Crypto] (src/crypto.cpp): AES-GCM with keys and passwords, encryption for a
      public key in blocks, signing, certificates, over the classes [Ciphers], [Rsa]
      and [X509] and their laws.
    - [SecureDht] (src/securedht.cpp): the values as shared cells that remember their
      check, the policies, the keys and certificates found, signed and encrypted puts.
    - [Prefix], [PhtCache], [Pht] (include/opendht/indexation/pht.h, src/indexation/
      pht.cpp): prefixes, the space-filling curve and the linearization of keys; the
      cache as a heap of nodes with weak and shared pointers; the entries, the search
      for a leaf as a machine whose [get]s are answered in any order, and what an
      insertion asks of the DHT.  [PhtSearch]: proofs about the search.
    - [RateLimiter], [Scheduler] (include/opendht/rate_limiter.h, scheduler.h).
    - [Base64] (src/base64.cpp).
    - [MsgPack] (msgpack-c, v1/pack.hpp and v3/parse.hpp): packer and parser.
    - [Sha256] (include/sha/sha256.cpp) with FIPS 180-4 in Module [Fips].
    - [Ledger]: the records of the ledger, its stores and messages, the state and
      error monad of its handlers, the class [Env] for the trie and the adaptors.
    - [Token], [Asset], [Chain], [Transaction], [Client]: the operations of
      src/verified-blockchain/src/*.cpp, composed as the code composes them.

    ** What the theorems show

    The routing table keeps its partition of the identifier space and finds the
    closest good nodes; a request ends at most once; the MessagePack parser terminates
    on every buffer and inverts the packer; values and queries survive the wire, and
    signatures with them; SHA-256 and Base64 are the standard ones, whatever way the
    data is cut; requests, replies and values in parts that the packers make are what
    the parsers read, a request reaches its handler and what the handler gives goes
    back under its transaction id, a request without answer is sent three times when
    its timers are late, and foreign packets are dropped; a node that gets a key can
    put a value with the token it was given and others then get it as long as the
    value is kept, tokens are bound to an IP, a port and the secrets, and announces
    store only what the policy that applies allows; a search keeps the closest nodes,
    its sending loop ends with at most four nodes solicited, and every callback it was
    given is called once or accounted for; a node that is cut off keeps an attempt to
    connect in its queue until the doubled period overflows; listeners see the union
    of what the nodes hold; an application behind [SecureDht] sees exactly the
    authentic values, the key found for a node is that node's, and an encrypted value
    reaches its addressee; keys of an index are linearized injectively, its cache is a
    set of paths, the search ends and reports the leaf in every order of the
    callbacks, and a split leaves no gap above the new leaf; what a node saves it
    loads, values are given up only after they were handed over, and the body of the
    text of a query is read back; a storage keeps at most 1024 values with distinct
    ids and an exact size, and the counters of the node are the sums over its storages
    in every reachable state; the scheduler serves every due job, in order when jobs
    schedule for later; the rate limiter is the sliding window it means to be; the
    ledger's handlers are described on every branch. Where the code does not do what
    it means to, a theorem says what it does instead.

    ** Bounds and fuel

    Loops that are not structural take fuel, and a theorem gives the fuel that is
    enough: 161 rounds for [onNewNode] (one per bit of an identifier and one), one
    more than the number of buckets for [findClosestNodes], one more than the length
    of the buffer for the MessagePack parser, one more than the weight of the due
    timers (their number, when jobs schedule for later) for [Scheduler.run], one more
    than the number of pairs of a node and a query that can be asked of it for
    [send_loop], three calls for a callback of the search of the prefix hash tree, one
    more than the length of the text for the loops of query texts. The loops of
    [expireStore] need not end; their theorems hold for every fuel. Integers are [Z]
    with their wrap-around written out where the code can reach it; time points are
    nanoseconds. A value that points to a quota bucket which [expireStore] has erased
    is written through a dangling pointer by the code
    ([DhtStorage.quota_bucket_dangles]); the storage operations leave the buckets
    alone there.

    ** Not modelled

    DhtRunner, the proxy client and server, the TLS and HTTP layers are threads, sockets
    and calls of GnuTLS, asio and restinio; of the crypto layer, key generation, names,
    revocation and trust lists are calls of GnuTLS.  Of the DHT node, the shutdown,
    the jobs that start the maintenance, the nodes of the saved state and the printing of
    tables are left out.  The network engine's
    closures that hand a reply to its request are events of the components above.
    The trie of the ledger is a header without its implementation.  Logging is left
    out everywhere. *)
From stdpp Require Export prelude base list option gmap strings sorting.
From Stdlib Require Export ZArith Lia.

(** ** Scopes and notations *)

Declare Scope vb_scope.
Delimit Scope vb_scope with vb.
#[global] Open Scope Z_scope.

(** ** Hint databases and tactics *)

Create HintDb vb.
Create HintDb vb_wf.

(** Case analysis on the outermost [if]/[match] of the goal or hypotheses. *)
Ltac cases :=
  repeat (case_match; simplify_eq/=; try done).

(** Turn boolean comparisons of [Z] into propositions. *)
Ltac zb :=
  repeat match goal with
  | H : (_ <? _)%Z = true |- _ => apply Z.ltb_lt in H
  | H : (_ <? _)%Z = false |- _ => apply Z.ltb_ge in H
  | H : (_ <=? _)%Z = true |- _ => apply Z.leb_le in H
  | H : (_ <=? _)%Z = false |- _ => apply Z.leb_gt in H
  | H : (_ =? _)%Z = true |- _ => apply Z.eqb_eq in H
  | H : (_ =? _)%Z = false |- _ => apply Z.eqb_neq in H
  | H : (_ >? _)%Z = true |- _ => rewrite Z.gtb_ltb in H; apply Z.ltb_lt in H
  | H : (_ >? _)%Z = false |- _ => rewrite Z.gtb_ltb in H; apply Z.ltb_ge in H
  | H : (_ >=? _)%Z = true |- _ => rewrite Z.geb_leb in H; apply Z.leb_le in H
  | H : (_ >=? _)%Z = false |- _ => rewrite Z.geb_leb in H; apply Z.leb_gt in H
  | H : (_ && _) = true |- _ => apply andb_true_iff in H; destruct H
  | H : (_ || _) = false |- _ => apply orb_false_iff in H; destruct H
  | H : negb _ = true |- _ => apply negb_true_iff in H
  | H : negb _ = false |- _ => apply negb_false_iff in H
  end.

(** The record [m] with the member [f] replaced by [v]: [c] is its constructor, and
    [projs] the nested tuple of its projections. *)
Ltac with_member c m f v projs :=
  lazymatch projs with
  | tt => c
  | (?p, ?rest) =>
      let x := lazymatch p with f => v | _ => constr:(p m) end in
      with_member constr:(c x) m f v rest
  end.

(** Prove a decidable proposition by evaluating its decision procedure. *)
Ltac by_compute := apply (bool_decide_unpack _); vm_compute; exact I.

(** An equation between closed terms, by the virtual machine and without reading the
    instances back. *)
Ltac vm_refl := match goal with |- ?a = ?b => exact (eq_refl b <: a = b) end.

(** ** Machine integers

    A [w]-bit unsigned integer is a [Z] in [0, 2^w); the arithmetic of the
    source wraps, and the model writes the wrap-around out. *)

Definition wrap (w z : Z) : Z := z mod 2 ^ w.
Abbreviation u8 := (wrap 8).
Abbreviation u32 := (wrap 32).
Abbreviation u64 := (wrap 64).

Definition is_byte (z : Z) : Prop := 0 <= z < 256.

Lemma wrap_range w z : 0 <= w -> 0 <= wrap w z < 2 ^ w.
Proof. intros. apply Z.mod_pos_bound. lia. Qed.

Lemma wrap_small w z : 0 <= z < 2 ^ w -> wrap w z = z.
Proof. apply Z.mod_small. Qed.

Lemma u8_is_byte z : is_byte (u8 z).
Proof. apply (wrap_range 8). lia. Qed.

#[export] Instance is_byte_dec z : Decision (is_byte z).
Proof. unfold is_byte. apply _. Defined.

#[export] Hint Resolve u8_is_byte : vb_wf.

(** Bitwise operations stay in range. *)
Lemma testbit_high w z i : 0 <= z < 2 ^ w -> w <= i -> Z.testbit z i = false.
Proof.
  intros Hz Hi.
  destruct (decide (z = 0)) as [->|]; [apply Z.bits_0|].
  apply Z.bits_above_log2; [lia|].
  assert (Z.log2 z < w); [|lia]. apply Z.log2_lt_pow2; lia.
Qed.

Lemma range_of_testbit w z :
  0 <= w -> 0 <= z -> (forall i, w <= i -> Z.testbit z i = false) -> z < 2 ^ w.
Proof.
  intros Hw Hz Hb. destruct (Z.lt_ge_cases z (2 ^ w)) as [|Hge]; [done|].
  assert (z <> 0) by (pose proof (Z.pow_pos_nonneg 2 w); lia).
  assert (w <= Z.log2 z) by (apply Z.log2_le_pow2; lia).
  specialize (Hb (Z.log2 z) ltac:(lia)).
  by rewrite Z.bit_log2 in Hb by lia.
Qed.

Lemma lxor_range w a b :
  0 <= w -> 0 <= a < 2 ^ w -> 0 <= b < 2 ^ w -> 0 <= Z.lxor a b < 2 ^ w.
Proof.
  intros Hw Ha Hb. split; [apply Z.lxor_nonneg; lia|].
  apply range_of_testbit; [done|apply Z.lxor_nonneg; lia|].
  intros i Hi. by rewrite Z.lxor_spec, !(testbit_high w).
Qed.

Lemma lor_range w a b :
  0 <= w -> 0 <= a < 2 ^ w -> 0 <= b < 2 ^ w -> 0 <= Z.lor a b < 2 ^ w.
Proof.
  intros Hw Ha Hb. split; [apply Z.lor_nonneg; lia|].
  apply range_of_testbit; [done|apply Z.lor_nonneg; lia|].
  intros i Hi. by rewrite Z.lor_spec, !(testbit_high w).
Qed.

Lemma land_range w a b :
  0 <= w -> 0 <= a < 2 ^ w -> 0 <= b -> 0 <= Z.land a b < 2 ^ w.
Proof.
  intros Hw Ha Hb. split; [apply Z.land_nonneg; lia|].
  apply range_of_testbit; [done|apply Z.land_nonneg; lia|].
  intros i Hi. by rewrite Z.land_spec, (testbit_high w a).
Qed.

Lemma lxor_is_byte a b : is_byte a -> is_byte b -> is_byte (Z.lxor a b).
Proof. apply (lxor_range 8). lia. Qed.

#[export] Hint Resolve lxor_is_byte : vb_wf.

(** ** Bytes and strings

    Buffers, [Blob]s and [std::string]s are lists of bytes. *)

Abbreviation bytes := (list Z).
Abbreviation wf_bytes := (Forall is_byte).

Definition ascii_Z (c : Ascii.ascii) : Z := Z.of_N (Ascii.N_of_ascii c).

(** A string literal of the source. *)
Definition str (s : string) : bytes := ascii_Z <$> String.list_ascii_of_string s.

Lemma ascii_Z_is_byte c : is_byte (ascii_Z c).
Proof. unfold is_byte, ascii_Z. pose proof (Ascii.N_ascii_bounded c). lia. Qed.

Lemma str_wf s : wf_bytes (str s).
Proof. unfold str. apply Forall_fmap, Forall_true. intros. apply ascii_Z_is_byte. Qed.

#[export] Hint Resolve str_wf : vb_wf.

(** The number a big-endian byte string denotes. *)
Fixpoint be_Z (l : bytes) : Z :=
  match l with
  | [] => 0
  | b :: l' => b * 256 ^ Z.of_nat (length l') + be_Z l'
  end.

Lemma be_Z_range l : wf_bytes l -> 0 <= be_Z l < 256 ^ Z.of_nat (length l).
Proof.
  induction 1 as [|b l Hb Hl IH]; [simpl; lia|].
  cbn [be_Z length]. rewrite Nat2Z.inj_succ, Z.pow_succ_r by lia.
  unfold is_byte in Hb. nia.
Qed.

Lemma be_Z_inj l1 l2 :
  wf_bytes l1 -> wf_bytes l2 -> length l1 = length l2 -> be_Z l1 = be_Z l2 -> l1 = l2.
Proof.
  intros H1. revert l2. induction H1 as [|b l Hb Hl IH]; intros [|c m] H2 Hlen; try done.
  cbn [be_Z length] in *. inversion_clear H2 as [|? ? Hc Hm]. injection Hlen as Hlen.
  rewrite <- Hlen.
  pose proof (be_Z_range l Hl). pose proof (be_Z_range m Hm). rewrite <- Hlen in *.
  intros Heq. assert (b = c) by nia. subst. f_equal. apply IH; [done..|lia].
Qed.

Lemma be_Z_app l1 l2 :
  be_Z (l1 ++ l2) = be_Z l1 * 256 ^ Z.of_nat (length l2) + be_Z l2.
Proof.
  induction l1 as [|b l IH]; [done|].
  cbn [be_Z app]. rewrite IH, length_app, Nat2Z.inj_add, Z.pow_add_r by lia. lia.
Qed.

Lemma be_Z_replicate_0 n : be_Z (replicate n 0) = 0.
Proof. induction n; [done|]. cbn [replicate be_Z]. lia. Qed.

(** The [n] big-endian bytes of a number, modulo [256 ^ n]. *)
Fixpoint be_bytes (n : nat) (z : Z) : bytes :=
  match n with
  | O => []
  | S n' => z / 256 ^ Z.of_nat n' mod 256 :: be_bytes n' z
  end.

Lemma be_bytes_length n z : length (be_bytes n z) = n.
Proof. induction n; cbn; congruence. Qed.

Lemma be_bytes_wf n z : wf_bytes (be_bytes n z).
Proof. induction n; cbn; constructor; [apply Z.mod_pos_bound; lia|done]. Qed.

Lemma be_Z_be_bytes n z : be_Z (be_bytes n z) = z mod 256 ^ Z.of_nat n.
Proof.
  induction n as [|n IH]; [by rewrite Z.mod_1_r|]. cbn [be_bytes be_Z].
  rewrite IH, be_bytes_length, Nat2Z.inj_succ, Z.pow_succ_r by lia.
  assert (0 < 256 ^ Z.of_nat n) by (apply Z.pow_pos_nonneg; lia).
  rewrite (Z.mul_comm 256), Z.rem_mul_r by lia. lia.
Qed.

#[export] Hint Resolve be_bytes_wf : vb_wf.

(** Overwrite bytes of a buffer from an offset on ([memcpy], [memset]). *)
Definition write_at (i : nat) (l a : bytes) : bytes :=
  take i a ++ l ++ drop (i + length l) a.

Lemma length_write_at i l a : (i + length l <= length a)%nat -> length (write_at i l a) = length a.
Proof. intros. unfold write_at. rewrite !length_app, length_take, length_drop. lia. Qed.

Lemma write_at_wf i l a : wf_bytes l -> wf_bytes a -> wf_bytes (write_at i l a).
Proof.
  intros. unfold write_at. apply Forall_app. split; [by apply Forall_take|].
  apply Forall_app. split; [done|by apply Forall_drop].
Qed.

#[export] Hint Resolve write_at_wf : vb_wf.

(** ** Outcomes of C++ code

    A call returns, throws, runs into behaviour the language leaves undefined
    (flowing off the end of a non-void function, signed overflow), or ends the
    program ([std::terminate]). *)

Inductive outcome (A : Type) : Type :=
| Ret (a : A)
| Throw (what : string)
| Undef (why : string)
| Terminate (why : string).
Arguments Ret {A} _.
Arguments Throw {A} _.
Arguments Undef {A} _.
Arguments Terminate {A} _.

#[export] Instance outcome_ret : MRet outcome := @Ret.
#[export] Instance outcome_bind : MBind outcome :=
  fun A B f m => match m with
             | Ret a => f a | Throw w => Throw w | Undef w => Undef w | Terminate w => Terminate w
             end.
