(* ===== verification/StdMap.v ===== *)
(** * StdMap: the ordered containers of the C++ standard library

    [std::map] is an association list kept strictly increasing in its keys (the
    order in which the source iterates over it), [std::multimap] an association
    list kept weakly increasing, a new element going after the elements with the
    same key.  [KeyOrder] is what the containers require of the comparison. *)
From S2P Require Import Prelude.

(** A comparison that is a strict order, total on the keys that satisfy [kvalid]. *)
Class KeyOrder {K : Type} (ltb : K -> K -> bool) (kvalid : K -> Prop) : Prop := {
  klt_irrefl k : ltb k k = false;
  klt_trans a b c : ltb a b = true -> ltb b c = true -> ltb a c = true;
  klt_total a b : kvalid a -> kvalid b -> ltb a b = false -> ltb b a = false -> a = b;
}.

#[export] Instance Z_key_order : KeyOrder Z.ltb (fun _ => True).
Proof. split; intros; zb; lia. Qed.

Section OMap.
Context {K V : Type} (ltb : K -> K -> bool) (kvalid : K -> Prop).

Abbreviation omap := (list (K * V)).

Definition key_lt (a b : K * V) : Prop := ltb a.1 b.1 = true.

(** The representation invariant of [std::map]. *)
Definition om_wf (m : omap) : Prop :=
  StronglySorted key_lt m /\ Forall (fun e => kvalid e.1) m.

(** [find]. *)
Fixpoint om_find (k : K) (m : omap) : option V :=
  match m with
  | [] => None
  | (k', v) :: m' => if ltb k k' then None else if ltb k' k then om_find k m' else Some v
  end.

(** [m[k] = v]: insert or assign. *)
Fixpoint om_set (k : K) (v : V) (m : omap) : omap :=
  match m with
  | [] => [(k, v)]
  | (k', v') :: m' =>
      if ltb k k' then (k, v) :: m
      else if ltb k' k then (k', v') :: om_set k v m' else (k', v) :: m'
  end.

(** [emplace]: the flag tells whether the element was inserted. *)
Definition om_emplace (k : K) (v : V) (m : omap) : omap * bool :=
  match om_find k m with
  | Some _ => (m, false)
  | None => (om_set k v m, true)
  end.

(** [erase(key)]. *)
Fixpoint om_erase (k : K) (m : omap) : omap :=
  match m with
  | [] => []
  | (k', v') :: m' =>
      if ltb k k' then m else if ltb k' k then (k', v') :: om_erase k m' else m'
  end.

(** [lower_bound]: the elements before the iterator, and those from it on. *)
Fixpoint om_lower_bound (k : K) (m : omap) : omap * omap :=
  match m with
  | [] => ([], [])
  | (k', v') :: m' =>
      if ltb k' k then let '(l, r) := om_lower_bound k m' in ((k', v') :: l, r) else ([], m)
  end.

(** [multimap::emplace]: after the elements whose key is not greater. *)
Fixpoint mm_insert (k : K) (v : V) (m : omap) : omap :=
  match m with
  | [] => [(k, v)]
  | (k', v') :: m' => if ltb k k' then (k, v) :: m else (k', v') :: mm_insert k v m'
  end.

Definition key_le (a b : K * V) : Prop := ltb b.1 a.1 = false.

(** The representation invariant of [std::multimap]. *)
Definition mm_wf (m : omap) : Prop := StronglySorted key_le m.

Context `{!KeyOrder ltb kvalid}.

Lemma ltb_irrefl k : ltb k k = false.
Proof. apply klt_irrefl. Qed.

Lemma ltb_trans a b c : ltb a b = true -> ltb b c = true -> ltb a c = true.
Proof. apply klt_trans. Qed.

Lemma klt_asym a b : ltb a b = true -> ltb b a = false.
Proof.
  intros H. destruct (ltb b a) eqn:E; [|done].
  pose proof (ltb_trans _ _ _ H E) as Haa. by rewrite ltb_irrefl in Haa.
Qed.

Lemma key_cases k k' :
  kvalid k -> kvalid k' ->
  (ltb k k' = true /\ ltb k' k = false /\ k <> k') \/
  (ltb k' k = true /\ ltb k k' = false /\ k <> k') \/
  (ltb k k' = false /\ ltb k' k = false /\ k = k').
Proof.
  intros Hk Hk'. destruct (ltb k k') eqn:E1, (ltb k' k) eqn:E2.
  - by rewrite (klt_asym _ _ E1) in E2.
  - left. split_and!; [done..|]. intros ->. by rewrite ltb_irrefl in E1.
  - right; left. split_and!; [done..|]. intros ->. by rewrite ltb_irrefl in E2.
  - right; right. split_and!; [done..|]. by apply klt_total.
Qed.

(** Case analysis on the comparison of two valid keys. *)
Ltac key_cases k k' :=
  let H1 := fresh "Hlt" in let H2 := fresh "Hgt" in let H3 := fresh "Hkk" in
  destruct (key_cases k k') as [(H1 & H2 & H3)|[(H1 & H2 & H3)|(H1 & H2 & H3)]];
  [done|done|rewrite ?H1, ?H2 in *|rewrite ?H1, ?H2 in *|subst; rewrite ?ltb_irrefl in *].

Lemma om_wf_nil : om_wf [].
Proof. split; constructor. Qed.

Lemma om_wf_cons k v m :
  om_wf ((k, v) :: m) <->
  kvalid k /\ om_wf m /\ Forall (fun e => ltb k e.1 = true) m.
Proof.
  unfold om_wf. rewrite Forall_cons. split.
  - intros [Hs [Hk Hv]]. inversion_clear Hs. done.
  - intros (Hk & [Hs Hv] & Hl). split; [by constructor|done].
Qed.

Lemma om_find_above k m : Forall (fun e => ltb k e.1 = true) m -> om_find k m = None.
Proof. destruct m as [|[k' v'] m]; [done|]. inversion_clear 1. simpl in *. by case_match. Qed.

Lemma om_set_lb k0 k v m :
  ltb k0 k = true -> Forall (fun e => ltb k0 e.1 = true) m ->
  Forall (fun e => ltb k0 e.1 = true) (om_set k v m).
Proof.
  intros H. induction 1 as [|[k' v'] m Hk' Hm IH]; simpl; [by repeat constructor|].
  repeat case_match; by repeat constructor.
Qed.

Lemma om_set_wf k v m : kvalid k -> om_wf m -> om_wf (om_set k v m).
Proof.
  intros Hk. induction m as [|[k' v'] m IH]; simpl.
  - intros _. rewrite om_wf_cons. auto using om_wf_nil.
  - rewrite om_wf_cons. intros (Hk' & Hwf & Hall). key_cases k k'.
    + rewrite !om_wf_cons. split_and!; [done..|]. constructor; [done|].
      eapply Forall_impl; [exact Hall|]. intros e He. by eapply ltb_trans.
    + rewrite om_wf_cons. split_and!; auto using om_set_lb.
    + by rewrite om_wf_cons.
Qed.

Lemma om_erase_sub k m e : e ∈ om_erase k m -> e ∈ m.
Proof.
  induction m as [|[k' v'] m IH]; simpl; [done|]. repeat case_match; set_solver.
Qed.

Lemma om_erase_wf k m : om_wf m -> om_wf (om_erase k m).
Proof.
  induction m as [|[k' v'] m IH]; simpl; [done|]. intros Hwf. pose proof Hwf as Hwf'.
  rewrite om_wf_cons in Hwf. destruct Hwf as (Hk' & Hm & Hall).
  repeat case_match; [done| |done]. rewrite om_wf_cons. split_and!; [done|auto|].
  rewrite Forall_forall in Hall |- *. eauto using om_erase_sub.
Qed.

Lemma om_find_set k k1 v m :
  kvalid k -> kvalid k1 -> om_wf m ->
  om_find k1 (om_set k v m) = if ltb k k1 || ltb k1 k then om_find k1 m else Some v.
Proof.
  intros Hk Hk1. induction m as [|[k' v'] m IH]; simpl.
  - intros _. key_cases k k1; done.
  - rewrite om_wf_cons. intros (Hk' & Hm & Hall). key_cases k k'; simpl.
    + key_cases k1 k; simpl; [|done|done].
      by rewrite (ltb_trans _ _ _ Hlt0 Hlt).
    + rewrite IH by done. key_cases k1 k'; [|done|].
      * by rewrite (ltb_trans _ _ _ Hlt0 Hlt), orb_true_r.
      * by rewrite Hlt, orb_true_r.
    + key_cases k1 k'; done.
Qed.

Lemma om_find_set_eq k v m : kvalid k -> om_wf m -> om_find k (om_set k v m) = Some v.
Proof. intros. rewrite om_find_set by done. by rewrite ltb_irrefl. Qed.

Lemma om_find_set_ne k k1 v m :
  kvalid k -> kvalid k1 -> om_wf m -> k <> k1 -> om_find k1 (om_set k v m) = om_find k1 m.
Proof. intros. rewrite om_find_set by done. key_cases k k1; done. Qed.

Lemma om_find_erase k k1 m :
  kvalid k -> kvalid k1 -> om_wf m ->
  om_find k1 (om_erase k m) = if ltb k k1 || ltb k1 k then om_find k1 m else None.
Proof.
  intros Hk Hk1. induction m as [|[k' v'] m IH]; simpl.
  - intros _. by case_match.
  - rewrite om_wf_cons. intros (Hk' & Hm & Hall). key_cases k k'; simpl.
    + key_cases k1 k; simpl; [done|done|]. by rewrite Hlt.
    + rewrite IH by done. key_cases k1 k'; [|done|].
      * by rewrite (ltb_trans _ _ _ Hlt0 Hlt), orb_true_r.
      * by rewrite Hlt, orb_true_r.
    + key_cases k1 k'; simpl; [| |by apply om_find_above].
      * rewrite om_find_above; [done|]. eapply Forall_impl; [exact Hall|].
        intros e He. by eapply ltb_trans.
      * done.
Qed.

Lemma om_find_erase_eq k m : kvalid k -> om_wf m -> om_find k (om_erase k m) = None.
Proof. intros. rewrite om_find_erase by done. by rewrite ltb_irrefl. Qed.

Lemma om_find_Some_elem k v m : kvalid k -> om_wf m -> om_find k m = Some v <-> (k, v) ∈ m.
Proof.
  intros Hk. induction m as [|[k' v'] m IH]; simpl; [set_solver|].
  rewrite om_wf_cons. intros (Hk' & Hm & Hall). rewrite Forall_forall in Hall.
  rewrite elem_of_cons. key_cases k k'.
  - split; [done|]. intros [?|Hin]; [congruence|]. apply Hall in Hin. simpl in Hin. congruence.
  - rewrite IH by done. split; [by right|]. intros [?|?]; [congruence|done].
  - split; [intros [= ->]; by left|]. intros [?|Hin]; [congruence|].
    apply Hall in Hin. simpl in Hin. by rewrite ltb_irrefl in Hin.
Qed.

Lemma om_emplace_wf k v m : kvalid k -> om_wf m -> om_wf (om_emplace k v m).1.
Proof. intros. unfold om_emplace. case_match; [done|]. by apply om_set_wf. Qed.

(** [lower_bound] splits the map at the first key that is not smaller. *)
Lemma om_lower_bound_app k m : (om_lower_bound k m).1 ++ (om_lower_bound k m).2 = m.
Proof.
  induction m as [|[k' v'] m IH]; [done|]. simpl. case_match; [|done].
  destruct (om_lower_bound k m). simpl in *. by rewrite IH.
Qed.

Lemma om_lower_bound_split k m :
  om_wf m ->
  Forall (fun e => ltb e.1 k = true) (om_lower_bound k m).1 /\
  Forall (fun e => ltb e.1 k = false) (om_lower_bound k m).2.
Proof.
  induction m as [|[k' v'] m IH]; simpl; [done|]. rewrite om_wf_cons. intros (Hk' & Hm & Hall).
  destruct (ltb k' k) eqn:E.
  - destruct (om_lower_bound k m). simpl in *. destruct (IH Hm). by repeat constructor.
  - split; [done|]. constructor; [done|]. eapply Forall_impl; [exact Hall|]. intros e He. simpl in He.
    destruct (ltb e.1 k) eqn:E'; [|done]. by rewrite (ltb_trans _ _ _ He E') in E.
Qed.

Lemma Forall_sublist_of {A} (P : A -> Prop) l l' : l' `sublist_of` l -> Forall P l -> Forall P l'.
Proof. intros Hs. rewrite !Forall_forall. eauto using elem_of_sublist. Qed.

Lemma om_wf_sublist m m' : m' `sublist_of` m -> om_wf m -> om_wf m'.
Proof.
  intros Hs [Hm Hv]. split; [|by eapply Forall_sublist_of].
  clear Hv. induction Hs as [|e m' m Hs IH|e m' m Hs IH]; inversion_clear Hm; [constructor| |auto].
  constructor; [auto|]. by eapply Forall_sublist_of.
Qed.

Lemma mm_insert_perm k v m : mm_insert k v m ≡ₚ (k, v) :: m.
Proof.
  induction m as [|[k' v'] m IH]; simpl; [done|]. case_match; [done|].
  rewrite IH. apply Permutation_swap.
Qed.

Lemma mm_insert_wf k v m : mm_wf m -> mm_wf (mm_insert k v m).
Proof.
  unfold mm_wf. induction 1 as [|[k' v'] m Hs IH Hall]; simpl; [by repeat constructor|].
  destruct (ltb k k') eqn:E.
  - constructor; [by constructor|]. constructor.
    + unfold key_le. simpl. by apply klt_asym.
    + eapply Forall_impl; [exact Hall|]. unfold key_le. simpl. intros [k1 v1] H1. simpl in *.
      destruct (ltb k1 k) eqn:E1; [|done]. by rewrite (ltb_trans _ _ _ E1 E) in H1.
  - constructor; [done|]. rewrite Forall_forall in Hall |- *. intros e He.
    rewrite mm_insert_perm, elem_of_cons in He. destruct He as [-> |?]; [done|auto].
Qed.
End OMap.

(** ** Maps with integer keys *)

Section ZMap.
Context {V : Type}.
Implicit Types (k : Z) (v : V) (m : list (Z * V)).

Definition zm_wf (m : list (Z * V)) : Prop := om_wf Z.ltb (fun _ => True) m.

Lemma zm_wf_nil : zm_wf [].
Proof. apply om_wf_nil. Qed.
Lemma zm_set_wf k v m : zm_wf m -> zm_wf (om_set Z.ltb k v m).
Proof. apply (om_set_wf Z.ltb (fun _ => True)). done. Qed.
Lemma zm_erase_wf k m : zm_wf m -> zm_wf (om_erase Z.ltb k m).
Proof. apply (om_erase_wf Z.ltb (fun _ => True)). Qed.
Lemma zm_find_set_eq k v m : zm_wf m -> om_find Z.ltb k (om_set Z.ltb k v m) = Some v.
Proof. apply (om_find_set_eq Z.ltb (fun _ => True)). done. Qed.
Lemma zm_find_set_ne k k1 v m :
  zm_wf m -> k <> k1 -> om_find Z.ltb k1 (om_set Z.ltb k v m) = om_find Z.ltb k1 m.
Proof. apply (om_find_set_ne Z.ltb (fun _ => True)); done. Qed.
Lemma zm_find_erase_eq k m : zm_wf m -> om_find Z.ltb k (om_erase Z.ltb k m) = None.
Proof. apply (om_find_erase_eq Z.ltb (fun _ => True)). done. Qed.
Lemma zm_find_erase_ne k k1 m :
  zm_wf m -> k <> k1 -> om_find Z.ltb k1 (om_erase Z.ltb k m) = om_find Z.ltb k1 m.
Proof.
  intros Hwf Hne. unfold zm_wf in Hwf. rewrite (om_find_erase Z.ltb (fun _ => True)) by done.
  destruct (Z.ltb_spec k k1), (Z.ltb_spec k1 k); try done; lia.
Qed.

(** Adding after the last key. *)
Lemma zm_set_last k v m : Forall (fun e => e.1 < k) m -> om_set Z.ltb k v m = m ++ [(k, v)].
Proof.
  induction 1 as [|[k' v'] m Hk Hm IH]; [done|]. simpl in *.
  destruct (Z.ltb_spec k k'), (Z.ltb_spec k' k); try lia. by rewrite IH.
Qed.

Lemma zm_find_last k m : Forall (fun e => e.1 < k) m -> om_find Z.ltb k m = None.
Proof.
  induction 1 as [|[k' v'] m Hk Hm IH]; [done|]. simpl in *.
  destruct (Z.ltb_spec k k'), (Z.ltb_spec k' k); try lia. done.
Qed.

(** The entries as a finite map, through a projection of the values. *)
Definition zm_view {B} (f : V -> B) (m : list (Z * V)) : gmap Z B :=
  list_to_map (map (fun e => (e.1, f e.2)) m).

Lemma zm_view_lookup {B} (f : V -> B) m k : zm_wf m -> zm_view f m !! k = f <$> om_find Z.ltb k m.
Proof.
  induction m as [|[k' v] m IH]; intros Hwf; [apply lookup_empty|].
  unfold zm_wf in Hwf. rewrite om_wf_cons in Hwf. destruct Hwf as (_ & Hm & Habove).
  unfold zm_view in *. cbn. destruct (Z.ltb_spec k k'), (Z.ltb_spec k' k); try lia.
  - rewrite lookup_insert_ne by lia. rewrite IH by done.
    rewrite om_find_above; [done|]. eapply Forall_impl; [exact Habove|]. intros e He. cbn in He. zb.
    apply Z.ltb_lt. lia.
  - rewrite lookup_insert_ne by lia. by apply IH.
  - assert (k = k') as -> by lia. by rewrite lookup_insert_eq.
Qed.

Lemma zm_view_set {B} (f : V -> B) m k v :
  zm_wf m -> zm_view f (om_set Z.ltb k v m) = <[k := f v]> (zm_view f m).
Proof.
  intros Hm. apply map_eq. intros k'. rewrite zm_view_lookup by (by apply zm_set_wf).
  destruct (decide (k' = k)) as [-> |Hne].
  - by rewrite zm_find_set_eq, lookup_insert_eq.
  - rewrite zm_find_set_ne, lookup_insert_ne by done. by rewrite zm_view_lookup.
Qed.

Lemma zm_view_erase {B} (f : V -> B) m k :
  zm_wf m -> zm_view f (om_erase Z.ltb k m) = delete k (zm_view f m).
Proof.
  intros Hm. apply map_eq. intros k'. rewrite zm_view_lookup by (by apply zm_erase_wf).
  destruct (decide (k' = k)) as [-> |Hne].
  - by rewrite zm_find_erase_eq, lookup_delete_eq.
  - rewrite zm_find_erase_ne, lookup_delete_ne by done. by rewrite zm_view_lookup.
Qed.

Lemma zm_find_elem k v m : zm_wf m -> om_find Z.ltb k m = Some v <-> (k, v) ∈ m.
Proof. intros. by apply (om_find_Some_elem Z.ltb (fun _ => True)). Qed.
End ZMap.

#[export] Hint Resolve zm_wf_nil zm_set_wf zm_erase_wf : vb_wf.
