(* ===== verification/InfoHash.v ===== *)
(** * InfoHash: the identifiers of the overlay network

    Models [Hash<N>] of src/opendht-2.1.4/include/opendht/infohash.h: the byte
    array, its comparison operators, the XOR metric, bit access, and the
    hexadecimal text form.  The byte array of a hash is a list of [N] bytes;
    [wf_hash N] is the invariant of the type.  The development uses [N = 20]
    ([InfoHash]) and [N = 32] ([h256]); operations are stated for every [N]. *)
From S2P Require Import Prelude StdMap.

(** ** Data *)

(** [std::array<uint8_t, N> data_]. *)
Definition Hash : Type := bytes.

#[export] Typeclasses Transparent Hash.

Definition wf_hash (N : nat) (h : Hash) : Prop := length h = N /\ wf_bytes h.

#[export] Instance wf_hash_dec N h : Decision (wf_hash N h).
Proof. unfold wf_hash. apply _. Defined.

(** [#define HASH_LEN 20u]. *)
Definition HASH_LEN : nat := 20.

Section Hash.
Context (N : nat).

(** [Hash () noexcept]: all zeroes. *)
Definition Hash_zero : Hash := replicate N 0.

(** [Hash (const uint8_t* h, size_t data_len)]. *)
Definition Hash_of_buffer (h : bytes) : Hash :=
  if Z.of_nat (length h) <? Z.of_nat N then Hash_zero else take N h.

(** The [i]-th [uint32_t] of a buffer, as read on a little-endian machine. *)
Definition word_at (h : bytes) (i : nat) : Z :=
  let b k := nth (4 * i + k)%nat h 0 in
  b 0%nat + 2 ^ 8 * b 1%nat + 2 ^ 16 * b 2%nat + 2 ^ 24 * b 3%nat.

(** [operator==]: the loop over the [N / sizeof(uint32_t)] words. *)
Definition op_eq (a b : Hash) : bool :=
  forallb (fun i => word_at a i =? word_at b i) (seq 0 (N / 4)).

(** [operator!=]. *)
Definition op_ne (a b : Hash) : bool := negb (op_eq a b).

(** [explicit operator bool]: some word is not zero. *)
Definition op_bool (a : Hash) : bool :=
  existsb (fun i => negb (word_at a i =? 0)) (seq 0 (N / 4)).

End Hash.

(** [operator<]: lexicographic order of the bytes. *)
Fixpoint op_lt (a b : Hash) : bool :=
  match a, b with
  | x :: a', y :: b' => if negb (x =? y) then x <? y else op_lt a' b'
  | _, _ => false
  end.

(** [cmp]: the sign of [memcmp]. *)
Fixpoint cmp (a b : Hash) : Z :=
  match a, b with
  | x :: a', y :: b' => if x =? y then cmp a' b' else if x <? y then -1 else 1
  | _, _ => 0
  end.

(** [lowbit]: the loop from the last byte down, then from the last bit down. *)
Fixpoint last_nonzero (h : Hash) (i : nat) : option nat :=
  match i with
  | O => None
  | S i' => if negb (nth i' h 0 =? 0) then Some i' else last_nonzero h i'
  end.

(** The inner loop [for (j = 7; j >= 0; j--) if (x & (0x80 >> j)) break;]:
    the value of [j] when it stops. *)
Fixpoint low_j (x : Z) (k : nat) : Z :=
  match k with
  | O => -1
  | S k' => if negb (Z.land x (Z.shiftr 128 (Z.of_nat k')) =? 0) then Z.of_nat k' else low_j x k'
  end.

Definition lowbit (h : Hash) : Z :=
  match last_nonzero h (length h) with
  | None => -1
  | Some i => 8 * Z.of_nat i + low_j (nth i h 0) 8
  end.

(** The inner loop of [commonBits], [while ((x & 0x80) == 0) { x <<= 1; j++; }]
    on a [uint8_t]; [None] when the fuel does not suffice. *)
Fixpoint lead_j (fuel : nat) (x j : Z) : option Z :=
  if negb (Z.land x 128 =? 0) then Some j
  else match fuel with
       | O => None
       | S fuel' => lead_j fuel' (u8 (Z.shiftl x 1)) (j + 1)
       end.

(** [commonBits]: [i] runs over the equal bytes; eight shifts always suffice
    for the byte that differs ([commonBits_spec]). *)
Fixpoint commonBits_from (i : Z) (a b : Hash) : option Z :=
  match a, b with
  | x :: a', y :: b' =>
      if negb (x =? y)
      then match lead_j 8 (Z.lxor x y) 0 with Some j => Some (8 * i + j) | None => None end
      else commonBits_from (i + 1) a' b'
  | _, _ => Some (8 * i)
  end.

Definition commonBits (a b : Hash) : option Z := commonBits_from 0 a b.

(** [xorCmp]: which of [id1] and [id2] is closer to [this]. *)
Fixpoint xorCmp (this id1 id2 : Hash) : Z :=
  match this, id1, id2 with
  | t :: this', x :: id1', y :: id2' =>
      if x =? y then xorCmp this' id1' id2'
      else if Z.lxor x t <? Z.lxor y t then -1 else 1
  | _, _, _ => 0
  end.

(** [getBit]: bits are numbered from the start of the array. *)
Definition getBit (h : Hash) (nbit : Z) : bool :=
  let num := nth (Z.to_nat (nbit / 8)) h 0 in
  let bit := 7 - nbit mod 8 in
  negb (Z.land (Z.shiftr num bit) 1 =? 0).

(** [setBit]: [num ^= (-b ^ num) & (1 << bit)] on a [uint8_t]. *)
Definition setBit (h : Hash) (nbit : Z) (b : bool) : Hash :=
  let i := Z.to_nat (nbit / 8) in
  let num := nth i h 0 in
  let bit := 7 - nbit mod 8 in
  let mb := - Z.b2z b in
  <[i := u8 (Z.lxor num (Z.land (Z.lxor mb num) (Z.shiftl 1 bit)))]> h.

(** ** Text form *)

(** [hex2bin]; [None] stands for the [std::domain_error]. *)
Definition hex2bin (c : Z) : option Z :=
  if (97 <=? c) && (c <=? 102) then Some (10 + c - 97)
  else if (65 <=? c) && (c <=? 70) then Some (10 + c - 65)
  else if (48 <=? c) && (c <=? 57) then Some (c - 48)
  else None.

(** The loop of [fromString] over [N] pairs of characters; [None] when a
    character is not hexadecimal. *)
Fixpoint fromString_loop (n : nat) (l : bytes) : option Hash :=
  match n, l with
  | O, _ => Some []
  | S n', hi :: lo :: l' =>
      match hex2bin hi, hex2bin lo with
      | Some a, Some b => option_map (cons (u8 (Z.lor (Z.shiftl a 4) b))) (fromString_loop n' l')
      | _, _ => None
      end
  | S _, _ => None
  end.

(** [fromString]: on a [domain_error] the array is filled with zeroes. *)
Definition fromString (N : nat) (l : bytes) : Hash :=
  match fromString_loop N l with Some h => h | None => Hash_zero N end.

(** [Hash(const std::string& hex)]. *)
Definition Hash_of_string (N : nat) (hex : bytes) : Hash :=
  if Z.of_nat (length hex) <? 2 * Z.of_nat N then Hash_zero N else fromString N hex.

Definition hex_digits : bytes := str "0123456789abcdef".

(** [HexMap]: the two characters of a byte. *)
Definition hex_map (b : Z) : Z * Z :=
  (nth (Z.to_nat (Z.land (Z.shiftr b 4) 15)) hex_digits 0,
   nth (Z.to_nat (Z.land b 15)) hex_digits 0).

(** [to_c_str] and [toString]: the [2 N] characters written to the buffer. *)
Definition toString (h : Hash) : bytes :=
  concat ((fun b => let '(c1, c2) := hex_map b in [c1; c2]) <$> h).

Abbreviation InfoHash_of_string := (Hash_of_string HASH_LEN).
Abbreviation zeroes := (Hash_zero HASH_LEN).

(** ** Numbers denoted by hashes

    The identifier space is the set of numbers below [2 ^ (8 N)]; [be_Z] reads a
    hash as the number it denotes, and every operation is characterised on it. *)

Lemma testbit_concat_low k a r i :
  0 <= i < k -> Z.testbit (a * 2 ^ k + r) i = Z.testbit r i.
Proof.
  intros Hi. rewrite <- (Z.mod_pow2_bits_low (a * 2 ^ k + r) k) by lia.
  rewrite Z.add_comm, Z.mod_add by lia. by rewrite Z.mod_pow2_bits_low by lia.
Qed.

Lemma testbit_concat_high k a r i :
  0 <= k <= i -> 0 <= r < 2 ^ k -> Z.testbit (a * 2 ^ k + r) i = Z.testbit a (i - k).
Proof.
  intros Hi Hr. replace i with ((i - k) + k) at 1 by lia.
  rewrite <- Z.div_pow2_bits by lia.
  rewrite Z.add_comm, Z.div_add by lia. by rewrite (Z.div_small r) by lia.
Qed.

Lemma pow256 n : 256 ^ Z.of_nat n = 2 ^ (8 * Z.of_nat n).
Proof. rewrite Z.pow_mul_r by lia. done. Qed.

Lemma land_pow2_testbit x k :
  0 <= k -> negb (Z.land x (2 ^ k) =? 0) = Z.testbit x k.
Proof.
  intros Hk.
  assert (Z.land x (2 ^ k) = Z.shiftl (Z.b2z (Z.testbit x k)) k) as ->.
  { apply Z.bits_inj'. intros i Hi. rewrite Z.land_spec, Z.shiftl_spec by lia.
    rewrite Z.pow2_bits_eqb by lia. destruct (Z.eqb_spec k i) as [->|Hne].
    - rewrite Z.sub_diag, andb_true_r. by destruct (Z.testbit x i).
    - rewrite andb_false_r. destruct (decide (i < k)).
      + by rewrite Z.testbit_neg_r by lia.
      + symmetry. apply (testbit_high 1); [destruct (Z.testbit x k); simpl; lia|lia]. }
  rewrite Z.shiftl_mul_pow2 by lia. pose proof (Z.pow_pos_nonneg 2 k).
  destruct (Z.testbit x k); simpl; [|done]. destruct (Z.eqb_spec (1 * 2 ^ k) 0); [lia|done].
Qed.

Lemma land1_testbit x : negb (Z.land x 1 =? 0) = Z.testbit x 0.
Proof. apply (land_pow2_testbit x 0). lia. Qed.

Lemma getBit_nth h n : 0 <= n ->
  getBit h n = Z.testbit (nth (Z.to_nat (n / 8)) h 0) (7 - n mod 8).
Proof.
  intros Hn. unfold getBit. rewrite land1_testbit.
  rewrite Z.shiftr_spec by lia. done.
Qed.

Lemma nth_wf h i : wf_bytes h -> is_byte (nth i h 0).
Proof.
  intros H. destruct (decide (i < length h)%nat).
  - rewrite Forall_forall in H. apply H, list_elem_of_In, nth_In. lia.
  - rewrite nth_overflow by lia. done.
Qed.

(** Bit [n] of a hash is bit [8 N - 1 - n] of the number. *)
Lemma getBit_be h n :
  wf_bytes h -> 0 <= n < 8 * Z.of_nat (length h) ->
  getBit h n = Z.testbit (be_Z h) (8 * Z.of_nat (length h) - 1 - n).
Proof.
  intros Hwf. revert n. induction Hwf as [|b l Hb Hl IH]; intros n Hn; [simpl in Hn; lia|].
  rewrite getBit_nth by lia. cbn [be_Z length] in *.
  pose proof (be_Z_range l Hl) as Hr. rewrite pow256 in *.
  destruct (decide (n < 8)).
  - rewrite Z.div_small, Z.mod_small by lia. cbn [nth Z.to_nat].
    rewrite testbit_concat_high by lia. f_equal. lia.
  - replace (Z.to_nat (n / 8)) with (S (Z.to_nat ((n - 8) / 8))).
    2: { replace n with (n - 8 + 1 * 8) at 2 by lia. rewrite Z.div_add by lia.
         assert (0 <= (n - 8) / 8) by (apply Z.div_pos; lia). lia. }
    cbn [nth]. replace (n mod 8) with ((n - 8) mod 8).
    2: { replace n with (n - 8 + 1 * 8) at 2 by lia. by rewrite Z.mod_add by lia. }
    rewrite <- getBit_nth by lia. rewrite IH by lia.
    rewrite testbit_concat_low by lia. f_equal. lia.
Qed.

(** ** Comparison operators *)

Definition sign_of (c : comparison) : Z :=
  match c with Lt => -1 | Eq => 0 | Gt => 1 end.

Lemma word_at_eq_bytes a b i :
  wf_bytes a -> wf_bytes b -> word_at a i = word_at b i ->
  forall k, (k < 4)%nat -> nth (4 * i + k) a 0 = nth (4 * i + k) b 0.
Proof.
  intros Ha Hb Heq k Hk. unfold word_at in Heq.
  pose proof (nth_wf a (4 * i + 0) Ha). pose proof (nth_wf a (4 * i + 1) Ha).
  pose proof (nth_wf a (4 * i + 2) Ha). pose proof (nth_wf a (4 * i + 3) Ha).
  pose proof (nth_wf b (4 * i + 0) Hb). pose proof (nth_wf b (4 * i + 1) Hb).
  pose proof (nth_wf b (4 * i + 2) Hb). pose proof (nth_wf b (4 * i + 3) Hb).
  unfold is_byte in *. simpl (2 ^ _) in Heq.
  destruct k as [|[|[|[|]]]]; lia.
Qed.

Lemma op_eq_true_iff N a b :
  (N mod 4 = 0)%nat -> wf_hash N a -> wf_hash N b -> op_eq N a b = true <-> a = b.
Proof.
  intros HN [La Ha] [Lb Hb]. unfold op_eq. split; [|intros ->].
  - rewrite forallb_forall. intros H.
    apply nth_ext with (d := 0) (d' := 0); [lia|]. intros n Hn.
    pose proof (Nat.div_mod_eq n 4). pose proof (Nat.mod_upper_bound n 4).
    assert (n / 4 < N / 4)%nat.
    { apply Nat.Div0.div_lt_upper_bound. pose proof (Nat.div_mod_eq N 4). lia. }
    specialize (H (n / 4)%nat). rewrite Z.eqb_eq in H.
    replace n with (4 * (n / 4) + n mod 4)%nat by lia.
    apply word_at_eq_bytes; [done..| |lia]. apply H, in_seq. lia.
  - apply forallb_forall. intros. apply Z.eqb_refl.
Qed.

Lemma nth_zeros n i : nth i (replicate n 0) 0 = 0.
Proof. revert i. induction n; intros [|i]; simpl; auto. Qed.

Lemma op_bool_false_iff N a :
  (N mod 4 = 0)%nat -> wf_hash N a -> op_bool N a = false <-> a = Hash_zero N.
Proof.
  intros HN Ha. rewrite <- (op_eq_true_iff N a (Hash_zero N)); [|done..|].
  2: { split; [apply length_replicate|]. apply Forall_replicate. done. }
  unfold op_bool, op_eq.
  assert (forall i, word_at (Hash_zero N) i = 0) as Hz.
  { intros i. unfold word_at, Hash_zero. by rewrite !nth_zeros. }
  induction (seq 0 (N / 4)) as [|i l IH]; [done|]. cbn [existsb forallb].
  rewrite orb_false_iff, andb_true_iff, IH, Hz, negb_false_iff. done.
Qed.

Lemma cmp_be a b :
  wf_bytes a -> wf_bytes b -> length a = length b ->
  cmp a b = sign_of (Z.compare (be_Z a) (be_Z b)).
Proof.
  intros Ha. revert b. induction Ha as [|x a Hx Ha IH]; intros [|y b] Hb Hl; try done.
  inversion_clear Hb as [|? ? Hy Hb']. injection Hl as Hl. cbn [cmp be_Z].
  pose proof (be_Z_range a Ha). pose proof (be_Z_range b Hb'). rewrite <- Hl in *.
  unfold is_byte in *. destruct (Z.eqb_spec x y) as [->|Hne].
  - rewrite IH by done. f_equal. symmetry. apply Z.add_compare_mono_l.
  - destruct (Z.ltb_spec x y).
    + assert (x * 256 ^ Z.of_nat (length a) + be_Z a
              < y * 256 ^ Z.of_nat (length a) + be_Z b) as H' by nia.
      by rewrite (proj2 (Z.compare_lt_iff _ _) H').
    + assert (y * 256 ^ Z.of_nat (length a) + be_Z b
              < x * 256 ^ Z.of_nat (length a) + be_Z a) as H' by nia.
      by rewrite (proj2 (Z.compare_gt_iff _ _) H').
Qed.

Lemma op_lt_cmp a b : op_lt a b = (cmp a b <? 0).
Proof.
  revert b. induction a as [|x a IH]; intros [|y b]; try done.
  cbn [op_lt cmp]. destruct (Z.eqb_spec x y); [apply IH|].
  by destruct (x <? y).
Qed.

(** Hashes are keys of ordered maps. *)
#[export] Instance hash_order N : KeyOrder op_lt (wf_hash N).
Proof.
  split.
  - intros k. induction k as [|x k IH]; [done|]. simpl. by rewrite Z.eqb_refl.
  - intros a. induction a as [|x a IH]; intros [|y b] [|z c]; simpl; try done.
    destruct (Z.eqb_spec x y), (Z.eqb_spec y z), (Z.eqb_spec x z); simpl; intros; zb; subst;
      try done; try lia; try (by eapply IH); apply Z.ltb_lt; lia.
  - intros a b [La Wa] [Lb Wb] H1 H2.
    assert (H : forall (a b : Hash), length a = length b -> op_lt a b = false -> op_lt b a = false -> a = b).
    { clear. intros a. induction a as [|x a IH]; intros [|y b] Hl; try done. simpl in *.
      destruct (Z.eqb_spec x y) as [-> |]; simpl.
      - rewrite Z.eqb_refl. simpl. intros. f_equal. apply IH; [lia|done|done].
      - destruct (Z.eqb_spec y x); [done|]. simpl. intros. zb. lia. }
    apply H; [congruence|done|done].
Qed.

(** The distance of [h] to [t] in the XOR metric. *)
Definition xor_dist (t h : Hash) : Z := be_Z (zip_with Z.lxor h t).

Lemma lxor_cancel_r x y t : Z.lxor x t = Z.lxor y t -> x = y.
Proof.
  intros H. apply (f_equal (fun z => Z.lxor z t)) in H.
  by rewrite !Z.lxor_assoc, Z.lxor_nilpotent, !Z.lxor_0_r in H.
Qed.

Lemma zip_lxor_wf a t : wf_bytes a -> wf_bytes t -> wf_bytes (zip_with Z.lxor a t).
Proof.
  intros Ha. revert t. induction Ha; intros [|y t] Ht; simpl; try constructor.
  - inversion_clear Ht. auto with vb_wf.
  - inversion_clear Ht. auto.
Qed.

Lemma xorCmp_dist t a b :
  wf_bytes t -> wf_bytes a -> wf_bytes b -> length a = length t -> length b = length t ->
  xorCmp t a b = sign_of (xor_dist t a ?= xor_dist t b).
Proof.
  intros Ht. revert a b. induction Ht as [|z t Hz Ht IH]; intros [|x a] [|y b] Ha Hb La Lb; try done.
  inversion_clear Ha as [|? ? Hx Ha']. inversion_clear Hb as [|? ? Hy Hb'].
  injection La as La. injection Lb as Lb. unfold xor_dist in *. cbn [xorCmp zip_with be_Z].
  rewrite !length_zip_with, La, Lb, Nat.min_id.
  pose proof (be_Z_range _ (zip_lxor_wf a t Ha' Ht)) as Ra.
  pose proof (be_Z_range _ (zip_lxor_wf b t Hb' Ht)) as Rb.
  rewrite length_zip_with, La, Nat.min_id in Ra. rewrite length_zip_with, Lb, Nat.min_id in Rb.
  destruct (Z.eqb_spec x y) as [->|Hne].
  - rewrite IH by done. f_equal. symmetry. apply Z.add_compare_mono_l.
  - pose proof (lxor_is_byte x z Hx Hz). pose proof (lxor_is_byte y z Hy Hz).
    unfold is_byte in *. set (p := 256 ^ Z.of_nat (length t)) in *.
    assert (Z.lxor x z <> Z.lxor y z) by (intros ?%lxor_cancel_r; done).
    destruct (Z.ltb_spec (Z.lxor x z) (Z.lxor y z)).
    + assert (Z.lxor x z * p + be_Z (zip_with Z.lxor a t)
              < Z.lxor y z * p + be_Z (zip_with Z.lxor b t)) as H' by nia.
      by rewrite (proj2 (Z.compare_lt_iff _ _) H').
    + assert (Z.lxor y z * p + be_Z (zip_with Z.lxor b t)
              < Z.lxor x z * p + be_Z (zip_with Z.lxor a t)) as H' by nia.
      by rewrite (proj2 (Z.compare_gt_iff _ _) H').
Qed.

(** ** Bits *)

Lemma setBit_byte num bit b k :
  is_byte num -> 0 <= bit < 8 -> 0 <= k < 8 ->
  Z.testbit (u8 (Z.lxor num (Z.land (Z.lxor (- Z.b2z b) num) (Z.shiftl 1 bit)))) k
  = if k =? bit then b else Z.testbit num k.
Proof.
  intros Hn Hb Hk. unfold wrap. rewrite Z.mod_pow2_bits_low by lia.
  rewrite Z.lxor_spec, Z.land_spec, Z.lxor_spec, Z.shiftl_1_l, Z.pow2_bits_eqb by lia.
  rewrite (Z.eqb_sym bit k). destruct (Z.eqb_spec k bit) as [->|].
  - rewrite andb_true_r. destruct b; cbn [Z.b2z Z.opp].
    + rewrite Z.bits_m1 by lia. by destruct (Z.testbit num bit).
    + rewrite Z.bits_0. by destruct (Z.testbit num bit).
  - rewrite andb_false_r. by destruct (Z.testbit num k).
Qed.

Lemma setBit_length h n b : length (setBit h n b) = length h.
Proof. apply length_insert. Qed.

Lemma setBit_wf h n b : wf_bytes h -> wf_bytes (setBit h n b).
Proof. intros. apply Forall_insert; auto with vb_wf. Qed.

Lemma setBit_wf_hash N h n b : wf_hash N h -> wf_hash N (setBit h n b).
Proof. intros [<- ?]. split; [apply setBit_length|by apply setBit_wf]. Qed.

#[export] Hint Resolve setBit_wf setBit_wf_hash : vb_wf.

Lemma nth_insert (h : bytes) i j x :
  (i < length h)%nat -> nth j (<[i:=x]> h) 0 = if decide (i = j) then x else nth j h 0.
Proof.
  intros Hi. rewrite !nth_lookup. rewrite list_lookup_insert.
  case_decide; case_decide; simpl; try done; lia.
Qed.

Lemma getBit_setBit_eq h n m b :
  wf_bytes h -> 0 <= n < 8 * Z.of_nat (length h) -> 0 <= m ->
  getBit (setBit h n b) m = if m =? n then b else getBit h m.
Proof.
  intros Hwf Hn Hm. rewrite !getBit_nth by lia. unfold setBit.
  assert (Z.to_nat (n / 8) < length h)%nat.
  { assert (n / 8 < Z.of_nat (length h)) by (apply Z.div_lt_upper_bound; lia).
    assert (0 <= n / 8) by (apply Z.div_pos; lia). lia. }
  rewrite nth_insert by done.
  pose proof (Z.mod_pos_bound n 8). pose proof (Z.mod_pos_bound m 8).
  pose proof (Z.div_mod n 8). pose proof (Z.div_mod m 8).
  assert (0 <= m / 8) by (apply Z.div_pos; lia). assert (0 <= n / 8) by (apply Z.div_pos; lia).
  case_decide as Hd.
  - rewrite setBit_byte by (first [apply nth_wf; done|lia]).
    rewrite Hd. assert (m / 8 = n / 8) by lia.
    destruct (Z.eqb_spec m n), (Z.eqb_spec (7 - m mod 8) (7 - n mod 8)); try done; lia.
  - destruct (Z.eqb_spec m n) as [->|]; done.
Qed.

(** Setting a clear bit adds the corresponding power of two. *)
Lemma be_Z_setBit h n :
  wf_bytes h -> 0 <= n < 8 * Z.of_nat (length h) -> getBit h n = false ->
  be_Z (setBit h n true) = be_Z h + 2 ^ (8 * Z.of_nat (length h) - 1 - n).
Proof.
  intros Hwf Hn Hb. set (k := 8 * Z.of_nat (length h) - 1 - n).
  pose proof (be_Z_range h Hwf) as Hr. rewrite pow256 in Hr.
  pose proof (be_Z_range _ (setBit_wf h n true Hwf)) as Hr'.
  rewrite setBit_length, pow256 in Hr'.
  assert (Z.testbit (be_Z h) k = false) as Hk by (unfold k; by rewrite <- getBit_be).
  rewrite Z.add_nocarry_lxor.
  2: { apply Z.bits_inj'. intros i Hi. rewrite Z.land_spec, Z.bits_0, Z.pow2_bits_eqb by lia.
       destruct (Z.eqb_spec k i) as [<-|]; [by rewrite Hk|by rewrite andb_false_r]. }
  apply Z.bits_inj'. intros i Hi. rewrite Z.lxor_spec, Z.pow2_bits_eqb by lia.
  destruct (decide (i < 8 * Z.of_nat (length h))) as [Hlt|Hge].
  - pose proof (getBit_be (setBit h n true) (8 * Z.of_nat (length h) - 1 - i)
        (setBit_wf h n true Hwf) ltac:(rewrite setBit_length; lia)) as Hs.
    rewrite setBit_length in Hs.
    replace (8 * Z.of_nat (length h) - 1 - (8 * Z.of_nat (length h) - 1 - i)) with i in Hs by lia.
    rewrite <- Hs, getBit_setBit_eq by (try done; lia).
    rewrite (getBit_be h) by (try done; lia).
    replace (8 * Z.of_nat (length h) - 1 - (8 * Z.of_nat (length h) - 1 - i)) with i by lia.
    destruct (Z.eqb_spec (8 * Z.of_nat (length h) - 1 - i) n), (Z.eqb_spec k i); try lia.
    + subst i. by rewrite Hk.
    + by rewrite xorb_false_r.
  - rewrite !(testbit_high (8 * Z.of_nat (length h))) by lia.
    destruct (Z.eqb_spec k i); [lia|done].
Qed.

Lemma last_nonzero_spec h i :
  match last_nonzero h i with
  | Some k => (k < i)%nat /\ nth k h 0 <> 0 /\ (forall j, (k < j < i)%nat -> nth j h 0 = 0)
  | None => forall j, (j < i)%nat -> nth j h 0 = 0
  end.
Proof.
  induction i as [|i IH]; simpl; [intros; lia|].
  destruct (Z.eqb_spec (nth i h 0) 0) as [Hz|Hz]; simpl.
  - destruct (last_nonzero h i) as [k|].
    + destruct IH as (? & ? & Hr). split_and!; [lia|done|].
      intros j Hj. destruct (decide (j = i)) as [->|]; [done|]. apply Hr. lia.
    + intros j Hj. destruct (decide (j = i)) as [->|]; [done|]. apply IH. lia.
  - split_and!; [lia|done|]. lia.
Qed.

Lemma low_j_spec x k :
  (k <= 8)%nat -> is_byte x -> (forall i, 0 <= i <= 7 - Z.of_nat k -> Z.testbit x i = false) ->
  x <> 0 ->
  let j := low_j x k in
  0 <= j < Z.of_nat k /\ Z.testbit x (7 - j) = true /\
  (forall i, 0 <= i < 7 - j -> Z.testbit x i = false).
Proof.
  induction k as [|k IH]; intros Hk Hx Hlow Hnz.
  - exfalso. apply Hnz. apply Z.bits_inj_0. intros i.
    destruct (decide (i < 0)); [by apply Z.testbit_neg_r|].
    destruct (decide (i <= 7)); [apply Hlow; lia|]. apply (testbit_high 8); [done|lia].
  - cbn [low_j]. replace (Z.shiftr 128 (Z.of_nat k)) with (2 ^ (7 - Z.of_nat k)).
    2: { rewrite Z.shiftr_div_pow2 by lia. change 128 with (2 ^ 7).
         by rewrite <- Z.pow_sub_r by lia. }
    rewrite land_pow2_testbit by lia.
    destruct (Z.testbit x (7 - Z.of_nat k)) eqn:E.
    + split_and!; [lia|lia|done|]. intros i Hi. apply Hlow. lia.
    + destruct IH as (? & ? & ?); [lia|done| |done|split_and!; [lia|lia|done|done]].
      intros i Hi. destruct (decide (i = 7 - Z.of_nat k)) as [->|]; [done|]. apply Hlow. lia.
Qed.

Lemma lowbit_zero h : wf_bytes h -> lowbit h = -1 <-> h = Hash_zero (length h).
Proof.
  intros Hwf.   unfold lowbit. pose proof (last_nonzero_spec h (length h)) as Hs. split.
  - destruct (last_nonzero h (length h)) as [k|].
    + destruct Hs as (Hk & Hnz & _). intros H.
      destruct (low_j_spec (nth k h 0) 8) as (? & _);
        [lia|by apply nth_wf|intros; lia|done|]. lia.
    + intros _. apply nth_ext with (d := 0) (d' := 0); [unfold Hash_zero; by rewrite length_replicate|].
      intros n Hn. rewrite Hs by done. unfold Hash_zero. by rewrite nth_zeros.
  - intros Heq. destruct (last_nonzero h (length h)) as [k|]; [|done].
    destruct Hs as (Hk & Hnz & _). rewrite Heq in Hnz. unfold Hash_zero in Hnz.
    by rewrite nth_zeros in Hnz.
Qed.

(** [lowbit] is the position of the last bit that is set. *)
Lemma lowbit_last_set h :
  wf_bytes h -> h <> Hash_zero (length h) ->
  0 <= lowbit h < 8 * Z.of_nat (length h) /\ getBit h (lowbit h) = true /\
  (forall j, lowbit h < j < 8 * Z.of_nat (length h) -> getBit h j = false).
Proof.
  intros Hwf Hnz. assert (lowbit h <> -1) as Hne by (by rewrite lowbit_zero by done).
  unfold lowbit in *. pose proof (last_nonzero_spec h (length h)) as Hs.
  destruct (last_nonzero h (length h)) as [k|]; [|done]. destruct Hs as (Hk & Hkz & Hz).
  destruct (low_j_spec (nth k h 0) 8) as (Hj & Hset & Hclr);
    [lia|by apply nth_wf| |done|]; [intros; lia|].
  set (j := low_j (nth k h 0) 8) in *.
  assert ((8 * Z.of_nat k + j) / 8 = Z.of_nat k) as Hdiv.
  { rewrite Z.add_comm, Z.mul_comm, Z.div_add by lia. rewrite Z.div_small by lia. lia. }
  assert ((8 * Z.of_nat k + j) mod 8 = j) as Hmod.
  { rewrite Z.add_comm, Z.mul_comm, Z.mod_add by lia. by rewrite Z.mod_small by lia. }
  split_and!; [lia|lia| |].
  - rewrite getBit_nth by lia. by rewrite Hdiv, Hmod, Nat2Z.id.
  - intros m Hm. rewrite getBit_nth by lia.
    pose proof (Z.mod_pos_bound m 8). pose proof (Z.div_mod m 8).
    assert (Z.of_nat k <= m / 8) by (apply Z.div_le_lower_bound; lia).
    assert (m / 8 < Z.of_nat (length h)) by (apply Z.div_lt_upper_bound; lia).
    destruct (decide (Z.to_nat (m / 8) = k)) as [Hd|].
    + rewrite Hd. apply Hclr. lia.
    + rewrite Hz by lia. apply Z.bits_0.
Qed.

Lemma be_Z_zero_iff h : wf_bytes h -> be_Z h = 0 <-> h = Hash_zero (length h).
Proof.
  intros Hwf. split; [|intros ->; unfold Hash_zero; apply be_Z_replicate_0].
  intros H0. apply be_Z_inj; [done|by apply Forall_replicate| |].
  - unfold Hash_zero. by rewrite length_replicate.
  - unfold Hash_zero. by rewrite be_Z_replicate_0.
Qed.

(** If the number is an odd multiple of [2 ^ e], the last set bit is number
    [8 N - 1 - e]. *)
Lemma lowbit_odd_multiple h q e :
  wf_bytes h -> 0 <= e -> Z.odd q = true -> be_Z h = q * 2 ^ e ->
  lowbit h = 8 * Z.of_nat (length h) - 1 - e.
Proof.
  intros Hwf He Hq Heq. set (n := 8 * Z.of_nat (length h)).
  assert (be_Z h <> 0) as Hnz.
  { rewrite Heq. pose proof (Z.pow_pos_nonneg 2 e). intros ?.
    assert (q = 0) by nia. by subst. }
  assert (forall i, 0 <= i -> Z.testbit (be_Z h) (i + e) = Z.testbit q i) as Hbits.
  { intros i Hi. rewrite Heq. replace (q * 2 ^ e) with (q * 2 ^ e + 0) by lia.
    rewrite testbit_concat_high by (pose proof (Z.pow_pos_nonneg 2 e); lia). f_equal. lia. }
  assert (forall i, 0 <= i < e -> Z.testbit (be_Z h) i = false) as Hlow.
  { intros i Hi. rewrite Heq. replace (q * 2 ^ e) with (q * 2 ^ e + 0) by lia.
    rewrite testbit_concat_low by lia. apply Z.bits_0. }
  pose proof (be_Z_range h Hwf) as Hr. rewrite pow256 in Hr. fold n in Hr.
  pose proof (Hbits 0 ltac:(lia)) as H0. rewrite Z.bit0_odd, Hq in H0.
  assert (e < n) as Hen.
  { destruct (Z.lt_ge_cases e n); [done|]. by rewrite (testbit_high n) in H0 by lia. }
  destruct (lowbit_last_set h Hwf) as (Hl & Hset & Hclr); [by rewrite <- be_Z_zero_iff|].
  fold n in Hl, Hclr. rewrite getBit_be in Hset by done. fold n in Hset.
  destruct (Z.lt_trichotomy (lowbit h) (n - 1 - e)) as [Hlt|[?|Hgt]]; [|done|].
  - specialize (Hclr (n - 1 - e) ltac:(lia)). rewrite getBit_be in Hclr by (try done; lia).
    fold n in Hclr. replace (n - 1 - (n - 1 - e)) with (0 + e) in Hclr by lia. congruence.
  - rewrite Hlow in Hset by lia. done.
Qed.


(** ** Common prefixes *)

(** A decidable property of bytes holds if it holds of the 256 bytes. *)
Lemma byte_forall (P : Z -> bool) :
  forallb P (seqZ 0 256) = true -> forall x, is_byte x -> P x = true.
Proof.
  rewrite forallb_forall. intros H x Hx. apply H, list_elem_of_In, elem_of_seqZ.
  unfold is_byte in Hx. lia.
Qed.

Lemma lead_j_byte x : is_byte x -> x <> 0 -> lead_j 8 x 0 = Some (7 - Z.log2 x).
Proof.
  intros Hx Hnz.
  pose proof (byte_forall (fun x => (x =? 0) || bool_decide (lead_j 8 x 0 = Some (7 - Z.log2 x))))
    as Hall. specialize (Hall eq_refl x Hx). apply orb_true_iff in Hall as [?|Hb]; [zb; done|].
  by apply bool_decide_eq_true_1 in Hb.
Qed.

Lemma log2_concat k a r :
  0 <= k -> 0 < a -> 0 <= r < 2 ^ k -> Z.log2 (a * 2 ^ k + r) = Z.log2 a + k.
Proof.
  intros Hk Ha Hr. apply Z.log2_unique; [pose proof (Z.log2_nonneg a); lia|].
  pose proof (Z.log2_spec a Ha) as Hs. pose proof (Z.log2_nonneg a).
  rewrite <- Z.add_succ_l, !Z.pow_add_r by lia. nia.
Qed.

Lemma be_Z_zip_lxor a b :
  wf_bytes a -> wf_bytes b -> length a = length b ->
  be_Z (zip_with Z.lxor a b) = Z.lxor (be_Z a) (be_Z b).
Proof.
  intros Ha. revert b. induction Ha as [|x a Hx Ha IH]; intros [|y b] Hb Hl; try done.
  inversion_clear Hb as [|? ? Hy Hb']. injection Hl as Hl. cbn [zip_with be_Z].
  rewrite length_zip_with, <- Hl, Nat.min_id, IH, pow256 by done.
  pose proof (be_Z_range a Ha) as Ra. pose proof (be_Z_range b Hb') as Rb.
  rewrite <- Hl in Rb. rewrite pow256 in Ra, Rb. set (k := 8 * Z.of_nat (length a)) in *.
  apply Z.bits_inj'. intros i Hi. rewrite Z.lxor_spec.
  destruct (Z.lt_ge_cases i k).
  - rewrite !testbit_concat_low by lia. apply Z.lxor_spec.
  - rewrite !testbit_concat_high by (try (apply lxor_range); lia). apply Z.lxor_spec.
Qed.

Lemma xor_dist_lxor t h :
  wf_bytes t -> wf_bytes h -> length h = length t -> xor_dist t h = Z.lxor (be_Z h) (be_Z t).
Proof. intros. by apply be_Z_zip_lxor. Qed.

Lemma commonBits_from_log2 i a b :
  wf_bytes a -> wf_bytes b -> length a = length b ->
  commonBits_from i a b =
  Some (8 * i + if xor_dist a b =? 0 then 8 * Z.of_nat (length a)
                else 8 * Z.of_nat (length a) - 1 - Z.log2 (xor_dist a b)).
Proof.
  intros Ha. revert i b. induction Ha as [|x a Hx Ha IH]; intros i [|y b] Hb Hl; try done.
  { cbn. f_equal. lia. }
  inversion_clear Hb as [|? ? Hy Hb']. injection Hl as Hl. cbn [commonBits_from].
  unfold xor_dist in *. cbn [zip_with be_Z length]. rewrite length_zip_with, <- Hl, Nat.min_id.
  pose proof (be_Z_range _ (zip_lxor_wf b a Hb' Ha)) as R.
  rewrite length_zip_with, <- Hl, Nat.min_id in R. rewrite pow256 in *.
  destruct (Z.eqb_spec x y) as [->|Hne]; cbn [negb].
  - rewrite Z.lxor_nilpotent, Z.mul_0_l, Z.add_0_l, IH by done. f_equal. case_match; lia.
  - assert (Z.lxor x y <> 0) by (by rewrite Z.lxor_eq_0_iff).
    pose proof (lxor_is_byte x y Hx Hy) as Hxy.
    rewrite lead_j_byte by done. rewrite (Z.lxor_comm y x). unfold is_byte in Hxy.
    rewrite log2_concat by lia.
    destruct (Z.eqb_spec (Z.lxor x y * 2 ^ (8 * Z.of_nat (length a)) + be_Z (zip_with Z.lxor b a)) 0);
      [nia|]. f_equal. lia.
Qed.

(** ** Text form *)

Lemma hex_map_byte b :
  is_byte b ->
  exists hi lo, hex2bin (hex_map b).1 = Some hi /\ hex2bin (hex_map b).2 = Some lo /\
  u8 (Z.lor (Z.shiftl hi 4) lo) = b.
Proof.
  intros Hb.
  pose proof (byte_forall (fun b =>
    match hex2bin (hex_map b).1, hex2bin (hex_map b).2 with
    | Some hi, Some lo => u8 (Z.lor (Z.shiftl hi 4) lo) =? b | _, _ => false end) eq_refl b Hb) as H.
  cbn beta in H. destruct (hex2bin _) as [hi|]; [|done].
  destruct (hex2bin _) as [lo|]; [|done]. zb. eauto.
Qed.

Lemma fromString_loop_toString h :
  wf_bytes h -> fromString_loop (length h) (toString h) = Some h.
Proof.
  induction 1 as [|b h Hb Hh IH]; [done|].
  unfold toString in *. cbn [fmap list_fmap concat length fromString_loop].
  destruct (hex_map_byte b Hb) as (hi & lo & Hhi & Hlo & Heq).
  destruct (hex_map b) as [c1 c2]. cbn [fst snd app] in *. by rewrite Hhi, Hlo, IH, Heq.
Qed.

Lemma length_toString h : length (toString h) = (2 * length h)%nat.
Proof.
  induction h as [|b h IH]; [done|]. unfold toString in *.
  cbn [fmap list_fmap concat length]. destruct (hex_map b). rewrite length_app. simpl in *. lia.
Qed.

Lemma toString_wf h : wf_bytes h -> wf_bytes (toString h).
Proof.
  induction 1 as [|b h Hb Hh IH]; [constructor|].
  unfold toString in *. cbn [fmap list_fmap concat].
  assert (is_byte (hex_map b).1 /\ is_byte (hex_map b).2) as [? ?].
  { split; apply nth_wf, str_wf. }
  destruct (hex_map b). cbn [app]. by rewrite !Forall_cons.
Qed.

Lemma fromString_loop_wf n l h : fromString_loop n l = Some h -> wf_hash n h.
Proof.
  revert l h. induction n as [|n IH]; intros l h; [intros [= <-]; by split|].
  destruct l as [|hi [|lo l]]; simpl; try done.
  destruct (hex2bin hi), (hex2bin lo); try done.
  destruct (fromString_loop n l) eqn:E; [|done]. intros [= <-].
  destruct (IH _ _ E). split; [simpl; lia|]. constructor; auto with vb_wf.
Qed.

Lemma Hash_zero_wf N : wf_hash N (Hash_zero N).
Proof. split; [apply length_replicate|by apply Forall_replicate]. Qed.

Lemma Hash_of_string_wf N s : wf_hash N (Hash_of_string N s).
Proof.
  unfold Hash_of_string, fromString. case_match; [apply Hash_zero_wf|].
  destruct (fromString_loop N s) eqn:E; [by eapply fromString_loop_wf|apply Hash_zero_wf].
Qed.

#[export] Hint Resolve Hash_zero_wf Hash_of_string_wf toString_wf : vb_wf.

(** ** Properties *)

(** [xorCmp] is the comparison of the XOR metric: for hashes of one
    length it returns -1, 0 or 1 according to how the numbers
    [id1 xor this] and [id2 xor this] compare. *)
Theorem xorCmp_metric N this id1 id2 :
  wf_hash N this -> wf_hash N id1 -> wf_hash N id2 ->
  xorCmp this id1 id2 =
  sign_of (Z.compare (Z.lxor (be_Z id1) (be_Z this)) (Z.lxor (be_Z id2) (be_Z this))).
Proof.
  intros [Lt Wt] [L1 W1] [L2 W2].
  rewrite xorCmp_dist, !xor_dist_lxor by (done || congruence). done.
Qed.

Lemma xorCmp_metric_witness :
  xorCmp [1; 2] [3; 4] [3; 3] = sign_of (Z.compare (Z.lxor 772 258) (Z.lxor 771 258)).
Proof. apply (xorCmp_metric 2 [1; 2] [3; 4] [3; 3]); by_compute. Defined.

(** The comparison operators of [Hash] are those of the numbers the hashes
    denote: [operator==] (a loop over 32-bit words) is equality, [operator<] and
    [cmp] (lexicographic byte loops) are the numeric order, and the conversion to
    [bool] tests for a non-zero hash. *)
Theorem hash_operators N a b :
  (N mod 4 = 0)%nat -> wf_hash N a -> wf_hash N b ->
  (op_eq N a b = true <-> a = b) /\
  op_lt a b = (be_Z a <? be_Z b) /\
  cmp a b = sign_of (Z.compare (be_Z a) (be_Z b)) /\
  op_bool N a = negb (be_Z a =? 0).
Proof.
  intros HN Ha Hb. pose proof Ha as [La Wa]. pose proof Hb as [Lb Wb].
  split; [by apply op_eq_true_iff|]. split_and!; [|apply cmp_be; [done|done|congruence]|].
  - rewrite op_lt_cmp, cmp_be by (done || congruence). unfold Z.ltb. by destruct (be_Z a ?= be_Z b).
  - pose proof (op_bool_false_iff N a HN Ha) as H0. rewrite <- La in H0.
    rewrite <- be_Z_zero_iff in H0 by done. rewrite La in H0.
    destruct (op_bool N a), (Z.eqb_spec (be_Z a) 0); naive_solver.
Qed.

Lemma hash_operators_witness : op_lt [0; 0; 1; 0] [0; 0; 0; 9] = false.
Proof.
  destruct (hash_operators 4 [0; 0; 1; 0] [0; 0; 0; 9]) as (_ & H & _);
    [reflexivity|by_compute|by_compute|exact H].
Defined.

(** [setBit] changes exactly the bit it names: reading bit [m] after
    writing [b] to bit [n] gives [b] when [m = n] and the old bit otherwise, and
    the result is again a well-formed hash. *)
Theorem getBit_setBit N h n m b :
  wf_hash N h -> 0 <= n < 8 * Z.of_nat N -> 0 <= m ->
  getBit (setBit h n b) m = (if m =? n then b else getBit h m) /\ wf_hash N (setBit h n b).
Proof.
  intros Hh Hn Hm. split; [|by apply setBit_wf_hash].
  destruct Hh as [<- Hh]. by apply getBit_setBit_eq.
Qed.

Lemma getBit_setBit_witness : getBit (setBit [0; 255] 9 false) 9 = false.
Proof. apply (getBit_setBit 2 [0; 255] 9 9 false); [by_compute|lia|lia]. Defined.

(** [lowbit] returns -1 on the zero hash and otherwise the position of
    the last bit that is set; in both cases the result is below [8 N]. *)
Theorem lowbit_spec N h :
  wf_hash N h ->
  if be_Z h =? 0 then lowbit h = -1
  else 0 <= lowbit h < 8 * Z.of_nat N /\ getBit h (lowbit h) = true /\
       forall j, lowbit h < j < 8 * Z.of_nat N -> getBit h j = false.
Proof.
  intros [<- Hwf]. destruct (Z.eqb_spec (be_Z h) 0) as [H0|H0]; rewrite be_Z_zero_iff in H0 by done.
  - by apply lowbit_zero.
  - by apply lowbit_last_set.
Qed.

Lemma lowbit_spec_witness : lowbit [0; 0] = -1.
Proof. apply (lowbit_spec 2 [0; 0]). by_compute. Defined.

(** [commonBits] terminates (eight iterations of the inner loop suffice)
    and counts the bits of the longest common prefix: all bits below the result
    agree, and the bit at the result differs unless the hashes are equal. *)
Theorem commonBits_prefix N a b :
  wf_hash N a -> wf_hash N b ->
  exists k, commonBits a b = Some k /\ 0 <= k <= 8 * Z.of_nat N /\
    (forall j, 0 <= j < k -> getBit a j = getBit b j) /\
    (k < 8 * Z.of_nat N -> getBit a k <> getBit b k).
Proof.
  intros [La Wa] [Lb Wb]. unfold commonBits. rewrite commonBits_from_log2 by (done || congruence).
  rewrite xor_dist_lxor, La by (done || congruence). set (n := 8 * Z.of_nat N).
  pose proof (be_Z_range a Wa) as Ra. pose proof (be_Z_range b Wb) as Rb.
  rewrite La, pow256 in Ra. rewrite Lb, pow256 in Rb. fold n in Ra, Rb.
  assert (forall j, 0 <= j < n -> getBit a j = getBit b j <->
    Z.testbit (Z.lxor (be_Z b) (be_Z a)) (n - 1 - j) = false) as Hbit.
  { intros j Hj. rewrite !getBit_be by (try done; rewrite ?La, ?Lb; fold n; lia).
    rewrite La, Lb, Z.lxor_spec. fold n. destruct (Z.testbit _ _), (Z.testbit _ _); naive_solver. }
  destruct (Z.eqb_spec (Z.lxor (be_Z b) (be_Z a)) 0) as [E|E]; eexists; (split; [done|]).
  - split_and!; [lia|lia| |lia]. intros j Hj. apply Hbit; [lia|]. rewrite E. apply Z.bits_0.
  - pose proof (lxor_range n (be_Z b) (be_Z a) ltac:(lia) ltac:(lia) ltac:(lia)) as Rx.
    set (x := Z.lxor (be_Z b) (be_Z a)) in *.
    assert (Z.log2 x < n) by (apply Z.log2_lt_pow2; lia). pose proof (Z.log2_nonneg x).
    split_and!; [lia|lia| |].
    + intros j Hj. apply Hbit; [lia|]. apply Z.bits_above_log2; lia.
    + intros _ Heq. apply Hbit in Heq; [|lia].
      replace (n - 1 - _) with (Z.log2 x) in Heq by lia. by rewrite Z.bit_log2 in Heq by lia.
Qed.

Lemma commonBits_prefix_witness :
  exists k, commonBits [1; 16] [1; 24] = Some k /\ 0 <= k <= 16 /\
    (forall j, 0 <= j < k -> getBit [1; 16] j = getBit [1; 24] j) /\
    (k < 16 -> getBit [1; 16] k <> getBit [1; 24] k).
Proof. apply (commonBits_prefix 2 [1; 16] [1; 24]); by_compute. Defined.

(** The text form round-trips: parsing what [toString] prints gives the
    hash back, and a string that is too short or not hexadecimal parses to the
    all-zero hash rather than failing. *)
Theorem hex_roundtrip N h s :
  wf_hash N h ->
  Hash_of_string N (toString h) = h /\ length (toString h) = (2 * N)%nat /\
  ((length s < 2 * N)%nat \/ fromString_loop N s = None -> Hash_of_string N s = Hash_zero N).
Proof.
  intros [<- Hwf]. split_and!.
  - unfold Hash_of_string, fromString. rewrite length_toString.
    destruct (Z.ltb_spec (Z.of_nat (2 * length h)) (2 * Z.of_nat (length h))); [lia|].
    by rewrite fromString_loop_toString.
  - apply length_toString.
  - intros Hs. unfold Hash_of_string, fromString. case_match; [done|].
    destruct Hs as [?| ->]; [zb; lia|done].
Qed.

Lemma hex_roundtrip_witness : Hash_of_string 2 (toString [10; 255]) = [10; 255].
Proof. apply (hex_roundtrip 2 [10; 255] []). by_compute. Defined.
