(* ===== verification/SockAddr.v ===== *)
(** * SockAddr: socket addresses

    Models the class [SockAddr] of
    src/opendht-2.1.4/include/opendht/sockaddr.h and the member functions
    defined in src/opendht-2.1.4/src/utils.cpp.  An address is the [len] bytes of
    its [sockaddr]; the empty list is the null address.  The layout of
    [sockaddr_in] (family, port, address, padding) and [sockaddr_in6] (family,
    port, flow info, address, scope) is that of the platforms the library is
    built for; the number of [AF_INET6] depends on the platform and is a
    variable of the section. *)
From S2P Require Import Prelude InfoHash.

(** ** Data *)

Abbreviation SockAddr := bytes (only parsing).

Definition AF_UNSPEC : Z := 0.
Definition AF_INET : Z := 2.

Definition sizeof_sockaddr_in : nat := 16.
Definition sizeof_sockaddr_in6 : nat := 28.
Definition sizeof_sockaddr_storage : nat := 128.

(** [SockAddr(const sockaddr* sa, socklen_t length)]. *)
Definition SockAddr_make (sa : bytes) (length : nat) : outcome SockAddr :=
  if (Z.of_nat sizeof_sockaddr_storage <? Z.of_nat length)
  then Throw "Socket address length is too large"
  else Ret (take length sa).

(** [memcmp] of two buffers over [n] bytes. *)
Definition memcmp (a b : bytes) (n : nat) : Z := cmp (take n a) (take n b).

(** [operator<]: shorter addresses first, then byte order. *)
Definition addr_lt (a b : SockAddr) : bool :=
  if negb (Z.of_nat (length a) =? Z.of_nat (length b))
  then Z.of_nat (length a) <? Z.of_nat (length b)
  else memcmp a b (length a) <? 0.

(** [equals] and [operator==]. *)
Definition addr_equals (a b : SockAddr) : bool :=
  (Z.of_nat (length a) =? Z.of_nat (length b)) && (memcmp a b (length a) =? 0).

(** The byte at an offset of the structure. *)
Definition byte_at (a : bytes) (i : nat) : Z := nth i a 0.

(** [getFamily]: the two first bytes, in host (little-endian) order. *)
Definition getFamily (a : SockAddr) : Z :=
  if (length a =? 0)%nat then AF_UNSPEC else byte_at a 0 + 256 * byte_at a 1.

Definition getLength (a : SockAddr) : nat := length a.

Section SockAddr.
Context (AF_INET6 : Z).

(** [SockAddr(const sockaddr* sa)]: the length follows from the family. *)
Definition SockAddr_of_sockaddr (sa : option bytes) : outcome SockAddr :=
  match sa with
  | None => Ret []
  | Some s =>
      let fam := byte_at s 0 + 256 * byte_at s 1 in
      if fam =? AF_INET then Ret (take sizeof_sockaddr_in s)
      else if fam =? AF_INET6 then Ret (take sizeof_sockaddr_in6 s)
      else Throw "Unknown address family"
  end.

(** [setFamily]: the structure is cleared when its size changes. *)
Definition setFamily (af : Z) (a : SockAddr) : SockAddr :=
  let new_length :=
    if af =? AF_INET then sizeof_sockaddr_in
    else if af =? AF_INET6 then sizeof_sockaddr_in6 else 0%nat in
  let a' := if negb (Z.of_nat new_length =? Z.of_nat (length a)) then replicate new_length 0 else a in
  if 2 <? Z.of_nat (length a') then write_at 0 [af mod 256; af / 256 mod 256] a' else a'.

(** [setAny]. *)
Definition setAny (a : SockAddr) : SockAddr :=
  if getFamily a =? AF_INET then write_at 4 (replicate 4 0) a
  else if getFamily a =? AF_INET6 then write_at 8 (replicate 16 0) a
  else a.

(** [getPort]: bytes 2 and 3, in network order. *)
Definition getPort (a : SockAddr) : Z :=
  if (getFamily a =? AF_INET) || (getFamily a =? AF_INET6)
  then 256 * byte_at a 2 + byte_at a 3 else 0.

(** [setPort]. *)
Definition setPort (p : Z) (a : SockAddr) : SockAddr :=
  if (getFamily a =? AF_INET) || (getFamily a =? AF_INET6)
  then write_at 2 [p / 256 mod 256; p mod 256] a else a.

(** The address parts: [sin_addr] and [sin6_addr]. *)
Definition sin_addr (a : SockAddr) : bytes := take 4 (drop 4 a).
Definition sin6_addr (a : SockAddr) : bytes := take 16 (drop 8 a).

(** [isUnspecified]. *)
Definition isUnspecified (a : SockAddr) : bool :=
  if getFamily a =? AF_INET then forallb (Z.eqb 0) (sin_addr a)
  else if getFamily a =? AF_INET6 then forallb (Z.eqb 0) (sin6_addr a)
  else true.

(** [isLoopback]: 127.0.0.0/8, or ::1. *)
Definition isLoopback (a : SockAddr) : bool :=
  if getFamily a =? AF_INET then u8 (Z.shiftr (be_Z (sin_addr a)) 24) =? 127
  else if getFamily a =? AF_INET6
       then bool_decide (sin6_addr a = replicate 15 0 ++ [1])
  else false.

(** [isPrivate]. *)
Definition isPrivate (a : SockAddr) : bool :=
  if isLoopback a then true
  else if getFamily a =? AF_INET then
    let addr_host := be_Z (sin_addr a) in
    let b1 := u8 (Z.shiftr addr_host 24) in
    let b2 := u8 (Z.land (Z.shiftr addr_host 16) 255) in
    if b1 =? 10 then true
    else if (b1 =? 172) && (16 <=? b2) && (b2 <=? 31) then true
    else if (b1 =? 192) && (b2 =? 168) then true
    else false
  else if getFamily a =? AF_INET6 then byte_at (sin6_addr a) 0 =? 252
  else false.

Definition MAPPED_IPV4_PREFIX : bytes := replicate 10 0 ++ [255; 255].

(** [isMappedIPv4]. *)
Definition isMappedIPv4 (a : SockAddr) : bool :=
  if negb (getFamily a =? AF_INET6) then false
  else bool_decide (take (length MAPPED_IPV4_PREFIX) (sin6_addr a) = MAPPED_IPV4_PREFIX).

(** [getMappedIPv4]: the IPv4 address inside a mapped IPv6 address. *)
Definition getMappedIPv4 (a : SockAddr) : SockAddr :=
  if negb (isMappedIPv4 a) then a
  else
    let ret := setPort (getPort a) (setFamily AF_INET []) in
    write_at 4 (take 4 (drop (length MAPPED_IPV4_PREFIX) (sin6_addr a))) ret.

(** [getMappedIPv6]: the IPv6 address that maps an IPv4 address. *)
Definition getMappedIPv6 (a : SockAddr) : SockAddr :=
  if negb (getFamily a =? AF_INET) then a
  else
    let ret := setPort (getPort a) (setFamily AF_INET6 []) in
    write_at 8 (MAPPED_IPV4_PREFIX ++ sin_addr a) ret.

(** [ipCmp]: compare the IP part only, the first 64 bits of it in IPv6. *)
Definition ipCmp (a b : SockAddr) : bool :=
  if negb (Z.of_nat (length a) =? Z.of_nat (length b))
  then Z.of_nat (length a) <? Z.of_nat (length b)
  else
    let '(start, len) :=
      if getFamily a =? AF_INET then (4, 4)%nat
      else if getFamily a =? AF_INET6 then (8, 8)%nat
      else (0%nat, length a) in
    memcmp (drop start a) (drop start b) len <? 0.

End SockAddr.

(** ** Host and port text *)

(** [std::string::find_first_of] and [find_last_of] for one character. *)
Fixpoint find_first_of (c : Z) (s : bytes) : option nat :=
  match s with
  | [] => None
  | x :: s' => if x =? c then Some 0%nat else S <$> find_first_of c s'
  end.

Fixpoint find_last_of (c : Z) (s : bytes) : option nat :=
  match s with
  | [] => None
  | x :: s' =>
      match find_last_of c s' with
      | Some i => Some (S i)
      | None => if x =? c then Some 0%nat else None
      end
  end.

Definition colon : Z := 58.
Definition lbracket : Z := 91.
Definition rbracket : Z := 93.

(** [splitPort]: ["[host]:port"], ["host:port"], or a host alone. *)
Definition splitPort (s : bytes) : bytes * bytes :=
  match s with
  | [] => ([], [])
  | c0 :: _ =>
      if c0 =? lbracket then
        match find_first_of rbracket s with
        | None => (s, [])
        | Some closure =>
            let host := take (closure - 1) (drop 1 s) in
            match find_last_of colon s with
            | None => (host, [])
            | Some found => if (found <? closure)%nat then (host, []) else (host, drop (S found) s)
            end
        end
      else
        match find_last_of colon s, find_first_of colon s with
        | Some found, Some first =>
            if (found =? first)%nat then (take found s, drop (S found) s) else (s, [])
        | _, _ => (s, [])
        end
  end.

(** ** Order *)

Lemma memcmp_full a b : length a = length b -> memcmp a b (length a) = cmp a b.
Proof. intros H. unfold memcmp. by rewrite firstn_all, H, firstn_all. Qed.

Lemma addr_equals_iff a b : wf_bytes a -> wf_bytes b -> addr_equals a b = true <-> a = b.
Proof.
  intros Ha Hb. unfold addr_equals. split.
  - intros H. zb. assert (length a = length b) as Hl by lia.
    rewrite memcmp_full, cmp_be in * by done. apply be_Z_inj; [done..|].
    destruct (Z.compare_spec (be_Z a) (be_Z b)); done.
  - intros ->. rewrite Z.eqb_refl, memcmp_full, cmp_be, Z.compare_refl by done. done.
Qed.

(** The order of addresses is the order of (length, number). *)
Lemma addr_lt_spec a b :
  wf_bytes a -> wf_bytes b ->
  addr_lt a b = true <->
  (length a < length b)%nat \/ (length a = length b /\ be_Z a < be_Z b).
Proof.
  intros Ha Hb. unfold addr_lt. destruct (Z.eqb_spec (Z.of_nat (length a)) (Z.of_nat (length b)));
    cbn [negb].
  - assert (length a = length b) as Hl by lia. rewrite memcmp_full, cmp_be by done.
    destruct (Z.compare_spec (be_Z a) (be_Z b)); cbn; split; intros; zb; try done; try lia.
  - rewrite Z.ltb_lt. split; intros; lia.
Qed.

(** ** Mapped addresses *)

(** A well-formed IPv4 address: a [sockaddr_in] whose padding is clear. *)
Definition wf_ipv4 (a : SockAddr) : Prop :=
  length a = sizeof_sockaddr_in /\ wf_bytes a /\ getFamily a = AF_INET /\ drop 8 a = replicate 8 0.

#[export] Instance wf_ipv4_dec a : Decision (wf_ipv4 a).
Proof. unfold wf_ipv4. apply _. Defined.

Lemma wf_ipv4_inv a :
  wf_ipv4 a -> exists p1 p2 a1 a2 a3 a4, wf_bytes [p1; p2; a1; a2; a3; a4] /\
  a = [2; 0; p1; p2; a1; a2; a3; a4] ++ replicate 8 0.
Proof.
  intros (Hl & Hb & Hf & Hz).
  destruct a as [|f1 [|f2 [|p1 [|p2 [|a1 [|a2 [|a3 [|a4 r]]]]]]]]; try done.
  exists p1, p2, a1, a2, a3, a4. cbn in Hz. rewrite !Forall_cons in Hb.
  unfold getFamily, byte_at, AF_INET in Hf. cbn in Hf. unfold is_byte in *.
  assert (f1 = 2 /\ f2 = 0) as [-> ->] by lia.
  split; [rewrite !Forall_cons, Forall_nil; unfold is_byte; tauto|]. rewrite drop_0 in Hz. by rewrite Hz.
Qed.

Section properties.
Context (AF_INET6 : Z) (HAF6 : 2 < AF_INET6 < 256).

Definition known_family (f : Z) : Prop := f = AF_INET \/ f = AF_INET6.

Lemma getFamily_bytes f rest : getFamily (f :: 0 :: rest) = f.
Proof. unfold getFamily, byte_at. cbn [length Nat.eqb nth]. lia. Qed.

Lemma setFamily_in6 : setFamily AF_INET6 AF_INET6 [] = AF_INET6 :: 0 :: replicate 26 0.
Proof using HAF6.
  unfold setFamily. rewrite (Z.mod_small AF_INET6 256), (Z.div_small AF_INET6 256) by lia.
  destruct (Z.eqb_spec AF_INET6 AF_INET); [unfold AF_INET in *; lia|].
  rewrite Z.eqb_refl. reflexivity.
Qed.

Lemma family_known f rest :
  known_family f ->
  (getFamily (f :: 0 :: rest) =? AF_INET) || (getFamily (f :: 0 :: rest) =? AF_INET6) = true.
Proof.
  intros Hf. rewrite getFamily_bytes. destruct Hf as [-> | ->]; [done|].
  by rewrite Z.eqb_refl, orb_true_r.
Qed.

Lemma setPort_bytes f p1 p2 x y rest :
  known_family f -> is_byte p1 -> is_byte p2 ->
  setPort AF_INET6 (256 * p1 + p2) (f :: 0 :: x :: y :: rest) = f :: 0 :: p1 :: p2 :: rest.
Proof.
  unfold is_byte. intros Hf H1 H2. unfold setPort. rewrite family_known by done.
  rewrite (Z.mul_comm 256), Z.div_add_l, (Z.div_small p2), Z.add_0_r by lia.
  by rewrite (Z.mod_small p1), (Z.add_comm (p1 * 256)), Z.mod_add, (Z.mod_small p2) by lia.
Qed.

Lemma getPort_bytes f p1 p2 rest :
  known_family f -> getPort AF_INET6 (f :: 0 :: p1 :: p2 :: rest) = 256 * p1 + p2.
Proof. intros Hf. unfold getPort. by rewrite family_known. Qed.

(** The mapped form of an IPv4 address, byte by byte. *)
Lemma getMappedIPv6_bytes p1 p2 a1 a2 a3 a4 :
  wf_bytes [p1; p2; a1; a2; a3; a4] ->
  getMappedIPv6 AF_INET6 ([2; 0; p1; p2; a1; a2; a3; a4] ++ replicate 8 0) =
  [AF_INET6; 0; p1; p2; 0; 0; 0; 0] ++ MAPPED_IPV4_PREFIX ++ [a1; a2; a3; a4] ++ replicate 4 0.
Proof using HAF6.
  rewrite !Forall_cons. intros (? & ? & Hb).
  unfold getMappedIPv6. cbn [app]. rewrite getFamily_bytes, setFamily_in6.
  rewrite getPort_bytes by (by left). cbn [replicate].
  rewrite setPort_bytes by (done || by right). reflexivity.
Qed.

Lemma isMappedIPv4_bytes p1 p2 a1 a2 a3 a4 :
  isMappedIPv4 AF_INET6
    ([AF_INET6; 0; p1; p2; 0; 0; 0; 0] ++ MAPPED_IPV4_PREFIX ++ [a1; a2; a3; a4] ++ replicate 4 0)
  = true.
Proof. unfold isMappedIPv4. cbn [app]. rewrite getFamily_bytes, Z.eqb_refl. reflexivity. Qed.

Lemma getMappedIPv4_bytes p1 p2 a1 a2 a3 a4 :
  wf_bytes [p1; p2; a1; a2; a3; a4] ->
  getMappedIPv4 AF_INET6
    ([AF_INET6; 0; p1; p2; 0; 0; 0; 0] ++ MAPPED_IPV4_PREFIX ++ [a1; a2; a3; a4] ++ replicate 4 0) =
  [2; 0; p1; p2; a1; a2; a3; a4] ++ replicate 8 0.
Proof.
  rewrite !Forall_cons. intros (? & ? & Hb).
  unfold getMappedIPv4. rewrite isMappedIPv4_bytes. cbn [app negb].
  rewrite getPort_bytes by (by right).
  change (setFamily AF_INET6 AF_INET []) with (2 :: 0 :: 0 :: 0 :: replicate 12 0).
  rewrite setPort_bytes by (done || by left). reflexivity.
Qed.

(** Mapping an IPv4 address into IPv6 and back is the identity, and the
    mapped address is recognised as such, keeps its port and is never taken for an
    IPv4 one. *)
Theorem mapped_ipv4_roundtrip a :
  wf_ipv4 a ->
  isMappedIPv4 AF_INET6 (getMappedIPv6 AF_INET6 a) = true /\
  getPort AF_INET6 (getMappedIPv6 AF_INET6 a) = getPort AF_INET6 a /\
  getFamily (getMappedIPv6 AF_INET6 a) = AF_INET6 /\
  getMappedIPv4 AF_INET6 (getMappedIPv6 AF_INET6 a) = a.
Proof using HAF6.
  intros (p1 & p2 & a1 & a2 & a3 & a4 & Hb & ->)%wf_ipv4_inv.
  rewrite getMappedIPv6_bytes, getMappedIPv4_bytes by done.
  split_and!; [apply isMappedIPv4_bytes| |apply getFamily_bytes|done].
  cbn [app]. by rewrite !getPort_bytes by first [by left|by right].
Qed.

End properties.

Lemma mapped_ipv4_roundtrip_witness :
  getMappedIPv4 23 (getMappedIPv6 23 [2; 0; 16; 126; 10; 0; 0; 1; 0; 0; 0; 0; 0; 0; 0; 0])
  = [2; 0; 16; 126; 10; 0; 0; 1; 0; 0; 0; 0; 0; 0; 0; 0].
Proof. apply (mapped_ipv4_roundtrip 23); [lia|by_compute]. Defined.

(** ** Splitting a host and a port *)

Lemma find_last_of_none c s : c ∉ s -> find_last_of c s = None.
Proof.
  induction s as [|x s IH]; [done|]. rewrite not_elem_of_cons. intros [Hx Hs]. cbn.
  rewrite IH by done. case_match; [|done]. zb. congruence.
Qed.

Lemma find_first_of_app c a s : c ∉ a -> find_first_of c (a ++ c :: s) = Some (length a).
Proof.
  induction a as [|x a IH]; cbn; [by rewrite Z.eqb_refl|].
  rewrite not_elem_of_cons. intros [Hx Ha]. rewrite IH by done. case_match; [|done]. zb. congruence.
Qed.

Lemma find_last_of_app c a s : c ∉ s -> find_last_of c (a ++ c :: s) = Some (length a).
Proof.
  intros Hs. induction a as [|x a IH]; cbn; [|by rewrite IH].
  by rewrite find_last_of_none, Z.eqb_refl by done.
Qed.

(** [splitPort] undoes both ways of writing a host with a port: a host
    without colons followed by a colon and the port, and an address in brackets
    (an IPv6 address, colons and all) followed by a colon and the port. *)
Theorem splitPort_roundtrip host port :
  colon ∉ port ->
  (colon ∉ host -> head host <> Some lbracket -> splitPort (host ++ colon :: port) = (host, port)) /\
  (rbracket ∉ host ->
   splitPort (lbracket :: host ++ rbracket :: colon :: port) = (host, port)).
Proof.
  intros Hp. split.
  - intros Hh Hb. unfold splitPort.
    assert (head (host ++ colon :: port) <> Some lbracket) as Hb' by (by destruct host).
    destruct (host ++ colon :: port) as [|c0 r] eqn:E; [by destruct host|]. cbn in Hb'.
    destruct (Z.eqb_spec c0 lbracket); [congruence|].
    rewrite <- E, find_last_of_app, find_first_of_app, Nat.eqb_refl by done.
    rewrite take_app_length, drop_app_ge by lia.
    by replace (S (length host) - length host)%nat with 1%nat by lia.
  - intros Hh. unfold splitPort. rewrite Z.eqb_refl.
    change (lbracket :: host ++ rbracket :: colon :: port)
      with ((lbracket :: host) ++ rbracket :: colon :: port).
    rewrite find_first_of_app by (by apply not_elem_of_cons).
    change ((lbracket :: host) ++ rbracket :: colon :: port)
      with (lbracket :: host ++ [rbracket] ++ colon :: port).
    rewrite app_assoc, app_comm_cons, find_last_of_app by done.
    cbn [length]. rewrite length_app. cbn [length].
    destruct (Nat.ltb_spec (S (length host + 1)) (S (length host))); [lia|].
    f_equal.
    + cbn [app drop]. rewrite <- app_assoc, Nat.sub_succ, Nat.sub_0_r. apply take_app_length.
    + cbn [app drop]. rewrite drop_app_ge by (rewrite length_app; cbn; lia).
      rewrite length_app. cbn [length].
      by replace (S (length host + 1) - (length host + 1))%nat with 1%nat by lia.
Qed.

Lemma splitPort_roundtrip_witness :
  splitPort (str "localhost:4222") = (str "localhost", str "4222") /\
  splitPort (str "[fe80::1]:4222") = (str "fe80::1", str "4222").
Proof.
  split.
  - apply (splitPort_roundtrip (str "localhost") (str "4222")); by_compute.
  - apply (splitPort_roundtrip (str "fe80::1") (str "4222")); by_compute.
Defined.
