(* ===== verification/Node.v ===== *)
(** * Node: remote nodes and the requests sent to them

    Models src/opendht-2.1.4/src/request.h, include/opendht/node.h,
    src/node.cpp and the enumeration of src/net.h.  Nodes and requests are shared
    through [std::shared_ptr]: the model keeps them in a store indexed by pointers
    ([World]), and every operation is a state transformer on it.  A callback that
    a request runs is an entry of the event log. *)
From Stdlib Require Import Ascii.
From S2P Require Import Prelude InfoHash StdMap SockAddr.

(** ** Time *)

(** [time_point] and [duration] count nanoseconds in 64 bits. *)
Definition time_min : Z := - 2 ^ 63.
Definition time_max : Z := 2 ^ 63 - 1.
Definition seconds (n : Z) : Z := n * 1000000000.
Definition minutes (n : Z) : Z := seconds (n * 60).

(** ** Requests *)

Abbreviation ptr := positive (only parsing).
Abbreviation Tid := Z (only parsing).

(** [enum class MessageType] of net.h. *)
Inductive MessageType :=
| MT_Error | MT_Reply | MT_Ping | MT_FindNode | MT_GetValues | MT_AnnounceValue
| MT_Refresh | MT_Listen | MT_ValueData | MT_ValueUpdate | MT_UpdateValue.

(** [enum class Request::State]. *)
Inductive ReqState := PENDING | CANCELLED | EXPIRED | COMPLETED.

#[export] Instance ReqState_eq_dec : EqDecision ReqState.
Proof. solve_decision. Defined.

(** [struct Request]; a callback is the identity of the function object, [None]
    the empty [std::function]. *)
Record Request := mkRequest {
  rq_node : ptr;
  rq_reply_time : Z;
  rq_tid : Tid;
  rq_type : MessageType;
  rq_state : ReqState;
  rq_attempt_count : Z;
  rq_attempt_duration : Z;
  rq_start : Z;
  rq_last_try : Z;
  rq_on_done : option nat;
  rq_on_error : option nat;
  rq_on_expired : option nat;
  rq_msg : bytes;
  rq_parts : list bytes;
}.

(** What callbacks a request ran. *)
Inductive event :=
| EvDone (cb : nat) (tid : Tid)
| EvError (cb : nat) (tid : Tid)
| EvExpired (cb : nat) (tid : Tid) (over : bool).

Definition MAX_RESPONSE_TIME : Z := seconds 1.
Definition MAX_ATTEMPT_COUNT : Z := 3.

(** The constructor of a pending request. *)
Definition Request_make (type : MessageType) (tid : Tid) (node : ptr) (msg : bytes)
    (on_done on_error on_expired : option nat) : Request :=
  mkRequest node time_min tid type PENDING 0 (MAX_RESPONSE_TIME / 2) time_min time_min
            on_done on_error on_expired msg [].

Definition rq_pending (r : Request) : bool := bool_decide (rq_state r = PENDING).
Definition rq_expired (r : Request) : bool := bool_decide (rq_state r = EXPIRED).
Definition rq_completed (r : Request) : bool := bool_decide (rq_state r = COMPLETED).
Definition rq_cancelled (r : Request) : bool := bool_decide (rq_state r = CANCELLED).
Definition rq_over (r : Request) : bool := negb (rq_pending r).

(** [getStateChar]. *)
Definition getStateChar (r : Request) : Ascii.ascii :=
  match rq_state r with
  | PENDING => "f" | CANCELLED => "c" | EXPIRED => "e" | COMPLETED => "a"
  end%char.

(** Assign the state and [clear()] the callbacks and buffers. *)
Definition rq_finish (st : ReqState) (r : Request) : Request :=
  mkRequest (rq_node r) (rq_reply_time r) (rq_tid r) (rq_type r) st (rq_attempt_count r)
            (rq_attempt_duration r) (rq_start r) (rq_last_try r) None None None [] [].

(** [setExpired]: calling an empty [std::function] throws. *)
Definition rq_setExpired (r : Request) : outcome (Request * list event) :=
  if rq_pending r then
    match rq_on_expired r with
    | None => Throw "bad_function_call"
    | Some cb => Ret (rq_finish EXPIRED r, [EvExpired cb (rq_tid r) true])
    end
  else Ret (r, []).

(** [setDone]. *)
Definition rq_setDone (r : Request) : outcome (Request * list event) :=
  if rq_pending r then
    match rq_on_done r with
    | None => Throw "bad_function_call"
    | Some cb => Ret (rq_finish COMPLETED r, [EvDone cb (rq_tid r)])
    end
  else Ret (r, []).

(** [setError]; [handles] is the result of the error callback. *)
Definition rq_setError (handles : nat -> bool) (r : Request) : Request * list event * bool :=
  if rq_pending r then
    match rq_on_error r with
    | Some cb => (rq_finish EXPIRED r, [EvError cb (rq_tid r)], handles cb)
    | None => (rq_finish EXPIRED r, [], false)
    end
  else (r, [], true).

(** [cancel]. *)
Definition rq_cancel (r : Request) : Request :=
  if rq_pending r then rq_finish CANCELLED r else r.

(** [isExpired]. *)
Definition rq_isExpired (now : Z) (r : Request) : bool :=
  rq_pending r && (rq_last_try r + rq_attempt_duration r <? now)
  && (MAX_ATTEMPT_COUNT <=? rq_attempt_count r).

(** ** Nodes *)

(** [struct Node]; a socket is the identity of its callback, [None] a null
    pointer in the map. *)
Record Node := mkNode {
  n_id : Hash;
  n_addr : SockAddr;
  n_is_client : bool;
  n_time : Z;
  n_reply_time : Z;
  n_auth_errors : Z;
  n_expired : bool;
  n_transaction_id : Tid;
  n_requests : list (Tid * ptr);
  n_sockets : list (Tid * option nat);
}.

Definition NODE_GOOD_TIME : Z := minutes 120.
Definition NODE_EXPIRE_TIME : Z := minutes 10.
Definition MAX_AUTH_ERRORS : Z := 3.

(** The constructor; [tid0] is drawn from [1, 2^32). *)
Definition Node_make (id : Hash) (addr : SockAddr) (client : bool) (tid0 : Tid) : Node :=
  mkNode id addr client time_min time_min 0 false tid0 [] [].

(** Field updates. *)
Definition n_set_addr (a : SockAddr) (n : Node) : Node :=
  mkNode (n_id n) a (n_is_client n) (n_time n) (n_reply_time n) (n_auth_errors n)
         (n_expired n) (n_transaction_id n) (n_requests n) (n_sockets n).
Definition n_set_times (t rt : Z) (e : bool) (n : Node) : Node :=
  mkNode (n_id n) (n_addr n) (n_is_client n) t rt (n_auth_errors n)
         e (n_transaction_id n) (n_requests n) (n_sockets n).
Definition n_set_auth_errors (k : Z) (n : Node) : Node :=
  mkNode (n_id n) (n_addr n) (n_is_client n) (n_time n) (n_reply_time n) k
         (n_expired n) (n_transaction_id n) (n_requests n) (n_sockets n).
Definition n_set_tid (t : Tid) (n : Node) : Node :=
  mkNode (n_id n) (n_addr n) (n_is_client n) (n_time n) (n_reply_time n) (n_auth_errors n)
         (n_expired n) t (n_requests n) (n_sockets n).
Definition n_set_requests (rs : list (Tid * ptr)) (n : Node) : Node :=
  mkNode (n_id n) (n_addr n) (n_is_client n) (n_time n) (n_reply_time n) (n_auth_errors n)
         (n_expired n) (n_transaction_id n) rs (n_sockets n).
Definition n_set_sockets (ss : list (Tid * option nat)) (n : Node) : Node :=
  mkNode (n_id n) (n_addr n) (n_is_client n) (n_time n) (n_reply_time n) (n_auth_errors n)
         (n_expired n) (n_transaction_id n) (n_requests n) ss.

(** [isGood]. *)
Definition isGood (now : Z) (n : Node) : bool :=
  negb (n_expired n) && (now - NODE_GOOD_TIME <=? n_reply_time n)
  && (now - NODE_EXPIRE_TIME <=? n_time n).

Definition isExpired (n : Node) : bool := n_expired n.
Definition isClient (n : Node) : bool := n_is_client n.
Definition isIncoming (n : Node) : bool := n_reply_time n <? n_time n.

(** [isOld] and [isRemovable]. *)
Definition isOld (now : Z) (n : Node) : bool := n_time n + NODE_EXPIRE_TIME <? now.
Definition isRemovable (now : Z) (n : Node) : bool := isExpired n && isOld now n.

Definition setTime (t : Z) (n : Node) : Node := n_set_times t (n_reply_time n) (n_expired n) n.
Definition update (a : SockAddr) (n : Node) : Node := n_set_addr a n.
Definition authSuccess (n : Node) : Node := n_set_auth_errors 0 n.

(** [reset]: not expired any more, and no reply received. *)
Definition reset (n : Node) : Node := n_set_times (n_time n) time_min false n.

(** [getNewTid]. *)
Definition getNewTid (n : Node) : Tid * Node :=
  let t := u32 (n_transaction_id n + 1) in
  if t =? 0 then (t, n_set_tid t n)
  else let t' := u32 (t + 1) in (t', n_set_tid t' n).

(** [exportNode]. *)
Record NodeExport := mkNodeExport { ne_id : Hash; ne_ss : bytes; ne_sslen : Z }.

Definition exportNode (n : Node) : NodeExport :=
  mkNodeExport (n_id n) (n_addr n) (Z.of_nat (getLength (n_addr n))).

(** ** The store of shared objects *)

Record World := mkWorld {
  w_nodes : gmap positive Node;
  w_reqs : gmap positive Request;
  w_log : list event;
}.

Definition w_upd_node (p : ptr) (n : Node) (w : World) : World :=
  mkWorld (<[p := n]> (w_nodes w)) (w_reqs w) (w_log w).
Definition w_upd_req (p : ptr) (r : Request) (evs : list event) (w : World) : World :=
  mkWorld (w_nodes w) (<[p := r]> (w_reqs w)) (w_log w ++ evs).

(** [isPendingMessage] and [getPendingMessageCount]: loops over [requests_]. *)
Definition req_is_pending (w : World) (p : ptr) : bool :=
  match w_reqs w !! p with Some r => rq_pending r | None => false end.

Definition isPendingMessage (w : World) (n : Node) : bool :=
  existsb (fun e => req_is_pending w e.2) (n_requests n).

Definition getPendingMessageCount (w : World) (n : Node) : nat :=
  length (List.filter (fun e => req_is_pending w e.2) (n_requests n)).

(** [r->setExpired()] on a shared request. *)
Definition w_req_setExpired (p : ptr) (w : World) : outcome World :=
  match w_reqs w !! p with
  | None => Undef "dangling request"
  | Some r => '(r', evs) ← rq_setExpired r; Ret (w_upd_req p r' evs w)
  end.

(** The loop of [Node::setExpired] over [requests_], in key order. *)
Fixpoint w_reqs_setExpired (l : list (Tid * ptr)) (w : World) : outcome World :=
  match l with
  | [] => Ret w
  | (_, p) :: l' => w' ← w_req_setExpired p w; w_reqs_setExpired l' w'
  end.

(** [Node::setExpired]: the flag is set, the requests expire, and the requests
    and sockets are dropped. *)
Definition setExpired (p : ptr) (w : World) : outcome World :=
  match w_nodes w !! p with
  | None => Undef "dangling node"
  | Some n =>
      let n1 := n_set_times (n_time n) (n_reply_time n) true n in
      w1 ← w_reqs_setExpired (n_requests n) (w_upd_node p n1 w);
      Ret (w_upd_node p (n_set_sockets [] (n_set_requests [] n1)) w1)
  end.

(** [authError]: [unsigned] increment, then expire the node past the limit. *)
Definition authError (p : ptr) (w : World) : outcome World :=
  match w_nodes w !! p with
  | None => Undef "dangling node"
  | Some n =>
      let k := u32 (n_auth_errors n + 1) in
      let w1 := w_upd_node p (n_set_auth_errors k n) w in
      if MAX_AUTH_ERRORS <? k then setExpired p w1 else Ret w1
  end.

(** [requested]: register a request under its transaction id. *)
Definition requested (p r : ptr) (w : World) : outcome World :=
  match w_nodes w !! p, w_reqs w !! r with
  | Some n, Some req =>
      match om_find Z.ltb (rq_tid req) (n_requests n) with
      | None => Ret (w_upd_node p (n_set_requests (om_set Z.ltb (rq_tid req) r (n_requests n)) n) w)
      | Some old =>
          if bool_decide (r = old) then Ret w
          else
            w1 ← w_req_setExpired old w;
            Ret (w_upd_node p (n_set_requests (om_set Z.ltb (rq_tid req) r (n_requests n)) n) w1)
      end
  | _, _ => Undef "dangling pointer"
  end.

(** [received]: [req] is the request the message answers, if any. *)
Definition received (now : Z) (req : option ptr) (p : ptr) (w : World) : outcome World :=
  match w_nodes w !! p with
  | None => Undef "dangling node"
  | Some n =>
      match req with
      | None => Ret (w_upd_node p (n_set_times now (n_reply_time n) false n) w)
      | Some r =>
          match w_reqs w !! r with
          | None => Undef "dangling request"
          | Some rq =>
              let n1 := n_set_times now now false n in
              Ret (w_upd_node p (n_set_requests (om_erase Z.ltb (rq_tid rq) (n_requests n1)) n1) w)
          end
      end
  end.

(** [getRequest]. *)
Definition getRequest (tid : Tid) (n : Node) : option ptr := om_find Z.ltb tid (n_requests n).

(** [cancelRequest]: [None] is the null pointer. *)
Definition cancelRequest (req : option ptr) (p : ptr) (w : World) : outcome World :=
  match req with
  | None => Ret w
  | Some r =>
      match w_nodes w !! p, w_reqs w !! r with
      | Some n, Some rq =>
          Ret (w_upd_node p (n_set_requests (om_erase Z.ltb (rq_tid rq) (n_requests n)) n)
                 (w_upd_req r (rq_cancel rq) [] w))
      | _, _ => Undef "dangling pointer"
      end
  end.

(** [openSocket].  When the id is taken, [emplace] may or may not have moved
    from [sock] before it is moved again ([consumed]: the standard leaves it to
    the implementation), in which case the map ends up with a null socket. *)
Definition openSocket (consumed : bool) (cb : nat) (n : Node) : Tid * Node :=
  let t0 := u32 (n_transaction_id n + 1) in
  let t := if t0 =? 0 then 1 else t0 in
  let n1 := n_set_tid t n in
  match om_find Z.ltb t (n_sockets n1) with
  | None => (t, n_set_sockets (om_set Z.ltb t (Some cb) (n_sockets n1)) n1)
  | Some _ =>
      (t, n_set_sockets (om_set Z.ltb t (if consumed then None else Some cb) (n_sockets n1)) n1)
  end.

(** [getSocket]: a null pointer when there is none. *)
Definition getSocket (id : Tid) (n : Node) : option nat :=
  match om_find Z.ltb id (n_sockets n) with Some s => s | None => None end.

(** [closeSocket]. *)
Definition closeSocket (id : Tid) (n : Node) : Node :=
  if id =? 0 then n else n_set_sockets (om_erase Z.ltb id (n_sockets n)) n.

(** ** Requests complete once *)

(** The ways a request can be driven to its end. *)
Inductive req_op := OpExpire | OpDone | OpError (handled : bool) | OpCancel.

Definition rq_step (o : req_op) (r : Request) : outcome (Request * list event) :=
  match o with
  | OpExpire => rq_setExpired r
  | OpDone => rq_setDone r
  | OpError h => let '(r', evs, _) := rq_setError (fun _ => h) r in Ret (r', evs)
  | OpCancel => Ret (rq_cancel r, [])
  end.

Fixpoint rq_run (ops : list req_op) (r : Request) : outcome (Request * list event) :=
  match ops with
  | [] => Ret (r, [])
  | o :: ops' =>
      '(r1, e1) ← rq_step o r; '(r2, e2) ← rq_run ops' r1; Ret (r2, e1 ++ e2)
  end.

Lemma rq_step_over o r : rq_over r = true -> rq_step o r = Ret (r, []).
Proof.
  unfold rq_over. intros H. zb.
  by destruct o; unfold rq_step, rq_setExpired, rq_setDone, rq_setError, rq_cancel; rewrite H.
Qed.

Lemma rq_run_over ops r : rq_over r = true -> rq_run ops r = Ret (r, []).
Proof.
  intros H. induction ops as [|o ops IH]; [done|]. cbn [rq_run].
  rewrite rq_step_over by done. cbn. by rewrite IH.
Qed.

Lemma rq_step_pending o r r' evs :
  rq_step o r = Ret (r', evs) -> rq_over r' = true /\ (length evs <= 1)%nat.
Proof.
  destruct (rq_over r) eqn:Hr.
  - rewrite rq_step_over by done. intros [= <- <-]. by split; [|simpl; lia].
  - unfold rq_over in Hr. zb. unfold rq_step, rq_setExpired, rq_setDone, rq_setError, rq_cancel.
    rewrite Hr. destruct o; cases; intros; simplify_eq/=; auto.
Qed.

(** A request is a state machine that leaves [PENDING] at most once:
    whatever sequence of expirations, replies, errors and cancellations is applied
    to it, at most one completion callback runs, and after the first one every
    later operation leaves the request unchanged and runs nothing. *)
Theorem request_completes_once ops r r' evs :
  rq_run ops r = Ret (r', evs) ->
  (length evs <= 1)%nat /\
  (ops <> [] -> rq_over r' = true) /\
  (rq_over r = true -> r' = r /\ evs = []) /\
  forall ops', rq_run (ops ++ ops') r =
    '(r2, e2) ← rq_run ops' r'; Ret (r2, evs ++ e2).
Proof.
  intros Hrun. split_and!.
  - destruct ops as [|o ops]; cbn in Hrun; [by simplify_eq/=; lia|].
    destruct (rq_step o r) as [[r1 e1]| | |] eqn:E1; try done. cbn in Hrun.
    destruct (rq_step_pending _ _ _ _ E1). rewrite rq_run_over in Hrun by done.
    cbn in Hrun. simplify_eq. rewrite app_nil_r. lia.
  - intros Hne. destruct ops as [|o ops]; [done|]. cbn in Hrun.
    destruct (rq_step o r) as [[r1 e1]| | |] eqn:E1; try done. cbn in Hrun.
    destruct (rq_step_pending _ _ _ _ E1). rewrite rq_run_over in Hrun by done.
    cbn in Hrun. by simplify_eq.
  - intros Hov. rewrite rq_run_over in Hrun by done. by simplify_eq.
  - intros ops'. revert r evs Hrun. induction ops as [|o ops IH]; intros r evs Hrun; cbn in *.
    + simplify_eq. destruct (rq_run ops' r') as [[? ?]| | |]; done.
    + destruct (rq_step o r) as [[r1 e1]| | |]; try done. cbn in *.
      destruct (rq_run ops r1) as [[r2 e2]| | |] eqn:E2; try done. cbn in *. simplify_eq.
      rewrite (IH _ _ E2). destruct (rq_run ops' r') as [[? ?]| | |]; cbn; try done.
      by rewrite app_assoc.
Qed.

Definition sample_request : Request :=
  Request_make MT_Ping 7 1%positive [1; 2] (Some 0%nat) None (Some 1%nat).

Lemma request_completes_once_witness :
  exists r, rq_run [OpCancel; OpDone; OpExpire] sample_request = Ret (r, []) /\ rq_over r = true.
Proof.
  eexists. split; [vm_compute; reflexivity|].
  apply (request_completes_once [OpCancel; OpDone; OpExpire] sample_request _ []);
    [vm_compute; reflexivity|done].
Defined.

(** ** Node expiration *)

(** A node whose requests are all in the store and can report their expiration. *)
Definition node_wf (w : World) (n : Node) : Prop :=
  Forall (fun e => match w_reqs w !! e.2 with
                   | Some r => rq_pending r = true -> is_Some (rq_on_expired r)
                   | None => False end) (n_requests n).

Lemma w_req_setExpired_ok p r w :
  w_reqs w !! p = Some r -> (rq_pending r = true -> is_Some (rq_on_expired r)) ->
  exists r' evs, w_req_setExpired p w = Ret (w_upd_req p r' evs w) /\
    rq_pending r' = false.
Proof.
  intros Hp Hcb. unfold w_req_setExpired. rewrite Hp. unfold rq_setExpired.
  destruct (rq_pending r) eqn:E.
  - destruct (Hcb eq_refl) as [cb ->]. cbn. by eexists _, _.
  - by eexists _, _.
Qed.

Lemma w_reqs_setExpired_ok l w :
  Forall (fun e => match w_reqs w !! e.2 with
                   | Some r => rq_pending r = true -> is_Some (rq_on_expired r)
                   | None => False end) l ->
  exists w', w_reqs_setExpired l w = Ret w' /\ w_nodes w' = w_nodes w /\
    (forall e, e ∈ l -> req_is_pending w' e.2 = false) /\
    (forall q, req_is_pending w q = false -> req_is_pending w' q = false).
Proof.
  revert w. induction l as [|[t p] l IH]; intros w Hl; cbn [w_reqs_setExpired].
  { exists w. split_and!; [done..|set_solver|done]. }
  inversion_clear Hl as [|? ? Hp Hl']. cbn in Hp.
  destruct (w_reqs w !! p) as [r|] eqn:Er; [|done].
  destruct (w_req_setExpired_ok p r w Er Hp) as (r' & evs & -> & Hr'). cbn.
  destruct (IH (w_upd_req p r' evs w)) as (w' & Hw' & Hn & Hlist & Hmono).
  { eapply Forall_impl; [exact Hl'|]. intros [t' q]. cbn.
    rewrite lookup_insert. case_decide; [intros _ ?; congruence|done]. }
  exists w'. rewrite Hw'. split_and!; [done|by rewrite Hn| |].
  - intros e [-> |He]%elem_of_cons; [|by apply Hlist]. apply Hmono. cbn.
    unfold req_is_pending. cbn. by rewrite lookup_insert_eq.
  - intros q Hq. apply Hmono. unfold req_is_pending in *. cbn. rewrite lookup_insert.
    case_decide; [done|]. done.
Qed.

(** [Node::setExpired] terminates normally on a node whose requests are in
    the store, and afterwards the node is expired and not good at any time, has
    no request and no socket left, none of the requests it had is pending, and
    no other node is touched. *)
Theorem setExpired_spec p n w :
  w_nodes w !! p = Some n -> node_wf w n ->
  exists w' n', setExpired p w = Ret w' /\ w_nodes w' = <[p := n']> (w_nodes w) /\
    isExpired n' = true /\ n_requests n' = [] /\ n_sockets n' = [] /\ n_id n' = n_id n /\
    (forall now, isGood now n' = false) /\
    (forall t r, (t, r) ∈ n_requests n -> req_is_pending w' r = false).
Proof.
  intros Hp Hwf. unfold setExpired. rewrite Hp.
  set (n1 := n_set_times (n_time n) (n_reply_time n) true n).
  destruct (w_reqs_setExpired_ok (n_requests n) (w_upd_node p n1 w)) as (w1 & -> & Hn & Hl & _).
  { exact Hwf. }
  cbn. eexists _, _. split; [done|]. cbn. rewrite Hn. cbn. rewrite insert_insert_eq.
  split_and!; [done..|]. intros t r Hr. unfold req_is_pending. cbn. apply (Hl (t, r) Hr).
Qed.

Definition sample_node : Node :=
  n_set_requests [(7, 2%positive)] (Node_make (Hash_zero 20) [] false 1).
Definition sample_world : World :=
  mkWorld {[ 1%positive := sample_node ]} {[ 2%positive := sample_request ]} [].

Lemma setExpired_spec_witness :
  exists w' n', setExpired 1 sample_world = Ret w' /\
    w_nodes w' = <[1%positive := n']> (w_nodes sample_world) /\
    isExpired n' = true /\ n_requests n' = [] /\ n_sockets n' = [] /\ n_id n' = n_id sample_node /\
    (forall now, isGood now n' = false) /\
    (forall t r, (t, r) ∈ n_requests sample_node -> req_is_pending w' r = false).
Proof.
  apply (setExpired_spec 1 sample_node sample_world); [reflexivity|].
  constructor; [|constructor]. vm_compute. intros _. eexists. reflexivity.
Defined.

(** [received] on a reply makes a node good from that moment for as long
    as the ten minutes after which it may be considered expired, and drops the
    request it answers; a message that is no reply refreshes the node but keeps
    the time of its last reply. *)
Theorem received_good now req p n w w' n' :
  w_nodes w !! p = Some n -> received now req p w = Ret w' -> w_nodes w' !! p = Some n' ->
  isExpired n' = false /\ n_time n' = now /\
  match req with
  | None => n_reply_time n' = n_reply_time n /\ n_requests n' = n_requests n
  | Some r =>
      (forall t, now <= t <= now + NODE_EXPIRE_TIME -> isGood t n' = true) /\
      exists rq, w_reqs w !! r = Some rq /\ n_requests n' = om_erase Z.ltb (rq_tid rq) (n_requests n)
  end.
Proof.
  intros Hp Hrec Hp'. unfold received in Hrec. rewrite Hp in Hrec.
  destruct req as [r|].
  - destruct (w_reqs w !! r) as [rq|] eqn:Er; [|done]. simplify_eq. cbn in Hp'.
    rewrite lookup_insert_eq in Hp'. simplify_eq. cbn. split_and!; [done..| |eauto].
    intros t Ht. unfold isGood. cbn.
    unfold NODE_GOOD_TIME, NODE_EXPIRE_TIME, minutes, seconds in *.
    apply andb_true_iff. split; apply Z.leb_le; lia.
  - simplify_eq. cbn in Hp'. rewrite lookup_insert_eq in Hp'. by simplify_eq.
Qed.

Lemma received_good_witness :
  exists w' n', received 1000 (Some 2%positive) 1 sample_world = Ret w' /\
    w_nodes w' !! 1%positive = Some n' /\ isGood 2000 n' = true.
Proof.
  eexists _, _. split; [vm_compute; reflexivity|]. split; [vm_compute; reflexivity|].
  eapply (received_good 1000 (Some 2%positive) 1 sample_node sample_world);
    [vm_compute; reflexivity|vm_compute; reflexivity|vm_compute; reflexivity|].
  vm_compute. split; discriminate.
Defined.

(** [getNewTid] returns a 32-bit transaction id and stores it in the node;
    it returns the invalid id 0 exactly when the previous id is one of the two
    largest. *)
Theorem getNewTid_zero n :
  0 <= n_transaction_id n < 2 ^ 32 ->
  0 <= (getNewTid n).1 < 2 ^ 32 /\ n_transaction_id (getNewTid n).2 = (getNewTid n).1 /\
  ((getNewTid n).1 = 0 <-> 2 ^ 32 - 2 <= n_transaction_id n) /\
  (n_transaction_id n < 2 ^ 32 - 2 -> (getNewTid n).1 = n_transaction_id n + 2).
Proof.
  intros Ht. unfold getNewTid. set (x := n_transaction_id n) in *. unfold wrap.
  destruct (decide (x = 2 ^ 32 - 1)) as [E|E].
  { replace ((x + 1) mod 2 ^ 32) with 0 by (by rewrite E).
    cbn -[Z.pow]. split_and!; lia. }
  rewrite (Z.mod_small (x + 1)) by lia. destruct (Z.eqb_spec (x + 1) 0); [lia|].
  destruct (decide (x = 2 ^ 32 - 2)) as [E'|E'].
  { replace ((x + 1 + 1) mod 2 ^ 32) with 0 by (by rewrite E').
    cbn -[Z.pow]. split_and!; lia. }
  rewrite (Z.mod_small (x + 1 + 1)) by lia. cbn -[Z.pow]. split_and!; lia.
Qed.

Lemma getNewTid_zero_witness :
  (getNewTid (Node_make (Hash_zero 20) [] false (2 ^ 32 - 2))).1 = 0.
Proof.
  apply (getNewTid_zero (Node_make (Hash_zero 20) [] false (2 ^ 32 - 2))); cbn; lia.
Defined.

(** Sockets: [openSocket] allocates a non-zero id different from the
    previous one; when the id is free, [getSocket] then returns the callback, and
    after [closeSocket] it returns none; other sockets are not affected. *)
Theorem socket_lifecycle consumed cb n :
  0 <= n_transaction_id n < 2 ^ 32 -> zm_wf (n_sockets n) ->
  let '(t, n') := openSocket consumed cb n in
  0 < t < 2 ^ 32 /\ t <> n_transaction_id n /\
  (om_find Z.ltb t (n_sockets n) = None -> getSocket t n' = Some cb) /\
  (forall t', t' <> t -> getSocket t' n' = getSocket t' n) /\
  getSocket t (closeSocket t n') = None.
Proof.
  intros Ht Hwf. unfold openSocket.
  set (t := if u32 (n_transaction_id n + 1) =? 0 then 1 else u32 (n_transaction_id n + 1)).
  assert (0 < t < 2 ^ 32 /\ t <> n_transaction_id n) as [Ht1 Ht2].
  { unfold t, wrap. destruct (decide (n_transaction_id n = 2 ^ 32 - 1)) as [E|E].
    - rewrite E. change ((2 ^ 32 - 1 + 1) mod 2 ^ 32) with 0. cbn -[Z.pow]. lia.
    - rewrite Z.mod_small by lia. case_match; zb; lia. }
  assert (forall s, zm_wf (om_set Z.ltb t s (n_sockets n))) as Hs by auto with vb_wf.
  cbn [n_sockets n_set_tid]. destruct (om_find Z.ltb t (n_sockets n)) as [s|] eqn:E;
    (split_and!; [lia|lia|lia|..]).
  - intros; congruence.
  - intros t' Hne. unfold getSocket. cbn.
    by rewrite zm_find_set_ne.
  - unfold closeSocket. destruct (Z.eqb_spec t 0); [lia|]. unfold getSocket. cbn.
    by rewrite zm_find_erase_eq.
  - intros _. unfold getSocket. cbn.
    by rewrite zm_find_set_eq.
  - intros t' Hne. unfold getSocket. cbn.
    by rewrite zm_find_set_ne.
  - unfold closeSocket. destruct (Z.eqb_spec t 0); [lia|]. unfold getSocket. cbn.
    by rewrite zm_find_erase_eq.
Qed.

Lemma socket_lifecycle_witness : getSocket 6 (openSocket true 3%nat (Node_make [] [] false 5)).2 = Some 3%nat.
Proof.
  pose proof (socket_lifecycle true 3%nat (Node_make [] [] false 5) ltac:(cbn; lia)
    zm_wf_nil) as H.
  apply H. reflexivity.
Defined.
