(* ===== verification/NodeCache.v ===== *)
(** * NodeCache: the nodes known by identifier

    Models src/opendht-2.1.4/include/opendht/node_cache.h and src/node_cache.cpp.
    A [NodeMap] is a [std::map] from identifiers to [std::weak_ptr<Node>].  The
    store of nodes of [World] holds the nodes that some [std::shared_ptr] keeps
    alive: a weak pointer can be locked when the store has its node, and
    [NStep_drop] is the release of the last strong reference.  Pointers are never
    given out twice, as control blocks are not while a weak reference exists. *)
From S2P Require Import Prelude StdMap InfoHash SockAddr Node.

Definition CLEANUP_MAX_NODES : nat := 1024.
Definition CLEANUP_FREQ : Z := 1024.

(** [class NodeMap : private std::map<InfoHash, std::weak_ptr<Node>>]. *)
Record NodeMap := mkNodeMap {
  nm_map : list (Hash * ptr);
  nm_cleanup_counter : Z;
}.

(** [weak_ptr::expired]; [lock] is the lookup in the store. *)
Definition weak_expired (w : World) (p : ptr) : bool :=
  match w_nodes w !! p with Some _ => false | None => true end.

(** [NodeMap::getNode(id)]. *)
Definition getNode_id (id : Hash) (m : NodeMap) (w : World) : option ptr * NodeMap :=
  match om_find op_lt id (nm_map m) with
  | None => (None, m)
  | Some p =>
      if weak_expired w p
      then (None, mkNodeMap (om_erase op_lt id (nm_map m)) (nm_cleanup_counter m))
      else (Some p, m)
  end.

(** The loop of [cleanup]: the elements before the iterator and those from it. *)
Fixpoint cleanup_loop (w : World) (n : nat) (l r : list (Hash * ptr))
    : outcome (list (Hash * ptr)) :=
  match n with
  | O => Ret (l ++ r)
  | S n' =>
      let '(l, r) := match r with [] => ([], l) | _ => (l, r) end in
      match r with
      | [] => Undef "dereference of end()"
      | e :: r' =>
          if weak_expired w e.2 then cleanup_loop w n' l r' else cleanup_loop w n' (l ++ [e]) r'
      end
  end.

(** [cleanup]; [rnd] is [InfoHash::getRandom()]. *)
Definition cleanup (rnd : Hash) (w : World) (m : NodeMap) : outcome NodeMap :=
  let '(l, r) := om_lower_bound op_lt rnd (nm_map m) in
  l' ← cleanup_loop w (Nat.min (length (nm_map m)) CLEANUP_MAX_NODES) l r;
  Ret (mkNodeMap l' (nm_cleanup_counter m)).

(** The branch of [getNode] that makes a node: [fresh] is the pointer [make_shared]
    gives, [tid0] what the constructor of the node draws. *)
Definition create_node (fresh : ptr) (tid0 : Tid) (rnd : Hash) (id : Hash) (addr : SockAddr)
    (client : bool) (m : NodeMap) (w : World) : outcome (ptr * NodeMap * World) :=
  let w1 := w_upd_node fresh (Node_make id addr client tid0) w in
  let c := nm_cleanup_counter m in
  let m1 := mkNodeMap (om_set op_lt id fresh (nm_map m)) (u64 (c + 1)) in
  if c =? CLEANUP_FREQ
  then m2 ← cleanup rnd w1 m1; Ret (fresh, mkNodeMap (nm_map m2) 0, w1)
  else Ret (fresh, m1, w1).

(** [NodeMap::getNode(id, addr, now, confirm, client, rd)]. *)
Definition getNode_addr (fresh : ptr) (tid0 : Tid) (rnd : Hash) (id : Hash) (addr : SockAddr)
    (now : Z) (confirm client : bool) (m : NodeMap) (w : World) : outcome (ptr * NodeMap * World) :=
  match om_find op_lt id (nm_map m) with
  | None => create_node fresh tid0 rnd id addr client m w
  | Some p =>
      match w_nodes w !! p with
      | None => create_node fresh tid0 rnd id addr client m w
      | Some n =>
          if confirm || isOld now n then Ret (p, m, w_upd_node p (update addr n) w)
          else Ret (p, m, w)
      end
  end.

(** [nodes.emplace_back] of the nodes that [getCachedNodes] keeps. *)
Definition usable (w : World) (p : ptr) : bool :=
  match w_nodes w !! p with
  | Some n => negb (isExpired n) && negb (isClient n)
  | None => false
  end.

(** The loop of [getCachedNodes]: [it_p] walks down from the element before the
    lower bound ([dec_it] turns [begin] into [end]), [it_n] walks up from it.  Each
    round consumes an element, so the size of the map is enough fuel. *)
Fixpoint getCached_loop (w : World) (id : Hash) (count fuel : nat)
    (it_p it_n : list (Hash * ptr)) (nodes : list ptr) : list ptr :=
  if (length nodes <? count)%nat then
    match fuel with
    | O => nodes
    | S fuel' =>
        match it_p, it_n with
        | [], [] => nodes
        | [], n :: it_n' =>
            getCached_loop w id count fuel' it_p it_n' (if usable w n.2 then nodes ++ [n.2] else nodes)
        | p :: it_p', [] =>
            getCached_loop w id count fuel' it_p' it_n (if usable w p.2 then nodes ++ [p.2] else nodes)
        | p :: it_p', n :: it_n' =>
            if xorCmp id p.1 n.1 <? 0
            then getCached_loop w id count fuel' it_p' it_n (if usable w p.2 then nodes ++ [p.2] else nodes)
            else getCached_loop w id count fuel' it_p it_n' (if usable w n.2 then nodes ++ [n.2] else nodes)
        end
    end
  else nodes.

(** [NodeMap::getCachedNodes]. *)
Definition map_getCachedNodes (id : Hash) (count : nat) (m : NodeMap) (w : World) : list ptr :=
  let '(l, r) := om_lower_bound op_lt id (nm_map m) in
  getCached_loop w id count (length (nm_map m)) (rev l) r [].

(** [NodeMap::clearBadNodes]: nodes are reset, dangling entries erased. *)
Fixpoint clear_loop (l : list (Hash * ptr)) (w : World) : list (Hash * ptr) * World :=
  match l with
  | [] => ([], w)
  | e :: l' =>
      match w_nodes w !! e.2 with
      | Some n => let '(l1, w1) := clear_loop l' (w_upd_node e.2 (reset n) w) in (e :: l1, w1)
      | None => clear_loop l' w
      end
  end.

Definition map_clearBadNodes (m : NodeMap) (w : World) : NodeMap * World :=
  let '(l, w') := clear_loop (nm_map m) w in (mkNodeMap l 0, w').

(** [NodeMap::setExpired]. *)
Fixpoint expire_loop (l : list (Hash * ptr)) (w : World) : outcome World :=
  match l with
  | [] => Ret w
  | e :: l' =>
      if weak_expired w e.2 then expire_loop l' w else w' ← setExpired e.2 w; expire_loop l' w'
  end.

Definition map_setExpired (m : NodeMap) (w : World) : outcome (NodeMap * World) :=
  w' ← expire_loop (nm_map m) w; Ret (mkNodeMap [] 0, w').

(** ** The cache of each address family *)

Record NodeCache := mkNodeCache { cache_4 : NodeMap; cache_6 : NodeMap }.

Definition NodeCache_make : NodeCache := mkNodeCache (mkNodeMap [] 0) (mkNodeMap [] 0).

(** [cache(af)]. *)
Definition cache (af : Z) (c : NodeCache) : NodeMap :=
  if af =? AF_INET then cache_4 c else cache_6 c.

Definition set_cache (af : Z) (m : NodeMap) (c : NodeCache) : NodeCache :=
  if af =? AF_INET then mkNodeCache m (cache_6 c) else mkNodeCache (cache_4 c) m.

(** [size(family)] and [size()]; the number of [AF_INET6] depends on the platform. *)
Definition cache_size (af : Z) (c : NodeCache) : nat := length (nm_map (cache af c)).
Definition cache_total (AF_INET6 : Z) (c : NodeCache) : nat := (cache_size AF_INET c + cache_size AF_INET6 c)%nat.

(** [getNode(id, family)]. *)
Definition cache_getNode (id : Hash) (af : Z) (c : NodeCache) (w : World) : option ptr * NodeCache :=
  let '(r, m) := getNode_id id (cache af c) w in (r, set_cache af m c).

(** [getNode(id, addr, now, confirm, client)]: a node without identifier is not cached. *)
Definition cache_getNode_addr (fresh : ptr) (tid0 : Tid) (rnd : Hash) (id : Hash) (addr : SockAddr)
    (now : Z) (confirm client : bool) (c : NodeCache) (w : World)
    : outcome (ptr * NodeCache * World) :=
  if negb (op_bool HASH_LEN id)
  then Ret (fresh, c, w_upd_node fresh (Node_make id addr client tid0) w)
  else
    '(p, m, w') ← getNode_addr fresh tid0 rnd id addr now confirm client (cache (getFamily addr) c) w;
    Ret (p, set_cache (getFamily addr) m c, w').

(** [getCachedNodes(id, family, count)]. *)
Definition getCachedNodes (id : Hash) (af : Z) (count : nat) (c : NodeCache) (w : World) : list ptr :=
  map_getCachedNodes id count (cache af c) w.

(** [clearBadNodes(family)]: family 0 is both. *)
Definition clearBadNodes (AF_INET6 : Z) (af : Z) (c : NodeCache) (w : World) : NodeCache * World :=
  let clear1 af c w := let '(m, w') := map_clearBadNodes (cache af c) w in (set_cache af m c, w') in
  if af =? 0
  then let '(c1, w1) := clear1 AF_INET c w in clear1 AF_INET6 c1 w1
  else clear1 af c w.

(** [~NodeCache]. *)
Definition NodeCache_destroy (c : NodeCache) (w : World) : outcome World :=
  '(_, w1) ← map_setExpired (cache_4 c) w; '(_, w2) ← map_setExpired (cache_6 c) w1; Ret w2.

(** ** Cleaning up *)

Definition live (w : World) (l : list (Hash * ptr)) : list (Hash * ptr) :=
  List.filter (fun e => negb (weak_expired w e.2)) l.

Lemma live_app w l1 l2 : live w (l1 ++ l2) = live w l1 ++ live w l2.
Proof. apply List.filter_app. Qed.

Lemma live_live w l : live w (live w l) = live w l.
Proof.
  unfold live. induction l as [|e l IH]; [done|]. simpl. destruct (negb _) eqn:E; simpl; [|done].
  by rewrite E, IH.
Qed.

Lemma live_sublist w l : live w l `sublist_of` l.
Proof. unfold live. induction l; simpl; [done|]. case_match; by constructor. Qed.

Lemma live_elem w l e : e ∈ live w l <-> e ∈ l /\ is_Some (w_nodes w !! e.2).
Proof.
  unfold live, weak_expired. rewrite !list_elem_of_In, List.filter_In.
  destruct (w_nodes w !! e.2); naive_solver.
Qed.

(** Up to the end of the map, the elements that expired go. *)
Lemma cleanup_loop_tail w n l r :
  (n <= length r)%nat -> cleanup_loop w n l r = Ret (l ++ live w (take n r) ++ drop n r).
Proof.
  revert l r. induction n as [|n IH]; intros l r Hn; [done|].
  destruct r as [|e r]; simpl in Hn; [lia|]. cbn. destruct (weak_expired w e.2); cbn.
  - apply IH. lia.
  - rewrite IH by lia. by rewrite <- app_assoc.
Qed.

(** Past the end, the loop goes on from the beginning. *)
Lemma cleanup_loop_wrap w k l r :
  (0 < k <= length l)%nat ->
  cleanup_loop w (length r + k) l r = Ret (live w (take k l) ++ drop k l ++ live w r).
Proof.
  revert l. induction r as [|e r IH]; intros l Hk.
  - transitivity (cleanup_loop w k [] l).
    { destruct k; [lia|]. destruct l; [simpl in Hk; lia|]. done. }
    rewrite cleanup_loop_tail by lia. simpl. by rewrite app_nil_r.
  - cbn. destruct (weak_expired w e.2); cbn; [by apply IH|].
    rewrite IH by (rewrite length_app; lia). f_equal.
    rewrite take_app_le, drop_app_le by lia. by rewrite <- app_assoc.
Qed.

Lemma cleanup_ok rnd w m :
  exists l, cleanup rnd w m = Ret (mkNodeMap l (nm_cleanup_counter m)) /\
    l `sublist_of` nm_map m /\ live w l = live w (nm_map m) /\
    ((length (nm_map m) <= CLEANUP_MAX_NODES)%nat -> l = live w (nm_map m)).
Proof.
  unfold cleanup. pose proof (om_lower_bound_app op_lt rnd (nm_map m)) as E.
  destruct (om_lower_bound op_lt rnd (nm_map m)) as [l r]. simpl in E. rewrite <- E.
  set (n := Nat.min (length (l ++ r)) CLEANUP_MAX_NODES).
  assert (n <= length l + length r)%nat by (subst n; rewrite length_app; lia).
  assert (length (l ++ r) <= CLEANUP_MAX_NODES -> n = length r + length l)%nat as Hn
    by (subst n; rewrite length_app; lia).
  assert (forall k r, live w (live w (take k r) ++ drop k r) = live w r) as Hl.
  { intros k r'. rewrite live_app, live_live, <- live_app. by rewrite take_drop. }
  assert (forall k r, live w (take k r) ++ drop k r `sublist_of` r) as Hs.
  { intros k r'. rewrite <- (take_drop k r') at 3. apply sublist_app; [apply live_sublist|done]. }
  destruct (Nat.le_gt_cases n (length r)).
  - rewrite cleanup_loop_tail by done. eexists. split; [done|]. split_and!.
    + by apply sublist_app.
    + rewrite live_app, Hl. by rewrite live_app.
    + intros Hle. specialize (Hn Hle). assert (length l = 0)%nat as ->%nil_length_inv by lia.
      simpl in *. rewrite Hn, Nat.add_0_r, firstn_all, skipn_all. by rewrite app_nil_r.
  - replace n with (length r + (n - length r))%nat by lia.
    rewrite cleanup_loop_wrap by lia. eexists. split; [done|]. split_and!.
    + rewrite app_assoc. apply sublist_app; [done|apply live_sublist].
    + rewrite app_assoc, live_app, Hl, live_live. by rewrite live_app.
    + intros Hle. specialize (Hn Hle). replace (n - length r)%nat with (length l) by lia.
      rewrite firstn_all, skipn_all. by rewrite live_app.
Qed.

(** ** The order of the cached nodes *)

(** The number of bits of a distance, below the leading zeroes. *)
Definition nbits (d : Z) : Z := if d =? 0 then 0 else Z.log2 d + 1.

Lemma nbits_le d k : 0 <= d -> 0 <= k -> nbits d <= k <-> d < 2 ^ k.
Proof.
  intros Hd Hk. unfold nbits. destruct (Z.eqb_spec d 0) as [-> |].
  - pose proof (Z.pow_pos_nonneg 2 k). lia.
  - rewrite Z.log2_lt_pow2 by lia. lia.
Qed.

Lemma nbits_nonneg d : 0 <= nbits d.
Proof. unfold nbits. pose proof (Z.log2_nonneg d). case_match; lia. Qed.

Lemma nbits_mono d e : 0 <= d -> d <= e -> nbits d <= nbits e.
Proof.
  intros. pose proof (nbits_nonneg e). apply nbits_le; [done..|].
  assert (e < 2 ^ nbits e) by (apply nbits_le; lia). lia.
Qed.

Lemma lxor_lt_pow2 a b k :
  0 <= a -> 0 <= b -> 0 <= k -> Z.lxor a b < 2 ^ k <-> a / 2 ^ k = b / 2 ^ k.
Proof.
  intros Ha Hb Hk. rewrite <- !Z.shiftr_div_pow2 by done.
  assert (0 <= Z.lxor a b) by (apply Z.lxor_nonneg; lia).
  rewrite <- Z.lxor_eq_0_iff, <- Z.shiftr_lxor, Z.shiftr_div_pow2 by done.
  pose proof (Z.pow_pos_nonneg 2 k). symmetry. split.
  - intros Hz. apply Z.div_small_iff in Hz; lia.
  - intros. apply Z.div_small. lia.
Qed.

(** Between a number and another that shares its high bits, the high bits are shared. *)
Lemma lxor_between t a b k :
  0 <= t -> 0 <= a -> 0 <= b -> 0 <= k -> t <= a <= b \/ b <= a <= t ->
  Z.lxor b t < 2 ^ k -> Z.lxor a t < 2 ^ k.
Proof.
  intros ???? Hab. rewrite !lxor_lt_pow2 by done. pose proof (Z.pow_pos_nonneg 2 k).
  assert (forall x y, x <= y -> x / 2 ^ k <= y / 2 ^ k) as Hm by (intros; apply Z.div_le_mono; lia).
  destruct Hab as [[L1%Hm L2%Hm]|[L1%Hm L2%Hm]]; lia.
Qed.

Section Visit.
Context (N : nat) (id : Hash) (Hid : wf_hash N id).
Implicit Types (e f : Hash * ptr).

(** How much of the prefix of [id] an entry does not share. *)
Definition unshared (e : Hash * ptr) : Z := nbits (xor_dist id e.1).
Definition nearer (e f : Hash * ptr) : Prop := unshared e <= unshared f.

Definition keys_wf (l : list (Hash * ptr)) : Prop := Forall (fun e => wf_hash N e.1) l.

Lemma commonBits_unshared e :
  wf_hash N e.1 -> commonBits id e.1 = Some (8 * Z.of_nat N - unshared e).
Proof using Hid.
  destruct Hid as [Li Wi]. intros [Le We]. unfold commonBits, unshared, nbits.
  rewrite commonBits_from_log2 by (done || congruence). rewrite Li. case_match; f_equal; lia.
Qed.

Lemma xor_dist_nonneg e : wf_hash N e.1 -> 0 <= xor_dist id e.1.
Proof using Hid.
  destruct Hid as [Li Wi]. intros [Le We]. rewrite xor_dist_lxor by (done || congruence).
  pose proof (be_Z_range _ Wi). pose proof (be_Z_range _ We). apply Z.lxor_nonneg. lia.
Qed.

(** Away from [id], in either direction, less and less of the prefix is shared. *)
Lemma away_nearer e f :
  wf_hash N e.1 -> wf_hash N f.1 ->
  be_Z id <= be_Z e.1 <= be_Z f.1 \/ be_Z f.1 <= be_Z e.1 <= be_Z id -> nearer e f.
Proof using Hid.
  intros He Hf Hef. pose proof (xor_dist_nonneg e He) as De. pose proof (xor_dist_nonneg f Hf) as Df.
  unfold nearer, unshared in *. pose proof (nbits_nonneg (xor_dist id f.1)).
  apply nbits_le; [done..|]. destruct Hid as [Li Wi], He as [Le We], Hf as [Lf Wf].
  assert (xor_dist id f.1 < 2 ^ nbits (xor_dist id f.1)) as Hlt by (apply nbits_le; lia).
  revert Hlt. generalize (nbits (xor_dist id f.1)) as k. intros k. intros Hlt.
  destruct (Z.lt_ge_cases k 0); [rewrite Z.pow_neg_r in Hlt by done; lia|].
  rewrite !xor_dist_lxor in * by (done || congruence).
  pose proof (be_Z_range _ Wi). pose proof (be_Z_range _ We). pose proof (be_Z_range _ Wf).
  eapply lxor_between, Hlt; lia.
Qed.

Lemma op_lt_be (a b : Hash) : wf_hash N a -> wf_hash N b -> op_lt a b = (be_Z a <? be_Z b).
Proof.
  intros [La Wa] [Lb Wb]. rewrite op_lt_cmp, cmp_be by (done || congruence).
  unfold sign_of. destruct (Z.compare_spec (be_Z a) (be_Z b)), (Z.ltb_spec (be_Z a) (be_Z b)); done || lia.
Qed.

(** The order in which the loop visits the entries. *)
Fixpoint visit (fuel : nat) (it_p it_n : list (Hash * ptr)) : list (Hash * ptr) :=
  match fuel with
  | O => []
  | S fuel' =>
      match it_p, it_n with
      | [], [] => []
      | [], n :: it_n' => n :: visit fuel' it_p it_n'
      | p :: it_p', [] => p :: visit fuel' it_p' it_n
      | p :: it_p', n :: it_n' =>
          if xorCmp id p.1 n.1 <? 0 then p :: visit fuel' it_p' it_n else n :: visit fuel' it_p it_n'
      end
  end.

Definition usable_of (w : World) (l : list (Hash * ptr)) : list ptr :=
  (List.filter (fun e => usable w e.2) l).*2.

Lemma getCached_loop_visit w count fuel it_p it_n nodes :
  (length nodes <= count)%nat ->
  getCached_loop w id count fuel it_p it_n nodes =
  take count (nodes ++ usable_of w (visit fuel it_p it_n)).
Proof.
  assert (forall e nodes l, (if usable w e.2 then nodes ++ [e.2] else nodes) ++ usable_of w l =
            nodes ++ usable_of w (e :: l)) as Hstep.
  { intros e ns l. unfold usable_of. simpl. case_match; [by rewrite <- app_assoc|done]. }
  revert it_p it_n nodes. induction fuel as [|fuel IH]; intros it_p it_n nodes Hl; cbn [getCached_loop visit].
  { rewrite app_nil_r, take_ge by done. by case_match. }
  destruct (Nat.ltb_spec (length nodes) count) as [Hlt|Hge].
  2:{ assert (length nodes = count) as <- by lia. by rewrite take_app_length. }
  destruct it_p as [|p it_p], it_n as [|n it_n]; [by rewrite app_nil_r, take_ge|..|case_match];
    (rewrite IH; [by rewrite Hstep|]); case_match; rewrite ?length_app; simpl; lia.
Qed.

Lemma visit_perm fuel it_p it_n :
  (length it_p + length it_n <= fuel)%nat -> visit fuel it_p it_n ≡ₚ it_p ++ it_n.
Proof.
  revert it_p it_n. induction fuel as [|fuel IH]; intros [|p it_p] [|n it_n] Hf; simpl in *; try done; try lia.
  - by rewrite IH by (simpl; lia).
  - by rewrite IH by (simpl; lia).
  - case_match; rewrite IH by (simpl; lia); [done|]. apply Permutation_middle.
Qed.

Lemma xorCmp_nearer e f :
  wf_hash N e.1 -> wf_hash N f.1 ->
  if xorCmp id e.1 f.1 <? 0 then nearer e f else nearer f e.
Proof using Hid.
  intros He Hf. pose proof (xor_dist_nonneg e He). pose proof (xor_dist_nonneg f Hf).
  destruct Hid as [Li Wi], He as [Le We], Hf as [Lf Wf].
  rewrite xorCmp_dist by (done || congruence). unfold nearer, unshared.
  destruct (Z.compare_spec (xor_dist id e.1) (xor_dist id f.1)); simpl; apply nbits_mono; lia.
Qed.

Lemma visit_sorted fuel it_p it_n :
  keys_wf it_p -> keys_wf it_n -> (length it_p + length it_n <= fuel)%nat ->
  StronglySorted nearer it_p -> StronglySorted nearer it_n ->
  StronglySorted nearer (visit fuel it_p it_n).
Proof using Hid.
  assert (forall e l1 l2 l, l ≡ₚ l1 ++ l2 -> Forall (nearer e) l1 -> Forall (nearer e) l2 ->
            Forall (nearer e) l) as Hall.
  { intros e l1 l2 l -> H1 H2. by apply Forall_app. }
  assert (forall e f l, nearer e f -> Forall (nearer f) l -> Forall (nearer e) (f :: l)) as Hvia.
  { intros e f l Hef Hl. constructor; [done|]. eapply Forall_impl; [exact Hl|].
    unfold nearer in *. lia. }
  revert it_p it_n. induction fuel as [|fuel IH]; intros it_p it_n Kp Kn Hf Sp Sn; [constructor|].
  destruct Sp as [|p it_p Sp Fp], Sn as [|n it_n Sn Fn]; cbn [visit]; simpl in Hf;
    try inversion_clear Kp as [|? ? Kp0 Kp']; try inversion_clear Kn as [|? ? Kn0 Kn'].
  - constructor.
  - constructor; [apply IH; (done || constructor || (simpl; lia))|].
    eapply Hall; [apply visit_perm; simpl; lia|constructor|done].
  - constructor; [apply IH; (done || constructor || (simpl; lia))|].
    eapply Hall; [apply visit_perm; simpl; lia|done|constructor].
  - pose proof (xorCmp_nearer p n Kp0 Kn0) as Hc. case_match; constructor;
      try (apply IH; (done || (by constructor) || (simpl; lia)));
      (eapply Hall; [apply visit_perm; simpl; lia| |]); auto.
Qed.
End Visit.

Lemma strongly_sorted_map {A} (R S : A -> A -> Prop) (P : A -> Prop) l :
  (forall a b, P a -> P b -> R a b -> S a b) -> Forall P l ->
  StronglySorted R l -> StronglySorted S l.
Proof.
  intros H HP. induction 1 as [|a l Hs IH Ha]; [constructor|]. inversion_clear HP as [|? ? Pa Pl].
  constructor; [auto|]. rewrite Forall_forall in *. auto.
Qed.

Lemma strongly_sorted_rev {A} (R : A -> A -> Prop) l :
  StronglySorted R l -> StronglySorted (flip R) (rev l).
Proof.
  induction 1 as [|a l Hs IH Ha]; simpl; [constructor|].
  apply StronglySorted_app_2; [|done|by repeat constructor].
  intros x y Hx Hy. rewrite list_elem_of_singleton in Hy. subst. rewrite Forall_forall in Ha.
  apply Ha. rewrite list_elem_of_In in *. by apply in_rev.
Qed.

(** The two walks of [getCachedNodes] go away from the identifier. *)
Lemma walks_sorted N id m l r :
  wf_hash N id -> om_wf op_lt (wf_hash N) m -> om_lower_bound op_lt id m = (l, r) ->
  keys_wf N (rev l) /\ keys_wf N r /\
  StronglySorted (nearer id) (rev l) /\ StronglySorted (nearer id) r.
Proof.
  intros Hid Hwf E. pose proof (om_lower_bound_split _ _ id m Hwf) as [Hl Hr].
  pose proof (om_lower_bound_app op_lt id m) as Em. rewrite E in *. simpl in *.
  destruct Hwf as [Hs Hv]. rewrite <- Em in Hs, Hv. apply Forall_app in Hv as [Vl Vr].
  apply StronglySorted_app in Hs as (_ & Sl & Sr). split_and!; [by apply Forall_rev|done|..].
  - eapply (strongly_sorted_map (flip (key_lt op_lt)) _ (fun e => wf_hash N e.1 /\ op_lt e.1 id = true)).
    + unfold flip, key_lt. intros a b [Wa La] [Wb Lb] Hab. rewrite op_lt_be with (N := N) in * by done.
      zb. apply (away_nearer N); [done..|lia].
    + apply Forall_rev, Forall_and. done.
    + by apply strongly_sorted_rev.
  - eapply (strongly_sorted_map (key_lt op_lt) _ (fun e => wf_hash N e.1 /\ op_lt e.1 id = false));
      [|by apply Forall_and|done].
    unfold key_lt. intros a b [Wa La] [Wb Lb] Hab. rewrite op_lt_be with (N := N) in * by done.
    zb. apply (away_nearer N); [done..|lia].
Qed.

(** [getCachedNodes] answers with the first [count] usable nodes (alive, not
    expired, not clients) of an enumeration of the whole cache in which the length of
    the prefix shared with the target never grows: nodes that share a longer prefix
    with [id] come first, and the answer is short only when the cache has no more. *)
Theorem getCachedNodes_spec id af count c w :
  wf_hash HASH_LEN id -> om_wf op_lt (wf_hash HASH_LEN) (nm_map (cache af c)) ->
  exists order,
    order ≡ₚ nm_map (cache af c) /\
    getCachedNodes id af count c w = take count (usable_of w order) /\
    StronglySorted (fun e f => exists i j,
      commonBits id e.1 = Some i /\ commonBits id f.1 = Some j /\ j <= i) order.
Proof.
  intros Hid Hwf. unfold getCachedNodes, map_getCachedNodes.
  set (m := nm_map (cache af c)) in *. destruct (om_lower_bound op_lt id m) as [l r] eqn:E.
  pose proof (om_lower_bound_app op_lt id m) as Em. rewrite E in Em. simpl in Em.
  destruct (walks_sorted HASH_LEN id m l r Hid Hwf E) as (Kl & Kr & Sl & Sr).
  assert (length (rev l) + length r <= length m)%nat
    by (rewrite <- Em, length_app, length_rev; lia).
  exists (visit id (length m) (rev l) r).
  assert (visit id (length m) (rev l) r ≡ₚ m) as Hp.
  { rewrite visit_perm by done. by rewrite <- Em, <- Permutation_rev. }
  split_and!; [done|by rewrite getCached_loop_visit by (simpl; lia)|].
  eapply (strongly_sorted_map (nearer id) _ (fun e => wf_hash HASH_LEN e.1)).
  - unfold nearer. intros e f He Hf Hef. do 2 eexists.
    rewrite !commonBits_unshared with (N := HASH_LEN) by done. split_and!; [done..|lia].
  - rewrite Hp. apply Hwf.
  - by apply visit_sorted with (N := HASH_LEN).
Qed.

(** ** One node per identifier *)

(** What the cache depends on of a node: its identifier and its address family. *)
Definition inet (a : SockAddr) : bool := getFamily a =? AF_INET.
Definition tag (n : Node) : Hash * bool := (n_id n, inet (n_addr n)).
Definition tags (w : World) : gmap positive (Hash * bool) := tag <$> w_nodes w.

Definition side (s : bool) (c : NodeCache) : NodeMap := if s then cache_4 c else cache_6 c.

Definition set_side (s : bool) (m : NodeMap) (c : NodeCache) : NodeCache :=
  if s then mkNodeCache m (cache_6 c) else mkNodeCache (cache_4 c) m.

Lemma side_set s s' m c : side s' (set_side s m c) = if Bool.eqb s s' then m else side s' c.
Proof. by destruct s, s'. Qed.

Lemma cache_side af c : cache af c = side (af =? AF_INET) c.
Proof. done. Qed.

Lemma set_cache_side af m c : set_cache af m c = set_side (af =? AF_INET) m c.
Proof. done. Qed.

(** A state of a node: its cache, the shared nodes, the pointers given out so far. *)
Record CState := mkCState { cs_cache : NodeCache; cs_world : World; cs_used : gset positive }.

(** The uses of the cache, the release of the last reference to a node, and the
    operations of the other components on nodes, which keep identifiers and addresses. *)
Inductive cache_step (AF_INET6 : Z) : CState -> CState -> Prop :=
| NStep_getNode c w u fresh tid0 rnd id addr now confirm client p c' w' :
    fresh ∉ u -> wf_hash HASH_LEN id ->
    cache_getNode_addr fresh tid0 rnd id addr now confirm client c w = Ret (p, c', w') ->
    cache_step AF_INET6 (mkCState c w u) (mkCState c' w' ({[fresh]} ∪ u))
| NStep_find c w u id af r c' :
    wf_hash HASH_LEN id -> cache_getNode id af c w = (r, c') ->
    cache_step AF_INET6 (mkCState c w u) (mkCState c' w u)
| NStep_clear c w u af c' w' :
    clearBadNodes AF_INET6 af c w = (c', w') ->
    cache_step AF_INET6 (mkCState c w u) (mkCState c' w' u)
| NStep_drop c w u p :
    cache_step AF_INET6 (mkCState c w u)
      (mkCState c (mkWorld (delete p (w_nodes w)) (w_reqs w) (w_log w)) u)
| NStep_touch c w w' u :
    tags w' = tags w -> cache_step AF_INET6 (mkCState c w u) (mkCState c w' u).

Definition cache_init : CState := mkCState NodeCache_make (mkWorld ∅ ∅ []) ∅.

Abbreviation hm_wf := (om_wf op_lt (wf_hash HASH_LEN)).

(** The invariant: the cache knows every living node that has an identifier. *)
Record cache_inv (T : gmap positive (Hash * bool)) (u : gset positive) (c : NodeCache) : Prop := {
  ci_wf s : hm_wf (nm_map (side s c));
  ci_counter s : 0 <= nm_cleanup_counter (side s c) <= CLEANUP_FREQ;
  ci_used p t : T !! p = Some t -> p ∈ u /\ wf_hash HASH_LEN t.1;
  ci_weak s k p : (k, p) ∈ nm_map (side s c) -> p ∈ u;
  ci_complete p k s : T !! p = Some (k, s) -> op_bool HASH_LEN k = true -> (k, p) ∈ nm_map (side s c);
  ci_sound s k p t : (k, p) ∈ nm_map (side s c) -> T !! p = Some t -> t = (k, s);
}.

(** Dropping entries whose nodes are gone. *)
Lemma cache_inv_prune T u c s l n :
  cache_inv T u c -> hm_wf l -> 0 <= n <= CLEANUP_FREQ ->
  (forall e, e ∈ l -> e ∈ nm_map (side s c)) ->
  (forall e, e ∈ nm_map (side s c) -> is_Some (T !! e.2) -> e ∈ l) ->
  cache_inv T u (set_side s (mkNodeMap l n) c).
Proof.
  intros I Hl Hn Hsub Hlive. destruct I. split; [| |done|..]; intros s'; intros; rewrite ?side_set in *.
  1-3: destruct (Bool.eqb s s') eqn:E; [apply eqb_prop in E; subst s'|]; simpl in *; eauto.
  - destruct (Bool.eqb s s0) eqn:E; [apply eqb_prop in E; subst s0|]; simpl in *; eauto.
  - destruct (Bool.eqb s s') eqn:E; [apply eqb_prop in E; subst s'|]; simpl in *; eauto.
Qed.

(** The entries of a map of identifiers. *)
Lemma hm_set_wf id (p : ptr) l : wf_hash HASH_LEN id -> hm_wf l -> hm_wf (om_set op_lt id p l).
Proof. intros. by apply (om_set_wf op_lt (wf_hash HASH_LEN)). Qed.

Lemma hm_find_elem k (q : ptr) (l : list (Hash * ptr)) :
  wf_hash HASH_LEN k -> hm_wf l -> om_find op_lt k l = Some q <-> (k, q) ∈ l.
Proof. intros. by apply (om_find_Some_elem op_lt (wf_hash HASH_LEN)). Qed.

Lemma hm_key_wf l k (q : ptr) : hm_wf l -> (k, q) ∈ l -> wf_hash HASH_LEN k.
Proof. intros [_ Hv] Hkq. rewrite Forall_forall in Hv. by apply Hv in Hkq. Qed.

Lemma hm_set_elem id (p : ptr) l k q :
  wf_hash HASH_LEN id -> hm_wf l ->
  (k, q) ∈ om_set op_lt id p l <->
  wf_hash HASH_LEN k /\ (k = id /\ q = p \/ k <> id /\ (k, q) ∈ l).
Proof.
  intros Hid Hl. pose proof (hm_set_wf id p l Hid Hl) as Hl'.
  assert (wf_hash HASH_LEN k -> (k, q) ∈ om_set op_lt id p l <->
            (k = id /\ q = p \/ k <> id /\ (k, q) ∈ l)) as H.
  { intros Hk. rewrite <- hm_find_elem, (om_find_set op_lt (wf_hash HASH_LEN)) by done. rewrite <- (hm_find_elem k q l) by done.
    destruct (key_cases op_lt (wf_hash HASH_LEN) id k Hid Hk)
      as [(-> & -> & ?)|[(-> & -> & ?)|(-> & -> & ->)]]; simpl; naive_solver. }
  split; [|naive_solver]. intros Hkq. pose proof (hm_key_wf _ _ _ Hl' Hkq). naive_solver.
Qed.

Lemma hm_erase_elem id l k (q : ptr) :
  wf_hash HASH_LEN id -> hm_wf l -> (k, q) ∈ om_erase op_lt id l <-> k <> id /\ (k, q) ∈ l.
Proof.
  intros Hid Hl. pose proof (om_erase_wf op_lt (wf_hash HASH_LEN) id l Hl) as Hl'.
  assert (wf_hash HASH_LEN k -> (k, q) ∈ om_erase op_lt id l <-> k <> id /\ (k, q) ∈ l) as H.
  { intros Hk. rewrite <- hm_find_elem, (om_find_erase op_lt (wf_hash HASH_LEN)) by done. rewrite <- (hm_find_elem k q l) by done.
    destruct (key_cases op_lt (wf_hash HASH_LEN) id k Hid Hk)
      as [(-> & -> & ?)|[(-> & -> & ?)|(-> & -> & ->)]]; simpl; naive_solver. }
  split; intros Hkq; apply H; try done.
  - by apply (hm_key_wf _ _ _ Hl' Hkq).
  - destruct Hkq as [_ Hkq]. by apply (hm_key_wf _ _ _ Hl Hkq).
Qed.

(** Caching a new node under a free identifier. *)
Lemma cache_inv_create T u c s id p n :
  cache_inv T u c -> wf_hash HASH_LEN id -> op_bool HASH_LEN id = true -> p ∉ u ->
  0 <= n <= CLEANUP_FREQ ->
  (forall q, om_find op_lt id (nm_map (side s c)) = Some q -> T !! q = None) ->
  cache_inv (<[p := (id, s)]> T) ({[p]} ∪ u)
    (set_side s (mkNodeMap (om_set op_lt id p (nm_map (side s c))) n) c).
Proof.
  intros I Hid Hb Hp Hn Hfree. pose proof (ci_wf _ _ _ I s) as Hwf.
  pose proof (fun k q => hm_set_elem id p (nm_map (side s c)) k q Hid Hwf) as Hin.
  assert (T !! p = None) as HTp.
  { destruct (T !! p) eqn:E; [|done]. by destruct (ci_used _ _ _ I _ _ E). }
  destruct I. split.
  - intros s'. rewrite side_set. case_match; [|done]. by apply hm_set_wf.
  - intros s'. rewrite side_set. by case_match.
  - intros q t Hq. apply lookup_insert_Some in Hq as [[<- <-]|[_ Hq]]; [split; [set_solver|done]|].
    destruct (ci_used0 _ _ Hq). split; [set_solver|done].
  - intros s' k q. rewrite side_set. case_match; [|set_solver]. simpl. rewrite Hin. set_solver.
  - intros q k s' Hq Hk. rewrite side_set.
    apply lookup_insert_Some in Hq as [[<- [= <- <-]]|[Hpq Hq]].
    + rewrite eqb_reflx. simpl. apply Hin. auto.
    + pose proof (ci_complete0 _ _ _ Hq Hk) as Hmem. destruct (ci_used0 _ _ Hq) as [_ Hwk].
      destruct (Bool.eqb s s') eqn:E; [|done]. apply eqb_prop in E as <-. simpl. apply Hin.
      split; [done|]. right. split; [|done]. intros ->.
      apply hm_find_elem in Hmem; [|done..].
      apply Hfree in Hmem. congruence.
  - intros s' k q t. rewrite side_set. destruct (Bool.eqb s s') eqn:E.
    + apply eqb_prop in E as <-. simpl. rewrite Hin. intros [Hwk [[-> ->]|[Hne Hkq]]].
      * rewrite lookup_insert_eq. naive_solver.
      * rewrite lookup_insert_ne; [eauto|]. intros <-. apply ci_weak0 in Hkq. done.
    + intros Hkq. rewrite lookup_insert_ne; [eauto|]. intros <-. apply ci_weak0 in Hkq. done.
Qed.

Lemma tags_upd_node p n w : tags (w_upd_node p n w) = <[p := tag n]> (tags w).
Proof. apply fmap_insert. Qed.

Lemma tags_same p n n' w : w_nodes w !! p = Some n -> tag n' = tag n -> tags (w_upd_node p n' w) = tags w.
Proof.
  intros Hp Ht. rewrite tags_upd_node. apply insert_id. unfold tags. rewrite lookup_fmap, Hp. by rewrite Ht.
Qed.

Lemma tags_lookup w p n : w_nodes w !! p = Some n -> tags w !! p = Some (tag n).
Proof. intros Hp. unfold tags. by rewrite lookup_fmap, Hp. Qed.

Lemma tags_live w p : is_Some (tags w !! p) <-> is_Some (w_nodes w !! p).
Proof. unfold tags. by rewrite lookup_fmap, fmap_is_Some. Qed.

(** [clearBadNodes] resets the nodes of the map and keeps the entries that live. *)
Lemma clear_loop_spec l w :
  let '(l', w') := clear_loop l w in
  l' = live w l /\ tags w' = tags w /\
  forall p, w_nodes w' !! p = if decide (p ∈ l.*2) then reset <$> w_nodes w !! p else w_nodes w !! p.
Proof.
  revert w. induction l as [|[k q] l IH]; intros w; cbn [clear_loop fmap list_fmap].
  { split_and!; [done..|]. intros p. by rewrite decide_False by set_solver. }
  cbn [live List.filter snd]. unfold weak_expired. destruct (w_nodes w !! q) as [n|] eqn:Hq; cbn [negb].
  - specialize (IH (w_upd_node q (reset n) w)). destruct (clear_loop l _) as [l1 w1].
    destruct IH as (-> & Ht & Hw). assert (tags (w_upd_node q (reset n) w) = tags w) as Ht'
      by (by eapply tags_same).
    split_and!.
    + f_equal. apply List.filter_ext. intros [k' q']. cbn. unfold weak_expired.
      pose proof (tags_live w q') as H1. pose proof (tags_live (w_upd_node q (reset n) w) q') as H2.
      rewrite Ht' in H2. rewrite H2 in H1. cbn in *. destruct (<[q:=_]> _ !! q'), (w_nodes w !! q'); try done;
      destruct H1 as [H1a H1b]; [by destruct (H1a (mk_is_Some _ _ eq_refl))|by destruct (H1b (mk_is_Some _ _ eq_refl))].
    + congruence.
    + intros p. rewrite Hw. cbn. destruct (decide (p = q)) as [-> |Hne].
      * rewrite lookup_insert_eq, Hq, (decide_True (P := q ∈ q :: _)) by set_solver. by case_decide.
      * rewrite lookup_insert_ne by done. repeat case_decide; set_solver.
  - specialize (IH w). destruct (clear_loop l w) as [l1 w1]. destruct IH as (-> & Ht & Hw).
    split_and!; [done..|]. intros p. rewrite Hw. destruct (decide (p = q)) as [-> |Hne].
    + rewrite Hq. by repeat case_decide.
    + repeat case_decide; set_solver.
Qed.

Lemma map_clear_inv u c s w m w' :
  cache_inv (tags w) u c -> map_clearBadNodes (side s c) w = (m, w') ->
  cache_inv (tags w') u (set_side s m c) /\ tags w' = tags w.
Proof.
  intros I. unfold map_clearBadNodes. pose proof (clear_loop_spec (nm_map (side s c)) w) as H.
  destruct (clear_loop _ w) as [l w1]. destruct H as (-> & Ht & _). intros [= <- <-]. rewrite Ht.
  split; [|done]. apply cache_inv_prune; [done| |unfold CLEANUP_FREQ; lia|..].
  - eapply om_wf_sublist; [apply live_sublist|apply I].
  - intros e He. by apply live_elem in He as [? _].
  - intros e He Hl. apply live_elem. by rewrite tags_live in Hl.
Qed.

Lemma clearBadNodes_inv AF_INET6 af u c w c' w' :
  cache_inv (tags w) u c -> clearBadNodes AF_INET6 af c w = (c', w') -> cache_inv (tags w') u c'.
Proof.
  intros I. unfold clearBadNodes. destruct (af =? 0).
  - destruct (map_clearBadNodes _ w) as [m1 w1] eqn:E1.
    destruct (map_clear_inv _ _ (AF_INET =? AF_INET) _ _ _ I E1) as [I1 _].
    destruct (map_clearBadNodes _ w1) as [m2 w2] eqn:E2. intros [= <- <-].
    by destruct (map_clear_inv _ _ (AF_INET6 =? AF_INET) _ _ _ I1 E2).
  - destruct (map_clearBadNodes _ w) as [m1 w1] eqn:E1. intros [= <- <-].
    by destruct (map_clear_inv _ _ (af =? AF_INET) _ _ _ I E1).
Qed.

Lemma getNode_id_inv u c s w id r m :
  cache_inv (tags w) u c -> wf_hash HASH_LEN id -> getNode_id id (side s c) w = (r, m) ->
  cache_inv (tags w) u (set_side s m c).
Proof.
  intros I Hid. assert (set_side s (side s c) c = c) as Hsame by (by destruct s, c).
  unfold getNode_id. destruct (om_find _ _ _) as [p|] eqn:E; [|by intros [= _ <-]; rewrite Hsame].
  unfold weak_expired. destruct (w_nodes w !! p) as [n|] eqn:Hp; intros [= _ <-]; [by rewrite Hsame|].
  pose proof (ci_wf _ _ _ I s) as Hwf. apply hm_find_elem in E; [|done..].
  apply cache_inv_prune; [done|by apply (om_erase_wf op_lt (wf_hash HASH_LEN))|apply I|..].
  - intros e. apply (om_erase_sub op_lt (wf_hash HASH_LEN)).
  - intros [k q] He Hl. apply hm_erase_elem; [done..|]. split; [|done]. intros ->.
    rewrite tags_live in Hl. simpl in Hl. rewrite <- hm_find_elem in E, He by done.
    destruct Hl. congruence.
Qed.

Lemma set_side_set s m m' c : set_side s m (set_side s m' c) = set_side s m c.
Proof. by destruct s. Qed.

(** What [getNode] promises: a node with the identifier and an address of the family,
    the living node that the cache knows when there is one. *)
Definition getNode_result (u : gset positive) (c : NodeCache) (w : World) (fresh : ptr) (id : Hash)
    (s : bool) (r : outcome (ptr * NodeMap * World)) : Prop :=
  exists p m w', r = Ret (p, m, w') /\
    cache_inv (tags w') ({[fresh]} ∪ u) (set_side s m c) /\
    tags w' !! p = Some (id, s) /\
    (p <> fresh -> tags w' = tags w) /\
    (forall q, tags w !! q = Some (id, s) -> p = q).

Lemma cache_inv_weaken T u u' c : u ⊆ u' -> cache_inv T u c -> cache_inv T u' c.
Proof.
  intros Hu []. split; [done|done| |eauto|done|done]. intros p t Hp.
  destruct (ci_used0 _ _ Hp). auto.
Qed.

Lemma ci_cached T u c p id s :
  cache_inv T u c -> wf_hash HASH_LEN id -> op_bool HASH_LEN id = true -> T !! p = Some (id, s) ->
  om_find op_lt id (nm_map (side s c)) = Some p.
Proof. intros I Hid Hb Hp. apply hm_find_elem; [done|apply I|]. by apply I. Qed.

Lemma create_node_ok u c s w fresh tid0 rnd id addr client :
  cache_inv (tags w) u c -> fresh ∉ u -> wf_hash HASH_LEN id -> op_bool HASH_LEN id = true ->
  inet addr = s ->
  (forall q, om_find op_lt id (nm_map (side s c)) = Some q -> w_nodes w !! q = None) ->
  getNode_result u c w fresh id s (create_node fresh tid0 rnd id addr client (side s c) w).
Proof.
  intros I Hf Hid Hb Hs Hfree. set (m := side s c) in *.
  unfold create_node. cbn zeta. set (w1 := w_upd_node fresh (Node_make id addr client tid0) w).
  assert (tags w1 = <[fresh := (id, s)]> (tags w)) as Ht by (rewrite <- Hs; apply tags_upd_node).
  assert (forall n, 0 <= n <= CLEANUP_FREQ -> cache_inv (tags w1) ({[fresh]} ∪ u)
      (set_side s (mkNodeMap (om_set op_lt id fresh (nm_map m)) n) c)) as I1.
  { intros n Hn. rewrite Ht. apply cache_inv_create; [done..|]. intros q Hq%Hfree.
    unfold tags. by rewrite lookup_fmap, Hq. }
  assert (forall q, tags w !! q = Some (id, s) -> fresh = q) as Hnone.
  { intros q Hq. pose proof (ci_cached _ _ _ _ _ _ I Hid Hb Hq) as Hq'%Hfree. unfold tags in Hq.
    by rewrite lookup_fmap, Hq' in Hq. }
  pose proof (ci_counter _ _ _ I s) as Hc. fold m in Hc. unfold CLEANUP_FREQ in Hc.
  destruct (Z.eqb_spec (nm_cleanup_counter m) CLEANUP_FREQ) as [Hc1|Hc1]; unfold CLEANUP_FREQ in Hc1.
  - destruct (cleanup_ok rnd w1 (mkNodeMap (om_set op_lt id fresh (nm_map m))
      (u64 (nm_cleanup_counter m + 1)))) as (l & -> & Hsub & Hl & _). cbn.
    do 3 eexists. split; [done|]. split_and!; [|by rewrite Ht, lookup_insert_eq|done|done].
    rewrite <- (set_side_set s _ (mkNodeMap (om_set op_lt id fresh (nm_map m)) 0)).
    apply cache_inv_prune; [apply I1; unfold CLEANUP_FREQ; lia| |unfold CLEANUP_FREQ; lia|..];
      rewrite ?side_set, ?eqb_reflx; cbn [nm_map].
    + eapply om_wf_sublist; [exact Hsub|]. apply hm_set_wf; [done|]. apply I.
    + intros e He. by eapply elem_of_sublist.
    + intros e He Hlive. rewrite tags_live in Hlive.
      assert (e ∈ live w1 l) as Hin by (rewrite Hl; by apply live_elem).
      by apply live_elem in Hin as [? _].
  - do 3 eexists. split; [done|]. split_and!; [|by rewrite Ht, lookup_insert_eq|done|done].
    apply I1. rewrite wrap_small by lia. unfold CLEANUP_FREQ. lia.
Qed.

Lemma getNode_addr_ok u c s w fresh tid0 rnd id addr now confirm client :
  cache_inv (tags w) u c -> fresh ∉ u -> wf_hash HASH_LEN id -> op_bool HASH_LEN id = true ->
  inet addr = s ->
  getNode_result u c w fresh id s
    (getNode_addr fresh tid0 rnd id addr now confirm client (side s c) w).
Proof.
  intros I Hf Hid Hb Hs. unfold getNode_addr.
  destruct (om_find op_lt id (nm_map (side s c))) as [p|] eqn:E.
  2:{ apply create_node_ok; [done..|]. intros q. by rewrite E. }
  destruct (w_nodes w !! p) as [n|] eqn:Hp.
  2:{ apply create_node_ok; [done..|]. intros q. rewrite E. by intros [= <-]. }
  assert (tag n = (id, s)) as Htag.
  { apply hm_find_elem in E; [|done|apply I]. eapply (ci_sound _ _ _ I); [exact E|].
    by apply tags_lookup. }
  assert (tags w !! p = Some (id, s)) as Htp by (by rewrite (tags_lookup _ _ _ Hp), Htag).
  assert (forall q, tags w !! q = Some (id, s) -> p = q) as Huniq.
  { intros q Hq. pose proof (ci_cached _ _ _ _ _ _ I Hid Hb Hq). congruence. }
  assert (cache_inv (tags w) ({[fresh]} ∪ u) (set_side s (side s c) c)) as I'.
  { replace (set_side s (side s c) c) with c by (by destruct s, c).
    eapply cache_inv_weaken; [|exact I]. set_solver. }
  destruct (confirm || isOld now n); do 3 eexists; (split; [done|]); [|done].
  rewrite (tags_same p n) by (try done; rewrite Htag; unfold tag in *; cbn; congruence). done.
Qed.

Lemma cache_inv_uncached T u c p id s :
  cache_inv T u c -> p ∉ u -> wf_hash HASH_LEN id -> op_bool HASH_LEN id = false ->
  cache_inv (<[p := (id, s)]> T) ({[p]} ∪ u) c.
Proof.
  intros I Hp Hid Hb. destruct I. split; [done|done|..].
  - intros q t Hq. apply lookup_insert_Some in Hq as [[<- <-]|[_ Hq]]; [split; [set_solver|done]|].
    destruct (ci_used0 _ _ Hq). split; [set_solver|done].
  - intros s' k q Hq. apply elem_of_union_r. eauto.
  - intros q k s' Hq Hk. apply lookup_insert_Some in Hq as [[<- [= <- <-]]|[_ Hq]]; [congruence|auto].
  - intros s' k q t Hq. rewrite lookup_insert_ne; [eauto|]. intros <-. by apply ci_weak0 in Hq.
Qed.

Lemma cache_inv_delete T u c p : cache_inv T u c -> cache_inv (delete p T) u c.
Proof.
  intros []. split; [done|done| |done|..].
  - intros q t Hq. apply lookup_delete_Some in Hq as [_ Hq]. eauto.
  - intros q k s Hq. apply lookup_delete_Some in Hq as [_ Hq]. eauto.
  - intros s k q t Hk Hq. apply lookup_delete_Some in Hq as [_ Hq]. eauto.
Qed.

Lemma cache_step_inv AF_INET6 x y :
  cache_step AF_INET6 x y -> cache_inv (tags (cs_world x)) (cs_used x) (cs_cache x) ->
  cache_inv (tags (cs_world y)) (cs_used y) (cs_cache y).
Proof.
  destruct 1 as [c w u fresh tid0 rnd id addr now confirm client p c' w' Hf Hid Hget
    |c w u id af r c' Hid Hget|c w u af c' w' Hc|c w u p|c w w' u Ht]; cbn; intros I.
  - revert Hget. unfold cache_getNode_addr. destruct (op_bool HASH_LEN id) eqn:Hb; cbn [negb].
    + destruct (getNode_addr_ok u c (inet addr) w fresh tid0 rnd id addr now confirm client
        I Hf Hid Hb eq_refl) as (p0 & m & w0 & E & I' & _).
      change (cache (getFamily addr) c) with (side (inet addr) c). rewrite E. cbn.
      by intros [= <- <- <-].
    + intros [= <- <- <-]. rewrite tags_upd_node. by apply cache_inv_uncached.
  - revert Hget. unfold cache_getNode. destruct (getNode_id _ _ _) as [r0 m] eqn:E. intros [= <- <-].
    by apply (getNode_id_inv u c (af =? AF_INET) w id r0).
  - by eapply clearBadNodes_inv.
  - unfold tags in *. cbn. rewrite fmap_delete. by apply cache_inv_delete.
  - by rewrite Ht.
Qed.

Lemma cache_reachable_inv AF_INET6 x :
  rtc (cache_step AF_INET6) cache_init x -> cache_inv (tags (cs_world x)) (cs_used x) (cs_cache x).
Proof.
  intros H. assert (forall a b, rtc (cache_step AF_INET6) a b ->
    cache_inv (tags (cs_world a)) (cs_used a) (cs_cache a) ->
    cache_inv (tags (cs_world b)) (cs_used b) (cs_cache b)) as Hr.
  { induction 1; eauto using cache_step_inv. }
  apply (Hr _ _ H). cbn. unfold tags. cbn. rewrite fmap_empty.
  assert (forall s, nm_map (side s NodeCache_make) = []) as E by (by intros []).
  assert (forall s, nm_cleanup_counter (side s NodeCache_make) = 0) as E' by (by intros []).
  split; intros *; rewrite ?E, ?E', ?lookup_empty; try set_solver.
  - apply om_wf_nil.
  - unfold CLEANUP_FREQ. lia.
Qed.

(** C36. Whatever the node does (looking nodes up, clearing, dropping the last reference
    to a node, changing nodes without changing their identifier and address), there is
    one living node per identifier and address family: [getNode] then always returns, it
    gives the living node of that identifier when there is one and makes it otherwise,
    even when it cleans the cache up, and [getNode(id, family)] finds it back. *)
Theorem getNode_unique AF_INET6 c w u fresh tid0 rnd id addr now confirm client :
  rtc (cache_step AF_INET6) cache_init (mkCState c w u) ->
  fresh ∉ u -> wf_hash HASH_LEN id -> op_bool HASH_LEN id = true ->
  exists p c' w' n,
    cache_getNode_addr fresh tid0 rnd id addr now confirm client c w = Ret (p, c', w') /\
    w_nodes w' !! p = Some n /\ n_id n = id /\ inet (n_addr n) = inet addr /\
    (cache_getNode id (getFamily addr) c' w').1 = Some p /\
    (forall q m, w_nodes w !! q = Some m -> n_id m = id -> inet (n_addr m) = inet addr -> p = q) /\
    (forall q m, w_nodes w' !! q = Some m -> n_id m = id -> inet (n_addr m) = inet addr -> p = q).
Proof.
  intros Hr Hf Hid Hb. apply cache_reachable_inv in Hr. cbn in Hr.
  destruct (getNode_addr_ok u c (inet addr) w fresh tid0 rnd id addr now confirm client
    Hr Hf Hid Hb eq_refl) as (p & m & w' & E & I & Ht & _ & Hold).
  unfold tags in Ht. rewrite lookup_fmap in Ht. apply fmap_Some in Ht as (n & Hn & Htag).
  assert (forall v q m, w_nodes v !! q = Some m -> n_id m = id -> inet (n_addr m) = inet addr ->
    tags v !! q = Some (id, inet addr)) as Htags.
  { intros v q m0 Hq <- <-. by apply tags_lookup. }
  exists p, (set_side (inet addr) m c), w', n. unfold cache_getNode_addr. rewrite Hb. cbn [negb].
  change (cache (getFamily addr) c) with (side (inet addr) c). rewrite E.
  injection Htag as Hnid Hnad.
  assert (forall q, tags w' !! q = Some (id, inet addr) -> om_find op_lt id (nm_map m) = Some q) as Hfind.
  { intros q Hq. pose proof (ci_cached _ _ _ _ _ _ I Hid Hb Hq) as Hc. by rewrite side_set, eqb_reflx in Hc. }
  assert (om_find op_lt id (nm_map m) = Some p) as Hp by (eapply Hfind, Htags; eauto).
  split_and!; [done|done|done|done| |eauto|].
  - unfold cache_getNode.
    change (cache (getFamily addr) (set_side (inet addr) m c)) with (side (inet addr) (set_side (inet addr) m c)).
    rewrite side_set, eqb_reflx. unfold getNode_id, weak_expired. by rewrite Hp, Hn.
  - intros q m0 Hq Hi Ha. pose proof (Hfind _ (Htags _ _ _ Hq Hi Ha)). congruence.
Qed.

(** ** A small cache *)

Module CacheDemo.
Definition hash_n (k : Z) : Hash := replicate 19 0 ++ [k].
Definition addr_n (k : Z) : SockAddr := [2; 0; 31; 144; 10; 0; 0; k] ++ replicate 8 0.

(** [getNode] of the nodes [ks], in turn, with the pointers from [p] on. *)
Fixpoint meet (ks : list Z) (p : ptr) (x : CState) : CState :=
  match ks with
  | [] => x
  | k :: ks' =>
      match cache_getNode_addr p 1 (hash_n 0) (hash_n k) (addr_n k) 0 false false (cs_cache x) (cs_world x) with
      | Ret (_, c', w') => meet ks' (Pos.succ p) (mkCState c' w' ({[p]} ∪ cs_used x))
      | _ => x
      end
  end.

Lemma meet_reachable AF_INET6 ks p x :
  Forall is_byte ks -> (forall q, q ∈ cs_used x -> (q < p)%positive) ->
  rtc (cache_step AF_INET6) x (meet ks p x).
Proof.
  intros Hk. revert p x. induction Hk as [|k ks Hk Hks IH]; intros p [c w u] Hu; cbn [meet cs_cache cs_world]; [done|].
  destruct (cache_getNode_addr _ _ _ _ _ _ _ _ _ _) as [[[p' c'] w']| | |] eqn:E; try done.
  eapply rtc_l.
  - eapply NStep_getNode; [|split|exact E]; [intros H%Hu; lia|done|].
    unfold hash_n. apply Forall_app_2; [apply Forall_replicate; by_compute|by apply Forall_singleton].
  - apply IH. cbn in *. intros q [->%elem_of_singleton|Hq%Hu]%elem_of_union; lia.
Qed.

Abbreviation sample := (meet [6; 7; 8] 1 cache_init).

Lemma sample_reachable AF_INET6 : rtc (cache_step AF_INET6) cache_init sample.
Proof. apply meet_reachable; [by_compute|]. cbn. set_solver. Qed.
End CacheDemo.

(** [getCachedNodes] does not give the nodes closest to the target in the XOR
    metric, nor sorts them: between the neighbours of the target in the map it takes the
    closer one, but a node further away in the map can be closer than both.  With the
    nodes 6 and 7 cached, the answer for one node close to 5 is 6, and 7 is closer. *)
Theorem getCachedNodes_not_closest AF_INET6 :
  exists x p q n m,
    rtc (cache_step AF_INET6) cache_init x /\
    getCachedNodes (CacheDemo.hash_n 5) AF_INET 1 (cs_cache x) (cs_world x) = [p] /\
    w_nodes (cs_world x) !! p = Some n /\ w_nodes (cs_world x) !! q = Some m /\
    usable (cs_world x) q = true /\ xorCmp (CacheDemo.hash_n 5) (n_id m) (n_id n) = -1.
Proof.
  exists CacheDemo.sample, 1%positive, 2%positive. do 2 eexists.
  split; [apply CacheDemo.sample_reachable|]. split_and!; vm_compute; reflexivity.
Qed.

Lemma getNode_unique_witness :
  exists p c' w', cache_getNode_addr 9 1 (CacheDemo.hash_n 0) (CacheDemo.hash_n 7) (CacheDemo.addr_n 70)
      0 true false (cs_cache CacheDemo.sample) (cs_world CacheDemo.sample) = Ret (p, c', w') /\
    (cache_getNode (CacheDemo.hash_n 7) AF_INET c' w').1 = Some p.
Proof.
  destruct (getNode_unique 10 (cs_cache CacheDemo.sample) (cs_world CacheDemo.sample)
    (cs_used CacheDemo.sample) 9 1 (CacheDemo.hash_n 0) (CacheDemo.hash_n 7) (CacheDemo.addr_n 70) 0 true false)
    as (p & c' & w' & n & H1 & _ & _ & _ & H2 & _).
  - exact (CacheDemo.sample_reachable 10).
  - by_compute.
  - by_compute.
  - reflexivity.
  - exists p, c', w'. split; [exact H1|exact H2].
Defined.

Lemma getCachedNodes_spec_witness :
  exists order, order ≡ₚ nm_map (cache AF_INET (cs_cache CacheDemo.sample)) /\
    getCachedNodes (CacheDemo.hash_n 5) AF_INET 2 (cs_cache CacheDemo.sample) (cs_world CacheDemo.sample)
    = take 2 (usable_of (cs_world CacheDemo.sample) order).
Proof.
  destruct (getCachedNodes_spec (CacheDemo.hash_n 5) AF_INET 2 (cs_cache CacheDemo.sample)
    (cs_world CacheDemo.sample)) as (o & H1 & H2 & _).
  - by_compute.
  - apply (ci_wf _ _ _ (cache_reachable_inv 10 _ (CacheDemo.sample_reachable 10)) true).
  - by exists o.
Defined.
