(* ===== verification/RoutingTable.v ===== *)
(** * RoutingTable: the Kademlia buckets

    Models src/opendht-2.1.4/include/opendht/routing_table.h and
    src/routing_table.cpp.  A table is the list of its buckets, an iterator an
    index into it ([length] is [end()]); nodes are pointers into the store of
    Node.v.  [NetworkEngine::sendPing] is reached through the interface
    [PingEngine]: whatever else it does to the store, the identifier of a node is
    [const]. *)
From S2P Require Import Prelude InfoHash StdMap SockAddr Node.

(** ** Data *)

Definition TARGET_NODES : Z := 8.

(** [struct Bucket]. *)
Record Bucket := mkBucket {
  b_af : Z;
  b_first : Hash;
  b_time : Z;
  b_nodes : list ptr;
  b_cached : option ptr;
}.

(** [class RoutingTable]. *)
Record RoutingTable := mkRoutingTable {
  rt_buckets : list Bucket;
  rt_grow_time : Z;
  rt_is_client : bool;
}.

Definition b_set_time (t : Z) (b : Bucket) : Bucket :=
  mkBucket (b_af b) (b_first b) t (b_nodes b) (b_cached b).
Definition b_set_nodes (l : list ptr) (b : Bucket) : Bucket :=
  mkBucket (b_af b) (b_first b) (b_time b) l (b_cached b).
Definition b_set_cached (c : option ptr) (b : Bucket) : Bucket :=
  mkBucket (b_af b) (b_first b) (b_time b) (b_nodes b) c.

(** The identifier behind a node pointer. *)
Definition id_of (w : World) (p : ptr) : Hash :=
  match w_nodes w !! p with Some n => n_id n | None => [] end.

(** The tests on a node pointer. *)
Definition on_node (f : Node -> bool) (w : World) (p : ptr) : bool :=
  match w_nodes w !! p with Some n => f n | None => false end.

(** What the table requires of the network engine. *)
Class PingEngine (sendPing : ptr -> World -> World) : Prop :=
  sendPing_id : forall p w q, id_of (sendPing p w) q = id_of w q.

(** ** Bucket operations *)

(** The loop of [randomNode]; [nn] counts the eligible nodes to skip. *)
Fixpoint randomNode_loop (w : World) (prioritize : bool) (nn : Z) (l : list ptr) : option ptr :=
  match l with
  | [] => None
  | n :: l' =>
      if negb (prioritize && on_node isExpired w n) then
        if nn =? 0 then Some n else randomNode_loop w prioritize (nn - 1) l'
      else randomNode_loop w prioritize nn l'
  end.

(** [Bucket::randomNode]; [draw m] is a number in [0, m]. *)
Definition randomNode (w : World) (draw : Z -> Z) (b : Bucket) : option ptr :=
  match b_nodes b with
  | [] => None
  | _ :: _ =>
      let expired := Z.of_nat (length (List.filter (on_node isExpired w) (b_nodes b))) in
      let size := Z.of_nat (length (b_nodes b)) in
      let prioritize := expired <? size in
      let nn := draw (if prioritize then size - expired - 1 else size - 1) in
      match randomNode_loop w prioritize nn (b_nodes b) with
      | Some n => Some n
      | None => last (b_nodes b)
      end
  end.

(** [Bucket::connectivityChanged]: the nodes are shared, so the store changes. *)
Definition bucket_connectivityChanged (b : Bucket) (w : World) : Bucket * World :=
  (b_set_time time_min b,
   fold_left (fun w p => match w_nodes w !! p with
                         | Some n => w_upd_node p (setTime time_min n) w
                         | None => w end) (b_nodes b) w).

Section RoutingTable.
Context (sendPing : ptr -> World -> World).

(** [Bucket::sendCachedPing]. *)
Definition sendCachedPing (b : Bucket) (w : World) : Bucket * World :=
  match b_cached b with
  | None => (b, w)
  | Some c => (b_set_cached None b, sendPing c w)
  end.

(** ** Table operations *)

(** [isEmpty]. *)
Definition isEmpty (bs : list Bucket) : bool :=
  match bs with
  | [] => true
  | [b] => match b_nodes b with [] => true | _ => false end
  | _ => false
  end.

(** [RoutingTable::connectivityChanged]. *)
Definition connectivityChanged (now : Z) (t : RoutingTable) (w : World) : RoutingTable * World :=
  let '(bs, w') :=
    fold_left (fun '(acc, w) b => let '(b', w') := bucket_connectivityChanged b w in
                                  (acc ++ [b'], w')) (rt_buckets t) ([], w) in
  (mkRoutingTable bs now (rt_is_client t), w').

(** [contains]. *)
Definition contains (bs : list Bucket) (i : nat) (id : Hash) : bool :=
  match bs !! i with
  | None => false
  | Some b =>
      (cmp (b_first b) id <=? 0) &&
      match bs !! S i with None => true | Some nb => cmp id (b_first nb) <? 0 end
  end.

(** [depth]. *)
Definition depth (bs : list Bucket) (i : nat) : Z :=
  match bs !! i with
  | None => 0
  | Some b =>
      let bit1 := lowbit (b_first b) in
      let bit2 := match bs !! S i with Some nb => lowbit (b_first nb) | None => -1 end in
      Z.max bit1 bit2 + 1
  end.

(** [middle]. *)
Definition middle (bs : list Bucket) (i : nat) : outcome Hash :=
  match bs !! i with
  | None => Undef "iterator at end"
  | Some b =>
      let bit := depth bs i in
      if 8 * Z.of_nat HASH_LEN <=? bit then Throw "End of table"
      else Ret (setBit (b_first b) bit true)
  end.

(** [randomId]: [draws] are the values of [rand_byte]. *)
Definition randomId (bs : list Bucket) (i : nat) (draws : list Z) : outcome Hash :=
  match bs !! i with
  | None => Undef "iterator at end"
  | Some b =>
      let bit1 := lowbit (b_first b) in
      let bit2 := match bs !! S i with Some nb => lowbit (b_first nb) | None => -1 end in
      let bit := Z.max bit1 bit2 + 1 in
      if 8 * Z.of_nat HASH_LEN <=? bit then Ret (b_first b)
      else
        let k := Z.to_nat (bit / 8) in
        let here := Z.lor (u8 (Z.land (nth k (b_first b) 0) (Z.shiftr 65280 (bit mod 8))))
                          (Z.shiftr (nth 0 draws 0) (bit mod 8)) in
        Ret (take k (b_first b) ++ [u8 here] ++
             map (fun j => nth (S j) draws 0) (seq 0 (HASH_LEN - k - 1)))
  end.

(** [findBucket]: the loop from [begin()]. *)
Fixpoint findBucket_from (i : nat) (bs : list Bucket) (id : Hash) : nat :=
  match bs with
  | [] => i
  | b :: bs' =>
      match bs' with
      | [] => i
      | nb :: _ => if cmp id (b_first nb) <? 0 then i else findBucket_from (S i) bs' id
      end
  end.

Definition findBucket (bs : list Bucket) (id : Hash) : nat := findBucket_from 0 bs id.

(** [sortedBucketInsert] of [findClosestNodes]: good nodes are inserted before
    the first node that is farther from [id]. *)
Fixpoint insert_closer (w : World) (id : Hash) (p : ptr) (nodes : list ptr) : list ptr :=
  match nodes with
  | [] => [p]
  | q :: nodes' =>
      if xorCmp id (id_of w p) (id_of w q) <? 0 then p :: nodes
      else q :: insert_closer w id p nodes'
  end.

Definition sortedBucketInsert (w : World) (id : Hash) (now : Z) (b : Bucket) (nodes : list ptr)
    : list ptr :=
  fold_left (fun acc p => if on_node (isGood now) w p then insert_closer w id p acc else acc)
            (b_nodes b) nodes.

(** The loop of [findClosestNodes]: [itn] are the buckets from the iterator on,
    [itp] those before the other iterator, last one first. *)
Fixpoint closest_loop (fuel : nat) (w : World) (id : Hash) (now count : Z)
    (itn itp : list Bucket) (nodes : list ptr) : option (list ptr) :=
  if (Z.of_nat (length nodes) <? count) &&
     negb (match itn, itp with [], [] => true | _, _ => false end)
  then match fuel with
       | O => None
       | S fuel' =>
           let '(nodes1, itn') :=
             match itn with
             | [] => (nodes, [])
             | b :: r => (sortedBucketInsert w id now b nodes, r) end in
           let '(nodes2, itp') :=
             match itp with
             | [] => (nodes1, [])
             | b :: r => (sortedBucketInsert w id now b nodes1, r) end in
           closest_loop fuel' w id now count itn' itp' nodes2
       end
  else Some nodes.

(** [findClosestNodes]; the number of buckets bounds the iterations. *)
Definition findClosestNodes (w : World) (bs : list Bucket) (id : Hash) (now : Z) (count : nat)
    : option (list ptr) :=
  let i := findBucket bs id in
  if (i =? length bs)%nat then Some []
  else match closest_loop (S (length bs)) w id now (Z.of_nat count)
               (drop i bs) (rev (take i bs)) [] with
       | Some nodes => Some (take count nodes)
       | None => None
       end.

(** Push a node at the front of the bucket an identifier belongs to. *)
Definition reassign (w : World) (bs : list Bucket) (p : ptr) : list Bucket :=
  let i := findBucket bs (id_of w p) in
  match bs !! i with
  | None => bs
  | Some b => <[i := b_set_nodes (p :: b_nodes b) b]> bs
  end.

(** [split]. *)
Definition split_bucket (w : World) (bs : list Bucket) (i : nat) : bool * list Bucket :=
  match bs !! i, middle bs i with
  | Some b, Ret new_id =>
      let nb := mkBucket (b_af b) new_id (b_time b) [] None in
      let bs1 := take i bs ++ [b_set_nodes [] b; nb] ++ drop (S i) bs in
      (true, fold_left (reassign w) (b_nodes b) bs1)
  | _, _ => (false, bs)
  end.

(** The first expired node of a full bucket is replaced. *)
Fixpoint replace_expired (w : World) (node : ptr) (l : list ptr) : option (list ptr) :=
  match l with
  | [] => None
  | n :: l' =>
      if on_node isExpired w n then Some (node :: l')
      else option_map (cons n) (replace_expired w node l')
  end.

(** The loop that pings the first dubious node with no pending message. *)
Fixpoint ping_dubious (now : Z) (l : list ptr) (w : World) (dubious : bool) : bool * World :=
  match l with
  | [] => (dubious, w)
  | n :: l' =>
      if negb (on_node (isGood now) w n) then
        if negb (on_node (isPendingMessage w) w n) then (true, sendPing n w)
        else ping_dubious now l' w true
      else ping_dubious now l' w dubious
  end.

(** [onNewNode]; the recursive call follows a split, [fuel] bounds their number. *)
Fixpoint onNewNode (fuel : nat) (node : ptr) (confirm now : Z) (myid : Hash)
    (t : RoutingTable) (w : World) : option (bool * RoutingTable * World) :=
  match fuel with
  | O => None
  | S fuel' =>
      let i := findBucket (rt_buckets t) (id_of w node) in
      match rt_buckets t !! i with
      | None => Some (false, t, w)
      | Some b0 =>
          let b := if confirm =? 2 then b_set_time now b0 else b0 in
          let bs := <[i := b]> (rt_buckets t) in
          let t1 := mkRoutingTable bs (rt_grow_time t) (rt_is_client t) in
          if existsb (Pos.eqb node) (b_nodes b) then Some (false, t1, w)
          else
            let mybucket := contains bs i myid in
            let gt := if mybucket then now else rt_grow_time t in
            let put b' := mkRoutingTable (<[i := b']> bs) gt (rt_is_client t) in
            if TARGET_NODES <=? Z.of_nat (length (b_nodes b)) then
              match replace_expired w node (b_nodes b) with
              | Some l => Some (true, put (b_set_nodes l b), w)
              | None =>
                  let '(dubious, w1) := ping_dubious now (b_nodes b) w false in
                  if (mybucket || (rt_is_client t && (depth bs i <? 6)))
                     && (negb dubious || (length bs =? 1)%nat)
                  then
                    let '(b', w2) := sendCachedPing b w1 in
                    let '(_, bs') := split_bucket w2 (<[i := b']> bs) i in
                    onNewNode fuel' node confirm now myid
                              (mkRoutingTable bs' gt (rt_is_client t)) w2
                  else if negb (confirm =? 0) || match b_cached b with None => true | _ => false end
                  then Some (true, put (b_set_cached (Some node) b), w1)
                  else Some (true, put b, w1)
              end
            else Some (true, put (b_set_nodes (node :: b_nodes b) b), w)
      end
  end.

End RoutingTable.

(** ** The partition of the identifier space *)

(** [tiles idf lo bs hi]: the buckets cover [lo, hi) with aligned blocks whose
    sizes are powers of two, in order, and every node lies in the block of its
    bucket.  [idf] gives the identifiers. *)
Inductive tiles (idf : ptr -> Hash) : Z -> list Bucket -> Z -> Prop :=
| tiles_nil lo : tiles idf lo [] lo
| tiles_cons lo d b bs hi :
    0 <= d <= 160 -> lo mod 2 ^ (160 - d) = 0 ->
    wf_hash HASH_LEN (b_first b) -> be_Z (b_first b) = lo ->
    Forall (fun p => wf_hash HASH_LEN (idf p) /\
                     lo <= be_Z (idf p) < lo + 2 ^ (160 - d)) (b_nodes b) ->
    tiles idf (lo + 2 ^ (160 - d)) bs hi ->
    tiles idf lo (b :: bs) hi.

(** The invariant of the table: the buckets tile the whole space and none holds
    more than [TARGET_NODES] nodes. *)
Definition table_ok (idf : ptr -> Hash) (bs : list Bucket) : Prop :=
  tiles idf 0 bs (2 ^ 160) /\ Forall (fun b => Z.of_nat (length (b_nodes b)) <= TARGET_NODES) bs.

Definition all_nodes (bs : list Bucket) : list ptr := concat (b_nodes <$> bs).

Lemma pow2_pos n : 0 <= n -> 0 < 2 ^ n.
Proof. intros. by apply Z.pow_pos_nonneg. Qed.

Lemma tiles_le idf lo bs hi : tiles idf lo bs hi -> lo <= hi.
Proof. induction 1; [lia|]. pose proof (pow2_pos (160 - d)). lia. Qed.

Lemma tiles_app idf lo l1 l2 hi :
  tiles idf lo (l1 ++ l2) hi <-> exists mid, tiles idf lo l1 mid /\ tiles idf mid l2 hi.
Proof.
  split.
  - revert lo. induction l1 as [|b l1 IH]; intros lo H; cbn in H.
    + exists lo. by split; [constructor|].
    + inversion H as [|? d ? ? ? Hd Ha Hf He Hn Ht]; subst.
      destruct (IH _ Ht) as (mid & H1 & H2). exists mid. split; [by econstructor|done].
  - intros (mid & H1 & H2). induction H1; [done|]. cbn. econstructor; eauto.
Qed.

(** Nodes may change as long as they stay in range. *)
Lemma tiles_hd_lt idf lo b bs hi : tiles idf lo (b :: bs) hi -> lo < hi.
Proof.
  inversion 1; subst. pose proof (pow2_pos (160 - d)).
  match goal with H : tiles _ _ bs _ |- _ => apply tiles_le in H end. lia.
Qed.

Lemma tiles_first idf lo b bs hi :
  tiles idf lo (b :: bs) hi -> wf_hash HASH_LEN (b_first b) /\ be_Z (b_first b) = lo.
Proof. by inversion 1; subst. Qed.

(** What is known of the bucket at an index. *)
Lemma tiles_lookup idf bs i b :
  tiles idf 0 bs (2 ^ 160) -> bs !! i = Some b ->
  exists d, 0 <= d <= 160 /\ wf_hash HASH_LEN (b_first b) /\
    be_Z (b_first b) mod 2 ^ (160 - d) = 0 /\
    Forall (fun p => wf_hash HASH_LEN (idf p) /\
      be_Z (b_first b) <= be_Z (idf p) < be_Z (b_first b) + 2 ^ (160 - d)) (b_nodes b) /\
    tiles idf 0 (take i bs) (be_Z (b_first b)) /\
    tiles idf (be_Z (b_first b) + 2 ^ (160 - d)) (drop (S i) bs) (2 ^ 160) /\
    match bs !! S i with
    | Some nb => wf_hash HASH_LEN (b_first nb) /\
                 be_Z (b_first nb) = be_Z (b_first b) + 2 ^ (160 - d)
    | None => be_Z (b_first b) + 2 ^ (160 - d) = 2 ^ 160
    end.
Proof.
  intros Ht Hi. rewrite <- (take_drop_middle bs i b Hi) in Ht.
  apply tiles_app in Ht as (mid & H1 & H2).
  inversion H2 as [|? d ? ? ? Hd Ha Hf He Hn Hr]; subst. exists d. split_and!; try done; try lia.
  destruct (bs !! S i) as [nb|] eqn:Enb.
  - rewrite <- (take_drop_middle bs (S i) nb Enb) in Hr.
    rewrite drop_app_ge, length_take in Hr by (rewrite length_take; lia).
    replace (S i - S i `min` length bs)%nat with 0%nat in Hr
      by (apply lookup_lt_Some in Enb; lia).
    by apply tiles_first in Hr.
  - apply lookup_ge_None in Enb. rewrite drop_ge in Hr by done. by inversion Hr.
Qed.

(** ** Depth and middle *)

Lemma lowbit_multiple h q e :
  wf_bytes h -> 0 <= e <= 8 * Z.of_nat (length h) -> be_Z h = q * 2 ^ e ->
  lowbit h <= 8 * Z.of_nat (length h) - 1 - e.
Proof.
  intros Hwf He Heq. destruct (decide (be_Z h = 0)) as [E|E].
  - assert (lowbit h = -1) as -> by (by apply lowbit_zero, be_Z_zero_iff). lia.
  - destruct (lowbit_last_set h Hwf) as (Hl & Hset & _); [by rewrite <- be_Z_zero_iff|].
    rewrite getBit_be in Hset by done. set (i := 8 * Z.of_nat (length h) - 1 - lowbit h) in *.
    destruct (Z.lt_ge_cases i e); [|lia]. exfalso. rewrite Heq in Hset.
    replace (q * 2 ^ e) with (q * 2 ^ e + 0) in Hset by lia.
    rewrite testbit_concat_low in Hset by lia. by rewrite Z.bits_0 in Hset.
Qed.

(** On a tiled table, [depth] is the number of bits that identifiers of a bucket
    share: the block of the bucket has size [2 ^ (160 - depth)]. *)
Lemma depth_block f g d :
  0 <= d <= 160 -> wf_hash HASH_LEN f -> be_Z f mod 2 ^ (160 - d) = 0 ->
  match g with
  | Some h => wf_hash HASH_LEN h /\ be_Z h = be_Z f + 2 ^ (160 - d)
  | None => be_Z f + 2 ^ (160 - d) = 2 ^ 160
  end ->
  Z.max (lowbit f) (match g with Some h => lowbit h | None => -1 end) + 1 = d.
Proof.
  intros Hd [Lf Wf] Hmod Hg. set (e := 160 - d) in *. pose proof (pow2_pos e ltac:(lia)) as He.
  assert (8 * Z.of_nat (length f) = 160) as Hlen by (rewrite Lf; done).
  apply Z.mod_divide in Hmod as [q Hq]; [|lia].
  pose proof (lowbit_multiple f q e Wf ltac:(lia) Hq) as Hf.
  destruct (Z.odd q) eqn:Hodd.
  - pose proof (lowbit_odd_multiple f q e Wf ltac:(lia) Hodd Hq) as Hf'.
    destruct g as [h|].
    + destruct Hg as [[Lh Wh] Hh].
      assert (8 * Z.of_nat (length h) = 160) by (rewrite Lh; done).
      pose proof (lowbit_multiple h (q + 1) e Wh ltac:(lia) ltac:(lia)). lia.
    + assert (0 < d); [|lia]. destruct (decide (d = 0)) as [->|]; [|lia]. exfalso.
      subst e. change (160 - 0) with 160 in *. assert (q = 0) by lia. by subst.
  - assert (Z.odd (q + 1) = true) as Hodd' by (rewrite Z.odd_add, Hodd; done).
    destruct g as [h|].
    + destruct Hg as [[Lh Wh] Hh].
      assert (8 * Z.of_nat (length h) = 160) by (rewrite Lh; done).
      pose proof (lowbit_odd_multiple h (q + 1) e Wh ltac:(lia) Hodd' ltac:(lia)). lia.
    + assert ((q + 1) * 2 ^ e = 2 ^ d * 2 ^ e) as Hqe.
      { rewrite <- Z.pow_add_r by lia. replace (d + e) with 160 by lia. lia. }
      assert (q + 1 = 2 ^ d) as Hq1 by nia.
      destruct (decide (d = 0)) as [->|]; [|].
      * assert (q = 0) by (cbn in Hq1; lia). subst q.
        assert (lowbit f = -1) as -> by (rewrite lowbit_zero, <- be_Z_zero_iff by done; lia). lia.
      * exfalso. rewrite Hq1 in Hodd'. rewrite Z.odd_pow in Hodd' by lia. done.
Qed.

Lemma tiles_depth idf bs i b :
  tiles idf 0 bs (2 ^ 160) -> bs !! i = Some b ->
  0 <= depth bs i <= 160 /\
  tiles idf 0 (take i bs) (be_Z (b_first b)) /\
  be_Z (b_first b) mod 2 ^ (160 - depth bs i) = 0 /\
  wf_hash HASH_LEN (b_first b) /\
  Forall (fun p => wf_hash HASH_LEN (idf p) /\
    be_Z (b_first b) <= be_Z (idf p) < be_Z (b_first b) + 2 ^ (160 - depth bs i)) (b_nodes b) /\
  tiles idf (be_Z (b_first b) + 2 ^ (160 - depth bs i)) (drop (S i) bs) (2 ^ 160) /\
  match bs !! S i with
  | Some nb => wf_hash HASH_LEN (b_first nb) /\
               be_Z (b_first nb) = be_Z (b_first b) + 2 ^ (160 - depth bs i)
  | None => be_Z (b_first b) + 2 ^ (160 - depth bs i) = 2 ^ 160
  end.
Proof.
  intros Ht Hi. destruct (tiles_lookup idf bs i b Ht Hi) as (d & Hd & Hf & Hm & Hn & H1 & H2 & Hg).
  assert (depth bs i = d) as ->; [|split_and!; done || lia].
  unfold depth. rewrite Hi.
  pose proof (depth_block (b_first b) (b_first <$> bs !! S i) d Hd Hf Hm) as Hdb.
  destruct (bs !! S i) as [nb|]; cbn in *; by apply Hdb.
Qed.

(** ** Lookup of the bucket of an identifier *)

Lemma cmp_lt_be a b :
  wf_hash HASH_LEN a -> wf_hash HASH_LEN b -> (cmp a b <? 0) = (be_Z a <? be_Z b).
Proof.
  intros [La Wa] [Lb Wb]. rewrite cmp_be by (done || congruence). unfold Z.ltb.
  by destruct (be_Z a ?= be_Z b).
Qed.

Lemma cmp_le_be a b :
  wf_hash HASH_LEN a -> wf_hash HASH_LEN b -> (cmp a b <=? 0) = (be_Z a <=? be_Z b).
Proof.
  intros [La Wa] [Lb Wb]. rewrite cmp_be by (done || congruence). unfold Z.leb.
  by destruct (be_Z a ?= be_Z b).
Qed.

Lemma findBucket_from_shift i bs id : findBucket_from i bs id = (i + findBucket_from 0 bs id)%nat.
Proof.
  revert i. induction bs as [|b bs IH]; intros i; cbn; [lia|].
  destruct bs as [|nb bs]; [lia|]. case_match; [lia|].
  rewrite (IH (S i)), (IH 1%nat). lia.
Qed.

Lemma findBucket_spec idf lo bs hi id :
  tiles idf lo bs hi -> wf_hash HASH_LEN id -> lo <= be_Z id < hi ->
  exists b, bs !! findBucket bs id = Some b /\ be_Z (b_first b) <= be_Z id /\
    match bs !! S (findBucket bs id) with
    | Some nb => be_Z id < be_Z (b_first nb) | None => True end.
Proof.
  unfold findBucket. revert lo. induction bs as [|b bs IH]; intros lo Ht Hid Hr.
  { inversion Ht; subst. lia. }
  inversion Ht as [|? d ? ? ? Hd Ha Hf He Hn Hr']; subst. cbn [findBucket_from].
  destruct bs as [|nb bs].
  { exists b. split_and!; [done|lia|done]. }
  destruct (tiles_first _ _ _ _ _ Hr') as [Hnb Enb].
  rewrite cmp_lt_be by done. destruct (Z.ltb_spec (be_Z id) (be_Z (b_first nb))) as [Hlt|Hge].
  - exists b. split_and!; [done|lia|done].
  - rewrite findBucket_from_shift. apply (IH (be_Z (b_first b) + 2 ^ (160 - d))); [done..|lia].
Qed.

(** [contains] decides membership in the block of the bucket. *)
Lemma contains_block idf bs i b id :
  tiles idf 0 bs (2 ^ 160) -> bs !! i = Some b -> wf_hash HASH_LEN id ->
  contains bs i id = true <->
  be_Z (b_first b) <= be_Z id < be_Z (b_first b) + 2 ^ (160 - depth bs i).
Proof.
  intros Ht Hi Hid. destruct (tiles_depth idf bs i b Ht Hi) as (_ & _ & _ & Hf & _ & _ & Hg).
  unfold contains. rewrite Hi, cmp_le_be by done.
  assert (be_Z id < 2 ^ 160).
  { destruct Hid as [L W]. pose proof (be_Z_range id W) as R. rewrite L, pow256 in R. apply R. }
  destruct (bs !! S i) as [nb|].
  - destruct Hg as [Hnb Enb]. rewrite cmp_lt_be, andb_true_iff, Z.leb_le, Z.ltb_lt by done. lia.
  - rewrite andb_true_r, Z.leb_le. lia.
Qed.

Lemma id_range id : wf_hash HASH_LEN id -> 0 <= be_Z id < 2 ^ 160.
Proof. intros [L W]. pose proof (be_Z_range id W) as R. rewrite L, pow256 in R. apply R. Qed.

Lemma findBucket_block idf bs id :
  tiles idf 0 bs (2 ^ 160) -> wf_hash HASH_LEN id ->
  exists b, bs !! findBucket bs id = Some b /\
    be_Z (b_first b) <= be_Z id < be_Z (b_first b) + 2 ^ (160 - depth bs (findBucket bs id)).
Proof.
  intros Ht Hid. pose proof (id_range id Hid) as Hr.
  destruct (findBucket_spec idf 0 bs (2 ^ 160) id Ht Hid Hr) as (b & Hb & Hlo & Hhi).
  exists b. split; [done|]. split; [done|].
  destruct (tiles_depth idf bs _ b Ht Hb) as (_ & _ & _ & _ & _ & _ & Hg).
  destruct (bs !! S (findBucket bs id)) as [nb|]; [|lia]. destruct Hg. lia.
Qed.

(** [depth], [findBucket] and [contains] only look at the first identifiers. *)
Lemma firsts_lookup (bs bs' : list Bucket) i :
  b_first <$> bs = b_first <$> bs' -> b_first <$> bs !! i = b_first <$> bs' !! i.
Proof. intros H. rewrite <- !list_lookup_fmap. by rewrite H. Qed.

Lemma depth_firsts bs bs' i : b_first <$> bs = b_first <$> bs' -> depth bs i = depth bs' i.
Proof.
  intros H. pose proof (firsts_lookup _ _ i H) as H0. pose proof (firsts_lookup _ _ (S i) H) as H1.
  unfold depth. destruct (bs !! i), (bs' !! i); cbn in *; simplify_eq; [|done].
  destruct (bs !! S i), (bs' !! S i); cbn in *; simplify_eq; congruence.
Qed.

Lemma insert_firsts (bs : list Bucket) i b b' :
  bs !! i = Some b -> b_first b' = b_first b -> b_first <$> <[i := b']> bs = b_first <$> bs.
Proof.
  intros Hi Hb. rewrite list_fmap_insert, Hb. apply list_insert_id. by rewrite list_lookup_fmap, Hi.
Qed.

(** Replacing a bucket by one with the same first identifier and nodes in range. *)
Lemma tiles_insert idf bs i b b' :
  tiles idf 0 bs (2 ^ 160) -> bs !! i = Some b -> b_first b' = b_first b ->
  Forall (fun p => wf_hash HASH_LEN (idf p) /\
    be_Z (b_first b) <= be_Z (idf p) < be_Z (b_first b) + 2 ^ (160 - depth bs i)) (b_nodes b') ->
  tiles idf 0 (<[i := b']> bs) (2 ^ 160).
Proof.
  intros Ht Hi Hf Hn. destruct (tiles_depth idf bs i b Ht Hi) as (Hd & Hl & Hm & Hwf & _ & Hr & _).
  rewrite insert_take_drop by (by eapply lookup_lt_Some).
  apply tiles_app. eexists. split; [exact Hl|].
  apply tiles_cons with (d := depth bs i); rewrite ?Hf; done.
Qed.

Lemma all_nodes_app l1 l2 : all_nodes (l1 ++ l2) = all_nodes l1 ++ all_nodes l2.
Proof. unfold all_nodes. by rewrite fmap_app, concat_app. Qed.

Lemma all_nodes_lookup bs i b :
  bs !! i = Some b -> all_nodes bs ≡ₚ b_nodes b ++ all_nodes (take i bs) ++ all_nodes (drop (S i) bs).
Proof.
  intros Hi. rewrite <- (take_drop_middle bs i b Hi) at 1. rewrite all_nodes_app.
  cbn. rewrite Permutation_app_comm. rewrite <- app_assoc. f_equiv. apply Permutation_app_comm.
Qed.

Lemma all_nodes_insert bs i b b' :
  bs !! i = Some b ->
  all_nodes (<[i := b']> bs) ≡ₚ b_nodes b' ++ all_nodes (take i bs) ++ all_nodes (drop (S i) bs).
Proof.
  intros Hi. rewrite insert_take_drop by (by eapply lookup_lt_Some). rewrite all_nodes_app.
  cbn. rewrite Permutation_app_comm. rewrite <- app_assoc. f_equiv. apply Permutation_app_comm.
Qed.

Lemma tiles_nodes idf lo bs hi p :
  tiles idf lo bs hi -> p ∈ all_nodes bs -> wf_hash HASH_LEN (idf p) /\ lo <= be_Z (idf p) < hi.
Proof.
  induction 1 as [|lo d b bs hi Hd Hm Hf He Hn Ht IH]; [set_solver|].
  unfold all_nodes in *. cbn. rewrite elem_of_app. pose proof (pow2_pos (160 - d)).
  pose proof (tiles_le _ _ _ _ Ht). intros [Hp|Hp].
  - rewrite Forall_forall in Hn. destruct (Hn p Hp). split; [done|lia].
  - destruct (IH Hp). split; [done|lia].
Qed.

(** Ranges are disjoint: a bucket holds exactly the nodes of the table in its block. *)
Definition in_block (idf : ptr -> Hash) (lo hi : Z) (p : ptr) : bool :=
  (lo <=? be_Z (idf p)) && (be_Z (idf p) <? hi).

Lemma filter_all_in {A} (f : A -> bool) l :
  Forall (fun x => f x = true) l -> List.filter f l = l.
Proof. induction 1; cbn; [done|]. by rewrite H, IHForall. Qed.

Lemma filter_all_out {A} (f : A -> bool) l :
  Forall (fun x => f x = false) l -> List.filter f l = [].
Proof. induction 1; cbn; [done|]. by rewrite H. Qed.

Lemma filter_perm {A} (f : A -> bool) l l' :
  l ≡ₚ l' -> List.filter f l ≡ₚ List.filter f l'.
Proof.
  induction 1; cbn; [done|case_match; [by apply perm_skip|done]| |by eapply perm_trans].
  repeat case_match; try done. apply Permutation_swap.
Qed.

Lemma bucket_is_block idf bs i b :
  tiles idf 0 bs (2 ^ 160) -> bs !! i = Some b ->
  b_nodes b ≡ₚ List.filter (in_block idf (be_Z (b_first b))
                             (be_Z (b_first b) + 2 ^ (160 - depth bs i))) (all_nodes bs).
Proof.
  intros Ht Hi. destruct (tiles_depth idf bs i b Ht Hi) as (Hd & Hl & Hm & Hwf & Hn & Hr & _).
  pose proof (pow2_pos (160 - depth bs i) ltac:(lia)).
  rewrite (filter_perm _ _ _ (all_nodes_lookup bs i b Hi)), !List.filter_app.
  rewrite (filter_all_in _ (b_nodes b)).
  2: { eapply Forall_impl; [exact Hn|]. cbn. intros p [_ Hp]. unfold in_block.
       apply andb_true_iff. rewrite Z.leb_le, Z.ltb_lt. done. }
  rewrite !filter_all_out; [by rewrite app_nil_r|..]; apply Forall_forall; intros p Hp;
    unfold in_block; apply andb_false_iff.
  - destruct (tiles_nodes _ _ _ _ _ Hr Hp). right. apply Z.ltb_ge. lia.
  - destruct (tiles_nodes _ _ _ _ _ Hl Hp). left. apply Z.leb_gt. lia.
Qed.

(** ** Splitting *)

Lemma reassign_firsts w bs p : b_first <$> reassign w bs p = b_first <$> bs.
Proof. unfold reassign. case_match; [|done]. by eapply insert_firsts. Qed.

Lemma reassign_tiles w bs p :
  tiles (id_of w) 0 bs (2 ^ 160) -> wf_hash HASH_LEN (id_of w p) ->
  tiles (id_of w) 0 (reassign w bs p) (2 ^ 160) /\
  all_nodes (reassign w bs p) ≡ₚ p :: all_nodes bs.
Proof.
  intros Ht Hp. destruct (findBucket_block _ _ _ Ht Hp) as (b & Hb & Hr).
  unfold reassign. rewrite Hb. split.
  - eapply tiles_insert; [done|done|done|]. constructor; [by split|].
    by destruct (tiles_depth _ _ _ _ Ht Hb) as (_ & _ & _ & _ & Hn & _).
  - rewrite (all_nodes_insert _ _ _ _ Hb). cbn [b_set_nodes b_nodes].
    by rewrite (all_nodes_lookup _ _ _ Hb).
Qed.

Lemma reassign_loop w l bs :
  tiles (id_of w) 0 bs (2 ^ 160) -> Forall (fun p => wf_hash HASH_LEN (id_of w p)) l ->
  tiles (id_of w) 0 (fold_left (reassign w) l bs) (2 ^ 160) /\
  all_nodes (fold_left (reassign w) l bs) ≡ₚ l ++ all_nodes bs /\
  b_first <$> fold_left (reassign w) l bs = b_first <$> bs.
Proof.
  intros Ht Hl. revert bs Ht. induction Hl as [|p l Hp Hl IH]; intros bs Ht; [done|]. cbn.
  destruct (reassign_tiles w bs p Ht Hp) as [Ht' Hperm].
  destruct (IH _ Ht') as (H1 & H2 & H3). split_and!; [done| |by rewrite H3, reassign_firsts].
  rewrite H2, Hperm. by rewrite Permutation_middle.
Qed.

(** [middle] is the midpoint of the block. *)
Lemma middle_midpoint idf bs i b :
  tiles idf 0 bs (2 ^ 160) -> bs !! i = Some b -> depth bs i < 160 ->
  exists m, middle bs i = Ret m /\ wf_hash HASH_LEN m /\
    be_Z m = be_Z (b_first b) + 2 ^ (160 - (depth bs i + 1)).
Proof.
  intros Ht Hi Hd. destruct (tiles_depth idf bs i b Ht Hi) as (Hd' & _ & Hm & [L W] & _).
  unfold middle. rewrite Hi. change (8 * Z.of_nat HASH_LEN) with 160.
  destruct (Z.leb_spec 160 (depth bs i)); [lia|]. eexists. split; [done|].
  split; [by apply setBit_wf_hash|]. change (8 * Z.of_nat HASH_LEN) with 160 in *.
  rewrite be_Z_setBit; rewrite ?L; change (8 * Z.of_nat HASH_LEN) with 160; try done; try lia.
  - f_equal. f_equal. lia.
  - rewrite getBit_be by (done || (rewrite L; change (8 * Z.of_nat HASH_LEN) with 160; lia)).
    rewrite L. change (8 * Z.of_nat HASH_LEN) with 160.
    apply Z.mod_divide in Hm as [q Hq]; [|pose proof (pow2_pos (160 - depth bs i)); lia].
    rewrite Hq. replace (q * _) with (q * 2 ^ (160 - depth bs i) + 0) by lia.
    rewrite testbit_concat_low by lia. apply Z.bits_0.
Qed.

Lemma double_block e : 0 < e -> 2 ^ e = 2 ^ (e - 1) + 2 ^ (e - 1).
Proof. intros. replace e with (Z.succ (e - 1)) at 1 by lia. rewrite Z.pow_succ_r by lia. lia. Qed.

(** The tiling of the table right after the new bucket has been inserted. *)
Lemma split_tiles idf bs i b m :
  tiles idf 0 bs (2 ^ 160) -> bs !! i = Some b -> depth bs i < 160 ->
  wf_hash HASH_LEN m -> be_Z m = be_Z (b_first b) + 2 ^ (160 - (depth bs i + 1)) ->
  tiles idf 0 (take i bs ++ [b_set_nodes [] b; mkBucket (b_af b) m (b_time b) [] None] ++ drop (S i) bs)
        (2 ^ 160).
Proof.
  intros Ht Hi Hd Hm Em. destruct (tiles_depth idf bs i b Ht Hi) as (Hd' & Hl & Hmod & Hf & _ & Hr & _).
  pose proof (double_block (160 - depth bs i) ltac:(lia)) as Hdb.
  replace (160 - depth bs i - 1) with (160 - (depth bs i + 1)) in Hdb by lia.
  set (k := 2 ^ (160 - (depth bs i + 1))) in *.
  assert (0 < k) by (apply pow2_pos; lia).
  apply Z.mod_divide in Hmod as [q Hq]; [|lia]. rewrite Hdb in *.
  apply tiles_app. eexists. split; [exact Hl|]. cbn [app].
  apply tiles_cons with (d := depth bs i + 1); fold k; try done; try lia.
  { rewrite Hq. replace (q * (k + k)) with (2 * q * k) by lia. apply Z.mod_mul. lia. }
  apply tiles_cons with (d := depth bs i + 1); fold k; try done; try lia.
  { rewrite Hq. replace (q * (k + k) + k) with ((2 * q + 1) * k) by lia. apply Z.mod_mul. lia. }
  rewrite <- Z.add_assoc. exact Hr.
Qed.

Lemma filter_sub_length {A} (f g : A -> bool) l :
  (forall x, f x = true -> g x = true) ->
  (length (List.filter f l) <= length (List.filter g l))%nat.
Proof.
  intros H. induction l as [|x l IH]; cbn; [done|].
  destruct (f x) eqn:E; [rewrite (H x E); cbn; lia|]. case_match; cbn; lia.
Qed.

(** The block of every bucket of a refined tiling lies in the block of a bucket
    of the old one, so no bucket grows. *)
Lemma refine_sizes idf bs bs' :
  table_ok idf bs -> tiles idf 0 bs' (2 ^ 160) -> all_nodes bs' ≡ₚ all_nodes bs ->
  (forall j b', bs' !! j = Some b' -> exists i b, bs !! i = Some b /\
     be_Z (b_first b) <= be_Z (b_first b') /\
     be_Z (b_first b') + 2 ^ (160 - depth bs' j) <= be_Z (b_first b) + 2 ^ (160 - depth bs i)) ->
  table_ok idf bs'.
Proof.
  intros [Ht Hsz] Ht' Hperm Href. split; [done|]. rewrite Forall_lookup in Hsz |- *.
  intros j b' Hj. destruct (Href j b' Hj) as (i & b & Hi & Hlo & Hhi).
  specialize (Hsz i b Hi). etrans; [|exact Hsz]. apply Nat2Z.inj_le.
  rewrite (bucket_is_block idf bs' j b' Ht' Hj), (bucket_is_block idf bs i b Ht Hi).
  rewrite (filter_perm _ _ _ Hperm). apply filter_sub_length.
  intros p. unfold in_block. rewrite !andb_true_iff, !Z.leb_le, !Z.ltb_lt. lia.
Qed.

Lemma lookup_split_table (bs : list Bucket) i b b1 b2 j :
  bs !! i = Some b ->
  (take i bs ++ [b1; b2] ++ drop (S i) bs) !! j =
  if decide (j < i)%nat then bs !! j else if decide (j = i) then Some b1
  else if decide (j = S i) then Some b2 else bs !! (j - 1)%nat.
Proof.
  intros Hi. pose proof (lookup_lt_Some _ _ _ Hi) as Hlt.
  assert (length (take i bs) = i) as Hlen by (rewrite length_take; lia).
  case_decide.
  - rewrite lookup_app_l by lia. by rewrite lookup_take_lt by lia.
  - rewrite lookup_app_r, Hlen by lia. destruct (j - i)%nat as [|[|k]] eqn:Ek.
    + by rewrite decide_True by lia.
    + by rewrite decide_False, decide_True by lia.
    + rewrite !decide_False by lia.
      change (drop (S i) bs !! k = bs !! (j - 1)%nat). rewrite lookup_drop. f_equal. lia.
Qed.

(** Where the block of a bucket ends. *)
Definition block_end (bs : list Bucket) (i : nat) : Z :=
  match bs !! S i with Some nb => be_Z (b_first nb) | None => 2 ^ 160 end.

Lemma block_end_depth idf bs i b :
  tiles idf 0 bs (2 ^ 160) -> bs !! i = Some b ->
  be_Z (b_first b) + 2 ^ (160 - depth bs i) = block_end bs i.
Proof.
  intros Ht Hi. destruct (tiles_depth idf bs i b Ht Hi) as (_ & _ & _ & _ & _ & _ & Hg).
  unfold block_end. destruct (bs !! S i); [by destruct Hg|done].
Qed.

Lemma block_end_firsts bs bs' i : b_first <$> bs = b_first <$> bs' -> block_end bs i = block_end bs' i.
Proof.
  intros H. pose proof (firsts_lookup _ _ (S i) H) as H1. unfold block_end.
  destruct (bs !! S i), (bs' !! S i); cbn in *; simplify_eq; congruence.
Qed.

(** A tiling with the firsts of the split table refines the old one. *)
Lemma split_refines idf bs i b b1 b2 bs2 :
  table_ok idf bs -> bs !! i = Some b -> depth bs i < 160 ->
  b_first b1 = b_first b ->
  be_Z (b_first b2) = be_Z (b_first b) + 2 ^ (160 - (depth bs i + 1)) ->
  tiles idf 0 bs2 (2 ^ 160) -> all_nodes bs2 ≡ₚ all_nodes bs ->
  b_first <$> bs2 = b_first <$> (take i bs ++ [b1; b2] ++ drop (S i) bs) ->
  table_ok idf bs2.
Proof.
  intros Hok Hi Hd E1 E2 Ht2 Hp2 Hf2. pose proof Hok as [Ht _].
  destruct (tiles_depth _ bs i b Ht Hi) as (Hd' & _).
  pose proof (double_block (160 - depth bs i) ltac:(lia)) as Hdb.
  replace (160 - depth bs i - 1) with (160 - (depth bs i + 1)) in Hdb by lia.
  pose proof (pow2_pos (160 - (depth bs i + 1)) ltac:(lia)) as Hk.
  pose proof (block_end_depth _ bs i b Ht Hi) as Hend.
  pose proof (lookup_split_table bs i b b1 b2) as Hlk.
  apply (refine_sizes _ bs); [done..|]. intros j b' Hj.
  rewrite (block_end_depth _ bs2 j b' Ht2 Hj), (block_end_firsts _ _ j Hf2).
  pose proof (firsts_lookup _ _ j Hf2) as Hx. rewrite Hj, Hlk in Hx by done.
  unfold block_end. rewrite Hlk by done. repeat case_decide; simplify_eq/=; try lia.
  - destruct (bs !! j) as [x|] eqn:Ex; [|done]. cbn in Hx. injection Hx as Hx. exists j, x.
    rewrite (block_end_depth _ bs j x Ht Ex). unfold block_end. by rewrite Hx.
  - destruct (bs !! j) as [x|] eqn:Ex; [|done]. cbn in Hx. injection Hx as Hx. exists j, x.
    rewrite (block_end_depth _ bs j x Ht Ex). unfold block_end.
    rewrite Hx, Hi, E1. done.
  - exists i, b. rewrite Hend, Hx, E1, E2, <- Hend. split_and!; [done|lia|lia].
  - exists i, b. rewrite Hend, Hx, E2. split_and!; [done|lia|].
    unfold block_end. done.
  - destruct (bs !! (j - 1)%nat) as [x|] eqn:Ex; [|done]. cbn in Hx. injection Hx as Hx.
    exists (j - 1)%nat, x. rewrite (block_end_depth _ bs _ x Ht Ex). unfold block_end.
    replace (S (j - 1)) with j by lia. rewrite Hx, Nat.sub_0_r. done.
Qed.

(** Splitting a bucket of a well-formed table: it succeeds unless the bucket
    holds a single identifier; the table stays well formed, keeps its nodes, and
    the two halves of the block get the two buckets. *)
Lemma split_bucket_ok w bs i b :
  table_ok (id_of w) bs -> bs !! i = Some b -> depth bs i < 160 ->
  exists bs', split_bucket w bs i = (true, bs') /\ table_ok (id_of w) bs' /\
    all_nodes bs' ≡ₚ all_nodes bs /\ length bs' = S (length bs) /\
    (exists b1 b2, bs' !! i = Some b1 /\ bs' !! S i = Some b2 /\ b_first b1 = b_first b /\
       be_Z (b_first b2) = be_Z (b_first b) + 2 ^ (160 - (depth bs i + 1)) /\
       depth bs' i = depth bs i + 1 /\ depth bs' (S i) = depth bs i + 1).
Proof.
  intros [Ht Hsz] Hi Hd.
  destruct (middle_midpoint _ bs i b Ht Hi Hd) as (m & Hm & Wm & Em).
  unfold split_bucket. rewrite Hi, Hm. eexists. split; [done|].
  destruct (tiles_depth _ bs i b Ht Hi) as (Hd' & _ & _ & _ & Hn & _).
  set (nb := mkBucket (b_af b) m (b_time b) [] None).
  pose proof (split_tiles _ bs i b m Ht Hi Hd Wm Em) as Ht1. fold nb in Ht1.
  set (bs1 := take i bs ++ [b_set_nodes [] b; nb] ++ drop (S i) bs) in *.
  assert (forall j, bs1 !! j = if decide (j < i)%nat then bs !! j else if decide (j = i)
    then Some (b_set_nodes [] b) else if decide (j = S i) then Some nb else bs !! (j - 1)%nat) as Hlk
    by (intros; by apply lookup_split_table with b).
  destruct (reassign_loop w (b_nodes b) bs1 Ht1) as (Ht2 & Hp2 & Hf2).
  { eapply Forall_impl; [exact Hn|]. by intros p [? _]. }
  set (bs2 := fold_left (reassign w) (b_nodes b) bs1) in *.
  pose proof (double_block (160 - depth bs i) ltac:(lia)) as Hdb.
  replace (160 - depth bs i - 1) with (160 - (depth bs i + 1)) in Hdb by lia.
  pose proof (pow2_pos (160 - (depth bs i + 1)) ltac:(lia)) as Hk.
  pose proof (block_end_depth _ bs i b Ht Hi) as Hend.
  assert (all_nodes bs2 ≡ₚ all_nodes bs) as Hperm.
  { rewrite Hp2, (all_nodes_lookup bs i b Hi). unfold bs1. rewrite !all_nodes_app. done. }
  split_and!; [|done| |].
  - by eapply (split_refines _ bs i b (b_set_nodes [] b) nb).
  - apply (f_equal length) in Hf2. rewrite !length_fmap in Hf2. rewrite Hf2. unfold bs1.
    rewrite !length_app, length_take, length_drop. cbn. pose proof (lookup_lt_Some _ _ _ Hi). lia.
  - pose proof (firsts_lookup _ _ i Hf2) as F1. pose proof (firsts_lookup _ _ (S i) Hf2) as F2.
    rewrite Hlk, decide_False, decide_True in F1 by lia.
    rewrite Hlk, !decide_False, decide_True in F2 by lia.
    destruct (bs2 !! i) as [b1|] eqn:E1; [|done]. destruct (bs2 !! S i) as [b2|] eqn:E2; [|done].
    cbn in F1, F2. injection F1 as F1. injection F2 as F2. exists b1, b2.
    pose proof (block_end_depth _ bs2 i b1 Ht2 E1) as D1.
    pose proof (block_end_depth _ bs2 (S i) b2 Ht2 E2) as D2.
    rewrite (block_end_firsts _ _ i Hf2) in D1. rewrite (block_end_firsts _ _ (S i) Hf2) in D2.
    unfold block_end in D1, D2.
    rewrite Hlk, !decide_False, decide_True in D1 by lia.
    rewrite Hlk, !decide_False in D2 by lia. replace (S (S i) - 1)%nat with (S i) in D2 by lia.
    fold (block_end bs i) in D2. rewrite <- Hend in D2. cbn in D1. rewrite F1 in D1.
    rewrite F2 in D2. cbn in F2.
    destruct (tiles_depth _ bs2 i b1 Ht2 E1) as (R1 & _).
    destruct (tiles_depth _ bs2 (S i) b2 Ht2 E2) as (R2 & _).
    split_and!; [done|done|done|by rewrite F2| |].
    + assert (160 - depth bs2 i = 160 - (depth bs i + 1)); [|lia].
      apply (Z.pow_inj_r 2); lia.
    + assert (160 - depth bs2 (S i) = 160 - (depth bs i + 1)); [|lia].
      apply (Z.pow_inj_r 2); lia.
Qed.

(** ** Insertion of nodes *)

Lemma tiles_ext idf idf' lo bs hi :
  (forall p, idf p = idf' p) -> tiles idf lo bs hi -> tiles idf' lo bs hi.
Proof.
  intros He. induction 1; [constructor|]. econstructor; [done..| |done].
  eapply Forall_impl; [done|]. intros p. cbn. by rewrite He.
Qed.

Lemma table_ok_ext idf idf' bs :
  (forall p, idf p = idf' p) -> table_ok idf bs -> table_ok idf' bs.
Proof. intros He [? ?]. split; [by eapply tiles_ext|done]. Qed.

Lemma tiles_first_ge idf lo bs hi k c :
  tiles idf lo bs hi -> bs !! k = Some c -> lo <= be_Z (b_first c).
Proof.
  intros Ht. revert k. induction Ht as [|lo d b bs hi Hd Hm Hf He Hn Ht IH]; intros k Hk; [done|].
  destruct k as [|k]; cbn in Hk; [simplify_eq; lia|].
  specialize (IH k Hk). pose proof (pow2_pos (160 - d)). lia.
Qed.

Lemma block_order idf bs i j b c :
  tiles idf 0 bs (2 ^ 160) -> bs !! i = Some b -> bs !! j = Some c -> (i < j)%nat ->
  block_end bs i <= be_Z (b_first c).
Proof.
  intros Ht Hi Hj Hlt. destruct (tiles_depth idf bs i b Ht Hi) as (_ & _ & _ & _ & _ & Hr & _).
  rewrite (block_end_depth idf bs i b Ht Hi) in Hr.
  apply (tiles_first_ge _ _ _ _ (j - S i) c Hr). rewrite lookup_drop.
  replace (S i + (j - S i))%nat with j by lia. done.
Qed.

(** The bucket of an identifier is the only one whose block contains it. *)
Lemma findBucket_unique idf bs i b id :
  tiles idf 0 bs (2 ^ 160) -> wf_hash HASH_LEN id -> bs !! i = Some b ->
  be_Z (b_first b) <= be_Z id < block_end bs i -> findBucket bs id = i.
Proof.
  intros Ht Hid Hi Hr. destruct (findBucket_block idf bs id Ht Hid) as (c & Hc & Hr').
  rewrite (block_end_depth idf bs _ c Ht Hc) in Hr'.
  destruct (Nat.lt_trichotomy (findBucket bs id) i) as [Hlt|[?|Hlt]]; [|done|].
  - pose proof (block_order idf bs _ _ _ _ Ht Hc Hi Hlt). lia.
  - pose proof (block_order idf bs _ _ _ _ Ht Hi Hc Hlt). lia.
Qed.

(** Distinct identifiers of a block are at most as many as its size. *)
Lemma block_capacity idf lo e (l : list ptr) :
  0 <= e -> NoDup (idf <$> l) ->
  Forall (fun p => wf_hash HASH_LEN (idf p) /\ lo <= be_Z (idf p) < lo + 2 ^ e) l ->
  Z.of_nat (length l) <= 2 ^ e.
Proof.
  intros He Hnd Hl. pose proof (pow2_pos e He).
  assert (NoDup (be_Z <$> (idf <$> l))) as Hnd'.
  { apply NoDup_fmap_2_strong; [|done]. intros x y Hx Hy Heq.
    apply list_elem_of_fmap in Hx as (p & -> & Hp). apply list_elem_of_fmap in Hy as (q & -> & Hq).
    rewrite Forall_forall in Hl. destruct (Hl p Hp) as [[Lp Wp] _], (Hl q Hq) as [[Lq Wq] _].
    apply be_Z_inj; [done..|congruence|done]. }
  assert ((be_Z <$> (idf <$> l)) ⊆+ seqZ lo (2 ^ e)) as Hsub.
  { apply NoDup_submseteq; [done|]. intros z Hz. apply list_elem_of_fmap in Hz as (x & -> & Hx).
    apply list_elem_of_fmap in Hx as (p & -> & Hp). rewrite Forall_forall in Hl.
    destruct (Hl p Hp). apply elem_of_seqZ. lia. }
  apply submseteq_length in Hsub. rewrite !length_fmap, length_seqZ in Hsub. lia.
Qed.

Lemma replace_expired_spec w node l l' :
  replace_expired w node l = Some l' ->
  exists e l1 l2, on_node isExpired w e = true /\ l = l1 ++ e :: l2 /\ l' = l1 ++ node :: l2.
Proof.
  revert l'. induction l as [|n l IH]; cbn; intros l'; [done|].
  case_match eqn:E; [intros [= <-]; by exists n, [], l|].
  destruct (replace_expired w node l) as [l1|]; [|done]. intros [= <-].
  destruct (IH l1 eq_refl) as (e & u & v & ? & -> & ->). by exists e, (n :: u), v.
Qed.

(** The nodes of a well-formed table are in the bucket of their identifier. *)
Lemma in_own_bucket idf bs i b p :
  table_ok idf bs -> bs !! i = Some b ->
  be_Z (b_first b) <= be_Z (idf p) < block_end bs i -> p ∈ all_nodes bs -> p ∈ b_nodes b.
Proof.
  intros [Ht Hsz] Hi Hr Hp. unfold all_nodes in Hp.
  apply list_elem_of_In, in_concat in Hp as (l & Hl & Hp%list_elem_of_In).
  apply list_elem_of_In, list_elem_of_fmap in Hl as (c & -> & Hc).
  apply list_elem_of_lookup in Hc as [j Hj].
  destruct (tiles_depth idf bs j c Ht Hj) as (_ & _ & _ & _ & Hn & _).
  rewrite (block_end_depth idf bs j c Ht Hj), Forall_forall in Hn. destruct (Hn p Hp) as [Hw Hpr].
  pose proof (findBucket_unique idf bs i b _ Ht Hw Hi Hr) as <-.
  pose proof (findBucket_unique idf bs j c _ Ht Hw Hj Hpr) as <-. by simplify_eq.
Qed.

(** Handing the nodes out again does not touch the cached nodes. *)
Lemma reassign_caches w l bs : b_cached <$> fold_left (reassign w) l bs = b_cached <$> bs.
Proof.
  revert bs. induction l as [|p l IH]; intros bs; cbn [fold_left]; [done|]. rewrite IH.
  unfold reassign. case_match eqn:E; [|done]. rewrite list_fmap_insert.
  apply list_insert_id. by rewrite list_lookup_fmap, E.
Qed.

Section onNewNode.
Context (sendPing : ptr -> World -> World) `{!PingEngine sendPing}.

Lemma ping_dubious_id now l w d q : id_of (ping_dubious sendPing now l w d).2 q = id_of w q.
Proof.
  revert d. induction l as [|n l IH]; intros d; cbn; [done|].
  repeat case_match; cbn; auto.
Qed.

Lemma sendCachedPing_ok b w :
  (forall q, id_of (sendCachedPing sendPing b w).2 q = id_of w q) /\
  b_nodes (sendCachedPing sendPing b w).1 = b_nodes b /\
  b_first (sendCachedPing sendPing b w).1 = b_first b /\
  b_cached (sendCachedPing sendPing b w).1 = None.
Proof. unfold sendCachedPing. case_match; split_and!; try done. intros. cbn. apply sendPing_id. Qed.

Lemma table_ok_insert idf bs i b b' :
  table_ok idf bs -> bs !! i = Some b -> b_first b' = b_first b ->
  Forall (fun p => wf_hash HASH_LEN (idf p) /\ be_Z (b_first b) <= be_Z (idf p) < block_end bs i)
         (b_nodes b') ->
  Z.of_nat (length (b_nodes b')) <= TARGET_NODES ->
  table_ok idf (<[i := b']> bs).
Proof.
  intros [Ht Hsz] Hi Hf Hn Hlen. split; [|by apply Forall_insert].
  eapply tiles_insert; [done..|]. by rewrite (block_end_depth idf bs i b Ht Hi).
Qed.

Lemma table_ok_bucket idf bs i b :
  table_ok idf bs -> bs !! i = Some b ->
  Forall (fun p => wf_hash HASH_LEN (idf p) /\ be_Z (b_first b) <= be_Z (idf p) < block_end bs i)
         (b_nodes b) /\ Z.of_nat (length (b_nodes b)) <= TARGET_NODES.
Proof.
  intros [Ht Hsz] Hi. destruct (tiles_depth idf bs i b Ht Hi) as (_ & _ & _ & _ & Hn & _).
  rewrite (block_end_depth idf bs i b Ht Hi) in Hn. split; [done|].
  rewrite Forall_lookup in Hsz. by eapply Hsz.
Qed.

Lemma ids_ext w w' (l : list ptr) :
  (forall q, id_of w q = id_of w' q) -> id_of w <$> l = id_of w' <$> l.
Proof. intros H. by apply list_fmap_ext. Qed.

(** What an insertion does to the nodes of the table, [w] being the world it leaves. *)
Definition inserted (w : World) (node : ptr) (id : Hash) (confirm : Z) (bs bs' : list Bucket)
    (r : bool) : Prop :=
  if r then
    ~ node ∈ all_nodes bs /\
    ((** the bucket had room *)
     all_nodes bs' ≡ₚ node :: all_nodes bs \/
     (** or the node took the place of one expired node of its bucket, *)
     (exists e rest b, all_nodes bs ≡ₚ e :: rest /\ all_nodes bs' ≡ₚ node :: rest /\
        on_node isExpired w e = true /\ findBucket bs' (id_of w e) = findBucket bs' id /\
        bs' !! findBucket bs' id = Some b /\ Z.of_nat (length (b_nodes b)) = TARGET_NODES) \/
     (** or the bucket is full, and the node is cached, unless it is unconfirmed and another
         node was cached already *)
     (all_nodes bs' ≡ₚ all_nodes bs /\
      exists b, bs' !! findBucket bs' id = Some b /\
        Z.of_nat (length (b_nodes b)) = TARGET_NODES /\
        (b_cached b = Some node \/
         confirm = 0 /\ exists b0 c, bs !! findBucket bs id = Some b0 /\
           b_cached b0 = Some c /\ b_cached b = Some c)))
  else node ∈ all_nodes bs /\ all_nodes bs' ≡ₚ all_nodes bs.

Lemma inserted_perm w node id confirm bs1 bs2 bs' r :
  all_nodes bs1 ≡ₚ all_nodes bs2 ->
  (forall b2 c, bs2 !! findBucket bs2 id = Some b2 -> b_cached b2 = Some c ->
     exists b1, bs1 !! findBucket bs1 id = Some b1 /\ b_cached b1 = Some c) ->
  inserted w node id confirm bs2 bs' r -> inserted w node id confirm bs1 bs' r.
Proof.
  intros Hp Hc. unfold inserted. destruct r; [|by rewrite Hp].
  intros [H0 H]. split; [by rewrite Hp|]. destruct H as [H|[(e & rest & b & H1 & H)|[H1 (b & H2 & H3 & H)]]].
  - left. by rewrite Hp.
  - right; left. exists e, rest, b. by rewrite Hp.
  - right; right. split; [by rewrite Hp|]. exists b. split_and!; [done..|].
    destruct H as [|(? & b0 & c & Hb & Hbc & ?)]; [by left|right]. split; [done|].
    destruct (Hc b0 c Hb Hbc) as (b1 & ? & ?). by exists b1, c.
Qed.

Lemma all_nodes_insert_same bs i b b' :
  bs !! i = Some b -> b_nodes b' = b_nodes b -> all_nodes (<[i := b']> bs) ≡ₚ all_nodes bs.
Proof.
  intros Hi Hn. rewrite (all_nodes_insert bs i b b' Hi), (all_nodes_lookup bs i b Hi). by rewrite Hn.
Qed.

(** A bucket that gets a new list of nodes. *)
Lemma put_nodes_ok w node bs i b l :
  table_ok (id_of w) bs -> bs !! i = Some b -> wf_hash HASH_LEN (id_of w node) ->
  be_Z (b_first b) <= be_Z (id_of w node) < block_end bs i ->
  (forall p, p ∈ l -> p = node \/ p ∈ b_nodes b) ->
  Z.of_nat (length l) <= TARGET_NODES ->
  table_ok (id_of w) (<[i := b_set_nodes l b]> bs) /\
  (<[i := b_set_nodes l b]> bs) !! i = Some (b_set_nodes l b) /\
  (forall q, q ∈ l -> findBucket (<[i := b_set_nodes l b]> bs) (id_of w q) = i) /\
  (forall q, q ∈ b_nodes b -> findBucket (<[i := b_set_nodes l b]> bs) (id_of w q) = i).
Proof.
  intros Hok Hi Hid Hr Hsub Hlen. destruct (table_ok_bucket _ _ _ _ Hok Hi) as [Hn _].
  rewrite Forall_forall in Hn. set (b' := b_set_nodes l b).
  assert (table_ok (id_of w) (<[i := b']> bs)) as Hok'.
  { eapply table_ok_insert; [done..| |done]. cbn. apply Forall_forall. intros p Hp.
    destruct (Hsub p Hp) as [-> |Hp']; [by split|by apply Hn]. }
  assert ((<[i := b']> bs) !! i = Some b') as Hi'
    by (apply list_lookup_insert_eq; by eapply lookup_lt_Some).
  assert (block_end (<[i := b']> bs) i = block_end bs i) as He
    by (apply block_end_firsts; by eapply insert_firsts).
  assert (forall q, wf_hash HASH_LEN (id_of w q) /\ be_Z (b_first b) <= be_Z (id_of w q) < block_end bs i ->
    findBucket (<[i := b']> bs) (id_of w q) = i) as Hf.
  { intros q [Hw Hq]. apply (findBucket_unique _ _ i b' _ (proj1 Hok') Hw Hi'). by rewrite He. }
  split_and!; [done..| |]; intros q Hq; apply Hf; [|by apply Hn].
  destruct (Hsub q Hq) as [-> |]; [by split|by apply Hn].
Qed.

(** The bucket has room for the node. *)
Lemma add_node_ok w node confirm bs i b :
  table_ok (id_of w) bs -> bs !! i = Some b -> wf_hash HASH_LEN (id_of w node) ->
  be_Z (b_first b) <= be_Z (id_of w node) < block_end bs i -> ~ node ∈ b_nodes b ->
  Z.of_nat (length (b_nodes b)) < TARGET_NODES ->
  table_ok (id_of w) (<[i := b_set_nodes (node :: b_nodes b) b]> bs) /\
  inserted w node (id_of w node) confirm bs (<[i := b_set_nodes (node :: b_nodes b) b]> bs) true.
Proof.
  intros Hok Hi Hid Hr Hnew Hlen.
  destruct (put_nodes_ok w node bs i b (node :: b_nodes b)) as (Hok' & _);
    [done..|intros p ?%elem_of_cons; done|cbn; lia|].
  split; [done|]. split; [by intros ?%(in_own_bucket _ _ _ _ _ Hok Hi Hr)|]. left.
  by rewrite (all_nodes_insert bs i b _ Hi), (all_nodes_lookup bs i b Hi).
Qed.

(** The node takes the place of an expired one. *)
Lemma replace_node_ok w node confirm bs i b l :
  table_ok (id_of w) bs -> bs !! i = Some b -> wf_hash HASH_LEN (id_of w node) ->
  be_Z (b_first b) <= be_Z (id_of w node) < block_end bs i -> ~ node ∈ b_nodes b ->
  TARGET_NODES <= Z.of_nat (length (b_nodes b)) -> replace_expired w node (b_nodes b) = Some l ->
  table_ok (id_of w) (<[i := b_set_nodes l b]> bs) /\
  inserted w node (id_of w node) confirm bs (<[i := b_set_nodes l b]> bs) true.
Proof.
  intros Hok Hi Hid Hr Hnew Hfull Hrep. destruct (table_ok_bucket _ _ _ _ Hok Hi) as [_ Hcap].
  destruct (replace_expired_spec _ _ _ _ Hrep) as (e & l1 & l2 & He & Hb & ->).
  assert (length (l1 ++ node :: l2) = length (b_nodes b)) as Hl by (rewrite Hb, !length_app; done).
  destruct (put_nodes_ok w node bs i b (l1 ++ node :: l2)) as (Hok' & Hi' & Hf & Hf');
    [done..|rewrite Hb; set_solver|by rewrite Hl|].
  split; [done|]. split; [by intros ?%(in_own_bucket _ _ _ _ _ Hok Hi Hr)|]. right; left.
  rewrite (Hf node) by set_solver.
  exists e, (l1 ++ l2 ++ all_nodes (take i bs) ++ all_nodes (drop (S i) bs)), (b_set_nodes (l1 ++ node :: l2) b).
  rewrite (all_nodes_insert bs i b _ Hi), (all_nodes_lookup bs i b Hi). cbn [b_nodes b_set_nodes].
  rewrite (Hf' e) by (rewrite Hb; set_solver). rewrite Hb, <- !app_assoc. cbn [app].
  split_and!; [by rewrite <- Permutation_middle|by rewrite <- Permutation_middle|done..|].
  rewrite Hl. lia.
Qed.

(** A full bucket of distinct identifiers can be split. *)
Lemma full_bucket_depth idf bs i b :
  table_ok idf bs -> bs !! i = Some b -> NoDup (idf <$> all_nodes bs) ->
  TARGET_NODES <= Z.of_nat (length (b_nodes b)) -> 0 <= depth bs i <= 157.
Proof.
  intros [Ht Hsz] Hi Hnd Hfull. destruct (tiles_depth idf bs i b Ht Hi) as (Hd & _ & _ & _ & Hn & _).
  split; [lia|]. rewrite (all_nodes_lookup bs i b Hi), fmap_app in Hnd.
  apply NoDup_app in Hnd as (Hnd & _ & _).
  pose proof (block_capacity idf _ (160 - depth bs i) _ ltac:(lia) Hnd Hn) as Hcap.
  destruct (Z.le_gt_cases (depth bs i) 157); [done|]. exfalso.
  assert (2 ^ (160 - depth bs i) <= 2 ^ 2) by (apply Z.pow_le_mono_r; lia).
  unfold TARGET_NODES in *. change (2 ^ 2) with 4 in *. lia.
Qed.

(** After a split, an identifier of the old block is in one of the two halves. *)
Lemma split_findBucket w bs i b bs' id :
  table_ok (id_of w) bs -> bs !! i = Some b -> depth bs i < 160 -> wf_hash HASH_LEN id ->
  be_Z (b_first b) <= be_Z id < block_end bs i -> split_bucket w bs i = (true, bs') ->
  depth bs' (findBucket bs' id) = depth bs i + 1 /\
  (findBucket bs' id = i \/ findBucket bs' id = S i).
Proof.
  intros Hok Hi Hd Hid Hr Hsp.
  destruct (split_bucket_ok w bs i b Hok Hi Hd) as
    (bs2 & Hsp' & [Ht' _] & _ & _ & b1 & b2 & E1 & E2 & F1 & F2 & D1 & D2).
  rewrite Hsp in Hsp'. simplify_eq.
  pose proof (block_end_depth _ bs2 i b1 Ht' E1) as B1.
  pose proof (block_end_depth _ bs2 (S i) b2 Ht' E2) as B2.
  destruct Hok as [Ht _]. pose proof (block_end_depth _ bs i b Ht Hi) as B.
  destruct (tiles_depth _ bs i b Ht Hi) as (Hd' & _).
  pose proof (double_block (160 - depth bs i) ltac:(lia)) as Hdb.
  replace (160 - depth bs i - 1) with (160 - (depth bs i + 1)) in Hdb by lia.
  rewrite D1, F1 in B1. rewrite D2, F2 in B2.
  destruct (Z.lt_ge_cases (be_Z id) (block_end bs2 i)).
  - rewrite (findBucket_unique _ bs2 i b1 id Ht' Hid E1) by (rewrite F1; lia). auto.
  - rewrite (findBucket_unique _ bs2 (S i) b2 id Ht' Hid E2) by (rewrite F2; lia). auto.
Qed.

(** The halves of a bucket with nothing cached have nothing cached. *)
Lemma split_caches w bs i b bs' j c :
  bs !! i = Some b -> b_cached b = None -> split_bucket w bs i = (true, bs') ->
  j = i \/ j = S i -> bs' !! j = Some c -> b_cached c = None.
Proof.
  intros Hi Hb Hsp Hj Hc. unfold split_bucket in Hsp. rewrite Hi in Hsp.
  destruct (middle bs i) as [m| | |]; simplify_eq. apply (f_equal (fmap b_cached)) in Hc.
  rewrite <- list_lookup_fmap, reassign_caches, list_lookup_fmap, (lookup_split_table _ _ b) in Hc by done.
  destruct Hj as [-> | ->]; rewrite ?decide_False, ?decide_True in Hc by lia; cbn in Hc; congruence.
Qed.

Lemma insert_ok_same w bs i b b' :
  table_ok (id_of w) bs -> bs !! i = Some b -> b_first b' = b_first b ->
  b_nodes b' = b_nodes b ->
  table_ok (id_of w) (<[i := b']> bs) /\ all_nodes (<[i := b']> bs) ≡ₚ all_nodes bs /\
  (<[i := b']> bs) !! i = Some b' /\ block_end (<[i := b']> bs) i = block_end bs i /\
  (forall j, depth (<[i := b']> bs) j = depth bs j).
Proof.
  intros Hok Hi Hf Hn. destruct (table_ok_bucket _ _ _ _ Hok Hi). split_and!.
  - eapply table_ok_insert; [done..|by rewrite Hn|by rewrite Hn].
  - by apply all_nodes_insert_same with b.
  - apply list_lookup_insert_eq. by eapply lookup_lt_Some.
  - apply block_end_firsts. by eapply insert_firsts.
  - intros j. apply depth_firsts. by eapply insert_firsts.
Qed.

(** A full bucket that remembers a node in its cache slot. *)
Lemma cache_node_ok w node confirm bs i b b' :
  table_ok (id_of w) bs -> bs !! i = Some b -> wf_hash HASH_LEN (id_of w node) ->
  be_Z (b_first b) <= be_Z (id_of w node) < block_end bs i -> ~ node ∈ b_nodes b ->
  TARGET_NODES <= Z.of_nat (length (b_nodes b)) ->
  b' = (if negb (confirm =? 0) || match b_cached b with None => true | _ => false end
        then b_set_cached (Some node) b else b) ->
  table_ok (id_of w) (<[i := b']> bs) /\
  inserted w node (id_of w node) confirm bs (<[i := b']> bs) true.
Proof.
  intros Hok Hi Hid Hr Hnew Hfull Hb'.
  assert (b_first b' = b_first b /\ b_nodes b' = b_nodes b) as [F G] by (subst; by case_match).
  destruct (insert_ok_same w bs i b b' Hok Hi F G) as (Hok' & Hp & Hi' & He & _).
  destruct (table_ok_bucket _ _ _ _ Hok Hi) as [_ Hcap].
  split; [done|]. split; [by intros ?%(in_own_bucket _ _ _ _ _ Hok Hi Hr)|]. right; right.
  split; [done|]. exists b'. rewrite G.
  rewrite (findBucket_unique _ _ i b' _ (proj1 Hok') Hid Hi') by (by rewrite F, He).
  split_and!; [done|lia|]. rewrite (findBucket_unique _ _ i b _ (proj1 Hok) Hid Hi Hr).
  destruct (Z.eqb_spec confirm 0) as [-> |]; cbn in Hb'; [|subst; by left].
  destruct (b_cached b) as [c|] eqn:Ec; subst; [|by left]. right. split; [done|]. by exists b, c.
Qed.

(** The step of [onNewNode] that splits the bucket and tries again. *)
Lemma split_step w1 bs i b id :
  table_ok (id_of w1) bs -> bs !! i = Some b -> NoDup (id_of w1 <$> all_nodes bs) ->
  TARGET_NODES <= Z.of_nat (length (b_nodes b)) -> wf_hash HASH_LEN id ->
  be_Z (b_first b) <= be_Z id < block_end bs i ->
  let '(b', w2) := sendCachedPing sendPing b w1 in
  exists bs', split_bucket w2 (<[i := b']> bs) i = (true, bs') /\
    (forall q, id_of w2 q = id_of w1 q) /\ table_ok (id_of w2) bs' /\
    all_nodes bs' ≡ₚ all_nodes bs /\ depth bs' (findBucket bs' id) = depth bs i + 1 /\
    (forall c, bs' !! findBucket bs' id = Some c -> b_cached c = None).
Proof.
  intros Hok Hi Hnd Hfull Hid Hr. destruct (full_bucket_depth _ _ _ _ Hok Hi Hnd Hfull) as [_ Hd].
  pose proof (sendCachedPing_ok b w1) as (Hids & Hn & Hf & Hc).
  destruct (sendCachedPing sendPing b w1) as [b' w2]. cbn in *.
  assert (table_ok (id_of w2) bs) as Hok2 by (by eapply table_ok_ext; [|exact Hok]).
  destruct (insert_ok_same w2 bs i b b' Hok2 Hi Hf Hn) as (Hok3 & Hp3 & Hi3 & He3 & Hd3).
  destruct (split_bucket_ok w2 _ i b' Hok3 Hi3) as (bs' & Hsp & Hok' & Hp' & _); [rewrite Hd3; lia|].
  destruct (split_findBucket w2 _ i b' bs' id Hok3 Hi3) as [Hdep Hidx];
    [rewrite ?Hd3, ?He3, ?Hf; done || lia..|]. rewrite Hd3 in Hdep.
  exists bs'. split_and!; [done|done|done|by rewrite Hp', Hp3|done|].
  intros c. by eapply split_caches.
Qed.

(** [onNewNode] returns, whatever the network engine does, within as many
    recursive calls as the bucket of the node can be split. *)
Lemma onNewNode_returns fuel node confirm now myid t w :
  table_ok (id_of w) (rt_buckets t) -> wf_hash HASH_LEN (id_of w node) ->
  NoDup (id_of w <$> all_nodes (rt_buckets t)) ->
  160 - depth (rt_buckets t) (findBucket (rt_buckets t) (id_of w node)) < Z.of_nat fuel ->
  exists r t' w', onNewNode sendPing fuel node confirm now myid t w = Some (r, t', w') /\
    table_ok (id_of w') (rt_buckets t') /\ (forall q, id_of w' q = id_of w q) /\
    inserted w' node (id_of w node) confirm (rt_buckets t) (rt_buckets t') r.
Proof.
  revert t w. induction fuel as [|fuel IH]; intros t w Hok Hid Hnd Hfuel.
  { destruct Hok as [Ht _]. destruct (findBucket_block _ _ _ Ht Hid) as (b & Hb & _).
    destruct (tiles_depth _ _ _ _ Ht Hb) as (? & _). lia. }
  cbn [onNewNode]. pose proof Hok as [Ht Hsz].
  destruct (findBucket_block _ _ _ Ht Hid) as (b0 & Hb0 & Hr).
  rewrite (block_end_depth _ _ _ b0 Ht Hb0) in Hr.
  set (i := findBucket (rt_buckets t) (id_of w node)) in *. rewrite Hb0.
  set (b := if confirm =? 2 then b_set_time now b0 else b0).
  assert (b_first b = b_first b0 /\ b_nodes b = b_nodes b0 /\ b_cached b = b_cached b0)
    as (Hbf & Hbn & Hbc) by (unfold b; by case_match).
  destruct (insert_ok_same w _ i b0 b Hok Hb0 Hbf Hbn) as (Hok1 & Hp1 & Hi1 & He1 & Hd1).
  set (bs := <[i := b]> (rt_buckets t)) in *.
  assert (be_Z (b_first b) <= be_Z (id_of w node) < block_end bs i) as Hr1 by (by rewrite He1, Hbf).
  assert (findBucket bs (id_of w node) = i) as Hfi by (by apply (findBucket_unique _ _ _ b _ (proj1 Hok1))).
  assert (forall w' bs' r, inserted w' node (id_of w node) confirm bs bs' r ->
    inserted w' node (id_of w node) confirm (rt_buckets t) bs' r) as Hperm.
  { intros w' bs' r. apply inserted_perm; [done|]. intros b2 c. fold i. rewrite Hfi, Hi1. intros [= <-] Hc.
    exists b0. by rewrite <- Hbc. }
  destruct (existsb (Pos.eqb node) (b_nodes b)) eqn:Eex.
  { eexists _, _, _. split; [done|]. cbn [rt_buckets inserted]. split_and!; [done|done| |done].
    apply existsb_exists in Eex as (q & Hq & Eq). apply Pos.eqb_eq in Eq as ->.
    rewrite <- Hp1, (all_nodes_lookup bs i b Hi1), elem_of_app. left. by apply list_elem_of_In. }
  assert (~ node ∈ b_nodes b) as Hnew.
  { intros Hin%list_elem_of_In. apply not_true_iff_false in Eex. apply Eex, existsb_exists.
    exists node. split; [done|apply Pos.eqb_refl]. }
  assert (NoDup (id_of w <$> all_nodes bs)) as Hnd1 by (by rewrite Hp1).
  destruct (TARGET_NODES <=? Z.of_nat (length (b_nodes b))) eqn:Efull; zb.
  2: { eexists _, _, _. split; [done|]. cbn [rt_buckets].
       destruct (add_node_ok w node confirm bs i b) as [? ?]; [done..|].
       split; [done|]. split; [done|]. by apply (Hperm w _ true). }
  destruct (replace_expired w node (b_nodes b)) as [l|] eqn:Erep.
  { eexists _, _, _. split; [done|]. cbn [rt_buckets].
    destruct (replace_node_ok w node confirm bs i b l) as [? ?]; [done..|]. split; [done|]. split; [done|]. by apply (Hperm w _ true). }
  pose proof (ping_dubious_id now (b_nodes b) w false) as Hpid.
  destruct (ping_dubious sendPing now (b_nodes b) w false) as [dub w1]. cbn in Hpid.
  assert (table_ok (id_of w1) bs) as Hok2 by (by eapply table_ok_ext; [|exact Hok1]).
  assert (NoDup (id_of w1 <$> all_nodes bs)) as Hnd2 by (by rewrite (ids_ext w1 w)).
  case_match.
  - pose proof (split_step w1 bs i b (id_of w node) Hok2 Hi1 Hnd2 Efull Hid Hr1) as Hstep.
    destruct (sendCachedPing sendPing b w1) as [b' w2].
    destruct Hstep as (bs' & -> & Hids & Hok' & Hp' & Hd' & Hnc).
    destruct (IH (mkRoutingTable bs' (if contains bs i myid then now else rt_grow_time t)
                    (rt_is_client t)) w2) as (r & t' & w' & -> & ? & Hw' & Hins).
    + done.
    + by rewrite Hids, Hpid.
    + cbn. by rewrite Hp', (ids_ext w2 w1).
    + cbn [rt_buckets]. rewrite Hids, Hpid, Hd', Hd1. lia.
    + eexists _, _, _. split; [done|]. split_and!; [done| |].
      * intros q. by rewrite Hw', Hids, Hpid.
      * rewrite Hids, Hpid in Hins. cbn [rt_buckets] in Hins. apply Hperm.
        eapply inserted_perm; [|..|exact Hins]; [by rewrite Hp'|].
        intros b2 c Hb2 Hc. rewrite (Hnc b2 Hb2) in Hc. done.
  - edestruct (cache_node_ok w1 node confirm bs i b) as [Hok3 Hins];
      [done|done|by rewrite Hpid|by rewrite Hpid|done|done|reflexivity|]. rewrite Hpid in Hins. apply Hperm in Hins.
    case_match; eexists _, _, _; (split; [done|]); cbn [rt_buckets]; split; [done| |done|]; by split.
Qed.
End onNewNode.

(** ** Closest nodes *)

Section closest.
Context (w : World) (id : Hash) (now : Z) (Hid : wf_hash HASH_LEN id).

Definition xd (p : ptr) : Z := xor_dist id (id_of w p).
Definition closer (p q : ptr) : Prop := xd p <= xd q.
Definition good (p : ptr) : bool := on_node (isGood now) w p.

#[local] Instance closer_trans : Transitive closer.
Proof. intros x y z. unfold closer. lia. Qed.

Lemma xorCmp_xd p q :
  wf_hash HASH_LEN (id_of w p) -> wf_hash HASH_LEN (id_of w q) ->
  (xorCmp id (id_of w p) (id_of w q) <? 0) = (xd p <? xd q).
Proof using Hid.
  intros [Lp Wp] [Lq Wq]. destruct Hid as [L W]. rewrite xorCmp_dist by (done || congruence).
  unfold xd, Z.ltb. by destruct (xor_dist id (id_of w p) ?= xor_dist id (id_of w q)).
Qed.

Definition ids_wf (l : list ptr) : Prop := Forall (fun p => wf_hash HASH_LEN (id_of w p)) l.

Lemma insert_closer_perm p l : insert_closer w id p l ≡ₚ p :: l.
Proof.
  induction l as [|q l IH]; cbn; [done|]. case_match; [done|]. rewrite IH. apply Permutation_swap.
Qed.

Lemma insert_closer_sorted p l :
  wf_hash HASH_LEN (id_of w p) -> ids_wf l -> StronglySorted closer l ->
  StronglySorted closer (insert_closer w id p l).
Proof using Hid.
  intros Hp Hl Hs. induction Hs as [|q l Hs IH Hall]; cbn; [repeat constructor|].
  inversion_clear Hl as [|? ? Hq Hl']. rewrite xorCmp_xd by done.
  destruct (Z.ltb_spec (xd p) (xd q)).
  - constructor; [by constructor|]. constructor; [unfold closer; lia|].
    eapply Forall_impl; [exact Hall|]. unfold closer. intros. lia.
  - constructor; [auto|]. rewrite insert_closer_perm. constructor; [unfold closer; lia|done].
Qed.

Lemma sortedBucketInsert_perm b acc :
  sortedBucketInsert w id now b acc ≡ₚ List.filter good (b_nodes b) ++ acc.
Proof.
  unfold sortedBucketInsert. revert acc. induction (b_nodes b) as [|p l IH]; intros acc; cbn; [done|].
  rewrite IH. fold (good p). destruct (good p); [|done]. rewrite insert_closer_perm.
  by rewrite <- Permutation_middle.
Qed.

Lemma sortedBucketInsert_sorted b acc :
  ids_wf (b_nodes b) -> ids_wf acc -> StronglySorted closer acc ->
  StronglySorted closer (sortedBucketInsert w id now b acc).
Proof using Hid.
  unfold sortedBucketInsert. intros Hb. revert acc.
  induction Hb as [|p l Hp Hl IH]; intros acc Hacc Hs; cbn; [done|].
  apply IH; case_match; try done; [|by apply insert_closer_sorted].
  unfold ids_wf. rewrite insert_closer_perm. by constructor.
Qed.

Definition goods (bs : list Bucket) : list ptr := List.filter good (all_nodes bs).

Lemma goods_cons b bs : goods (b :: bs) = List.filter good (b_nodes b) ++ goods bs.
Proof. unfold goods, all_nodes. cbn. apply List.filter_app. Qed.

Definition table_ids_wf (bs : list Bucket) : Prop := Forall (fun b => ids_wf (b_nodes b)) bs.

Lemma ids_wf_filter b l : ids_wf (b_nodes b) -> ids_wf l ->
  ids_wf (sortedBucketInsert w id now b l).
Proof.
  unfold ids_wf. intros Hb Hl. rewrite sortedBucketInsert_perm. apply Forall_app; split; [|done].
  rewrite Forall_forall in Hb |- *. intros p Hp. apply Hb.
  apply list_elem_of_In in Hp. apply filter_In in Hp as [Hp _]. by apply list_elem_of_In.
Qed.

(** The loop visits both directions in lock step and stops when enough nodes are
    collected or all buckets have been seen. *)
Lemma closest_loop_spec fuel count itn itp acc :
  (length itn <= fuel)%nat -> (length itp <= fuel)%nat ->
  table_ids_wf itn -> table_ids_wf itp -> ids_wf acc -> StronglySorted closer acc ->
  exists nodes rest, closest_loop fuel w id now count itn itp acc = Some nodes /\
    StronglySorted closer nodes /\ ids_wf nodes /\
    nodes ++ rest ≡ₚ acc ++ goods itn ++ goods itp /\ (forall p, p ∈ acc -> p ∈ nodes) /\
    (Z.of_nat (length acc) < count -> forall b r, itn = b :: r ->
       forall p, p ∈ List.filter good (b_nodes b) -> p ∈ nodes) /\
    (Z.of_nat (length nodes) < count -> rest = []).
Proof using Hid.
  revert itn itp acc. induction fuel as [|fuel IH]; intros itn itp acc Hn Hp Wn Wp Wa Hs.
  { destruct itn, itp; cbn in *; try lia. rewrite andb_false_r. exists acc, []. by rewrite !app_nil_r. }
  cbn [closest_loop]. destruct (Z.of_nat (length acc) <? count) eqn:Ec; cbn [andb]; zb.
  2: { exists acc, (goods itn ++ goods itp). split_and!; try done; lia. }
  destruct itn as [|b itn], itp as [|c itp]; cbn [negb].
  { exists acc, []. by rewrite !app_nil_r. }
  all: cbn in Hn, Hp.
  - inversion_clear Wp as [|? ? Hc Wp'].
    destruct (IH [] itp (sortedBucketInsert w id now c acc)) as (nodes & rest & -> & ? & ? & Hperm & Hin & _ & ?);
      [cbn; lia|lia|done|done|by apply ids_wf_filter|by apply sortedBucketInsert_sorted|].
    exists nodes, rest. split_and!; try done.
    + rewrite Hperm, sortedBucketInsert_perm, goods_cons. cbn. solve_Permutation.
    + intros p Hpa. apply Hin. rewrite sortedBucketInsert_perm. set_solver.
  - inversion_clear Wn as [|? ? Hb Wn'].
    destruct (IH itn [] (sortedBucketInsert w id now b acc)) as (nodes & rest & -> & ? & ? & Hperm & Hin & _ & ?);
      [lia|cbn; lia|done|done|by apply ids_wf_filter|by apply sortedBucketInsert_sorted|].
    exists nodes, rest. split_and!; try done.
    + rewrite Hperm, sortedBucketInsert_perm, goods_cons. cbn. solve_Permutation.
    + intros p Hpa. apply Hin. rewrite sortedBucketInsert_perm. set_solver.
    + intros _ b' r [= -> ->] p Hpb. apply Hin. rewrite sortedBucketInsert_perm. set_solver.
  - inversion_clear Wn as [|? ? Hb Wn']. inversion_clear Wp as [|? ? Hc Wp'].
    destruct (IH itn itp (sortedBucketInsert w id now c (sortedBucketInsert w id now b acc)))
      as (nodes & rest & -> & ? & ? & Hperm & Hin & _ & ?);
      [lia|lia|done|done|by repeat apply ids_wf_filter| |].
    { apply sortedBucketInsert_sorted; [done|by apply ids_wf_filter|by apply sortedBucketInsert_sorted]. }
    exists nodes, rest. split_and!; try done.
    + rewrite Hperm, !sortedBucketInsert_perm, !goods_cons. solve_Permutation.
    + intros p Hpa. apply Hin. rewrite !sortedBucketInsert_perm. set_solver.
    + intros _ b' r [= -> ->] p Hpb. apply Hin. rewrite !sortedBucketInsert_perm. set_solver.
Qed.
End closest.

Lemma tiles_ids_wf w lo bs hi : tiles (id_of w) lo bs hi -> table_ids_wf w bs.
Proof.
  induction 1; constructor; [|done]. eapply Forall_impl; [done|]. by intros p [? _].
Qed.

Lemma StronglySorted_take {A} (R : A -> A -> Prop) n l :
  StronglySorted R l -> StronglySorted R (take n l) /\
  forall x y, x ∈ take n l -> y ∈ drop n l -> R x y.
Proof.
  intros Hs. revert n. induction Hs as [|a l Hs IH Hall]; intros [|n]; cbn; try (split; [constructor|set_solver]).
  destruct (IH n) as [H1 H2]. rewrite Forall_forall in Hall. split.
  - constructor; [done|]. apply Forall_forall. intros x Hx. apply Hall.
    rewrite <- (take_drop n l). set_solver.
  - intros x y [-> |Hx]%elem_of_cons Hy; [|by apply H2]. apply Hall.
    rewrite <- (take_drop n l). set_solver.
Qed.

(** ** Random identifiers *)

Lemma shiftr_byte x r : is_byte x -> 0 <= r < 8 -> 0 <= Z.shiftr x r < 2 ^ (8 - r).
Proof.
  unfold is_byte. intros Hx Hr. rewrite Z.shiftr_div_pow2 by lia. split.
  - apply Z.div_pos; [lia|apply pow2_pos; lia].
  - apply Z.div_lt_upper_bound; [apply pow2_pos; lia|]. rewrite <- Z.pow_add_r by lia.
    replace (r + (8 - r)) with 8 by lia. lia.
Qed.

(** The byte [randomId] builds at the boundary keeps the high [r] bits of the
    prefix and draws the others, when the low bits of the prefix are clear. *)
Lemma random_boundary_byte x y r :
  is_byte x -> is_byte y -> 0 <= r < 8 -> x mod 2 ^ (8 - r) = 0 ->
  let z := u8 (Z.lor (u8 (Z.land x (Z.shiftr 65280 r))) (Z.shiftr y r)) in
  is_byte z /\ x <= z < x + 2 ^ (8 - r).
Proof.
  intros Hx Hy Hr Hm. cbn zeta. pose proof (shiftr_byte y r Hy Hr) as Hs.
  set (k := 8 - r) in *. assert (0 < k <= 8) by lia.
  assert (Z.land x (Z.shiftr 65280 r) = x) as ->.
  { apply Z.bits_inj'. intros i Hi. rewrite Z.land_spec, Z.shiftr_spec by lia.
    destruct (Z.lt_ge_cases i k).
    - assert (Z.testbit x i = false) as ->; [|done].
      rewrite <- (Z.mod_pow2_bits_low x k) by lia. rewrite Hm. apply Z.bits_0.
    - destruct (Z.lt_ge_cases i 8).
      + assert (Z.testbit 65280 (i + r) = true) as ->; [|by rewrite andb_true_r].
        change 65280 with (255 * 2 ^ 8 + 0). rewrite testbit_concat_high by lia.
        assert (0 <= i + r - 8 < 8) as Hb by lia. change 255 with (Z.ones 8).
        by apply Z.ones_spec_low.
      + unfold is_byte in Hx. by rewrite (testbit_high 8 x i) by lia. }
  unfold is_byte in Hx. rewrite (wrap_small 8 x) by (cbn; lia).
  assert (Z.lor x (Z.shiftr y r) = x + Z.shiftr y r) as ->.
  { rewrite Z.add_nocarry_lxor.
    - apply Z.bits_inj'. intros i Hi. rewrite Z.lor_spec, Z.lxor_spec.
      destruct (Z.lt_ge_cases i k).
      + assert (Z.testbit x i = false) as ->; [|by destruct (Z.testbit _ _)].
        rewrite <- (Z.mod_pow2_bits_low x k) by lia. rewrite Hm. apply Z.bits_0.
      + rewrite (testbit_high k (Z.shiftr y r) i) by lia. by destruct (Z.testbit _ _).
    - apply Z.bits_inj'. intros i Hi. rewrite Z.land_spec, Z.bits_0.
      destruct (Z.lt_ge_cases i k).
      + assert (Z.testbit x i = false) as ->; [|done].
        rewrite <- (Z.mod_pow2_bits_low x k) by lia. rewrite Hm. apply Z.bits_0.
      + rewrite (testbit_high k (Z.shiftr y r) i) by lia. by rewrite andb_false_r. }
  assert (x + Z.shiftr y r < 256) as Hlt.
  { apply Z.mod_divide in Hm as [q Hq]; [|pose proof (pow2_pos k); lia].
    assert (2 ^ 8 = 2 ^ (8 - k) * 2 ^ k) as E8 by (rewrite <- Z.pow_add_r by lia; f_equal; lia).
    change (2 ^ 8) with 256 in E8. assert (q < 2 ^ (8 - k)) by nia. nia. }
  rewrite wrap_small by (cbn; lia). unfold is_byte. lia.
Qed.

Lemma lookup_split_hash (h : Hash) k :
  (k < length h)%nat -> h = take k h ++ nth k h 0 :: drop (S k) h.
Proof.
  intros [x Hx]%lookup_lt_is_Some_2. rewrite nth_lookup, Hx. cbn. symmetry.
  by apply take_drop_middle.
Qed.

(** Low bits of the boundary byte and all bytes after it are clear. *)
Lemma aligned_first h k r :
  wf_hash HASH_LEN h -> (k < HASH_LEN)%nat -> 0 <= r < 8 ->
  be_Z h mod 2 ^ (160 - (8 * Z.of_nat k + r)) = 0 ->
  nth k h 0 mod 2 ^ (8 - r) = 0 /\ be_Z (drop (S k) h) = 0.
Proof.
  intros [L W] Hk Hr Hm. set (m := 8 * Z.of_nat (HASH_LEN - S k)).
  assert (160 - (8 * Z.of_nat k + r) = m + (8 - r)) as E by (unfold m, HASH_LEN in *; lia).
  rewrite E, Z.pow_add_r in Hm by (unfold m; lia).
  pose proof (lookup_split_hash h k ltac:(lia)) as Hsp.
  assert (wf_bytes (drop (S k) h)) as Wd by (by apply Forall_drop).
  pose proof (be_Z_range _ Wd) as Rd. rewrite length_drop, L, pow256 in Rd. fold m in Rd.
  assert (be_Z h = (be_Z (take k h) * 256 + nth k h 0) * 2 ^ m + be_Z (drop (S k) h)) as Hb.
  { rewrite Hsp at 1. rewrite be_Z_app. cbn [be_Z length].
    rewrite length_drop, L, !pow256, Nat2Z.inj_succ. fold m.
    replace (8 * Z.succ (Z.of_nat (HASH_LEN - S k))) with (8 + m) by (unfold m; lia).
    rewrite Z.pow_add_r by (unfold m; lia). change (2 ^ 8) with 256. ring. }
  pose proof (pow2_pos m ltac:(unfold m; lia)). pose proof (pow2_pos (8 - r) ltac:(lia)).
  apply Z.mod_divide in Hm as [q Hq]; [|nia]. rewrite Hb in Hq.
  assert (be_Z (drop (S k) h) = 0) as E0.
  { assert (be_Z (drop (S k) h) mod 2 ^ m = 0) as Hz; [|rewrite Z.mod_small in Hz by lia; done].
    replace (be_Z (drop (S k) h)) with
      ((q * 2 ^ (8 - r) - (be_Z (take k h) * 256 + nth k h 0)) * 2 ^ m) by lia.
    apply Z.mod_mul. lia. }
  split; [|done]. rewrite E0 in Hq.
  assert (nth k h 0 = (q - be_Z (take k h) * 2 ^ r) * 2 ^ (8 - r)) as ->; [|apply Z.mod_mul; lia].
  assert (256 = 2 ^ r * 2 ^ (8 - r)) as E8 by (rewrite <- Z.pow_add_r by lia; by replace (r + (8 - r)) with 8 by lia).
  assert (be_Z (take k h) * 256 + nth k h 0 = q * 2 ^ (8 - r)) as Hc.
  { apply (Z.mul_reg_r _ _ (2 ^ m)); [lia|]. rewrite Z.add_0_r in Hq. rewrite Hq. ring. }
  rewrite E8 in Hc. lia.
Qed.

Lemma be_Z_random_id (h : Hash) k z (rest : bytes) r :
  wf_hash HASH_LEN h -> (k < HASH_LEN)%nat -> 0 <= r < 8 ->
  be_Z h mod 2 ^ (160 - (8 * Z.of_nat k + r)) = 0 ->
  is_byte z -> nth k h 0 <= z < nth k h 0 + 2 ^ (8 - r) ->
  wf_bytes rest -> length rest = (HASH_LEN - k - 1)%nat ->
  wf_hash HASH_LEN (take k h ++ [z] ++ rest) /\
  be_Z h <= be_Z (take k h ++ [z] ++ rest) < be_Z h + 2 ^ (160 - (8 * Z.of_nat k + r)).
Proof.
  intros Hwf Hk Hr Hm Hz Hzr Wr Lr. pose proof Hwf as [L W].
  destruct (aligned_first h k r Hwf Hk Hr Hm) as [_ Hz0].
  pose proof (lookup_split_hash h k ltac:(lia)) as Hsp.
  assert (be_Z h = (be_Z (take k h) * 256 + nth k h 0) * 256 ^ Z.of_nat (length rest)) as Hb.
  { rewrite Hsp at 1. rewrite be_Z_app. cbn [be_Z length]. rewrite Hz0, length_drop, L.
    replace (HASH_LEN - S k)%nat with (length rest) by lia.
    rewrite Nat2Z.inj_succ, Z.pow_succ_r by lia. ring. }
  assert (be_Z (take k h ++ [z] ++ rest) =
          (be_Z (take k h) * 256 + z) * 256 ^ Z.of_nat (length rest) + be_Z rest) as Hb'.
  { rewrite be_Z_app. cbn [app be_Z length]. rewrite Nat2Z.inj_succ, Z.pow_succ_r by lia. ring. }
  pose proof (be_Z_range rest Wr) as R.
  assert (2 ^ (160 - (8 * Z.of_nat k + r)) = 2 ^ (8 - r) * 256 ^ Z.of_nat (length rest)) as ->.
  { rewrite pow256, <- Z.pow_add_r by lia. f_equal. unfold HASH_LEN in *. lia. }
  split.
  - split; [rewrite !length_app, length_take; cbn; unfold HASH_LEN in *; lia|].
    apply Forall_app. split; [by apply Forall_take|]. by constructor.
  - rewrite Hb, Hb'. nia.
Qed.

(** ** Random nodes *)

Definition eligible (w : World) (prioritize : bool) (p : ptr) : bool :=
  negb (prioritize && on_node isExpired w p).

Lemma randomNode_loop_spec w prioritize l nn :
  0 <= nn < Z.of_nat (length (List.filter (eligible w prioritize) l)) ->
  exists p, randomNode_loop w prioritize nn l = Some p /\ p ∈ l /\
    eligible w prioritize p = true /\
    List.filter (eligible w prioritize) l !! Z.to_nat nn = Some p.
Proof.
  revert nn. induction l as [|q l IH]; intros nn Hn; cbn in *; [lia|].
  fold (eligible w prioritize q) in *. destruct (eligible w prioritize q) eqn:Eq.
  - cbn in Hn. destruct (Z.eqb_spec nn 0) as [->|].
    + exists q. split_and!; try done. apply elem_of_cons. by left.
    + destruct (IH (nn - 1)) as (p & ? & ? & ? & Hl); [lia|]. exists p. split_and!; try done.
      * apply elem_of_cons. by right.
      * replace (Z.to_nat nn) with (S (Z.to_nat (nn - 1))) by lia. done.
  - destruct (IH nn) as (p & ? & ? & ? & Hl); [lia|]. exists p. split_and!; try done.
    apply elem_of_cons. by right.
Qed.

Lemma eligible_count w l :
  (length (List.filter (eligible w true) l) + length (List.filter (on_node isExpired w) l) =
   length l)%nat /\ List.filter (eligible w false) l = l.
Proof.
  split.
  - induction l as [|q l IH]; [done|]. cbn. unfold eligible at 1. cbn.
    destruct (on_node isExpired w q); cbn; lia.
  - apply filter_all_in, Forall_true. done.
Qed.

Definition prioritized (w : World) (l : list ptr) : bool :=
  Z.of_nat (length (List.filter (on_node isExpired w) l)) <? Z.of_nat (length l).

(** [randomNode] draws the rank of an eligible node. *)
Lemma randomNode_eq (w : World) (draw : Z -> Z) (b : Bucket) :
  b_nodes b <> [] ->
  let el := List.filter (eligible w (prioritized w (b_nodes b))) (b_nodes b) in
  (0 < length el)%nat /\
  randomNode w draw b =
    match randomNode_loop w (prioritized w (b_nodes b)) (draw (Z.of_nat (length el) - 1)) (b_nodes b) with
    | Some n => Some n
    | None => last (b_nodes b)
    end.
Proof.
  intros Hne. cbn zeta. unfold randomNode.
  destruct (b_nodes b) as [|x l] eqn:E; [done|]. rewrite <- E. fold (prioritized w (b_nodes b)).
  destruct (eligible_count w (b_nodes b)) as [Hc1 Hc2].
  assert (0 < length (b_nodes b))%nat by (rewrite E; cbn; lia).
  destruct (prioritized w (b_nodes b)) eqn:Ep; unfold prioritized in Ep; zb; rewrite ?Hc2.
  - split; [lia|]. by replace (Z.of_nat (length (List.filter (eligible w true) (b_nodes b))) - 1) with
      (Z.of_nat (length (b_nodes b)) - Z.of_nat (length (List.filter (on_node isExpired w) (b_nodes b))) - 1)
      by lia.
  - done.
Qed.

Lemma prioritized_spec w l :
  prioritized w l = true <-> exists q, q ∈ l /\ on_node isExpired w q = false.
Proof.
  destruct (eligible_count w l) as [Hc _]. unfold prioritized. rewrite Z.ltb_lt. split.
  - intros Hlt. destruct (List.filter (eligible w true) l) as [|q r] eqn:E; [cbn in Hc; lia|].
    assert (In q (List.filter (eligible w true) l)) as [Hq Hel]%filter_In by (rewrite E; by left).
    exists q. split; [by apply list_elem_of_In|]. unfold eligible in Hel. cbn in Hel. by zb.
  - intros (q & Hq & Hqe). assert (In q (List.filter (eligible w true) l)) as Hin.
    { apply filter_In. split; [by apply list_elem_of_In|]. unfold eligible. by rewrite Hqe. }
    destruct (List.filter (eligible w true) l); [done|]. cbn in Hc. lia.
Qed.

(** ** Connectivity changes *)

Definition reset_time (w : World) (p : ptr) : World :=
  match w_nodes w !! p with
  | Some n => w_upd_node p (setTime time_min n) w
  | None => w
  end.

Lemma reset_time_nodes l w p n :
  w_nodes (fold_left reset_time l w) !! p = Some n ->
  exists n0, w_nodes w !! p = Some n0 /\ n = if decide (p ∈ l) then setTime time_min n0 else n0.
Proof.
  revert w. induction l as [|q l IH]; intros w Hn; cbn in Hn.
  { exists n. by rewrite decide_False by apply not_elem_of_nil. }
  destruct (IH _ Hn) as (n0 & H0 & ->). unfold reset_time in H0.
  destruct (w_nodes w !! q) as [nq|] eqn:Eq; cbn in H0.
  - destruct (decide (p = q)) as [->|Hne].
    + rewrite lookup_insert_eq in H0. simplify_eq. exists nq. split; [done|].
      rewrite (decide_True (P := q ∈ q :: l)) by apply elem_of_cons, or_introl, eq_refl.
      by case_decide.
    + rewrite lookup_insert_ne in H0 by done. exists n0. split; [done|].
      assert (p ∈ q :: l <-> p ∈ l) as Hiff by (rewrite elem_of_cons; naive_solver).
      destruct (decide (p ∈ l)); [rewrite decide_True|rewrite decide_False]; by rewrite ?Hiff.
  - exists n0. split; [done|]. assert (p <> q) by congruence.
    assert (p ∈ q :: l <-> p ∈ l) as Hiff by (rewrite elem_of_cons; naive_solver).
    destruct (decide (p ∈ l)); [rewrite decide_True|rewrite decide_False]; by rewrite ?Hiff.
Qed.

Lemma connectivity_fold bs acc w :
  fold_left (fun '(acc, w) b => let '(b', w') := bucket_connectivityChanged b w in
                                (acc ++ [b'], w')) bs (acc, w) =
  (acc ++ (b_set_time time_min <$> bs), fold_left reset_time (all_nodes bs) w).
Proof.
  revert acc w. induction bs as [|b bs IH]; intros acc w; cbn; [by rewrite app_nil_r|].
  rewrite IH, <- app_assoc. f_equal. unfold all_nodes. cbn. by rewrite fold_left_app.
Qed.

Lemma goods_rev w now bs : goods w now (rev bs) ≡ₚ goods w now bs.
Proof.
  induction bs as [|b bs IH]; [done|]. cbn [rev]. rewrite goods_cons. unfold goods in *.
  rewrite all_nodes_app, List.filter_app, IH. unfold all_nodes at 2. cbn.
  rewrite app_nil_r. apply Permutation_app_comm.
Qed.

Lemma goods_split w now i bs :
  goods w now (drop i bs) ++ goods w now (take i bs) ≡ₚ goods w now bs.
Proof.
  rewrite Permutation_app_comm. unfold goods.
  by rewrite <- List.filter_app, <- all_nodes_app, take_drop.
Qed.

(** ** A sample table

    Nine nodes whose identifiers start with the bytes 0, 28, ..., 224; the first
    eight fill the single bucket of a new table. *)

Definition sample_id (b : Z) : Hash := b :: replicate 19 0.

Definition sample_nodes_world : World :=
  mkWorld (list_to_map ((fun i => (Pos.of_nat (S i),
             setTime 0 (n_set_times 0 0 false (Node_make (sample_id (28 * Z.of_nat i)) [] false 0))))
             <$> seq 0 9)) ∅ [].

Definition sample_table : RoutingTable :=
  mkRoutingTable [mkBucket 2 (Hash_zero HASH_LEN) 0 (Pos.of_nat <$> seq 1 8) None] 0 false.

Lemma table_ok_single idf b :
  b_first b = Hash_zero HASH_LEN -> Forall (fun p => wf_hash HASH_LEN (idf p)) (b_nodes b) ->
  Z.of_nat (length (b_nodes b)) <= TARGET_NODES -> table_ok idf [b].
Proof.
  intros Hf Hn Hl. split; [|by constructor]. apply (tiles_cons _ 0 0); rewrite ?Hf; try done; try lia.
  - split; [done|]. by_compute.
  - eapply Forall_impl; [exact Hn|]. intros p Hp. split; [done|]. pose proof (id_range _ Hp). cbn -[Z.pow]. lia.
  - constructor.
Qed.

#[local] Instance wf_hash_dec h : Decision (wf_hash HASH_LEN h).
Proof. unfold wf_hash. apply _. Defined.

Lemma sample_table_ok : table_ok (id_of sample_nodes_world) (rt_buckets sample_table).
Proof. apply table_ok_single; [done| |done]. by_compute. Qed.

#[local] Instance idle_engine : PingEngine (fun _ w => w).
Proof. done. Qed.

(** ** Theorems *)

(** On a table whose buckets tile the identifier space, [depth] gives the
    size of a bucket's block, [contains] tests membership in that block, and
    [findBucket] returns the one bucket whose block holds the identifier. *)
Theorem findBucket_contains idf bs id i b :
  table_ok idf bs -> wf_hash HASH_LEN id -> bs !! i = Some b ->
  (contains bs i id = true <->
   be_Z (b_first b) <= be_Z id < be_Z (b_first b) + 2 ^ (160 - depth bs i)) /\
  (findBucket bs id = i <-> contains bs i id = true).
Proof.
  intros [Ht _] Hid Hi. pose proof (contains_block idf bs i b id Ht Hi Hid) as Hc.
  split; [done|]. rewrite Hc. split.
  - intros <-. destruct (findBucket_block idf bs id Ht Hid) as (b' & Hb' & Hr).
    by rewrite Hi in Hb'; simplify_eq.
  - rewrite (block_end_depth idf bs i b Ht Hi). by apply (findBucket_unique idf).
Qed.

Lemma findBucket_contains_witness :
  findBucket (rt_buckets sample_table) (sample_id 77) = 0%nat.
Proof.
  apply (findBucket_contains (id_of sample_nodes_world) (rt_buckets sample_table)
           (sample_id 77) 0 _ sample_table_ok ltac:(by_compute) eq_refl).
  reflexivity.
Defined.

(** [split] cuts the block of a bucket at its midpoint: the table keeps its
    invariant and its nodes, has one more bucket, and the two halves are one level
    deeper.  At depth 160 it fails and leaves the table as it is. *)
Theorem split_halves w bs i b :
  table_ok (id_of w) bs -> bs !! i = Some b ->
  (depth bs i = 160 -> split_bucket w bs i = (false, bs)) /\
  (depth bs i < 160 ->
   exists bs' b1 b2, split_bucket w bs i = (true, bs') /\ table_ok (id_of w) bs' /\
     all_nodes bs' ≡ₚ all_nodes bs /\ length bs' = S (length bs) /\
     bs' !! i = Some b1 /\ bs' !! S i = Some b2 /\ b_first b1 = b_first b /\
     be_Z (b_first b2) = be_Z (b_first b) + 2 ^ (160 - (depth bs i + 1)) /\
     depth bs' i = depth bs i + 1 /\ depth bs' (S i) = depth bs i + 1).
Proof.
  intros Hok Hi. split.
  - intros Hd. unfold split_bucket, middle. by rewrite Hi, Hd.
  - intros Hd. destruct (split_bucket_ok w bs i b Hok Hi Hd)
      as (bs' & ? & ? & ? & ? & b1 & b2 & ? & ? & ? & ? & ? & ?).
    exists bs', b1, b2. split_and!; done.
Qed.

Lemma split_halves_witness :
  exists bs', split_bucket sample_nodes_world (rt_buckets sample_table) 0 = (true, bs') /\
    table_ok (id_of sample_nodes_world) bs' /\ length bs' = 2%nat.
Proof.
  destruct (split_halves sample_nodes_world (rt_buckets sample_table) 0 _ sample_table_ok eq_refl)
    as [_ H].
  destruct H as (bs' & b1 & b2 & H1 & H2 & _ & H3 & _); [reflexivity|].
  exists bs'. by split_and!.
Defined.

(** C1. [onNewNode] terminates after at most 161 rounds when the nodes of the table
    have distinct identifiers, and keeps the table's invariant. It returns false
    exactly when the node is known already, leaving the nodes as they were. When it
    returns true, no other node is lost or added but in these ways: the node has
    joined the table; or it has taken the place of one expired node of its full
    bucket; or the nodes are the same, its bucket is full, and the bucket has the node
    cached, except that an unconfirmed node ([confirm] = 0) leaves the node cached
    before it in place. *)
Theorem onNewNode_total sendPing `{!PingEngine sendPing} node confirm now myid t w :
  table_ok (id_of w) (rt_buckets t) -> wf_hash HASH_LEN (id_of w node) ->
  NoDup (id_of w <$> all_nodes (rt_buckets t)) ->
  exists r t' w', onNewNode sendPing 161 node confirm now myid t w = Some (r, t', w') /\
    table_ok (id_of w') (rt_buckets t') /\
    if r then
      ~ node ∈ all_nodes (rt_buckets t) /\
      (all_nodes (rt_buckets t') ≡ₚ node :: all_nodes (rt_buckets t) \/
       (exists e rest b,
          all_nodes (rt_buckets t) ≡ₚ e :: rest /\ all_nodes (rt_buckets t') ≡ₚ node :: rest /\
          on_node isExpired w' e = true /\
          findBucket (rt_buckets t') (id_of w' e) = findBucket (rt_buckets t') (id_of w node) /\
          rt_buckets t' !! findBucket (rt_buckets t') (id_of w node) = Some b /\
          Z.of_nat (length (b_nodes b)) = 8) \/
       (all_nodes (rt_buckets t') ≡ₚ all_nodes (rt_buckets t) /\
        exists b, rt_buckets t' !! findBucket (rt_buckets t') (id_of w node) = Some b /\
          Z.of_nat (length (b_nodes b)) = 8 /\
          (b_cached b = Some node \/
           confirm = 0 /\ exists b0 c,
             rt_buckets t !! findBucket (rt_buckets t) (id_of w node) = Some b0 /\
             b_cached b0 = Some c /\ b_cached b = Some c)))
    else node ∈ all_nodes (rt_buckets t) /\
         all_nodes (rt_buckets t') ≡ₚ all_nodes (rt_buckets t).
Proof.
  intros Hok Hid Hnd.
  destruct (onNewNode_returns sendPing 161 node confirm now myid t w Hok Hid Hnd)
    as (r & t' & w' & H1 & H2 & _ & H3).
  - destruct Hok as [Ht _]. destruct (findBucket_block _ _ _ Ht Hid) as (b & Hb & _).
    pose proof (tiles_depth _ _ _ _ Ht Hb). lia.
  - by exists r, t', w'.
Qed.

(** The ninth node finds the bucket full of good nodes: it is split. *)
Lemma onNewNode_total_witness :
  exists t' w', onNewNode (fun _ w => w) 161 9 2 0 (Hash_zero HASH_LEN) sample_table sample_nodes_world
                = Some (true, t', w') /\
    length (rt_buckets t') = 2%nat /\ table_ok (id_of w') (rt_buckets t').
Proof.
  destruct (onNewNode_total (fun _ w => w) 9 2 0 (Hash_zero HASH_LEN) sample_table sample_nodes_world)
    as (r & t' & w' & H1 & H2 & _); [exact sample_table_ok|by_compute|by_compute|].
  exists t', w'. assert (H := H1). vm_compute in H. injection H as <- <- <-.
  split_and!; [exact H1|reflexivity|exact H2].
Defined.

(** C22. [findClosestNodes] returns: the answer holds at most [count] nodes, all
    good nodes of the table, sorted by XOR distance to the target; every good node
    of the target's own bucket is in the answer or no closer than what is; and when
    the answer is short it holds every good node of the table. *)
Theorem findClosestNodes_spec w bs id now count :
  table_ok (id_of w) bs -> wf_hash HASH_LEN id ->
  exists nodes rest, findClosestNodes w bs id now count = Some nodes /\
    (length nodes <= count)%nat /\ StronglySorted (closer w id) nodes /\
    nodes ++ rest ≡ₚ List.filter (on_node (isGood now) w) (all_nodes bs) /\
    ((length nodes < count)%nat -> rest = []) /\
    (forall b p q, bs !! findBucket bs id = Some b -> p ∈ b_nodes b ->
       on_node (isGood now) w p = true -> p ∉ nodes -> q ∈ nodes -> closer w id q p).
Proof.
  intros [Ht _] Hid. destruct (findBucket_block _ _ _ Ht Hid) as (b0 & Hb0 & _).
  pose proof (lookup_lt_Some _ _ _ Hb0) as Hlt. set (i := findBucket bs id) in *.
  unfold findClosestNodes. fold i. destruct (Nat.eqb_spec i (length bs)) as [|_]; [lia|].
  assert (table_ids_wf w (drop i bs) /\ table_ids_wf w (rev (take i bs))) as [W1 W2].
  { pose proof (tiles_ids_wf _ _ _ _ Ht) as W. split; [by apply Forall_drop|].
    apply Forall_rev. by apply Forall_take. }
  destruct (closest_loop_spec w id now Hid (S (length bs)) (Z.of_nat count) (drop i bs)
              (rev (take i bs)) []) as (nodes & rest & -> & Hs & _ & Hperm & _ & Hown & Hrest);
    [rewrite length_drop; lia|rewrite length_rev, length_take; lia|done|done|constructor|constructor|].
  destruct (StronglySorted_take (closer w id) count nodes Hs) as [Hs1 Hs2].
  exists (take count nodes), (drop count nodes ++ rest). split_and!; try done.
  - rewrite length_take. lia.
  - rewrite app_assoc, take_drop, Hperm. cbn [app].
    by rewrite goods_rev, goods_split.
  - rewrite length_take. intros Hc. rewrite drop_ge by lia. apply Hrest. lia.
  - intros b p q Hb Hp Hg Hni Hq. rewrite Hb0 in Hb. simplify_eq.
    apply Hs2; [done|]. destruct (decide (count = 0%nat)) as [->|]; [by apply not_elem_of_nil in Hq|].
    assert (p ∈ nodes) as Hin.
    { eapply (Hown ltac:(cbn; lia) b); [by apply drop_S|].
      apply list_elem_of_In, filter_In. split; [by apply list_elem_of_In|done]. }
    rewrite <- (take_drop count nodes) in Hin. apply elem_of_app in Hin as [|]; done.
Qed.

Lemma findClosestNodes_spec_witness :
  exists nodes, findClosestNodes sample_nodes_world (rt_buckets sample_table) (sample_id 30) 0 3 = Some nodes /\
    nodes = [2; 1; 3]%positive /\ StronglySorted (closer sample_nodes_world (sample_id 30)) nodes.
Proof.
  destruct (findClosestNodes_spec sample_nodes_world (rt_buckets sample_table) (sample_id 30) 0 3
              sample_table_ok ltac:(by_compute)) as (nodes & rest & H1 & _ & H2 & _).
  exists nodes. assert (H := H1). vm_compute in H. injection H as <-. by split_and!.
Defined.

(** [randomId] returns an identifier of the bucket's block, whatever bytes
    are drawn; it is therefore in the bucket as [contains] sees it. *)
Theorem randomId_in_bucket idf bs i b draws :
  table_ok idf bs -> bs !! i = Some b -> wf_bytes draws ->
  exists id, randomId bs i draws = Ret id /\ wf_hash HASH_LEN id /\ contains bs i id = true.
Proof.
  intros [Ht _] Hi Hd. pose proof (tiles_depth idf bs i b Ht Hi) as (Hdr & _ & Hm & Hf & _).
  assert (exists id, randomId bs i draws = Ret id /\ wf_hash HASH_LEN id /\
            be_Z (b_first b) <= be_Z id < be_Z (b_first b) + 2 ^ (160 - depth bs i))
    as (id & H1 & H2 & H3); [|exists id; split_and!; [done..|by apply (contains_block idf _ _ b)]].
  unfold randomId, depth in *. rewrite Hi in *. set (d := Z.max _ _ + 1) in *.
  change (8 * Z.of_nat HASH_LEN) with 160. destruct (Z.leb_spec 160 d).
  { exists (b_first b). split_and!; try done. replace d with 160 by lia. cbn. lia. }
  set (k := Z.to_nat (d / 8)). set (r := d mod 8).
  assert (d = 8 * Z.of_nat k + r) as Ed by (subst k r; rewrite Z2Nat.id by (apply Z.div_pos; lia); apply Z.div_mod; lia).
  assert (0 <= r < 8) by (apply Z.mod_pos_bound; lia).
  assert (k < HASH_LEN)%nat by (unfold HASH_LEN; lia).
  rewrite Ed in Hm |- *. destruct (aligned_first _ _ _ Hf ltac:(done) ltac:(done) Hm) as [Hx _].
  destruct (random_boundary_byte (nth k (b_first b) 0) (nth 0 draws 0) r) as [Hz Hzr]; try done.
  { destruct Hf as [L W]. by apply nth_wf. }
  { by apply nth_wf. }
  eexists. split; [done|]. apply be_Z_random_id; try done.
  - apply Forall_map, Forall_forall. intros j _. by apply nth_wf.
  - by rewrite length_map, length_seq.
Qed.

Lemma randomId_in_bucket_witness :
  exists id, randomId (rt_buckets sample_table) 0 (replicate 20 200) = Ret id /\
    contains (rt_buckets sample_table) 0 id = true.
Proof.
  destruct (randomId_in_bucket (id_of sample_nodes_world) (rt_buckets sample_table) 0 _
              (replicate 20 200) sample_table_ok eq_refl ltac:(by_compute))
    as (id & H1 & _ & H2).
  exists id. by split.
Defined.

(** [randomNode] returns a node of the bucket, and never an expired one when
    some node of the bucket is not expired; with draws in the range the code asks
    for, every eligible node is the answer to some draw. *)
Theorem randomNode_member w draw b :
  (forall m, 0 <= m -> 0 <= draw m <= m) -> b_nodes b <> [] ->
  exists p, randomNode w draw b = Some p /\ p ∈ b_nodes b /\
    ((exists q, q ∈ b_nodes b /\ on_node isExpired w q = false) -> on_node isExpired w p = false) /\
    (forall q, q ∈ b_nodes b ->
       (on_node isExpired w q = true -> Forall (fun p => on_node isExpired w p = true) (b_nodes b)) ->
       exists k, randomNode w (fun _ => k) b = Some q).
Proof.
  intros Hdraw Hne. destruct (randomNode_eq w draw b Hne) as [Hpos ->].
  set (pr := prioritized w (b_nodes b)) in *.
  destruct (randomNode_loop_spec w pr (b_nodes b) (draw (Z.of_nat (length (List.filter (eligible w pr)
    (b_nodes b))) - 1))) as (p & -> & Hin & Hel & _).
  { match goal with |- 0 <= draw ?m < _ => specialize (Hdraw m ltac:(lia)) end. lia. }
  exists p. split_and!; [done|done|..].
  - intros Hex%prioritized_spec. unfold pr in Hel. rewrite Hex in Hel. unfold eligible in Hel.
    cbn in Hel. by zb.
  - intros q Hq Hall. assert (eligible w pr q = true) as Hqel.
    { unfold eligible. destruct (on_node isExpired w q); [|by rewrite andb_false_r].
      destruct pr eqn:Epr; [|done]. apply prioritized_spec in Epr as (q' & Hq' & He).
      specialize (Hall eq_refl). rewrite Forall_forall in Hall. by rewrite Hall in He. }
    assert (q ∈ List.filter (eligible w pr) (b_nodes b)) as [k Hk]%list_elem_of_lookup.
    { apply list_elem_of_In, filter_In. split; [by apply list_elem_of_In|done]. }
    exists (Z.of_nat k). pose proof (lookup_lt_Some _ _ _ Hk).
    destruct (randomNode_eq w (fun _ => Z.of_nat k) b Hne) as [_ ->]. fold pr.
    destruct (randomNode_loop_spec w pr (b_nodes b) (Z.of_nat k)) as (q' & -> & _ & _ & Hkq); [lia|].
    rewrite Nat2Z.id in Hkq. congruence.
Qed.

Lemma randomNode_member_witness :
  exists p, randomNode sample_nodes_world (fun m => m) (mkBucket 2 [] 0 [1; 2]%positive None) = Some p /\
    p ∈ [1; 2]%positive.
Proof.
  destruct (randomNode_member sample_nodes_world (fun m => m) (mkBucket 2 [] 0 [1; 2]%positive None))
    as (p & H1 & H2 & _); [intros; lia|discriminate|]. exists p. by split.
Defined.

(** After a connectivity change no node of the table counts as good, at any
    time later than the expiry delay after the clock's minimum; the other nodes
    keep their state and the buckets keep their nodes. *)
Theorem connectivityChanged_resets now t w :
  let '(t', w') := connectivityChanged now t w in
  rt_grow_time t' = now /\ b_nodes <$> rt_buckets t' = b_nodes <$> rt_buckets t /\
  b_first <$> rt_buckets t' = b_first <$> rt_buckets t /\
  (forall p later, p ∈ all_nodes (rt_buckets t) -> time_min + NODE_EXPIRE_TIME < later ->
     on_node (isGood later) w' p = false) /\
  (forall p n, p ∉ all_nodes (rt_buckets t) -> w_nodes w' !! p = Some n -> w_nodes w !! p = Some n).
Proof.
  unfold connectivityChanged. rewrite connectivity_fold. cbn.
  rewrite <- !list_fmap_compose. split_and!; [done..| |].
  - intros p later Hp Hl. unfold on_node.
    destruct (w_nodes _ !! p) as [n|] eqn:En; [|done].
    destruct (reset_time_nodes _ _ _ _ En) as (n0 & _ & ->). rewrite decide_True by done.
    unfold isGood. cbn. apply andb_false_iff. right. apply Z.leb_gt. lia.
  - intros p n Hp Hn. destruct (reset_time_nodes _ _ _ _ Hn) as (n0 & H0 & ->).
    by rewrite decide_False by done.
Qed.
