(* ===== verification/Status.v ===== *)
(** * Status: the connection status of a node and its bootstrap

    Models [Dht::updateStatus], [Kad::getStatus], [Kad::getNodesStats], [onDisconnected],
    [pingNode], [addBootstrap] and [clearBootstrap] of src/opendht-2.1.4/src/dht.cpp and
    include/opendht/dht.h.  The resolver of the C library is a parameter that gives the
    addresses of a host or fails; a job of the scheduler is the time it is due at. *)
From S2P Require Import Prelude InfoHash SockAddr Node RoutingTable.

Inductive NodeStatus := Disconnected | Connecting | Connected.
#[export] Instance NodeStatus_eq_dec : EqDecision NodeStatus.
Proof. solve_decision. Defined.

(** ** The status of one network *)

(** The loop of [Kad::getStatus] over the nodes of all buckets: [None] when it returns
    early, else the dubious nodes. *)
Fixpoint status_loop (w : World) (now : Z) (l : list ptr) (dubious : Z) : option Z :=
  match l with
  | [] => Some dubious
  | n :: l' =>
      if on_node (isGood now) w n then None
      else status_loop w now l' (if negb (on_node isExpired w n) then u32 (dubious + 1) else dubious)
  end.

Definition getStatus (w : World) (now : Z) (bs : list Bucket) (pending_pings : Z) : NodeStatus :=
  match status_loop w now (all_nodes bs) 0 with
  | None => Connected
  | Some dubious => if negb (dubious =? 0) || negb (pending_pings =? 0) then Connecting else Disconnected
  end.

Record NodeStats := mkStats { good_nodes : Z; dubious_nodes : Z; cached_nodes : Z; incoming_nodes : Z; table_depth : Z; stats_searches : Z }.

Definition count_node (w : World) (now : Z) (s : NodeStats) (n : ptr) : NodeStats :=
  if on_node (isGood now) w n then
    mkStats (good_nodes s + 1) (dubious_nodes s) (cached_nodes s)
            (incoming_nodes s + if on_node isIncoming w n then 1 else 0) (table_depth s) (stats_searches s)
  else if negb (on_node isExpired w n) then
    mkStats (good_nodes s) (dubious_nodes s + 1) (cached_nodes s) (incoming_nodes s) (table_depth s) (stats_searches s)
  else s.

Definition count_bucket (w : World) (now : Z) (s : NodeStats) (b : Bucket) : NodeStats :=
  let s1 := fold_left (count_node w now) (b_nodes b) s in
  match b_cached b with
  | Some _ => mkStats (good_nodes s1) (dubious_nodes s1) (cached_nodes s1 + 1) (incoming_nodes s1) (table_depth s1) (stats_searches s1)
  | None => s1
  end.

Definition getNodesStats (w : World) (now : Z) (myid : Hash) (bs : list Bucket) (searches : Z) : NodeStats :=
  let s := fold_left (count_bucket w now) bs (mkStats 0 0 0 0 0 0) in
  mkStats (good_nodes s) (dubious_nodes s) (cached_nodes s) (incoming_nodes s) (depth bs (findBucket bs myid)) searches.

(** ** Bootstrap *)

Definition DHT_DEFAULT_PORT : Z := 4222.

Section Bootstrap.
Context (AF_INET6 : Z) {host : Type} (resolve : host -> option (list SockAddr)).

(** The members of [Dht] used here.  [bt_job] is the job that is in the queue, if any. *)
Record Boot := mkBoot {
  bt_status4 : NodeStatus;
  bt_status6 : NodeStatus;
  bt_pings4 : Z;
  bt_pings6 : Z;
  bt_hosts : list host;
  bt_period : Z;
  bt_job : option Z;
}.

Definition Boot_make : Boot := mkBoot Disconnected Disconnected 0 0 [] (seconds 10) None.

Definition set_pings (af f : Z) (b : Boot) : Boot :=
  if af =? AF_INET
  then mkBoot (bt_status4 b) (bt_status6 b) (u32 (bt_pings4 b + f)) (bt_pings6 b) (bt_hosts b) (bt_period b) (bt_job b)
  else mkBoot (bt_status4 b) (bt_status6 b) (bt_pings4 b) (u32 (bt_pings6 b + f)) (bt_hosts b) (bt_period b) (bt_job b).
Definition set_job (period : Z) (j : option Z) (b : Boot) : Boot :=
  mkBoot (bt_status4 b) (bt_status6 b) (bt_pings4 b) (bt_pings6 b) (bt_hosts b) period j.
Definition set_hosts (l : list host) (b : Boot) : Boot :=
  mkBoot (bt_status4 b) (bt_status6 b) (bt_pings4 b) (bt_pings6 b) l (bt_period b) (bt_job b).
Definition status_of (af : Z) (b : Boot) : NodeStatus := if af =? AF_INET then bt_status4 b else bt_status6 b.
Definition other_status (af : Z) (b : Boot) : NodeStatus := if af =? AF_INET then bt_status6 b else bt_status4 b.
Definition set_status (af : Z) (s : NodeStatus) (b : Boot) : Boot :=
  if af =? AF_INET
  then mkBoot s (bt_status6 b) (bt_pings4 b) (bt_pings6 b) (bt_hosts b) (bt_period b) (bt_job b)
  else mkBoot (bt_status4 b) s (bt_pings4 b) (bt_pings6 b) (bt_hosts b) (bt_period b) (bt_job b).

(** [pingNode]: the ping counts until it is answered or expires. *)
Definition pingNode (sa : SockAddr) (b : Boot) : Boot := set_pings (getFamily sa) 1 b.
Definition ping_over (af : Z) (b : Boot) : Boot := set_pings af (-1) b.

(** The addresses that [onDisconnected] pings; a host that can not be resolved is
    skipped. *)
Definition bootstrap_addresses (hosts : list host) : list SockAddr :=
  concat (map (fun h => match resolve h with
                        | Some ips => map (fun ip => if getPort AF_INET6 ip =? 0 then setPort AF_INET6 DHT_DEFAULT_PORT ip else ip) ips
                        | None => [] end) hosts).

(** Durations and time points are 64-bit counts of nanoseconds: going past them is
    undefined. *)
Definition clock_rep (t : Z) : outcome Z :=
  if (- 2 ^ 63 <=? t) && (t <? 2 ^ 63) then Ret t else Undef "signed overflow".

(** The addresses pinged, in order, and the state that is left. *)
Definition onDisconnected (now : Z) (b : Boot) : outcome (list SockAddr * Boot) :=
  if negb (bool_decide (bt_status4 b = Disconnected)) || negb (bool_decide (bt_status6 b = Disconnected)) then Ret ([], b)
  else
    let ips := bootstrap_addresses (bt_hosts b) in
    let b1 := fold_left (fun b ip => pingNode ip b) ips b in
    due ← clock_rep (now + bt_period b1);
    period ← clock_rep (bt_period b1 * 2);
    Ret (ips, set_job period (Some due) b1).

(** [updateStatus]; [s] is what [getStatus] gives for the network. *)
Definition updateStatus (now af : Z) (s : NodeStatus) (b : Boot) : outcome (list SockAddr * Boot) :=
  let old := status_of af b in
  let b1 := set_status af s b in
  if bool_decide (s = old) then Ret ([], b1)
  else if bool_decide (other_status af b1 = Disconnected) && bool_decide (s = Disconnected) then onDisconnected now b1
  else if bool_decide (other_status af b1 = Connected) || bool_decide (s = Connected) then Ret ([], set_job (seconds 10) None b1)
  else Ret ([], b1).

Definition addBootstrap (now : Z) (h : host) (b : Boot) : outcome (list SockAddr * Boot) := onDisconnected now (set_hosts (bt_hosts b ++ [h]) b).
Definition clearBootstrap (b : Boot) : Boot := set_hosts [] b.

(** The job runs: it leaves the queue. *)
Definition bootstrap_job (now : Z) (b : Boot) : outcome (list SockAddr * Boot) := onDisconnected now (set_job (bt_period b) None b).

(** ** Histories *)

(** One operation that does not overflow. *)
Inductive boot_step : Boot -> Boot -> Prop :=
| bs_add now h b ips b' : addBootstrap now h b = Ret (ips, b') -> boot_step b b'
| bs_clear b : boot_step b (clearBootstrap b)
| bs_status now af w bs b ips b' :
    updateStatus now af (getStatus w now bs (if af =? AF_INET then bt_pings4 b else bt_pings6 b)) b = Ret (ips, b') ->
    boot_step b b'
| bs_job now t b ips b' : bt_job b = Some t -> t <= now -> bootstrap_job now b = Ret (ips, b') -> boot_step b b'
| bs_ping sa b : boot_step b (pingNode sa b)
| bs_over af b : boot_step b (ping_over af b).

Definition both_down (b : Boot) : Prop := bt_status4 b = Disconnected /\ bt_status6 b = Disconnected.

(** The period of a node: ten seconds, doubled at most 29 times. *)
Definition period_ok (p : Z) : Prop := exists k : nat, (k <= 29)%nat /\ p = seconds 10 * 2 ^ Z.of_nat k.

(** A node that is cut off and knows where to start retries; the waiting time is ten
    seconds, doubled by each attempt, and no retry is planned while connected. *)
Record boot_ok (b : Boot) : Prop := {
  bo_retries : bt_hosts b <> [] -> both_down b -> is_Some (bt_job b);
  bo_period : period_ok (bt_period b);
  bo_quiet : bt_status4 b = Connected \/ bt_status6 b = Connected -> bt_job b = None /\ bt_period b = seconds 10;
}.

Lemma clock_rep_Ret t v : clock_rep t = Ret v <-> v = t /\ - 2 ^ 63 <= t < 2 ^ 63.
Proof.
  unfold clock_rep. destruct (Z.leb_spec (- 2 ^ 63) t), (Z.ltb_spec t (2 ^ 63)); cbn [andb]; (split; [intros; simplify_eq; lia|]); [|lia..].
  by intros [-> _].
Qed.

Lemma clock_rep_over t : 2 ^ 63 <= t -> clock_rep t = Undef "signed overflow".
Proof. intros H. unfold clock_rep. rewrite (proj2 (Z.ltb_ge t (2 ^ 63))) by done. by rewrite andb_false_r. Qed.

(** Doubling a period stays in range for the first 29 times. *)
Lemma period_double p : period_ok p -> p * 2 < 2 ^ 63 <-> p < seconds 10 * 2 ^ 29.
Proof.
  intros (k & Hk & ->). destruct (decide (k = 29)%nat) as [-> |Hne]; [vm_compute; split; discriminate|].
  assert (2 ^ Z.of_nat k <= 2 ^ 28) by (apply Z.pow_le_mono_r; lia). change (seconds 10) with 10000000000.
  change (2 ^ 63) with 9223372036854775808. change (2 ^ 29) with 536870912. change (2 ^ 28) with 268435456 in *. lia.
Qed.

Lemma period_double_ok p : period_ok p -> p * 2 < 2 ^ 63 -> period_ok (p * 2).
Proof.
  intros Hp Hlt. apply period_double in Hlt; [|done]. destruct Hp as (k & Hk & ->). exists (S k).
  assert (k <> 29)%nat by (intros ->; lia). split; [lia|]. rewrite Nat2Z.inj_succ, Z.pow_succ_r by lia. lia.
Qed.

Lemma pings_same (ips : list SockAddr) : forall b, let b' := fold_left (fun b ip => pingNode ip b) ips b in
  bt_status4 b' = bt_status4 b /\ bt_status6 b' = bt_status6 b /\ bt_hosts b' = bt_hosts b /\ bt_period b' = bt_period b /\ bt_job b' = bt_job b.
Proof.
  induction ips as [|ip ips IH]; intros b; [done|]. cbn [fold_left]. destruct (IH (pingNode ip b)) as (-> & -> & -> & -> & ->). unfold pingNode, set_pings. by case_match.
Qed.

(** What [onDisconnected] does to a node that is cut off. *)
Lemma onDisconnected_down now b : both_down b ->
  exists b1, onDisconnected now b =
    (due ← clock_rep (now + bt_period b); period ← clock_rep (bt_period b * 2);
     Ret (bootstrap_addresses (bt_hosts b), set_job period (Some due) b1)) /\
    both_down b1 /\ bt_hosts b1 = bt_hosts b.
Proof.
  intros [E4 E6]. destruct (pings_same (bootstrap_addresses (bt_hosts b)) b) as (H4 & H6 & Hh & Hp & _).
  exists (fold_left (fun b ip => pingNode ip b) (bootstrap_addresses (bt_hosts b)) b). unfold onDisconnected. rewrite !bool_decide_true by done. cbn [negb orb].
  cbn zeta in *. rewrite Hp. unfold both_down. by rewrite H4, H6.
Qed.

(** [onDisconnected] leaves a node that is cut off with a job, and touches no other. *)
Lemma onDisconnected_ok now b ips b' : period_ok (bt_period b) ->
  (bt_status4 b = Connected \/ bt_status6 b = Connected -> bt_job b = None /\ bt_period b = seconds 10) ->
  onDisconnected now b = Ret (ips, b') -> boot_ok b'.
Proof.
  intros Hk Hq. destruct (decide (bt_status4 b = Disconnected)) as [E4|E4], (decide (bt_status6 b = Disconnected)) as [E6|E6].
  2-4: unfold onDisconnected; repeat (case_bool_decide; try done); intros [= <- <-]; (split; [by intros _ [? ?]|done|done]).
  destruct (onDisconnected_down now b (conj E4 E6)) as (b1 & -> & [H4 H6] & _).
  destruct (clock_rep (now + bt_period b)) as [due| | |] eqn:E; try done. apply clock_rep_Ret in E as [-> _]. cbn [mbind outcome_bind].
  destruct (clock_rep (bt_period b * 2)) as [per| | |] eqn:E; try done. apply clock_rep_Ret in E as [-> [_ Hlt]]. intros [= <- <-]. split; cbn.
  - intros _ _. by eexists.
  - by apply period_double_ok.
  - rewrite H4, H6. by intros [|].
Qed.

Lemma updateStatus_ok now af s b ips b' : boot_ok b -> updateStatus now af s b = Ret (ips, b') -> boot_ok b'.
Proof.
  intros [Hr Hk Hq]. assert (period_ok (seconds 10)) as H10 by (exists 0%nat; split; [lia|done]).
  unfold updateStatus, status_of, other_status, set_status in *.
  destruct (af =? AF_INET); cbn [bt_status4 bt_status6] in *; (case_bool_decide as E; [subst s; intros [= <- <-]; by split|]).
  all: repeat case_bool_decide; cbn [andb orb]; subst; try congruence.
  all: first [apply onDisconnected_ok; [done|cbn; naive_solver]|intros [= <- <-]; split; cbn; [by intros _ [? ?]|done|naive_solver]].
Qed.

Lemma boot_step_ok b b' : boot_step b b' -> boot_ok b -> boot_ok b'.
Proof.
  intros Hs [Hr Hp Hq]. destruct Hs as [now h b ips b' H|b|now af w bs b ips b' H|now t b ips b' Ht Hle H|sa b|af b].
  - by eapply onDisconnected_ok; [..|exact H].
  - by split.
  - by eapply updateStatus_ok; [|exact H].
  - eapply onDisconnected_ok; [| |exact H]; [done|]. cbn. intros Hc. destruct (Hq Hc). done.
  - unfold pingNode, set_pings. case_match; by split.
  - unfold ping_over, set_pings. case_match; by split.
Qed.

Lemma Boot_make_ok : boot_ok Boot_make.
Proof. split; [done|exists 0%nat; split; [lia|done]|by intros [|]]. Qed.

(** C27. A node that is cut off keeps trying, until its waiting time no longer fits in
    64 bits: over every history of bootstrap hosts given and taken back, changes of
    the two networks, pings and jobs in which nothing has overflowed, whenever both
    networks are disconnected and a host is known, an attempt is in the queue of the
    scheduler; the waiting time is ten seconds doubled at most 29 times, back at ten
    seconds with nothing in the queue while a network is connected. When the job runs
    on a node that is still cut off, at a time at which the next attempt can be
    represented, either the waiting time is below its last value, every address of
    every host that can be resolved is pinged, the next attempt is queued and the
    waiting time doubled; or it has reached its last value and doubling it overflows. *)
Theorem retry_pending b : rtc boot_step Boot_make b ->
  boot_ok b /\
  (both_down b -> forall now, 0 <= now -> now + bt_period b < 2 ^ 63 ->
     if bt_period b <? seconds 10 * 2 ^ 29
     then exists b', bootstrap_job now b = Ret (bootstrap_addresses (bt_hosts b), b') /\
            bt_job b' = Some (now + bt_period b) /\ bt_period b' = 2 * bt_period b /\
            bt_hosts b' = bt_hosts b /\ both_down b'
     else bt_period b = seconds 10 * 2 ^ 29 /\ bootstrap_job now b = Undef "signed overflow").
Proof.
  intros Hr. assert (boot_ok b) as Hok.
  { pose proof Boot_make_ok as H0. induction Hr as [|x y z Hs _ IH]; [done|]. apply IH. by eapply boot_step_ok. }
  split; [done|]. intros Hd now Hnow Hfit. destruct Hok as [_ Hp _].
  destruct (onDisconnected_down now (set_job (bt_period b) None b) Hd) as (b1 & Hrun & Hd1 & Hh).
  unfold bootstrap_job. rewrite Hrun. cbn [bt_period bt_hosts set_job] in *.
  assert (0 < bt_period b <= seconds 10 * 2 ^ 29) as Hb.
  { destruct Hp as (k & Hk & ->). assert (0 < 2 ^ Z.of_nat k <= 2 ^ 29) by (split; [|apply Z.pow_le_mono_r]; lia). change (seconds 10) with 10000000000. lia. }
  assert (clock_rep (now + bt_period b) = Ret (now + bt_period b)) as -> by (apply clock_rep_Ret; split; [done|lia]). cbn [mbind outcome_bind].
  destruct (Z.ltb_spec (bt_period b) (seconds 10 * 2 ^ 29)) as [Hlt|Hge].
  - apply (period_double _ Hp) in Hlt. assert (clock_rep (bt_period b * 2) = Ret (bt_period b * 2)) as -> by (apply clock_rep_Ret; split; [done|lia]). cbn [mbind outcome_bind].
    eexists. split; [reflexivity|]. cbn [bt_job bt_period bt_hosts set_job]. split_and!; [done|lia|done|exact Hd1].
  - split; [lia|]. rewrite clock_rep_over; [done|]. destruct (Z.lt_ge_cases (bt_period b * 2) (2 ^ 63)) as [Hc|]; [|done].
    apply (period_double _ Hp) in Hc. lia.
Qed.
End Bootstrap.

(** ** The status of a table *)

Lemma exists_good_cons (f : ptr -> bool) p l : f p = false -> (exists q, q ∈ p :: l /\ f q = true) <-> exists q, q ∈ l /\ f q = true.
Proof.
  intros Hp. split; intros (q & Hq & E); exists q; (split; [|done]); [|by right]. apply elem_of_cons in Hq as [->|?]; [congruence|done].
Qed.

Lemma status_loop_spec w now l : forall d, 0 <= d -> d + Z.of_nat (length l) < 2 ^ 32 ->
  (status_loop w now l d = None <-> exists p, p ∈ l /\ on_node (isGood now) w p = true) /\
  (forall d', status_loop w now l d = Some d' -> d <= d' /\ (d' = d <-> Forall (fun p => on_node isExpired w p = true) l)).
Proof.
  induction l as [|p l IH]; intros d Hd Hl.
  { split; [split; [done|intros (p & Hp & _); by apply elem_of_nil in Hp]|]. intros d' [= <-]. split; [lia|]. split; [constructor|done]. }
  cbn [status_loop length] in *. destruct (on_node (isGood now) w p) eqn:Eg.
  { split; [split; [|done]; intros _; exists p; split; [left|done]|done]. }
  destruct (on_node isExpired w p) eqn:Ee; cbn [negb].
  - destruct (IH d Hd ltac:(lia)) as [H1 H2]. split; [by rewrite H1, exists_good_cons|]. intros d' Hs. destruct (H2 d' Hs) as [? H]. split; [done|]. rewrite H, Forall_cons. by split; [|intros [_ ?]].
  - rewrite wrap_small by lia. destruct (IH (d + 1) ltac:(lia) ltac:(lia)) as [H1 H2]. split; [by rewrite H1, exists_good_cons|].
    intros d' Hs. destruct (H2 d' Hs) as [? H]. split; [lia|]. rewrite Forall_cons, Ee. split; [lia|by intros [? _]].
Qed.

(** A network is connected when a node of its table is good, disconnected when all of its
    nodes have expired and no ping is under way, and connecting else. *)
Theorem getStatus_spec w now bs pings : Z.of_nat (length (all_nodes bs)) < 2 ^ 32 ->
  (getStatus w now bs pings = Connected <-> exists p, p ∈ all_nodes bs /\ on_node (isGood now) w p = true) /\
  (getStatus w now bs pings = Disconnected <->
     (forall p, p ∈ all_nodes bs -> on_node (isGood now) w p = false) /\ Forall (fun p => on_node isExpired w p = true) (all_nodes bs) /\ pings = 0).
Proof.
  intros Hl. destruct (status_loop_spec w now (all_nodes bs) 0 ltac:(lia) ltac:(lia)) as [H1 H2]. unfold getStatus. destruct (status_loop w now (all_nodes bs) 0) as [d|].
  - destruct (H2 d eq_refl) as [Hd He]. assert (Hno : forall p, p ∈ all_nodes bs -> on_node (isGood now) w p = false).
    { intros p Hp. destruct (on_node (isGood now) w p) eqn:E; [|done]. assert (Some d = None) by (apply H1; by exists p). done. }
    split; [split; [by repeat case_match|]; intros (p & Hp & E); by rewrite Hno in E|].
    destruct (Z.eqb_spec d 0) as [->|Hd0]; cbn [negb orb].
    + destruct (Z.eqb_spec pings 0) as [->|Hp0]; cbn [negb]; [split; [intros _|done]; split_and!; [done|by apply He|done]|split; [done|by intros (_ & _ & ?)]].
    + split; [done|]. intros (_ & Hx & _). apply He in Hx. lia.
  - destruct (proj1 H1 eq_refl) as (p & Hp & E). split; [split; [intros _; by exists p|done]|]. split; [done|]. intros (Hno & _). by rewrite Hno in E.
Qed.

(** ** A node that starts *)

Module StatusDemo.
Definition resolve (h : Z) : option (list SockAddr) := if h =? 0 then None else Some [[2; 0; 0; 0; 10; 0; 0; h] ++ replicate 8 0].

(** Hosts given one after the other to a node that has just started. *)
Fixpoint add_all (hs : list Z) (b : Boot) : outcome (Boot (host := Z)) :=
  match hs with
  | [] => Ret b
  | h :: hs' => '(_, b') ← addBootstrap 10 resolve 0 h b; add_all hs' b'
  end.

(** Two hosts, of which one can not be resolved, are given; the other is pinged at its
    default port, and the next attempt is due twenty seconds later. *)
Definition b1 : Boot := match add_all [0; 5] Boot_make with Ret b => b | _ => Boot_make end.

Lemma b1_reachable : rtc (boot_step 10 resolve) Boot_make b1.
Proof. eapply rtc_l; [by eapply (bs_add _ _ 0 0)|]. eapply rtc_l; [by eapply (bs_add _ _ 0 5)|]. apply rtc_refl. Qed.
End StatusDemo.

(** [addBootstrap] makes an attempt of its own each time and doubles the waiting time:
    ten hosts given at the start leave the next attempt almost an hour and a half
    away, and the thirtieth overflows the period. *)
Theorem addBootstrap_backs_off :
  (exists b, StatusDemo.add_all (replicate 10 5) Boot_make = Ret b /\ bt_job b = Some (seconds 5120)) /\
  (exists b, StatusDemo.add_all (replicate 29 5) Boot_make = Ret b) /\
  StatusDemo.add_all (replicate 30 5) Boot_make = Undef "signed overflow".
Proof. split_and!; [eexists; split; vm_compute; reflexivity|eexists; vm_compute; reflexivity|vm_compute; reflexivity]. Qed.

Lemma retry_pending_witness : is_Some (bt_job StatusDemo.b1) /\ bt_pings4 StatusDemo.b1 = 1 /\
  exists b', bootstrap_job 10 StatusDemo.resolve (seconds 20) StatusDemo.b1 = Ret (bootstrap_addresses 10 StatusDemo.resolve [0; 5], b') /\
    bt_job b' = Some (seconds 60).
Proof.
  destruct (retry_pending 10 StatusDemo.resolve StatusDemo.b1 StatusDemo.b1_reachable) as [Hok Hjob].
  split; [by apply (bo_retries _ Hok)|]. split; [reflexivity|].
  specialize (Hjob (conj eq_refl eq_refl) (seconds 20) ltac:(done) ltac:(reflexivity)). vm_compute bt_period in Hjob.
  change (40000000000 <? seconds 10 * 2 ^ 29) with true in Hjob. cbv iota in Hjob.
  destruct Hjob as (b' & H1 & H2 & _). exists b'. split; [exact H1|exact H2].
Defined.
