(* ===== verification/Sha256.v ===== *)
(** * Sha256: the hash of the blockchain's records

    Models the class [SHA256] and the function [sha256] of
    src/verified-blockchain/include/sha/sha256.h and sha256.cpp.  Words are [Z]
    in [0, 2^32) with the wrap-around written out, buffers are lists of bytes.
    The specification is FIPS 180-4 written with rotations as arithmetic, words as
    big-endian numbers, the message schedule as a recurrence and the padding with a
    64-bit length; the code is a streaming implementation over a 128-byte block
    buffer with a 32-bit length. *)
From S2P Require Import Prelude InfoHash.

(** ** The code: macros of sha256.h *)

Definition SHA2_SHFR (x n : Z) : Z := Z.shiftr x n.
Definition SHA2_ROTR (x n : Z) : Z := Z.lor (Z.shiftr x n) (u32 (Z.shiftl x (32 - n))).
Definition SHA2_CH (x y z : Z) : Z := Z.lxor (Z.land x y) (Z.land (u32 (Z.lnot x)) z).
Definition SHA2_MAJ (x y z : Z) : Z := Z.lxor (Z.lxor (Z.land x y) (Z.land x z)) (Z.land y z).
Definition SHA256_F1 (x : Z) : Z := Z.lxor (Z.lxor (SHA2_ROTR x 2) (SHA2_ROTR x 13)) (SHA2_ROTR x 22).
Definition SHA256_F2 (x : Z) : Z := Z.lxor (Z.lxor (SHA2_ROTR x 6) (SHA2_ROTR x 11)) (SHA2_ROTR x 25).
Definition SHA256_F3 (x : Z) : Z := Z.lxor (Z.lxor (SHA2_ROTR x 7) (SHA2_ROTR x 18)) (SHA2_SHFR x 3).
Definition SHA256_F4 (x : Z) : Z := Z.lxor (Z.lxor (SHA2_ROTR x 17) (SHA2_ROTR x 19)) (SHA2_SHFR x 10).

(** The four bytes [SHA2_UNPACK32] stores, and the word [SHA2_PACK32] reads. *)
Definition SHA2_UNPACK32 (x : Z) : bytes :=
  [u8 (Z.shiftr x 24); u8 (Z.shiftr x 16); u8 (Z.shiftr x 8); u8 x].
Definition SHA2_PACK32 (s : bytes) : Z :=
  Z.lor (Z.lor (Z.lor (nth 3 s 0) (Z.shiftl (nth 2 s 0) 8)) (Z.shiftl (nth 1 s 0) 16))
        (u32 (Z.shiftl (nth 0 s 0) 24)).

(** ** The code: sha256.cpp *)

Definition SHA224_256_BLOCK_SIZE : Z := 64.

(** Four words of a table. *)
Definition k_row (a b c d : Z) : list Z := [a; b; c; d].

Definition sha256_k : list Z := Eval cbv in
  (k_row 0x428A2F98 0x71374491 0xB5C0FBCF 0xE9B5DBA5 ++
   k_row 0x3956C25B 0x59F111F1 0x923F82A4 0xAB1C5ED5 ++
   k_row 0xD807AA98 0x12835B01 0x243185BE 0x550C7DC3 ++
   k_row 0x72BE5D74 0x80DEB1FE 0x9BDC06A7 0xC19BF174 ++
   k_row 0xE49B69C1 0xEFBE4786 0x0FC19DC6 0x240CA1CC ++
   k_row 0x2DE92C6F 0x4A7484AA 0x5CB0A9DC 0x76F988DA ++
   k_row 0x983E5152 0xA831C66D 0xB00327C8 0xBF597FC7 ++
   k_row 0xC6E00BF3 0xD5A79147 0x06CA6351 0x14292967 ++
   k_row 0x27B70A85 0x2E1B2138 0x4D2C6DFC 0x53380D13 ++
   k_row 0x650A7354 0x766A0ABB 0x81C2C92E 0x92722C85 ++
   k_row 0xA2BFE8A1 0xA81A664B 0xC24B8B70 0xC76C51A3 ++
   k_row 0xD192E819 0xD6990624 0xF40E3585 0x106AA070 ++
   k_row 0x19A4C116 0x1E376C08 0x2748774C 0x34B0BCB5 ++
   k_row 0x391C0CB3 0x4ED8AA4A 0x5B9CCA4F 0x682E6FF3 ++
   k_row 0x748F82EE 0x78A5636F 0x84C87814 0x8CC70208 ++
   k_row 0x90BEFFFA 0xA4506CEB 0xBEF9A3F7 0xC67178F2).

(** [class SHA256]. *)
Record SHA256 := mkSHA256 {
  m_tot_len : Z;
  m_len : Z;
  m_block : bytes;
  m_h : list Z;
}.

(** The message schedule: [w[0..15]] from the block, then the recurrence. *)
Definition schedule_word (w : list Z) : Z :=
  let j := length w in
  u32 (SHA256_F4 (nth (j - 2) w 0) + nth (j - 7) w 0 + SHA256_F3 (nth (j - 15) w 0) + nth (j - 16) w 0).

Definition schedule (sub_block : bytes) : list Z :=
  fold_left (fun w _ => w ++ [schedule_word w]) (seq 16 48)
            (map (fun j => SHA2_PACK32 (drop (4 * j) sub_block)) (seq 0 16)).

(** One of the 64 rounds. *)
Definition round (w wv : list Z) (j : nat) : list Z :=
  let v i := nth i wv 0 in
  let t1 := u32 (v 7%nat + SHA256_F2 (v 4%nat) + SHA2_CH (v 4%nat) (v 5%nat) (v 6%nat)
                 + nth j sha256_k 0 + nth j w 0) in
  let t2 := u32 (SHA256_F1 (v 0%nat) + SHA2_MAJ (v 0%nat) (v 1%nat) (v 2%nat)) in
  [u32 (t1 + t2); v 0%nat; v 1%nat; v 2%nat; u32 (v 3%nat + t1); v 4%nat; v 5%nat; v 6%nat].

Definition transform_block (h : list Z) (sub_block : bytes) : list Z :=
  let w := schedule sub_block in
  let wv := fold_left (round w) (seq 0 64) (take 8 h) in
  map (fun j => u32 (nth j h 0 + nth j wv 0)) (seq 0 8).

(** [SHA256::transform]: the chaining value after [block_nb] blocks. *)
Definition transform (h : list Z) (message : bytes) (block_nb : nat) : list Z :=
  fold_left (fun h i => transform_block h (drop (64 * i) message)) (seq 0 block_nb) h.

Definition init_h : list Z :=
  [0x6a09e667; 0xbb67ae85; 0x3c6ef372; 0xa54ff53a; 0x510e527f; 0x9b05688c; 0x1f83d9ab; 0x5be0cd19].

(** [SHA256::init]. *)
Definition init (c : SHA256) : SHA256 := mkSHA256 0 0 (m_block c) init_h.

(** [SHA256::update]. *)
Definition update (message : bytes) (c : SHA256) : SHA256 :=
  let len := u32 (Z.of_nat (length message)) in
  let tmp_len := u32 (SHA224_256_BLOCK_SIZE - m_len c) in
  let rem_len := if len <? tmp_len then len else tmp_len in
  let block := write_at (Z.to_nat (m_len c)) (take (Z.to_nat rem_len) message) (m_block c) in
  if u32 (m_len c + len) <? SHA224_256_BLOCK_SIZE
  then mkSHA256 (m_tot_len c) (u32 (m_len c + len)) block (m_h c)
  else
    let new_len := u32 (len - rem_len) in
    let block_nb := new_len / SHA224_256_BLOCK_SIZE in
    let shifted_message := drop (Z.to_nat rem_len) message in
    let h1 := transform (m_h c) block 1 in
    let h2 := transform h1 shifted_message (Z.to_nat block_nb) in
    let rem_len' := new_len mod SHA224_256_BLOCK_SIZE in
    let block' := write_at 0 (take (Z.to_nat rem_len') (drop (Z.to_nat (Z.shiftl block_nb 6)) shifted_message))
                           block in
    mkSHA256 (u32 (m_tot_len c + u32 (Z.shiftl (block_nb + 1) 6))) rem_len' block' h2.

(** [SHA256::final]: the digest. *)
Definition final (c : SHA256) : bytes :=
  let block_nb := 1 + (if SHA224_256_BLOCK_SIZE - 9 <? m_len c mod SHA224_256_BLOCK_SIZE then 1 else 0) in
  let len_b := u32 (Z.shiftl (u32 (m_tot_len c + m_len c)) 3) in
  let pm_len := Z.shiftl block_nb 6 in
  let m := Z.to_nat (m_len c) in
  let block1 := write_at m (replicate (Z.to_nat (pm_len - m_len c)) 0) (m_block c) in
  let block2 := write_at m [128] block1 in
  let block3 := write_at (Z.to_nat (pm_len - 4)) (SHA2_UNPACK32 len_b) block2 in
  let h := transform (m_h c) block3 (Z.to_nat block_nb) in
  concat (map SHA2_UNPACK32 h).

(** [sprintf(buf, "%02x", b)]. *)
Definition hex_pair (b : Z) : bytes := [nth (Z.to_nat (b / 16)) hex_digits 0; nth (Z.to_nat (b mod 16)) hex_digits 0].

(** [sha256]; a value-initialised object has all members zero. *)
Definition sha256 (input : bytes) : bytes :=
  let ctx := mkSHA256 0 0 (replicate 128 0) (replicate 8 0) in
  concat (map hex_pair (final (update input (init ctx)))).

Example sha256_abc :
  sha256 (str "abc") = str "ba7816bf8f01cfea414140de5dae2223b00361a396177a9cb410ff61f20015ad".
Proof. vm_compute. reflexivity. Qed.

Example sha256_two_blocks :
  sha256 (str "abcdbcdecdefdefgefghfghighijhijkijkljklmklmnlmnomnopnopq") =
  str "248d6a61d20638b8e5c026930c3e6039a33ce45964ff2167f6ecedd419db06c1".
Proof. vm_compute. reflexivity. Qed.

(** ** The specification: FIPS 180-4 *)

Module Fips.

Definition rotr (n x : Z) : Z := x / 2 ^ n + x mod 2 ^ n * 2 ^ (32 - n).
Definition shr (n x : Z) : Z := x / 2 ^ n.
Definition Ch (x y z : Z) : Z := Z.lxor (Z.land x y) (Z.ldiff z x).
Definition Maj (x y z : Z) : Z := Z.lxor (Z.lxor (Z.land x y) (Z.land x z)) (Z.land y z).
Definition Sigma0 (x : Z) : Z := Z.lxor (Z.lxor (rotr 2 x) (rotr 13 x)) (rotr 22 x).
Definition Sigma1 (x : Z) : Z := Z.lxor (Z.lxor (rotr 6 x) (rotr 11 x)) (rotr 25 x).
Definition sigma0 (x : Z) : Z := Z.lxor (Z.lxor (rotr 7 x) (rotr 18 x)) (shr 3 x).
Definition sigma1 (x : Z) : Z := Z.lxor (Z.lxor (rotr 17 x) (rotr 19 x)) (shr 10 x).

(** The first 64 primes, and the leading 32 bits of the fractional part of a
    square or cube root. *)
Definition primes : list Z :=
  List.filter (fun p => forallb (fun d => negb (p mod d =? 0)) (map Z.of_nat (seq 2 (Z.to_nat p - 2))))
              (map Z.of_nat (seq 2 310)).
Definition sqrt_bits (p k : Z) : Prop :=
  exists r, (r * 2 ^ 32 + k) ^ 2 <= p * 2 ^ 64 < (r * 2 ^ 32 + k + 1) ^ 2 /\ 0 <= k < 2 ^ 32.
Definition cbrt_bits (p k : Z) : Prop :=
  exists r, (r * 2 ^ 32 + k) ^ 3 <= p * 2 ^ 96 < (r * 2 ^ 32 + k + 1) ^ 3 /\ 0 <= k < 2 ^ 32.

(** The working variables [a] to [h]. *)
Record vars := mkVars { va : Z; vb : Z; vc : Z; vd : Z; ve : Z; vf : Z; vg : Z; vh : Z }.

Definition step (k w : Z) (s : vars) : vars :=
  let t1 := (vh s + Sigma1 (ve s) + Ch (ve s) (vf s) (vg s) + k + w) mod 2 ^ 32 in
  let t2 := (Sigma0 (va s) + Maj (va s) (vb s) (vc s)) mod 2 ^ 32 in
  mkVars ((t1 + t2) mod 2 ^ 32) (va s) (vb s) (vc s) ((vd s + t1) mod 2 ^ 32) (ve s) (vf s) (vg s).

Definition add (s t : vars) : vars :=
  mkVars ((va s + va t) mod 2 ^ 32) ((vb s + vb t) mod 2 ^ 32) ((vc s + vc t) mod 2 ^ 32)
         ((vd s + vd t) mod 2 ^ 32) ((ve s + ve t) mod 2 ^ 32) ((vf s + vf t) mod 2 ^ 32)
         ((vg s + vg t) mod 2 ^ 32) ((vh s + vh t) mod 2 ^ 32).

(** The message schedule of a block. *)
Definition is_schedule (block : bytes) (W : nat -> Z) : Prop :=
  (forall t, (t < 16)%nat -> W t = be_Z (take 4 (drop (4 * t) block))) /\
  (forall t, (16 <= t < 64)%nat ->
     W t = (sigma1 (W (t - 2)%nat) + W (t - 7)%nat + sigma0 (W (t - 15)%nat) + W (t - 16)%nat) mod 2 ^ 32).

(** [compress K H block H']: the compression of one 64-byte block. *)
Definition compress (K : nat -> Z) (H : vars) (block : bytes) (H' : vars) : Prop :=
  exists W, is_schedule block W /\
    H' = add H (fold_left (fun s t => step (K t) (W t) s) (seq 0 64) H).

(** The chaining over the blocks of a padded message. *)
Inductive chain (K : nat -> Z) : vars -> bytes -> vars -> Prop :=
| chain_nil H : chain K H [] H
| chain_block H block rest H' H'' :
    length block = 64%nat -> compress K H block H' -> chain K H' rest H'' ->
    chain K H (block ++ rest) H''.

(** The padding: a one bit, zeroes up to 56 modulo 64, the bit length. *)
Definition pad (M : bytes) : bytes :=
  M ++ [128] ++ replicate (Z.to_nat ((55 - Z.of_nat (length M)) mod 64)) 0
    ++ be_bytes 8 (8 * Z.of_nat (length M)).

Definition out (s : vars) : bytes :=
  be_bytes 4 (va s) ++ be_bytes 4 (vb s) ++ be_bytes 4 (vc s) ++ be_bytes 4 (vd s) ++
  be_bytes 4 (ve s) ++ be_bytes 4 (vf s) ++ be_bytes 4 (vg s) ++ be_bytes 4 (vh s).

(** [digest M d]: [d] is the SHA-256 digest of [M], for the constants given. *)
Definition digest (K : nat -> Z) (H0 : vars) (M d : bytes) : Prop :=
  exists H, chain K H0 (pad M) H /\ d = out H.

End Fips.

(** The constants of the code are the ones the standard defines. *)
Definition vars_of (h : list Z) : Fips.vars :=
  Fips.mkVars (nth 0 h 0) (nth 1 h 0) (nth 2 h 0) (nth 3 h 0) (nth 4 h 0) (nth 5 h 0) (nth 6 h 0) (nth 7 h 0).
Definition K_of (t : nat) : Z := nth t sha256_k 0.

(** ** Words *)

Definition is_word (x : Z) : Prop := 0 <= x < 2 ^ 32.

Lemma u32_word x : is_word (u32 x).
Proof. apply (wrap_range 32). lia. Qed.

#[export] Hint Resolve u32_word : vb_wf.

Lemma lor_add_shift a b n : 0 <= n -> 0 <= a < 2 ^ n -> Z.lor a (b * 2 ^ n) = a + b * 2 ^ n.
Proof.
  intros Hn Ha. assert (Z.land a (b * 2 ^ n) = 0) as Hl.
  { apply Z.bits_inj'. intros i Hi. rewrite Z.land_spec, Z.bits_0.
    destruct (Z.lt_ge_cases i n).
    - rewrite Z.mul_pow2_bits_low by lia. apply andb_false_r.
    - by rewrite (testbit_high n a). }
  rewrite <- Z.lxor_lor by done. symmetry. by apply Z.add_nocarry_lxor.
Qed.

Lemma rotr_eq x n : is_word x -> 0 < n < 32 -> SHA2_ROTR x n = Fips.rotr n x.
Proof.
  intros Hx Hn. unfold SHA2_ROTR, Fips.rotr, is_word in *. rewrite Z.shiftr_div_pow2, Z.shiftl_mul_pow2 by lia.
  assert (u32 (x * 2 ^ (32 - n)) = x mod 2 ^ n * 2 ^ (32 - n)) as ->.
  { unfold wrap. replace (2 ^ 32) with (2 ^ n * 2 ^ (32 - n))
      by (rewrite <- Z.pow_add_r by lia; f_equal; lia).
    apply Z.mul_mod_distr_r; lia. }
  apply lor_add_shift; [lia|]. split; [apply Z.div_pos; lia|].
  apply Z.div_lt_upper_bound; [lia|]. rewrite <- Z.pow_add_r by lia.
  replace (n + (32 - n)) with 32 by lia. lia.
Qed.

Lemma shfr_eq x n : 0 <= n -> SHA2_SHFR x n = Fips.shr n x.
Proof. intros. by apply Z.shiftr_div_pow2. Qed.

Lemma ch_eq x y z : is_word x -> is_word y -> is_word z -> SHA2_CH x y z = Fips.Ch x y z.
Proof.
  intros Hx Hy Hz. unfold SHA2_CH, Fips.Ch. f_equal. apply Z.bits_inj'. intros i Hi.
  rewrite Z.land_spec, Z.ldiff_spec. unfold wrap. destruct (Z.lt_ge_cases i 32).
  - rewrite Z.mod_pow2_bits_low, Z.lnot_spec by lia. apply andb_comm.
  - rewrite (testbit_high 32 z) by done. by rewrite andb_false_r.
Qed.

Lemma F1_eq x : is_word x -> SHA256_F1 x = Fips.Sigma0 x.
Proof. intros. unfold SHA256_F1, Fips.Sigma0. by rewrite !rotr_eq by (done || lia). Qed.
Lemma F2_eq x : is_word x -> SHA256_F2 x = Fips.Sigma1 x.
Proof. intros. unfold SHA256_F2, Fips.Sigma1. by rewrite !rotr_eq by (done || lia). Qed.
Lemma F3_eq x : is_word x -> SHA256_F3 x = Fips.sigma0 x.
Proof. intros. unfold SHA256_F3, Fips.sigma0. by rewrite !rotr_eq, shfr_eq by (done || lia). Qed.
Lemma F4_eq x : is_word x -> SHA256_F4 x = Fips.sigma1 x.
Proof. intros. unfold SHA256_F4, Fips.sigma1. by rewrite !rotr_eq, shfr_eq by (done || lia). Qed.

Lemma pack32_eq a b c d rest :
  wf_bytes [a; b; c; d] -> SHA2_PACK32 (a :: b :: c :: d :: rest) = be_Z [a; b; c; d].
Proof.
  rewrite !Forall_cons. unfold is_byte. intros (Ha & Hb & Hc & Hd & _). unfold SHA2_PACK32. cbn [nth].
  rewrite !Z.shiftl_mul_pow2 by lia. rewrite wrap_small by lia.
  rewrite (lor_add_shift d c 8), (lor_add_shift _ b 16), (lor_add_shift _ a 24) by lia. cbn. lia.
Qed.

Lemma unpack32_eq x : is_word x -> SHA2_UNPACK32 x = be_bytes 4 x.
Proof.
  intros Hx. unfold SHA2_UNPACK32, wrap. rewrite !Z.shiftr_div_pow2 by lia. cbn.
  by rewrite Z.div_1_r.
Qed.

(** ** The compression function *)

Abbreviation wf_words := (Forall is_word).

Lemma nth_word l i : wf_words l -> is_word (nth i l 0).
Proof.
  intros H. destruct (Nat.lt_ge_cases i (length l)).
  - rewrite Forall_forall in H. apply H, list_elem_of_In, nth_In. lia.
  - rewrite nth_overflow by lia. done.
Qed.

#[export] Hint Resolve nth_word : vb_wf.

(** A list grown at its end by a function of what it holds. *)
Lemma grow_spec (f : list Z -> Z) (l : list nat) (w0 : list Z) :
  let w := fold_left (fun w _ => w ++ [f w]) l w0 in
  length w = (length w0 + length l)%nat /\
  take (length w0) w = w0 /\
  (forall t, (length w0 <= t < length w)%nat -> nth t w 0 = f (take t w)) /\
  (Forall is_word w0 -> (forall w', is_word (f w')) -> Forall is_word w).
Proof.
  cbn zeta. revert w0. induction l as [|x l IH]; intros w0; cbn [fold_left].
  { rewrite Nat.add_0_r, firstn_all. split_and!; [done|done|intros; lia|auto]. }
  destruct (IH (w0 ++ [f w0])) as (Hl & Ht & Hn & Hw). rewrite length_app in *. cbn [length] in *.
  set (w := fold_left _ l _) in *.
  assert (take (length w0) w = w0) as Ht0.
  { rewrite <- (take_app_length w0 [f w0]) at 2. rewrite <- Ht, take_take. f_equal. lia. }
  split_and!; [lia|done| |].
  - intros t Htr. destruct (decide (t = length w0)) as [->|]; [|apply Hn; lia].
    rewrite Ht0, <- (take_drop (length w0 + 1) w), Ht.
    rewrite app_nth1 by (rewrite length_app; cbn; lia).
    rewrite app_nth2, Nat.sub_diag by lia. done.
  - intros H0 Hf. apply Hw; [|done]. apply Forall_app. split; [done|by constructor].
Qed.

Lemma nth_take_lt (w : list Z) n i : (i < n)%nat -> nth i (take n w) 0 = nth i w 0.
Proof. intros. by rewrite !nth_lookup, lookup_take_lt by done. Qed.

Lemma pack32_drop l j :
  wf_bytes l -> (4 * j + 4 <= length l)%nat ->
  SHA2_PACK32 (drop (4 * j) l) = be_Z (take 4 (drop (4 * j) l)) /\ is_word (SHA2_PACK32 (drop (4 * j) l)).
Proof.
  intros Hwf Hl. assert (wf_bytes (drop (4 * j) l)) as Hd by (by apply Forall_drop).
  assert (4 <= length (drop (4 * j) l))%nat as Hlen by (rewrite length_drop; lia).
  destruct (drop (4 * j) l) as [|a [|b [|c [|d r]]]]; cbn in Hlen; try lia.
  rewrite !Forall_cons in Hd. destruct Hd as (Ha & Hb & Hc & Hd & _).
  assert (wf_bytes [a; b; c; d]) as Hw by (by rewrite !Forall_cons).
  rewrite pack32_eq by done. split; [done|]. apply (be_Z_range _ Hw).
Qed.

Lemma schedule_ok sub :
  wf_bytes sub -> (64 <= length sub)%nat ->
  Fips.is_schedule sub (fun t => nth t (schedule sub) 0) /\ wf_words (schedule sub).
Proof.
  intros Hwf Hlen. unfold schedule.
  set (w0 := map (fun j => SHA2_PACK32 (drop (4 * j) sub)) (seq 0 16)).
  destruct (grow_spec schedule_word (seq 16 48) w0) as (Hl & Ht & Hn & Hw).
  set (w := fold_left _ _ w0) in *. change (length w0) with 16%nat in *. change (length (seq 16 48)) with 48%nat in Hl.
  assert (wf_words w) as Hww.
  { apply Hw; [|intros; apply u32_word]. apply Forall_map, Forall_forall. intros j Hj.
    apply list_elem_of_In, in_seq in Hj. apply pack32_drop; [done|lia]. }
  split; [|done]. split.
  - intros t Ht16. rewrite <- (nth_take_lt w 16 t) by done. rewrite Ht. unfold w0.
    rewrite (nth_indep _ 0 (SHA2_PACK32 (drop (4 * 0) sub))) by (cbn [length map seq]; lia).
    rewrite (map_nth (fun j => SHA2_PACK32 (drop (4 * j) sub))), seq_nth by lia.
    apply pack32_drop; [done|lia].
  - intros t Htr. rewrite Hn by lia. unfold schedule_word.
    rewrite length_take, Nat.min_l by lia. rewrite !nth_take_lt by lia.
    by rewrite F3_eq, F4_eq by auto with vb_wf.
Qed.

Lemma round_ok w wv j :
  wf_words wv -> vars_of (round w wv j) = Fips.step (K_of j) (nth j w 0) (vars_of wv) /\
  wf_words (round w wv j) /\ length (round w wv j) = 8%nat.
Proof.
  intros Hw. split_and!; [|unfold round; cbn zeta; repeat (apply Forall_cons; split; [auto with vb_wf|]); constructor|done].
  unfold round, Fips.step, vars_of, K_of. cbn [nth Fips.va Fips.vb Fips.vc Fips.vd Fips.ve Fips.vf Fips.vg Fips.vh].
  by rewrite F1_eq, F2_eq, ch_eq by auto with vb_wf.
Qed.

Lemma rounds_ok w l wv :
  wf_words wv -> length wv = 8%nat ->
  vars_of (fold_left (round w) l wv) =
    fold_left (fun s t => Fips.step (K_of t) (nth t w 0) s) l (vars_of wv) /\
  wf_words (fold_left (round w) l wv) /\ length (fold_left (round w) l wv) = 8%nat.
Proof.
  revert wv. induction l as [|j l IH]; intros wv Hw Hl; cbn [fold_left]; [done|].
  destruct (round_ok w wv j Hw) as (Hr & Hw' & Hl'). destruct (IH _ Hw' Hl') as (H1 & H2 & H3).
  by rewrite H1, Hr.
Qed.

Lemma add_ok h wv :
  vars_of (map (fun j => u32 (nth j h 0 + nth j wv 0)) (seq 0 8)) = Fips.add (vars_of h) (vars_of wv) /\
  wf_words (map (fun j => u32 (nth j h 0 + nth j wv 0)) (seq 0 8)) /\
  length (map (fun j => u32 (nth j h 0 + nth j wv 0)) (seq 0 8)) = 8%nat.
Proof.
  split_and!; [reflexivity| |reflexivity]. apply Forall_map, Forall_true. intros. apply u32_word.
Qed.

Lemma transform_block_ok h sub :
  wf_words h -> length h = 8%nat -> wf_bytes sub -> (64 <= length sub)%nat ->
  Fips.compress K_of (vars_of h) sub (vars_of (transform_block h sub)) /\
  wf_words (transform_block h sub) /\ length (transform_block h sub) = 8%nat.
Proof.
  intros Hh Hl Hs Hsl. destruct (schedule_ok sub Hs Hsl) as [Hsch _].
  destruct (rounds_ok (schedule sub) (seq 0 64) h Hh Hl) as (Hr & _ & _).
  destruct (add_ok h (fold_left (round (schedule sub)) (seq 0 64) h)) as (Ha & Hw & Hlen).
  unfold transform_block. rewrite (take_ge h) by lia.
  split; [|split; [exact Hw|exact Hlen]].
  exists (fun t => nth t (schedule sub) 0). split; [exact Hsch|]. rewrite <- Hr. exact Ha.
Qed.

(** The schedule and the compression are functions. *)
Lemma is_schedule_unique sub W W' :
  Fips.is_schedule sub W -> Fips.is_schedule sub W' -> forall t, (t < 64)%nat -> W t = W' t.
Proof.
  intros [H1 H2] [H1' H2'] t. induction t as [t IH] using lt_wf_ind. intros Ht.
  destruct (Nat.lt_ge_cases t 16); [by rewrite H1, H1'|]. rewrite H2, H2' by lia.
  by rewrite !IH by lia.
Qed.

Lemma compress_unique K H sub H1 H2 :
  Fips.compress K H sub H1 -> Fips.compress K H sub H2 -> H1 = H2.
Proof.
  intros (W & HW & ->) (W' & HW' & ->). f_equal.
  assert (Forall (fun t => (t < 64)%nat) (seq 0 64)) as Hs.
  { apply Forall_forall. intros t Ht. apply list_elem_of_In, in_seq in Ht. lia. }
  revert H. induction Hs as [|t l Ht _ IH]; intros H; cbn [fold_left]; [done|].
  by rewrite (is_schedule_unique sub W W' HW HW' t Ht).
Qed.

(** ** Chaining *)

Lemma is_schedule_take sub W :
  Fips.is_schedule sub W -> Fips.is_schedule (take 64 sub) W.
Proof.
  intros [H1 H2]. split; [|done]. intros t Ht. rewrite H1 by done.
  rewrite skipn_firstn_comm, take_take. f_equal. f_equal. lia.
Qed.

Lemma chain_app K H a H' b H'' :
  Fips.chain K H a H' -> Fips.chain K H' b H'' -> Fips.chain K H (a ++ b) H''.
Proof.
  induction 1; intros Hb; [done|]. rewrite <- app_assoc. econstructor; eauto.
Qed.

Lemma transform_shift (f : list Z -> bytes -> list Z) msg l h :
  fold_left (fun h i => f h (drop (64 * i) msg)) (map S l) h =
  fold_left (fun h i => f h (drop (64 * i) (drop 64 msg))) l h.
Proof.
  revert h. induction l as [|i l IH]; intros h; [reflexivity|]. cbn [map fold_left].
  rewrite drop_drop, IH. replace (64 + 64 * i)%nat with (64 * S i)%nat by lia. reflexivity.
Qed.

Lemma transform_S h msg n :
  transform h msg (S n) = transform (transform_block h msg) (drop 64 msg) n.
Proof. unfold transform. cbn [seq fold_left]. rewrite <- seq_shift. apply transform_shift. Qed.

Lemma transform_chain n h msg :
  wf_words h -> length h = 8%nat -> wf_bytes msg -> (64 * n <= length msg)%nat ->
  Fips.chain K_of (vars_of h) (take (64 * n) msg) (vars_of (transform h msg n)) /\
  wf_words (transform h msg n) /\ length (transform h msg n) = 8%nat.
Proof.
  revert h msg. induction n as [|n IH]; intros h msg Hh Hl Hm Hlen.
  { split_and!; [constructor|done|done]. }
  destruct (transform_block_ok h msg Hh Hl Hm ltac:(lia)) as ((W & HW & HH) & Hh' & Hl').
  destruct (IH (transform_block h msg) (drop 64 msg)) as (Hc & Hw & Hl'');
    [done|done|by apply Forall_drop|rewrite length_drop; lia|].
  rewrite transform_S. split_and!; [|done|done].
  replace (take (64 * S n) msg) with (take 64 msg ++ take (64 * n) (drop 64 msg)).
  - econstructor; [rewrite length_take; lia| |exact Hc].
    exists W. split; [by apply is_schedule_take|exact HH].
  - rewrite firstn_skipn_comm. replace (64 + 64 * n)%nat with (64 * S n)%nat by lia.
    rewrite <- (take_drop 64 (take (64 * S n) msg)) at 2. rewrite take_take. f_equal. f_equal. lia.
Qed.

(** ** Streaming *)

(** [absorbed c M]: the context has read the bytes [M]; the blocks that are
    complete went through [transform], the others wait in [m_block]. *)
Inductive absorbed (c : SHA256) (M : bytes) : Prop :=
| Absorbed (full tail : bytes) :
    M = full ++ tail ->
    m_len c = Z.of_nat (length tail) -> (length tail < 64)%nat ->
    Z.of_nat (length full) mod 64 = 0 -> m_tot_len c = u32 (Z.of_nat (length full)) ->
    take (length tail) (m_block c) = tail ->
    length (m_block c) = 128%nat -> wf_bytes (m_block c) ->
    wf_words (m_h c) -> length (m_h c) = 8%nat ->
    Fips.chain K_of (vars_of init_h) full (vars_of (m_h c)) ->
    absorbed c M.

Lemma take_write_at i l a :
  (i <= length a)%nat -> take (i + length l) (write_at i l a) = take i a ++ l.
Proof.
  intros Hi. unfold write_at. rewrite app_assoc.
  rewrite take_app_le by (rewrite length_app, length_take; lia).
  apply take_ge. rewrite length_app, length_take. lia.
Qed.

Lemma absorbed_init c :
  length (m_block c) = 128%nat -> wf_bytes (m_block c) -> absorbed (init c) [].
Proof.
  intros Hl Hw. apply (Absorbed _ _ [] []); cbn -[vars_of]; try done; try lia.
  - apply (bool_decide_unpack _). vm_compute. exact I.
  - constructor.
Qed.

(** A block completed by the head of the new bytes, then whole blocks of them. *)
Lemma update_blocks (h : list Z) (full tail msg block : bytes) rem nb :
  wf_words h -> length h = 8%nat -> wf_bytes block -> wf_bytes msg -> length block = 128%nat ->
  Fips.chain K_of (vars_of init_h) full (vars_of h) ->
  (length tail + rem = 64)%nat -> (rem + 64 * nb <= length msg)%nat ->
  take 64 block = tail ++ take rem msg ->
  let h2 := transform (transform h block 1) (drop rem msg) nb in
  Fips.chain K_of (vars_of init_h) (full ++ tail ++ take (rem + 64 * nb) msg) (vars_of h2) /\
  wf_words h2 /\ length h2 = 8%nat.
Proof.
  intros Hh Hl Hb Hm Hlb Hc Hrem Hnb Htk. cbn zeta.
  destruct (transform_chain 1 h block Hh Hl Hb ltac:(lia)) as (C1 & W1 & L1).
  destruct (transform_chain nb _ (drop rem msg) W1 L1 ltac:(by apply Forall_drop)
              ltac:(rewrite length_drop; lia)) as (C2 & W2 & L2).
  split_and!; [|exact W2|exact L2].
  replace (tail ++ take (rem + 64 * nb) msg) with (take (64 * 1) block ++ take (64 * nb) (drop rem msg)).
  - eapply chain_app; [exact Hc|]. eapply chain_app; [exact C1|exact C2].
  - change (64 * 1)%nat with 64%nat. rewrite Htk, <- app_assoc. f_equal.
    rewrite firstn_skipn_comm. rewrite <- (take_drop rem (take (rem + 64 * nb) msg)) at 2.
    rewrite take_take. f_equal. f_equal. lia.
Qed.

Lemma absorbed_update c M msg :
  absorbed c M -> wf_bytes msg -> Z.of_nat (length msg) < 2 ^ 32 - 64 ->
  absorbed (update msg c) (M ++ msg).
Proof.
  intros [full tail -> Hlen Hshort Hmod Htot Hbuf Hsize Hbytes Hw Hl Hchain] Hmsg Hlt.
  unfold update. rewrite (wrap_small 32 (Z.of_nat (length msg))) by lia. rewrite Hlen.
  unfold SHA224_256_BLOCK_SIZE.
  rewrite (wrap_small 32 (64 - _)), (wrap_small 32 (Z.of_nat (length tail) + _)) by lia.
  rewrite Nat2Z.id. destruct (Z.ltb_spec (Z.of_nat (length tail) + Z.of_nat (length msg)) 64).
  - destruct (Z.ltb_spec (Z.of_nat (length msg)) (64 - Z.of_nat (length tail))); [|lia].
    rewrite Nat2Z.id, firstn_all.
    apply (Absorbed _ _ full (tail ++ msg)); cbn [m_len m_tot_len m_block m_h];
      rewrite ?length_app; try done; try lia.
    + by rewrite app_assoc.
    + rewrite take_write_at by lia. by rewrite Hbuf.
    + rewrite length_write_at by lia. done.
    + auto with vb_wf.
  - destruct (Z.ltb_spec (Z.of_nat (length msg)) (64 - Z.of_nat (length tail))); [lia|].
    remember (64 - length tail)%nat as rem eqn:Erem. replace (Z.to_nat (64 - Z.of_nat (length tail))) with rem by lia.
    rewrite (wrap_small 32 (Z.of_nat (length msg) - _)) by lia.
    replace (Z.of_nat (length msg) - (64 - Z.of_nat (length tail))) with (Z.of_nat (length msg - rem)) by lia.
    remember (length msg - rem)%nat as nl eqn:Enl.
    pose proof (Nat.div_mod_eq nl 64) as Hdm. pose proof (Nat.mod_upper_bound nl 64 ltac:(lia)) as Hub.
    assert (Z.of_nat nl / 64 = Z.of_nat (nl / 64) /\ Z.of_nat nl mod 64 = Z.of_nat (nl mod 64)) as [-> ->]
      by (by rewrite Nat2Z.inj_div, Nat2Z.inj_mod).
    remember (nl / 64)%nat as nb eqn:Enb. remember (nl mod 64)%nat as r eqn:Er. clear Enb Er.
    rewrite !Z.shiftl_mul_pow2 by lia. rewrite !Nat2Z.id.
    replace (Z.to_nat (Z.of_nat nb * 2 ^ 6)) with (64 * nb)%nat by lia.
    set (block := write_at (length tail) (take rem msg) (m_block c)).
    assert (length block = 128%nat) as Lb by (unfold block; rewrite length_write_at; [done|rewrite length_take; lia]).
    assert (wf_bytes block) as Wb by (unfold block; auto using Forall_take with vb_wf).
    assert (take 64 block = tail ++ take rem msg) as Tb.
    { unfold block. pose proof (take_write_at (length tail) (take rem msg) (m_block c) ltac:(lia)) as T.
      rewrite length_take, Hbuf in T. by replace (length tail + rem `min` length msg)%nat with 64%nat in T by lia. }
    destruct (update_blocks (m_h c) full tail msg block rem nb) as (C2 & W2 & L2); try done; try lia.
    assert (length (take r (drop (64 * nb) (drop rem msg))) = r) as Lr.
    { rewrite length_take, !length_drop. lia. }
    apply (Absorbed _ _ (full ++ tail ++ take (rem + 64 * nb) msg) (take r (drop (64 * nb) (drop rem msg))));
      cbn [m_len m_tot_len m_block m_h]; rewrite ?Lr; try done; try lia.
    + rewrite <- !app_assoc. f_equal. f_equal. rewrite drop_drop, (take_ge (drop _ _)) by (rewrite length_drop; lia).
      by rewrite take_drop.
    + rewrite !length_app, length_take, Nat.min_l by lia.
      replace (Z.of_nat (length full + (length tail + (rem + 64 * nb)))) with
        (Z.of_nat (length full) + (1 + Z.of_nat nb) * 64) by lia.
      by rewrite Z.mod_add by lia.
    + rewrite Htot, !length_app, length_take, Nat.min_l by lia. unfold wrap.
      rewrite <- Z.add_mod by lia. f_equal. lia.
    + pose proof (take_write_at 0 (take r (drop (64 * nb) (drop rem msg))) block ltac:(lia)) as T.
      rewrite Lr in T. exact T.
    + rewrite length_write_at by (rewrite Lr; lia). done.
    + apply write_at_wf; [|done]. apply Forall_take. by repeat apply Forall_drop.
Qed.

(** ** Padding *)

Lemma write_at_app (a x b l : bytes) :
  length x = length l -> write_at (length a) l (a ++ x ++ b) = a ++ l ++ b.
Proof.
  intros Hx. unfold write_at. rewrite take_app_length. f_equal. f_equal.
  rewrite drop_app_ge by lia. replace (length a + length l - length a)%nat with (length x) by lia.
  by rewrite drop_app_length.
Qed.

(** The three writes of [final] on a buffer that starts with the pending bytes. *)
Lemma padding_writes (tail b : bytes) P len :
  length b = 128%nat -> take (length tail) b = tail -> (length tail + 9 <= P <= 128)%nat -> length len = 4%nat ->
  write_at (P - 4) len (write_at (length tail) [128]
    (write_at (length tail) (replicate (P - length tail) 0) b)) =
  (tail ++ [128] ++ replicate (P - length tail - 5) 0 ++ len) ++ drop P b.
Proof.
  intros Hb Ht HP Hlen.
  assert (length (drop (length tail) b) = (128 - length tail)%nat) as Ld by (rewrite length_drop; lia).
  rewrite <- (take_drop (length tail) b) at 1. rewrite Ht.
  rewrite <- (take_drop (P - length tail) (drop (length tail) b)) at 1.
  rewrite write_at_app by (rewrite length_take, length_replicate; lia).
  rewrite drop_drop. replace (length tail + (P - length tail))%nat with P by lia.
  replace (P - length tail)%nat with (1 + ((P - length tail - 5) + 4))%nat at 1 by lia.
  rewrite !replicate_add, <- !app_assoc. rewrite (write_at_app tail [0]) by done.
  rewrite !app_assoc. rewrite <- (app_assoc _ (replicate 4 0)).
  replace (P - 4)%nat with (length ((tail ++ [128]) ++ replicate (P - length tail - 5) 0))
    by (rewrite !length_app, length_replicate; cbn [length]; lia).
  rewrite write_at_app by (by rewrite Hlen). by rewrite !app_assoc.
Qed.

Lemma be_bytes_8_small z :
  0 <= z < 2 ^ 32 -> be_bytes 8 z = replicate 4 0 ++ be_bytes 4 z.
Proof.
  intros Hz. change (be_bytes 8 z) with
    (z / 256 ^ 7 mod 256 :: z / 256 ^ 6 mod 256 :: z / 256 ^ 5 mod 256 :: z / 256 ^ 4 mod 256 :: be_bytes 4 z).
  rewrite !Z.div_small by lia. reflexivity.
Qed.

(** The padding of the standard, by the bytes that wait in the buffer. *)
Lemma pad_split (full tail : bytes) P :
  Z.of_nat (length full) mod 64 = 0 -> Z.of_nat (length (full ++ tail)) < 2 ^ 29 ->
  (length tail < 64)%nat -> P = (if (55 <? Z.of_nat (length tail))%Z then 128 else 64)%nat ->
  Fips.pad (full ++ tail) =
  full ++ tail ++ [128] ++ replicate (P - length tail - 5) 0 ++
  be_bytes 4 (8 * Z.of_nat (length (full ++ tail))).
Proof.
  intros Hm Hlt Ht HP. unfold Fips.pad. rewrite be_bytes_8_small by lia.
  rewrite <- !app_assoc. f_equal. f_equal. f_equal. rewrite app_assoc. f_equal.
  rewrite <- replicate_add. f_equal. rewrite length_app, Nat2Z.inj_add.
  apply Z.mod_divide in Hm as [q Hq]; [|lia]. rewrite Hq.
  replace (55 - (q * 64 + Z.of_nat (length tail))) with (55 - Z.of_nat (length tail) + (- q) * 64) by lia.
  rewrite Z.mod_add by lia. subst P. destruct (Z.ltb_spec 55 (Z.of_nat (length tail))).
  - replace (55 - Z.of_nat (length tail)) with (119 - Z.of_nat (length tail) + (-1) * 64) by lia.
    rewrite Z.mod_add, Z.mod_small by lia. lia.
  - rewrite Z.mod_small by lia. lia.
Qed.

Lemma out_ok h : wf_words h -> length h = 8%nat -> concat (map SHA2_UNPACK32 h) = Fips.out (vars_of h).
Proof.
  intros Hw Hl. destruct h as [|a [|b [|c [|d [|e [|f [|g [|i [|]]]]]]]]]; try discriminate Hl.
  rewrite !Forall_cons in Hw. destruct Hw as (? & ? & ? & ? & ? & ? & ? & ? & _).
  cbn [map concat]. rewrite !unpack32_eq by done. by rewrite app_nil_r.
Qed.

Lemma final_ok c M :
  absorbed c M -> Z.of_nat (length M) < 2 ^ 29 ->
  Fips.digest K_of (vars_of init_h) M (final c).
Proof.
  intros [full tail -> Hlen Hshort Hmod Htot Hbuf Hsize Hbytes Hw Hl Hchain] Hlt.
  unfold final. rewrite Hlen, Htot. unfold SHA224_256_BLOCK_SIZE. change (64 - 9) with 55.
  rewrite (Z.mod_small (Z.of_nat (length tail))) by lia. rewrite Nat2Z.id.
  pose proof (pad_split full tail _ Hmod Hlt Hshort eq_refl) as Hpad.
  rewrite length_app in Hlt. rewrite (wrap_small 32 (Z.of_nat (length full))) by lia.
  rewrite (wrap_small 32 (_ + _)) by lia. rewrite !Z.shiftl_mul_pow2 by lia.
  rewrite wrap_small by lia.
  set (n := if 55 <? Z.of_nat (length tail) then 1 else 0).
  assert (n = 0 /\ (length tail <= 55)%nat \/ n = 1 /\ (55 < length tail)%nat) as Hn.
  { unfold n. destruct (Z.ltb_spec 55 (Z.of_nat (length tail))); lia. }
  assert ((if (55 <? Z.of_nat (length tail))%Z then 128 else 64)%nat = Z.to_nat ((1 + n) * 2 ^ 6)) as EP.
  { unfold n. destruct (55 <? Z.of_nat (length tail)); done. }
  rewrite EP in Hpad. clear EP. clearbody n.
  replace (Z.to_nat ((1 + n) * 2 ^ 6 - Z.of_nat (length tail))) with (Z.to_nat ((1 + n) * 2 ^ 6) - length tail)%nat by lia.
  replace (Z.to_nat ((1 + n) * 2 ^ 6 - 4)) with (Z.to_nat ((1 + n) * 2 ^ 6) - 4)%nat by lia.
  assert (64 * Z.to_nat (1 + n) = Z.to_nat ((1 + n) * 2 ^ 6))%nat as EP by lia.
  set (P := Z.to_nat ((1 + n) * 2 ^ 6)) in *. set (nb := Z.to_nat (1 + n)) in *.
  replace ((Z.of_nat (length full) + Z.of_nat (length tail)) * 2 ^ 3) with
    (8 * Z.of_nat (length (full ++ tail))) by (rewrite length_app; lia).
  rewrite unpack32_eq by (rewrite length_app; unfold is_word; lia).
  rewrite padding_writes by (try done; rewrite ?be_bytes_length; lia).
  set (X := tail ++ [128] ++ _ ++ _) in *.
  assert (length X = P) as LX.
  { unfold X. rewrite !length_app, length_replicate, be_bytes_length. cbn [length]. lia. }
  assert (wf_bytes X) as WX.
  { unfold X. rewrite !Forall_app. split_and!.
    - rewrite <- Hbuf. by apply Forall_take.
    - repeat constructor; done.
    - by apply Forall_replicate.
    - apply be_bytes_wf. }
  destruct (transform_chain nb (m_h c) (X ++ drop P (m_block c))) as (C & W & L);
    [done|done|apply Forall_app; split; [done|by apply Forall_drop]|rewrite length_app; lia|].
  rewrite EP, <- LX, take_app_length in C.
  exists (vars_of (transform (m_h c) (X ++ drop P (m_block c)) nb)). split.
  - rewrite Hpad. eapply chain_app; [exact Hchain|]. rewrite LX in C. exact C.
  - by apply out_ok.
Qed.

(** The specification determines the digest. *)
Lemma chain_inv K H M H' :
  Fips.chain K H M H' ->
  (M = [] /\ H' = H) \/
  exists b r H1, M = b ++ r /\ length b = 64%nat /\ Fips.compress K H b H1 /\ Fips.chain K H1 r H'.
Proof. destruct 1; [by left|right]. eexists _, _, _. eauto. Qed.

Lemma chain_unique K H M H1 H2 : Fips.chain K H M H1 -> Fips.chain K H M H2 -> H1 = H2.
Proof.
  intros C. revert H2.
  induction C as [H|H b r H' H'' Hl Hc C IH]; intros H2 [[HM ->]|(b' & r' & H1 & HM & Hl' & Hc' & C')]%chain_inv.
  - done.
  - apply (f_equal length) in HM. rewrite length_app, Hl' in HM. discriminate HM.
  - apply (f_equal length) in HM. rewrite length_app, Hl in HM. discriminate HM.
  - apply app_inj_1 in HM as [-> ->]; [|congruence].
    apply IH. by rewrite (compress_unique _ _ _ _ _ Hc Hc').
Qed.

Lemma absorbed_updates chunks c M :
  absorbed c M -> Forall wf_bytes chunks ->
  Forall (fun m => Z.of_nat (length m) < 2 ^ 32 - 64) chunks ->
  absorbed (fold_left (fun c m => update m c) chunks c) (M ++ concat chunks).
Proof.
  intros Ha Hw Hl. revert c M Ha. induction chunks as [|m chunks IH]; intros c M Ha; cbn.
  { by rewrite app_nil_r. }
  inversion_clear Hw. inversion_clear Hl. rewrite app_assoc. apply IH; [done|done|].
  by apply absorbed_update.
Qed.

Lemma chunk_lengths (chunks : list bytes) n :
  Z.of_nat (length (concat chunks)) < n -> Forall (fun m => Z.of_nat (length m) < n) chunks.
Proof.
  induction chunks as [|m chunks IH]; cbn; [constructor|]. rewrite length_app. intros H.
  constructor; [lia|]. apply IH. lia.
Qed.

Definition is_hex_digit (c : Z) : bool := ((48 <=? c) && (c <=? 57)) || ((97 <=? c) && (c <=? 102)).

Lemma hex_pairs_ok d :
  wf_bytes d -> length (concat (map hex_pair d)) = (2 * length d)%nat /\
  Forall (fun c => is_hex_digit c = true) (concat (map hex_pair d)).
Proof.
  assert (forall i, (i < 16)%nat -> is_hex_digit (nth i hex_digits 0) = true) as Hd.
  { intros i Hi. do 16 (destruct i as [|i]; [reflexivity|]). lia. }
  induction 1 as [|b d Hb Hw [IH1 IH2]]; [done|]. cbn [map concat]. rewrite length_app, IH1.
  split; [cbn; lia|]. apply Forall_app. split; [|done]. unfold is_byte in Hb.
  pose proof (Z.mod_pos_bound b 16 ltac:(lia)). pose proof (Z.div_lt_upper_bound b 16 16 ltac:(lia) ltac:(lia)).
  pose proof (Z.div_pos b 16 ltac:(lia) ltac:(lia)).
  repeat constructor; apply Hd; lia.
Qed.

Lemma out_wf H : wf_bytes (Fips.out H) /\ length (Fips.out H) = 32%nat.
Proof.
  split; [|done]. unfold Fips.out. rewrite !Forall_app. split_and!; apply be_bytes_wf.
Qed.

Lemma sha256_digest input :
  wf_bytes input -> Z.of_nat (length input) < 2 ^ 29 ->
  exists d, Fips.digest K_of (vars_of init_h) input d /\ length d = 32%nat /\ wf_bytes d /\
    sha256 input = concat (map hex_pair d) /\ length (sha256 input) = 64%nat /\
    Forall (fun c => is_hex_digit c = true) (sha256 input).
Proof.
  intros Hw Hlt. unfold sha256. set (c := mkSHA256 0 0 (replicate 128 0) (replicate 8 0)).
  assert (absorbed (update input (init c)) input) as Ha.
  { apply (absorbed_update (init c) []); [|done|lia]. apply absorbed_init; [done|by_compute]. }
  pose proof (final_ok _ _ Ha Hlt) as Hd. pose proof Hd as (H & _ & Ho).
  destruct (out_wf H) as [Wo Lo]. destruct (hex_pairs_ok (Fips.out H) Wo) as [Hl Hh].
  exists (final (update input (init c))). rewrite Ho in *. rewrite Lo in Hl. by split_and!.
Qed.

Lemma sha256_length input :
  wf_bytes input -> Z.of_nat (length input) < 2 ^ 29 -> length (sha256 input) = 64%nat.
Proof. intros Hw Hl. by destruct (sha256_digest input Hw Hl) as (d & _ & _ & _ & _ & ? & _). Qed.

Lemma sha256_wf input :
  wf_bytes input -> Z.of_nat (length input) < 2 ^ 29 -> wf_bytes (sha256 input).
Proof.
  intros Hw Hl. destruct (sha256_digest input Hw Hl) as (d & _ & _ & _ & _ & _ & Hh).
  eapply Forall_impl; [exact Hh|]. unfold is_hex_digit, is_byte. intros c Hc.
  apply orb_true_iff in Hc as [Hc|Hc]; zb; lia.
Qed.

(** A digest is no text of another length. *)
Lemma sha256_ne input key :
  wf_bytes input -> Z.of_nat (length input) < 2 ^ 29 -> length key <> 64%nat -> sha256 input <> key.
Proof. intros Hw Hl Hk <-. by rewrite sha256_length in Hk. Qed.

(** ** Theorems *)

(** The constants of the code are the ones of the standard: the initial
    values are the leading 32 bits of the fractional parts of the square roots of
    the first eight primes, [sha256_k] those of the cube roots of the first 64. *)
Theorem sha256_constants :
  Forall2 Fips.sqrt_bits (take 8 Fips.primes) init_h /\ Forall2 Fips.cbrt_bits Fips.primes sha256_k.
Proof.
  assert (forall (root : Z -> Z) (test : Z -> Z -> Z -> bool) (P : Z -> Z -> Prop) ps ks,
            (forall p k, test p (root p) k = true -> P p k) -> length ps = length ks ->
            forallb (fun pk => test pk.1 (root pk.1) pk.2) (combine ps ks) = true -> Forall2 P ps ks) as Hall.
  { intros root test P ps ks Ht. revert ks. induction ps as [|p ps IH]; intros [|k ks] Hl Hf; try done.
    cbn in Hf. apply andb_true_iff in Hf as [H1 H2]. constructor; [by apply Ht|]. apply IH; [by injection Hl|done]. }
  split.
  - apply (Hall Z.sqrt (fun p r k => ((r * 2 ^ 32 + k) ^ 2 <=? p * 2 ^ 64) &&
       (p * 2 ^ 64 <? (r * 2 ^ 32 + k + 1) ^ 2) && (0 <=? k) && (k <? 2 ^ 32)));
      [|vm_compute; reflexivity..].
    intros p k H. zb. eexists. split; [split; eassumption|lia].
  - apply (Hall (fun p => if p <? 8 then 1 else if p <? 27 then 2 else if p <? 64 then 3 else if p <? 125 then 4
                          else if p <? 216 then 5 else 6)
       (fun p r k => ((r * 2 ^ 32 + k) ^ 3 <=? p * 2 ^ 96) &&
       (p * 2 ^ 96 <? (r * 2 ^ 32 + k + 1) ^ 3) && (0 <=? k) && (k <? 2 ^ 32)));
      [|vm_compute; reflexivity..].
    intros p k H. zb. eexists. split; [split; eassumption|lia].
Qed.

(** C2. Streaming: whatever way a message of less than 2^29 bytes is cut into
    calls of [update], [final] gives the SHA-256 digest of the whole message, and
    no other value is its digest. *)
Theorem streaming_digest c chunks d :
  length (m_block c) = 128%nat -> wf_bytes (m_block c) -> Forall wf_bytes chunks ->
  Z.of_nat (length (concat chunks)) < 2 ^ 29 ->
  Fips.digest K_of (vars_of init_h) (concat chunks) d <->
  d = final (fold_left (fun c m => update m c) chunks (init c)).
Proof.
  intros Hl Hw Hc Hlt.
  assert (absorbed (fold_left (fun c m => update m c) chunks (init c)) (concat chunks)) as Ha.
  { apply (absorbed_updates chunks (init c) []); [by apply absorbed_init|done|].
    apply chunk_lengths. lia. }
  pose proof (final_ok _ _ Ha Hlt) as Hf. split; [|by intros ->].
  intros (H & Hch & ->). destruct Hf as (H' & Hch' & ->). f_equal. by eapply chain_unique.
Qed.

Lemma streaming_digest_witness :
  Fips.digest K_of (vars_of init_h) (str "abc")
    (final (fold_left (fun c m => update m c) [str "a"; str "bc"] (init (mkSHA256 0 0 (replicate 128 0) [])))).
Proof.
  apply (streaming_digest (mkSHA256 0 0 (replicate 128 0) []) [str "a"; str "bc"]);
    [reflexivity|by_compute|by_compute|reflexivity|reflexivity].
Defined.

(** [sha256] returns the 64 lower-case hexadecimal digits of the SHA-256
    digest of its input, for inputs of less than 2^29 bytes (the 32-bit counter of
    bits wraps beyond). *)
Theorem sha256_fips input :
  wf_bytes input -> Z.of_nat (length input) < 2 ^ 29 ->
  exists d, Fips.digest K_of (vars_of init_h) input d /\ length d = 32%nat /\ wf_bytes d /\
    sha256 input = concat (map hex_pair d) /\ length (sha256 input) = 64%nat /\
    Forall (fun c => is_hex_digit c = true) (sha256 input).
Proof. apply sha256_digest. Qed.

Lemma sha256_fips_witness :
  exists d, Fips.digest K_of (vars_of init_h) (str "abc") d /\
    str "ba7816bf8f01cfea414140de5dae2223b00361a396177a9cb410ff61f20015ad" = concat (map hex_pair d).
Proof.
  destruct (sha256_fips (str "abc") ltac:(by_compute) ltac:(reflexivity)) as (d & H1 & _ & _ & H2 & _).
  exists d. split; [exact H1|]. rewrite <- H2. vm_compute. reflexivity.
Defined.
