(* ===== verification/MsgPack.v ===== *)
(** * MsgPack: the wire format

    Models the MessagePack encoder and decoder that the DHT and the blockchain
    serialise with: the packer of
    src/verified-blockchain/include/msgpack-c/include/msgpack/v1/pack.hpp, the
    packing of an object (v1/object.hpp), the push-down parser of v3/parse.hpp
    driven with the visitor of v2/create_object_visitor.hpp.

    The parser's stack and the visitor's stack of object pointers are one stack of
    frames here, which hold the items read so far.  The position in the buffer is
    the list of bytes that follow it; the increment that the code delays with
    [fixed_trail_again] is done at once.  Floating point numbers are their bits.
    The limits are the default ones. *)
From S2P Require Import Prelude.

(** ** Objects *)

Inductive obj :=
| ONil
| OBool (b : bool)
| OPos (n : Z)
| ONeg (n : Z)
| OFloat32 (bits : Z)
| OFloat64 (bits : Z)
| OStr (s : bytes)
| OBin (s : bytes)
| OExt (type : Z) (s : bytes)
| OArr (l : list obj)
| OMap (l : list (obj * obj)).

(** ** The packer *)

Definition take8 (d : Z) : Z := d mod 256.

Definition pack_imp_uint64 (d : Z) : bytes :=
  if d <? 2 ^ 8 then
    if d <? 2 ^ 7 then [take8 d] else [0xcc; take8 d]
  else if d <? 2 ^ 16 then 0xcd :: be_bytes 2 d
  else if d <? 2 ^ 32 then 0xce :: be_bytes 4 d
  else 0xcf :: be_bytes 8 d.

Definition pack_imp_int64 (d : Z) : bytes :=
  if d <? - 2 ^ 5 then
    if d <? - 2 ^ 15 then
      if d <? - 2 ^ 31 then 0xd3 :: be_bytes 8 d else 0xd2 :: be_bytes 4 d
    else if d <? - 2 ^ 7 then 0xd1 :: be_bytes 2 d else [0xd0; take8 d]
  else if d <? 2 ^ 7 then [take8 d]
  else if d <? 2 ^ 16 then
    if d <? 2 ^ 8 then [0xcc; take8 d] else 0xcd :: be_bytes 2 d
  else if d <? 2 ^ 32 then 0xce :: be_bytes 4 d else 0xcf :: be_bytes 8 d.

Definition pack_imp_int32 (d : Z) : bytes :=
  if d <? - 2 ^ 5 then
    if d <? - 2 ^ 15 then 0xd2 :: be_bytes 4 d
    else if d <? - 2 ^ 7 then 0xd1 :: be_bytes 2 d else [0xd0; take8 d]
  else if d <? 2 ^ 7 then [take8 d]
  else if d <? 2 ^ 8 then [0xcc; take8 d]
  else if d <? 2 ^ 16 then 0xcd :: be_bytes 2 d
  else 0xce :: be_bytes 4 d.

Definition pack_imp_uint32 (d : Z) : bytes :=
  if d <? 2 ^ 8 then
    if d <? 2 ^ 7 then [take8 d] else [0xcc; take8 d]
  else if d <? 2 ^ 16 then 0xcd :: be_bytes 2 d
  else 0xce :: be_bytes 4 d.

Definition pack_imp_uint16 (d : Z) : bytes :=
  if d <? 2 ^ 7 then [take8 d]
  else if d <? 2 ^ 8 then [0xcc; take8 d]
  else 0xcd :: be_bytes 2 d.

Definition pack_imp_uint8 (d : Z) : bytes :=
  if d <? 2 ^ 7 then [take8 d] else [0xcc; take8 d].

Definition pack_float (bits : Z) : bytes := 0xca :: be_bytes 4 bits.
Definition pack_double (bits : Z) : bytes := 0xcb :: be_bytes 8 bits.
Definition pack_nil : bytes := [0xc0].
Definition pack_true : bytes := [0xc3].
Definition pack_false : bytes := [0xc2].

Definition pack_array (n : Z) : bytes :=
  if n <? 16 then [Z.lor 0x90 n]
  else if n <? 65536 then 0xdc :: be_bytes 2 n
  else 0xdd :: be_bytes 4 n.

Definition pack_map (n : Z) : bytes :=
  if n <? 16 then [Z.lor 0x80 n]
  else if n <? 65536 then 0xde :: be_bytes 2 n
  else 0xdf :: be_bytes 4 n.

Definition pack_str (l : Z) : bytes :=
  if l <? 32 then [Z.lor 0xa0 l]
  else if l <? 256 then [0xd9; take8 l]
  else if l <? 65536 then 0xda :: be_bytes 2 l
  else 0xdb :: be_bytes 4 l.

Definition pack_bin (l : Z) : bytes :=
  if l <? 256 then [0xc4; take8 l]
  else if l <? 65536 then 0xc5 :: be_bytes 2 l
  else 0xc6 :: be_bytes 4 l.

Definition pack_ext (l type : Z) : bytes :=
  if l =? 1 then [0xd4; type]
  else if l =? 2 then [0xd5; type]
  else if l =? 4 then [0xd6; type]
  else if l =? 8 then [0xd7; type]
  else if l =? 16 then [0xd8; type]
  else if l <? 256 then [0xc7; take8 l; type]
  else if l <? 65536 then (0xc8 :: be_bytes 2 l) ++ [type]
  else (0xc9 :: be_bytes 4 l) ++ [type].

Definition len (l : bytes) : Z := Z.of_nat (length l).

(** Packing a string and a binary, header and body. *)
Definition pack_string (s : bytes) : bytes := pack_str (len s) ++ s.
Definition pack_binary (s : bytes) : bytes := pack_bin (len s) ++ s.

(** Packing an object ([object_pack_visitor]). *)
Fixpoint pack (o : obj) : bytes :=
  match o with
  | ONil => pack_nil
  | OBool b => if b then pack_true else pack_false
  | OPos n => pack_imp_uint64 n
  | ONeg n => pack_imp_int64 n
  | OFloat32 b => pack_float b
  | OFloat64 b => pack_double b
  | OStr s => pack_string s
  | OBin s => pack_binary s
  | OExt t s => pack_ext (len s) t ++ s
  | OArr l => pack_array (Z.of_nat (length l)) ++ concat (map pack l)
  | OMap l => pack_map (Z.of_nat (length l)) ++
              concat (map (fun kv => match kv with (k, v) => pack k ++ pack v end) l)
  end.

(** ** The parser *)

(** Entries of the stack: the number of items still to come, the ones read. *)
Inductive frame :=
| FArrayItem (rest : Z) (items : list obj)
| FMapKey (rest : Z) (items : list (obj * obj))
| FMapValue (rest : Z) (items : list (obj * obj)) (key : obj).

(** [unpack_stack::consume]: hand a finished object to the enclosing containers;
    [inl] when the outermost object is finished ([PARSE_SUCCESS]). *)
Fixpoint consume (stk : list frame) (o : obj) : obj + list frame :=
  match stk with
  | [] => inl o
  | FArrayItem n items :: stk' =>
      if n - 1 =? 0 then consume stk' (OArr (rev (o :: items)))
      else inr (FArrayItem (n - 1) (o :: items) :: stk')
  | FMapKey n items :: stk' => inr (FMapValue n items o :: stk')
  | FMapValue n items k :: stk' =>
      if n - 1 =? 0 then consume stk' (OMap (rev ((k, o) :: items)))
      else inr (FMapKey (n - 1) ((k, o) :: items) :: stk')
  end.

(** The state between two rounds: [m_cs], [m_trail], the bytes from [m_current]
    on, the stack. *)
Record pstate := PS { p_cs : Z; p_trail : Z; p_rest : bytes; p_stack : list frame }.

Definition CS_HEADER : Z := 0x00.
Definition ACS_STR_VALUE : Z := 0x20.
Definition ACS_BIN_VALUE : Z := 0x21.
Definition ACS_EXT_VALUE : Z := 0x22.

(** How a round ends: go on, or stop with an object and the bytes after it, or an
    exception of the visitor. *)
Definition step_result : Type := pstate + outcome (obj * bytes).

(** [after_visit_proc]. *)
Definition after_visit (o : obj) (rest : bytes) (stk : list frame) : step_result :=
  match consume stk o with
  | inl o' => inr (Ret (o', rest))
  | inr stk' => inl (PS CS_HEADER 0 rest stk')
  end.

(** [start_aggregate] with [start_array] or [start_map] of the visitor. *)
Definition start_aggregate (is_map : bool) (size : Z) (rest : bytes) (stk : list frame) : step_result :=
  if 0xffffffff <? 1 + Z.of_nat (length stk) then inr (Throw "depth size overflow")
  else if size =? 0 then after_visit (if is_map then OMap [] else OArr []) rest stk
  else inl (PS CS_HEADER 0 rest ((if is_map then FMapKey size [] else FArrayItem size []) :: stk)).

(** The number of bytes after the selectors 0xc4 to 0xdf. *)
Definition trail_table : list Z :=
  [1; 2; 4; 1; 2; 4; 4; 8; 1; 2; 4; 8; 1; 2; 4; 8; 2; 3; 5; 9; 17; 1; 2; 4; 2; 4; 2; 4].

(** The first half of a round: a selector byte. *)
Definition header (sel : Z) (rest : bytes) (stk : list frame) : step_result :=
  if (0 <=? sel) && (sel <=? 0x7f) then after_visit (OPos sel) rest stk
  else if (0xe0 <=? sel) && (sel <=? 0xff) then after_visit (ONeg (sel - 256)) rest stk
  else if (0xc4 <=? sel) && (sel <=? 0xdf) then
    inl (PS (Z.land sel 0x1f) (nth (Z.to_nat (sel - 0xc4)) trail_table 0) rest stk)
  else if (0xa0 <=? sel) && (sel <=? 0xbf) then
    let trail := Z.land sel 0x1f in
    if trail =? 0 then after_visit (OStr []) rest stk
    else inl (PS ACS_STR_VALUE trail rest stk)
  else if (0x90 <=? sel) && (sel <=? 0x9f) then start_aggregate false (Z.land sel 0x0f) rest stk
  else if (0x80 <=? sel) && (sel <=? 0x8f) then start_aggregate true (Z.land sel 0x0f) rest stk
  else if sel =? 0xc2 then after_visit (OBool false) rest stk
  else if sel =? 0xc3 then after_visit (OBool true) rest stk
  else if sel =? 0xc0 then after_visit ONil rest stk
  else inr (Throw "parse error").

(** A two's complement number of [w] bits. *)
Definition signed (w z : Z) : Z := if z <? 2 ^ (w - 1) then z else z - 2 ^ w.

(** [visit_negative_integer]. *)
Definition visit_negative_integer (v : Z) : obj := if 0 <=? v then OPos v else ONeg v.

(** [visit_ext]: the type byte, then the data. *)
Definition visit_ext (n : bytes) : obj := OExt (nth 0 n 0) (drop 1 n).

(** A length was read: the body follows, unless it is empty. *)
Definition body (acs : Z) (o : obj) (trail : Z) (rest : bytes) (stk : list frame) : step_result :=
  if trail =? 0 then after_visit o rest stk else inl (PS acs trail rest stk).

(** The switch over [m_cs], given the [m_trail] bytes [n] and what follows. *)
Definition dispatch (cs trail : Z) (n rest : bytes) (stk : list frame) : step_result :=
  match cs with
  | 0x0a => after_visit (OFloat32 (be_Z n)) rest stk
  | 0x0b => after_visit (OFloat64 (be_Z n)) rest stk
  | 0x0c | 0x0d | 0x0e | 0x0f => after_visit (OPos (be_Z n)) rest stk
  | 0x10 => after_visit (visit_negative_integer (signed 8 (be_Z n))) rest stk
  | 0x11 => after_visit (visit_negative_integer (signed 16 (be_Z n))) rest stk
  | 0x12 => after_visit (visit_negative_integer (signed 32 (be_Z n))) rest stk
  | 0x13 => after_visit (visit_negative_integer (signed 64 (be_Z n))) rest stk
  | 0x14 | 0x15 | 0x16 | 0x17 | 0x18 => after_visit (visit_ext n) rest stk
  | 0x19 | 0x1a | 0x1b => body ACS_STR_VALUE (OStr []) (be_Z n) rest stk
  | 0x04 | 0x05 | 0x06 => body ACS_BIN_VALUE (OBin []) (be_Z n) rest stk
  | 0x07 | 0x08 | 0x09 => inl (PS ACS_EXT_VALUE (be_Z n + 1) rest stk)
  | 0x20 => after_visit (OStr n) rest stk
  | 0x21 => after_visit (OBin n) rest stk
  | 0x22 => if trail <? 2 ^ 32 then after_visit (visit_ext n) rest stk
            else inr (Undef "ext size wraps to 0")
  | 0x1c | 0x1d => start_aggregate false (be_Z n) rest stk
  | 0x1e | 0x1f => start_aggregate true (be_Z n) rest stk
  | _ => inr (Throw "parse error")
  end.

(** The second half of a round: the [m_trail] bytes after the selector. *)
Definition trailing (cs trail : Z) (cur : bytes) (stk : list frame) : step_result :=
  if len cur <? trail then inr (Throw "insufficient bytes")
  else dispatch cs trail (take (Z.to_nat trail) cur) (drop (Z.to_nat trail) cur) stk.

(** One round of [context::execute]. *)
Definition round (s : pstate) : step_result :=
  if p_cs s =? CS_HEADER then
    match p_rest s with
    | [] => inr (Throw "insufficient bytes")
    | sel :: rest => header sel rest (p_stack s)
    end
  else trailing (p_cs s) (p_trail s) (p_rest s) (p_stack s).

Fixpoint execute (fuel : nat) (s : pstate) : option (outcome (obj * bytes)) :=
  match fuel with
  | O => None
  | S fuel' =>
      match round s with
      | inl s' => execute fuel' s'
      | inr r => Some r
      end
  end.

(** [unpack]: the first object of the buffer and the bytes that follow it; every
    round consumes a byte, so the length of the buffer bounds the rounds. *)
Definition unpack (data : bytes) : outcome (obj * bytes) :=
  match execute (S (length data)) (PS CS_HEADER 0 data []) with
  | Some r => r
  | None => Undef "no result"
  end.

Example unpack_map :
  unpack (pack (OMap [(OStr (str "a"), OArr [OPos 300; ONeg (-5); OMap []])]) ++ [1; 2]) =
  Ret (OMap [(OStr (str "a"), OArr [OPos 300; ONeg (-5); OMap []])], [1; 2]).
Proof. vm_compute. reflexivity. Qed.

(** ** Well-formed objects

    What an object of the library can hold: integers of 64 bits, sizes of 32 bits,
    at most [d] nested containers. *)

Fixpoint wf_obj (d : Z) (o : obj) : Prop :=
  match o with
  | ONil | OBool _ => True
  | OPos n => 0 <= n < 2 ^ 64
  | ONeg n => - 2 ^ 63 <= n < 0
  | OFloat32 b => 0 <= b < 2 ^ 32
  | OFloat64 b => 0 <= b < 2 ^ 64
  | OStr s | OBin s => len s < 2 ^ 32 /\ wf_bytes s
  | OExt t s => len s < 2 ^ 32 - 1 /\ is_byte t /\ wf_bytes s
  | OArr l => 0 < d /\ Z.of_nat (length l) < 2 ^ 32 /\
              (fix all l := match l with [] => True | x :: l' => wf_obj (d - 1) x /\ all l' end) l
  | OMap l => 0 < d /\ Z.of_nat (length l) < 2 ^ 32 /\
              (fix all l := match l with
                            | [] => True
                            | (k, v) :: l' => (wf_obj (d - 1) k /\ wf_obj (d - 1) v) /\ all l'
                            end) l
  end.

Lemma wf_arr d l :
  wf_obj d (OArr l) <-> 0 < d /\ Z.of_nat (length l) < 2 ^ 32 /\ Forall (wf_obj (d - 1)) l.
Proof.
  cbn [wf_obj]. assert (forall l, (fix all l := match l with [] => True | x :: l' => wf_obj (d - 1) x /\ all l' end) l
    <-> Forall (wf_obj (d - 1)) l) as ->; [|done].
  intros l0. induction l0 as [|x l' IH]; [by split; constructor|]. rewrite Forall_cons. by rewrite <- IH.
Qed.

Lemma wf_map d l :
  wf_obj d (OMap l) <-> 0 < d /\ Z.of_nat (length l) < 2 ^ 32 /\
    Forall (fun kv => wf_obj (d - 1) kv.1 /\ wf_obj (d - 1) kv.2) l.
Proof.
  cbn [wf_obj]. assert (forall l, (fix all l := match l with [] => True
    | (k, v) :: l' => (wf_obj (d - 1) k /\ wf_obj (d - 1) v) /\ all l' end) l
    <-> Forall (fun kv => wf_obj (d - 1) kv.1 /\ wf_obj (d - 1) kv.2) l) as ->; [|done].
  intros l0. induction l0 as [|[k v] l' IH]; [by split; constructor|]. rewrite Forall_cons. by rewrite <- IH.
Qed.

(** Induction over nested objects. *)
Lemma obj_rect' (P : obj -> Prop) :
  P ONil -> (forall b, P (OBool b)) -> (forall n, P (OPos n)) -> (forall n, P (ONeg n)) ->
  (forall b, P (OFloat32 b)) -> (forall b, P (OFloat64 b)) -> (forall s, P (OStr s)) ->
  (forall s, P (OBin s)) -> (forall t s, P (OExt t s)) ->
  (forall l, Forall P l -> P (OArr l)) ->
  (forall l, Forall (fun kv => P kv.1 /\ P kv.2) l -> P (OMap l)) -> forall o, P o.
Proof.
  intros Hn Hb Hp Hg Hf Hd Hs Hi He Ha Hm. fix IH 1.
  intros [|b|n|n|b|b|s|s|t s|l|l];
    [exact Hn|apply Hb|apply Hp|apply Hg|apply Hf|apply Hd|apply Hs|apply Hi|apply He|apply Ha|apply Hm].
  - induction l; constructor; [apply IH|done].
  - induction l as [|[k v] l]; constructor; [split; apply IH|done].
Qed.

(** ** Reading back what was packed *)

Definition R (s s' : pstate) : Prop := round s = inl s'.

(** From a header state, the parser reads [bs] and hands [o] over. *)
Definition reads (bs : bytes) (o : obj) (rest : bytes) (stk : list frame) : Prop :=
  exists s, rtc R (PS CS_HEADER 0 (bs ++ rest) stk) s /\ round s = after_visit o rest stk.

Lemma reads_header sel o rest stk : header sel rest stk = after_visit o rest stk -> reads [sel] o rest stk.
Proof. intros H. exists (PS CS_HEADER 0 (sel :: rest) stk). split; [apply rtc_refl|exact H]. Qed.

Lemma trailing_app cs trail n rest stk :
  len n = trail -> trailing cs trail (n ++ rest) stk = dispatch cs trail n rest stk.
Proof.
  intros <-. unfold trailing, len. rewrite length_app, Nat2Z.inj_add, Nat2Z.id.
  destruct (Z.ltb_spec (Z.of_nat (length n) + Z.of_nat (length rest)) (Z.of_nat (length n))); [lia|].
  by rewrite take_app_length, drop_app_length.
Qed.

Lemma header_c4_df sel rest stk :
  0xc4 <= sel <= 0xdf ->
  header sel rest stk = inl (PS (Z.land sel 0x1f) (nth (Z.to_nat (sel - 0xc4)) trail_table 0) rest stk).
Proof.
  intros H. unfold header.
  destruct (Z.leb_spec sel 0x7f); [lia|]. rewrite andb_false_r.
  destruct (Z.leb_spec 0xe0 sel); [lia|]. cbn [andb].
  destruct (Z.leb_spec 0xc4 sel); [|lia]. destruct (Z.leb_spec sel 0xdf); [|lia]. done.
Qed.

(** A selector and its trailing bytes. *)
Lemma selector_round sel n rest stk :
  0xc4 <= sel <= 0xdf -> nth (Z.to_nat (sel - 0xc4)) trail_table 0 = len n -> Z.land sel 0x1f <> 0 ->
  exists s, R (PS CS_HEADER 0 ((sel :: n) ++ rest) stk) s /\
    round s = dispatch (Z.land sel 0x1f) (len n) n rest stk.
Proof.
  intros Hs Ht Hz. exists (PS (Z.land sel 0x1f) (len n) (n ++ rest) stk). split.
  - unfold R, round. cbn [p_cs p_rest p_stack app]. rewrite Z.eqb_refl, header_c4_df, Ht by done. done.
  - unfold round. cbn [p_cs p_rest p_stack p_trail].
    destruct (Z.eqb_spec (Z.land sel 0x1f) CS_HEADER); [done|]. by apply trailing_app.
Qed.

Lemma reads_two sel n o rest stk :
  0xc4 <= sel <= 0xdf -> nth (Z.to_nat (sel - 0xc4)) trail_table 0 = len n -> Z.land sel 0x1f <> 0 ->
  dispatch (Z.land sel 0x1f) (len n) n rest stk = after_visit o rest stk ->
  reads (sel :: n) o rest stk.
Proof.
  intros H1 H2 H3 H4. destruct (selector_round sel n rest stk H1 H2 H3) as (s & Hr & He).
  exists s. split; [by apply rtc_once|by rewrite He].
Qed.

(** A selector, a length, and the body. *)
Lemma reads_body sel n acs s o rest stk :
  0xc4 <= sel <= 0xdf -> nth (Z.to_nat (sel - 0xc4)) trail_table 0 = len n -> Z.land sel 0x1f <> 0 ->
  dispatch (Z.land sel 0x1f) (len n) n (s ++ rest) stk = inl (PS acs (len s) (s ++ rest) stk) ->
  acs <> CS_HEADER -> dispatch acs (len s) s rest stk = after_visit o rest stk ->
  reads ((sel :: n) ++ s) o rest stk.
Proof.
  intros H1 H2 H3 H4 Hacs H5. destruct (selector_round sel n (s ++ rest) stk H1 H2 H3) as (s1 & Hr & He).
  exists (PS acs (len s) (s ++ rest) stk). split.
  - rewrite <- app_assoc. eapply rtc_l; [exact Hr|]. apply rtc_once. unfold R. by rewrite He, H4.
  - unfold round. cbn [p_cs p_rest p_stack p_trail]. destruct (Z.eqb_spec acs CS_HEADER); [done|].
    by rewrite trailing_app.
Qed.

Lemma be_Z_small k n : 0 <= n < 256 ^ Z.of_nat k -> be_Z (be_bytes k n) = n.
Proof. intros. rewrite be_Z_be_bytes. by apply Z.mod_small. Qed.

Lemma len_be k n : len (be_bytes k n) = Z.of_nat k.
Proof. unfold len. by rewrite be_bytes_length. Qed.

Lemma be_Z_one x : be_Z [x] = x.
Proof. cbn. lia. Qed.

Lemma signed_mod w d : 0 < w -> - 2 ^ (w - 1) <= d < 0 -> signed w (d mod 2 ^ w) = d.
Proof.
  intros Hw Hd. assert (2 ^ w = 2 * 2 ^ (w - 1)) as E.
  { replace w with (Z.succ (w - 1)) at 1 by lia. rewrite Z.pow_succ_r by lia. done. }
  assert (d mod 2 ^ w = d + 2 ^ w) as ->.
  { symmetry. apply (Z.mod_unique_pos _ _ (-1)); lia. }
  unfold signed. destruct (Z.ltb_spec (d + 2 ^ w) (2 ^ (w - 1))); lia.
Qed.

Lemma signed_be k d :
  - 2 ^ (8 * Z.of_nat k - 1) <= d < 0 -> (0 < k)%nat ->
  visit_negative_integer (signed (8 * Z.of_nat k) (be_Z (be_bytes k d))) = ONeg d.
Proof.
  intros Hd Hk. rewrite be_Z_be_bytes.
  replace (256 ^ Z.of_nat k) with (2 ^ (8 * Z.of_nat k)) by (rewrite Z.pow_mul_r by lia; done).
  rewrite signed_mod by lia. unfold visit_negative_integer. destruct (Z.leb_spec 0 d); [lia|done].
Qed.

(** The trailing bytes of a selector are as many as its table says. *)
Ltac sel_side := first [lia | reflexivity | by rewrite len_be | discriminate].

Ltac disp :=
  match goal with |- dispatch ?a _ _ _ _ = _ =>
    let c := eval vm_compute in a in change a with c
  end; cbn [dispatch].

Lemma reads_pos n rest stk : 0 <= n < 2 ^ 64 -> reads (pack_imp_uint64 n) (OPos n) rest stk.
Proof.
  intros Hn. unfold pack_imp_uint64, take8. repeat case_match; zb.
  - rewrite Z.mod_small by lia. apply reads_header. unfold header.
    destruct (Z.leb_spec 0 n); [|lia]. destruct (Z.leb_spec n 0x7f); [done|lia].
  - apply reads_two; [sel_side..|]. rewrite Z.mod_small by lia. disp. by rewrite be_Z_one.
  - apply reads_two; [sel_side..|]. disp. by rewrite be_Z_small by (cbn; lia).
  - apply reads_two; [sel_side..|]. disp. by rewrite be_Z_small by (cbn; lia).
  - apply reads_two; [sel_side..|]. disp. by rewrite be_Z_small by (cbn; lia).
Qed.

Lemma reads_neg n rest stk : - 2 ^ 63 <= n < 0 -> reads (pack_imp_int64 n) (ONeg n) rest stk.
Proof.
  intros Hn. unfold pack_imp_int64, take8.
  destruct (Z.ltb_spec n (- 2 ^ 5)); [destruct (Z.ltb_spec n (- 2 ^ 15));
    [destruct (Z.ltb_spec n (- 2 ^ 31))|destruct (Z.ltb_spec n (- 2 ^ 7))]|].
  - apply reads_two; [sel_side..|]. disp.
    by rewrite (signed_be 8) by (cbn; lia).
  - apply reads_two; [sel_side..|]. disp.
    by rewrite (signed_be 4) by (cbn; lia).
  - apply reads_two; [sel_side..|]. disp.
    by rewrite (signed_be 2) by (cbn; lia).
  - replace (n mod 256) with (n / 256 ^ Z.of_nat 0 mod 256) by (cbn; by rewrite Z.div_1_r).
    apply (reads_two _ (be_bytes 1 n)); [sel_side..|]. disp.
    by rewrite (signed_be 1) by (cbn; lia).
  - destruct (Z.ltb_spec n (2 ^ 7)); [|lia].
    assert (n mod 256 = n + 256) as -> by (symmetry; apply (Z.mod_unique_pos _ _ (-1)); lia).
    apply reads_header. unfold header.
    destruct (Z.leb_spec (n + 256) 0x7f); [lia|]. rewrite andb_false_r.
    destruct (Z.leb_spec 0xe0 (n + 256)); [|lia]. destruct (Z.leb_spec (n + 256) 0xff); [|lia].
    cbn [andb]. by replace (n + 256 - 256) with n by lia.
Qed.

Lemma lor_small base n k :
  0 <= k -> base mod 2 ^ k = 0 -> 0 <= n < 2 ^ k -> 0 <= base ->
  Z.lor base n = base + n /\ Z.land (base + n) (2 ^ k - 1) = n.
Proof.
  intros Hk Hb Hn Hp. apply Z.mod_divide in Hb as [q ->]; [|lia].
  assert (Z.land (q * 2 ^ k) n = 0) as Hl.
  { apply Z.bits_inj'. intros i Hi. rewrite Z.land_spec, Z.bits_0. destruct (Z.lt_ge_cases i k).
    - by rewrite Z.mul_pow2_bits_low by lia.
    - rewrite (testbit_high k n) by done. apply andb_false_r. }
  split.
  - rewrite <- Z.lxor_lor by done. symmetry. by apply Z.add_nocarry_lxor.
  - replace (2 ^ k - 1) with (Z.ones k) by (rewrite Z.ones_equiv; lia).
    rewrite Z.land_ones by lia. rewrite Z.add_comm, Z.mod_add by lia. by apply Z.mod_small.
Qed.

Lemma body_nonempty acs o s rest stk n :
  be_Z n = len s -> (32 <= len s) ->
  body acs o (be_Z n) (s ++ rest) stk = inl (PS acs (len s) (s ++ rest) stk).
Proof. intros -> H. unfold body. destruct (Z.eqb_spec (len s) 0); [lia|done]. Qed.

Lemma reads_str s rest stk : len s < 2 ^ 32 -> reads (pack_string s) (OStr s) rest stk.
Proof.
  intros Hs. assert (0 <= len s) by (unfold len; lia). unfold pack_string, pack_str, take8.
  repeat case_match; zb.
  - destruct (lor_small 0xa0 (len s) 5) as [-> Hl]; [lia|done|lia|lia|].
    assert (header (0xa0 + len s) (s ++ rest) stk =
            if len s =? 0 then after_visit (OStr []) (s ++ rest) stk
            else inl (PS ACS_STR_VALUE (len s) (s ++ rest) stk)) as Hh.
    { unfold header. destruct (Z.leb_spec (0xa0 + len s) 0x7f); [lia|]. rewrite andb_false_r.
      destruct (Z.leb_spec 0xe0 (0xa0 + len s)); [lia|]. cbn [andb].
      destruct (Z.leb_spec 0xc4 (0xa0 + len s)); [lia|]. cbn [andb].
      destruct (Z.leb_spec 0xa0 (0xa0 + len s)); [|lia]. destruct (Z.leb_spec (0xa0 + len s) 0xbf); [|lia].
      cbn [andb]. change 0x1f with (2 ^ 5 - 1). by rewrite Hl. }
    destruct (Z.eqb_spec (len s) 0) as [E|E].
    + destruct s as [|]; [|unfold len in E; cbn in E; lia]. by apply reads_header.
    + exists (PS ACS_STR_VALUE (len s) (s ++ rest) stk). split.
      * apply rtc_once. unfold R, round. cbn [p_cs p_rest p_stack app]. rewrite Z.eqb_refl. exact Hh.
      * unfold round. cbn [p_cs p_rest p_stack p_trail]. by apply trailing_app.
  - rewrite Z.mod_small by lia. apply (reads_body 0xd9 [len s] ACS_STR_VALUE); [sel_side..| |done|done].
    apply (body_nonempty _ _ _ _ _ [len s]); [apply be_Z_one|lia].
  - apply (reads_body 0xda _ ACS_STR_VALUE); [sel_side..| |done|done].
    apply body_nonempty; [apply be_Z_small; cbn; lia|lia].
  - apply (reads_body 0xdb _ ACS_STR_VALUE); [sel_side..| |done|done].
    apply body_nonempty; [apply be_Z_small; cbn; lia|lia].
Qed.

Lemma reads_bin s rest stk : len s < 2 ^ 32 -> reads (pack_binary s) (OBin s) rest stk.
Proof.
  intros Hs. assert (0 <= len s) by (unfold len; lia). unfold pack_binary, pack_bin, take8.
  repeat case_match; zb.
  - rewrite Z.mod_small by lia. destruct (Z.eqb_spec (len s) 0) as [E|E].
    + destruct s as [|]; [|unfold len in E; cbn in E; lia].
      apply (reads_two 0xc4 [len []]); [sel_side..|]. disp. done.
    + apply (reads_body 0xc4 [len s] ACS_BIN_VALUE); [sel_side..| |done|done]. disp.
      unfold body. rewrite be_Z_one. destruct (Z.eqb_spec (len s) 0); done.
  - apply (reads_body 0xc5 _ ACS_BIN_VALUE); [sel_side..| |done|done].
    apply body_nonempty; [apply be_Z_small; cbn; lia|lia].
  - apply (reads_body 0xc6 _ ACS_BIN_VALUE); [sel_side..| |done|done].
    apply body_nonempty; [apply be_Z_small; cbn; lia|lia].
Qed.

Lemma reads_ext_body sel n t s rest stk :
  0xc7 <= sel <= 0xc9 -> nth (Z.to_nat (sel - 0xc4)) trail_table 0 = len n -> be_Z n = len s ->
  len s < 2 ^ 32 - 1 -> reads ((sel :: n) ++ t :: s) (OExt t s) rest stk.
Proof.
  intros Hsel Ht Hn Hs. assert (len (t :: s) = len s + 1) as Hl by (unfold len; cbn [length]; lia).
  assert (Z.land sel 31 = 7 \/ Z.land sel 31 = 8 \/ Z.land sel 31 = 9) as Hland.
  { assert (sel = 0xc7 \/ sel = 0xc8 \/ sel = 0xc9) as [-> | [-> | ->]] by lia; vm_compute; auto. }
  apply (reads_body sel n ACS_EXT_VALUE (t :: s)); [lia|done|lia| |done|].
  - destruct Hland as [-> | [-> | ->]]; cbn [dispatch]; by rewrite Hn, Hl.
  - cbn [dispatch ACS_EXT_VALUE]. unfold ACS_EXT_VALUE. destruct (Z.ltb_spec (len (t :: s)) (2 ^ 32)); [done|lia].
Qed.

Lemma reads_ext t s rest stk :
  len s < 2 ^ 32 - 1 -> reads (pack_ext (len s) t ++ s) (OExt t s) rest stk.
Proof.
  intros Hs. assert (0 <= len s) by (unfold len; lia). unfold pack_ext, take8.
  assert (forall k, len s = k -> len (t :: s) = k + 1) as Hl.
  { intros k <-. unfold len. cbn [length]. lia. }
  repeat case_match; zb; cbn [app].
  1-5: apply reads_two; [lia|by erewrite Hl by eassumption|done|reflexivity].
  - rewrite Z.mod_small by lia. by apply (reads_ext_body 0xc7 [len s]); [| |rewrite be_Z_one|].
  - rewrite <- app_assoc. apply (reads_ext_body 0xc8 (be_bytes 2 (len s)));
      [lia|by rewrite len_be|apply be_Z_small; cbn; lia|done].
  - rewrite <- app_assoc. apply (reads_ext_body 0xc9 (be_bytes 4 (len s)));
      [lia|by rewrite len_be|apply be_Z_small; cbn; lia|done].
Qed.

(** The header of a container. *)
Lemma reads_agg (is_map : bool) n rest stk :
  0 <= n < 2 ^ 32 ->
  exists s, rtc R (PS CS_HEADER 0 ((if is_map then pack_map n else pack_array n) ++ rest) stk) s /\
    round s = start_aggregate is_map n rest stk.
Proof.
  intros Hn.
  assert (forall sel m, Z.land sel 31 = (if is_map then 30 else 28) + (if n <? 65536 then 0 else 1) ->
     0xc4 <= sel <= 0xdf -> nth (Z.to_nat (sel - 0xc4)) trail_table 0 = len m -> be_Z m = n ->
     exists s, rtc R (PS CS_HEADER 0 ((sel :: m) ++ rest) stk) s /\
       round s = start_aggregate is_map n rest stk) as Hbig.
  { intros sel m Hl Hs Ht Hb.
    destruct (selector_round sel m rest stk Hs Ht) as (s & Hr & He); [destruct is_map, (n <? 65536); lia|].
    exists s. split; [by apply rtc_once|]. rewrite He, Hl.
    destruct is_map, (n <? 65536); disp; by rewrite Hb. }
  assert (n < 16 -> header ((if is_map then 0x80 else 0x90) + n) rest stk = start_aggregate is_map n rest stk) as Hsm.
  { intros H16. destruct (lor_small (if is_map then 0x80 else 0x90) n 4) as [_ Hl];
      [lia|by destruct is_map|lia|destruct is_map; lia|].
    unfold header. change 0x0f with (2 ^ 4 - 1). rewrite Hl.
    destruct is_map.
    - destruct (Z.leb_spec (128 + n) 0x7f); [lia|]. rewrite andb_false_r.
      destruct (Z.leb_spec 0xe0 (128 + n)); [lia|]. destruct (Z.leb_spec 0xc4 (128 + n)); [lia|].
      destruct (Z.leb_spec 0xa0 (128 + n)); [lia|]. destruct (Z.leb_spec 0x90 (128 + n)); [lia|]. cbn [andb].
      destruct (Z.leb_spec 0x80 (128 + n)); [|lia]. destruct (Z.leb_spec (128 + n) 0x8f); [done|lia].
    - destruct (Z.leb_spec (144 + n) 0x7f); [lia|]. rewrite andb_false_r.
      destruct (Z.leb_spec 0xe0 (144 + n)); [lia|]. destruct (Z.leb_spec 0xc4 (144 + n)); [lia|].
      destruct (Z.leb_spec 0xa0 (144 + n)); [lia|]. cbn [andb].
      destruct (Z.leb_spec 0x90 (144 + n)); [|lia]. destruct (Z.leb_spec (144 + n) 0x9f); [done|lia]. }
  unfold pack_map, pack_array. destruct (Z.ltb_spec n 16).
  - exists (PS CS_HEADER 0 ((if is_map then [Z.lor 0x80 n] else [Z.lor 0x90 n]) ++ rest) stk).
    split; [apply rtc_refl|]. unfold round. cbn [p_cs p_rest p_stack]. rewrite Z.eqb_refl.
    rewrite <- Hsm by done. destruct is_map; cbn [app].
    + destruct (lor_small 0x80 n 4) as [-> _]; [lia|done|lia|lia|done].
    + destruct (lor_small 0x90 n 4) as [-> _]; [lia|done|lia|lia|done].
  - destruct (n <? 65536) eqn:E; zb; destruct is_map;
      (apply Hbig; [reflexivity|lia|by rewrite len_be|apply be_Z_small; cbn; lia]).
Qed.

Lemma after_visit_item o rest n items stk :
  after_visit o rest (FArrayItem n items :: stk) =
  if n - 1 =? 0 then after_visit (OArr (rev (o :: items))) rest stk
  else inl (PS CS_HEADER 0 rest (FArrayItem (n - 1) (o :: items) :: stk)).
Proof. unfold after_visit. cbn [consume]. by destruct (n - 1 =? 0). Qed.

Lemma after_visit_value o rest n items k stk :
  after_visit o rest (FMapValue n items k :: stk) =
  if n - 1 =? 0 then after_visit (OMap (rev ((k, o) :: items))) rest stk
  else inl (PS CS_HEADER 0 rest (FMapKey (n - 1) ((k, o) :: items) :: stk)).
Proof. unfold after_visit. cbn [consume]. by destruct (n - 1 =? 0). Qed.

(** An object of the given nesting allowance is read back. *)
Definition readable (o : obj) : Prop :=
  forall rest stk, wf_obj (0xffffffff - Z.of_nat (length stk)) o -> reads (pack o) o rest stk.

Lemma reads_items l :
  Forall readable l -> forall acc rest stk, l <> [] ->
  Forall (wf_obj (0xffffffff - Z.of_nat (length stk) - 1)) l ->
  exists s, rtc R (PS CS_HEADER 0 (concat (map pack l) ++ rest)
                      (FArrayItem (Z.of_nat (length l)) acc :: stk)) s /\
    round s = after_visit (OArr (rev acc ++ l)) rest stk.
Proof.
  induction 1 as [|o l Ho Hl IH]; intros acc rest stk Hne Hwf; [done|]. inversion_clear Hwf as [|? ? Wo Wl].
  cbn [map concat]. rewrite <- app_assoc.
  destruct (Ho (concat (map pack l) ++ rest) (FArrayItem (Z.of_nat (length (o :: l))) acc :: stk)) as (s & Hs & He).
  { cbn [length]. by replace (0xffffffff - Z.of_nat (S (length stk))) with (0xffffffff - Z.of_nat (length stk) - 1) by lia. }
  rewrite after_visit_item in He. destruct l as [|o' l].
  - exists s. split; [exact Hs|]. rewrite He. done.
  - destruct (IH (o :: acc) rest stk) as (s' & Hs' & He'); [done|done|].
    replace (Z.of_nat (length (o :: o' :: l)) - 1 =? 0) with false in He
      by (symmetry; apply Z.eqb_neq; cbn [length]; lia).
    replace (Z.of_nat (length (o :: o' :: l)) - 1) with (Z.of_nat (length (o' :: l))) in He by (cbn [length]; lia).
    exists s'. split.
    + etransitivity; [exact Hs|]. eapply rtc_l; [exact He|]. exact Hs'.
    + rewrite He'. cbn [rev]. by rewrite <- app_assoc.
Qed.

Definition pack_kv (kv : obj * obj) : bytes := match kv with (k, v) => pack k ++ pack v end.

Lemma reads_pairs l :
  Forall (fun kv => readable kv.1 /\ readable kv.2) l -> forall acc rest stk, l <> [] ->
  Forall (fun kv => wf_obj (0xffffffff - Z.of_nat (length stk) - 1) kv.1 /\
                    wf_obj (0xffffffff - Z.of_nat (length stk) - 1) kv.2) l ->
  exists s, rtc R (PS CS_HEADER 0 (concat (map pack_kv l) ++ rest)
                      (FMapKey (Z.of_nat (length l)) acc :: stk)) s /\
    round s = after_visit (OMap (rev acc ++ l)) rest stk.
Proof.
  induction 1 as [|[k v] l [Hk Hv] Hl IH]; intros acc rest stk Hne Hwf; [done|].
  inversion_clear Hwf as [|? ? [Wk Wv] Wl]. cbn [fst snd] in *.
  cbn [map concat pack_kv]. rewrite <- !app_assoc.
  set (n := Z.of_nat (length ((k, v) :: l))).
  destruct (Hk (pack v ++ concat (map pack_kv l) ++ rest) (FMapKey n acc :: stk)) as (s1 & Hs1 & He1).
  { cbn [length]. by replace (0xffffffff - Z.of_nat (S (length stk))) with (0xffffffff - Z.of_nat (length stk) - 1) by lia. }
  destruct (Hv (concat (map pack_kv l) ++ rest) (FMapValue n acc k :: stk)) as (s2 & Hs2 & He2).
  { cbn [length]. by replace (0xffffffff - Z.of_nat (S (length stk))) with (0xffffffff - Z.of_nat (length stk) - 1) by lia. }
  rewrite after_visit_value in He2.
  assert (rtc R (PS CS_HEADER 0 (pack k ++ pack v ++ concat (map pack_kv l) ++ rest) (FMapKey n acc :: stk)) s2) as Hs.
  { etransitivity; [exact Hs1|]. eapply rtc_l; [exact He1|]. exact Hs2. }
  destruct l as [|kv' l].
  - exists s2. split; [exact Hs|]. rewrite He2. done.
  - destruct (IH ((k, v) :: acc) rest stk) as (s' & Hs' & He'); [done|done|].
    replace (n - 1 =? 0) with false in He2 by (symmetry; apply Z.eqb_neq; subst n; cbn [length]; lia).
    replace (n - 1) with (Z.of_nat (length (kv' :: l))) in He2 by (subst n; cbn [length]; lia).
    exists s'. split.
    + etransitivity; [exact Hs|]. eapply rtc_l; [exact He2|]. exact Hs'.
    + rewrite He'. cbn [rev]. by rewrite <- app_assoc.
Qed.

Lemma start_aggregate_ok is_map n rest stk :
  0 < 0xffffffff - Z.of_nat (length stk) ->
  start_aggregate is_map n rest stk =
  if n =? 0 then after_visit (if is_map then OMap [] else OArr []) rest stk
  else inl (PS CS_HEADER 0 rest ((if is_map then FMapKey n [] else FArrayItem n []) :: stk)).
Proof.
  intros H. unfold start_aggregate. destruct (Z.ltb_spec 0xffffffff (1 + Z.of_nat (length stk))); [lia|done].
Qed.

Lemma readable_all o : readable o.
Proof.
  induction o as [|b|n|n|b|b|s|s|t s|l Hl|l Hl] using obj_rect'; intros rest stk Hwf.
  - by apply reads_header.
  - destruct b; by apply reads_header.
  - by apply reads_pos.
  - by apply reads_neg.
  - apply reads_two; [sel_side..|]. disp. by rewrite be_Z_small by (cbn; apply Hwf).
  - apply reads_two; [sel_side..|]. disp. by rewrite be_Z_small by (cbn; apply Hwf).
  - apply reads_str, Hwf.
  - apply reads_bin, Hwf.
  - apply reads_ext, Hwf.
  - apply wf_arr in Hwf as (Hd & Hn & Hf). cbn [pack]. unfold reads. rewrite <- app_assoc.
    destruct (reads_agg false (Z.of_nat (length l)) (concat (map pack l) ++ rest) stk) as (s & Hs & He); [lia|].
    rewrite start_aggregate_ok in He by done. destruct l as [|o l]; [by exists s|].
    destruct (reads_items (o :: l) Hl [] rest stk ltac:(done) Hf) as (s' & Hs' & He').
    exists s'. split; [|exact He']. etransitivity; [exact Hs|]. eapply rtc_l; [exact He|]. exact Hs'.
  - apply wf_map in Hwf as (Hd & Hn & Hf). cbn [pack]. unfold reads. rewrite <- app_assoc.
    destruct (reads_agg true (Z.of_nat (length l)) (concat (map pack_kv l) ++ rest) stk) as (s & Hs & He); [lia|].
    rewrite start_aggregate_ok in He by done. destruct l as [|o l]; [by exists s|].
    destruct (reads_pairs (o :: l) Hl [] rest stk ltac:(done) Hf) as (s' & Hs' & He').
    exists s'. split; [|exact He']. etransitivity; [exact Hs|]. eapply rtc_l; [exact He|]. exact Hs'.
Qed.

(** ** Termination *)

(** A state waits for a selector, or for a positive number of bytes. *)
Definition ps_ok (s : pstate) : Prop :=
  wf_bytes (p_rest s) /\ (p_cs s = CS_HEADER \/ 0 < p_trail s).

(** What is left after a step is a proper suffix of what was left before. *)
Definition shorter (r r' : bytes) : Prop := exists used, used <> [] /\ r = used ++ r'.

Definition shrinks (cur : bytes) (r : step_result) : Prop :=
  match r with
  | inl s' => ps_ok s' /\ shorter cur (p_rest s')
  | inr (Ret (_, rest)) => shorter cur rest
  | inr _ => True
  end.

Lemma shrinks_visit cur o rest stk :
  wf_bytes rest -> shorter cur rest -> shrinks cur (after_visit o rest stk).
Proof.
  intros Hw Hs. unfold after_visit. destruct (consume stk o); [done|].
  split; [|done]. split; [done|by left].
Qed.

Lemma shrinks_next cur cs trail rest stk :
  wf_bytes rest -> shorter cur rest -> 0 < trail -> shrinks cur (inl (PS cs trail rest stk)).
Proof. intros Hw Hs Ht. split; [|done]. split; [done|by right]. Qed.

Lemma shrinks_agg cur m n rest stk :
  wf_bytes rest -> shorter cur rest -> shrinks cur (start_aggregate m n rest stk).
Proof.
  intros Hw Hs. unfold start_aggregate. destruct (_ <? _); [done|]. destruct (_ =? _); [by apply shrinks_visit|].
  split; [|done]. split; [done|by left].
Qed.

Lemma shrinks_body cur acs o trail rest stk :
  wf_bytes rest -> shorter cur rest -> 0 <= trail -> shrinks cur (body acs o trail rest stk).
Proof.
  intros Hw Hs Ht. unfold body. destruct (Z.eqb_spec trail 0); [by apply shrinks_visit|].
  apply shrinks_next; [done|done|lia].
Qed.

Lemma trail_table_pos i : 0 <= i <= 27 -> 0 < nth (Z.to_nat i) trail_table 0.
Proof.
  intros Hi. assert (forall n, (n < 28)%nat -> 0 < nth n trail_table 0) as H; [|apply H; lia].
  intros n Hn. do 28 (destruct n as [|n]; [reflexivity|]). lia.
Qed.

Lemma header_shrinks sel rest stk :
  is_byte sel -> wf_bytes rest -> shrinks (sel :: rest) (header sel rest stk).
Proof.
  intros Hb Hw. assert (shorter (sel :: rest) rest) as Hs by (by exists [sel]). unfold header.
  destruct (_ && _); [by apply shrinks_visit|]. destruct (_ && _); [by apply shrinks_visit|].
  destruct (_ && _) eqn:E.
  { zb. apply shrinks_next; [done|done|]. apply trail_table_pos. lia. }
  clear E. destruct (_ && _).
  { assert (0 <= Z.land sel 0x1f) by (apply Z.land_nonneg; right; lia).
    destruct (Z.eqb_spec (Z.land sel 0x1f) 0); [by apply shrinks_visit|]. apply shrinks_next; [done|done|lia]. }
  destruct (_ && _); [by apply shrinks_agg|]. destruct (_ && _); [by apply shrinks_agg|].
  destruct (_ =? _); [by apply shrinks_visit|]. destruct (_ =? _); [by apply shrinks_visit|].
  destruct (_ =? _); [by apply shrinks_visit|done].
Qed.

Lemma trailing_shrinks cs trail cur stk :
  wf_bytes cur -> 0 < trail -> shrinks cur (trailing cs trail cur stk).
Proof.
  intros Hw Ht. unfold trailing, len. destruct (Z.ltb_spec (Z.of_nat (length cur)) trail); [done|].
  assert (shorter cur (drop (Z.to_nat trail) cur)) as Hs.
  { exists (take (Z.to_nat trail) cur). split; [|by rewrite take_drop].
    intros E. apply (f_equal length) in E. rewrite length_take in E. cbn in E. lia. }
  assert (wf_bytes (drop (Z.to_nat trail) cur)) as Hd by (by apply Forall_drop).
  assert (0 <= be_Z (take (Z.to_nat trail) cur)) as Hn by (by apply be_Z_range, Forall_take).
  unfold dispatch.
  repeat (case_match; try done); first [by apply shrinks_visit | by apply shrinks_agg | by apply shrinks_body |
    apply shrinks_next; [done|done|lia]].
Qed.

Lemma round_shrinks s : ps_ok s -> shrinks (p_rest s) (round s).
Proof.
  intros [Hw Hc]. unfold round. destruct (Z.eqb_spec (p_cs s) CS_HEADER).
  - destruct (p_rest s) as [|sel rest]; [done|]. inversion_clear Hw. by apply header_shrinks.
  - destruct Hc; [done|]. by apply trailing_shrinks.
Qed.

Lemma shorter_length r r' : shorter r r' -> (length r' < length r)%nat.
Proof. intros (u & Hu & ->). rewrite length_app. destruct u; [done|]. cbn. lia. Qed.

Lemma execute_total fuel s :
  ps_ok s -> (length (p_rest s) < fuel)%nat ->
  exists r, execute fuel s = Some r /\ match r with Ret (_, rest) => shorter (p_rest s) rest | _ => True end.
Proof.
  revert s. induction fuel as [|fuel IH]; intros s Hs Hl; [lia|]. cbn [execute].
  pose proof (round_shrinks s Hs) as H. destruct (round s) as [s'|r]; [|by exists r].
  destruct H as [Hs' Hsh]. pose proof (shorter_length _ _ Hsh).
  destruct (IH s' Hs' ltac:(lia)) as (r & Hr & Hm). exists r. split; [done|].
  destruct r as [[o rest]| | |]; [|done..]. destruct Hsh as (u & Hu & ->). destruct Hm as (v & Hv & ->).
  exists (u ++ v). split; [|by rewrite app_assoc]. by destruct u.
Qed.

(** The exceptions of a round. *)
Definition known_error (r : step_result) : Prop :=
  match r with
  | inr (Throw w) => w = "insufficient bytes"%string \/ w = "parse error"%string \/ w = "depth size overflow"%string
  | inr (Undef w) => w = "ext size wraps to 0"%string
  | inr (Terminate _) => False
  | _ => True
  end.

Lemma known_error_visit o rest stk : known_error (after_visit o rest stk).
Proof. unfold after_visit. by destruct (consume stk o). Qed.

Lemma known_error_agg m n rest stk : known_error (start_aggregate m n rest stk).
Proof.
  unfold start_aggregate. destruct (_ <? _); [cbn; auto|]. destruct (_ =? _); [apply known_error_visit|done].
Qed.

Lemma known_error_body acs o trail rest stk : known_error (body acs o trail rest stk).
Proof. unfold body. destruct (_ =? _); [apply known_error_visit|done]. Qed.

#[local] Hint Resolve known_error_visit known_error_agg known_error_body : vb.

Lemma round_errors s : known_error (round s).
Proof.
  unfold round. destruct (_ =? _).
  - destruct (p_rest s); [cbn; auto|]. unfold header. cbn zeta.
    repeat (case_match; auto with vb); cbn; auto.
  - unfold trailing. destruct (_ <? _); [cbn; auto|]. unfold dispatch.
    repeat (case_match; auto with vb); cbn; auto.
Qed.

(** The parser is deterministic. *)
Lemma execute_rtc fuel s s' r x :
  rtc R s s' -> round s' = inr r -> execute fuel s = Some x -> x = r.
Proof.
  intros Hr. revert fuel. induction Hr as [s|s s1 s2 H1 Hr IH]; intros [|fuel] He Hx; try done.
  - cbn [execute] in Hx. rewrite He in Hx. congruence.
  - cbn [execute] in Hx. rewrite H1 in Hx. by eapply IH.
Qed.

Lemma take8_byte d : is_byte (take8 d).
Proof. apply Z.mod_pos_bound. lia. Qed.

#[export] Hint Resolve take8_byte : vb_wf.
#[local] Hint Extern 2 (is_byte (Zpos _)) => unfold is_byte; lia : vb_wf.

Lemma pack_wf d o : wf_obj d o -> wf_bytes (pack o).
Proof.
  assert (forall h n, is_byte h -> wf_bytes n -> wf_bytes (h :: n)) as Hc by (by constructor).
  assert (wf_bytes []) as Hnil by constructor.
  assert (forall base n k, 0 <= k -> base mod 2 ^ k = 0 -> 0 <= n < 2 ^ k -> 0 <= base -> base + 2 ^ k <= 256 ->
            is_byte (Z.lor base n)) as Hlor.
  { intros base n k Hk Hb Hn Hp Hm. destruct (lor_small base n k) as [-> _]; try done. unfold is_byte. lia. }
  assert (forall n, 0 <= n -> wf_bytes (pack_array n) /\ wf_bytes (pack_map n)) as Hagg.
  { intros n Hn. unfold pack_array, pack_map. repeat case_match; zb; split; auto with vb_wf;
      (apply Hc; [|done]; apply (Hlor _ _ 4); first [lia|reflexivity]). }
  revert d. induction o as [|b|n|n|b|b|s|s|t s|l Hl|l Hl] using obj_rect'; intros d Hwf.
  - cbn [pack]. unfold pack_nil. auto with vb_wf.
  - destruct b; cbn [pack]; unfold pack_true, pack_false; auto with vb_wf.
  - cbn [pack]. unfold pack_imp_uint64. repeat case_match; auto 6 with vb_wf.
  - cbn [pack]. unfold pack_imp_int64. repeat case_match; auto 6 with vb_wf.
  - cbn [pack]. unfold pack_float. auto with vb_wf.
  - cbn [pack]. unfold pack_double. auto with vb_wf.
  - destruct Hwf as [_ Hw]. cbn [pack]. unfold pack_string, pack_str. apply Forall_app. split; [|done].
    repeat case_match; auto 6 with vb_wf. zb. apply Hc; [|done]. apply (Hlor _ _ 5); unfold len in *; first [lia|reflexivity].
  - destruct Hwf as [_ Hw]. cbn [pack]. unfold pack_binary, pack_bin. apply Forall_app. split; [|done].
    repeat case_match; auto 6 with vb_wf.
  - destruct Hwf as (_ & Ht & Hw). cbn [pack]. unfold pack_ext. apply Forall_app. split; [|done].
    repeat case_match; rewrite ?Forall_app; auto 8 with vb_wf.
  - apply wf_arr in Hwf as (_ & _ & Hf). cbn [pack]. apply Forall_app. split; [apply Hagg; lia|].
    induction Hl as [|o l Ho Hl IH]; [done|]. inversion_clear Hf. cbn [map concat]. apply Forall_app. eauto.
  - apply wf_map in Hwf as (_ & _ & Hf). cbn [pack]. apply Forall_app. split; [apply Hagg; lia|].
    induction Hl as [|[k v] l [Hk Hv] Hl IH]; [done|]. inversion_clear Hf as [|? ? [? ?] ?].
    cbn [map concat fst snd] in *. rewrite !Forall_app. eauto 6.
Qed.

Lemma unpack_packed o rest :
  wf_obj 0xffffffff o -> wf_bytes rest -> unpack (pack o ++ rest) = Ret (o, rest).
Proof.
  intros Hwf Hr. unfold unpack.
  destruct (readable_all o rest [] Hwf) as (s & Hs & He).
  destruct (execute_total (S (length (pack o ++ rest))) (PS CS_HEADER 0 (pack o ++ rest) []))
    as (r & Hx & _).
  - split; [|by left]. cbn [p_rest]. apply Forall_app. split; [by eapply pack_wf|done].
  - cbn [p_rest]. lia.
  - rewrite Hx. by eapply execute_rtc.
Qed.

(** ** Theorems *)

(** C3. Round trip: unpacking the bytes of a packed object gives the object
    back, and leaves exactly the bytes that follow it in the buffer, for every
    object the library can represent and whatever follows. *)
Theorem unpack_pack o rest :
  wf_obj 0xffffffff o -> wf_bytes rest -> unpack (pack o ++ rest) = Ret (o, rest).
Proof. apply unpack_packed. Qed.

Lemma unpack_pack_witness :
  unpack (pack (OMap [(OStr (str "id"), OBin (replicate 20 7)); (OStr (str "n"), ONeg (-70000))]) ++ [0xc0]) =
  Ret (OMap [(OStr (str "id"), OBin (replicate 20 7)); (OStr (str "n"), ONeg (-70000))], [0xc0]).
Proof.
  apply unpack_pack.
  - assert (forall s, bool_decide (wf_bytes s) = true -> wf_bytes s) as Hb by (intros s; apply bool_decide_eq_true_1).
    assert (wf_bytes (replicate 20 7)) by (by apply Hb).
    assert (wf_bytes (str "id") /\ wf_bytes (str "n")) as [? ?] by (split; by apply Hb).
    repeat split; try reflexivity; try assumption; discriminate.
  - repeat constructor; discriminate.
Defined.

(** Unpacking terminates on every buffer, within as many rounds as it has
    bytes and one: it returns an object and the bytes after it, having consumed at
    least one byte, or throws. *)
Theorem unpack_total data :
  wf_bytes data ->
  match unpack data with
  | Ret (_, rest) => exists used, used <> [] /\ data = used ++ rest
  | Throw w => w = "insufficient bytes"%string \/ w = "parse error"%string \/ w = "depth size overflow"%string
  | Undef w => w = "ext size wraps to 0"%string
  | Terminate _ => False
  end.
Proof.
  intros Hw. assert (forall fuel s r, execute fuel s = Some r ->
    match r with
    | Throw w => w = "insufficient bytes"%string \/ w = "parse error"%string \/ w = "depth size overflow"%string
    | Undef w => w = "ext size wraps to 0"%string | Terminate _ => False | Ret _ => True end) as Herr.
  { induction fuel as [|fuel IH]; intros s r He; [done|]. cbn [execute] in He.
    pose proof (round_errors s) as Hre. destruct (round s) as [s'|r']; [by eapply IH|].
    injection He as <-. done. }
  unfold unpack.
  destruct (execute_total (S (length data)) (PS CS_HEADER 0 data [])) as (r & Hx & Hm);
    [split; [done|by left]|cbn [p_rest]; lia|].
  rewrite Hx. specialize (Herr _ _ _ Hx). by destruct r as [[o rest]| | |].
Qed.

Lemma unpack_total_witness :
  match unpack [0x92; 1] with
  | Ret (_, rest) => exists used, used <> [] /\ [0x92; 1] = used ++ rest
  | Throw w => w = "insufficient bytes"%string \/ w = "parse error"%string \/ w = "depth size overflow"%string
  | Undef w => w = "ext size wraps to 0"%string
  | Terminate _ => False
  end.
Proof. apply (unpack_total [0x92; 1]). repeat constructor; discriminate. Defined.
