(* ===== verification/Ledger.v ===== *)
(** * Ledger: data, stores and effects of the blockchain layer

    The records of src/verified-blockchain/src (token.h, asset.h, client.h,
    transaction.h, block.h), the static stores they are kept in, the messages the
    node sends, and the monad the handlers run in.

    Three kinds of code are outside the sources and are fields of the class
    [Env]: the Merkle trie [VTrie] (a compiled library; vtrie.hpp documents it),
    the MessagePack adaptors of the record types, which no file defines, and what
    memory holds where the code reads an uninitialised variable or a [c_str()] of
    a temporary that is gone ([stale]).  [EnvLaws] states what the documentation of
    the trie and of MessagePack promises; theorems are proved against it, and
    [demo_env] at the end shows it can be met.  [Update] of the trie has no documentation, and
    nothing is assumed of it: theorems about code that calls it say which updates are made. *)
From Stdlib Require Import Floats.SpecFloat.
From S2P Require Import Prelude InfoHash MsgPack SockAddr Node.

(** ** Records *)

(** [token::balances]. *)
Record balances := mkBalances { bal_balance : Z; bal_currency : bytes }.

(** [asset::assets]; [value] is a [double]. *)
Record assets := mkAssets {
  as_requestor : bytes;
  as_responder : bytes;
  as_value : spec_float;
  as_currency : bytes;
  as_contract_id : bytes;
  as_request : bytes;
  as_response : bytes;
  as_transaction_status : bool;
}.

(** [client::request]. *)
Record request := mkClientRequest {
  rq_root : bytes;
  rq_kind : bytes;
  rq_verifyingPeers : list Hash;
  rq_sendTo : Hash;
  rq_from : Hash;
  rq_contractId : bytes;
  rq_encodedRequest : bytes;
  rq_encodedResponse : bytes;
  rq_requestorPeer : NodeExport;
  rq_responderPeer : NodeExport;
}.

(** [transaction::certifiedTx]. *)
Record certifiedTx := mkCertifiedTx {
  ct_root : bytes;
  ct_type : bytes;
  ct_hash : bytes;
  ct_certifying_peer : Hash;
  ct_previous_verifyingPeers : list Hash;
  ct_counterparty : Hash;
  ct_party : Hash;
  ct_request : bytes;
  ct_response : bytes;
  ct_certification_status : bool;
  ct_timestamp : Z;
}.

(** [transaction::verifiedTx]. *)
Record verifiedTx := mkVerifiedTx {
  vt_txhash : bytes;
  vt_verifying_peer : Hash;
  vt_party : Hash;
  vt_counterparty : Hash;
  vt_timestamp : Z;
  vt_verification_status : bool;
}.

(** [class block]. *)
Record block := mkBlock {
  bk_index : Z;
  bk_data : bytes;
  bk_hash : bytes;
  bk_current_time : Z;
  bk_prevHash : bytes;
}.

(** ** The environment *)

(** How values of a type become MessagePack objects and back ([as<T>()]). *)
Record Adaptor (A : Type) := mkAdaptor { to_obj : A -> obj; as_type : obj -> outcome A }.
Arguments to_obj {A} _ _.
Arguments as_type {A} _ _.

Class Env := {
  (* VTrie *)
  trie : Type;
  Select : trie -> bytes -> option bytes;
  Insert : bytes -> bytes -> trie -> bool * trie;
  Update : bytes -> bytes -> trie -> bool * trie;
  GetRoot : trie -> option bytes;
  GetLast : Z -> trie -> bytes;
  trie_size : trie -> Z;
  Prove : trie -> bytes -> list bytes;
  VerifyProof : option bytes -> bytes -> list bytes -> option bytes;
  (* MessagePack adaptors of the record types *)
  balances_ad : Adaptor balances;
  assets_ad : Adaptor assets;
  request_ad : Adaptor request;
  certifiedTx_ad : Adaptor certifiedTx;
  verifiedTx_ad : Adaptor verifiedTx;
  block_ad : Adaptor block;
  (* memory *)
  stale : bytes -> bytes;
  uninit_double : spec_float;
  uninit_bool : bool;
  uninit_node : NodeExport;
  uninit_seconds : nat -> Z;
}.

(** An adaptor converts back what it produced, and refuses an object that is not
    an aggregate ([type_error]). *)
Record adaptor_ok {A} (ad : Adaptor A) : Prop := {
  ad_roundtrip : forall a, as_type ad (to_obj ad a) = Ret a;
  ad_not_binary : forall s, as_type ad (OBin s) = Throw "type_error";
}.

Class EnvLaws `{Env} : Prop := {
  Select_Insert t k v t' : Insert k v t = (true, t') -> Select t' k = Some v;
  Select_Insert_ne t k k' v t' : Insert k v t = (true, t') -> k <> k' -> Select t' k' = Select t k';
  VerifyProof_Prove t k : VerifyProof (GetRoot t) k (Prove t k) = Select t k;
  balances_ok : adaptor_ok balances_ad;
  assets_ok : adaptor_ok assets_ad;
  certifiedTx_ok : adaptor_ok certifiedTx_ad;
  verifiedTx_ok : adaptor_ok verifiedTx_ad;
}.

(** ** Packing *)

(** A record whose strings and numbers are within the bounds of the format. *)
Definition packable {A} (ad : Adaptor A) (a : A) : Prop := wf_obj 0xffffffff (to_obj ad a).

Definition hash_obj (h : Hash) : obj := OBin h.

Section Ledger.
Context `{Env}.

Definition pack_as {A} (ad : Adaptor A) (a : A) : bytes := pack (to_obj ad a).

(** [msgpack::unpack(unp, data, size); unp.get().as<A>()]: the first object. *)
Definition decode {A} (ad : Adaptor A) (data : bytes) : outcome A :=
  match unpack data with
  | Ret (o, _) => as_type ad o
  | Throw w => Throw w
  | Undef w => Undef w
  | Terminate w => Terminate w
  end.

(** A C string ends at the first NUL. *)
Fixpoint cstr (s : bytes) : bytes :=
  match s with
  | [] => []
  | c :: s' => if c =? 0 then [] else c :: cstr s'
  end.

(** [const char* p = ss.str().c_str(); ... p ...]: the temporary is gone when the
    pointer is read. *)
Definition dangling (s : bytes) : bytes := cstr (stale s).

(** ** Global state and messages *)

Inductive token_kind := RToken | CToken | VToken | PToken.

Inductive net_event :=
| EPut (key : Hash) (value : bytes)
| EPutSigned (key value : bytes)
| EGet (key : bytes)
| EListen (t : token_kind) (key : Hash)
| ECancel (t : token_kind) (key : Hash)
| ERun (port : Z)
| EBootstrap (host port : bytes)
| EJoin
| EShutdown.

(** The static members of the classes. *)
Record App := mkApp {
  cstore : trie;
  astore : trie;
  certificationRequests : trie;
  transactionStore : trie;
  blockchain : trie;
  user : Hash;
  sessions : list Hash;
  nodes : list NodeExport;
  logged : bool;
  net : list net_event;
}.

Definition set_cstore (t : trie) (s : App) : App :=
  mkApp t (astore s) (certificationRequests s) (transactionStore s) (blockchain s)
        (user s) (sessions s) (nodes s) (logged s) (net s).
Definition set_astore (t : trie) (s : App) : App :=
  mkApp (cstore s) t (certificationRequests s) (transactionStore s) (blockchain s)
        (user s) (sessions s) (nodes s) (logged s) (net s).
Definition set_certificationRequests (t : trie) (s : App) : App :=
  mkApp (cstore s) (astore s) t (transactionStore s) (blockchain s)
        (user s) (sessions s) (nodes s) (logged s) (net s).
Definition set_transactionStore (t : trie) (s : App) : App :=
  mkApp (cstore s) (astore s) (certificationRequests s) t (blockchain s)
        (user s) (sessions s) (nodes s) (logged s) (net s).
Definition set_blockchain (t : trie) (s : App) : App :=
  mkApp (cstore s) (astore s) (certificationRequests s) (transactionStore s) t
        (user s) (sessions s) (nodes s) (logged s) (net s).
Definition set_user (u : Hash) (ss : list Hash) (s : App) : App :=
  mkApp (cstore s) (astore s) (certificationRequests s) (transactionStore s) (blockchain s)
        u ss (nodes s) (logged s) (net s).
Definition set_nodes (l : list NodeExport) (s : App) : App :=
  mkApp (cstore s) (astore s) (certificationRequests s) (transactionStore s) (blockchain s)
        (user s) (sessions s) l (logged s) (net s).
Definition set_logged (b : bool) (s : App) : App :=
  mkApp (cstore s) (astore s) (certificationRequests s) (transactionStore s) (blockchain s)
        (user s) (sessions s) (nodes s) b (net s).
Definition add_event (e : net_event) (s : App) : App :=
  mkApp (cstore s) (astore s) (certificationRequests s) (transactionStore s) (blockchain s)
        (user s) (sessions s) (nodes s) (logged s) (net s ++ [e]).

(** ** Effects: state that survives an exception *)

Definition M (A : Type) : Type := App -> outcome A * App.

Definition ret {A} (a : A) : M A := fun s => (Ret a, s).
Definition bind {A B} (m : M A) (f : A -> M B) : M B := fun s =>
  match m s with
  | (Ret a, s') => f a s'
  | (Throw w, s') => (Throw w, s')
  | (Undef w, s') => (Undef w, s')
  | (Terminate w, s') => (Terminate w, s')
  end.
Definition lift {A} (o : outcome A) : M A := fun s => (o, s).
Definition get {A} (f : App -> A) : M A := fun s => (Ret (f s), s).
Definition upd (f : App -> App) : M unit := fun s => (Ret tt, f s).
Definition emit (e : net_event) : M unit := upd (add_event e).

(** A trie operation that returns a status. *)
Definition trie_op (sel : App -> trie) (set : trie -> App -> App) (op : trie -> bool * trie) : M bool :=
  fun s => let '(ok, t) := op (sel s) in (Ret ok, set t s).

End Ledger.

Notation "x <- m ;; k" := (bind m (fun x => k)) (at level 100, m at next level, right associativity) : vb_scope.
Notation "m ;;; k" := (bind m (fun _ => k)) (at level 100, right associativity) : vb_scope.

(** ** Laws in use *)

Section laws.
Context `{EnvLaws}.

Lemma decode_pack {A} (ad : Adaptor A) a rest :
  adaptor_ok ad -> packable ad a -> wf_bytes rest -> decode ad (pack_as ad a ++ rest) = Ret a.
Proof.
  intros Had Ha Hr. unfold decode, pack_as. rewrite unpack_packed by done. apply Had.
Qed.

Lemma decode_packed {A} (ad : Adaptor A) a :
  adaptor_ok ad -> packable ad a -> decode ad (pack_as ad a) = Ret a.
Proof. intros. rewrite <- (app_nil_r (pack_as ad a)). by apply decode_pack. Qed.

(** A buffer that starts with a binary is no record. *)
Lemma decode_binary {A} (ad : Adaptor A) h rest :
  adaptor_ok ad -> len h < 2 ^ 32 -> wf_bytes h -> wf_bytes rest ->
  decode ad (pack (hash_obj h) ++ rest) = Throw "type_error".
Proof.
  intros Had Hl Hw Hr. unfold decode. rewrite unpack_packed by (by try split). apply Had.
Qed.

End laws.

(** ** An environment that meets the laws

    Records as arrays, the trie as a map. *)

Module Demo.

Definition z_obj (z : Z) : obj := if 0 <=? z then OPos z else ONeg z.
Definition f_obj (f : spec_float) : obj :=
  match f with
  | S754_zero s => OArr [OPos 0; OBool s]
  | S754_infinity s => OArr [OPos 1; OBool s]
  | S754_nan => OArr [OPos 2]
  | S754_finite s m e => OArr [OPos 3; OBool s; z_obj (Zpos m); z_obj e]
  end.
Definition n_obj (n : NodeExport) : obj := OArr [OBin (ne_id n); OBin (ne_ss n); z_obj (ne_sslen n)].

Definition z_of (o : obj) : outcome Z :=
  match o with OPos n => Ret n | ONeg n => Ret n | _ => Throw "type_error" end.
Definition f_of (o : obj) : outcome spec_float :=
  match o with
  | OArr [OPos 0; OBool s] => Ret (S754_zero s)
  | OArr [OPos 1; OBool s] => Ret (S754_infinity s)
  | OArr [OPos 2] => Ret S754_nan
  | OArr [OPos 3; OBool s; OPos (Zpos m); e] => e' ← z_of e; Ret (S754_finite s m e')
  | _ => Throw "type_error"
  end.
Definition h_of (o : obj) : outcome Hash := match o with OBin h => Ret h | _ => Throw "type_error" end.
Fixpoint hs_of (l : list obj) : outcome (list Hash) :=
  match l with
  | [] => Ret []
  | o :: l' => h ← h_of o; hs ← hs_of l'; Ret (h :: hs)
  end.
Definition n_of (o : obj) : outcome NodeExport :=
  match o with
  | OArr [OBin i; OBin s; l] => l' ← z_of l; Ret (mkNodeExport i s l')
  | _ => Throw "type_error"
  end.

Lemma z_of_obj z : z_of (z_obj z) = Ret z.
Proof. unfold z_obj. by destruct (0 <=? z). Qed.
Lemma f_of_obj f : f_of (f_obj f) = Ret f.
Proof. destruct f; try done. cbn [f_obj f_of]. change (z_obj (Zpos m)) with (OPos (Zpos m)). by rewrite z_of_obj. Qed.
Lemma n_of_obj n : n_of (n_obj n) = Ret n.
Proof. destruct n. cbn. by rewrite z_of_obj. Qed.
Lemma hs_of_obj l : hs_of (OBin <$> l) = Ret l.
Proof. induction l as [|h l IH]; [done|]. cbn in *. by rewrite IH. Qed.

Definition balances_ad : Adaptor balances :=
  mkAdaptor _ (fun b => OArr [z_obj (bal_balance b); OStr (bal_currency b)])
    (fun o => match o with
              | OArr [z; OStr c] => z' ← z_of z; Ret (mkBalances z' c)
              | _ => Throw "type_error" end).

Definition assets_ad : Adaptor assets :=
  mkAdaptor _ (fun a => OArr [OStr (as_requestor a); OStr (as_responder a); f_obj (as_value a); OStr (as_currency a);
                              OStr (as_contract_id a); OStr (as_request a); OStr (as_response a);
                              OBool (as_transaction_status a)])
    (fun o => match o with
              | OArr [OStr a; OStr b; f; OStr c; OStr d; OStr e; OStr g; OBool h] =>
                  f' ← f_of f; Ret (mkAssets a b f' c d e g h)
              | _ => Throw "type_error" end).

Definition request_ad : Adaptor request :=
  mkAdaptor _ (fun r => OArr [OStr (rq_root r); OStr (rq_kind r); OArr (OBin <$> rq_verifyingPeers r);
                              OBin (rq_sendTo r); OBin (rq_from r); OStr (rq_contractId r);
                              OStr (rq_encodedRequest r); OStr (rq_encodedResponse r);
                              n_obj (rq_requestorPeer r); n_obj (rq_responderPeer r)])
    (fun o => match o with
              | OArr [OStr a; OStr b; OArr l; OBin c; OBin d; OStr e; OStr f; OStr g; n; m] =>
                  l' ← hs_of l; n' ← n_of n; m' ← n_of m; Ret (mkClientRequest a b l' c d e f g n' m')
              | _ => Throw "type_error" end).

Definition certifiedTx_ad : Adaptor certifiedTx :=
  mkAdaptor _ (fun c => OArr [OStr (ct_root c); OStr (ct_type c); OStr (ct_hash c); OBin (ct_certifying_peer c);
                              OArr (OBin <$> ct_previous_verifyingPeers c); OBin (ct_counterparty c);
                              OBin (ct_party c); OStr (ct_request c); OStr (ct_response c);
                              OBool (ct_certification_status c); z_obj (ct_timestamp c)])
    (fun o => match o with
              | OArr [OStr a; OStr b; OStr c; OBin d; OArr l; OBin e; OBin f; OStr g; OStr h; OBool i; t] =>
                  l' ← hs_of l; t' ← z_of t; Ret (mkCertifiedTx a b c d l' e f g h i t')
              | _ => Throw "type_error" end).

Definition verifiedTx_ad : Adaptor verifiedTx :=
  mkAdaptor _ (fun v => OArr [OStr (vt_txhash v); OBin (vt_verifying_peer v); OBin (vt_party v);
                              OBin (vt_counterparty v); z_obj (vt_timestamp v); OBool (vt_verification_status v)])
    (fun o => match o with
              | OArr [OStr a; OBin b; OBin c; OBin d; t; OBool s] => t' ← z_of t; Ret (mkVerifiedTx a b c d t' s)
              | _ => Throw "type_error" end).

Definition block_ad : Adaptor block :=
  mkAdaptor _ (fun b => OArr [z_obj (bk_index b); OStr (bk_data b); OStr (bk_hash b); z_obj (bk_current_time b);
                              OStr (bk_prevHash b)])
    (fun o => match o with
              | OArr [i; OStr d; OStr h; t; OStr p] => i' ← z_of i; t' ← z_of t; Ret (mkBlock i' d h t' p)
              | _ => Throw "type_error" end).

#[export] Instance demo_env : Env := {|
  trie := gmap bytes bytes;
  Select t k := t !! k;
  Insert k v t := (true, <[k := v]> t);
  Update k v t := (true, <[k := v]> t);
  GetRoot t := match map_to_list t with [] => None | _ => Some [] end;
  GetLast n t := match map_to_list t with (_, v) :: _ => v | [] => [] end;
  trie_size t := Z.of_nat (size t);
  Prove t k := match t !! k with Some v => [v] | None => [] end;
  VerifyProof root k l := head l;
  Ledger.balances_ad := balances_ad;
  Ledger.assets_ad := assets_ad;
  Ledger.request_ad := request_ad;
  Ledger.certifiedTx_ad := certifiedTx_ad;
  Ledger.verifiedTx_ad := verifiedTx_ad;
  Ledger.block_ad := block_ad;
  stale s := s;
  uninit_double := S754_nan;
  uninit_bool := false;
  uninit_node := mkNodeExport (Hash_zero 20) [] 0;
  uninit_seconds _ := 0;
|}.

#[export] Instance demo_laws : EnvLaws.
Proof.
  split.
  - intros t k v t' [= <-]. apply lookup_insert_eq.
  - intros t k k' v t' [= <-] Hne. by apply lookup_insert_ne.
  - intros t k. cbn. by destruct (_ !! k).
  - split; [|done]. intros [z c]. cbn -[z_of z_obj]. by rewrite z_of_obj.
  - split; [|done]. intros []. cbn -[f_of f_obj]. by rewrite f_of_obj.
  - split; [|done]. intros []. cbn -[z_of z_obj hs_of fmap]. by rewrite hs_of_obj, z_of_obj.
  - split; [|done]. intros []. cbn -[z_of z_obj]. by rewrite z_of_obj.
Qed.

(** A peer with no records yet. *)
Definition empty_app : App :=
  mkApp (∅ : gmap bytes bytes) (∅ : gmap bytes bytes) (∅ : gmap bytes bytes) (∅ : gmap bytes bytes)
        (∅ : gmap bytes bytes) (Hash_zero 20) [] [] false [].

End Demo.
