(* ===== verification/Token.v ===== *)
(** * Token: balances

    Models the class [token] of src/verified-blockchain/src/token.h and
    token.cpp.  [long] has 32 bits, as with the compiler of the project files;
    signed overflow and flowing off the end of a function are undefined. *)
From S2P Require Import Prelude InfoHash Sha256 MsgPack Ledger.

#[local] Open Scope vb_scope.

Definition LONG_MAX : Z := 2 ^ 31 - 1.
Definition LONG_MIN : Z := - 2 ^ 31.

(** A result of [long] arithmetic. *)
Definition as_long (z : Z) : outcome Z :=
  if (LONG_MIN <=? z) && (z <=? LONG_MAX) then Ret z else Undef "signed overflow".

Lemma as_long_out z : ~ (LONG_MIN <= z <= LONG_MAX) -> as_long z = Undef "signed overflow".
Proof. intros Hz. unfold as_long. by destruct (Z.leb_spec LONG_MIN z), (Z.leb_spec z LONG_MAX); [lia|..]. Qed.

Section Token.
Context `{Env}.

(** [token::transfer], for the token called [name]. *)
Definition transfer (name to : bytes) (amount : Z) : M bool :=
  result <- get (fun s => Select (cstore s) to) ;;
  match result with
  | Some result =>
      b <- lift (decode balances_ad result) ;;
      if bool_decide (bal_currency b = name) then
        if amount <=? bal_balance b then
          nb <- lift (as_long (bal_balance b + amount)) ;;
          trie_op cstore set_cstore
            (Update (sha256 to) (pack_as balances_ad (mkBalances nb (bal_currency b))))
        else ret false
      else ret false
  | None => lift (Undef "transfer: no return")
  end.

(** [token::transferFrom]. *)
Definition transferFrom (name from to : bytes) (amount : Z) : M bool :=
  result <- get (fun s => Select (cstore s) from) ;;
  match result with
  | Some result =>
      b <- lift (decode balances_ad result) ;;
      if bool_decide (bal_currency b = name) then
        if amount <=? bal_balance b then
          transfer name to amount ;;;
          nb <- lift (as_long (bal_balance b - amount)) ;;
          trie_op cstore set_cstore
            (Update (sha256 from) (pack_as balances_ad (mkBalances nb (bal_currency b))))
        else ret false
      else ret false
  | None => lift (Undef "transferFrom: no return")
  end.

(** [token::balanceOf]. *)
Definition balanceOf (name peer : bytes) : M Z :=
  result <- get (fun s => Select (cstore s) peer) ;;
  match result with
  | Some result =>
      b <- lift (decode balances_ad result) ;;
      if bool_decide (bal_currency b = name) then ret (bal_balance b)
      else lift (Undef "balanceOf: no return")
  | None => lift (Undef "balanceOf: no return")
  end.

End Token.

(** ** Accounts *)

Section accounts.
Context `{Env}.

(** The record the store holds under a key. *)
Definition account (s : App) (key : bytes) : option (outcome balances) :=
  decode balances_ad <$> Select (cstore s) key.

Definition has_account (s : App) (key : bytes) (b : balances) : Prop :=
  account s key = Some (Ret b).

Lemma account_inv s key b :
  has_account s key b -> exists r, Select (cstore s) key = Some r /\ decode balances_ad r = Ret b.
Proof.
  unfold has_account, account. destruct (Select (cstore s) key) as [r|]; cbn; [|done].
  intros [= ?]. eauto.
Qed.

Lemma balanceOf_account name key b s :
  has_account s key b -> bal_currency b = name -> balanceOf name key s = (Ret (bal_balance b), s).
Proof.
  intros (r & Hr & Hd)%account_inv <-. unfold balanceOf, bind, get, lift. rewrite Hr, Hd.
  by rewrite bool_decide_true.
Qed.

(** [transfer] on an account that can take part: the sum is recorded under the
    digest of the account's key. *)
Lemma transfer_ok name to amount s b ok t :
  has_account s to b -> bal_currency b = name -> amount <= bal_balance b ->
  LONG_MIN <= bal_balance b + amount <= LONG_MAX ->
  Update (sha256 to) (pack_as balances_ad (mkBalances (bal_balance b + amount) name)) (cstore s) = (ok, t) ->
  transfer name to amount s = (Ret ok, set_cstore t s).
Proof.
  intros (r & Hr & Hd)%account_inv Hc Ha Hl Hu. unfold transfer, bind, get, lift. rewrite Hr, Hd.
  rewrite bool_decide_true by done. destruct (Z.leb_spec amount (bal_balance b)); [|lia].
  unfold as_long. destruct (Z.leb_spec LONG_MIN (bal_balance b + amount)); [|lia].
  destruct (Z.leb_spec (bal_balance b + amount) LONG_MAX); [|lia]. cbn [andb].
  unfold trie_op. by rewrite Hc, Hu.
Qed.

End accounts.

(** ** Theorems *)

Section theorems.
Context `{Env}.

(** Updates of a trie one after the other, with the status of the last. *)
Fixpoint updates (l : list (bytes * bytes)) (ok : bool) (t : trie) : bool * trie :=
  match l with
  | [] => (ok, t)
  | (k, v) :: l' => let '(ok', t') := Update k v t in updates l' ok' t'
  end.

(** The record of an account under the digest of its key. *)
Definition written (key : bytes) (balance : Z) (name : bytes) : bytes * bytes :=
  (sha256 key, pack_as balances_ad (mkBalances balance name)).

(** [transfer] on every branch: without a record for the account the function flows
    off its end; a record in another currency, or a balance below the amount, makes it
    return false and change nothing; an overflow of [long] is undefined; otherwise the
    sum is given to the store under the SHA-256 digest of the account's key, and the
    status of the store is returned. *)
Theorem transfer_branches name to amount s :
  (Select (cstore s) to = None -> exists w, transfer name to amount s = (Undef w, s)) /\
  (forall b, has_account s to b ->
     (bal_currency b <> name \/ bal_balance b < amount -> transfer name to amount s = (Ret false, s)) /\
     (bal_currency b = name -> amount <= bal_balance b ->
      ~ (LONG_MIN <= bal_balance b + amount <= LONG_MAX) -> exists w, transfer name to amount s = (Undef w, s)) /\
     (bal_currency b = name -> amount <= bal_balance b ->
      LONG_MIN <= bal_balance b + amount <= LONG_MAX ->
      forall ok t, updates [written to (bal_balance b + amount) name] true (cstore s) = (ok, t) ->
      transfer name to amount s = (Ret ok, set_cstore t s))).
Proof.
  split.
  - intros Hn. unfold transfer, bind, get, lift. rewrite Hn. by eexists.
  - intros b Hb. pose proof (account_inv _ _ _ Hb) as (r & Hr & Hd). split_and!.
    + intros Hor. unfold transfer, bind, get, lift. rewrite Hr, Hd. case_bool_decide; [|done].
      destruct (Z.leb_spec amount (bal_balance b)); [destruct Hor; [done|lia]|done].
    + intros Hc Ha Ho. unfold transfer, bind, get, lift. rewrite Hr, Hd, bool_decide_true by done.
      destruct (Z.leb_spec amount (bal_balance b)); [|lia]. rewrite as_long_out by done. by eexists.
    + intros Hc Ha Hl ok t. cbn [updates written]. destruct (Update _ _ _) as [ok' t'] eqn:Hu. intros [= <- <-].
      by eapply transfer_ok.
Qed.

(** A transfer that succeeds is not seen by [balanceOf]: when an update of one key
    leaves the other records alone, the balance that [balanceOf] returns for the
    account is the one before, because the new record is stored under the digest of
    the account's key while accounts are looked up under the key itself. *)
Theorem transfer_invisible name to amount s s' b :
  (forall v t, Update (sha256 to) v (cstore s) = (true, t) -> Select t to = Select (cstore s) to) ->
  has_account s to b -> bal_currency b = name ->
  transfer name to amount s = (Ret true, s') ->
  balanceOf name to s' = (Ret (bal_balance b), s').
Proof.
  intros Hne Hb Hc Ht. pose proof (account_inv _ _ _ Hb) as (r & Hr & Hd).
  unfold transfer, bind, get, lift in Ht. rewrite Hr, Hd, bool_decide_true in Ht by done.
  destruct (amount <=? bal_balance b); [|done]. unfold as_long in Ht.
  destruct ((_ <=? _) && _); [|done]. unfold trie_op in Ht. rewrite Hc in Ht.
  destruct (Update _ _ _) as [ok t] eqn:Hu. injection Ht as -> <-.
  apply balanceOf_account; [|done]. unfold has_account, account. cbn. by rewrite (Hne _ _ Hu).
Qed.

(** The payee's side of a transfer that does not overflow: whether it is credited, and the
    updates made. *)
Definition covered (name : bytes) (amount : Z) (b : balances) : bool :=
  bool_decide (bal_currency b = name) && (amount <=? bal_balance b).

Lemma transfer_updates name to amount s b :
  has_account s to b -> (covered name amount b = true -> LONG_MIN <= bal_balance b + amount <= LONG_MAX) ->
  transfer name to amount s =
    let '(ok, t) := updates (if covered name amount b then [written to (bal_balance b + amount) name] else [])
                            (covered name amount b) (cstore s) in (Ret ok, set_cstore t s).
Proof.
  intros Hb Hl. destruct (transfer_branches name to amount s) as [_ Hbr]. destruct (Hbr b Hb) as (H1 & _ & H3).
  unfold covered in *. case_bool_decide as Hc; cbn [andb] in *.
  2: { rewrite H1 by (by left). cbn. f_equal. by destruct s. }
  destruct (Z.leb_spec amount (bal_balance b)) as [Ha|Ha].
  - destruct (updates _ _ _) as [ok t] eqn:Eu. apply H3; auto.
  - rewrite H1 by (right; lia). cbn. f_equal. by destruct s.
Qed.

(** C29. [transferFrom] on every branch, for any amount (its sign is not checked).
    Without a record for the payer, or without one for the payee of a payer who has
    the amount, the function flows off an end; a payer's record in another currency or
    below the amount makes it return false and change nothing; and an overflow of
    [long] on either side is undefined. Otherwise, with a record for the payee, the
    store is asked first to credit the payee under the digest of its key, but only if
    the payee's record is in the currency and its own balance covers the amount
    ([covered]), and then, whatever came of that, to debit the payer; the status of
    the debit is returned. *)
Theorem transferFrom_effect name from to amount s :
  (Select (cstore s) from = None -> exists w, transferFrom name from to amount s = (Undef w, s)) /\
  (forall bf, has_account s from bf ->
     (bal_currency bf <> name \/ bal_balance bf < amount -> transferFrom name from to amount s = (Ret false, s)) /\
     (bal_currency bf = name -> amount <= bal_balance bf ->
        (Select (cstore s) to = None -> exists w, transferFrom name from to amount s = (Undef w, s)) /\
        (forall bt, has_account s to bt ->
           (covered name amount bt = true -> ~ (LONG_MIN <= bal_balance bt + amount <= LONG_MAX) ->
              exists w, transferFrom name from to amount s = (Undef w, s)) /\
           ((covered name amount bt = true -> LONG_MIN <= bal_balance bt + amount <= LONG_MAX) ->
              (~ (LONG_MIN <= bal_balance bf - amount <= LONG_MAX) ->
                 exists w s', transferFrom name from to amount s = (Undef w, s')) /\
              (LONG_MIN <= bal_balance bf - amount <= LONG_MAX -> forall ok t,
                 updates ((if covered name amount bt
                           then [(sha256 to, pack_as balances_ad (mkBalances (bal_balance bt + amount) name))] else []) ++
                          [(sha256 from, pack_as balances_ad (mkBalances (bal_balance bf - amount) name))])
                         true (cstore s) = (ok, t) ->
                 transferFrom name from to amount s = (Ret ok, set_cstore t s)))))).
Proof.
  split; [intros Hn; unfold transferFrom, bind, get, lift; rewrite Hn; by eexists|].
  intros bf Hf. pose proof (account_inv _ _ _ Hf) as (rf & Hrf & Hdf). split.
  { intros Hor. unfold transferFrom, bind, get, lift. rewrite Hrf, Hdf. case_bool_decide; [|done].
    destruct (Z.leb_spec amount (bal_balance bf)); [destruct Hor; [done|lia]|done]. }
  intros Hc Ha.
  assert (transferFrom name from to amount s =
    bind (transfer name to amount) (fun _ => bind (lift (as_long (bal_balance bf - amount))) (fun nb =>
      trie_op cstore set_cstore (Update (sha256 from) (pack_as balances_ad (mkBalances nb (bal_currency bf)))))) s) as ->.
  { unfold transferFrom at 1, bind at 1 2, get, lift at 1. rewrite Hrf, Hdf, bool_decide_true by done.
    by destruct (Z.leb_spec amount (bal_balance bf)); [|lia]. }
  destruct (transfer_branches name to amount s) as [Hnone Hbr]. split.
  { intros Hn. destruct (Hnone Hn) as [w Hw]. unfold bind. rewrite Hw. by eexists. }
  intros bt Ht. split.
  { intros [H1%bool_decide_eq_true H2%Z.leb_le]%andb_true_iff H3. destruct (Hbr bt Ht) as (_ & Hov & _).
    destruct (Hov H1 H2 H3) as [w Hw]. unfold bind. rewrite Hw. by eexists. }
  intros Hl. unfold bind. rewrite (transfer_updates _ _ _ _ _ Ht Hl).
  set (credit := covered _ _ _). destruct (updates (if credit then _ else _) credit (cstore s)) as [ok1 t1] eqn:E1. split.
  - intros Hov. unfold lift. rewrite as_long_out by done. by eexists _, _.
  - intros [Hlo Hhi] ok t. unfold lift, as_long. rewrite (proj2 (Z.leb_le _ _) Hlo), (proj2 (Z.leb_le _ _) Hhi). cbn [andb].
    unfold trie_op. rewrite Hc. destruct credit; cbn [updates written app] in *.
    + destruct (Update (sha256 to) _ _) as [ok2 t2]. injection E1 as <- <-. cbn [cstore set_cstore]. destruct (Update (sha256 from) _ _) as [ok3 t3]. by intros [= <- <-].
    + injection E1 as <- <-. cbn [cstore set_cstore]. destruct (Update (sha256 from) _ _) as [ok3 t3]. by intros [= <- <-].
Qed.

End theorems.

(** ** Witnesses: two accounts of the demonstration environment *)

Section witnesses.
Import Demo.

Definition alice : bytes := str "alice".
Definition bob : bytes := str "bob".
Definition via : bytes := str "via".

Definition two_accounts : App :=
  set_cstore (<[alice := pack_as balances_ad (mkBalances 100 via)]>
              (<[bob := pack_as balances_ad (mkBalances 50 via)]> (∅ : gmap bytes bytes))) empty_app.

Lemma two_accounts_alice : has_account two_accounts alice (mkBalances 100 via).
Proof. vm_compute. reflexivity. Qed.
Lemma two_accounts_bob : has_account two_accounts bob (mkBalances 50 via).
Proof. vm_compute. reflexivity. Qed.

Lemma transfer_branches_witness :
  exists t, transfer via bob 20 two_accounts = (Ret true, set_cstore t two_accounts) /\
    has_account (set_cstore t two_accounts) (sha256 bob) (mkBalances 70 via).
Proof.
  destruct (transfer_branches via bob 20 two_accounts) as [_ Hb].
  destruct (Hb _ two_accounts_bob) as (_ & _ & Hok).
  eexists. split; [apply Hok; [reflexivity|cbn; lia|unfold LONG_MIN, LONG_MAX; cbn; lia|reflexivity]|].
  unfold has_account, account. cbn [cstore set_cstore Select demo_env]. rewrite lookup_insert_eq. reflexivity.
Defined.

Lemma bob_key : sha256 bob <> bob /\ sha256 bob <> alice.
Proof. split; apply sha256_ne; (by apply str_wf) || by vm_compute. Qed.

Lemma alice_bob : sha256 alice <> sha256 bob.
Proof. vm_compute. discriminate. Qed.

Lemma transfer_invisible_witness :
  exists s', transfer via bob 20 two_accounts = (Ret true, s') /\ balanceOf via bob s' = (Ret 50, s').
Proof.
  eexists. split; [apply (transfer_ok via bob 20 two_accounts (mkBalances 50 via));
    [exact two_accounts_bob|reflexivity|cbn; lia|unfold LONG_MIN, LONG_MAX; cbn; lia|reflexivity]|].
  apply (transfer_invisible via bob 20 two_accounts _ (mkBalances 50 via)); [|exact two_accounts_bob|reflexivity|].
  - intros v t [= <-]. by apply lookup_insert_ne, bob_key.
  - apply (transfer_ok via bob 20 two_accounts (mkBalances 50 via));
      [exact two_accounts_bob|reflexivity|cbn; lia|unfold LONG_MIN, LONG_MAX; cbn; lia|reflexivity].
Defined.

(** The payee does not own the amount: the payer is debited and nobody is credited. *)
Lemma transferFrom_effect_witness :
  transferFrom via alice bob 60 two_accounts =
    (Ret true, set_cstore (<[sha256 alice := pack_as balances_ad (mkBalances 40 via)]> (cstore two_accounts)) two_accounts).
Proof.
  destruct (transferFrom_effect via alice bob 60 two_accounts) as [_ H].
  destruct (H _ two_accounts_alice) as [_ H1]. destruct (H1 eq_refl ltac:(cbn; lia)) as [_ H2].
  destruct (H2 _ two_accounts_bob) as [_ H3]. destruct H3 as [_ H4]; [discriminate|].
  apply H4; [unfold LONG_MIN, LONG_MAX; cbn; lia|reflexivity].
Defined.

End witnesses.
