(* ===== verification/Asset.v ===== *)
(** * Asset: requests and responses on record

    Models the class [asset] of src/verified-blockchain/src/asset.h and asset.cpp
    and [resource::calculateCost] of resource.cpp.  [double] is the binary64
    format of the Standard Library's [SpecFloat]. *)
From Stdlib Require Import Floats.SpecFloat.
From S2P Require Import Prelude InfoHash Sha256 MsgPack SockAddr Node Ledger Token.

#[local] Open Scope vb_scope.

(** [long] to [double], and the comparison of a [long] with a [double]. *)
Definition double_of_long (z : Z) : spec_float := binary_normalize 53 1024 z 0 false.
Definition long_gt_double (z : Z) (d : spec_float) : bool := SFltb d (double_of_long z).

(** [resource::calculateCost]. *)
Definition calculateCost (contractId : bytes) : Z := 0.

Section Asset.
Context `{Env}.

(** The key of a request: the digest of its packed text. *)
Definition request_key (req : request) : bytes := sha256 (pack_string (rq_encodedRequest req)).

(** The record [recordRequest] builds; [value] and [transaction_status] are not
    initialised. *)
Definition new_asset (req : request) : assets :=
  mkAssets (pack (hash_obj (rq_from req))) [] uninit_double (str "via") (rq_contractId req)
           (request_key req) [] uninit_bool.

(** [asset::recordRequest]; the stream [s] holds the packed sender when the record
    is packed into it. *)
Definition recordRequest (peer : bytes) (req : request) : M bool :=
  result <- get (fun s => Select (astore s) (request_key req)) ;;
  match result with
  | None =>
      bal <- balanceOf (str "via") peer ;;
      if 0 <? bal then
        trie_op astore set_astore
          (Insert (request_key req)
                  (pack (hash_obj (rq_from req)) ++ pack_as assets_ad (new_asset req)))
      else ret false
  | Some _ => ret false
  end.

(** The three ways to settle a response: by the responder, by the requestor, by
    somebody else. *)
Definition settle (peer : bytes) (s : assets) : M (option (spec_float * bool)) :=
  if bool_decide (peer = as_responder s) then
    let cost := calculateCost (as_contract_id s) in
    bal <- balanceOf (str "via") peer ;;
    ret (Some (double_of_long (Z.quot cost 2), cost <? bal))
  else if bool_decide (peer = as_requestor s) then
    bal <- balanceOf (str "via") peer ;;
    ret (Some (as_value s, long_gt_double bal (as_value s)))
  else ret None.

(** [asset::recordResponse]. *)
Definition recordResponse (peer : bytes) (req : request) : M bool :=
  result <- get (fun s => Select (astore s) (request_key req)) ;;
  match result with
  | Some result =>
      a <- lift (decode assets_ad result) ;;
      let st1 := pack_string (rq_encodedResponse req) in
      let st2 := st1 ++ pack (hash_obj (rq_from req)) in
      let a1 := mkAssets (as_requestor a) st2 (as_value a) (as_currency a) (as_contract_id a)
                         (as_request a) (sha256 st1) (as_transaction_status a) in
      r <- settle peer a1 ;;
      match r with
      | None => ret false
      | Some (value, status) =>
          let a2 := mkAssets (as_requestor a1) (as_responder a1) value (as_currency a1) (as_contract_id a1)
                             (as_request a1) (as_response a1) status in
          trie_op astore set_astore (Update (request_key req) (st2 ++ pack_as assets_ad a2))
      end
  | None => ret false
  end.

End Asset.

(** ** Theorems *)

Section theorems.
Context `{EnvLaws}.

Definition inserts_succeed : Prop := forall k v t, exists t', Insert k v t = (true, t').

Lemma recordRequest_new peer req s b t :
  has_account s peer b -> bal_currency b = str "via" -> 0 < bal_balance b ->
  Select (astore s) (request_key req) = None ->
  Insert (request_key req) (pack (hash_obj (rq_from req)) ++ pack_as assets_ad (new_asset req)) (astore s) = (true, t) ->
  recordRequest peer req s = (Ret true, set_astore t s).
Proof.
  intros Hb Hc Hpos Hn Ht. unfold recordRequest, bind, get. rewrite Hn, (balanceOf_account _ _ _ _ Hb Hc).
  destruct (Z.ltb_spec 0 (bal_balance b)); [|lia]. unfold trie_op. by rewrite Ht.
Qed.

Lemma recordRequest_refused peer req s b :
  has_account s peer b -> bal_currency b = str "via" ->
  is_Some (Select (astore s) (request_key req)) \/ bal_balance b <= 0 ->
  recordRequest peer req s = (Ret false, s).
Proof.
  intros Hb Hc Hor. unfold recordRequest, bind, get.
  destruct (Select (astore s) (request_key req)) as [r|]; [reflexivity|].
  destruct Hor as [[? ?]|Hle]; [congruence|]. rewrite (balanceOf_account _ _ _ _ Hb Hc).
  destruct (Z.ltb_spec 0 (bal_balance b)); [lia|done].
Qed.

(** [recordRequest]: a request on record is refused; a new one is recorded
    when the peer's balance of the token "via" is positive, under the digest of the
    packed request, and refused without a change when the balance is not; no other
    record changes.  Recording the same request again is refused. *)
Theorem recordRequest_spec peer req s b :
  has_account s peer b -> bal_currency b = str "via" -> inserts_succeed ->
  (is_Some (Select (astore s) (request_key req)) -> recordRequest peer req s = (Ret false, s)) /\
  (Select (astore s) (request_key req) = None -> bal_balance b <= 0 ->
     recordRequest peer req s = (Ret false, s)) /\
  (Select (astore s) (request_key req) = None -> 0 < bal_balance b ->
     exists s', recordRequest peer req s = (Ret true, s') /\
       Select (astore s') (request_key req) =
         Some (pack (hash_obj (rq_from req)) ++ pack_as assets_ad (new_asset req)) /\
       (forall k, k <> request_key req -> Select (astore s') k = Select (astore s) k) /\
       cstore s' = cstore s /\ recordRequest peer req s' = (Ret false, s')).
Proof.
  intros Hb Hc Hi. split_and!.
  - intros Hr. eapply recordRequest_refused; eauto.
  - intros Hn Hle. eapply recordRequest_refused; eauto.
  - intros Hn Hpos.
    destruct (Hi (request_key req) (pack (hash_obj (rq_from req)) ++ pack_as assets_ad (new_asset req)) (astore s))
      as [t Ht].
    pose proof (Select_Insert _ _ _ _ Ht) as Hs. exists (set_astore t s).
    split_and!; [by eapply recordRequest_new|done| |done|].
    + intros k Hk. cbn. by apply (Select_Insert_ne _ _ _ _ _ Ht).
    + eapply (recordRequest_refused _ _ (set_astore t s)); [exact Hb|done|]. left. cbn. rewrite Hs. by eexists.
Qed.

(** A response to a request that [recordRequest] put on record cannot be
    recorded: the record starts with the packed identifier of the sender, so the
    first object that [recordResponse] unpacks is not the record and the conversion
    throws. *)
Theorem recordResponse_after_request peer peer' req resp s s' :
  wf_bytes (rq_from req) -> length (rq_from req) = 20%nat -> packable assets_ad (new_asset req) ->
  Select (astore s) (request_key req) = None -> recordRequest peer req s = (Ret true, s') ->
  rq_encodedRequest resp = rq_encodedRequest req ->
  recordResponse peer' resp s' = (Throw "type_error", s').
Proof.
  intros Hw Hl Hp Hn Hr He. unfold recordRequest, bind, get in Hr. rewrite Hn in Hr.
  destruct (balanceOf (str "via") peer s) as [[bal| | |] s1] eqn:Eb; try done.
  destruct (0 <? bal); [|done]. unfold trie_op in Hr. destruct (Insert _ _ _) as [ok t] eqn:Ht.
  injection Hr as -> <-. assert (request_key resp = request_key req) as Hk by (unfold request_key; by rewrite He).
  unfold recordResponse, bind, get, lift. cbn [set_astore astore]. rewrite Hk, (Select_Insert _ _ _ _ Ht).
  rewrite decode_binary; [done|apply assets_ok|unfold len; rewrite Hl; lia|done|].
  eapply pack_wf, Hp.
Qed.

(** [recordResponse] by the requestor, on a record that can be read: the
    status is whether the peer's balance exceeds the value on record; the store is given
    the response, the sender and the updated record, in this order, and its status is
    returned. *)
Theorem recordResponse_requestor peer req s a b rest ok t :
  Select (astore s) (request_key req) = Some (pack_as assets_ad a ++ rest) -> wf_bytes rest ->
  packable assets_ad a -> as_requestor a = peer ->
  peer <> pack_string (rq_encodedResponse req) ++ pack (hash_obj (rq_from req)) ->
  has_account s peer b -> bal_currency b = str "via" ->
  Update (request_key req)
    ((pack_string (rq_encodedResponse req) ++ pack (hash_obj (rq_from req))) ++
     pack_as assets_ad
       (mkAssets peer (pack_string (rq_encodedResponse req) ++ pack (hash_obj (rq_from req)))
          (as_value a) (as_currency a) (as_contract_id a) (as_request a)
          (sha256 (pack_string (rq_encodedResponse req)))
          (long_gt_double (bal_balance b) (as_value a)))) (astore s) = (ok, t) ->
  recordResponse peer req s = (Ret ok, set_astore t s).
Proof.
  intros Hs Hrest Hp Hreq Hne Hb Hc Hu. unfold recordResponse, bind, get, lift. rewrite Hs.
  rewrite decode_pack by (done || apply assets_ok). cbn beta iota zeta. unfold settle. cbn [as_responder as_requestor].
  rewrite bool_decide_false, bool_decide_true by done.
  unfold bind, ret. rewrite (balanceOf_account _ _ _ _ Hb Hc). cbn beta iota zeta.
  cbn [as_value as_requestor as_currency as_contract_id as_request as_response]. rewrite Hreq.
  unfold trie_op. by rewrite Hu.
Qed.

End theorems.

(** ** Witnesses *)

Section witnesses.
Import Demo.

Definition sample_req : request :=
  mkClientRequest [] (str "request") [] (replicate 20 2) (replicate 20 1) (str "contract")
                  (str "do something") [] (mkNodeExport (Hash_zero 20) [] 0) (mkNodeExport (Hash_zero 20) [] 0).

Lemma demo_inserts : inserts_succeed.
Proof. intros k v t. by eexists. Qed.

Lemma recordRequest_spec_witness :
  exists s', recordRequest alice sample_req two_accounts = (Ret true, s') /\
    recordRequest alice sample_req s' = (Ret false, s').
Proof.
  destruct (recordRequest_spec alice sample_req two_accounts (mkBalances 100 via) two_accounts_alice eq_refl demo_inserts)
    as (_ & _ & Hok).
  destruct Hok as (s' & H1 & _ & _ & _ & H2); [apply lookup_empty|cbn; lia|]. exists s'. by split.
Defined.

Lemma assets_packable a :
  Forall (fun s => len s < 2 ^ 32 /\ wf_bytes s)
    [as_requestor a; as_responder a; as_currency a; as_contract_id a; as_request a; as_response a] ->
  as_value a = S754_nan -> packable assets_ad a.
Proof.
  rewrite !Forall_cons. intros (? & ? & ? & ? & ? & ? & _) Hv. apply wf_arr. split_and!; [lia|reflexivity|].
  repeat apply Forall_cons_2; [..|constructor]; try done. rewrite Hv.
  apply wf_arr. split_and!; [lia|reflexivity|]. repeat constructor; lia.
Qed.

Lemma sample_key_ok : len (request_key sample_req) < 2 ^ 32 /\ wf_bytes (request_key sample_req).
Proof.
  assert (wf_bytes (pack_string (rq_encodedRequest sample_req))) as Hw by by_compute.
  unfold len, request_key. rewrite sha256_length by (done || by vm_compute).
  split; [lia|]. apply sha256_wf; [done|by vm_compute].
Qed.

Lemma new_asset_packable : packable assets_ad (new_asset sample_req).
Proof.
  apply assets_packable; [|reflexivity].
  repeat apply Forall_cons_2; [..|constructor]; try exact sample_key_ok; (split; [by vm_compute|by_compute]).
Qed.

Lemma recordResponse_after_request_witness :
  exists s', recordRequest alice sample_req two_accounts = (Ret true, s') /\
    recordResponse bob sample_req s' = (Throw "type_error", s').
Proof.
  destruct (demo_inserts (request_key sample_req)
    (pack (hash_obj (rq_from sample_req)) ++ pack_as assets_ad (new_asset sample_req)) (astore two_accounts)) as [t Ht].
  assert (recordRequest alice sample_req two_accounts = (Ret true, set_astore t two_accounts)) as Hr.
  { eapply recordRequest_new; [exact two_accounts_alice|reflexivity|reflexivity|apply lookup_empty|exact Ht]. }
  exists (set_astore t two_accounts). split; [exact Hr|].
  apply (recordResponse_after_request alice bob sample_req sample_req two_accounts);
    [by_compute|reflexivity|exact new_asset_packable|apply lookup_empty|exact Hr|reflexivity].
Defined.

Definition sample_asset : assets :=
  mkAssets alice [] S754_nan via (str "contract") (request_key sample_req) [] false.

Definition with_asset : App :=
  set_astore (<[request_key sample_req := pack_as assets_ad sample_asset]> (∅ : gmap bytes bytes)) two_accounts.

Lemma sample_asset_packable : packable assets_ad sample_asset.
Proof.
  apply assets_packable; [|reflexivity].
  repeat apply Forall_cons_2; [..|constructor]; try exact sample_key_ok; (split; [by vm_compute|by_compute]).
Qed.

Lemma recordResponse_requestor_witness :
  exists s', recordResponse alice sample_req with_asset = (Ret true, s').
Proof.
  eexists. apply (recordResponse_requestor alice sample_req with_asset sample_asset (mkBalances 100 via) []);
    [rewrite app_nil_r; apply lookup_insert_eq|constructor|exact sample_asset_packable|reflexivity
    |vm_compute; discriminate|exact two_accounts_alice|reflexivity|reflexivity].
Defined.

End witnesses.
