(* ===== verification/Chain.v ===== *)
(** * Chain: blocks and the chain of blocks

    Models src/verified-blockchain/src/block.h, block.cpp, chain.h and chain.cpp.
    The text a block is hashed from is what [operator<<] writes: the index and the
    time in decimal, then the data and the previous hash, with no separators. *)
From Stdlib Require Import DecimalString.
From S2P Require Import Prelude InfoHash Sha256 MsgPack SockAddr Node Ledger.

#[local] Open Scope vb_scope.

(** [operator<<] of an integer. *)
Definition dec (z : Z) : bytes := str (NilZero.string_of_int (Z.to_int z)).

(** [block::block]; [now] is [time(NULL)].  The member [hash] is empty. *)
Definition block_make (now indexIn : Z) (dataIn : bytes) (prev : Hash) : block :=
  mkBlock indexIn dataIn [] now (toString prev).

(** [block::getHash]. *)
Definition getHash (b : block) : bytes := bk_hash b.

(** The text that is hashed. *)
Definition block_text (b : block) : bytes :=
  dec (bk_index b) ++ dec (bk_current_time b) ++ bk_data b ++ bk_prevHash b.

(** [block::calculateHash]: the digest, which the block also keeps. *)
Definition calculateHash (b : block) : bytes * block :=
  let h := sha256 (block_text b) in
  (h, mkBlock (bk_index b) (bk_data b) h (bk_current_time b) (bk_prevHash b)).

Section Chain.
Context `{Env}.

(** [chain::chain]: the node it builds for an empty trie is a local variable. *)
Definition chain_make : M unit := root <- get (fun s => GetRoot (blockchain s)) ;; ret tt.

(** [chain::addBlock]; the status of [Insert] is not looked at. *)
Definition addBlock (b : block) : M unit :=
  let '(blockhash, b') := calculateHash b in
  trie_op blockchain set_blockchain (Insert blockhash (dangling (pack_as block_ad b'))) ;;; ret tt.

(** [chain::getSize]. *)
Definition getSize : M Z := get (fun s => trie_size (blockchain s)).

End Chain.

(** ** Theorems *)

Section theorems.
Context `{EnvLaws}.

(** [addBlock] stores the packed block, its own hash set, under that hash,
    which is the SHA-256 digest in 64 hexadecimal digits of the block's text; no
    other block changes and nothing else of the peer does. *)
Theorem addBlock_stores b s t :
  wf_bytes (block_text b) -> len (block_text b) < 2 ^ 29 ->
  Insert (sha256 (block_text b)) (dangling (pack_as block_ad (calculateHash b).2)) (blockchain s) = (true, t) ->
  addBlock b s = (Ret tt, set_blockchain t s) /\
  getHash (calculateHash b).2 = sha256 (block_text b) /\ length (sha256 (block_text b)) = 64%nat /\
  Select t (sha256 (block_text b)) = Some (dangling (pack_as block_ad (calculateHash b).2)) /\
  (forall k, k <> sha256 (block_text b) -> Select t k = Select (blockchain s) k).
Proof.
  intros Hw Hl Hi. split_and!.
  - unfold addBlock, bind, trie_op. cbn [calculateHash] in *. unfold calculateHash in *. cbn [snd] in *. by rewrite Hi.
  - done.
  - by apply sha256_length.
  - by apply (Select_Insert _ _ _ _ Hi).
  - intros k Hk. by apply (Select_Insert_ne _ _ _ _ _ Hi).
Qed.

(** The hash of a block does not determine its fields: digits of the index
    and of the time, and bytes of the data and of the previous hash, can move
    across the boundary without changing the text. *)
Theorem block_text_ambiguous data prev :
  let b1 := mkBlock 1 data [] 1577836800 prev in
  let b2 := mkBlock 11 data [] 577836800 prev in
  b1 <> b2 /\ (calculateHash b1).1 = (calculateHash b2).1 /\
  forall i t c d, (calculateHash (mkBlock i (c ++ d) [] t prev)).1 =
                  (calculateHash (mkBlock i c [] t (d ++ prev))).1.
Proof.
  cbn zeta. split_and!; [discriminate|reflexivity|].
  intros i t c d. unfold calculateHash, block_text. cbn [fst bk_index bk_current_time bk_data bk_prevHash].
  by rewrite <- app_assoc.
Qed.

End theorems.

Section witnesses.
Import Demo.

Lemma addBlock_stores_witness :
  exists t, addBlock (block_make 1577836800 0 (str "tx") (replicate 20 0)) empty_app = (Ret tt, set_blockchain t empty_app).
Proof.
  eexists. apply (addBlock_stores (block_make 1577836800 0 (str "tx") (replicate 20 0)) empty_app);
    [by_compute|vm_compute; reflexivity|reflexivity].
Defined.

End witnesses.
