(* ===== verification/Transaction.v ===== *)
(** * Transaction: requests, certification, verification

    Models the class [transaction] of src/verified-blockchain/src/transaction.h
    and transaction.cpp, and [client::listenForVerifications] of client.cpp, which
    it calls.  Messages put on the network are events of the state, in order.
    Assigning to a [std::thread] that is joinable, or destroying one, ends the
    program. *)
From S2P Require Import Prelude InfoHash Sha256 MsgPack SockAddr Node Ledger Chain.

#[local] Open Scope vb_scope.

Section Transaction.
Context `{Env}.

(** The loops of [out] and [in]: the neighbour whose life is longest.  The lives
    are never assigned: [peer_life i] is what the variable holds in round [i]. *)
Fixpoint oldest_peer (i : nat) (life : Z) (peer : NodeExport) (ns : list NodeExport) : NodeExport :=
  match ns with
  | [] => peer
  | this_peer :: ns' =>
      if life <? uninit_seconds (S i) then oldest_peer (S i) (uninit_seconds (S i)) this_peer ns'
      else oldest_peer (S i) life peer ns'
  end.

(** Put a record on the network as a C string. *)
Definition put_dangling (key : Hash) (packed : bytes) : M unit := emit (EPut key (dangling packed)).

(** [GetRoot] as the text of a request; null is empty. *)
Definition root_text (r : option bytes) : bytes := match r with Some b => b | None => [] end.

Definition rq_address (root kind : bytes) (vp : list Hash) (rp sp : NodeExport) (r : request) : request :=
  mkClientRequest root kind vp (rq_sendTo r) (rq_from r) (rq_contractId r) (rq_encodedRequest r)
                  (rq_encodedResponse r) rp sp.

(** [transaction::out]: the request as it is sent. *)
Definition out (req : request) : M request :=
  ns <- get nodes ;;
  let peer := match ns with
              | [] => mkNodeExport (Hash_zero HASH_LEN) (replicate sizeof_sockaddr_storage 0) 0
              | _ => oldest_peer 0 (uninit_seconds 0) uninit_node ns
              end in
  root <- get (fun s => GetRoot (transactionStore s)) ;;
  result <- get (fun s => GetLast 3 (transactionStore s)) ;;
  tx <- lift (decode certifiedTx_ad result) ;;
  let req' := rq_address (root_text root) (str "request") (ct_previous_verifyingPeers tx) peer
                         (rq_responderPeer req) req in
  put_dangling (rq_sendTo req') (pack_as request_ad req') ;;;
  ret req'.

(** The certification request that [in] builds; the type, the certifying peer and
    the time keep their default values, the status is not initialised. *)
Definition certification_request (req : request) : certifiedTx :=
  mkCertifiedTx (rq_root req) [] (sha256 (rq_encodedRequest req ++ rq_encodedResponse req))
                (Hash_zero HASH_LEN) (rq_verifyingPeers req) (rq_sendTo req) (rq_from req)
                (sha256 (rq_encodedRequest req)) (sha256 (rq_encodedResponse req)) uninit_bool 0.

(** The peer that certifies: the one with the longer address. *)
Definition certifying_peer_of (req : request) : Hash :=
  if ne_sslen (rq_responderPeer req) <? ne_sslen (rq_requestorPeer req)
  then ne_id (rq_requestorPeer req) else ne_id (rq_responderPeer req).

(** [transaction::in]. *)
Definition in_ (req : request) : M request :=
  req1 <- (if bool_decide (rq_kind req = str "request") then
             ns <- get nodes ;;
             let peer := oldest_peer 0 (uninit_seconds 0) (rq_requestorPeer req) ns in
             root <- get (fun s => GetRoot (transactionStore s)) ;;
             result <- get (fun s => GetLast 3 (transactionStore s)) ;;
             tx <- lift (decode certifiedTx_ad result) ;;
             let req' := rq_address (root_text root) (str "response") (ct_previous_verifyingPeers tx)
                                    (rq_requestorPeer req) peer req in
             put_dangling (rq_sendTo req') (pack_as request_ad req') ;;;
             ret req'
           else ret req) ;;
  put_dangling (certifying_peer_of req1) (pack_as certifiedTx_ad (certification_request req1)) ;;;
  ret req1.

(** [client::listenForVerifications] on a client whose [listener] is joinable or
    not: a thread per peer, each assigned to the one member. *)
Fixpoint listenForVerifications (joinable : bool) (peers : list Hash) : M bool :=
  match peers with
  | [] => ret joinable
  | p :: peers' =>
      emit (EListen PToken p) ;;;
      if joinable then lift (Terminate "assignment to a joinable thread")
      else listenForVerifications true peers'
  end.

(** [transaction::verified]; [clock] is [time(NULL)] of the new block. *)
Definition verified (clock : Z) (tx : verifiedTx) (verifier : Hash) : M unit :=
  let packed := pack_as verifiedTx_ad tx in
  chain_make ;;;
  size <- getSize ;;
  addBlock (block_make clock (wrap 32 size) (cstr packed) verifier) ;;;
  put_dangling (vt_party tx) packed ;;;
  put_dangling (vt_counterparty tx) packed ;;;
  if vt_verification_status tx then
    j <- listenForVerifications false [vt_party tx; vt_counterparty tx] ;;
    if j then lift (Terminate "destruction of a joinable thread") else ret tt
  else ret tt.

Definition ct_certify (status : bool) (peer : Hash) (time : Z) (c : certifiedTx) : certifiedTx :=
  mkCertifiedTx (ct_root c) (ct_type c) (ct_hash c) peer (ct_previous_verifyingPeers c) (ct_counterparty c)
                (ct_party c) (ct_request c) (ct_response c) status time.

(** The key under which [certify] looks a request up. *)
Definition certification_key (req : certifiedTx) : bytes := sha256 (pack_string (ct_hash req)).

(** Do two certification requests agree on the request and the response? *)
Definition agree (a b : certifiedTx) : bool :=
  bool_decide (ct_request a = ct_request b) && bool_decide (ct_response a = ct_response b).

(** [transaction::certify]; [now] is the system clock. *)
Definition certify (now clock : Z) (req : certifiedTx) : M unit :=
  result <- get (fun s => Select (certificationRequests s) (certification_key req)) ;;
  me <- get user ;;
  match result with
  | None =>
      ok <- trie_op certificationRequests set_certificationRequests
              (Insert (ct_hash req) (pack_as certifiedTx_ad req)) ;;
      if negb ok then
        let req' := ct_certify false me (ct_timestamp req) req in
        put_dangling (ct_party req) (pack_as certifiedTx_ad req') ;;;
        put_dangling (ct_counterparty req) (pack_as certifiedTx_ad req')
      else ret tt
  | Some result =>
      requests <- lift (decode certifiedTx_ad result) ;;
      let status := agree requests req in
      let requests' := ct_certify status me now requests in
      let packed := pack_as certifiedTx_ad requests' in
      trie_op certificationRequests set_certificationRequests (Update (ct_hash requests) (dangling packed)) ;;;
      put_dangling (ct_party req) packed ;;;
      put_dangling (ct_counterparty requests) packed ;;;
      match ct_previous_verifyingPeers req, ct_previous_verifyingPeers requests with
      | [], [] =>
          if agree requests req then
            verified clock (mkVerifiedTx (ct_hash req) me (ct_party req) (ct_counterparty req) now true)
                     (Hash_of_string HASH_LEN (str "verified network root"))
          else ret tt
      | _, _ => ret tt
      end
  end.

(** [transaction::verify]; the search for this peer among the previous verifying
    peers has no effect in the code. *)
Definition verify (req : certifiedTx) : M unit :=
  proved <- get (fun s => VerifyProof (GetRoot (blockchain s)) (ct_root req) (Prove (blockchain s) (ct_root req))) ;;
  me <- get user ;;
  let vtx := mkVerifiedTx (ct_hash req) me (ct_party req) (ct_counterparty req) (ct_timestamp req)
                          (match proved with Some _ => true | None => false end) in
  put_dangling (ct_certifying_peer req) (pack_as verifiedTx_ad vtx).

End Transaction.

(** ** Running the steps *)

Section steps.
Context `{EnvLaws}.

(** [verified] up to the listeners: a block is added, both parties are told. *)
Definition verified_state (clock : Z) (tx : verifiedTx) (verifier : Hash) (s : App) : App :=
  let packed := pack_as verifiedTx_ad tx in
  let b := block_make clock (wrap 32 (trie_size (blockchain s))) (cstr packed) verifier in
  let t := (Insert (sha256 (block_text b)) (dangling (pack_as block_ad (calculateHash b).2)) (blockchain s)).2 in
  add_event (EPut (vt_counterparty tx) (dangling packed))
    (add_event (EPut (vt_party tx) (dangling packed)) (set_blockchain t s)).

Lemma verified_run clock tx verifier s :
  verified clock tx verifier s =
  if vt_verification_status tx then
    (Terminate "assignment to a joinable thread",
     add_event (EListen PToken (vt_counterparty tx))
       (add_event (EListen PToken (vt_party tx)) (verified_state clock tx verifier s)))
  else (Ret tt, verified_state clock tx verifier s).
Proof.
  unfold verified, verified_state, chain_make, getSize, addBlock, calculateHash, put_dangling, emit, upd, get,
    bind, ret, trie_op. cbn [snd].
  destruct (Insert _ _ _) as [ok t]. cbn [snd]. by destruct (vt_verification_status tx).
Qed.

(** [certify] when the lookup finds nothing and the store accepts the request. *)
Lemma certify_miss now clock req s t :
  Select (certificationRequests s) (certification_key req) = None ->
  Insert (ct_hash req) (pack_as certifiedTx_ad req) (certificationRequests s) = (true, t) ->
  certify now clock req s = (Ret tt, set_certificationRequests t s).
Proof.
  intros Hn Hi. unfold certify, bind, get, ret, trie_op. rewrite Hn. cbn beta iota. by rewrite Hi.
Qed.

(** [certify] when an earlier request is found, up to the verdict. *)
Definition certified_state (now : Z) (req requests : certifiedTx) (s : App) : App :=
  let packed := pack_as certifiedTx_ad (ct_certify (agree requests req) (user s) now requests) in
  let t := (Update (ct_hash requests) (dangling packed) (certificationRequests s)).2 in
  add_event (EPut (ct_counterparty requests) (dangling packed))
    (add_event (EPut (ct_party req) (dangling packed)) (set_certificationRequests t s)).

Lemma certify_hit now clock req requests r s :
  Select (certificationRequests s) (certification_key req) = Some r ->
  decode certifiedTx_ad r = Ret requests ->
  certify now clock req s =
  match ct_previous_verifyingPeers req, ct_previous_verifyingPeers requests with
  | [], [] =>
      if agree requests req then
        verified clock (mkVerifiedTx (ct_hash req) (user s) (ct_party req) (ct_counterparty req) now true)
                 (Hash_of_string HASH_LEN (str "verified network root")) (certified_state now req requests s)
      else (Ret tt, certified_state now req requests s)
  | _, _ => (Ret tt, certified_state now req requests s)
  end.
Proof.
  intros Hs Hd. unfold certify, certified_state, bind, get, lift, put_dangling, emit, upd, trie_op.
  rewrite Hs. cbn beta iota. rewrite Hd. cbn beta iota zeta.
  destruct (Update _ _ _) as [ok t]. cbn [snd].
  destruct (ct_previous_verifyingPeers req); [|done]. destruct (ct_previous_verifyingPeers requests); [|done].
  by destruct (agree requests req).
Qed.

End steps.

(** ** Theorems *)

Section theorems.
Context `{EnvLaws}.

(** C30. The two certification requests of a transaction, one from each party,
    never meet: both are stored under the transaction's hash, but looked up under
    the digest of the packed hash, so the second call stores again; nobody is told
    and no block is added. *)
Theorem certify_never_matches now1 clock1 now2 clock2 req1 req2 s :
  ct_hash req2 = ct_hash req1 -> certification_key req1 <> ct_hash req1 ->
  Select (certificationRequests s) (certification_key req1) = None ->
  (forall k v t, exists t', Insert k v t = (true, t')) ->
  exists s1 s2, certify now1 clock1 req1 s = (Ret tt, s1) /\ certify now2 clock2 req2 s1 = (Ret tt, s2) /\
    net s2 = net s /\ blockchain s2 = blockchain s /\
    Select (certificationRequests s2) (ct_hash req1) = Some (pack_as certifiedTx_ad req2).
Proof.
  intros Hh Hk Hn Hi.
  destruct (Hi (ct_hash req1) (pack_as certifiedTx_ad req1) (certificationRequests s)) as [t1 Ht1].
  destruct (Hi (ct_hash req2) (pack_as certifiedTx_ad req2) t1) as [t2 Ht2].
  assert (certification_key req2 = certification_key req1) as Hk2 by (unfold certification_key; by rewrite Hh).
  exists (set_certificationRequests t1 s), (set_certificationRequests t2 (set_certificationRequests t1 s)).
  split_and!; [by apply certify_miss| |done|done|].
  - apply certify_miss; [|done]. cbn. rewrite Hk2. by rewrite (Select_Insert_ne _ _ _ _ _ Ht1).
  - cbn. rewrite <- Hh. by apply (Select_Insert _ _ _ _ Ht2).
Qed.

(** C28. When an earlier request is found, the verdict is positive exactly when
    both requests carry the same request and response digests; both parties are sent
    the earlier request with the verdict, this peer and the time in it; the
    transaction goes on to be verified when the verdict is positive and neither
    request names earlier verifying peers, and otherwise nothing else happens. *)
Theorem certify_verdict now clock req requests rest s :
  Select (certificationRequests s) (certification_key req) = Some (pack_as certifiedTx_ad requests ++ rest) ->
  packable certifiedTx_ad requests -> wf_bytes rest ->
  let ok := bool_decide (ct_request requests = ct_request req /\ ct_response requests = ct_response req) in
  let told := dangling (pack_as certifiedTx_ad (ct_certify ok (user s) now requests)) in
  let s' := certified_state now req requests s in
  net s' = net s ++ [EPut (ct_party req) told; EPut (ct_counterparty requests) told] /\
  blockchain s' = blockchain s /\
  certify now clock req s =
    if ok && bool_decide (ct_previous_verifyingPeers req = [] /\ ct_previous_verifyingPeers requests = [])
    then verified clock (mkVerifiedTx (ct_hash req) (user s) (ct_party req) (ct_counterparty req) now true)
                  (Hash_zero HASH_LEN) s'
    else (Ret tt, s').
Proof.
  intros Hs Hp Hr ok told s'.
  assert (ok = agree requests req) as Hok.
  { unfold ok, agree. destruct (decide (ct_request requests = ct_request req));
      destruct (decide (ct_response requests = ct_response req));
      repeat case_bool_decide; naive_solver. }
  split_and!.
  - unfold s', certified_state, told. rewrite Hok. cbn. by rewrite <- app_assoc.
  - done.
  - rewrite (certify_hit now clock req requests _ s Hs) by (apply decode_pack; [apply certifiedTx_ok|done|done]).
    fold s'. rewrite Hok.
    change (Hash_of_string HASH_LEN (str "verified network root")) with (Hash_zero HASH_LEN).
    destruct (ct_previous_verifyingPeers req), (ct_previous_verifyingPeers requests), (agree requests req);
      cbn [andb]; repeat case_bool_decide; naive_solver.
Qed.

(** [verify] tells the certifying peer whether the transaction's root is a
    key of the blockchain, and changes nothing else. *)
Theorem verify_status req s :
  verify req s =
  (Ret tt,
   add_event (EPut (ct_certifying_peer req)
     (dangling (pack_as verifiedTx_ad
        (mkVerifiedTx (ct_hash req) (user s) (ct_party req) (ct_counterparty req) (ct_timestamp req)
                      (bool_decide (is_Some (Select (blockchain s) (ct_root req)))))))) s).
Proof.
  unfold verify, bind, get, put_dangling, emit, upd. rewrite VerifyProof_Prove.
  destruct (Select (blockchain s) (ct_root req)) as [v|] eqn:E; cbn beta iota zeta;
    case_bool_decide as Hb; try done; destruct Hb; by eexists.
Qed.

(** [verified] adds the block of the transaction and tells both parties.  A
    transaction whose verification failed ends there; a verified one ends the
    program, because the thread that listens to the second party is assigned over
    the joinable thread that listens to the first. *)
Theorem verified_outcome clock tx verifier s t :
  let packed := pack_as verifiedTx_ad tx in
  let b := block_make clock (wrap 32 (trie_size (blockchain s))) (cstr packed) verifier in
  Insert (sha256 (block_text b)) (dangling (pack_as block_ad (calculateHash b).2)) (blockchain s) = (true, t) ->
  exists s', blockchain s' = t /\ is_Some (Select t (sha256 (block_text b))) /\
    (exists l, net s' = net s ++ [EPut (vt_party tx) (dangling packed); EPut (vt_counterparty tx) (dangling packed)] ++ l) /\
    verified clock tx verifier s =
      (if vt_verification_status tx then Terminate "assignment to a joinable thread" else Ret tt, s').
Proof.
  intros packed b Hi.
  assert (blockchain (verified_state clock tx verifier s) = t /\
          net (verified_state clock tx verifier s) =
          net s ++ [EPut (vt_party tx) (dangling packed); EPut (vt_counterparty tx) (dangling packed)]) as [Hb Hn].
  { unfold verified_state. fold packed b. rewrite Hi. cbn. by rewrite <- app_assoc. }
  assert (is_Some (Select t (sha256 (block_text b)))) as Hsel by (rewrite (Select_Insert _ _ _ _ Hi); by eexists).
  rewrite verified_run. destruct (vt_verification_status tx).
  - eexists. split_and!; [| | |reflexivity]; [exact Hb|exact Hsel|].
    eexists. cbn [add_event net]. rewrite Hn, <- !app_assoc. cbn [app]. reflexivity.
  - eexists. split_and!; [| | |reflexivity]; [exact Hb|exact Hsel|]. exists []. by rewrite Hn, app_nil_r.
Qed.

End theorems.

(** ** Witnesses *)

Section witnesses.
Import Demo.

Definition sample_ctx : certifiedTx :=
  mkCertifiedTx [] (str "certify") (str "tx") (replicate 20 0) [] (replicate 20 2) (replicate 20 1)
                (str "request") (str "response") false 0.

Lemma sample_ctx_key : certification_key sample_ctx <> ct_hash sample_ctx.
Proof. apply sha256_ne; [by_compute|by vm_compute|by vm_compute]. Qed.

Lemma certify_never_matches_witness :
  exists s1 s2, certify 5 6 sample_ctx empty_app = (Ret tt, s1) /\ certify 7 8 sample_ctx s1 = (Ret tt, s2) /\
    net s2 = [].
Proof.
  destruct (certify_never_matches 5 6 7 8 sample_ctx sample_ctx empty_app) as (s1 & s2 & H1 & H2 & H3 & _);
    [reflexivity|exact sample_ctx_key|apply lookup_empty|intros k v t; by eexists|].
  exists s1, s2. by split_and!.
Defined.

Definition found_app : App :=
  set_certificationRequests
    (<[certification_key sample_ctx := pack_as certifiedTx_ad sample_ctx]> (∅ : gmap bytes bytes)) empty_app.

Lemma sample_ctx_packable : packable certifiedTx_ad sample_ctx.
Proof.
  assert (forall s, bool_decide (len s < 2 ^ 32 /\ wf_bytes s) = true -> len s < 2 ^ 32 /\ wf_bytes s) as Hb
    by (intros s; apply bool_decide_eq_true_1).
  apply wf_arr. split_and!; [lia|reflexivity|].
  repeat apply Forall_cons_2; [..|constructor]; try (apply Hb; vm_compute; reflexivity); done.
Qed.

Lemma certify_verdict_witness :
  exists s', certify 5 6 sample_ctx found_app = (Terminate "assignment to a joinable thread", s') /\
    (certified_state 5 sample_ctx sample_ctx found_app).(net) <> [].
Proof.
  destruct (certify_verdict 5 6 sample_ctx sample_ctx [] found_app) as (H1 & _ & H2);
    [rewrite app_nil_r; apply lookup_insert_eq|exact sample_ctx_packable|constructor|].
  rewrite H2. rewrite bool_decide_true by (split; reflexivity). cbn [andb].
  rewrite bool_decide_true by (split; reflexivity). rewrite verified_run. cbn [vt_verification_status].
  eexists. split; [reflexivity|]. rewrite H1. discriminate.
Defined.

Lemma verify_status_witness :
  verify sample_ctx empty_app =
  (Ret tt, add_event (EPut (replicate 20 0) (dangling (pack_as verifiedTx_ad
     (mkVerifiedTx (str "tx") (Hash_zero 20) (replicate 20 1) (replicate 20 2) 0 false)))) empty_app).
Proof. exact (verify_status sample_ctx empty_app). Defined.

Lemma verified_outcome_witness :
  exists s', verified 9 (mkVerifiedTx (str "h") [] [1] [2] 0 false) (Hash_zero 20) empty_app = (Ret tt, s') /\
    net s' <> [].
Proof.
  destruct (verified_outcome 9 (mkVerifiedTx (str "h") [] [1] [2] 0 false) (Hash_zero 20) empty_app _ eq_refl)
    as (s' & _ & _ & [l Hl] & H2).
  exists s'. split; [exact H2|]. rewrite Hl. discriminate.
Defined.

End witnesses.
