(* ===== verification/Base64.v ===== *)
(** * Base64: the encoding used for values in JSON

    Models src/opendht-2.1.4/src/base64.cpp.  The C routines work on a caller's
    buffer whose size they are told; the buffer is a list of bytes, a null pointer
    [None].  The decoding table is a local array of which only the entries of the
    alphabet are initialised: reading another entry, or one at a negative index
    (a [char] above 127), is undefined. *)
From S2P Require Import Prelude.

(** [encoding_table]. *)
Definition encoding_table : bytes :=
  str "ABCDEFGHIJKLMNOPQRSTUVWXYZabcdefghijklmnopqrstuvwxyz0123456789+/".

Definition EQUALS : Z := 61.

Definition mod_table : list Z := [0; 2; 1].

(** The four characters of a group of three octets. *)
Definition sextet_char (triple k : Z) : Z :=
  nth (Z.to_nat (Z.land (Z.shiftr triple (k * 6)) 0x3F)) encoding_table 0.

Definition encode_group (a b c : Z) : bytes :=
  let triple := u32 (Z.shiftl a 0x10 + Z.shiftl b 0x08 + c) in
  [sextet_char triple 3; sextet_char triple 2; sextet_char triple 1; sextet_char triple 0].

(** The first loop of [base64_encode]: octets beyond the end count as 0. *)
Fixpoint encode_groups (input : bytes) : bytes :=
  match input with
  | [] => []
  | [a] => encode_group a 0 0
  | [a; b] => encode_group a b 0
  | a :: b :: c :: rest => encode_group a b c ++ encode_groups rest
  end.

Definition zlen (l : bytes) : Z := Z.of_nat (length l).

Definition encoded_length (n : Z) : Z := 4 * ((n + 2) / 3).

(** The second loop: the last characters become ['=']. *)
Definition pad (n outlen : Z) (buf : bytes) : bytes :=
  let k := nth (Z.to_nat (n mod 3)) mod_table 0 in
  write_at (Z.to_nat (outlen - k)) (replicate (Z.to_nat k) EQUALS) buf.

(** [base64_encode] of the C interface: the buffer written, or a null pointer, and
    [*output_length]. *)
Definition base64_encode_buf (input : bytes) (output : option bytes) (out_sz : Z) : option bytes * Z :=
  let output_length := encoded_length (zlen input) in
  match output with
  | Some buf =>
      if out_sz <? output_length then (None, output_length)
      else (Some (pad (zlen input) output_length (write_at 0 (encode_groups input) buf)), output_length)
  | None => (None, output_length)
  end.

(** [std::string::resize], [std::vector::resize]: cut, or fill with zeroes. *)
Definition resize_to (n : Z) (l : bytes) : bytes := resize (Z.to_nat n) 0 l.

(** [base64_encode] on a vector. *)
Definition base64_encode (d : bytes) : bytes :=
  let output_length := encoded_length (zlen d) in
  let out := resize_to output_length [] in
  let '(r, output_length') := base64_encode_buf d (Some out) output_length in
  resize_to output_length' (default out r).

(** The entry of [decoding_table] for a character: what the initialising loop wrote
    last, if it wrote it. *)
Definition decoding_table (c : Z) : option Z :=
  foldl (fun acc k => if nth k encoding_table 0 =? c then Some (Z.of_nat k) else acc) None (seq 0 64).

Definition sextet (c : Z) : outcome Z :=
  if c =? EQUALS then Ret 0
  else if 128 <=? c then Undef "negative index"
  else match decoding_table c with
       | Some k => Ret k
       | None => Undef "uninitialised decoding_table entry"
       end.

(** One guarded store [if (j < *output_length) output[j++] = ...]. *)
Definition emit (outlen : Z) (jo : Z * bytes) (b : Z) : Z * bytes :=
  let '(j, o) := jo in if j <? outlen then (j + 1, o ++ [Z.land b 0xFF]) else (j, o).

(** The loop of [base64_decode]: [j] and the bytes stored so far. *)
Fixpoint decode_groups (outlen : Z) (input : bytes) (jo : Z * bytes) : outcome (Z * bytes) :=
  match input with
  | [] => Ret jo
  | ca :: cb :: cc :: cd :: rest =>
      sa ← sextet ca; sb ← sextet cb; sc ← sextet cc; sd ← sextet cd;
      let triple := u32 (Z.shiftl sa (3 * 6) + Z.shiftl sb (2 * 6) + Z.shiftl sc (1 * 6) + Z.shiftl sd (0 * 6)) in
      decode_groups outlen rest
        (emit outlen (emit outlen (emit outlen jo (Z.shiftr triple (2 * 8)))
                                  (Z.shiftr triple (1 * 8)))
                     (Z.shiftr triple (0 * 8)))
  | _ => Undef "read past the end"
  end.

(** [*output_length]: one octet less for each of the last two characters that is ['=']. *)
Definition decoded_length (input : bytes) : Z :=
  let n := zlen input in
  let l0 := n / 4 * 3 in
  let l1 := if nth (Z.to_nat (n - 1)) input 0 =? EQUALS then l0 - 1 else l0 in
  if nth (Z.to_nat (n - 2)) input 0 =? EQUALS then l1 - 1 else l1.

(** [base64_decode] of the C interface. *)
Definition base64_decode_buf (input : bytes) (output : option bytes) (out_sz : Z) :
    outcome (option bytes * Z) :=
  let n := zlen input in
  if negb (n mod 4 =? 0) || (n <? 2) then Ret (None, out_sz)
  else
    let l2 := decoded_length input in
    match output with
    | Some buf =>
        if out_sz <? l2 then Ret (None, l2)
        else
          jo ← decode_groups l2 input (0, []);
          Ret (Some (write_at 0 jo.2 buf), l2)
    | None => Ret (None, l2)
    end.

(** [base64_decode] on a string. *)
Definition base64_decode (s : bytes) : outcome bytes :=
  let output_length := zlen s / 4 * 3 + 2 in
  let output := resize_to output_length [] in
  r ← base64_decode_buf s (Some output) output_length;
  Ret (resize_to r.2 (default output r.1)).

(** ** The reference encoding *)

(** RFC 4648, section 4: groups of 24 bits, the last one padded with ['=']. *)
Fixpoint rfc_encode (d : bytes) : bytes :=
  match d with
  | [] => []
  | [a] => take 2 (encode_group a 0 0) ++ [EQUALS; EQUALS]
  | [a; b] => take 3 (encode_group a b 0) ++ [EQUALS]
  | a :: b :: c :: rest => encode_group a b c ++ rfc_encode rest
  end.

(** Induction three octets at a time. *)
Lemma triples_ind (P : bytes -> Prop) :
  P [] -> (forall a, P [a]) -> (forall a b, P [a; b]) ->
  (forall a b c rest, P rest -> P (a :: b :: c :: rest)) -> forall d, P d.
Proof.
  intros H0 H1 H2 H3. fix IH 1. intros [|a [|b [|c rest]]]; [done|apply H1|apply H2|apply H3, IH].
Qed.

Lemma encoded_length_step n : 0 <= n -> encoded_length (n + 3) = encoded_length n + 4.
Proof. intros. unfold encoded_length. replace (n + 3 + 2) with ((n + 2) + 1 * 3) by lia.
  rewrite Z.div_add by lia. lia. Qed.

Lemma zlen_nonneg d : 0 <= zlen d.
Proof. unfold zlen. lia. Qed.

Lemma zlen_app a b : zlen (a ++ b) = zlen a + zlen b.
Proof. unfold zlen. rewrite length_app. lia. Qed.

Lemma zlen_cons3 a b c d : zlen (a :: b :: c :: d) = zlen d + 3.
Proof. unfold zlen. simpl. lia. Qed.

Lemma encode_groups_length d : zlen (encode_groups d) = encoded_length (zlen d).
Proof.
  induction d as [| | |a b c rest IH] using triples_ind; try reflexivity.
  cbn [encode_groups]. rewrite zlen_app, zlen_cons3, encoded_length_step, IH by apply zlen_nonneg.
  change (zlen (encode_group a b c)) with 4. lia.
Qed.

Lemma rfc_encode_length d : zlen (rfc_encode d) = encoded_length (zlen d).
Proof.
  induction d as [| | |a b c rest IH] using triples_ind; try reflexivity.
  cbn [rfc_encode]. rewrite zlen_app, zlen_cons3, encoded_length_step, IH by apply zlen_nonneg.
  change (zlen (encode_group a b c)) with 4. lia.
Qed.

(** A write behind a prefix. *)
Lemma write_at_prefix i l a b :
  (length a <= i)%nat -> write_at i l (a ++ b) = a ++ write_at (i - length a) l b.
Proof.
  intros Hi. unfold write_at. rewrite take_app_ge, drop_app_ge by lia.
  rewrite <- app_assoc. do 4 f_equal. lia.
Qed.

Lemma write_at_all l a : length l = length a -> write_at 0 l a = l.
Proof. intros H. unfold write_at. rewrite drop_ge by (simpl; lia). by rewrite app_nil_r. Qed.

Lemma pad_reference d : pad (zlen d) (encoded_length (zlen d)) (encode_groups d) = rfc_encode d.
Proof.
  induction d as [| | |a b c rest IH] using triples_ind; try reflexivity.
  cbn [encode_groups rfc_encode]. rewrite <- IH. unfold pad. rewrite zlen_cons3.
  rewrite encoded_length_step by apply zlen_nonneg.
  replace (zlen rest + 3) with (zlen rest + 1 * 3) by lia. rewrite Z.mod_add by lia.
  set (k := nth _ mod_table 0).
  assert (Hk : 0 <= k <= encoded_length (zlen rest)).
  { unfold k, encoded_length, mod_table. pose proof (zlen_nonneg rest).
    pose proof (Z.mod_pos_bound (zlen rest) 3 ltac:(lia)).
    assert (zlen rest mod 3 = 0 \/ zlen rest mod 3 = 1 \/ zlen rest mod 3 = 2) as Hm by lia.
    assert (zlen rest mod 3 <> 0 -> 1 <= (zlen rest + 2) / 3).
    { intros. apply Z.div_le_lower_bound; [lia|].
      destruct (Z.eq_dec (zlen rest) 0) as [E|]; [rewrite E in *; done|lia]. }
    assert (0 <= (zlen rest + 2) / 3) by (apply Z.div_pos; lia).
    destruct Hm as [E|[E|E]]; rewrite E in *; simpl; lia. }
  rewrite write_at_prefix by (change (length (encode_group a b c)) with 4%nat; lia).
  do 2 f_equal. change (length (encode_group a b c)) with 4%nat. lia.
Qed.

Lemma resize_to_length n l : 0 <= n -> zlen (resize_to n l) = n.
Proof. intros. unfold resize_to, zlen. rewrite length_resize. lia. Qed.

Lemma resize_to_all l : resize_to (zlen l) l = l.
Proof. unfold resize_to, zlen. rewrite Nat2Z.id. apply resize_all. Qed.

Lemma encoded_length_nonneg n : 0 <= n -> 0 <= encoded_length n.
Proof. intros. unfold encoded_length. assert (0 <= (n + 2) / 3) by (apply Z.div_pos; lia). lia. Qed.

Lemma base64_encode_rfc d : base64_encode d = rfc_encode d.
Proof.
  unfold base64_encode, base64_encode_buf. rewrite Z.ltb_irrefl. simpl.
  rewrite write_at_all, pad_reference; [rewrite <- rfc_encode_length; apply resize_to_all|].
  pose proof (encode_groups_length d). unfold zlen in *.
  pose proof (resize_to_length (encoded_length (Z.of_nat (length d))) []
    ltac:(apply encoded_length_nonneg; lia)). unfold zlen in *. lia.
Qed.

(** ** Decoding *)

(** The decoding table inverts the encoding table, and ['='] is not in the alphabet. *)
Lemma sextet_encoding k : 0 <= k < 64 -> sextet (nth (Z.to_nat k) encoding_table 0) = Ret k.
Proof.
  intros Hk.
  assert (H : forallb (fun n => match sextet (nth n encoding_table 0) with
                            | Ret x => x =? Z.of_nat n | _ => false end) (seq 0 64) = true)
    by (vm_compute; reflexivity).
  rewrite forallb_forall in H. specialize (H (Z.to_nat k)).
  rewrite in_seq in H. specialize (H ltac:(lia)). destruct (sextet _); try done. zb. f_equal. lia.
Qed.
Lemma sextet_sextet_char t k : sextet (sextet_char t k) = Ret (Z.land (Z.shiftr t (k * 6)) 0x3F).
Proof.
  apply sextet_encoding. change 0x3F with (Z.ones 6). rewrite Z.land_ones by lia.
  apply Z.mod_pos_bound. lia.
Qed.

(** Four sextets put together again give the 24 bits. *)
Lemma recombine t : 0 <= t < 2 ^ 24 ->
  u32 (Z.shiftl (Z.land (Z.shiftr t (3 * 6)) 0x3F) (3 * 6) + Z.shiftl (Z.land (Z.shiftr t (2 * 6)) 0x3F) (2 * 6)
       + Z.shiftl (Z.land (Z.shiftr t (1 * 6)) 0x3F) (1 * 6) + Z.shiftl (Z.land (Z.shiftr t (0 * 6)) 0x3F) (0 * 6)) = t.
Proof.
  intros Ht. change 0x3F with (Z.ones 6).
  rewrite !Z.land_ones, !Z.shiftl_mul_pow2, !Z.shiftr_div_pow2 by lia.
  unfold wrap. change (2 ^ (3 * 6)) with 262144. change (2 ^ (2 * 6)) with 4096.
  change (2 ^ (1 * 6)) with 64. change (2 ^ (0 * 6)) with 1. change (2 ^ 6) with 64.
  change (2 ^ 32) with 4294967296. change (2 ^ 24) with 16777216 in Ht.
  Z.div_mod_to_equations. lia.
Qed.

Definition triple_of (a b c : Z) : Z := u32 (Z.shiftl a 0x10 + Z.shiftl b 0x08 + c).

Lemma triple_of_eq a b c : is_byte a -> is_byte b -> is_byte c ->
  triple_of a b c = a * 65536 + b * 256 + c /\ 0 <= triple_of a b c < 2 ^ 24.
Proof.
  unfold is_byte. intros. unfold triple_of. rewrite !Z.shiftl_mul_pow2 by lia.
  change (2 ^ 0x10) with 65536. change (2 ^ 0x08) with 256. rewrite wrap_small; lia.
Qed.

Lemma octets_of_triple a b c : is_byte a -> is_byte b -> is_byte c ->
  Z.land (Z.shiftr (triple_of a b c) (2 * 8)) 0xFF = a /\
  Z.land (Z.shiftr (triple_of a b c) (1 * 8)) 0xFF = b /\
  Z.land (Z.shiftr (triple_of a b c) (0 * 8)) 0xFF = c.
Proof.
  intros Ha Hb Hc. destruct (triple_of_eq a b c Ha Hb Hc) as [-> _]. unfold is_byte in *.
  change 0xFF with (Z.ones 8). rewrite !Z.land_ones, !Z.shiftr_div_pow2 by lia.
  change (2 ^ (2 * 8)) with 65536. change (2 ^ (1 * 8)) with 256. change (2 ^ (0 * 8)) with 1.
  change (2 ^ 8) with 256. split_and!; Z.div_mod_to_equations; lia.
Qed.

(** What the loop stores for the 24 bits [t]. *)
Definition emit3 (outlen : Z) (jo : Z * bytes) (t : Z) : Z * bytes :=
  emit outlen (emit outlen (emit outlen jo (Z.shiftr t (2 * 8))) (Z.shiftr t (1 * 8))) (Z.shiftr t (0 * 8)).

Lemma decode_group_step outlen ca cb cc cd sa sb sc sd rest jo t :
  sextet ca = Ret sa -> sextet cb = Ret sb -> sextet cc = Ret sc -> sextet cd = Ret sd ->
  u32 (Z.shiftl sa (3 * 6) + Z.shiftl sb (2 * 6) + Z.shiftl sc (1 * 6) + Z.shiftl sd (0 * 6)) = t ->
  decode_groups outlen (ca :: cb :: cc :: cd :: rest) jo = decode_groups outlen rest (emit3 outlen jo t).
Proof. intros Ha Hb Hc Hd Ht. cbn [decode_groups]. rewrite Ha, Hb, Hc, Hd. cbn [mbind outcome_bind].
  by rewrite Ht. Qed.

Lemma decode_full_group outlen a b c rest jo : is_byte a -> is_byte b -> is_byte c ->
  decode_groups outlen (encode_group a b c ++ rest) jo =
  decode_groups outlen rest (emit3 outlen jo (triple_of a b c)).
Proof.
  intros Ha Hb Hc. apply (decode_group_step outlen _ _ _ _ _ _ _ _ rest jo _
    (sextet_sextet_char _ 3) (sextet_sextet_char _ 2) (sextet_sextet_char _ 1) (sextet_sextet_char _ 0)).
  apply recombine. by apply triple_of_eq.
Qed.

Lemma low_sextets_0 a b :
  is_byte a -> is_byte b ->
  Z.land (Z.shiftr (triple_of a b 0) (0 * 6)) 0x3F = 0 /\
  Z.land (Z.shiftr (triple_of a 0 0) (1 * 6)) 0x3F = 0.
Proof.
  intros Ha Hb. assert (H0 : is_byte 0) by by_compute.
  destruct (triple_of_eq a b 0 Ha Hb H0) as [-> _], (triple_of_eq a 0 0 Ha H0 H0) as [-> _].
  unfold is_byte in *. change 0x3F with (Z.ones 6). rewrite !Z.land_ones, !Z.shiftr_div_pow2 by lia.
  change (2 ^ (1 * 6)) with 64. change (2 ^ (0 * 6)) with 1. change (2 ^ 6) with 64.
  split; Z.div_mod_to_equations; lia.
Qed.

Lemma sextet_equals : sextet EQUALS = Ret 0.
Proof. reflexivity. Qed.

Lemma emit3_octets outlen j o a b c : is_byte a -> is_byte b -> is_byte c ->
  emit3 outlen (j, o) (triple_of a b c) =
  (if outlen <=? j then (j, o)
   else if outlen =? j + 1 then (j + 1, o ++ [a])
   else if outlen =? j + 2 then (j + 2, o ++ [a; b]) else (j + 3, o ++ [a; b; c])).
Proof.
  intros Ha Hb Hc. destruct (octets_of_triple a b c Ha Hb Hc) as (Ea & Eb & Ec).
  unfold emit3, emit. rewrite Ea, Eb, Ec.
  repeat match goal with |- context [?x <? ?y] => destruct (Z.ltb_spec x y) end;
  repeat match goal with
         | |- context [?x <=? ?y] => destruct (Z.leb_spec x y)
         | |- context [?x =? ?y] => destruct (Z.eqb_spec x y) end;
  try lia; rewrite <- ?app_assoc; simpl; f_equal; lia.
Qed.

Lemma decode_rfc_encode d : wf_bytes d -> forall outlen j o, outlen = j + zlen d ->
  decode_groups outlen (rfc_encode d) (j, o) = Ret (outlen, o ++ d).
Proof.
  assert (H0 : is_byte 0) by by_compute.
  induction d as [|a|a b|a b c rest IH] using triples_ind; intros Hwf outlen j o ->.
  - cbn. rewrite app_nil_r. do 2 f_equal. unfold zlen. simpl. lia.
  - inversion_clear Hwf as [|? ? Ha _]. destruct (low_sextets_0 a 0 Ha H0) as [L0 L1].
    cbn [rfc_encode]. unfold encode_group. cbn [take app].
    rewrite (decode_group_step _ _ _ _ _ _ _ _ _ [] _ (triple_of a 0 0)
      (sextet_sextet_char _ 3) (sextet_sextet_char _ 2) sextet_equals sextet_equals).
    + cbn [decode_groups]. rewrite emit3_octets by done. change (zlen [a]) with 1.
      destruct (Z.leb_spec (j + 1) j); [lia|]. by rewrite Z.eqb_refl.
    + pose proof (recombine (triple_of a 0 0)) as Hr. rewrite L0, L1 in Hr.
      apply Hr. by apply triple_of_eq.
  - inversion_clear Hwf as [|? ? Ha Hwf']. inversion_clear Hwf' as [|? ? Hb _].
    destruct (low_sextets_0 a b Ha Hb) as [L0 L1].
    cbn [rfc_encode]. unfold encode_group. cbn [take app].
    rewrite (decode_group_step _ _ _ _ _ _ _ _ _ [] _ (triple_of a b 0)
      (sextet_sextet_char _ 3) (sextet_sextet_char _ 2) (sextet_sextet_char _ 1) sextet_equals).
    + cbn [decode_groups]. rewrite emit3_octets by done. change (zlen [a; b]) with 2.
      destruct (Z.leb_spec (j + 2) j); [lia|]. destruct (Z.eqb_spec (j + 2) (j + 1)); [lia|].
      by rewrite Z.eqb_refl.
    + pose proof (recombine (triple_of a b 0)) as Hr. rewrite L0 in Hr.
      apply Hr. by apply triple_of_eq.
  - inversion_clear Hwf as [|? ? Ha Hwf']. inversion_clear Hwf' as [|? ? Hb Hwf].
    inversion_clear Hwf as [|? ? Hc Hr]. cbn [rfc_encode].
    rewrite decode_full_group, emit3_octets by done. rewrite zlen_cons3.
    pose proof (zlen_nonneg rest).
    destruct (Z.leb_spec (j + (zlen rest + 3)) j); [lia|].
    destruct (Z.eqb_spec (j + (zlen rest + 3)) (j + 1)); [lia|].
    destruct (Z.eqb_spec (j + (zlen rest + 3)) (j + 2)); [lia|].
    rewrite (IH Hr) by lia. by rewrite <- app_assoc.
Qed.

(** The characters of the alphabet are not ['=']. *)
Lemma sextet_char_ne t k : (sextet_char t k =? EQUALS) = false.
Proof.
  unfold sextet_char. set (n := Z.land _ _).
  assert (Hn : 0 <= n < 64).
  { unfold n. change 0x3F with (Z.ones 6). rewrite Z.land_ones by lia. apply Z.mod_pos_bound. lia. }
  assert (H : forallb (fun n => negb (nth n encoding_table 0 =? EQUALS)) (seq 0 64) = true)
    by (vm_compute; reflexivity).
  rewrite forallb_forall in H. specialize (H (Z.to_nat n)). rewrite in_seq in H.
  specialize (H ltac:(lia)). by apply negb_true_iff in H.
Qed.

Lemma rfc_encode_nonempty d : d <> [] -> 4 <= zlen (rfc_encode d).
Proof.
  intros Hd. rewrite rfc_encode_length. unfold encoded_length.
  assert (1 <= zlen d) by (destruct d; [done|]; unfold zlen; simpl; lia).
  assert (1 <= (zlen d + 2) / 3) by (apply Z.div_le_lower_bound; lia). lia.
Qed.

Lemma decoded_length_4 w x y z :
  decoded_length [w; x; y; z] =
  if y =? EQUALS then (if z =? EQUALS then 2 else 3) - 1 else if z =? EQUALS then 2 else 3.
Proof. reflexivity. Qed.

Lemma rfc_decoded_length d : d <> [] -> decoded_length (rfc_encode d) = zlen d.
Proof.
  induction d as [|a|a b|a b c rest IH] using triples_ind; intros Hd; [done| | |].
  - reflexivity.
  - etrans; [apply decoded_length_4|]. by rewrite sextet_char_ne.
  - destruct (decide (rest = [])) as [->|Hr].
    + etrans; [apply decoded_length_4|]. by rewrite !sextet_char_ne.
    + cbn [rfc_encode]. rewrite zlen_cons3, <- (IH Hr). pose proof (rfc_encode_nonempty rest Hr).
      unfold decoded_length. rewrite zlen_app. change (zlen (encode_group a b c)) with 4.
      assert (Hn : forall i, 1 <= i <= 2 ->
        nth (Z.to_nat (4 + zlen (rfc_encode rest) - i)) (encode_group a b c ++ rfc_encode rest) 0 =
        nth (Z.to_nat (zlen (rfc_encode rest) - i)) (rfc_encode rest) 0).
      { intros i Hi. rewrite app_nth2; change (length (encode_group a b c)) with 4%nat; [|lia].
        f_equal. lia. }
      rewrite !Hn by lia. replace (4 + zlen (rfc_encode rest)) with (zlen (rfc_encode rest) + 1 * 4) by lia.
      rewrite Z.div_add by lia. repeat case_match; lia.
Qed.

Lemma write_at_0_take l a : (length l <= length a)%nat -> take (length l) (write_at 0 l a) = l.
Proof. intros. unfold write_at. simpl. by rewrite take_app_length. Qed.

Lemma base64_decode_rfc d : wf_bytes d -> d <> [] -> base64_decode (rfc_encode d) = Ret d.
Proof.
  intros Hwf Hd. unfold base64_decode, base64_decode_buf.
  pose proof (rfc_encode_nonempty d Hd) as H4. pose proof (rfc_encode_length d) as Hlen.
  assert (Hmod : zlen (rfc_encode d) mod 4 = 0).
  { rewrite Hlen. unfold encoded_length. rewrite Z.mul_comm. apply Z.mod_mul. lia. }
  rewrite Hmod. destruct (Z.ltb_spec (zlen (rfc_encode d)) 2); [lia|]. cbn [negb orb Z.eqb].
  rewrite rfc_decoded_length by done.
  assert (Hsz : zlen d <= zlen (rfc_encode d) / 4 * 3 + 2).
  { rewrite Hlen. unfold encoded_length. pose proof (zlen_nonneg d).
    rewrite (Z.mul_comm 4), Z.div_mul by lia. Z.div_mod_to_equations; lia. }
  destruct (Z.ltb_spec (zlen (rfc_encode d) / 4 * 3 + 2) (zlen d)); [lia|].
  rewrite (decode_rfc_encode d Hwf (zlen d) 0 []) by lia. simpl. f_equal.
  unfold resize_to at 1. unfold zlen at 1. rewrite Nat2Z.id, resize_le.
  - apply write_at_0_take. pose proof (resize_to_length (zlen (rfc_encode d) / 4 * 3 + 2) []).
    unfold zlen in *. lia.
  - pose proof (resize_to_length (zlen (rfc_encode d) / 4 * 3 + 2) []).
    rewrite length_write_at; unfold zlen in *; simpl; lia.
Qed.

(** [base64_encode] is the encoding of RFC 4648 for every octet string, and
    decoding what was encoded returns the octets, for every non-empty string: the
    uninitialised entries of the decoding table are never read and the buffers are
    long enough. *)
Theorem base64_roundtrip d :
  wf_bytes d -> d <> [] ->
  base64_encode d = rfc_encode d /\ base64_decode (base64_encode d) = Ret d.
Proof. intros. rewrite base64_encode_rfc. auto using base64_decode_rfc. Qed.

Lemma base64_roundtrip_witness :
  base64_encode (str "light w") = str "bGlnaHQgdw==" /\
  base64_decode (str "bGlnaHQgdw==") = Ret (str "light w").
Proof.
  split; [reflexivity|].
  exact (proj2 (base64_roundtrip (str "light w") (str_wf _) ltac:(discriminate))).
Defined.

(** Where decoding gives up ([base64_decode] of the C interface returns a null
    pointer and leaves the length alone), the wrapper returns its scratch buffer:
    a text whose length is not a multiple of 4, or an empty one, decodes to
    [len / 4 * 3 + 2] zero octets instead of nothing.  In particular the empty
    string does not survive the round trip. *)
Theorem base64_decode_malformed s :
  zlen s mod 4 <> 0 \/ s = [] ->
  base64_decode s = Ret (replicate (Z.to_nat (zlen s / 4 * 3 + 2)) 0) /\
  base64_decode (base64_encode []) = Ret [0; 0].
Proof.
  intros Hs. split; [|reflexivity]. unfold base64_decode, base64_decode_buf.
  assert (Hc : negb (zlen s mod 4 =? 0) || (zlen s <? 2) = true).
  { destruct Hs as [H| ->]; [|done]. destruct (Z.eqb_spec (zlen s mod 4) 0); done. }
  rewrite Hc. simpl. f_equal. unfold resize_to. rewrite resize_nil.
  pose proof (length_replicate (Z.to_nat (zlen s / 4 * 3 + 2)) 0) as Hr. rewrite <- Hr at 1.
  apply resize_all.
Qed.

Lemma base64_decode_malformed_witness : base64_decode (str "bGlna") = Ret [0; 0; 0; 0; 0].
Proof.
  exact (proj1 (base64_decode_malformed (str "bGlna") ltac:(left; discriminate))).
Defined.
