(* ===== verification/Value.v ===== *)
(** * Value: the data stored in the DHT, its wire format, filters and queries

    Models src/opendht-2.1.4/include/opendht/value.h and src/value.cpp, with the
    helpers [findMapValue] and [unpackBlob] of src/utils.cpp, the serialisation of
    hashes in infohash.h and the part of the class [PublicKey] of src/crypto.cpp
    that values use.  The packer is a byte stream: a packing function returns the
    bytes it appends.  The calls into GnuTLS are a class of operations, [Gnutls],
    and what the library documents about them is [GnutlsLaws].  The members that
    cache the results of checks are in SecureDht.v. *)
From S2P Require Import Prelude InfoHash StdMap Node MsgPack.

Definition type_error {A} : outcome A := Throw "msgpack::type_error".

(** ** Reading MessagePack objects *)

(** [o.as<T>()] for an unsigned integer type of [w] bits. *)
Definition as_uint (w : Z) (o : obj) : outcome Z :=
  match o with
  | OPos n => if 2 ^ w - 1 <? n then type_error else Ret n
  | _ => type_error
  end.

(** [o.as<int>()]. *)
Definition as_int (o : obj) : outcome Z :=
  match o with
  | OPos n => if 2 ^ 31 - 1 <? n then type_error else Ret n
  | ONeg n => if n <? - 2 ^ 31 then type_error else Ret n
  | _ => type_error
  end.

(** [o.as<std::string>()] and [o.as<std::vector<char>>()]. *)
Definition as_string (o : obj) : outcome bytes :=
  match o with OBin s | OStr s => Ret s | _ => type_error end.

(** The elements of an array, each converted with [f]. *)
Fixpoint as_list {A} (f : obj -> outcome A) (l : list obj) : outcome (list A) :=
  match l with
  | [] => Ret []
  | o :: l' => a ← f o; r ← as_list f l'; Ret (a :: r)
  end.

(** [o.as<std::vector<T>>()]. *)
Definition as_vector {A} (f : obj -> outcome A) (o : obj) : outcome (list A) :=
  match o with OArr l => as_list f l | _ => type_error end.

(** [unpackBlob]. *)
Definition unpackBlob (o : obj) : outcome bytes :=
  match o with
  | OBin s | OStr s => Ret s
  | OArr l => as_list (as_uint 8) l
  | _ => type_error
  end.

(** [std::strncmp(a, b, n) == 0]: the comparison ends at a null character. *)
Fixpoint strncmp_eq (n : nat) (a b : bytes) : bool :=
  match n, a, b with
  | O, _, _ => true
  | S n', x :: a', y :: b' => (x =? y) && ((x =? 0) || strncmp_eq n' a' b')
  | S _, _, _ => false
  end.

Definition key_matches (key : bytes) (k : obj) : bool :=
  match k with
  | OStr s => (len key =? len s) && strncmp_eq (length s) s key
  | _ => false
  end.

Fixpoint find_pair (key : bytes) (l : list (obj * obj)) : option obj :=
  match l with
  | [] => None
  | (k, v) :: l' => if key_matches key k then Some v else find_pair key l'
  end.

(** [findMapValue]. *)
Definition findMapValue (map : obj) (key : bytes) : outcome (option obj) :=
  match map with
  | OMap l => Ret (find_pair key l)
  | _ => type_error
  end.

(** A key that must be there. *)
Definition required (m : obj) (key : bytes) : outcome obj :=
  r ← findMapValue m key;
  match r with Some o => Ret o | None => type_error end.

(** A pair of a map of the wire format. *)
Definition kv (k : bytes) (o : obj) : obj * obj := (OStr k, o).

(** Look the keys up: they are literals. *)
Ltac lookup_keys :=
  repeat (unfold required; cbn [findMapValue find_pair kv mbind outcome_bind app];
    match goal with |- context [key_matches ?k (OStr ?k')] =>
      let b := eval vm_compute in (key_matches k (OStr k')) in
      change (key_matches k (OStr k')) with b; cbv iota
    end).

(** [Hash::msgpack_pack] and [Hash::msgpack_unpack]. *)
Definition hash_pack (h : Hash) : bytes := pack_binary h.

Definition hash_unpack (o : obj) : outcome Hash :=
  match o with
  | OBin s => if negb (len s =? Z.of_nat HASH_LEN) then type_error else Ret s
  | _ => type_error
  end.

(** ** Public keys *)

(** The GnuTLS calls: a key that was imported, its export in DER form into the
    buffer of 2048 bytes, import of PEM and DER, the identifier, and the operations of
    a private key. *)
Class Gnutls := {
  gkey : Type;
  gnutls_export : gkey -> option bytes;
  gnutls_import_pem : bytes -> option gkey;
  gnutls_import_der : bytes -> option gkey;
  gnutls_key_id : gkey -> Hash;
  gnutls_verify : gkey -> bytes -> bytes -> bool;
  skey : Type;
  skey_public : skey -> gkey;
  gnutls_sign : skey -> bytes -> option bytes;
}.

(** Documented behaviour: import inverts export, a DER key is not a PEM file, a
    signature verifies under the public key, and is not empty. *)
Class GnutlsLaws (G : Gnutls) : Prop := {
  export_import g b : gnutls_export g = Some b ->
    gnutls_import_pem b = None /\ gnutls_import_der b = Some g;
  export_size g b : gnutls_export g = Some b -> len b <= 2048 /\ wf_bytes b;
  sign_verify k d s : gnutls_sign k d = Some s -> gnutls_verify (skey_public k) d s = true;
  sign_size k d s : gnutls_sign k d = Some s -> s <> [] /\ len s < 2 ^ 32 /\ wf_bytes s;
}.

Section Values.
Context {G : Gnutls}.

(** [struct PublicKey]: a handle, null after a move. *)
Definition PublicKey : Type := option gkey.

(** [PublicKey::pack]. *)
Definition pk_pack (k : PublicKey) : outcome bytes :=
  match k with
  | None => Throw "Could not export public key: null key"
  | Some g => match gnutls_export g with
              | Some b => Ret b
              | None => Throw "Could not export public key"
              end
  end.

(** [PublicKey::unpack]: PEM first, then DER. *)
Definition pk_unpack (b : bytes) : outcome PublicKey :=
  match gnutls_import_pem b with
  | Some g => Ret (Some g)
  | None => match gnutls_import_der b with
            | Some g => Ret (Some g)
            | None => Throw "Could not read public key"
            end
  end.

(** [PublicKey::msgpack_pack] and [PublicKey::msgpack_unpack]. *)
Definition pk_msgpack_pack (k : PublicKey) : outcome bytes := b ← pk_pack k; Ret (pack_binary b).

Definition pk_msgpack_unpack (o : obj) : outcome PublicKey :=
  match o with
  | OBin s => pk_unpack s
  | _ => dat ← unpackBlob o; pk_unpack dat
  end.

(** [PublicKey::getId] and [PublicKey::checkSignature]. *)
Definition pk_getId (k : PublicKey) : Hash :=
  match k with Some g => gnutls_key_id g | None => Hash_zero HASH_LEN end.

Definition pk_checkSignature (k : PublicKey) (data signature : bytes) : bool :=
  match k with Some g => gnutls_verify g data signature | None => false end.

(** ** Values *)

Record Value := mkValue {
  v_id : Z;
  v_owner : option PublicKey;
  v_recipient : Hash;
  v_type : Z;
  v_data : bytes;
  v_user_type : bytes;
  v_seq : Z;
  v_signature : bytes;
  v_cypher : bytes;
  v_priority : Z;
}.

(** The default constructor, and [Value(id)]. *)
Definition Value_make (id : Z) : Value :=
  mkValue id None (Hash_zero HASH_LEN) 0 [] [] 0 [] [] 0.

Definition VALUE_KEY_ID := str "id".
Definition VALUE_KEY_DAT := str "dat".
Definition VALUE_KEY_PRIO := str "p".
Definition VALUE_KEY_SIGNATURE := str "sig".
Definition VALUE_KEY_SEQ := str "seq".
Definition VALUE_KEY_DATA := str "data".
Definition VALUE_KEY_OWNER := str "owner".
Definition VALUE_KEY_TYPE := str "type".
Definition VALUE_KEY_TO := str "to".
Definition VALUE_KEY_BODY := str "body".
Definition VALUE_KEY_USERTYPE := str "utype".

Definition empty_blob (b : bytes) : bool := match b with [] => true | _ => false end.

(** [isEncrypted], [isSigned], [owner && *owner]. *)
Definition isEncrypted (v : Value) : bool := negb (empty_blob (v_cypher v)).
Definition isSigned (v : Value) : bool :=
  match v_owner v with Some _ => negb (empty_blob (v_signature v)) | None => false end.
Definition has_owner (v : Value) : option PublicKey :=
  match v_owner v with Some (Some g) => Some (Some g) | _ => None end.

(** [Value::size]. *)
Definition v_size (v : Value) : Z :=
  len (v_cypher v) + len (v_data v) + len (v_signature v) + len (v_user_type v).

(** [DEFAULT_STORE_POLICY]. *)
Definition MAX_VALUE_SIZE : Z := 1024 * 64.
Definition DEFAULT_STORE_POLICY (v : Value) : bool := v_size v <=? MAX_VALUE_SIZE.

(** [msgpack_pack_to_sign]. *)
Definition msgpack_pack_to_sign (v : Value) : outcome bytes :=
  let owned := match has_owner v with Some _ => if op_bool HASH_LEN (v_recipient v) then 5 else 4 | None => 2 end in
  let hd := pack_map ((if empty_blob (v_user_type v) then 0 else 1) + owned) in
  own ← match has_owner v with
        | Some k =>
            kb ← pk_msgpack_pack k;
            Ret (pack_string VALUE_KEY_SEQ ++ pack_imp_uint16 (v_seq v) ++
                 pack_string VALUE_KEY_OWNER ++ kb ++
                 if op_bool HASH_LEN (v_recipient v)
                 then pack_string VALUE_KEY_TO ++ hash_pack (v_recipient v) else [])
        | None => Ret []
        end;
  Ret (hd ++ own ++
       pack_string VALUE_KEY_TYPE ++ pack_imp_uint16 (v_type v) ++
       pack_string VALUE_KEY_DATA ++ pack_binary (v_data v) ++
       if empty_blob (v_user_type v) then []
       else pack_string VALUE_KEY_USERTYPE ++ pack_string (v_user_type v)).

(** [msgpack_pack_to_encrypt]. *)
Definition msgpack_pack_to_encrypt (v : Value) : outcome bytes :=
  if isEncrypted v then Ret (pack_binary (v_cypher v))
  else
    body ← msgpack_pack_to_sign v;
    Ret (pack_map (if isSigned v then 2 else 1) ++ pack_string VALUE_KEY_BODY ++ body ++
         if isSigned v then pack_string VALUE_KEY_SIGNATURE ++ pack_binary (v_signature v) else []).

(** [msgpack_pack]. *)
Definition msgpack_pack (v : Value) : outcome bytes :=
  dat ← msgpack_pack_to_encrypt v;
  Ret (pack_map (2 + if v_priority v =? 0 then 0 else 1) ++
       pack_string VALUE_KEY_ID ++ pack_imp_uint64 (v_id v) ++
       pack_string VALUE_KEY_DAT ++ dat ++
       if v_priority v =? 0 then [] else pack_string VALUE_KEY_PRIO ++ pack_imp_uint32 (v_priority v)).

(** [getToSign]. *)
Definition getToSign (v : Value) : outcome bytes := msgpack_pack_to_sign v.

(** [sign]. *)
Definition v_sign (key : skey) (v : Value) : outcome Value :=
  if isEncrypted v then Throw "Can't sign encrypted data."
  else
    let v1 := mkValue (v_id v) (Some (Some (skey_public key))) (v_recipient v) (v_type v) (v_data v)
                      (v_user_type v) (v_seq v) (v_signature v) (v_cypher v) (v_priority v) in
    d ← getToSign v1;
    match gnutls_sign key d with
    | None => Throw "Can't sign data !"
    | Some s => Ret (mkValue (v_id v1) (v_owner v1) (v_recipient v1) (v_type v1) (v_data v1)
                             (v_user_type v1) (v_seq v1) s (v_cypher v1) (v_priority v1))
    end.

(** [checkSignature]. *)
Definition v_checkSignature (v : Value) : outcome bool :=
  match v_owner v with
  | Some k => if isSigned v then d ← getToSign v; Ret (pk_checkSignature k d (v_signature v)) else Ret false
  | None => Ret false
  end.

(** *** Unpacking *)

(** The owner's part of [msgpack_unpack_body]: sequence number, key, recipient and
    signature. *)
Definition unpack_owner (o body rowner : obj) (v : Value) : outcome Value :=
  rseq ← required body VALUE_KEY_SEQ;
  seq ← as_uint 16 rseq;
  owner ← pk_msgpack_unpack rowner;
  rto ← findMapValue body VALUE_KEY_TO;
  to ← match rto with Some r => hash_unpack r | None => Ret (v_recipient v) end;
  rsig ← required o VALUE_KEY_SIGNATURE;
  sig ← unpackBlob rsig;
  Ret (mkValue (v_id v) (Some owner) to (v_type v) (v_data v) (v_user_type v) seq sig (v_cypher v) (v_priority v)).

(** [msgpack_unpack_body], into an existing value: [user_type], [seq] and the
    priority are not cleared. *)
Definition msgpack_unpack_body (o : obj) (v : Value) : outcome Value :=
  match o with
  | OBin s => Ret (mkValue (v_id v) None (Hash_zero HASH_LEN) 0 [] (v_user_type v) (v_seq v) [] s (v_priority v))
  | OMap _ =>
      rbody ← required o VALUE_KEY_BODY;
      rdata ← required rbody VALUE_KEY_DATA;
      data ← unpackBlob rdata;
      rtype ← required rbody VALUE_KEY_TYPE;
      type ← as_uint 16 rtype;
      rutype ← findMapValue rbody VALUE_KEY_USERTYPE;
      utype ← match rutype with Some r => as_string r | None => Ret (v_user_type v) end;
      let v1 := mkValue (v_id v) None (Hash_zero HASH_LEN) type data utype (v_seq v) [] [] (v_priority v) in
      rowner ← findMapValue rbody VALUE_KEY_OWNER;
      match rowner with
      | Some r => unpack_owner o rbody r v1
      | None => Ret v1
      end
  | _ => type_error
  end.

Definition set_id (id : Z) (v : Value) : Value :=
  mkValue id (v_owner v) (v_recipient v) (v_type v) (v_data v) (v_user_type v) (v_seq v)
          (v_signature v) (v_cypher v) (v_priority v).
Definition set_priority (p : Z) (v : Value) : Value :=
  mkValue (v_id v) (v_owner v) (v_recipient v) (v_type v) (v_data v) (v_user_type v) (v_seq v)
          (v_signature v) (v_cypher v) p.

(** [msgpack_unpack]. *)
Definition msgpack_unpack (o : obj) (v : Value) : outcome Value :=
  match o with
  | OMap l =>
      if Z.of_nat (length l) <? 2 then type_error
      else
        rid ← required o VALUE_KEY_ID;
        id ← as_uint 64 rid;
        rdat ← required o VALUE_KEY_DAT;
        v1 ← msgpack_unpack_body rdat (set_id id v);
        rprio ← findMapValue o VALUE_KEY_PRIO;
        match rprio with
        | Some r => p ← as_uint 32 r; Ret (set_priority p v1)
        | None => Ret v1
        end
  | _ => type_error
  end.

(** [unpackMsg<Value>] of a buffer, and the constructor [Value(const
    msgpack::object&)]. *)
Definition value_of_bytes (b : bytes) : outcome Value :=
  r ← unpack b; msgpack_unpack r.1 (Value_make 0).

(** ** The wire format

    The bytes of a value are those of a MessagePack object. *)

(** The signed part, given the exported key of the owner. *)
Definition sign_obj (owner : option bytes) (v : Value) : obj :=
  OMap (match owner with
        | Some b => [kv VALUE_KEY_SEQ (OPos (v_seq v)); kv VALUE_KEY_OWNER (OBin b)] ++
                    if op_bool HASH_LEN (v_recipient v) then [kv VALUE_KEY_TO (OBin (v_recipient v))] else []
        | None => []
        end ++ [kv VALUE_KEY_TYPE (OPos (v_type v)); kv VALUE_KEY_DATA (OBin (v_data v))] ++
        if empty_blob (v_user_type v) then [] else [kv VALUE_KEY_USERTYPE (OStr (v_user_type v))]).

Definition body_obj (owner : option bytes) (v : Value) : obj :=
  if isEncrypted v then OBin (v_cypher v)
  else OMap (kv VALUE_KEY_BODY (sign_obj owner v) ::
             if isSigned v then [kv VALUE_KEY_SIGNATURE (OBin (v_signature v))] else []).

Definition value_obj (owner : option bytes) (v : Value) : obj :=
  OMap ([kv VALUE_KEY_ID (OPos (v_id v)); kv VALUE_KEY_DAT (body_obj owner v)] ++
        if v_priority v =? 0 then [] else [kv VALUE_KEY_PRIO (OPos (v_priority v))]).

(** A value within the widths of its members, whose owner's key can be exported. *)
Definition wf_value (v : Value) : Prop :=
  0 <= v_id v < 2 ^ 64 /\ 0 <= v_type v < 2 ^ 16 /\ 0 <= v_seq v < 2 ^ 16 /\
  0 <= v_priority v < 2 ^ 32 /\ wf_hash HASH_LEN (v_recipient v) /\
  (len (v_data v) < 2 ^ 32 /\ wf_bytes (v_data v)) /\
  (len (v_user_type v) < 2 ^ 32 /\ wf_bytes (v_user_type v)) /\
  (len (v_signature v) < 2 ^ 32 /\ wf_bytes (v_signature v)) /\
  (len (v_cypher v) < 2 ^ 32 /\ wf_bytes (v_cypher v)).

(** The exported key of the owner, if the value has one. *)
Definition exported (v : Value) (owner : option bytes) : Prop :=
  match v_owner v with
  | Some (Some g) => exists b, gnutls_export g = Some b /\ owner = Some b
  | _ => owner = None
  end.

Lemma pack_uint16 d : 0 <= d < 2 ^ 16 -> pack_imp_uint16 d = pack (OPos d).
Proof.
  intros. cbn [pack]. unfold pack_imp_uint16, pack_imp_uint64.
  repeat match goal with |- context [?x <? ?y] => destruct (Z.ltb_spec x y) end; done || lia.
Qed.

Lemma pack_uint32 d : 0 <= d < 2 ^ 32 -> pack_imp_uint32 d = pack (OPos d).
Proof.
  intros. cbn [pack]. unfold pack_imp_uint32, pack_imp_uint64.
  repeat match goal with |- context [?x <? ?y] => destruct (Z.ltb_spec x y) end; done || lia.
Qed.

Lemma pack_OMap l : pack (OMap l) = pack_map (Z.of_nat (length l)) ++ concat (map pack_kv l).
Proof. reflexivity. Qed.
Lemma pack_kv_eq k o : pack_kv (kv k o) = pack_string k ++ pack o.
Proof. reflexivity. Qed.
Lemma pack_OBin b : pack (OBin b) = pack_binary b.
Proof. reflexivity. Qed.
Lemma pack_OStr b : pack (OStr b) = pack_string b.
Proof. reflexivity. Qed.
Lemma pack_OPos n : pack (OPos n) = pack_imp_uint64 n.
Proof. reflexivity. Qed.

(** The bytes of an object built from pairs, as a sequence of packing calls. *)
Ltac flatten :=
  repeat (rewrite pack_OMap; cbn [app map concat]; rewrite ?pack_kv_eq, ?pack_OBin, ?pack_OStr);
  rewrite ?app_nil_r; repeat (rewrite <- app_assoc); rewrite ?app_nil_r; reflexivity.

Lemma to_sign_bytes v owner :
  wf_value v -> exported v owner -> msgpack_pack_to_sign v = Ret (pack (sign_obj owner v)).
Proof.
  intros (_ & Ht & Hs & _) Ho. unfold msgpack_pack_to_sign, has_owner, exported, sign_obj in *.
  rewrite !pack_uint16 by done.
  destruct (v_owner v) as [[g|]|]; [destruct Ho as (b & Hb & ->)|subst owner..];
    unfold pk_msgpack_pack, pk_pack; rewrite ?Hb; cbn [mbind outcome_bind];
    destruct (empty_blob (v_user_type v)); try destruct (op_bool HASH_LEN (v_recipient v));
    f_equal; flatten.
Qed.

(** The bytes that are encrypted. *)
Lemma to_encrypt_bytes v owner :
  wf_value v -> exported v owner -> msgpack_pack_to_encrypt v = Ret (pack (body_obj owner v)).
Proof.
  intros Hv Ho. unfold msgpack_pack_to_encrypt, body_obj. rewrite (to_sign_bytes v owner Hv Ho). set (so := sign_obj owner v).
  destruct (isEncrypted v); [done|]. destruct (isSigned v); cbn [mbind outcome_bind]; f_equal; flatten.
Qed.

Lemma value_bytes v owner :
  wf_value v -> exported v owner -> msgpack_pack v = Ret (pack (value_obj owner v)).
Proof.
  intros Hv Ho. pose proof (to_encrypt_bytes v owner Hv Ho) as Hs.
  destruct Hv as (_ & _ & _ & Hp & _).
  unfold msgpack_pack, value_obj. rewrite Hs, pack_uint32 by done. set (bo := body_obj owner v).
  destruct (v_priority v =? 0); cbn [mbind outcome_bind]; f_equal; flatten.
Qed.

(** Everything in it is within the limits of the format. *)
Lemma wf_kv d (k : string) o :
  len (str k) < 2 ^ 32 -> wf_obj d o ->
  (fun e => wf_obj d e.1 /\ wf_obj d e.2) (kv (str k) o).
Proof. intros. simpl. auto using str_wf. Qed.

Lemma wf_uint d w n : 0 <= n < 2 ^ w -> 0 <= w <= 64 -> wf_obj d (OPos n).
Proof. intros Hn Hw. cbn. pose proof (Z.pow_le_mono_r 2 w 64 ltac:(lia) ltac:(lia)). lia. Qed.

Ltac wf_pairs :=
  repeat case_match; cbn [app];
  repeat (apply Forall_cons; split; [apply wf_kv; [reflexivity|]|]); try apply Forall_nil_2.

Lemma sign_obj_wf d v owner :
  wf_value v -> (forall b, owner = Some b -> len b < 2 ^ 32 /\ wf_bytes b) -> 1 <= d ->
  wf_obj d (sign_obj owner v).
Proof.
  intros (Hi & Ht & Hs & Hp & [Hr1 Hr2] & Hd & Hu & Hsig & Hc) Ho Hd1. unfold sign_obj.
  apply wf_map. split_and!; [lia| |].
  - rewrite !length_app. destruct owner; simpl; repeat case_match; simpl; lia.
  - assert (Hrec : wf_obj (d - 1) (OBin (v_recipient v))).
    { split; [|done]. unfold len. rewrite Hr1. reflexivity. }
    wf_pairs; try (by apply (wf_uint _ 16); [|lia]); try done; by apply Ho.
Qed.

Lemma body_obj_wf d v owner :
  wf_value v -> (forall b, owner = Some b -> len b < 2 ^ 32 /\ wf_bytes b) -> 2 <= d ->
  wf_obj d (body_obj owner v).
Proof.
  intros Hv Ho Hd2. pose proof (fun d => sign_obj_wf d v owner Hv Ho) as Hso.
  destruct Hv as (Hi & Ht & Hs & Hp & [Hr1 Hr2] & Hd & Hu & Hsig & Hc).
  unfold body_obj. destruct (isEncrypted v); [done|]. apply wf_map. split_and!; [lia| |].
  - case_match; simpl; lia.
  - wf_pairs; try (apply Hso; lia); done.
Qed.

Lemma value_obj_wf d v owner :
  wf_value v -> (forall b, owner = Some b -> len b < 2 ^ 32 /\ wf_bytes b) -> 3 <= d ->
  wf_obj d (value_obj owner v).
Proof.
  intros Hv Ho Hd3. pose proof (body_obj_wf (d - 1) v owner Hv Ho ltac:(lia)) as Hb.
  destruct Hv as (Hi & Ht & Hs & Hp & [Hr1 Hr2] & Hd & Hu & Hsig & Hc).
  unfold value_obj. apply wf_map. split_and!; [lia| |].
  - case_match; simpl; lia.
  - wf_pairs; try done; by apply (wf_uint _ 32); [|lia].
Qed.

(** What arrives when a value is sent: of an encrypted value the cypher text, of
    one without owner no sequence number, recipient or signature; a value with an
    owner but no signature is refused. *)
Definition transmitted (v : Value) : outcome Value :=
  if isEncrypted v then
    Ret (mkValue (v_id v) None (Hash_zero HASH_LEN) 0 [] [] 0 [] (v_cypher v) (v_priority v))
  else
    match has_owner v with
    | None => Ret (mkValue (v_id v) None (Hash_zero HASH_LEN) (v_type v) (v_data v) (v_user_type v) 0 [] []
                           (v_priority v))
    | Some k =>
        if isSigned v then
          Ret (mkValue (v_id v) (Some k) (v_recipient v) (v_type v) (v_data v) (v_user_type v) (v_seq v)
                       (v_signature v) [] (v_priority v))
        else type_error
    end.

Lemma as_uint_ok w n : 0 <= n < 2 ^ w -> as_uint w (OPos n) = Ret n.
Proof. intros. unfold as_uint. by destruct (Z.ltb_spec (2 ^ w - 1) n); [lia|]. Qed.

Lemma hash_unpack_ok h : wf_hash HASH_LEN h -> hash_unpack (OBin h) = Ret h.
Proof. intros [H _]. unfold hash_unpack, len. by rewrite H, Z.eqb_refl. Qed.

Context `{!GnutlsLaws G}.

Lemma pk_unpack_export g b : gnutls_export g = Some b -> pk_msgpack_unpack (OBin b) = Ret (Some g).
Proof. intros H. unfold pk_msgpack_unpack, pk_unpack. by destruct (export_import g b H) as [-> ->]. Qed.

Lemma unpack_sign_obj v0 v owner l :
  wf_value v -> exported v owner -> v_user_type v0 = [] -> v_seq v0 = 0 -> isEncrypted v = false ->
  l = (if isSigned v then [kv VALUE_KEY_SIGNATURE (OBin (v_signature v))] else []) ->
  msgpack_unpack_body (OMap (kv VALUE_KEY_BODY (sign_obj owner v) :: l)) v0 =
  match has_owner v with
  | None => Ret (mkValue (v_id v0) None (Hash_zero HASH_LEN) (v_type v) (v_data v) (v_user_type v) 0 [] []
                         (v_priority v0))
  | Some k =>
      if isSigned v then
        Ret (mkValue (v_id v0) (Some k) (v_recipient v) (v_type v) (v_data v) (v_user_type v) (v_seq v)
                     (v_signature v) [] (v_priority v0))
      else type_error
  end.
Proof.
  intros (Hi & Ht & Hs & Hp & Hr & _) Ho Hut Hsq He ->. unfold msgpack_unpack_body, sign_obj.
  assert (Hrz : op_bool HASH_LEN (v_recipient v) = false -> v_recipient v = Hash_zero HASH_LEN)
    by (apply op_bool_false_iff; done).
  assert (Hu : empty_blob (v_user_type v) = true -> v_user_type v = []) by (by destruct (v_user_type v)).
  unfold exported, has_owner, isSigned in *.
  destruct (v_owner v) as [[g|]|]; [destruct Ho as (b & Hb & ->)|subst owner..];
    destruct (empty_blob (v_user_type v)), (op_bool HASH_LEN (v_recipient v)), (negb (empty_blob (v_signature v)));
    unfold unpack_owner; lookup_keys; unfold unpackBlob, as_string; rewrite ?as_uint_ok by done;
    cbn [mbind outcome_bind]; rewrite ?Hut, ?Hsq, ?Hu, ?Hrz by done; try done;
    rewrite (pk_unpack_export g b Hb), ?hash_unpack_ok by done; reflexivity.
Qed.

Lemma unpack_value_obj v owner :
  wf_value v -> exported v owner -> msgpack_unpack (value_obj owner v) (Value_make 0) = transmitted v.
Proof.
  intros Hv Ho. pose proof Hv as (Hi & _ & _ & Hp & _). unfold value_obj, msgpack_unpack, transmitted.
  assert (Hbody : msgpack_unpack_body (body_obj owner v) (set_id (v_id v) (Value_make 0)) =
    match transmitted v with Ret x => Ret (set_priority 0 x) | r => r end).
  { unfold body_obj, transmitted. destruct (isEncrypted v) eqn:E; [done|].
    rewrite (unpack_sign_obj _ v owner) by done. repeat case_match; done. }
  unfold transmitted in Hbody.
  assert (Hfin : forall (f : Value -> outcome Value),
    (forall x, v_priority x = v_priority v -> f (set_priority 0 x) = Ret x) ->
    msgpack_unpack_body (body_obj owner v) (set_id (v_id v) (Value_make 0)) ≫= f = transmitted v).
  { intros f Hf. rewrite Hbody. unfold transmitted. repeat case_match; simplify_eq; try done; by apply Hf. }
  fold (transmitted v). destruct (Z.eqb_spec (v_priority v) 0) as [Hz|Hz]; cbn [app length];
    [change (Z.of_nat 2 <? 2) with false | change (Z.of_nat 3 <? 2) with false]; cbv iota;
    lookup_keys; cbn [mbind outcome_bind]; rewrite !as_uint_ok by done; apply Hfin;
    intros x Hx; unfold set_priority; destruct x; simpl in *; congruence.
Qed.

(** The owner's key, when there is one, can be exported. *)
Definition exportable (v : Value) : Prop :=
  match v_owner v with Some (Some g) => is_Some (gnutls_export g) | _ => True end.

Lemma exportable_exported v : exportable v -> exists owner, exported v owner /\
  forall b, owner = Some b -> len b < 2 ^ 32 /\ wf_bytes b.
Proof.
  unfold exportable, exported. destruct (v_owner v) as [[g|]|]; [|by exists None..].
  intros [b Hb]. exists (Some b). split; [by exists b|]. intros ? [= <-].
  destruct (export_size g b Hb). split; [lia|done].
Qed.

Lemma value_transmission v rest :
  wf_value v -> exportable v -> wf_bytes rest ->
  exists b, msgpack_pack v = Ret b /\ wf_bytes b /\ value_of_bytes (b ++ rest) = transmitted v.
Proof.
  intros Hv He Hr. destruct (exportable_exported v He) as (owner & Ho & Hob).
  exists (pack (value_obj owner v)). pose proof (value_obj_wf 0xffffffff v owner Hv Hob ltac:(lia)) as Hwf.
  split; [by apply value_bytes|]. split; [by eapply pack_wf|].
  unfold value_of_bytes. rewrite unpack_packed by done. cbn. by apply unpack_value_obj.
Qed.

(** Round trip of a value: packing a value succeeds, and unpacking the bytes
    (with anything after them) gives exactly what the format transmits: an
    encrypted value keeps its cypher text, id and priority, a signed one every
    member, one without owner its data, type, user type, id and priority; a value
    that has an owner but was not signed is packed, and refused by the reader. *)
Theorem value_roundtrip v rest :
  wf_value v -> exportable v -> wf_bytes rest ->
  exists b, msgpack_pack v = Ret b /\ value_of_bytes (b ++ rest) = transmitted v.
Proof. intros. destruct (value_transmission v rest) as (b & ? & _ & ?); eauto. Qed.

Lemma sign_result k v v' :
  v_sign k v = Ret v' ->
  exists d s, gnutls_sign k d = Some s /\ getToSign v' = Ret d /\ isEncrypted v = false /\
    v' = mkValue (v_id v) (Some (Some (skey_public k))) (v_recipient v) (v_type v) (v_data v)
                 (v_user_type v) (v_seq v) s (v_cypher v) (v_priority v).
Proof.
  unfold v_sign. destruct (isEncrypted v) eqn:E; [done|].
  destruct (getToSign _) as [d| | |] eqn:Ed; try done. cbn [mbind outcome_bind].
  destruct (gnutls_sign k d) as [s|] eqn:Es; [|done]. intros [= <-]. by exists d, s.
Qed.

(** A signed value survives the network: the reader recovers the value member
    for member, and its signature check succeeds, since the signed bytes do not
    depend on the signature and are packed the same way on both sides. *)
Theorem signed_value_verifies k v v' rest :
  wf_value v -> wf_bytes rest -> is_Some (gnutls_export (skey_public k)) -> v_sign k v = Ret v' ->
  exists b, msgpack_pack v' = Ret b /\ value_of_bytes (b ++ rest) = Ret v' /\
    v_checkSignature v' = Ret true.
Proof.
  intros Hv Hr Hk Hs. destruct (sign_result k v v' Hs) as (d & s & Hsig & Hd & He & Heq).
  destruct (sign_size k d s Hsig) as (Hne & Hsz).
  assert (Hc : v_cypher v = []) by (unfold isEncrypted in He; by destruct (v_cypher v)).
  assert (Hnb : empty_blob s = false) by (by destruct s).
  assert (Hw : wf_value v') by (subst v'; unfold wf_value in *; simpl; tauto).
  destruct (value_transmission v' rest Hw) as (b & Hb & _ & Hu); [by subst v'|done|].
  exists b. split; [done|]. split.
  - rewrite Hu. subst v'. unfold transmitted, isEncrypted, isSigned, has_owner. simpl. by rewrite Hc, Hnb.
  - unfold v_checkSignature. rewrite Hd. subst v'. unfold isSigned. simpl. rewrite Hnb. simpl.
    by rewrite (sign_verify k d s Hsig).
Qed.
End Values.

(** ** A concrete GnuTLS *)
Module GnutlsDemo.

Definition checksum (d : bytes) : Z := foldr Z.add 0 d mod 256.

(** One key pair; a signature is a checksum. *)
Definition demo : Gnutls := {|
  gkey := unit;
  gnutls_export _ := Some [48; 1];
  gnutls_import_pem _ := None;
  gnutls_import_der b := if bool_decide (b = [48; 1]) then Some () else None;
  gnutls_key_id _ := replicate 20 7;
  gnutls_verify _ d s := bool_decide (s = [checksum d]);
  skey := unit;
  skey_public _ := ();
  gnutls_sign _ d := Some [checksum d];
|}.

#[global] Instance demo_laws : GnutlsLaws demo.
Proof.
  split; simpl.
  - intros [] b [= <-]. done.
  - intros [] b [= <-]. split; [done|by_compute].
  - intros [] d s [= <-]. by apply bool_decide_true.
  - intros [] d s [= <-]. split_and!; [done|done|]. constructor; [|constructor].
    apply Z.mod_pos_bound. lia.
Qed.

Definition note : @Value demo :=
  @mkValue demo 42 None (Hash_zero HASH_LEN) 3 [1; 2; 3] (str "text/plain") 5 [] [] 1.

Lemma note_wf : wf_value note.
Proof. unfold wf_value. simpl. split_and!; by_compute. Qed.
End GnutlsDemo.

Lemma value_roundtrip_witness :
  exists b, msgpack_pack GnutlsDemo.note = Ret b /\
    value_of_bytes (b ++ [0]) =
    Ret (@mkValue GnutlsDemo.demo 42 None (Hash_zero HASH_LEN) 3 [1; 2; 3] (str "text/plain") 0 [] [] 1).
Proof.
  exact (value_roundtrip GnutlsDemo.note [0] GnutlsDemo.note_wf I ltac:(by_compute)).
Defined.

Lemma signed_value_verifies_witness :
  exists v' b, v_sign (G := GnutlsDemo.demo) () GnutlsDemo.note = Ret v' /\ msgpack_pack v' = Ret b /\
    value_of_bytes (b ++ []) = Ret v' /\ v_checkSignature v' = Ret true.
Proof.
  eexists. destruct (signed_value_verifies (G := GnutlsDemo.demo) () GnutlsDemo.note _ []
    GnutlsDemo.note_wf ltac:(constructor) ltac:(by eexists) eq_refl) as (b & Hb & Hu & Hc).
  exists b. split; [reflexivity|]. split; [exact Hb|]. split; [exact Hu|exact Hc].
Defined.
