(* ===== verification/Query.v ===== *)
(** * Query: filters on values, and the queries a node sends to its peers

    Models the filters and the classes [FieldValue], [Select], [Where], [Query] and
    [FieldValueIndex] of src/opendht-2.1.4/include/opendht/value.h and
    src/value.cpp, with their serialisation.  A [Value::Filter] is a
    [std::function] that may be empty: an optional boolean function. *)
From S2P Require Import Prelude InfoHash StdMap MsgPack Value.

(** [enum class Value::Field]. *)
Inductive Field := F_None | F_Id | F_ValueType | F_OwnerPk | F_SeqNum | F_UserType | F_COUNT.

#[export] Instance Field_eq_dec : EqDecision Field.
Proof. solve_decision. Defined.

Definition field_Z (f : Field) : Z :=
  match f with
  | F_None => 0 | F_Id => 1 | F_ValueType => 2 | F_OwnerPk => 3 | F_SeqNum => 4
  | F_UserType => 5 | F_COUNT => 6
  end.

(** A cast to the enumeration; a number that names no field is kept apart. *)
Definition field_of_Z (n : Z) : option Field :=
  match n with
  | 0 => Some F_None | 1 => Some F_Id | 2 => Some F_ValueType | 3 => Some F_OwnerPk
  | 4 => Some F_SeqNum | 5 => Some F_UserType | 6 => Some F_COUNT | _ => None
  end.

Section Queries.
Context {G : Gnutls}.

(** ** Filters *)

Definition Filter : Type := option (Value -> bool).

(** Apply a filter that may be empty: [not f || f(v)]. *)
Definition passes (f : Filter) (v : Value) : bool := match f with Some p => p v | None => true end.

(** [chain(f1, f2)]. *)
Definition chain (f1 f2 : Filter) : Filter :=
  match f1, f2 with
  | None, _ => f2
  | _, None => f1
  | Some p1, Some p2 => Some (fun v => p1 v && p2 v)
  end.

(** [chainAll]. *)
Definition chainAll (set : list Filter) : Filter :=
  match set with
  | [] => None
  | _ => Some (fun v => forallb (fun f => negb (match f with Some p => negb (p v) | None => false end)) set)
  end.

(** [chainOr]: an empty filter accepts everything. *)
Definition chainOr (f1 f2 : Filter) : Filter :=
  match f1, f2 with
  | Some p1, Some p2 => Some (fun v => p1 v || p2 v)
  | _, _ => None
  end.

(** [notFilter]. *)
Definition notFilter (f : Filter) : Filter :=
  match f with
  | None => Some (fun _ => false)
  | Some p => Some (fun v => negb (p v))
  end.

(** [Filter::filter]. *)
Definition filter_values (f : Filter) (values : list Value) : list Value :=
  match f with None => values | Some p => List.filter p values end.

Definition TypeFilter (tid : Z) : Filter := Some (fun v => v_type v =? tid).
Definition IdFilter (id : Z) : Filter := Some (fun v => v_id v =? id).
Definition RecipientFilter (r : Hash) : Filter := Some (fun v => op_eq HASH_LEN (v_recipient v) r).
Definition OwnerFilter (pkh : Hash) : Filter :=
  Some (fun v => match v_owner v with Some k => op_eq HASH_LEN (pk_getId k) pkh | None => false end).
Definition SeqNumFilter (seq_no : Z) : Filter := Some (fun v => v_seq v =? wrap 16 seq_no).
Definition UserTypeFilter (ut : bytes) : Filter := Some (fun v => bool_decide (v_user_type v = ut)).

(** ** Field values *)

Record FieldValue := mkFieldValue {
  fv_field : Field;
  fv_int : Z;
  fv_hash : Hash;
  fv_blob : bytes;
}.

(** The constructors. *)
Definition FieldValue_int (f : Field) (n : Z) : FieldValue := mkFieldValue f n (Hash_zero HASH_LEN) [].
Definition FieldValue_hash (f : Field) (h : Hash) : FieldValue := mkFieldValue f 0 h [].
Definition FieldValue_blob (f : Field) (b : bytes) : FieldValue := mkFieldValue f 0 (Hash_zero HASH_LEN) b.

(** [operator==]. *)
Definition fv_eq (a b : FieldValue) : bool :=
  if negb (bool_decide (fv_field a = fv_field b)) then false
  else match fv_field a with
       | F_Id | F_ValueType | F_SeqNum => fv_int a =? fv_int b
       | F_OwnerPk => op_eq HASH_LEN (fv_hash a) (fv_hash b)
       | F_UserType => bool_decide (fv_blob a = fv_blob b)
       | F_None => true
       | F_COUNT => false
       end.

(** [getLocalFilter]; the type filter takes a 16-bit id. *)
Definition getLocalFilter (f : FieldValue) : Filter :=
  match fv_field f with
  | F_Id => IdFilter (fv_int f)
  | F_ValueType => TypeFilter (wrap 16 (fv_int f))
  | F_OwnerPk => OwnerFilter (fv_hash f)
  | F_SeqNum => SeqNumFilter (fv_int f)
  | F_UserType => UserTypeFilter (fv_blob f)
  | _ => None
  end.

(** [FieldValue::msgpack_pack]: there is no case for [SeqNum]. *)
Definition fv_pack (f : FieldValue) : outcome bytes :=
  v ← match fv_field f with
      | F_Id | F_ValueType => Ret (pack_imp_uint64 (fv_int f))
      | F_OwnerPk => Ret (hash_pack (fv_hash f))
      | F_UserType => Ret (pack_binary (fv_blob f))
      | _ => type_error
      end;
  Ret (pack_map 2 ++ pack_string (str "f") ++ pack_imp_uint8 (field_Z (fv_field f)) ++
       pack_string (str "v") ++ v).

(** [FieldValue::msgpack_unpack], into a fresh object. *)
Definition fv_unpack (msg : obj) : outcome FieldValue :=
  f ← required msg (str "f");
  n ← as_uint 32 f;
  v ← required msg (str "v");
  match field_of_Z n with
  | Some ((F_Id | F_ValueType) as fd) => i ← as_uint 64 v; Ret (FieldValue_int fd i)
  | Some F_OwnerPk => h ← hash_unpack v; Ret (FieldValue_hash F_OwnerPk h)
  | Some F_UserType => b ← unpackBlob v; Ret (FieldValue_blob F_UserType b)
  | _ => type_error
  end.

(** ** Select, Where, Query *)

Abbreviation Select := (list Field) (only parsing).
Abbreviation Where := (list FieldValue) (only parsing).

(** [Select::field]. *)
Definition select_field (f : Field) (s : Select) : Select :=
  if existsb (fun g => bool_decide (g = f)) s then s else s ++ [f].

(** The five restrictions: [id], [valueType], [owner], [seq], [userType] all add a
    field value that is not there yet. *)
Definition where_add (fv : FieldValue) (w : Where) : Where :=
  if existsb (fun g => fv_eq g fv) w then w else w ++ [fv].

Definition where_id (id : Z) : Where -> Where := where_add (FieldValue_int F_Id id).
Definition where_valueType (t : Z) : Where -> Where := where_add (FieldValue_int F_ValueType t).
Definition where_owner (h : Hash) : Where -> Where := where_add (FieldValue_hash F_OwnerPk h).
Definition where_seq (n : Z) : Where -> Where := where_add (FieldValue_int F_SeqNum n).
Definition where_userType (ut : bytes) : Where -> Where := where_add (FieldValue_blob F_UserType ut).

(** [Where::getFilter]: the restrictions that have a local filter. *)
Definition getFilter (w : Where) : Filter :=
  match w with
  | [] => None
  | _ => chainAll (List.filter (fun lf => match lf with Some _ => true | None => false end)
                               (map getLocalFilter w))
  end.

(** [subset]. *)
Definition subset {A} (eqb : A -> A -> bool) (fds qfds : list A) : bool :=
  forallb (fun fd => existsb (fun g => eqb fd g) qfds) fds.

Definition field_eqb (a b : Field) : bool := bool_decide (a = b).

(** [Select::isSatisfiedBy], [Where::isSatisfiedBy], [Query::isSatisfiedBy]. *)
Definition select_isSatisfiedBy (s os : Select) : bool :=
  match s with
  | [] => match os with [] => true | _ => false end
  | _ => subset field_eqb s os
  end.

Definition where_isSatisfiedBy (w ow : Where) : bool := subset fv_eq ow w.

Record Query := mkQuery { q_select : Select; q_where : Where; q_none : bool }.

Definition isSatisfiedBy (q oq : Query) : bool :=
  q_none q || (where_isSatisfiedBy (q_where q) (q_where oq) && select_isSatisfiedBy (q_select q) (q_select oq)).

(** Packing a vector: the size, then the elements. *)
Fixpoint pack_all {A} (f : A -> outcome bytes) (l : list A) : outcome bytes :=
  match l with
  | [] => Ret []
  | a :: l' => x ← f a; r ← pack_all f l'; Ret (x ++ r)
  end.

Definition pack_vector {A} (f : A -> outcome bytes) (l : list A) : outcome bytes :=
  r ← pack_all f l; Ret (pack_array (Z.of_nat (length l)) ++ r).

(** [Select::msgpack_pack] and [msgpack_unpack]: the fields as integers. *)
Definition select_pack (s : Select) : outcome bytes :=
  pack_vector (fun f => Ret (pack_imp_int32 (field_Z f))) s.

Definition select_unpack (o : obj) : outcome (list Z) := as_vector as_int o.

(** [Where::msgpack_pack] and [msgpack_unpack]. *)
Definition where_pack (w : Where) : outcome bytes := pack_vector fv_pack w.
Definition where_unpack (o : obj) : outcome Where := as_vector fv_unpack o.

(** [Query::msgpack_pack]. *)
Definition query_pack (q : Query) : outcome bytes :=
  s ← select_pack (q_select q);
  w ← where_pack (q_where q);
  Ret (pack_map 2 ++ pack_string (str "s") ++ s ++ pack_string (str "w") ++ w).

(** [Query::msgpack_unpack]: the filters first; selected fields are numbers of the
    enumeration. *)
Definition query_unpack (o : obj) : outcome (list Z * Where) :=
  match o with
  | OMap _ =>
      rf ← required o (str "w");
      w ← where_unpack rf;
      rs ← required o (str "s");
      s ← select_unpack rs;
      Ret (s, w)
  | _ => type_error
  end.

(** ** Field indexes *)

(** [FieldValueIndex]: a map from fields, in the order of the enumeration. *)
Definition field_lt (a b : Field) : bool := field_Z a <? field_Z b.
Definition FieldValueIndex : Type := list (Field * FieldValue).

(** The value a field has in a value. *)
Definition field_of_value (v : Value) (f : Field) : FieldValue :=
  match f with
  | F_Id => FieldValue_int f (v_id v)
  | F_ValueType => FieldValue_int f (v_type v)
  | F_OwnerPk => FieldValue_hash f (match v_owner v with Some k => pk_getId k | None => Hash_zero HASH_LEN end)
  | F_SeqNum => FieldValue_int f (v_seq v)
  | F_UserType => FieldValue_blob f (v_user_type v)
  | _ => FieldValue_int F_None 0
  end.

(** The constructor: the selected fields, or all of them. *)
Definition index_fields (s : Select) : list Field :=
  match s with
  | [] => [F_Id; F_ValueType; F_OwnerPk; F_SeqNum; F_UserType]
  | _ => s
  end.

Definition FieldValueIndex_make (v : Value) (s : Select) : FieldValueIndex :=
  foldl (fun ix f => om_set field_lt f (field_of_value v f) ix) [] (index_fields s).

(** [containedIn]. *)
Definition containedIn (ix other : FieldValueIndex) : bool :=
  if (length other <? length ix)%nat then false
  else forallb (fun e => match om_find field_lt e.1 other with Some _ => true | None => false end) ix.

(** ** Filters and satisfaction *)

Lemma passes_chainAll l v : passes (chainAll l) v = forallb (fun f => passes f v) l.
Proof.
  destruct l as [|f l]; [done|]. unfold chainAll, passes at 1.
  generalize (f :: l). intros l0. induction l0 as [|g l0 IH]; [done|]. simpl. rewrite IH. f_equal.
  destruct g; simpl; [apply negb_involutive|done].
Qed.

Lemma passes_getFilter w v : passes (getFilter w) v = forallb (fun f => passes (getLocalFilter f) v) w.
Proof.
  assert (H : passes (getFilter w) v = passes (chainAll (List.filter
    (fun lf : Filter => match lf with Some _ => true | None => false end) (map getLocalFilter w))) v)
    by (by destruct w).
  rewrite H, passes_chainAll. clear H. induction w as [|f w IH]; [done|]. simpl.
  destruct (getLocalFilter f) eqn:E; simpl; by rewrite IH.
Qed.

Lemma filter_values_passes f values : filter_values f values = List.filter (passes f) values.
Proof. destruct f; [done|]. simpl. induction values as [|v l IH]; [done|]. simpl. by rewrite <- IH. Qed.

Lemma op_eq_congr N h a b : op_eq N a b = true -> op_eq N h a = op_eq N h b.
Proof.
  unfold op_eq. rewrite forallb_forall. intros H. induction (seq 0 (N / 4)) as [|i l IH]; [done|].
  simpl. rewrite IH by (intros; apply H; by right). specialize (H i ltac:(by left)). zb. by rewrite H.
Qed.

(** Equal field values are the same restriction. *)
Lemma fv_eq_filter a b v : fv_eq a b = true -> passes (getLocalFilter a) v = passes (getLocalFilter b) v.
Proof.
  unfold fv_eq, getLocalFilter. destruct (bool_decide_reflect (fv_field a = fv_field b)) as [Hf|]; [|done].
  rewrite <- Hf. simpl. destruct (fv_field a); intros He; simpl in *; try done; try (zb; by rewrite He).
  - destruct (v_owner v); [by apply op_eq_congr|done].
  - apply bool_decide_eq_true in He. by rewrite He.
Qed.

Lemma where_satisfied_passes w ow v :
  where_isSatisfiedBy w ow = true -> passes (getFilter w) v = true -> passes (getFilter ow) v = true.
Proof.
  unfold where_isSatisfiedBy, subset. rewrite !passes_getFilter, !forallb_forall.
  intros Hs Hw f Hf. apply Hs, existsb_exists in Hf as (g & Hg & He).
  rewrite (fv_eq_filter f g v He). by apply Hw.
Qed.

(** C40. Query satisfaction is sound: when a query is satisfied by another one, the
    answer to the other contains the whole answer to the first (filtering it again
    gives the values that filtering everything would), and every field the first
    selects is among the fields the other returns. *)
Theorem satisfied_query_answers q oq values :
  isSatisfiedBy q oq = true -> q_none q = false ->
  filter_values (getFilter (q_where q)) (filter_values (getFilter (q_where oq)) values) =
  filter_values (getFilter (q_where q)) values /\
  forall f, f ∈ index_fields (q_select q) -> f ∈ index_fields (q_select oq).
Proof.
  unfold isSatisfiedBy. intros Hs Hn. rewrite Hn in Hs. apply andb_true_iff in Hs as [H H0]. split.
  - rewrite !filter_values_passes. induction values as [|v l IH]; [done|]. simpl.
    destruct (passes (getFilter (q_where q)) v) eqn:E.
    + rewrite (where_satisfied_passes _ _ v H E). simpl. by rewrite E, IH.
    + destruct (passes (getFilter (q_where oq)) v); simpl; by rewrite ?E.
  - unfold select_isSatisfiedBy in H0. destruct (q_select q) as [|g s]; [by destruct (q_select oq)|].
    intros f Hf. unfold subset in H0. rewrite forallb_forall in H0.
    apply list_elem_of_In, H0, existsb_exists in Hf as (h & Hh & He).
    unfold field_eqb in He. apply bool_decide_eq_true in He as ->.
    destruct (q_select oq); [done|]. by apply list_elem_of_In.
Qed.

(** ** Serialisation of queries *)

(** Field values as the restrictions of [Where] make them, those that can be sent. *)
Definition wf_fv (f : FieldValue) : Prop :=
  match fv_field f with
  | F_Id | F_ValueType => 0 <= fv_int f < 2 ^ 64 /\ f = FieldValue_int (fv_field f) (fv_int f)
  | F_OwnerPk => wf_hash HASH_LEN (fv_hash f) /\ f = FieldValue_hash (fv_field f) (fv_hash f)
  | F_UserType => (len (fv_blob f) < 2 ^ 32 /\ wf_bytes (fv_blob f)) /\
                  f = FieldValue_blob (fv_field f) (fv_blob f)
  | _ => False
  end.

Definition fv_value_obj (f : FieldValue) : obj :=
  match fv_field f with
  | F_OwnerPk => OBin (fv_hash f)
  | F_UserType => OBin (fv_blob f)
  | _ => OPos (fv_int f)
  end.

Definition fv_obj (f : FieldValue) : obj :=
  OMap [kv (str "f") (OPos (field_Z (fv_field f))); kv (str "v") (fv_value_obj f)].

Definition query_obj (q : Query) : obj :=
  OMap [kv (str "s") (OArr (map (fun f => OPos (field_Z f)) (q_select q)));
        kv (str "w") (OArr (map fv_obj (q_where q)))].

Lemma fv_pack_obj f : wf_fv f -> fv_pack f = Ret (pack (fv_obj f)).
Proof.
  unfold wf_fv, fv_pack, fv_obj. rewrite pack_OMap. cbn [map concat]. rewrite !pack_kv_eq, app_nil_r.
  unfold fv_value_obj. destruct (fv_field f); intros Hf; try done;
    cbn [mbind outcome_bind]; rewrite <- !app_assoc; reflexivity.
Qed.

Lemma pack_vector_obj {A} (f : A -> outcome bytes) (g : A -> obj) l :
  Forall (fun a => f a = Ret (pack (g a))) l -> pack_vector f l = Ret (pack (OArr (map g l))).
Proof.
  intros Hl. unfold pack_vector.
  assert (H : pack_all f l = Ret (concat (map pack (map g l)))).
  { induction Hl as [|a l Ha Hl IH]; [done|]. simpl. by rewrite Ha, IH. }
  rewrite H. cbn [mbind outcome_bind pack]. by rewrite length_map.
Qed.

Lemma field_pack f : pack_imp_int32 (field_Z f) = pack (OPos (field_Z f)).
Proof. by destruct f. Qed.

Lemma query_pack_obj q : Forall wf_fv (q_where q) -> query_pack q = Ret (pack (query_obj q)).
Proof.
  intros Hw. unfold query_pack, select_pack, where_pack.
  rewrite (pack_vector_obj _ (fun f => OPos (field_Z f))), (pack_vector_obj _ fv_obj).
  - cbn [mbind outcome_bind]. unfold query_obj. f_equal. rewrite pack_OMap. cbn [map concat].
    rewrite !pack_kv_eq, app_nil_r, <- !app_assoc. reflexivity.
  - eapply Forall_impl; [exact Hw|]. apply fv_pack_obj.
  - apply Forall_true. intros f. by rewrite field_pack.
Qed.

Lemma fv_obj_wf d f : 1 <= d -> wf_fv f -> wf_obj d (fv_obj f).
Proof.
  intros Hd Hf. apply wf_map. split_and!; [lia|simpl; lia|].
  repeat (apply Forall_cons; split; [apply wf_kv; [reflexivity|]|]); [| |constructor].
  - destruct (fv_field f); by_compute || (cbn; lia).
  - unfold fv_value_obj, wf_fv in *. destruct (fv_field f); try done; destruct Hf as [Hf _]; try done.
    destruct Hf as [Hl Hb]. split; [|done]. unfold len. rewrite Hl. reflexivity.
Qed.

Lemma query_obj_wf d q :
  Z.of_nat (length (q_select q)) < 2 ^ 32 -> Z.of_nat (length (q_where q)) < 2 ^ 32 ->
  Forall wf_fv (q_where q) -> 3 <= d -> wf_obj d (query_obj q).
Proof.
  intros Hs Hw Hf Hd. apply wf_map. split_and!; [lia|simpl; lia|].
  repeat (apply Forall_cons; split; [apply wf_kv; [reflexivity|]|]); [| |constructor];
    apply wf_arr; rewrite length_map; split_and!; try lia; apply Forall_map.
  - apply Forall_true. intros []; cbn; lia.
  - eapply Forall_impl; [exact Hf|]. intros f. apply fv_obj_wf. lia.
Qed.

Lemma as_list_map {A B} (f : obj -> outcome B) (g : A -> obj) (h : A -> B) l :
  Forall (fun a => f (g a) = Ret (h a)) l -> as_list f (map g l) = Ret (map h l).
Proof. induction 1 as [|a l Ha Hl IH]; [done|]. simpl. by rewrite Ha, IH. Qed.

Lemma fv_unpack_obj f : wf_fv f -> fv_unpack (fv_obj f) = Ret f.
Proof.
  intros Hf. unfold fv_unpack, fv_obj. lookup_keys. cbn [mbind outcome_bind].
  unfold wf_fv, fv_value_obj in *. destruct (fv_field f) eqn:E; try done; destruct Hf as [Hr ->];
    cbn [field_Z]; rewrite (as_uint_ok 32) by lia; cbn [mbind outcome_bind field_of_Z];
    rewrite ?as_uint_ok, ?hash_unpack_ok by done; done.
Qed.

Lemma field_as_int f : as_int (OPos (field_Z f)) = Ret (field_Z f).
Proof. by destruct f. Qed.

Lemma query_unpack_obj q :
  Forall wf_fv (q_where q) -> query_unpack (query_obj q) = Ret (map field_Z (q_select q), q_where q).
Proof.
  intros Hw. unfold query_unpack, query_obj. lookup_keys. cbn [mbind outcome_bind].
  unfold where_unpack, select_unpack, as_vector.
  rewrite (as_list_map fv_unpack fv_obj id), (as_list_map as_int _ field_Z).
  - cbn [mbind outcome_bind]. by rewrite map_id.
  - apply Forall_true. apply field_as_int.
  - eapply Forall_impl; [exact Hw|]. apply fv_unpack_obj.
Qed.

(** A query whose restrictions are on the id, type, owner or user type can be
    sent: packing succeeds, and the reader gets the same restrictions and the
    numbers of the selected fields. *)
Theorem query_roundtrip q rest :
  Z.of_nat (length (q_select q)) < 2 ^ 32 -> Z.of_nat (length (q_where q)) < 2 ^ 32 ->
  Forall wf_fv (q_where q) -> wf_bytes rest ->
  exists b, query_pack q = Ret b /\
    (r ← unpack (b ++ rest); query_unpack r.1) = Ret (map field_Z (q_select q), q_where q).
Proof.
  intros Hs Hw Hf Hr. exists (pack (query_obj q)). split; [by apply query_pack_obj|].
  rewrite unpack_packed by (done || apply query_obj_wf; (done || lia)). cbn. by apply query_unpack_obj.
Qed.

(** A vector with an element that cannot be packed cannot be packed. *)
Lemma pack_all_type_error {A} (f : A -> outcome bytes) l a :
  a ∈ l -> f a = type_error -> (forall x, (exists b, f x = Ret b) \/ f x = type_error) ->
  pack_all f l = type_error.
Proof.
  intros Hin Ha Hall. induction l as [|x l IH]; [by apply not_elem_of_nil in Hin|].
  simpl. destruct (Hall x) as [[b Hb]|Hb]; rewrite Hb; [|done]. cbn [mbind outcome_bind].
  apply elem_of_cons in Hin as [-> |Hin]; [by rewrite Ha in Hb|]. by rewrite IH.
Qed.

Lemma fv_pack_cases f : (exists b, fv_pack f = Ret b) \/ fv_pack f = type_error.
Proof. unfold fv_pack. destruct (fv_field f); eauto. Qed.

(** A restriction on the sequence number, which [Where::seq] offers, cannot be
    sent: packing any query that has one throws, since [FieldValue::msgpack_pack]
    has no case for the field (the filters and the comparison do). *)
Theorem seq_query_unsendable q n :
  FieldValue_int F_SeqNum n ∈ q_where q -> query_pack q = type_error.
Proof.
  intros Hin. unfold query_pack, select_pack.
  rewrite (pack_vector_obj _ (fun f => OPos (field_Z f)))
    by (apply Forall_true; intros f; by rewrite field_pack).
  cbn [mbind outcome_bind]. unfold where_pack, pack_vector.
  by rewrite (pack_all_type_error _ _ _ Hin eq_refl fv_pack_cases).
Qed.

(** ** Field indexes *)

Lemma field_lt_total a b : field_lt a b = false -> field_lt b a = false -> a = b.
Proof. unfold field_lt. intros. zb. destruct a, b; simpl in *; done || lia. Qed.

#[export] Instance field_order : KeyOrder field_lt (fun _ => True).
Proof.
  split.
  - intros k. apply Z.ltb_irrefl.
  - unfold field_lt. intros a b c H1 H2. zb. apply Z.ltb_lt. lia.
  - intros a b _ _. apply field_lt_total.
Qed.

Lemma index_wf_fields v fs ix :
  om_wf field_lt (fun _ => True) ix ->
  om_wf field_lt (fun _ => True) (foldl (fun ix f => om_set field_lt f (field_of_value v f) ix) ix fs).
Proof. revert ix. induction fs as [|f fs IH]; intros ix Hix; [done|]. simpl. apply IH.
  by apply (om_set_wf field_lt (fun _ => True)). Qed.

Lemma om_set_keys {V W} k (x : V) (y : W) m m' :
  map fst m = map fst m' -> map fst (om_set field_lt k x m) = map fst (om_set field_lt k y m').
Proof.
  revert m'. induction m as [|[a u] m IH]; intros [|[b w] m'] H; try done. simpl in *.
  injection H as -> Hm. destruct (field_lt k b); [simpl; by rewrite Hm|].
  destruct (field_lt b k); simpl; f_equal; auto.
Qed.

Lemma index_keys v v' fs (ix ix' : FieldValueIndex) :
  map fst ix = map fst ix' ->
  map fst (foldl (fun ix f => om_set field_lt f (field_of_value v f) ix) ix fs) =
  map fst (foldl (fun ix f => om_set field_lt f (field_of_value v' f) ix) ix' fs).
Proof. revert ix ix'. induction fs as [|f fs IH]; intros ix ix' H; [done|]. simpl. by apply IH, om_set_keys. Qed.

(** [containedIn] compares fields only: the indexes of any two values for the
    same selection contain each other, whatever the values of the fields are (the
    documentation says "with the same value"). *)
Theorem containedIn_ignores_values v v' s :
  containedIn (FieldValueIndex_make v s) (FieldValueIndex_make v' s) = true.
Proof.
  unfold containedIn, FieldValueIndex_make.
  pose proof (index_keys v v' (index_fields s) [] [] eq_refl) as Hk.
  pose proof (index_wf_fields v' (index_fields s) [] (om_wf_nil _ _)) as Hwf.
  set (ix := foldl _ [] _) in *. set (ix' := foldl _ [] _) in Hk, Hwf |- *.
  assert (Hl : length ix = length ix') by (rewrite <- (length_map fst ix), Hk, length_map; done).
  rewrite Hl, Nat.ltb_irrefl. apply forallb_forall. intros [f x] Hin. simpl.
  assert (Hf : f ∈ map fst ix').
  { rewrite <- Hk. apply list_elem_of_In, in_map_iff. by exists (f, x). }
  apply list_elem_of_In, in_map_iff in Hf as ([f' y] & Hff & Hy). simpl in Hff. subst f'.
  apply list_elem_of_In in Hy.
  by rewrite (proj2 (om_find_Some_elem field_lt (fun _ => True) f y ix' I Hwf) Hy).
Qed.
End Queries.

Module QueryDemo.
Definition narrow : Query := mkQuery [F_Id] (where_id 7 (where_userType (str "text") [])) false.
Definition wide : Query := mkQuery [F_Id; F_SeqNum] (where_userType (str "text") []) false.
End QueryDemo.

Lemma satisfied_query_answers_witness :
  filter_values (G := GnutlsDemo.demo) (getFilter (q_where QueryDemo.narrow))
    (filter_values (getFilter (q_where QueryDemo.wide)) [GnutlsDemo.note; Value_make 7]) =
  filter_values (getFilter (q_where QueryDemo.narrow)) [GnutlsDemo.note; Value_make 7].
Proof.
  exact (proj1 (satisfied_query_answers QueryDemo.narrow QueryDemo.wide
    [GnutlsDemo.note; Value_make 7] eq_refl eq_refl)).
Defined.

Lemma query_roundtrip_witness :
  exists b, query_pack QueryDemo.narrow = Ret b /\
    (r ← unpack (b ++ []); query_unpack r.1) = Ret ([1], q_where QueryDemo.narrow).
Proof.
  refine (query_roundtrip QueryDemo.narrow [] _ _ _ _); [done|done| |constructor].
  repeat constructor; simpl; try done; try lia; apply str_wf.
Defined.

Lemma seq_query_unsendable_witness : query_pack (mkQuery [] (where_seq 3 []) false) = type_error.
Proof. exact (seq_query_unsendable (mkQuery [] (where_seq 3 []) false) 3 ltac:(by left)). Defined.
