(* ===== verification/QueryText.v ===== *)
(** * QueryText: queries as text

    Models the text form of queries of src/opendht-2.1.4/src/value.cpp and value.h: the
    constructors of [Select], [Where] and [Query] that parse a string, with the stream
    operations they use, and the operators that print them.  A stream is the bytes that are
    left; a failed extraction leaves its variable as it was. *)
From S2P Require Import Prelude InfoHash MsgPack Value Query.

Abbreviation Select := (list Field) (only parsing).
Abbreviation Where := (list FieldValue) (only parsing).

(** ** Streams *)

Definition is_space (c : Z) : bool := (c =? 32) || ((9 <=? c) && (c <=? 13)).
Definition is_digit (c : Z) : bool := (48 <=? c) && (c <=? 57).

Fixpoint drop_while (p : Z -> bool) (s : bytes) : bytes :=
  match s with [] => [] | c :: s' => if p c then drop_while p s' else s end.
Fixpoint take_while (p : Z -> bool) (s : bytes) : bytes :=
  match s with [] => [] | c :: s' => if p c then c :: take_while p s' else [] end.

(** [in >> token]. *)
Definition read_token (token s : bytes) : bytes * bytes :=
  match drop_while is_space s with
  | [] => (token, [])
  | s' => (take_while (fun c => negb (is_space c)) s', drop_while (fun c => negb (is_space c)) s')
  end.

(** [std::getline(in, token, delim)]: the line and what is left, [None] when it fails. *)
Definition getline (delim : Z) (s : bytes) : option (bytes * bytes) :=
  match s with
  | [] => None
  | _ => Some (take_while (fun c => negb (c =? delim)) s,
               match drop_while (fun c => negb (c =? delim)) s with [] => [] | _ :: r => r end)
  end.

(** [in >> v] for a [uint64_t]: the number and whether the stream is good. *)
Definition decimal (ds : bytes) : Z := fold_left (fun a c => 10 * a + (c - 48)) ds 0.
Definition read_u64 (s : bytes) : Z * bool :=
  let s1 := drop_while is_space s in
  let '(neg, s2) := match s1 with
                    | c :: r => if c =? 45 then (true, r) else if c =? 43 then (false, r) else (false, s1)
                    | [] => (false, []) end in
  match take_while is_digit s2 with
  | [] => (0, false)
  | ds => let n := decimal ds in
          if 2 ^ 64 - 1 <? n then (2 ^ 64 - 1, false) else (if neg then u64 (- n) else n, true)
  end.

(** ** Parsing *)

Definition trim_str (s : bytes) : bytes := rev (drop_while (fun c => c =? 32) (rev (drop_while (fun c => c =? 32) s))).

(** The fields named in a list; [SeqNum] and [UserType] are tested apart from the rest. *)
Definition select_token (token : bytes) (s : Select) : Select :=
  let s1 := if bool_decide (token = VALUE_KEY_ID) then select_field F_Id s
            else if bool_decide (token = str "value_type") then select_field F_ValueType s
            else if bool_decide (token = str "owner_pk") then select_field F_OwnerPk s else s in
  if bool_decide (token = VALUE_KEY_SEQ) then select_field F_SeqNum s1
  else if bool_decide (token = str "user_type") then select_field F_UserType s1 else s1.

(** The loops over the lines of a stream; [fuel] is its length. *)
Fixpoint select_loop (fuel : nat) (fields : bytes) (s : Select) : Select :=
  match fuel with
  | O => s
  | S fuel' =>
      match getline 44 fields with
      | None => s
      | Some (token, rest) => select_loop fuel' rest (select_token (trim_str token) s)
      end
  end.

Definition Select_of_string (q_str : bytes) : Select :=
  let '(token, q_iss) := read_token [] q_str in
  if bool_decide (token = str "SELECT") || bool_decide (token = str "select")
  then let '(token, _) := read_token token q_iss in select_loop (S (length token)) token []
  else [].

(** The value of a restriction: the number and the text. *)
Definition quoted (s : bytes) : bool :=
  (1 <? len s) && bool_decide (head s = Some 34) && bool_decide (last s = Some 34).
Definition restriction_value (value_str : bytes) : Z * bytes :=
  let '(v, good) := read_u64 value_str in
  (v, if negb good && quoted value_str then take (length value_str - 2) (drop 1 value_str) else value_str).

Definition where_token (token : bytes) (w : Where) : outcome Where :=
  let '(field_str, eq_ss) := default ([], []) (getline 61 (trim_str token)) in
  let field_str := trim_str field_str in
  let value_str := trim_str (default [] (fst <$> getline 61 eq_ss)) in
  match value_str with
  | [] => Ret w
  | _ =>
      let '(v, s) := restriction_value value_str in
      if bool_decide (field_str = VALUE_KEY_ID) then Ret (where_id v w)
      else if bool_decide (field_str = str "value_type") then Ret (where_valueType (wrap 16 v) w)
      else if bool_decide (field_str = str "owner_pk") then Ret (where_owner (InfoHash_of_string s) w)
      else if bool_decide (field_str = VALUE_KEY_SEQ) then Ret (where_seq (wrap 16 v) w)
      else if bool_decide (field_str = str "user_type") then Ret (where_userType s w)
      else Throw "Error parsing query. (WHERE) wrong token"
  end.

Fixpoint where_loop (fuel : nat) (restrictions : bytes) (w : Where) : outcome Where :=
  match fuel with
  | O => Ret w
  | S fuel' =>
      match getline 44 restrictions with
      | None => Ret w
      | Some (token, rest) => w' ← where_token token w; where_loop fuel' rest w'
      end
  end.

Definition Where_of_string (q_str : bytes) : outcome Where :=
  let '(token, q_iss) := read_token [] q_str in
  if bool_decide (token = str "WHERE") || bool_decide (token = str "where")
  then let token := default token (fst <$> getline 10 q_iss) in where_loop (S (length token)) token []
  else Ret [].

(** [find], the size when there is none, and the constructor of [Query]. *)
Fixpoint find_str (pat s : bytes) : nat :=
  if bool_decide (take (length pat) s = pat) then 0%nat
  else match s with [] => 0%nat | _ :: s' => S (find_str pat s') end.

Definition Query_of_string (q_str : bytes) : outcome Query :=
  let pos := Nat.min (find_str (str "WHERE") q_str) (find_str (str "where") q_str) in
  w ← Where_of_string (drop pos q_str);
  Ret (mkQuery (Select_of_string (take pos q_str)) w false).

(** ** Printing *)

Fixpoint dec_loop (fuel : nat) (n : Z) (acc : bytes) : bytes :=
  match fuel with
  | O => acc
  | S fuel' => if n <? 10 then 48 + n :: acc else dec_loop fuel' (n / 10) (48 + n mod 10 :: acc)
  end.
Definition print_u64 (n : Z) : bytes := dec_loop 20 n [].

Definition comma_list (l : list bytes) : bytes := match l with [] => [] | x :: l' => x ++ concat (map (cons 44) l') end.

Definition field_text (f : Field) : bytes :=
  match f with
  | F_Id => VALUE_KEY_ID
  | F_ValueType => str "value_type"
  | F_UserType => str "user_type"
  | F_OwnerPk => str "owner_public_key"
  | F_SeqNum => VALUE_KEY_SEQ
  | _ => []
  end.

Definition select_print (s : Select) : bytes :=
  str "SELECT " ++ match s with [] => str "*" | _ => comma_list (map field_text s) end.

Definition filter_text (f : FieldValue) : bytes :=
  match fv_field f with
  | F_Id => VALUE_KEY_ID ++ str "=" ++ print_u64 (fv_int f)
  | F_ValueType => str "value_type=" ++ print_u64 (fv_int f)
  | F_OwnerPk => str "owner_pk_hash=" ++ toString (fv_hash f)
  | F_SeqNum => VALUE_KEY_SEQ ++ str "=" ++ print_u64 (fv_int f)
  | F_UserType => str "user_type=" ++ fv_blob f
  | _ => []
  end.

Definition where_print (w : Where) : bytes :=
  match w with [] => [] | _ => str "WHERE " ++ comma_list (map filter_text w) end.

Definition query_print (q : Query) : bytes :=
  str "Query[" ++ select_print (q_select q) ++ str " " ++ where_print (q_where q) ++ str "]".

(** ** Examples *)

Example parse_query :
  Query_of_string (str "SELECT id,seq WHERE user_type=text, id = 42") =
  Ret (mkQuery [F_Id; F_SeqNum] (where_id 42 (where_userType (str "text") [])) false).
Proof. vm_compute. reflexivity. Qed.

Example print_parse :
  Query_of_string (str "SELECT id,user_type WHERE id=18446744073709551615,value_type=7") =
  Ret (mkQuery [F_Id; F_UserType] [FieldValue_int F_Id (2 ^ 64 - 1); FieldValue_int F_ValueType 7] false).
Proof. vm_compute. reflexivity. Qed.

(** ** The round trip *)

(** No byte of [s] satisfies [p]. *)
Abbreviation avoids p s := (Forall (fun c => p c = false) s).

Lemma take_while_app p a b : Forall (fun c => p c = true) a -> match b with [] => True | c :: _ => p c = false end ->
  take_while p (a ++ b) = a /\ drop_while p (a ++ b) = b.
Proof.
  intros Ha Hb. induction Ha as [|c a Hc Ha [IH1 IH2]]; cbn.
  - destruct b as [|c b]; [done|]. cbn. by rewrite Hb.
  - rewrite Hc. split; [by rewrite IH1|done].
Qed.

Lemma drop_while_head p s : match s with [] => True | c :: _ => p c = false end -> drop_while p s = s.
Proof. destruct s as [|c s]; [done|]. cbn. by intros ->. Qed.

(** One line of a list, and the last one. *)
Lemma getline_sep d a b : avoids (fun c => c =? d) a -> getline d (a ++ d :: b) = Some (a, b).
Proof.
  intros Ha. destruct (take_while_app (fun c => negb (c =? d)) a (d :: b)) as [H1 H2].
  { eapply Forall_impl; [exact Ha|]. by intros c ->. }
  { by rewrite Z.eqb_refl. }
  unfold getline. rewrite H1, H2. by destruct a.
Qed.

Lemma getline_last d a : a <> [] -> avoids (fun c => c =? d) a -> getline d a = Some (a, []).
Proof.
  intros Hne Ha. destruct (take_while_app (fun c => negb (c =? d)) a []) as [H1 H2]; [eapply Forall_impl; [exact Ha|]; by intros c ->|done|].
  rewrite app_nil_r in H1, H2. unfold getline. rewrite H1, H2. by destruct a.
Qed.

Lemma trim_id s : head s <> Some 32 -> last s <> Some 32 -> trim_str s = s.
Proof.
  intros Hh Hl. unfold trim_str. rewrite (drop_while_head _ s).
  2:{ destruct s as [|c s]; [done|]. cbn in Hh. apply Z.eqb_neq. congruence. }
  rewrite (drop_while_head _ (rev s)); [by rewrite rev_involutive|]. destruct (rev s) as [|c r] eqn:E; [done|]. apply Z.eqb_neq. intros ->. apply Hl.
  apply (f_equal (@rev Z)) in E. rewrite rev_involutive in E. cbn in E. rewrite E. apply last_snoc.
Qed.

(** A list of texts without commas is read text by text. *)
Lemma comma_cons x y l : comma_list (x :: y :: l) = x ++ 44 :: comma_list (y :: l).
Proof. reflexivity. Qed.

Lemma comma_head x l : exists r, comma_list (x :: l) = x ++ r.
Proof. destruct l as [|y l]; [exists []; cbn; done|]. rewrite comma_cons. by eexists. Qed.

(** *** Fields *)

Definition printable_field (f : Field) : bool := match f with F_Id | F_ValueType | F_SeqNum | F_UserType => true | _ => false end.

Lemma field_text_ok f : printable_field f = true -> field_text f <> [] /\ trim_str (field_text f) = field_text f /\
  avoids (fun c => (c =? 44) || is_space c || (c =? 87) || (c =? 119)) (field_text f) /\ forall s, select_token (field_text f) s = select_field f s.
Proof. destruct f; intros [=]; (split; [done|]; split; [reflexivity|]; split; [repeat (constructor; [reflexivity|]); constructor|]; intros s; reflexivity). Qed.

Lemma select_new f s : ~ f ∈ s -> select_field f s = s ++ [f].
Proof.
  intros Hf. unfold select_field. destruct (existsb _ s) eqn:E; [|done]. exfalso. apply existsb_exists in E as (g & Hg & ->%bool_decide_eq_true). apply Hf. by apply list_elem_of_In.
Qed.

Lemma select_loop_ok l : Forall (fun f => printable_field f = true) l -> forall s fuel, l <> [] -> NoDup (s ++ l) -> (length l <= fuel)%nat ->
  select_loop fuel (comma_list (map field_text l)) s = s ++ l.
Proof.
  induction 1 as [|f l Hf Hl IH]; intros s fuel Hne Hnd Hfu; [done|]. destruct fuel as [|fuel]; [cbn in Hfu; lia|]. destruct (field_text_ok f Hf) as (Hn & Ht & Ha & Hs).
  assert (Ha' : avoids (fun c => c =? 44) (field_text f)) by (eapply Forall_impl; [exact Ha|]; intros c Hc; by rewrite !orb_false_iff in Hc; destruct Hc as [[[? _] _] _]).
  assert (Hnew : select_field f s = s ++ [f]) by (apply select_new; apply NoDup_app in Hnd as (_ & Hd & _); intros Hin; apply (Hd f Hin); left).
  destruct l as [|g l].
  - cbn [map comma_list concat]. rewrite app_nil_r. cbn [select_loop]. rewrite getline_last, Ht, Hs, Hnew by done. by destruct fuel.
  - cbn [map]. rewrite comma_cons. cbn [select_loop]. rewrite getline_sep, Ht, Hs, Hnew by done. change (field_text g :: map field_text l) with (map field_text (g :: l)).
    rewrite IH; [by rewrite <- app_assoc|done|by rewrite <- app_assoc|cbn in *; lia].
Qed.

(** *** Numbers *)

Lemma dec_loop_ok fuel : forall n acc, 0 <= n < 10 ^ Z.of_nat fuel -> (1 <= fuel)%nat ->
  exists ds, dec_loop fuel n acc = ds ++ acc /\ ds <> [] /\ Forall (fun c => is_digit c = true) ds /\ decimal ds = n.
Proof.
  induction fuel as [|fuel IH]; intros n acc Hn Hf; [lia|]. cbn [dec_loop]. destruct (Z.ltb_spec n 10).
  - exists [48 + n]. split_and!; [done|done| |unfold decimal; cbn; lia]. constructor; [|done]. unfold is_digit. apply andb_true_iff. split; apply Z.leb_le; lia.
  - assert (Hfu : (1 <= fuel)%nat) by (destruct fuel; [cbn in Hn; lia|lia]). pose proof (Z.div_mod n 10 ltac:(lia)). pose proof (Z.mod_pos_bound n 10 ltac:(lia)).
    destruct (IH (n / 10) (48 + n mod 10 :: acc)) as (ds & -> & Hne & Hd & Hv); [|done|].
    { split; [apply Z.div_pos; lia|]. apply Z.div_lt_upper_bound; [lia|]. rewrite Nat2Z.inj_succ, Z.pow_succ_r in Hn by lia. lia. }
    exists (ds ++ [48 + n mod 10]). split; [by rewrite <- app_assoc|]. split; [by destruct ds|]. split.
    + apply Forall_app. split; [done|]. constructor; [|done]. unfold is_digit. apply andb_true_iff. split; apply Z.leb_le; lia.
    + unfold decimal in *. rewrite fold_left_app, Hv. cbn. lia.
Qed.

Lemma print_u64_ok n : 0 <= n < 2 ^ 64 -> print_u64 n <> [] /\ Forall (fun c => is_digit c = true) (print_u64 n) /\ read_u64 (print_u64 n) = (n, true).
Proof.
  intros Hn. destruct (dec_loop_ok 20 n []) as (ds & Hds & Hne & Hd & Hv); [|lia|].
  { split; [lia|]. apply (Z.lt_trans _ (2 ^ 64)); [lia|]. reflexivity. }
  unfold print_u64. rewrite Hds, app_nil_r. split; [done|]. split; [done|]. destruct ds as [|c ds]; [done|]. pose proof Hd as Hc. inversion_clear Hc as [|? ? Hc' _].
  unfold is_digit in Hc'. rewrite andb_true_iff, !Z.leb_le in Hc'. unfold read_u64. rewrite drop_while_head.
  2:{ unfold is_space. rewrite orb_false_iff, andb_false_iff, Z.eqb_neq, !Z.leb_gt. lia. }
  rewrite (proj2 (Z.eqb_neq c 45)), (proj2 (Z.eqb_neq c 43)) by lia. destruct (take_while_app is_digit (c :: ds) [] Hd I) as [H1 _]. rewrite app_nil_r in H1. rewrite H1, Hv.
  by rewrite (proj2 (Z.ltb_ge _ _)) by lia.
Qed.

Lemma digit_avoids s : Forall (fun c => is_digit c = true) s -> avoids (fun c => (c =? 44) || (c =? 61) || (c =? 10) || (c =? 32)) s.
Proof.
  intros Hs. eapply Forall_impl; [exact Hs|]. unfold is_digit. intros c Hc. rewrite andb_true_iff, !Z.leb_le in Hc. rewrite !orb_false_iff, !Z.eqb_neq. lia.
Qed.

(** *** Restrictions *)

(** A text that stays whole: no comma, equals sign or newline, no space around it, and not
    in quotes, which the parser takes off. *)
Definition plain (t : bytes) : Prop :=
  t <> [] /\ avoids (fun c => (c =? 44) || (c =? 61) || (c =? 10)) t /\ head t <> Some 32 /\ last t <> Some 32 /\ quoted t = false.

Inductive printable : FieldValue -> Prop :=
| p_id n : 0 <= n < 2 ^ 64 -> printable (FieldValue_int F_Id n)
| p_type n : 0 <= n < 2 ^ 16 -> printable (FieldValue_int F_ValueType n)
| p_seq n : 0 <= n < 2 ^ 16 -> printable (FieldValue_int F_SeqNum n)
| p_user t : plain t -> printable (FieldValue_blob F_UserType t).

(** A key and a value, as the loop sees them. *)
Lemma where_token_pair key val w : key <> [] -> head key <> Some 32 -> last key <> Some 32 -> avoids (fun c => c =? 61) key ->
  val <> [] -> head val <> Some 32 -> last val <> Some 32 -> avoids (fun c => c =? 61) val ->
  where_token (key ++ 61 :: val) w =
    let '(v, s) := restriction_value val in
    if bool_decide (key = VALUE_KEY_ID) then Ret (where_id v w)
    else if bool_decide (key = str "value_type") then Ret (where_valueType (wrap 16 v) w)
    else if bool_decide (key = str "owner_pk") then Ret (where_owner (InfoHash_of_string s) w)
    else if bool_decide (key = VALUE_KEY_SEQ) then Ret (where_seq (wrap 16 v) w)
    else if bool_decide (key = str "user_type") then Ret (where_userType s w)
    else Throw "Error parsing query. (WHERE) wrong token".
Proof.
  intros Hk Hk1 Hk2 Hka Hv Hv1 Hv2 Hva. unfold where_token. rewrite trim_id.
  - rewrite getline_sep by done. change (default ([], []) (Some (key, val))) with (key, val). cbv beta iota zeta. rewrite (trim_id key), getline_last by done.
    change (default [] (fst <$> Some (val, []))) with val. rewrite trim_id by done. by destruct val.
  - destruct key; [done|]. exact Hk1.
  - destruct (exists_last Hv) as (v' & z & ->). rewrite last_snoc in Hv2. rewrite app_comm_cons, app_assoc, last_snoc. done.
Qed.

Abbreviation separators := (fun c => (c =? 44) || (c =? 10)).

Lemma avoids_impl (p q : Z -> bool) s : (forall c, q c = true -> p c = true) -> avoids p s -> avoids q s.
Proof. intros Hpq Hs. eapply Forall_impl; [exact Hs|]. intros c Hc. destruct (q c) eqn:E; [|done]. cbn in Hc. by rewrite (Hpq c E) in Hc. Qed.

(** Case analysis on the special bytes. *)
Ltac by_bytes := intros c; cbn beta; destruct (c =? 44), (c =? 61), (c =? 10), (c =? 32); done.

Lemma filter_text_ok f : printable f -> filter_text f <> [] /\ avoids separators (filter_text f) /\ forall w, where_token (filter_text f) w = Ret (where_add f w).
Proof.
  assert (Hnum : forall key n, 0 <= n < 2 ^ 64 -> key <> [] -> head key <> Some 32 -> last key <> Some 32 -> avoids (fun c => (c =? 61) || separators c) key ->
    avoids separators (key ++ 61 :: print_u64 n) /\ forall w, where_token (key ++ 61 :: print_u64 n) w =
      if bool_decide (key = VALUE_KEY_ID) then Ret (where_id n w)
      else if bool_decide (key = str "value_type") then Ret (where_valueType (wrap 16 n) w)
      else if bool_decide (key = str "owner_pk") then Ret (where_owner (InfoHash_of_string (restriction_value (print_u64 n)).2) w)
      else if bool_decide (key = VALUE_KEY_SEQ) then Ret (where_seq (wrap 16 n) w)
      else if bool_decide (key = str "user_type") then Ret (where_userType (restriction_value (print_u64 n)).2 w)
      else Throw "Error parsing query. (WHERE) wrong token").
  { intros key n Hn Hk Hk1 Hk2 Hka. destruct (print_u64_ok n Hn) as (Hne & Hd & Hr). pose proof (digit_avoids _ Hd) as Ha. split.
    - apply Forall_app. split; [eapply avoids_impl; [|exact Hka]; by_bytes|]. constructor; [reflexivity|].
      eapply avoids_impl; [|exact Ha]; by_bytes.
    - intros w. assert (Hsp : avoids (fun c => c =? 32) (print_u64 n)) by (eapply avoids_impl; [|exact Ha]; by_bytes).
      rewrite where_token_pair; try done.
      + unfold restriction_value. by rewrite Hr.
      + eapply avoids_impl; [|exact Hka]; by_bytes.
      + destruct (print_u64 n) as [|c l]; [done|]. intros [= ->]. by inversion Hsp.
      + intros Hl. apply last_Some_elem_of in Hl. rewrite Forall_forall in Hsp. by apply Hsp in Hl.
      + eapply avoids_impl; [|exact Ha]; by_bytes. }
  intros [n Hn|n Hn|n Hn|t (Hne & Ha & Hh & Hl & Hq)].
  - destruct (Hnum VALUE_KEY_ID n Hn) as [H1 H2]; [done|done|done|repeat (constructor; [reflexivity|]); constructor|]. split; [done|]. split; [exact H1|]. intros w. exact (H2 w).
  - destruct (Hnum (str "value_type") n ltac:(lia)) as [H1 H2]; [done|done|done|repeat (constructor; [reflexivity|]); constructor|]. split; [done|]. split; [exact H1|]. intros w.
    etrans; [exact (H2 w)|]. cbn [bool_decide]. rewrite wrap_small by lia. reflexivity.
  - destruct (Hnum VALUE_KEY_SEQ n ltac:(lia)) as [H1 H2]; [done|done|done|repeat (constructor; [reflexivity|]); constructor|]. split; [done|]. split; [exact H1|]. intros w.
    etrans; [exact (H2 w)|]. rewrite wrap_small by lia. reflexivity.
  - split; [done|]. split.
    + change (avoids separators (str "user_type" ++ 61 :: t)). apply Forall_app. split; [repeat (constructor; [reflexivity|]); constructor|]. constructor; [reflexivity|].
      eapply avoids_impl; [|exact Ha]; by_bytes.
    + intros w. change (filter_text (FieldValue_blob F_UserType t)) with (str "user_type" ++ 61 :: t). rewrite where_token_pair; try done.
      * unfold restriction_value. destruct (read_u64 t) as [v good]. rewrite Hq, andb_false_r. reflexivity.
      * repeat (constructor; [reflexivity|]); constructor.
      * eapply avoids_impl; [|exact Ha]; by_bytes.
Qed.

Lemma fv_eq_printable a b : printable a -> printable b -> fv_eq a b = true -> a = b.
Proof.
  intros Ha Hb He. destruct Ha, Hb; unfold fv_eq in He; cbn in He; try discriminate He.
  all: first [apply Z.eqb_eq in He|apply bool_decide_eq_true in He]; by subst.
Qed.

Lemma where_new f w : printable f -> Forall printable w -> ~ f ∈ w -> where_add f w = w ++ [f].
Proof.
  intros Hf Hw Hn. unfold where_add. destruct (existsb _ w) eqn:E; [|done]. exfalso. apply existsb_exists in E as (g & Hg%list_elem_of_In & He).
  rewrite Forall_forall in Hw. apply fv_eq_printable in He; [|by apply Hw|done]. subst. done.
Qed.

Lemma where_loop_ok l : Forall printable l -> forall w fuel, l <> [] -> Forall printable w -> NoDup (w ++ l) -> (length l <= fuel)%nat ->
  where_loop fuel (comma_list (map filter_text l)) w = Ret (w ++ l).
Proof.
  induction 1 as [|f l Hf Hl IH]; intros w fuel Hne Hw Hnd Hfu; [done|]. destruct fuel as [|fuel]; [cbn in Hfu; lia|]. destruct (filter_text_ok f Hf) as (Hn & Ha & Ht).
  assert (Ha' : avoids (fun c => c =? 44) (filter_text f)) by (eapply avoids_impl; [|exact Ha]; by_bytes).
  assert (Hnew : where_add f w = w ++ [f]) by (apply where_new; [done|done|]; apply NoDup_app in Hnd as (_ & Hd & _); intros Hin; apply (Hd f Hin); left).
  destruct l as [|g l].
  - cbn [map comma_list concat]. rewrite app_nil_r. cbn [where_loop]. rewrite getline_last, Ht, Hnew by done. by destruct fuel.
  - cbn [map]. rewrite comma_cons. cbn [where_loop]. rewrite getline_sep, Ht, Hnew by done. cbn [mbind outcome_bind]. change (filter_text g :: map filter_text l) with (map filter_text (g :: l)).
    rewrite IH; [by rewrite <- app_assoc|done|apply Forall_app; split; [done|by constructor]|by rewrite <- app_assoc|cbn in *; lia].
Qed.

(** *** Queries *)

Lemma find_str_first c pat pre s : avoids (fun x => x =? c) pre -> (length pre <= find_str (c :: pat) (pre ++ s))%nat.
Proof.
  intros Hp. induction Hp as [|x pre Hx _ IH]; [cbn; lia|]. cbn [app find_str length take]. case_bool_decide as E; [|lia]. injection E as -> _. by rewrite Z.eqb_refl in Hx.
Qed.

Lemma find_str_here c pat pre s : avoids (fun x => x =? c) pre -> find_str (c :: pat) (pre ++ (c :: pat) ++ s) = length pre.
Proof.
  intros Hp. induction Hp as [|x pre Hx _ IH].
  - cbn [app find_str length take]. rewrite take_app_length. by rewrite bool_decide_true.
  - cbn [app find_str length take]. case_bool_decide as E; [injection E as -> _; by rewrite Z.eqb_refl in Hx|]. f_equal. exact IH.
Qed.

Lemma find_str_none c pat pre : avoids (fun x => x =? c) pre -> find_str (c :: pat) pre = length pre.
Proof.
  intros Hp. induction Hp as [|x pre Hx _ IH]; [done|]. cbn [find_str length take]. case_bool_decide as E; [injection E as -> _; by rewrite Z.eqb_refl in Hx|]. by f_equal.
Qed.

Lemma comma_avoids p l : p 44 = false -> Forall (fun s => avoids p s) l -> avoids p (comma_list l).
Proof.
  intros Hp. induction 1 as [|x l Hx Hl IH]; [done|]. destruct l as [|y l]; [cbn; by rewrite app_nil_r|]. rewrite comma_cons. apply Forall_app. split; [done|]. by constructor.
Qed.

Lemma comma_length l : Forall (fun s : bytes => s <> []) l -> (length l <= length (comma_list l))%nat.
Proof.
  induction 1 as [|x l Hx Hl IH]; [done|]. destruct l as [|y l]; [destruct x; [done|cbn; lia]|]. rewrite comma_cons, length_app. cbn [length] in *. destruct x; [done|]. cbn [length] in *. lia.
Qed.

(** The text of a selection. *)
Lemma select_roundtrip s : Forall (fun f => printable_field f = true) s -> NoDup s ->
  Select_of_string (select_print s ++ str " ") = s /\ avoids (fun c => (c =? 87) || (c =? 119)) (select_print s ++ str " ").
Proof.
  intros Hp Hn. set (body := match s with [] => str "*" | _ => comma_list (map field_text s) end).
  assert (Hbody : body <> [] /\ avoids (fun c => is_space c || (c =? 87) || (c =? 119)) body).
  { unfold body. destruct s as [|f s]; [split; [done|repeat (constructor; [reflexivity|]); constructor]|]. split.
    - inversion_clear Hp as [|? ? Hf _]. destruct (field_text_ok f Hf) as (Hne & _). destruct (comma_head (field_text f) (map field_text s)) as (r & E). cbn [map]. rewrite E. by destruct (field_text f).
    - apply comma_avoids; [done|]. apply Forall_fmap. eapply Forall_impl; [exact Hp|]. intros g Hg. destruct (field_text_ok g Hg) as (_ & _ & Ha & _).
      eapply avoids_impl; [|exact Ha]. intros c. cbn beta. destruct (c =? 44); cbn [orb]; auto. }
  destruct Hbody as [Hne Ha]. assert (Hsp : Forall (fun c => negb (is_space c) = true) body) by (eapply Forall_impl; [exact Ha|]; intros c Hc; rewrite !orb_false_iff in Hc; destruct Hc as [[-> _] _]; done).
  split.
  - assert (Htok : read_token (str "SELECT") (32 :: body ++ str " ") = (body, str " ")).
    { unfold read_token. change (drop_while is_space (32 :: body ++ str " ")) with (drop_while is_space (body ++ str " ")). destruct (take_while_app (fun c => negb (is_space c)) body (str " ") Hsp eq_refl) as [H1 H2].
      rewrite drop_while_head; [destruct body; [done|]; exact (f_equal2 pair H1 H2)|]. destruct body as [|c b]; [done|]. inversion_clear Hsp as [|? ? Hc _]. cbn. by apply negb_true_iff in Hc. }
    change (select_print s ++ str " ") with (str "SELECT" ++ 32 :: body ++ str " "). unfold Select_of_string.
    change (read_token [] (str "SELECT" ++ 32 :: body ++ str " ")) with (str "SELECT", 32 :: body ++ str " "). cbv beta iota. rewrite bool_decide_true by done. cbn [orb]. rewrite Htok.
    unfold body. destruct s as [|f s]; [reflexivity|]. apply (select_loop_ok (f :: s) Hp []); [done|done|].
    etrans; [|apply le_S, comma_length]; [by rewrite length_map|]. apply Forall_fmap. eapply Forall_impl; [exact Hp|]. intros g Hg. by destruct (field_text_ok g Hg).
  - change (select_print s ++ str " ") with (str "SELECT " ++ body ++ str " "). rewrite !Forall_app. split; [repeat (constructor; [reflexivity|]); constructor|].
    split; [|repeat (constructor; [reflexivity|]); constructor]. eapply avoids_impl; [|exact Ha]. intros c. cbn beta. destruct (is_space c); cbn [orb]; auto.
Qed.

(** The text of restrictions. *)
Lemma where_roundtrip w : Forall printable w -> NoDup w -> Where_of_string (where_print w) = Ret w.
Proof.
  intros Hp Hn. destruct w as [|f w]; [reflexivity|]. set (l := f :: w) in *. set (body := comma_list (map filter_text l)).
  change (where_print l) with (str "WHERE" ++ 32 :: body). unfold Where_of_string. change (read_token [] (str "WHERE" ++ 32 :: body)) with (str "WHERE", 32 :: body). cbv beta iota.
  rewrite bool_decide_true by done. cbn [orb].
  assert (Ht : Forall (fun s : bytes => s <> []) (map filter_text l)) by (apply Forall_fmap; eapply Forall_impl; [exact Hp|]; intros g Hg; by destruct (filter_text_ok g Hg)).
  assert (Ha : avoids (fun c => c =? 10) (32 :: body)).
  { constructor; [done|]. apply comma_avoids; [done|]. apply Forall_fmap. eapply Forall_impl; [exact Hp|]. intros g Hg. destruct (filter_text_ok g Hg) as (_ & Hs & _). eapply avoids_impl; [|exact Hs]; by_bytes. }
  rewrite getline_last by done. change (default (str "WHERE") (fst <$> Some (32 :: body, []))) with (32 :: body).
  pose proof (where_loop_ok l Hp [] (S (S (length body))) ltac:(done) ltac:(constructor) Hn) as Hloop. cbn [app] in Hloop. rewrite <- Hloop.
  2:{ pose proof (comma_length _ Ht) as Hlen. rewrite length_map in Hlen. fold body in Hlen. lia. }
  destruct (comma_head (filter_text f) (map filter_text w)) as (r & E). fold body in Hloop |- *. assert (Hb : body = filter_text f ++ r) by exact E.
  cbn [where_loop length]. destruct (filter_text f) as [|c t] eqn:Ef; [by inversion Ht|]. rewrite Hb. cbn [app getline take_while drop_while]. change (32 =? 44) with false. cbn [negb].
  reflexivity.
Qed.

(** The two texts with a space between them. *)
Lemma select_where_roundtrip s w : Forall (fun f => printable_field f = true) s -> NoDup s -> Forall printable w -> NoDup w ->
  Query_of_string (select_print s ++ str " " ++ where_print w) = Ret (mkQuery s w false).
Proof.
  intros Hs Hns Hw Hnw. destruct (select_roundtrip s Hs Hns) as [Hsel Ha]. set (pre := select_print s ++ str " ") in *. rewrite app_assoc. fold pre.
  assert (HW : avoids (fun c => c =? 87) pre) by (eapply avoids_impl; [|exact Ha]; intros c; cbn beta; by intros ->).
  assert (Hw' : avoids (fun c => c =? 119) pre) by (eapply avoids_impl; [|exact Ha]; intros c; cbn beta; intros ->; apply orb_true_r).
  assert (Hpos : Nat.min (find_str (str "WHERE") (pre ++ where_print w)) (find_str (str "where") (pre ++ where_print w)) = length pre).
  { pose proof (find_str_first 119 (str "here") pre (where_print w) Hw') as Hge. change (119 :: str "here") with (str "where") in Hge. destruct w as [|f w].
    - cbn [where_print]. rewrite app_nil_r. change (str "WHERE") with (87 :: str "HERE"). change (str "where") with (119 :: str "here"). rewrite !find_str_none by done. lia.
    - change (where_print (f :: w)) with ((87 :: str "HERE") ++ 32 :: comma_list (map filter_text (f :: w))) in *. change (str "WHERE") with (87 :: str "HERE"). rewrite find_str_here by done. lia. }
  unfold Query_of_string. rewrite Hpos, drop_app_length, take_app_length, where_roundtrip by done. cbn [mbind outcome_bind]. by rewrite Hsel.
Qed.

(** A text that does not begin with the keyword selects nothing. *)
Lemma select_other_keyword c s : c <> 83 -> c <> 115 -> is_space c = false -> Select_of_string (c :: s) = [].
Proof.
  intros H1 H2 Hc. unfold Select_of_string, read_token. cbn [drop_while]. rewrite Hc. cbn [take_while drop_while]. rewrite Hc. cbn [negb].
  rewrite !bool_decide_false by (intros [= E]; done). done.
Qed.

(** C35. The text a query is printed as is ["Query["], a body and ["]"]. The body is
    read back as the same fields and restrictions in the same order, for distinct
    fields other than the owner, numbers of any size, and user types without
    separators, spaces around or quotes. The whole text is not: whatever query it is
    read as has no selection. *)
Theorem query_text_roundtrip q :
  Forall (fun f => printable_field f = true) (q_select q) -> NoDup (q_select q) ->
  Forall printable (q_where q) -> NoDup (q_where q) ->
  exists body, query_print q = str "Query[" ++ body ++ str "]" /\
    Query_of_string body = Ret (mkQuery (q_select q) (q_where q) false) /\
    forall q', Query_of_string (query_print q) = Ret q' -> q_select q' = [].
Proof.
  intros Hs Hns Hw Hnw. exists (select_print (q_select q) ++ str " " ++ where_print (q_where q)). split_and!.
  - unfold query_print. by rewrite <- !app_assoc.
  - by apply select_where_roundtrip.
  - intros q'. unfold Query_of_string, query_print. set (text := _ ++ _ ++ _ ++ _ ++ _).
    assert (forall pat : bytes, (6 <= find_str (87%Z :: pat) text)%nat) as HW by (intros pat; apply (find_str_first 87 pat (str "Query[")); repeat (constructor; [reflexivity|]); constructor).
    assert (forall pat : bytes, (6 <= find_str (119%Z :: pat) text)%nat) as Hw' by (intros pat; apply (find_str_first 119 pat (str "Query[")); repeat (constructor; [reflexivity|]); constructor).
    specialize (HW (str "HERE")). specialize (Hw' (str "here")). change (87 :: str "HERE") with (str "WHERE") in HW. change (119 :: str "here") with (str "where") in Hw'.
    set (pos := Nat.min _ _). assert (6 <= pos)%nat by (unfold pos; lia). destruct (Where_of_string _); intros [= <-]. cbn [q_select].
    destruct pos as [|pos]; [lia|]. by apply select_other_keyword.
Qed.

(** The owner does not survive: its field is printed under a name that the parser ignores,
    and a restriction on it under a name that the parser refuses. *)
Example owner_text_lost : Select_of_string (select_print [F_Id; F_OwnerPk]) = [F_Id] /\
  Where_of_string (where_print (where_owner (replicate 20 1) [])) = Throw "Error parsing query. (WHERE) wrong token".
Proof. vm_compute. auto. Qed.

Lemma query_text_roundtrip_witness :
  Query_of_string (str "SELECT id,user_type WHERE id=7,user_type=text/plain") =
    Ret (mkQuery [F_Id; F_UserType] [FieldValue_int F_Id 7; FieldValue_blob F_UserType (str "text/plain")] false) /\
  query_print (mkQuery [F_Id; F_UserType] [FieldValue_int F_Id 7; FieldValue_blob F_UserType (str "text/plain")] false) =
    str "Query[SELECT id,user_type WHERE id=7,user_type=text/plain]".
Proof.
  destruct (query_text_roundtrip (mkQuery [F_Id; F_UserType] [FieldValue_int F_Id 7; FieldValue_blob F_UserType (str "text/plain")] false))
    as (body & Hp & Hr & _).
  - repeat constructor.
  - apply (bool_decide_unpack _). reflexivity.
  - constructor; [constructor; lia|]. constructor; [|constructor]. constructor. unfold plain. split_and!; first [done|repeat (constructor; [reflexivity|]); constructor].
  - constructor; [|constructor; [|constructor]]; set_solver.
  - assert (query_print (mkQuery [F_Id; F_UserType] [FieldValue_int F_Id 7; FieldValue_blob F_UserType (str "text/plain")] false) =
      str "Query[" ++ str "SELECT id,user_type WHERE id=7,user_type=text/plain" ++ str "]") as E by (vm_compute; reflexivity).
    rewrite E in Hp. apply app_inv_head, app_inv_tail in Hp. split; [rewrite Hp; exact Hr|exact E].
Defined.
