(* ===== verification/Storage.v ===== *)
(** * Storage: the values and listeners a node keeps for one key

    Models src/opendht-2.1.4/src/storage.h and src/listener.h.  Values are shared
    through [Sp<Value>]: a pointer is an address, and the section's [deref] is the
    heap, which the storage only reads.  A [StorageBucket*] is a key of the map of
    buckets, which the operations transform together with the storage.  Sizes are
    [size_t] and wrap around. *)
From S2P Require Import Prelude InfoHash StdMap Node MsgPack Value Query.

Abbreviation vptr := positive (only parsing).
Abbreviation bptr := positive (only parsing).

(** ** Storage usage per address *)

(** [class StorageBucket]. *)
Record StorageBucket := mkBucket {
  sb_stored : list (Z * (Hash * Z));
  sb_total : Z;
}.

Definition Bucket_make : StorageBucket := mkBucket [] 0.

(** The buckets the storages of a node share. *)
Abbreviation Buckets := (gmap bptr StorageBucket).

(** [struct ValueStorage]. *)
Record ValueStorage := mkVS {
  vs_data : vptr;
  vs_created : Z;
  vs_expiration : Z;
  vs_bucket : option bptr;
}.

Record StoreDiff := mkDiff { size_diff : Z; values_diff : Z; listeners_diff : Z }.
Definition no_diff : StoreDiff := mkDiff 0 0 0.

Definition MAX_VALUES : Z := 1024.

(** [std::partition], whose order within the two parts is unspecified. *)
Class Partition := {
  partition : forall {A}, (A -> bool) -> list A -> list A * list A;
  partition_perm {A} (p : A -> bool) l : (partition p l).1 ++ (partition p l).2 ≡ₚ l;
  partition_left {A} (p : A -> bool) l : Forall (fun x => p x = true) (partition p l).1;
  partition_right {A} (p : A -> bool) l : Forall (fun x => p x = false) (partition p l).2;
}.

Section Storage.
Context {G : Gnutls} (deref : vptr -> Value).

Definition size_of (p : vptr) : Z := v_size (deref p).
Definition id_of (p : vptr) : Z := v_id (deref p).

(** [StorageBucket::insert]. *)
Definition sb_insert (id : Hash) (v : vptr) (expiration : Z) (b : StorageBucket) : StorageBucket :=
  mkBucket (mm_insert Z.ltb expiration (id, id_of v) (sb_stored b)) (u64 (sb_total b + size_of v)).

(** The loop of [erase] over [equal_range(expiration)]: drop the first entry of the
    range that names the value. *)
Fixpoint erase_in_range (id : Hash) (vid expiration : Z) (l : list (Z * (Hash * Z))) :
    list (Z * (Hash * Z)) :=
  match l with
  | [] => []
  | e :: l' =>
      if (e.1 =? expiration) && (op_eq HASH_LEN e.2.1 id && (e.2.2 =? vid)) then l'
      else e :: erase_in_range id vid expiration l'
  end.

(** [StorageBucket::erase]. *)
Definition sb_erase (id : Hash) (v : vptr) (expiration : Z) (b : StorageBucket) : StorageBucket :=
  mkBucket (erase_in_range id (id_of v) expiration (sb_stored b)) (u64 (sb_total b - size_of v)).

(** [getOldest]: the first entry, undefined when there is none. *)
Definition getOldest (b : StorageBucket) : outcome (Hash * Z) :=
  match sb_stored b with
  | [] => Undef "getOldest of an empty bucket"
  | e :: _ => Ret e.2
  end.

(** ** Listeners *)

Record Listener := mkListener { l_time : Z; l_query : Query; l_version : Z }.

(** [Listener::refresh]. *)
Definition listener_refresh (t : Z) (q : Query) (l : Listener) : Listener := mkListener t q (l_version l).

(** [LocalListener]; the callback is a function object, by its identity. *)
Record LocalListener := mkLocal { ll_query : option Query; ll_filter : Filter; ll_cb : nat }.

(** ** The storage *)

Record Storage := mkStorage {
  st_maintenance : Z;
  st_listeners : list (ptr * list (Z * Listener));
  st_local : list (Z * LocalListener);
  st_token : Z;
  st_values : list ValueStorage;
  st_total : Z;
}.

(** The constructor [Storage(t)]. *)
Definition Storage_make (t : Z) : Storage := mkStorage t [] [] 1 [] 0.

Definition st_set_values (vs : list ValueStorage) (total : Z) (st : Storage) : Storage :=
  mkStorage (st_maintenance st) (st_listeners st) (st_local st) (st_token st) vs total.
Definition st_set_listeners (ls : list (ptr * list (Z * Listener))) (st : Storage) : Storage :=
  mkStorage (st_maintenance st) ls (st_local st) (st_token st) (st_values st) (st_total st).

(** An operation on the bucket a value points to.  Here nothing happens when the bucket is
    gone, where the code writes through a pointer into an erased element of
    [store_quota]: what is said of the operations is said of the code as long as the
    buckets of the stored values are there ([DhtStorage.quota_bucket_dangles]). *)
Definition with_bucket (b : option bptr) (f : StorageBucket -> StorageBucket) (bs : Buckets) : Buckets :=
  match b with
  | Some k => alter f k bs
  | None => bs
  end.

(** [empty], [valueCount], [totalSize]. *)
Definition st_empty (st : Storage) : bool := match st_values st with [] => true | _ => false end.
Definition valueCount (st : Storage) : Z := Z.of_nat (length (st_values st)).

(** [getById]. *)
Fixpoint getById_in (vid : Z) (vs : list ValueStorage) : option vptr :=
  match vs with
  | [] => None
  | v :: vs' => if id_of (vs_data v) =? vid then Some (vs_data v) else getById_in vid vs'
  end.
Definition getById (vid : Z) (st : Storage) : option vptr := getById_in vid (st_values st).

(** [get]. *)
Definition st_get (f : Filter) (st : Storage) : list vptr :=
  List.filter (fun p => passes f (deref p)) (map vs_data (st_values st)).

(** [refresh]: [expire_after] is the expiration of the value's type. *)
Fixpoint refresh_in (now vid : Z) (expire_after : Z -> Z) (vs : list ValueStorage) :
    option (Z * list ValueStorage) :=
  match vs with
  | [] => None
  | v :: vs' =>
      if id_of (vs_data v) =? vid then
        let e := Z.max (vs_expiration v) (now + expire_after (v_type (deref (vs_data v)))) in
        Some (e, mkVS (vs_data v) now e (vs_bucket v) :: vs')
      else match refresh_in now vid expire_after vs' with
           | Some (e, vs'') => Some (e, v :: vs'')
           | None => None
           end
  end.

Definition refresh (now vid : Z) (expire_after : Z -> Z) (st : Storage) : Z * Storage :=
  match refresh_in now vid expire_after (st_values st) with
  | Some (e, vs) => (e, st_set_values vs (st_total st) st)
  | None => (time_max, st)
  end.

(** [listen]: [gcb] is the result of the callback on the values; the token, the
    values the callback was called with. *)
Definition st_listen (gcb : list vptr -> bool) (cb : nat) (f : Filter) (q : option Query) (st : Storage) :
    Z * list (list vptr) * Storage :=
  let newvals := if st_empty st then [] else st_get f st in
  let calls := match newvals with [] => [] | _ => [newvals] end in
  if match newvals with [] => false | _ => negb (gcb newvals) end then (0, calls, st)
  else
    let tok := u64 (st_token st + 1) in
    (tok, calls,
     mkStorage (st_maintenance st) (st_listeners st)
       (om_emplace Z.ltb tok (mkLocal q f cb) (st_local st)).1 tok (st_values st) (st_total st)).

(** [cancelListen]. *)
Definition cancelListen (token : Z) (st : Storage) : Storage :=
  mkStorage (st_maintenance st) (st_listeners st) (om_erase Z.ltb token (st_local st)) (st_token st)
            (st_values st) (st_total st).

(** [find_if] of [store]: the values before, the one found, those after. *)
Fixpoint find_value (p : ValueStorage -> bool) (vs : list ValueStorage) :
    option (list ValueStorage * ValueStorage * list ValueStorage) :=
  match vs with
  | [] => None
  | v :: vs' =>
      if p v then Some ([], v, vs')
      else match find_value p vs' with
           | Some (l, x, r) => Some (v :: l, x, r)
           | None => None
           end
  end.

Definition same_value (value : vptr) (v : ValueStorage) : bool :=
  bool_decide (vs_data v = value) || (id_of (vs_data v) =? id_of value).

(** [store]: whether a change happened (the returned pointer is not null), the
    differences, and the new state. *)
Definition st_store (id : Hash) (value : vptr) (created expiration : Z) (sb : option bptr)
    (st : Storage) (bs : Buckets) : bool * StoreDiff * Storage * Buckets :=
  let size_new := size_of value in
  match find_value (same_value value) (st_values st) with
  | Some (l, it, r) =>
      let size_old := size_of (vs_data it) in
      let d := size_new - size_old in
      if bool_decide (vs_data it = value) then
        (false, no_diff,
         st_set_values (l ++ mkVS (vs_data it) created (vs_expiration it) (vs_bucket it) :: r) (st_total st) st, bs)
      else
        let bs1 := with_bucket (vs_bucket it) (sb_erase id value (vs_expiration it)) bs in
        let bs2 := with_bucket sb (sb_insert id value expiration) bs1 in
        (true, mkDiff d 0 0,
         st_set_values (l ++ mkVS value created expiration sb :: r) (u64 (st_total st + d)) st, bs2)
  | None =>
      if valueCount st <? MAX_VALUES then
        (true, mkDiff size_new 1 0,
         st_set_values (st_values st ++ [mkVS value created expiration sb]) (u64 (st_total st + size_new)) st,
         with_bucket sb (sb_insert id value expiration) bs)
      else (false, no_diff, st, bs)
  end.

(** [remove]. *)
Definition st_remove (id : Hash) (vid : Z) (st : Storage) (bs : Buckets) : StoreDiff * Storage * Buckets :=
  match find_value (fun v => id_of (vs_data v) =? vid) (st_values st) with
  | None => (no_diff, st, bs)
  | Some (l, it, r) =>
      let size := size_of (vs_data it) in
      (mkDiff (- size) (-1) 0,
       st_set_values (l ++ r) (u64 (st_total st - size)) st,
       with_bucket (vs_bucket it) (sb_erase id (vs_data it) (vs_expiration it)) bs)
  end.

(** [clear]: the buckets are not told. *)
Definition st_clear (st : Storage) : StoreDiff * Storage :=
  (mkDiff (- st_total st) (- valueCount st) 0, st_set_values [] 0 st).

(** The first half of [expire]: listeners not refreshed in time go, then the nodes
    without listeners. *)
Definition expire_listeners (now : Z) (ls : list (ptr * list (Z * Listener))) : list (ptr * list (Z * Listener)) :=
  List.filter (fun e => match e.2 with [] => false | _ => true end)
    (map (fun e => (e.1, List.filter (fun l => negb (l_time l.2 + NODE_EXPIRE_TIME <? now)) e.2)) ls).

(** The second half: [size_diff], the buckets and the values returned. *)
Fixpoint expire_values (id : Hash) (vs : list ValueStorage) (d : Z) (bs : Buckets) : Z * Buckets :=
  match vs with
  | [] => (d, bs)
  | v :: vs' =>
      expire_values id vs' (d - size_of (vs_data v))
        (with_bucket (vs_bucket v) (sb_erase id (vs_data v) (vs_expiration v)) bs)
  end.

(** [expire]. *)
Definition st_expire `{Partition} (id : Hash) (now : Z) (st : Storage) (bs : Buckets) :
    Z * list vptr * Storage * Buckets :=
  let st1 := st_set_listeners (expire_listeners now (st_listeners st)) st in
  let '(keep, drop) := partition (fun v => now <? vs_expiration v) (st_values st1) in
  let '(d, bs') := expire_values id drop 0 bs in
  (d, map vs_data drop, st_set_values keep (u64 (st_total st1 + d)) st1, bs').

(** ** The invariant *)

Definition sizes (vs : list ValueStorage) : Z := foldr (fun v a => size_of (vs_data v) + a) 0 vs.
Definition ids (vs : list ValueStorage) : list Z := map (fun v => id_of (vs_data v)) vs.

(** At most [MAX_VALUES] values with distinct ids, and the total is their size. *)
Definition storage_wf (st : Storage) : Prop :=
  valueCount st <= MAX_VALUES /\ NoDup (ids (st_values st)) /\ st_total st = u64 (sizes (st_values st)).

Lemma find_value_Some p vs l it r :
  find_value p vs = Some (l, it, r) -> vs = l ++ it :: r /\ p it = true /\ Forall (fun v => p v = false) l.
Proof.
  revert l it r. induction vs as [|v vs IH]; intros l it r; simpl; [done|].
  destruct (p v) eqn:E; [by intros [= <- <- <-]|].
  destruct (find_value p vs) as [[[l' x] r']|]; [|done]. intros [= <- <- <-].
  destruct (IH l' x r' eq_refl) as (-> & Hp & Hl). split_and!; [done..|by constructor].
Qed.

Lemma find_value_None p vs : find_value p vs = None -> Forall (fun v => p v = false) vs.
Proof.
  induction vs as [|v vs IH]; simpl; [done|]. destruct (p v) eqn:E; [done|].
  destruct (find_value p vs) as [[[? ?] ?]|]; [done|]. auto.
Qed.

Lemma sizes_app l r : sizes (l ++ r) = sizes l + sizes r.
Proof. unfold sizes. induction l as [|v l IH]; simpl; lia. Qed.
Lemma sizes_cons v r : sizes (v :: r) = size_of (vs_data v) + sizes r.
Proof. done. Qed.
Lemma ids_app l r : ids (l ++ r) = ids l ++ ids r.
Proof. apply map_app. Qed.
Lemma sizes_perm l r : l ≡ₚ r -> sizes l = sizes r.
Proof. unfold sizes. induction 1; simpl; lia. Qed.

(** Totals modulo [2 ^ 64]. *)
Lemma u64_add a d : u64 (u64 a + d) = u64 (a + d).
Proof. unfold wrap. by rewrite Z.add_mod_idemp_l. Qed.

(** The first value with an id. *)
Lemma getById_app_ne vid l r :
  Forall (fun v => id_of (vs_data v) <> vid) l -> getById_in vid (l ++ r) = getById_in vid r.
Proof. induction 1 as [|v l Hv Hl IH]; [done|]. simpl. by destruct (Z.eqb_spec (id_of (vs_data v)) vid). Qed.

Lemma getById_None vid l : Forall (fun v => id_of (vs_data v) <> vid) l -> getById_in vid l = None.
Proof. induction 1 as [|v l Hv Hl IH]; [done|]. simpl. by destruct (Z.eqb_spec (id_of (vs_data v)) vid). Qed.

Lemma getById_other vid l v v' r :
  id_of (vs_data v) <> vid -> id_of (vs_data v') <> vid ->
  getById_in vid (l ++ v :: r) = getById_in vid (l ++ v' :: r).
Proof.
  intros. induction l as [|x l IH]; simpl.
  - destruct (Z.eqb_spec (id_of (vs_data v)) vid), (Z.eqb_spec (id_of (vs_data v')) vid); done.
  - by rewrite IH.
Qed.

Lemma getById_snoc_ne vid l v :
  vid <> id_of (vs_data v) -> getById_in vid (l ++ [v]) = getById_in vid l.
Proof.
  intros. induction l as [|x l IH]; simpl; [|by rewrite IH].
  by destruct (Z.eqb_spec (id_of (vs_data v)) vid).
Qed.

Lemma same_value_id value v : same_value value v = true <-> id_of (vs_data v) = id_of value.
Proof.
  unfold same_value. destruct (bool_decide_reflect (vs_data v = value)) as [-> |]; simpl; [done|].
  apply Z.eqb_eq.
Qed.

Lemma not_same_values value l :
  Forall (fun v => same_value value v = false) l -> Forall (fun v => id_of (vs_data v) <> id_of value) l.
Proof.
  intros Hl. eapply Forall_impl; [exact Hl|]. intros v Hv He. apply same_value_id in He.
  simpl in Hv. congruence.
Qed.

(** What [store] promises. *)
Definition store_ok (value : vptr) (changed : bool) (d : StoreDiff) (st st' : Storage) : Prop :=
  storage_wf st' /\
  st_total st' = u64 (st_total st + size_diff d) /\
  valueCount st' = valueCount st + values_diff d /\
  (changed = true -> getById (id_of value) st' = Some value) /\
  (changed = false -> map vs_data (st_values st') = map vs_data (st_values st) /\ d = no_diff) /\
  (forall vid, vid <> id_of value -> getById vid st' = getById vid st).

Lemma replace_ok value it l r created e b st :
  storage_wf st -> st_values st = l ++ it :: r -> id_of (vs_data it) = id_of value ->
  Forall (fun v => same_value value v = false) l ->
  store_ok value true (mkDiff (size_of value - size_of (vs_data it)) 0 0) st
    (st_set_values (l ++ mkVS value created e b :: r) (u64 (st_total st + (size_of value - size_of (vs_data it)))) st).
Proof.
  intros (Hc & Hn & Ht) Hv Hid Hl. unfold store_ok, storage_wf, valueCount, getById in *. simpl.
  rewrite Hv in *. rewrite ids_app, sizes_app, !length_app in *. simpl in *.
  split_and!; try done; try lia.
  - unfold ids in *. simpl in *. by rewrite <- Hid.
  - rewrite Ht, u64_add. f_equal. unfold sizes. simpl. lia.
  - intros _. rewrite getById_app_ne; simpl; [by rewrite Z.eqb_refl|]. by apply not_same_values.
  - intros vid Hne. apply getById_other; simpl; congruence.
Qed.

Lemma insert_ok value created e b st :
  storage_wf st -> Forall (fun v => same_value value v = false) (st_values st) ->
  valueCount st < MAX_VALUES ->
  store_ok value true (mkDiff (size_of value) 1 0) st
    (st_set_values (st_values st ++ [mkVS value created e b]) (u64 (st_total st + size_of value)) st).
Proof.
  intros (Hc & Hn & Ht) Hl Hlt. unfold store_ok, storage_wf, valueCount, getById in *. simpl.
  pose proof (not_same_values _ _ Hl) as Hid.
  rewrite ids_app, sizes_app, !length_app. simpl. split_and!; try done; try lia.
  - apply NoDup_app. split_and!; [done| |apply NoDup_singleton].
    intros i Hi%list_elem_of_In%in_map_iff. destruct Hi as (v & <- & Hv). simpl.
    rewrite list_elem_of_singleton. rewrite Forall_forall in Hid. apply Hid, list_elem_of_In, Hv.
  - rewrite Ht, u64_add. f_equal. unfold sizes. simpl. lia.
  - intros _. rewrite getById_app_ne by done. simpl. by rewrite Z.eqb_refl.
  - intros vid Hne. by apply getById_snoc_ne.
Qed.

Lemma u64_total st : storage_wf st -> u64 (st_total st + 0) = st_total st.
Proof.
  intros (_ & _ & ->). unfold wrap. by rewrite Z.add_0_r, Z.mod_mod.
Qed.

Lemma unchanged_ok value vs st :
  storage_wf st -> map vs_data vs = map vs_data (st_values st) ->
  store_ok value false no_diff st (st_set_values vs (st_total st) st).
Proof.
  intros Hst Hv. pose proof (u64_total st Hst) as Hu. destruct Hst as (Hc & Hn & Ht).
  assert (Hl : length vs = length (st_values st))
    by (rewrite <- (length_map vs_data vs), Hv, length_map; done).
  assert (Hi : forall l, ids l = map id_of (map vs_data l)) by (intros; unfold ids; by rewrite map_map).
  assert (Hs : forall l, sizes l = foldr (fun p a => size_of p + a) 0 (map vs_data l)).
  { intros l. unfold sizes. induction l as [|x l IH]; [done|]. simpl. by rewrite IH. }
  assert (Hg : forall vid l, getById_in vid l =
    foldr (fun p r => if id_of p =? vid then Some p else r) None (map vs_data l)).
  { intros vid l. induction l as [|x l IH]; [done|]. simpl. by rewrite IH. }
  unfold store_ok, storage_wf, valueCount, getById in *. simpl.
  rewrite Hi, Hs, Hl, Hv, <- Hi, <- Hs. split_and!; try done; try lia.
  intros vid _. by rewrite !Hg, Hv.
Qed.

Lemma st_set_values_same st : st_set_values (st_values st) (st_total st) st = st.
Proof. by destruct st. Qed.

Lemma store_contract id value created expiration sb st bs :
  storage_wf st ->
  let '(changed, d, st', _) := st_store id value created expiration sb st bs in
  store_ok value changed d st st' /\
  (changed = false <->
   getById (id_of value) st = Some value \/
   (getById (id_of value) st = None /\ valueCount st = MAX_VALUES)).
Proof.
  intros Hst. unfold st_store, getById.
  destruct (find_value (same_value value) (st_values st)) as [[[l it] r]|] eqn:E.
  - apply find_value_Some in E as (Hv & Hp & Hl). apply same_value_id in Hp as Hid.
    assert (Hg : getById_in (id_of value) (st_values st) = Some (vs_data it)).
    { rewrite Hv, getById_app_ne by by apply not_same_values. simpl. by rewrite Hid, Z.eqb_refl. }
    rewrite Hg. destruct (bool_decide_reflect (vs_data it = value)) as [Hd|Hd].
    + split; [|split; [intros _; left; by rewrite Hd|done]]. apply unchanged_ok; [done|].
      by rewrite Hv, !map_app.
    + split; [by apply replace_ok|]. split; [done|]. intros [[= ?]|[? _]]; done.
  - apply find_value_None in E. pose proof (not_same_values _ _ E) as Hid.
    rewrite (getById_None _ _ Hid). destruct (Z.ltb_spec (valueCount st) MAX_VALUES).
    + split; [by apply insert_ok|]. split; [done|]. intros [|[_ ?]]; [done|lia].
    + pose proof (unchanged_ok value (st_values st) st Hst eq_refl) as Hu.
      rewrite st_set_values_same in Hu. split; [done|]. split; [|done]. intros _. right.
      destruct Hst as (Hc & _). split; [done|lia].
Qed.

(** [store] keeps the invariant (at most 1024 values, distinct ids, an exact
    total) and reports exactly what it did: the differences returned are those of
    the total size and of the number of values; when it reports a change the value
    is found under its id, when it does not the stored values are the same; no
    other id is affected.  It refuses exactly a value that is already stored, and
    a new id when the storage is full. *)
Theorem store_spec id value created expiration sb st bs :
  storage_wf st ->
  let '(changed, d, st', _) := st_store id value created expiration sb st bs in
  store_ok value changed d st st' /\
  (changed = false <->
   getById (id_of value) st = Some value \/
   (getById (id_of value) st = None /\ valueCount st = MAX_VALUES)).
Proof. apply store_contract. Qed.

(** ** Removal and expiry *)

Lemma remove_parts vid l it r :
  NoDup (ids (l ++ it :: r)) -> id_of (vs_data it) = vid ->
  Forall (fun v => id_of (vs_data v) <> vid) (l ++ r).
Proof.
  intros Hn <-. rewrite ids_app in Hn. simpl in Hn. apply NoDup_app in Hn as (_ & Hlr & Hr).
  apply NoDup_cons in Hr as [Hr _]. rewrite Forall_forall. intros v Hv He.
  apply elem_of_app in Hv as [Hv|Hv].
  - apply (Hlr (id_of (vs_data v))); [|rewrite He; by left].
    apply list_elem_of_In, in_map_iff. exists v. split; [done|by apply list_elem_of_In].
  - apply Hr. rewrite <- He. apply list_elem_of_In, in_map_iff. exists v. split; [done|by apply list_elem_of_In].
Qed.

Lemma getById_drop vid l it r :
  id_of (vs_data it) <> vid -> getById_in vid (l ++ it :: r) = getById_in vid (l ++ r).
Proof.
  intros. induction l as [|x l IH]; simpl; [|by rewrite IH].
  by destruct (Z.eqb_spec (id_of (vs_data it)) vid).
Qed.

Lemma remove_wf l it r st :
  storage_wf st -> st_values st = l ++ it :: r ->
  storage_wf (st_set_values (l ++ r) (u64 (st_total st - size_of (vs_data it))) st).
Proof.
  intros (Hc & Hn & Ht) Hv. unfold storage_wf, valueCount in *. simpl. rewrite Hv in *.
  rewrite ids_app, sizes_app, length_app in *. simpl in *. split_and!; [lia| |].
  - apply NoDup_app in Hn as (H1 & H2 & H3). apply NoDup_cons in H3 as [_ H3].
    apply NoDup_app. split_and!; try done. intros x Hx Hx'. apply (H2 x Hx). by right.
  - rewrite Ht. unfold Z.sub. rewrite u64_add. f_equal. unfold sizes. simpl. lia.
Qed.

Lemma remove_ok id vid st bs :
  storage_wf st ->
  let '(d, st', _) := st_remove id vid st bs in
  storage_wf st' /\ st_total st' = u64 (st_total st + size_diff d) /\
  valueCount st' = valueCount st + values_diff d /\ getById vid st' = None /\
  (forall i, i <> vid -> getById i st' = getById i st) /\
  (values_diff d = 0 <-> getById vid st = None).
Proof.
  intros Hst. unfold st_remove, getById.
  destruct (find_value _ (st_values st)) as [[[l it] r]|] eqn:E.
  - apply find_value_Some in E as (Hv & Hp & Hl). apply Z.eqb_eq in Hp as Hid.
    pose proof Hst as (_ & Hn & _). rewrite Hv in Hn.
    pose proof (remove_parts vid l it r Hn Hid) as Hne. split_and!.
    + by apply remove_wf.
    + done.
    + unfold valueCount. simpl. rewrite Hv, !length_app. simpl. lia.
    + by apply getById_None.
    + intros i Hi. simpl. rewrite Hv. symmetry. apply getById_drop. congruence.
    + simpl. apply Forall_app in Hne as [Hne _]. rewrite Hv, getById_app_ne by done. simpl.
      by rewrite Hid, Z.eqb_refl.
  - apply find_value_None in E. assert (Hne : Forall (fun v => id_of (vs_data v) <> vid) (st_values st)).
    { eapply Forall_impl; [exact E|]. simpl. intros v Hv. by apply Z.eqb_neq. }
    rewrite (getById_None _ _ Hne). simpl. split_and!; try done; [by rewrite u64_total|lia].
Qed.

(** ** Accounting per bucket *)

(** The size of the values charged to a bucket. *)
Definition charged (k : bptr) (vs : list ValueStorage) : Z :=
  foldr (fun v a => (if bool_decide (vs_bucket v = Some k) then size_of (vs_data v) else 0) + a) 0 vs.

Definition bucket_total (k : bptr) (bs : Buckets) : option Z := sb_total <$> bs !! k.

(** Bucket [k] moved by [e k] more than the values charged to it did. *)
Definition accounted (e : bptr -> Z) (vs vs' : list ValueStorage) (bs bs' : Buckets) : Prop :=
  forall k t, bucket_total k bs = Some t ->
    exists t', bucket_total k bs' = Some t' /\ u64 t' = u64 (t + charged k vs' - charged k vs + e k).

Lemma charged_app k l r : charged k (l ++ r) = charged k l + charged k r.
Proof. unfold charged. induction l as [|v l IH]; simpl; lia. Qed.
Lemma charged_cons k v r :
  charged k (v :: r) = (if bool_decide (vs_bucket v = Some k) then size_of (vs_data v) else 0) + charged k r.
Proof. done. Qed.
Lemma charged_perm k l r : l ≡ₚ r -> charged k l = charged k r.
Proof. unfold charged. induction 1; simpl; lia. Qed.

Lemma u64_u64 a : u64 (u64 a) = u64 a.
Proof. unfold wrap. by rewrite Z.mod_mod. Qed.

Lemma u64_ext a b : a = b -> u64 a = u64 b.
Proof. by intros ->. Qed.

(** One bucket operation that moves the total by [d]. *)
Lemma with_bucket_total b f d bs k t :
  (forall x, sb_total (f x) = u64 (sb_total x + d)) -> bucket_total k bs = Some t ->
  exists t', bucket_total k (with_bucket b f bs) = Some t' /\
    u64 t' = u64 (t + if bool_decide (b = Some k) then d else 0).
Proof.
  intros Hf Ht. unfold bucket_total in *. destruct b as [k'|]; simpl.
  - destruct (decide (k' = k)) as [-> |Hne].
    + rewrite lookup_alter_eq. destruct (bs !! k) as [x|]; [|done]. simpl in *.
      injection Ht as <-. eexists. split; [done|]. rewrite Hf, bool_decide_true by done. apply u64_u64.
    + rewrite lookup_alter_ne by done. exists t. split; [done|].
      rewrite bool_decide_false by congruence. f_equal. lia.
  - exists t. split; [done|]. apply u64_ext. lia.
Qed.

Lemma sb_erase_total id v e x : sb_total (sb_erase id v e x) = u64 (sb_total x + - size_of v).
Proof. done. Qed.
Lemma sb_insert_total id v e x : sb_total (sb_insert id v e x) = u64 (sb_total x + size_of v).
Proof. done. Qed.

(** Equal modulo [2 ^ 64] is a congruence for addition. *)
Lemma u64_plus a b d : u64 a = u64 b -> u64 (a + d) = u64 (b + d).
Proof. intros H. rewrite <- (u64_add a d), H. apply u64_add. Qed.

Lemma expire_values_spec id drop : forall d bs,
  (expire_values id drop d bs).1 = d - sizes drop /\
  forall k t, bucket_total k bs = Some t ->
    exists t', bucket_total k (expire_values id drop d bs).2 = Some t' /\ u64 t' = u64 (t - charged k drop).
Proof.
  induction drop as [|v drop IH]; intros d bs; simpl.
  - split; [unfold sizes; simpl; lia|]. intros k t Ht. exists t. split; [done|]. f_equal. lia.
  - destruct (IH (d - size_of (vs_data v))
      (with_bucket (vs_bucket v) (sb_erase id (vs_data v) (vs_expiration v)) bs)) as [Hd Hb].
    split; [rewrite Hd; unfold sizes; simpl; lia|]. intros k t Ht.
    destruct (with_bucket_total (vs_bucket v) (sb_erase id (vs_data v) (vs_expiration v)) _ bs k t
      (sb_erase_total _ _ _) Ht) as (t1 & Ht1 & He1).
    destruct (Hb k t1 Ht1) as (t2 & Ht2 & He2). exists t2. split; [done|]. rewrite He2.
    unfold Z.sub. rewrite (u64_plus _ _ _ He1). apply u64_ext. destruct (bool_decide _); lia.
Qed.

Lemma expire_contract `{Partition} id now st bs :
  storage_wf st ->
  let '(d, dropped, st', bs') := st_expire id now st bs in
  storage_wf st' /\ st_total st' = u64 (st_total st + d) /\
  (exists drop, st_values st ≡ₚ st_values st' ++ drop /\ dropped = map vs_data drop /\ d = - sizes drop /\
     Forall (fun v => vs_expiration v <= now) drop) /\
  Forall (fun v => now < vs_expiration v) (st_values st') /\
  Forall (fun e => e.2 <> [] /\ Forall (fun l => now <= l_time l.2 + NODE_EXPIRE_TIME) e.2) (st_listeners st') /\
  accounted (fun _ => 0) (st_values st) (st_values st') bs bs'.
Proof.
  intros (Hc & Hn & Ht). unfold st_expire. cbn [st_values st_set_listeners st_total].
  pose proof (partition_perm (fun v => now <? vs_expiration v) (st_values st)) as Hp.
  pose proof (partition_left (fun v => now <? vs_expiration v) (st_values st)) as Hl.
  pose proof (partition_right (fun v => now <? vs_expiration v) (st_values st)) as Hr.
  destruct (partition _ (st_values st)) as [keep drop]. simpl in Hp, Hl, Hr.
  destruct (expire_values_spec id drop 0 bs) as [Hd Hb].
  destruct (expire_values id drop 0 bs) as [d bs'] eqn:E. simpl in Hd, Hb. subst d.
  assert (Hids : NoDup (ids keep)).
  { assert (ids (keep ++ drop) ≡ₚ ids (st_values st)) as Hi by (unfold ids; by rewrite Hp).
    rewrite <- Hi, ids_app in Hn. by apply NoDup_app in Hn as (? & _). }
  assert (Hsz : sizes keep + sizes drop = sizes (st_values st)) by (rewrite <- sizes_app; by apply sizes_perm).
  assert (Hlen : (length keep + length drop)%nat = length (st_values st))
    by (rewrite <- length_app; by apply Permutation_length).
  unfold storage_wf, valueCount in *. cbn [st_values st_set_values st_total st_listeners st_set_listeners].
  split_and!; try done; try lia.
  - rewrite Ht, u64_add. f_equal. lia.
  - exists drop. split_and!; [by symmetry|done|lia|]. eapply Forall_impl; [exact Hr|]. simpl. intros. by zb.
  - eapply Forall_impl; [exact Hl|]. simpl. intros. by zb.
  - apply Forall_forall. intros [p ls] He%list_elem_of_In%List.filter_In. destruct He as [He Hne]. simpl in *.
    split; [by destruct ls|]. apply in_map_iff in He as ([p' ls'] & [= -> <-] & _).
    apply Forall_forall. intros l Hx%list_elem_of_In%List.filter_In. destruct Hx as [_ Hx]. by zb.
  - intros k t Hk. destruct (Hb k t Hk) as (t' & Ht' & He'). exists t'. split; [done|]. rewrite He'.
    apply u64_ext. rewrite <- (charged_perm k _ _ Hp), charged_app. lia.
Qed.

(** [expire] drops exactly the values whose time has come: those kept are the
    stored values that expire later, those returned are the others, the size
    difference returned is the size of those, the invariant is kept; every listener
    kept was refreshed within the last ten minutes; and every bucket moves by
    exactly what the dropped values had been charged. *)
Theorem expire_spec `{Partition} id now st bs :
  storage_wf st ->
  let '(d, dropped, st', bs') := st_expire id now st bs in
  storage_wf st' /\ st_total st' = u64 (st_total st + d) /\
  (exists drop, st_values st ≡ₚ st_values st' ++ drop /\ dropped = map vs_data drop /\ d = - sizes drop /\
     Forall (fun v => vs_expiration v <= now) drop) /\
  Forall (fun v => now < vs_expiration v) (st_values st') /\
  Forall (fun e => e.2 <> [] /\ Forall (fun l => now <= l_time l.2 + NODE_EXPIRE_TIME) e.2) (st_listeners st') /\
  accounted (fun _ => 0) (st_values st) (st_values st') bs bs'.
Proof. apply expire_contract. Qed.

(** [remove] takes out exactly the value with the given id and reports it (the
    number of values changes exactly when the id was stored), keeps the invariant,
    and releases from every bucket exactly what the value had been charged. *)
Theorem remove_spec id vid st bs :
  storage_wf st ->
  let '(d, st', bs') := st_remove id vid st bs in
  storage_wf st' /\ st_total st' = u64 (st_total st + size_diff d) /\
  valueCount st' = valueCount st + values_diff d /\ getById vid st' = None /\
  (forall i, i <> vid -> getById i st' = getById i st) /\
  (values_diff d = 0 <-> getById vid st = None) /\
  accounted (fun _ => 0) (st_values st) (st_values st') bs bs'.
Proof.
  intros Hst. pose proof (remove_ok id vid st bs Hst) as Hok.
  assert (Hacc : let '(d, st', bs') := st_remove id vid st bs in
    accounted (fun _ => 0) (st_values st) (st_values st') bs bs').
  { unfold st_remove. destruct (find_value _ (st_values st)) as [[[l it] r]|] eqn:E.
    - apply find_value_Some in E as (Hv & _). intros k t Ht. simpl. rewrite Hv.
      destruct (with_bucket_total (vs_bucket it) (sb_erase id (vs_data it) (vs_expiration it)) _ bs k t
        (sb_erase_total _ _ _) Ht) as (t1 & Ht1 & He1). exists t1. split; [done|]. rewrite He1.
      apply u64_ext. rewrite !charged_app, charged_cons. destruct (bool_decide _); lia.
    - intros k t Ht. exists t. split; [done|]. apply u64_ext. lia. }
  destruct (st_remove id vid st bs) as [[d st'] bs']. tauto.
Qed.

(** What [store] charges: adding a new value charges its size to its bucket,
    but replacing a stored value leaves an error in the bucket of the old one: it
    is credited the size of the new value instead of the old value's, so the usage
    of that bucket stays off by the difference of the two sizes. *)
Theorem store_accounting id value created expiration sb st bs :
  let '(_, _, st', bs') := st_store id value created expiration sb st bs in
  accounted (fun k =>
      match find_value (same_value value) (st_values st) with
      | Some (_, it, _) => if bool_decide (vs_bucket it = Some k) then size_of (vs_data it) - size_of value else 0
      | None => 0
      end) (st_values st) (st_values st') bs bs'.
Proof.
  unfold st_store. destruct (find_value _ (st_values st)) as [[[l it] r]|] eqn:E.
  - apply find_value_Some in E as (Hv & _).
    destruct (bool_decide_reflect (vs_data it = value)) as [Hd|Hd].
    + intros k t Ht. exists t. split; [done|]. apply u64_ext. simpl. rewrite Hv, !charged_app, !charged_cons.
      simpl. rewrite Hd. destruct (bool_decide _); lia.
    + intros k t Ht. simpl.
      destruct (with_bucket_total (vs_bucket it) (sb_erase id value (vs_expiration it)) _ bs k t
        (sb_erase_total _ _ _) Ht) as (t1 & Ht1 & He1).
      destruct (with_bucket_total sb (sb_insert id value expiration) _ _ k t1
        (sb_insert_total _ _ _) Ht1) as (t2 & Ht2 & He2).
      exists t2. split; [done|]. rewrite He2, (u64_plus _ _ _ He1), Hv. apply u64_ext.
      rewrite !charged_app, !charged_cons. simpl. repeat destruct (bool_decide _); lia.
  - destruct (valueCount st <? MAX_VALUES).
    + intros k t Ht. simpl.
      destruct (with_bucket_total sb (sb_insert id value expiration) _ bs k t
        (sb_insert_total _ _ _) Ht) as (t1 & Ht1 & He1).
      exists t1. split; [done|]. rewrite He1. apply u64_ext. rewrite charged_app, charged_cons.
      change (charged k []) with 0. cbn [vs_bucket vs_data]. destruct (bool_decide _); lia.
    + intros k t Ht. exists t. split; [done|]. apply u64_ext. lia.
Qed.
End Storage.

(** ** A concrete heap *)

#[local] Existing Instance GnutlsDemo.demo.

Module StorageDemo.

#[global] Instance stable_partition : Partition.
Proof.
  refine {| partition A p l := (List.filter p l, List.filter (fun x => negb (p x)) l) |}; simpl; intros A p l.
  - induction l as [|x l IH]; [done|]. simpl. destruct (p x); simpl; [by rewrite IH|].
    rewrite <- Permutation_middle. by rewrite IH.
  - apply Forall_forall. intros x Hx%list_elem_of_In%List.filter_In. apply Hx.
  - apply Forall_forall. intros x Hx%list_elem_of_In%List.filter_In.
    destruct Hx as [_ Hx]. by apply negb_true_iff in Hx.
Defined.

(** Four values of 10, 20, 30 and 90 bytes, with ids 1 to 4. *)
Definition heap (p : positive) : @Value GnutlsDemo.demo :=
  @mkValue GnutlsDemo.demo (Zpos p) None (Hash_zero HASH_LEN) 0
    (replicate (match p with 1%positive => 10 | 2%positive => 20 | 3%positive => 30 | _ => 90 end) 7) [] 0 [] [] 0.

Definition key : Hash := replicate 20 5.

Lemma key_wf : wf_hash HASH_LEN key.
Proof. by_compute. Qed.

(** Two values of one bucket, expiring at 100 and 200. *)
Definition two : Storage :=
  mkStorage 0 [] [] 1 [mkVS 1 0 100 (Some 9%positive); mkVS 2 0 200 (Some 9%positive)] 30.
Definition one_bucket : Buckets := {[ 9%positive := mkBucket [(100, (key, 1)); (200, (key, 2))] 30 ]}.

Lemma two_wf : storage_wf heap two.
Proof. split_and!; [done| |done]. vm_compute. repeat constructor; set_solver. Qed.
End StorageDemo.

Lemma store_spec_witness :
  let '(changed, d, st', _) :=
    st_store StorageDemo.heap StorageDemo.key 3 0 300 None StorageDemo.two StorageDemo.one_bucket in
  changed = true /\ size_diff d = 30 /\ getById StorageDemo.heap 3 st' = Some 3%positive.
Proof.
  pose proof (store_spec StorageDemo.heap StorageDemo.key 3 0 300 None StorageDemo.two StorageDemo.one_bucket
    StorageDemo.two_wf) as H.
  split_and!; [reflexivity|reflexivity|]. destruct H as [(_ & _ & _ & H & _) _]. exact (H eq_refl).
Defined.

Lemma expire_spec_witness :
  let '(d, dropped, st', _) := st_expire StorageDemo.heap StorageDemo.key 150 StorageDemo.two StorageDemo.one_bucket in
  d = -10 /\ dropped = [1%positive] /\ Forall (fun v => 150 < vs_expiration v) (st_values st').
Proof.
  pose proof (expire_spec StorageDemo.heap StorageDemo.key 150 StorageDemo.two StorageDemo.one_bucket
    StorageDemo.two_wf) as H.
  split_and!; [reflexivity|reflexivity|]. destruct H as (_ & _ & _ & H & _). exact H.
Defined.

Lemma remove_spec_witness :
  let '(d, st', _) := st_remove StorageDemo.heap StorageDemo.key 1 StorageDemo.two StorageDemo.one_bucket in
  size_diff d = -10 /\ getById StorageDemo.heap 1 st' = None.
Proof.
  pose proof (remove_spec StorageDemo.heap StorageDemo.key 1 StorageDemo.two StorageDemo.one_bucket
    StorageDemo.two_wf) as H.
  split; [reflexivity|]. destruct H as (_ & _ & _ & H & _). exact H.
Defined.
