(* ===== verification/DhtStorage.v ===== *)
(** * DhtStorage: the storage layer of a DHT node

    Models the storage operations of src/opendht-2.1.4/src/dht.cpp
    ([storageStore], [storageChanged], [storageErase], [storageAddListener], the
    three [expireStore]s and [expireStorage]) on the members they use, and
    [TypeStore] of value.h.  The quota map [store_quota] gives each IP a bucket;
    a [StorageBucket*] is the key of a bucket, and the quota maps an address to it.
    What a node sends to listeners, the local callbacks and the jobs it schedules
    are entries of a log; a callback does not change the store.  The loops of
    [expireStore] that need not end take fuel. *)
From S2P Require Import Prelude InfoHash StdMap SockAddr Node MsgPack Value Query Storage.

#[export] Instance ValueStorage_eq_dec : EqDecision ValueStorage.
Proof. solve_decision. Defined.

(** ** Value types *)

(** The expiration of a [ValueType], in nanoseconds: the constructors with a name
    take minutes, the member initialiser of a default-constructed type is a bare
    count of clock ticks. *)
Definition USER_DATA_expiration : Z := minutes 10.
Definition ValueType_default_expiration : Z := 60 * 10.

(** [TypeStore]: the registered types by id, with their expiration. *)
Definition registerType (id expiration : Z) (types : list (Z * Z)) : list (Z * Z) :=
  om_set Z.ltb id expiration types.
Definition getType (types : list (Z * Z)) (id : Z) : Z :=
  default USER_DATA_expiration (om_find Z.ltb id types).

(** ** State *)

Inductive notice :=
| NLocal (cb : nat) (vals : list positive) (expired : bool)
| NRemote (node : positive) (sid : Z) (id : Hash) (vals : list positive) (version : Z)
| NRemoteExpired (node : positive) (sid : Z) (id : Hash) (ids : list Z) (version : Z)
| NRemoteRefreshed (node : positive) (sid : Z) (id : Hash) (ids : list Z) (version : Z)
| NScheduleExpire (t : Z) (id : Hash)
| NSchedulePersistence (t : Z) (id : Hash).

Section DhtStorage.
Context {G : Gnutls} (AF_INET6 : Z) (deref : vptr -> Value) {PA : Partition} (types : list (Z * Z)).

Record DhtStore := mkDS {
  ds_now : Z;
  ds_store : list (Hash * Storage);
  ds_quota : list (SockAddr * bptr);
  ds_buckets : Buckets;
  ds_next : bptr;
  ds_values : Z;
  ds_size : Z;
  ds_max_keys : Z;
  ds_max_size : Z;
  ds_maintain : bool;
  ds_log : list notice;
}.

(** Field updates. *)
Definition ds_set_store (s : list (Hash * Storage)) (d : DhtStore) : DhtStore :=
  mkDS (ds_now d) s (ds_quota d) (ds_buckets d) (ds_next d) (ds_values d) (ds_size d)
       (ds_max_keys d) (ds_max_size d) (ds_maintain d) (ds_log d).
Definition ds_set_buckets (b : Buckets) (d : DhtStore) : DhtStore :=
  mkDS (ds_now d) (ds_store d) (ds_quota d) b (ds_next d) (ds_values d) (ds_size d)
       (ds_max_keys d) (ds_max_size d) (ds_maintain d) (ds_log d).
Definition ds_set_quota (q : list (SockAddr * bptr)) (b : Buckets) (n : bptr) (d : DhtStore) : DhtStore :=
  mkDS (ds_now d) (ds_store d) q b n (ds_values d) (ds_size d)
       (ds_max_keys d) (ds_max_size d) (ds_maintain d) (ds_log d).

(** [total_store_size += ds; total_values += dv]. *)
Definition ds_count (ds dv : Z) (d : DhtStore) : DhtStore :=
  mkDS (ds_now d) (ds_store d) (ds_quota d) (ds_buckets d) (ds_next d) (u64 (ds_values d + dv))
       (u64 (ds_size d + ds)) (ds_max_keys d) (ds_max_size d) (ds_maintain d) (ds_log d).
Definition ds_notify (ns : list notice) (d : DhtStore) : DhtStore :=
  mkDS (ds_now d) (ds_store d) (ds_quota d) (ds_buckets d) (ds_next d) (ds_values d) (ds_size d)
       (ds_max_keys d) (ds_max_size d) (ds_maintain d) (ds_log d ++ ns).

Definition find_storage (id : Hash) (d : DhtStore) : option Storage := om_find op_lt id (ds_store d).
Definition put_storage (id : Hash) (st : Storage) (d : DhtStore) : DhtStore :=
  ds_set_store (om_set op_lt id st (ds_store d)) d.

(** [storageChanged]: the local listeners hear of new values, the remote ones of
    every change. *)
Definition storageChanged (id : Hash) (st : Storage) (v : vptr) (newValue : bool) : list notice :=
  (if newValue then
     map (fun l => NLocal (ll_cb l.2) [v] false)
       (List.filter (fun l => passes (ll_filter l.2) (deref v)) (st_local st))
   else []) ++
  concat (map (fun nl =>
    map (fun l => NRemote nl.1 l.1 id [v] (l_version l.2))
      (List.filter (fun l => passes (getFilter (q_where (l_query l.2))) (deref v)) nl.2))
    (st_listeners st)).

(** [storageErase]. *)
Definition storageErase (id : Hash) (vid : Z) (d : DhtStore) : bool * DhtStore :=
  match find_storage id d with
  | None => (false, d)
  | Some st =>
      let '(diff, st', bs') := st_remove deref id vid st (ds_buckets d) in
      (negb (values_diff diff =? 0),
       ds_count (size_diff diff) (values_diff diff) (ds_set_buckets bs' (put_storage id st' d)))
  end.

(** [storageAddListener]. *)
Definition storageAddListener (id : Hash) (node : positive) (sid : Z) (q : Query) (version : Z)
    (d : DhtStore) : DhtStore :=
  let found := match find_storage id d with
               | Some st => Some st
               | None => if ds_max_keys d <=? Z.of_nat (length (ds_store d)) then None
                         else Some (Storage_make (ds_now d))
               end in
  match found with
  | None => d
  | Some st =>
      let ptr_lt a b := Pos.ltb a b in
      let nls := default [] (om_find ptr_lt node (st_listeners st)) in
      match om_find Z.ltb sid nls with
      | None =>
          let vals := st_get deref (getFilter (q_where q)) st in
          let ns := match vals with [] => [] | _ => [NRemote node sid id vals version] end in
          let nls' := om_set Z.ltb sid (mkListener (ds_now d) q version) nls in
          ds_notify ns (put_storage id (st_set_listeners (om_set ptr_lt node nls' (st_listeners st)) st) d)
      | Some l =>
          let nls' := om_set Z.ltb sid (listener_refresh (ds_now d) q l) nls in
          put_storage id (st_set_listeners (om_set ptr_lt node nls' (st_listeners st)) st) d
      end
  end.

(** [storageRefresh]: the remote listeners hear of it first. *)
Definition storageRefresh (id : Hash) (vid : Z) (d : DhtStore) : bool * DhtStore :=
  match find_storage id d with
  | None => (false, d)
  | Some st =>
      let ns := concat (map (fun nl =>
                  map (fun l => NRemoteRefreshed nl.1 l.1 id [vid] (l_version l.2)) nl.2) (st_listeners st)) in
      let '(expiration, st') := refresh deref (ds_now d) vid (getType types) st in
      let sched := if expiration =? time_max then [] else [NScheduleExpire expiration id] in
      (true, ds_notify (ns ++ sched) (put_storage id st' d))
  end.

(** What [expireStore(i)] announces. *)
Definition expired_notices (id : Hash) (st : Storage) (dropped : list vptr) : list notice :=
  match dropped with
  | [] => []
  | _ =>
      concat (map (fun nl =>
        map (fun l => NRemoteExpired nl.1 l.1 id (map (id_of deref) dropped) (l_version l.2)) nl.2)
        (st_listeners st)) ++
      map (fun l => NLocal (ll_cb l.2) dropped true) (st_local st)
  end.

(** [expireStore(i)]: expire one storage, with the counters and announcements. *)
Definition expireStore_one (id : Hash) (st : Storage) (d : DhtStore) : Storage * DhtStore :=
  let '(ds, dropped, st', bs') := st_expire deref id (ds_now d) st (ds_buckets d) in
  (st', ds_notify (expired_notices id st' dropped)
          (ds_count ds (- Z.of_nat (length dropped)) (ds_set_buckets bs' d))).

(** [expireStorage]. *)
Definition expireStorage (h : Hash) (d : DhtStore) : DhtStore :=
  match find_storage h d with
  | Some st => let '(st', d') := expireStore_one h st d in put_storage h st' d'
  | None => d
  end.

(** A storage that can be discarded. *)
Definition st_unused (st : Storage) : bool :=
  st_empty st && match st_listeners st with [] => true | _ => false end
  && match st_local st with [] => true | _ => false end.

(** The first loop of [expireStore()]: the storages kept, in order. *)
Fixpoint expire_each (l : list (Hash * Storage)) (d : DhtStore) : list (Hash * Storage) * DhtStore :=
  match l with
  | [] => ([], d)
  | (id, st) :: l' =>
      let '(st', d1) := expireStore_one id st d in
      let '(kept, d2) := expire_each l' d1 in
      (if st_unused st' then kept else (id, st') :: kept, d2)
  end.

(** The size of a bucket; [None] when the quota entry has none. *)
Definition usage (d : DhtStore) (b : bptr) : Z := default 0 (sb_total <$> ds_buckets d !! b).

(** The search for the largest consumer: [for (it = ++largest; ...)] moves [largest]
    itself past the first entry, to the end when it is the only one. *)
Definition largest_consumer (d : DhtStore) : outcome (SockAddr * bptr) :=
  match ds_quota d with
  | [] | [_] => Undef "dereference of store_quota.end()"
  | _ :: e :: rest =>
      Ret (foldl (fun largest it => if usage d largest.2 <? usage d it.2 then it else largest) e (e :: rest))
  end.

(** The inner [while (true)]: discard the oldest value of a consumer. *)
Fixpoint discard_oldest (fuel : nat) (b : bptr) (d : DhtStore) : option (outcome DhtStore) :=
  match fuel with
  | O => None
  | S fuel' =>
      match getOldest (default Bucket_make (ds_buckets d !! b)) with
      | Ret (id, vid) =>
          match find_storage id d with
          | Some st =>
              let '(diff, st', bs') := st_remove deref id vid st (ds_buckets d) in
              let d' := ds_count (size_diff diff) (values_diff diff)
                          (ds_set_buckets bs' (put_storage id st' d)) in
              if negb (values_diff diff =? 0) then Some (Ret d') else discard_oldest fuel' b d'
          | None => discard_oldest fuel' b d
          end
      | Throw w => Some (Throw w) | Undef w => Some (Undef w) | Terminate w => Some (Terminate w)
      end
  end.

(** The second loop: discard while the limit is exceeded. *)
Fixpoint shrink (fuel : nat) (d : DhtStore) : option (outcome DhtStore) :=
  match fuel with
  | O => None
  | S fuel' =>
      if ds_size d <=? ds_max_size d then Some (Ret d)
      else match ds_quota d with
           | [] => Some (Ret d)
           | _ =>
               match largest_consumer d with
               | Ret (_, b) =>
                   match discard_oldest fuel' b d with
                   | Some (Ret d') => shrink fuel' d'
                   | r => r
                   end
               | Throw w => Some (Throw w) | Undef w => Some (Undef w) | Terminate w => Some (Terminate w)
               end
           end
  end.

(** The third loop: quota entries that count nothing go, with their buckets. *)
Definition drop_unused_quota (d : DhtStore) : DhtStore :=
  let unused b := usage d b =? 0 in
  ds_set_quota (List.filter (fun e => negb (unused e.2)) (ds_quota d))
    (foldr (fun e bs => if unused e.2 then delete e.2 bs else bs) (ds_buckets d) (ds_quota d))
    (ds_next d) d.

(** [expireStore()]. *)
Definition expireStore (fuel : nat) (d : DhtStore) : option (outcome DhtStore) :=
  let '(kept, d1) := expire_each (ds_store d) d in
  match shrink fuel (ds_set_store kept d1) with
  | Some (Ret d2) => Some (Ret (drop_unused_quota d2))
  | r => r
  end.

(** [&store_quota[sa]]: the bucket of the address, made when missing. *)
Definition quota_bucket (sa : SockAddr) (d : DhtStore) : bptr * DhtStore :=
  match om_find (ipCmp AF_INET6) sa (ds_quota d) with
  | Some b => (b, d)
  | None =>
      (ds_next d, ds_set_quota (om_set (ipCmp AF_INET6) sa (ds_next d) (ds_quota d))
                    (<[ds_next d := Bucket_make]> (ds_buckets d)) (Pos.succ (ds_next d)) d)
  end.

(** The storage of a key, made when the number of keys allows. *)
Definition find_or_make (id : Hash) (d : DhtStore) : option (Storage * DhtStore) :=
  match find_storage id d with
  | Some st => Some (st, d)
  | None =>
      if ds_max_keys d <=? Z.of_nat (length (ds_store d)) then None
      else
        let st := Storage_make (ds_now d) in
        let d1 := put_storage id st d in
        Some (st, if ds_maintain d then ds_notify [NSchedulePersistence (st_maintenance st) id] d1 else d1)
  end.

(** The first part of [storageStore], up to the counters and the expiry job: [None]
    when there is no room for the key, else whether the storage changed, the storage,
    whether the value is new, and the node. *)
Definition store_value (id : Hash) (value : vptr) (created expiration : Z) (sa : option SockAddr)
    (permanent : bool) (d : DhtStore) : option (bool * Storage * bool * DhtStore) :=
  match find_or_make id d with
  | None => None
  | Some (st, d1) =>
      let '(sb, d2) := match sa with
                       | Some a => let '(b, d') := quota_bucket a d1 in (Some b, d')
                       | None => (None, d1)
                       end in
      let '(changed, diff, st', bs') := st_store deref id value created expiration sb st (ds_buckets d2) in
      let d3 := ds_set_buckets bs' (put_storage id st' d2) in
      if negb changed then Some (false, st', false, d3)
      else
        let d4 := ds_count (size_diff diff) (values_diff diff) d3 in
        Some (true, st', 0 <? values_diff diff,
              if permanent then d4 else ds_notify [NScheduleExpire expiration id] d4)
  end.

(** [storageStore]; [sa] is [None] for a local value.  The pointer to the stored
    value that [storageChanged] is given is used after [expireStore()], which may
    have rearranged or erased the vector it points into. *)
Definition storageStore (fuel : nat) (id : Hash) (value : vptr) (created : Z) (sa : option SockAddr)
    (permanent : bool) (d : DhtStore) : option (outcome (bool * DhtStore)) :=
  let created := Z.min created (ds_now d) in
  let expiration := if permanent then time_max else created + getType types (v_type (deref value)) in
  if expiration <? ds_now d then Some (Ret (false, d))
  else
    match store_value id value created expiration sa permanent d with
    | None => Some (Ret (false, d))
    | Some (false, _, _, d3) => Some (Ret (false, d3))
    | Some (true, st', isnew, d5) =>
        if ds_max_size d5 <? ds_size d5 then
          match expireStore fuel d5 with
          | Some (Ret d6) =>
              match find_storage id d6 with
              | Some st6 =>
                  if decide (st_values st6 = st_values st')
                  then Some (Ret (true, ds_notify (storageChanged id st6 value isnew) d6))
                  else Some (Undef "dangling ValueStorage")
              | None => Some (Undef "dangling Storage")
              end
          | Some (Throw w) => Some (Throw w) | Some (Undef w) => Some (Undef w)
          | Some (Terminate w) => Some (Terminate w)
          | None => None
          end
        else Some (Ret (true, ds_notify (storageChanged id st' value isnew) d5))
    end.

(** ** The counters of the node *)

Abbreviation store_map_wf := (om_wf op_lt (wf_hash HASH_LEN)).

(** The sum of a measure over the storages. *)
Definition osum (f : Storage -> Z) (l : list (Hash * Storage)) : Z := foldr (fun e a => f e.2 + a) 0 l.

Lemma osum_set f k st l :
  wf_hash HASH_LEN k -> store_map_wf l ->
  osum f (om_set op_lt k st l) =
  osum f l + f st - match om_find op_lt k l with Some st0 => f st0 | None => 0 end.
Proof.
  intros Hk. induction l as [|[k' v'] l IH]; simpl; [lia|].
  rewrite (om_wf_cons op_lt (wf_hash HASH_LEN)). intros (Hk' & Hl & _).
  destruct (op_lt k k'); simpl; [lia|]. destruct (op_lt k' k); simpl; [|lia]. rewrite IH by done. lia.
Qed.

Definition st_size (st : Storage) : Z := sizes deref (st_values st).

Lemma Forall_om_set (P : Storage -> Prop) k st l :
  P st -> Forall (fun e => P e.2) l -> Forall (fun e => P e.2) (om_set op_lt k st l).
Proof.
  intros Hst. induction 1 as [|[k' v'] l Hv Hl IH]; simpl; [by repeat constructor|].
  repeat case_match; repeat constructor; done.
Qed.

Lemma Forall_om_find (P : Storage -> Prop) k st l :
  Forall (fun e => P e.2) l -> om_find op_lt k l = Some st -> P st.
Proof.
  induction 1 as [|[k' v'] l Hv Hl IH]; simpl; [done|]. repeat case_match; try done. by intros [= <-].
Qed.

(** The invariant: every storage is well formed, the counters are the sums over
    the storages. *)
Definition ds_wf (d : DhtStore) : Prop :=
  store_map_wf (ds_store d) /\ Forall (fun e => storage_wf deref e.2) (ds_store d) /\
  ds_size d = u64 (osum st_size (ds_store d)) /\
  ds_values d = u64 (osum valueCount (ds_store d)).

Lemma u64_sum a b d : a = u64 b -> u64 (a + d) = u64 (b + d).
Proof. intros ->. apply u64_add. Qed.

(** [x'] counts [new] where [x] counted [old]. *)
Definition moved (x x' old new : Z) : Prop :=
  u64 (x' + old) = u64 (x + new) /\ (u64 x = x -> u64 x' = x').

Lemma moved_refl x o : moved x x o o.
Proof. done. Qed.

Lemma u64_cancel a b d : u64 (a + d) = u64 (b + d) -> u64 a = u64 b.
Proof.
  intros H. apply (u64_plus _ _ (- d)) in H.
  etrans; [|etrans; [exact H|]]; apply u64_ext; lia.
Qed.

Lemma moved_trans x x' x'' a b c e :
  moved x x' a b -> moved x' x'' c e -> moved x x'' (a + c) (b + e).
Proof.
  intros [H1 C1] [H2 C2]. split; [|by auto].
  apply (u64_plus _ _ e) in H1. apply (u64_plus _ _ a) in H2.
  etrans; [|etrans; [exact H2|etrans; [|etrans; [exact H1|]]]]; apply u64_ext; lia.
Qed.

Lemma moved_step x old new dx : u64 new = u64 (old + dx) -> moved x (u64 (x + dx)) old new.
Proof.
  intros H. split; [|intros _; apply u64_u64]. rewrite u64_add. apply (u64_plus _ _ x) in H.
  etrans; [|etrans; [symmetry; exact H|]]; apply u64_ext; lia.
Qed.

Lemma moved_sum x x' old new rest :
  moved x x' old new -> x = u64 (old + rest) -> x' = u64 (new + rest).
Proof.
  intros [Hm Hc] ->. rewrite <- Hc by apply u64_u64. apply (u64_cancel _ _ old).
  rewrite Hm, u64_add. apply u64_ext. lia.
Qed.

Lemma moved_wf id st st' d d' :
  ds_wf d -> wf_hash HASH_LEN id -> storage_wf deref st' ->
  (find_storage id d = Some st \/ (find_storage id d = None /\ st_size st = 0 /\ valueCount st = 0)) ->
  ds_store d' = om_set op_lt id st' (ds_store d) ->
  moved (ds_size d) (ds_size d') (st_size st) (st_size st') ->
  moved (ds_values d) (ds_values d') (valueCount st) (valueCount st') -> ds_wf d'.
Proof.
  intros (Hm & Hf & Hs & Hv) Hid Hw Hst Hstore Ms Mv. unfold ds_wf. rewrite Hstore. split_and!.
  - by apply (om_set_wf op_lt (wf_hash HASH_LEN)).
  - by apply Forall_om_set.
  - rewrite osum_set by done. unfold find_storage in Hst.
    rewrite (moved_sum _ _ _ _ (osum st_size (ds_store d) - st_size st) Ms) by (rewrite Hs; apply u64_ext; lia).
    apply u64_ext. destruct Hst as [-> |(-> & E & _)]; lia.
  - rewrite osum_set by done. unfold find_storage in Hst.
    rewrite (moved_sum _ _ _ _ (osum valueCount (ds_store d) - valueCount st) Mv) by (rewrite Hv; apply u64_ext; lia).
    apply u64_ext. destruct Hst as [-> |(-> & _ & E)]; lia.
Qed.

Lemma storage_size st : storage_wf deref st -> u64 (st_size st) = st_total st.
Proof. by intros (_ & _ & ->). Qed.

(** From the totals of a storage to its sizes. *)
Lemma total_sizes st st' ds :
  storage_wf deref st -> storage_wf deref st' -> st_total st' = u64 (st_total st + ds) ->
  u64 (st_size st') = u64 (st_size st + ds).
Proof. intros Hst Hst' Ht. rewrite (storage_size st' Hst'), Ht, <- (storage_size st Hst). apply u64_add. Qed.

Lemma find_storage_wf id st d : ds_wf d -> find_storage id d = Some st -> storage_wf deref st.
Proof. intros (_ & Hf & _) H. by eapply Forall_om_find. Qed.

Lemma storageErase_wf id vid d : ds_wf d -> wf_hash HASH_LEN id -> ds_wf (storageErase id vid d).2.
Proof.
  intros Hd Hid. unfold storageErase. destruct (find_storage id d) as [st|] eqn:E; [|done].
  pose proof (find_storage_wf _ _ _ Hd E) as Hst.
  pose proof (remove_ok deref id vid st (ds_buckets d) Hst) as H.
  destruct (st_remove deref id vid st (ds_buckets d)) as [[diff st'] bs'].
  destruct H as (Hw & Ht & Hc & _). eapply (moved_wf id st st' d); try done; [by left| |].
  - by apply moved_step, total_sizes.
  - apply moved_step. by rewrite Hc.
Qed.

(** A storage whose values do not change. *)
Lemma same_values_wf id st st' d d' :
  ds_wf d -> wf_hash HASH_LEN id -> storage_wf deref st' ->
  (find_storage id d = Some st \/ (find_storage id d = None /\ st_size st = 0 /\ valueCount st = 0)) ->
  st_size st' = st_size st -> valueCount st' = valueCount st ->
  ds_store d' = om_set op_lt id st' (ds_store d) -> ds_size d' = ds_size d -> ds_values d' = ds_values d ->
  ds_wf d'.
Proof.
  intros Hd Hid Hw Hst Hs Hc Hstore Hsz Hvl. eapply (moved_wf id st st' d); try done.
  - rewrite Hs, Hsz. apply moved_refl.
  - rewrite Hc, Hvl. apply moved_refl.
Qed.

Lemma put_same_wf id st st' d :
  ds_wf d -> wf_hash HASH_LEN id -> storage_wf deref st' ->
  (find_storage id d = Some st \/ (find_storage id d = None /\ st_size st = 0 /\ valueCount st = 0)) ->
  st_size st' = st_size st -> valueCount st' = valueCount st -> ds_wf (put_storage id st' d).
Proof. intros. by eapply (same_values_wf id st st' d). Qed.

Lemma ds_notify_wf ns d : ds_wf (ds_notify ns d) <-> ds_wf d.
Proof. done. Qed.

Lemma Storage_make_wf t : storage_wf deref (Storage_make t).
Proof. repeat split; simpl; [done|constructor]. Qed.

Lemma st_set_listeners_wf ls st : storage_wf deref st -> storage_wf deref (st_set_listeners ls st).
Proof. done. Qed.

Lemma storageAddListener_wf id node sid q version d :
  ds_wf d -> wf_hash HASH_LEN id -> ds_wf (storageAddListener id node sid q version d).
Proof.
  intros Hd Hid. unfold storageAddListener.
  destruct (find_storage id d) as [st|] eqn:E; [pose proof (find_storage_wf _ _ _ Hd E) as Hst|].
  - destruct (om_find Z.ltb sid _); rewrite ?ds_notify_wf;
      (apply (put_same_wf id st); [done|done|by apply st_set_listeners_wf|by left|done|done]).
  - destruct (ds_max_keys d <=? _); [done|]. destruct (om_find Z.ltb sid _); rewrite ?ds_notify_wf;
      (apply (put_same_wf id (Storage_make (ds_now d)));
       [done|done|apply st_set_listeners_wf, Storage_make_wf|by right|done|done]).
Qed.

(** Refreshing a value changes times only. *)
Lemma refresh_in_data now vid ea vs e vs' :
  refresh_in deref now vid ea vs = Some (e, vs') -> map vs_data vs' = map vs_data vs.
Proof.
  revert e vs'. induction vs as [|v vs IH]; intros e vs'; simpl; [done|].
  case_match; [by intros [= <- <-]|]. destruct (refresh_in deref now vid ea vs) as [[e' vs'']|]; [|done].
  intros [= <- <-]. simpl. by rewrite (IH _ _ eq_refl).
Qed.

Lemma refresh_wf now vid ea st :
  storage_wf deref st ->
  storage_wf deref (refresh deref now vid ea st).2 /\
  st_size (refresh deref now vid ea st).2 = st_size st /\
  valueCount (refresh deref now vid ea st).2 = valueCount st.
Proof.
  intros Hst. unfold refresh. destruct (refresh_in deref now vid ea (st_values st)) as [[e vs]|] eqn:E; [|done].
  apply refresh_in_data in E. simpl.
  pose proof (unchanged_ok deref 1%positive vs st Hst E) as (Hw & _ & Hc & _). split; [done|].
  assert (Hs : forall l, sizes deref l = foldr (fun p a => size_of deref p + a) 0 (map vs_data l)).
  { intros l. unfold sizes. induction l as [|x l IH]; [done|]. simpl. by rewrite IH. }
  split; [unfold st_size; simpl; by rewrite !Hs, E|]. simpl in Hc. lia.
Qed.

Lemma storageRefresh_wf id vid d : ds_wf d -> wf_hash HASH_LEN id -> ds_wf (storageRefresh id vid d).2.
Proof.
  intros Hd Hid. unfold storageRefresh. destruct (find_storage id d) as [st|] eqn:E; [|done].
  pose proof (find_storage_wf _ _ _ Hd E) as Hst.
  pose proof (refresh_wf (ds_now d) vid (getType types) st Hst) as (Hw & Hs & Hc).
  destruct (refresh deref (ds_now d) vid (getType types) st) as [e st']. simpl in *.
  rewrite ds_notify_wf. apply (put_same_wf id st); try done. by left.
Qed.

(** ** Expiry of one storage *)

Definition unexpired (now : Z) (st : Storage) : Prop :=
  Forall (fun v => now < vs_expiration v) (st_values st).

Lemma expireStore_one_spec id st d :
  storage_wf deref st ->
  let '(st', d') := expireStore_one id st d in
  storage_wf deref st' /\ unexpired (ds_now d) st' /\
  moved (ds_size d) (ds_size d') (st_size st) (st_size st') /\
  moved (ds_values d) (ds_values d') (valueCount st) (valueCount st') /\
  ds_store d' = ds_store d /\ ds_now d' = ds_now d /\ ds_quota d' = ds_quota d /\
  ds_max_size d' = ds_max_size d.
Proof.
  intros Hst. unfold expireStore_one.
  pose proof (expire_contract deref id (ds_now d) st (ds_buckets d) Hst) as H.
  destruct (st_expire deref id (ds_now d) st (ds_buckets d)) as [[[ds dropped] st'] bs'].
  destruct H as (Hw & Ht & (drop & Hp & -> & Hds & _) & Hu & _). split_and!; try done.
  - by apply moved_step, total_sizes.
  - apply moved_step, u64_ext.
    unfold valueCount. rewrite length_map. apply Permutation_length in Hp. rewrite length_app in Hp. lia.
Qed.

Lemma expireStorage_wf h d : ds_wf d -> wf_hash HASH_LEN h -> ds_wf (expireStorage h d).
Proof.
  intros Hd Hh. unfold expireStorage. destruct (find_storage h d) as [st|] eqn:E; [|done].
  pose proof (find_storage_wf _ _ _ Hd E) as Hst.
  pose proof (expireStore_one_spec h st d Hst) as H.
  destruct (expireStore_one h st d) as [st' d'].
  destruct H as (Hw & _ & Hs & Hv & Hstore & _). eapply (moved_wf h st st' d); try done; [by left|].
  unfold put_storage. simpl. by rewrite Hstore.
Qed.

(** ** Expiry of all storages *)

Lemma expire_each_spec l : forall d,
  store_map_wf l -> Forall (fun e => storage_wf deref e.2) l ->
  let '(kept, d') := expire_each l d in
  store_map_wf kept /\ (forall e, e ∈ kept -> exists e', e' ∈ l /\ e'.1 = e.1) /\
  Forall (fun e => storage_wf deref e.2 /\ unexpired (ds_now d) e.2 /\ st_unused e.2 = false) kept /\
  moved (ds_size d) (ds_size d') (osum st_size l) (osum st_size kept) /\
  moved (ds_values d) (ds_values d') (osum valueCount l) (osum valueCount kept) /\
  ds_now d' = ds_now d /\ ds_quota d' = ds_quota d /\ ds_max_size d' = ds_max_size d.
Proof.
  induction l as [|[id st] l IH]; intros d Hm Hf.
  - simpl. split_and!; try done; intros e He; by apply not_elem_of_nil in He.
  - rewrite (om_wf_cons op_lt (wf_hash HASH_LEN)) in Hm. destruct Hm as (Hid & Hm & Hall).
    inversion_clear Hf as [|? ? Hst Hf']. simpl in Hst. cbn [expire_each].
    pose proof (expireStore_one_spec id st d Hst) as H1. destruct (expireStore_one id st d) as [st' d1].
    destruct H1 as (Hw & Hu & Ms1 & Mv1 & _ & Hn1 & Hq1 & Hx1).
    specialize (IH d1 Hm Hf'). destruct (expire_each l d1) as [kept d2].
    destruct IH as (Hk & Hsub & Hfk & Ms2 & Mv2 & Hn2 & Hq2 & Hx2).
    rewrite Hn1 in Hfk. pose proof (moved_trans _ _ _ _ _ _ _ Ms1 Ms2) as Ms.
    pose proof (moved_trans _ _ _ _ _ _ _ Mv1 Mv2) as Mv.
    destruct (st_unused st') eqn:E.
    + assert (st_values st' = []) as Hnil.
      { unfold st_unused, st_empty in E. by destruct (st_values st'). }
      assert (st_size st' = 0 /\ valueCount st' = 0) as [E1 E2]
        by (unfold st_size, valueCount, sizes; by rewrite Hnil).
      rewrite E1 in Ms. rewrite E2 in Mv. simpl. split_and!; try done; try congruence.
      intros e He. destruct (Hsub e He) as (e' & ? & ?). exists e'. split; [by right|done].
    + split_and!; try done; try congruence.
      * rewrite (om_wf_cons op_lt (wf_hash HASH_LEN)). split_and!; try done.
        apply Forall_forall. intros e He. destruct (Hsub e He) as (e' & He' & <-).
        rewrite Forall_forall in Hall. by apply Hall.
      * intros e [-> |He]%elem_of_cons; [exists (id, st); split; [by left|done]|].
        destruct (Hsub e He) as (e' & ? & ?). exists e'. split; [by right|done].
      * by constructor.
Qed.

(** ** Discarding values *)

(** Every key the quota index names is a hash. *)
Definition index_wf (bs : Buckets) : Prop :=
  forall k b, bs !! k = Some b -> Forall (fun e => wf_hash HASH_LEN e.2.1) (sb_stored b).

Lemma erase_in_range_wf id vid e l :
  Forall (fun e => wf_hash HASH_LEN e.2.1) l ->
  Forall (fun e => wf_hash HASH_LEN e.2.1) (erase_in_range id vid e l).
Proof. induction 1 as [|x l Hx Hl IH]; simpl; [done|]. case_match; [done|]. by constructor. Qed.

Lemma sb_insert_wf id v e b :
  wf_hash HASH_LEN id -> Forall (fun e => wf_hash HASH_LEN e.2.1) (sb_stored b) ->
  Forall (fun e => wf_hash HASH_LEN e.2.1) (sb_stored (sb_insert deref id v e b)).
Proof. intros Hid Hb. simpl. rewrite mm_insert_perm. by constructor. Qed.

Lemma with_bucket_index b f bs :
  (forall x, Forall (fun e => wf_hash HASH_LEN e.2.1) (sb_stored x) ->
             Forall (fun e => wf_hash HASH_LEN e.2.1) (sb_stored (f x))) ->
  index_wf bs -> index_wf (with_bucket b f bs).
Proof.
  intros Hf Hbs. destruct b as [k|]; [|done]. intros k' x. simpl.
  destruct (decide (k = k')) as [-> |]; [|rewrite lookup_alter_ne by done; apply Hbs].
  rewrite lookup_alter_eq. destruct (bs !! k') as [y|] eqn:E; [|done]. intros [= <-]. eapply Hf, Hbs, E.
Qed.

Lemma st_remove_index id vid st bs : index_wf bs -> index_wf (st_remove deref id vid st bs).2.
Proof.
  intros Hbs. unfold st_remove. destruct (find_value _ _) as [[[l it] r]|]; [|done]. simpl.
  apply with_bucket_index; [|done]. intros x Hx. by apply erase_in_range_wf.
Qed.

Lemma expire_values_index id vs : forall x bs, index_wf bs -> index_wf (expire_values deref id vs x bs).2.
Proof.
  induction vs as [|v vs IH]; intros x bs Hbs; [done|]. simpl. apply IH.
  apply with_bucket_index; [|done]. intros y Hy. by apply erase_in_range_wf.
Qed.

Lemma st_expire_index id now st bs : index_wf bs -> index_wf (st_expire deref id now st bs).2.
Proof.
  intros Hbs. unfold st_expire. destruct (partition _ _) as [keep drop].
  pose proof (expire_values_index id drop 0 bs Hbs). by destruct (expire_values deref id drop 0 bs).
Qed.

Lemma st_store_index id v c e sb st bs :
  wf_hash HASH_LEN id -> index_wf bs -> index_wf (st_store deref id v c e sb st bs).2.
Proof.
  intros Hid Hbs. unfold st_store. destruct (find_value _ _) as [[[l it] r]|].
  - case_match; [done|]. simpl. apply with_bucket_index; [intros; by apply sb_insert_wf|].
    apply with_bucket_index; [|done]. intros x Hx. by apply erase_in_range_wf.
  - case_match; [|done]. simpl. apply with_bucket_index; [intros; by apply sb_insert_wf|done].
Qed.

(** The full invariant. *)
Definition ds_ok (d : DhtStore) : Prop := ds_wf d /\ index_wf (ds_buckets d).

Lemma oldest_wf d b id vid :
  index_wf (ds_buckets d) -> getOldest (default Bucket_make (ds_buckets d !! b)) = Ret (id, vid) ->
  wf_hash HASH_LEN id.
Proof.
  intros Hix. destruct (ds_buckets d !! b) as [x|] eqn:E; [|done]. simpl. apply Hix in E.
  unfold getOldest. destruct E as [|e l He _]; [done|]. intros [= He2]. by rewrite He2 in He.
Qed.

Lemma discard_oldest_ok fuel b : forall d d',
  ds_ok d -> discard_oldest fuel b d = Some (Ret d') ->
  ds_ok d' /\ ds_quota d' = ds_quota d /\ ds_max_size d' = ds_max_size d /\ ds_now d' = ds_now d.
Proof.
  induction fuel as [|fuel IH]; intros d d' [Hd Hix]; [done|]. cbn [discard_oldest].
  destruct (getOldest _) as [[id vid]| | |] eqn:Eo; try done.
  pose proof (oldest_wf d b id vid Hix Eo) as Hid.
  destruct (find_storage id d) as [st|] eqn:E; [|by apply IH].
  pose proof (find_storage_wf _ _ _ Hd E) as Hst.
  pose proof (remove_ok deref id vid st (ds_buckets d) Hst) as H.
  pose proof (st_remove_index id vid st (ds_buckets d) Hix) as Hix'.
  destruct (st_remove deref id vid st (ds_buckets d)) as [[diff st'] bs'].
  destruct H as (Hw & Ht & Hc & _). set (d1 := ds_count _ _ _).
  assert (Hok : ds_ok d1).
  { split; [|done]. eapply (moved_wf id st st' d); try done; [by left| |].
    - by apply moved_step, total_sizes.
    - apply moved_step. by rewrite Hc. }
  case_match; [by intros [= <-]|]. intros H1. by apply (IH d1 d' Hok) in H1.
Qed.

Lemma shrink_ok fuel : forall d d',
  ds_ok d -> shrink fuel d = Some (Ret d') ->
  ds_ok d' /\ ds_now d' = ds_now d /\ ds_quota d' = ds_quota d /\
  (ds_size d' <= ds_max_size d' \/ ds_quota d' = []).
Proof.
  induction fuel as [|fuel IH]; intros d d' Hd; [done|]. cbn [shrink].
  destruct (Z.leb_spec (ds_size d) (ds_max_size d)); [intros [= <-]; auto|].
  destruct (ds_quota d) as [|e q] eqn:Eq; [intros [= <-]; auto|].
  destruct (largest_consumer d) as [[a b]| | |]; try done.
  destruct (discard_oldest fuel b d) as [[d1| | |]|] eqn:E1; try done.
  destruct (discard_oldest_ok fuel b d d1 Hd E1) as (Hd1 & Hq & Hx & Hn).
  intros H2. destruct (IH d1 d' Hd1 H2) as (? & ? & ? & ?). split_and!; try done; congruence.
Qed.

Lemma expire_each_index l : forall d, index_wf (ds_buckets d) -> index_wf (ds_buckets (expire_each l d).2).
Proof.
  induction l as [|[id st] l IH]; intros d Hd; [done|]. cbn [expire_each].
  assert (H1 : index_wf (ds_buckets (expireStore_one id st d).2)).
  { unfold expireStore_one. pose proof (st_expire_index id (ds_now d) st (ds_buckets d) Hd).
    by destruct (st_expire deref id (ds_now d) st (ds_buckets d)) as [[[? ?] ?] ?]. }
  destruct (expireStore_one id st d) as [st' d1]. specialize (IH d1 H1).
  by destruct (expire_each l d1).
Qed.

Lemma drop_quota_index (p : bptr -> bool) q (bs : Buckets) :
  index_wf bs ->
  index_wf (foldr (fun (e : SockAddr * bptr) bs => if p e.2 then delete e.2 bs else bs) bs q).
Proof.
  intros Hbs. induction q as [|[a k'] q IH]; simpl; [done|]. case_match; [|done].
  intros k b. destruct (decide (k' = k)) as [-> |]; [by rewrite lookup_delete_eq|].
  rewrite lookup_delete_ne by done. apply IH.
Qed.

Lemma expire_each_ok d :
  ds_ok d -> ds_ok (ds_set_store (expire_each (ds_store d) d).1 (expire_each (ds_store d) d).2).
Proof.
  intros [(Hm & Hf & Hs & Hv) Hix]. pose proof (expire_each_spec (ds_store d) d Hm Hf) as H.
  pose proof (expire_each_index (ds_store d) d Hix) as Hix'.
  destruct (expire_each (ds_store d) d) as [kept d1].
  destruct H as (Hk & _ & Hfk & Ms & Mv & _). split; [|done]. unfold ds_wf. simpl. split_and!; [done| | |].
  - eapply Forall_impl; [exact Hfk|]. simpl. tauto.
  - rewrite (moved_sum _ _ _ _ 0 Ms); [|rewrite Hs]; apply u64_ext; lia.
  - rewrite (moved_sum _ _ _ _ 0 Mv); [|rewrite Hv]; apply u64_ext; lia.
Qed.

Lemma expireStore_ok fuel d d' :
  ds_ok d -> expireStore fuel d = Some (Ret d') ->
  ds_ok d' /\ ds_now d' = ds_now d /\ (ds_size d' <= ds_max_size d' \/ ds_quota d' = []).
Proof.
  intros Hd. unfold expireStore. pose proof (expire_each_ok d Hd) as Hok.
  assert (Hn : ds_now (expire_each (ds_store d) d).2 = ds_now d).
  { pose proof (expire_each_spec (ds_store d) d) as H. destruct Hd as [(Hm & Hf & _) _].
    specialize (H Hm Hf). destruct (expire_each (ds_store d) d). tauto. }
  destruct (expire_each (ds_store d) d) as [kept d1]. simpl in Hok, Hn.
  destruct (shrink fuel (ds_set_store kept d1)) as [[d2| | |]|] eqn:E; try done. intros [= <-].
  destruct (shrink_ok fuel _ _ Hok E) as ([Hw Hix] & Hn2 & Hq & Hb). simpl in *. split_and!.
  - split; [done|]. simpl. by apply (drop_quota_index (fun b => usage d2 b =? 0)).
  - congruence.
  - destruct Hb as [|Hq0]; [by left|right]. by rewrite Hq0.
Qed.

(** ** Storing a value *)

Lemma quota_bucket_ok sa d : ds_ok d -> ds_ok (quota_bucket sa d).2 /\ ds_store (quota_bucket sa d).2 = ds_store d.
Proof.
  intros [Hw Hix]. unfold quota_bucket. destruct (om_find _ sa (ds_quota d)); [done|]. split; [|done].
  split; [done|]. simpl. intros k b. destruct (decide (ds_next d = k)) as [-> |].
  - rewrite lookup_insert_eq. intros [= <-]. constructor.
  - rewrite lookup_insert_ne by done. apply Hix.
Qed.

Lemma find_put_storage id st d :
  ds_wf d -> wf_hash HASH_LEN id -> find_storage id (put_storage id st d) = Some st.
Proof. intros (Hm & _) Hid. by apply (om_find_set_eq op_lt (wf_hash HASH_LEN)). Qed.

Lemma find_or_make_ok id d st d1 :
  ds_ok d -> wf_hash HASH_LEN id -> find_or_make id d = Some (st, d1) ->
  ds_ok d1 /\ find_storage id d1 = Some st.
Proof.
  intros [Hw Hix] Hid. unfold find_or_make. destruct (find_storage id d) as [st0|] eqn:E.
  - by intros [= <- <-].
  - case_match; [done|]. intros [= <- <-].
    assert (Hp : ds_wf (put_storage id (Storage_make (ds_now d)) d)).
    { apply (put_same_wf id (Storage_make (ds_now d))); try done; [apply Storage_make_wf|by right]. }
    destruct (ds_maintain d); (split; [split; [done|done]|by apply find_put_storage]).
Qed.

(** After the value is stored and counted. *)
Lemma stored_ok id value c e sb st d2 changed diff st' bs' :
  ds_ok d2 -> wf_hash HASH_LEN id -> find_storage id d2 = Some st ->
  st_store deref id value c e sb st (ds_buckets d2) = (changed, diff, st', bs') ->
  ds_ok (ds_count (size_diff diff) (values_diff diff) (ds_set_buckets bs' (put_storage id st' d2))) /\
  (changed = false -> ds_ok (ds_set_buckets bs' (put_storage id st' d2))).
Proof.
  intros [Hw Hix] Hid Hf Hs. pose proof (find_storage_wf _ _ _ Hw Hf) as Hst.
  pose proof (store_contract deref id value c e sb st (ds_buckets d2) Hst) as H.
  pose proof (st_store_index id value c e sb st (ds_buckets d2) Hid Hix) as Hix'. rewrite Hs in H, Hix'.
  destruct H as [(Hw' & Ht & Hc & _ & Hno & _) _]. split; [split; [|done]|intros Hch; split; [|done]].
  - eapply (moved_wf id st st' d2); try done; [by left| |].
    + by apply moved_step, total_sizes.
    + apply moved_step. by rewrite Hc.
  - destruct (Hno Hch) as [Hdata ->]. apply (put_same_wf id st); try done; [by left| |].
    + assert (Hsz : forall l, sizes deref l = foldr (fun p a => size_of deref p + a) 0 (map vs_data l)).
      { intros l. unfold sizes. induction l as [|x l IH]; [done|]. simpl. by rewrite IH. }
      unfold st_size. by rewrite !Hsz, Hdata.
    + simpl in Hc. lia.
Qed.

Lemma store_value_ok id value c e sa permanent d changed st' isnew d5 :
  ds_ok d -> wf_hash HASH_LEN id ->
  store_value id value c e sa permanent d = Some (changed, st', isnew, d5) -> ds_ok d5.
Proof.
  intros Hd Hid. unfold store_value.
  destruct (find_or_make id d) as [[st d1]|] eqn:Ef; [|done].
  destruct (find_or_make_ok _ _ _ _ Hd Hid Ef) as [Hd1 Hf1].
  assert (Hq : exists sb d2, (match sa with
      | Some a => let '(b, d') := quota_bucket a d1 in (Some b, d') | None => (None, d1) end) = (sb, d2) /\
      ds_ok d2 /\ find_storage id d2 = Some st).
  { destruct sa as [a|]; [|by exists None, d1]. pose proof (quota_bucket_ok a d1 Hd1) as [Hq Hs].
    destruct (quota_bucket a d1) as [b d2]. exists (Some b), d2. split_and!; [done|done|].
    unfold find_storage in *. simpl in Hs. by rewrite Hs. }
  destruct Hq as (sb & d2 & -> & Hd2 & Hf2).
  destruct (st_store deref id value _ _ sb st (ds_buckets d2)) as [[[ch diff] st1] bs'] eqn:Es.
  destruct (stored_ok _ _ _ _ _ _ _ _ _ _ _ Hd2 Hid Hf2 Es) as [Hc Hno].
  destruct ch; simpl; intros [= <- <- <- <-]; [by destruct permanent|by apply Hno].
Qed.

Lemma storageStore_ok fuel id value created sa permanent d r d' :
  ds_ok d -> wf_hash HASH_LEN id ->
  storageStore fuel id value created sa permanent d = Some (Ret (r, d')) -> ds_ok d'.
Proof.
  intros Hd Hid. unfold storageStore. case_match; [by intros [= <- <-]|].
  destruct (store_value _ _ _ _ _ _ _) as [[[[[] st'] isnew] d5]|] eqn:Es; [| |by intros [= <- <-]];
    pose proof (store_value_ok _ _ _ _ _ _ _ _ _ _ _ Hd Hid Es) as Hd5; [|by intros [= <- <-]].
  destruct (ds_max_size d5 <? ds_size d5); [|by intros [= <- <-]].
  destruct (expireStore fuel d5) as [[d6| | |]|] eqn:Ee; try done.
  destruct (expireStore_ok _ _ _ Hd5 Ee) as [Hd6 _].
  destruct (find_storage id d6) as [st6|]; [|done].
  destruct (decide (st_values st6 = st_values st')); [|done]. by intros [= <- <-].
Qed.

(** ** Histories of a node *)

(** One operation of the node on its store, or the passing of time. *)
Inductive dht_step : DhtStore -> DhtStore -> Prop :=
| step_store fuel id value created sa permanent d r d' :
    wf_hash HASH_LEN id ->
    storageStore fuel id value created sa permanent d = Some (Ret (r, d')) -> dht_step d d'
| step_erase id vid d : wf_hash HASH_LEN id -> dht_step d (storageErase id vid d).2
| step_refresh id vid d : wf_hash HASH_LEN id -> dht_step d (storageRefresh id vid d).2
| step_listen id node sid q version d :
    wf_hash HASH_LEN id -> dht_step d (storageAddListener id node sid q version d)
| step_expire_one h d : wf_hash HASH_LEN h -> dht_step d (expireStorage h d)
| step_expire fuel d d' : expireStore fuel d = Some (Ret d') -> dht_step d d'
| step_time t d :
    dht_step d (mkDS t (ds_store d) (ds_quota d) (ds_buckets d) (ds_next d) (ds_values d) (ds_size d)
                     (ds_max_keys d) (ds_max_size d) (ds_maintain d) (ds_log d)).

Definition DhtStore_make (now max_keys max_size : Z) (maintain : bool) : DhtStore :=
  mkDS now [] [] ∅ 1%positive 0 0 max_keys max_size maintain [].

Lemma buckets_erase id vid d : index_wf (ds_buckets d) -> index_wf (ds_buckets (storageErase id vid d).2).
Proof.
  intros Hd. unfold storageErase. destruct (find_storage id d) as [st|]; [|done].
  pose proof (st_remove_index id vid st (ds_buckets d) Hd).
  by destruct (st_remove deref id vid st (ds_buckets d)) as [[? ?] ?].
Qed.

Lemma buckets_expire_one h d : index_wf (ds_buckets d) -> index_wf (ds_buckets (expireStorage h d)).
Proof.
  intros Hd. unfold expireStorage, expireStore_one. destruct (find_storage h d) as [st|]; [|done].
  pose proof (st_expire_index h (ds_now d) st (ds_buckets d) Hd).
  by destruct (st_expire deref h (ds_now d) st (ds_buckets d)) as [[[? ?] ?] ?].
Qed.

Lemma dht_step_ok d d' : dht_step d d' -> ds_ok d -> ds_ok d'.
Proof.
  intros Hs Hd. pose proof Hd as [Hw Hix]. destruct Hs.
  - by eapply storageStore_ok.
  - split; [by apply storageErase_wf|by apply buckets_erase].
  - split; [by apply storageRefresh_wf|]. unfold storageRefresh.
    destruct (find_storage id d) as [st|]; [|done]. by destruct (refresh deref (ds_now d) vid (getType types) st).
  - split; [by apply storageAddListener_wf|]. unfold storageAddListener.
    destruct (match find_storage id d with Some _ => _ | None => _ end) as [st|]; [|done].
    by destruct (om_find Z.ltb sid _).
  - split; [by apply expireStorage_wf|by apply buckets_expire_one].
  - by eapply expireStore_ok.
  - done.
Qed.

Lemma DhtStore_make_ok now max_keys max_size maintain : ds_ok (DhtStore_make now max_keys max_size maintain).
Proof.
  split; [|intros k b; simpl; by rewrite lookup_empty].
  unfold ds_wf. simpl. split_and!; [apply om_wf_nil|constructor|done|done].
Qed.

(** C23. The node's counters are exact in every reachable state: after any sequence
    of storing, erasing, refreshing, listening and expiring, every storage holds
    at most 1024 values with distinct ids and an exact total,
    [total_store_size] is the sum of the sizes of all stored values and
    [total_values] their number. *)
Theorem store_counters_exact now max_keys max_size maintain d :
  rtc dht_step (DhtStore_make now max_keys max_size maintain) d ->
  Forall (fun e => storage_wf deref e.2) (ds_store d) /\
  ds_size d = u64 (osum st_size (ds_store d)) /\
  ds_values d = u64 (osum valueCount (ds_store d)).
Proof.
  intros Hr. assert (Hok : ds_ok d).
  { pose proof (DhtStore_make_ok now max_keys max_size maintain) as H0.
    induction Hr; [done|]. eauto using dht_step_ok. }
  destruct Hok as [(_ & Hf & Hs & Hv) _]. done.
Qed.

(** When [expireStore] returns, the limit holds: the stored size is at most
    [max_store_size], unless no remote address has a quota left to take from. *)
Theorem expireStore_limit fuel d d' :
  ds_wf d -> index_wf (ds_buckets d) -> expireStore fuel d = Some (Ret d') ->
  ds_wf d' /\ (ds_size d' <= ds_max_size d' \/ ds_quota d' = []).
Proof. intros Hw Hix He. destruct (expireStore_ok fuel d d' (conj Hw Hix) He) as ([? _] & _ & ?). done. Qed.

(** ** Where discarding goes wrong *)

(** With one remote address in the quota, going over the limit is undefined
    behaviour: the search for the largest consumer starts with [++largest], so
    [largest] is the end of the map when it has one entry, and is dereferenced. *)
Theorem single_quota_undefined fuel d e :
  ds_wf d -> ds_quota d = [e] -> ds_max_size d < ds_size (expire_each (ds_store d) d).2 ->
  expireStore (S fuel) d = Some (Undef "dereference of store_quota.end()").
Proof.
  intros (Hm & Hf & _) Hq Hs. unfold expireStore.
  pose proof (expire_each_spec (ds_store d) d Hm Hf) as H.
  destruct (expire_each (ds_store d) d) as [kept d1]. destruct H as (_ & _ & _ & _ & _ & _ & Hq1 & Hx).
  simpl in Hs. cbn [shrink]. simpl. unfold largest_consumer. simpl. rewrite Hq1, Hq, Hx.
  by destruct (Z.leb_spec (ds_size d1) (ds_max_size d)); [lia|].
Qed.

Lemma remove_absent id vid st bs :
  getById deref vid st = None -> st_remove deref id vid st bs = (no_diff, st, bs).
Proof.
  unfold getById, st_remove. intros H.
  assert (E : find_value (fun v => id_of deref (vs_data v) =? vid) (st_values st) = None).
  { induction (st_values st) as [|v l IH]; [done|]. simpl in *. case_match; [done|]. by rewrite IH. }
  by rewrite E.
Qed.

(** The oldest entry of a bucket names a value that is not stored. *)
Definition stale (b : bptr) (d : DhtStore) : Prop :=
  exists id vid st, getOldest (default Bucket_make (ds_buckets d !! b)) = Ret (id, vid) /\
    wf_hash HASH_LEN id /\ find_storage id d = Some st /\ getById deref vid st = None.

(** The same, decided. *)
Definition stale_b (b : bptr) (d : DhtStore) : bool :=
  match getOldest (default Bucket_make (ds_buckets d !! b)) with
  | Ret (id, vid) =>
      match find_storage id d with
      | Some st => match getById deref vid st with None => true | Some _ => false end
      | None => false
      end
  | _ => false
  end.

Lemma stale_b_stale b d : index_wf (ds_buckets d) -> stale_b b d = true -> stale b d.
Proof.
  unfold stale_b. intros Hix H. destruct (getOldest _) as [[id vid]| | |] eqn:Eo; try done.
  destruct (find_storage id d) as [st|] eqn:Ef; [|done]. destruct (getById deref vid st) eqn:Eg; [done|].
  exists id, vid, st. split_and!; try done. by eapply oldest_wf.
Qed.

(** The state after the first loop of [expireStore]. *)
Definition after_expiry (d : DhtStore) : DhtStore :=
  ds_set_store (expire_each (ds_store d) d).1 (expire_each (ds_store d) d).2.

Lemma expireStore_None fuel d : shrink fuel (after_expiry d) = None -> expireStore fuel d = None.
Proof.
  unfold after_expiry, expireStore. destruct (expire_each (ds_store d) d) as [kept d1]. simpl. by intros ->.
Qed.

Lemma storageStore_None fuel id value sa d st' isnew d5 :
  (ds_now d + getType types (v_type (deref value)) <? ds_now d) = false ->
  store_value id value (ds_now d) (ds_now d + getType types (v_type (deref value))) sa false d =
    Some (true, st', isnew, d5) ->
  (ds_max_size d5 <? ds_size d5) = true -> expireStore fuel d5 = None ->
  storageStore fuel id value (ds_now d) sa false d = None.
Proof. intros He Hs Hm Hx. unfold storageStore. by rewrite Z.min_id, He, Hs, Hm, Hx. Qed.

Lemma discard_stale_diverges fuel b : forall d,
  store_map_wf (ds_store d) -> stale b d -> discard_oldest fuel b d = None.
Proof.
  induction fuel as [|fuel IH]; intros d Hm (id & vid & st & Ho & Hid & Hf & Hg); [done|].
  cbn [discard_oldest]. rewrite Ho, Hf, (remove_absent id vid st (ds_buckets d) Hg). simpl. apply IH.
  - by apply (om_set_wf op_lt (wf_hash HASH_LEN)).
  - exists id, vid, st. split_and!; try done. by apply (om_find_set_eq op_lt (wf_hash HASH_LEN)).
Qed.
End DhtStorage.

(** ** A concrete node *)

#[local] Existing Instance GnutlsDemo.demo.

Module StoreDemo.

Import StorageDemo.

Definition ip (n : Z) : SockAddr := [2; 0; 0; 80; 10; 0; 0; n] ++ replicate 8 0.

Definition at_time (t : Z) (d : DhtStore) : DhtStore :=
  mkDS t (ds_store d) (ds_quota d) (ds_buckets d) (ds_next d) (ds_values d) (ds_size d)
       (ds_max_keys d) (ds_max_size d) (ds_maintain d) (ds_log d).

Definition limited (max_size : Z) (d : DhtStore) : DhtStore :=
  mkDS (ds_now d) (ds_store d) (ds_quota d) (ds_buckets d) (ds_next d) (ds_values d) (ds_size d)
       (ds_max_keys d) max_size (ds_maintain d) (ds_log d).

Lemma limited_wf m d : ds_wf heap d -> ds_wf heap (limited m d).
Proof. done. Qed.

Definition put (p : positive) (from : Z) (d : DhtStore) : DhtStore :=
  match storageStore 10 heap [] 5 key p (ds_now d) (Some (ip from)) false d with
  | Some (Ret (_, d')) => d'
  | _ => d
  end.

Definition put_returns (p : positive) (from : Z) (d : DhtStore) : bool :=
  match storageStore 10 heap [] 5 key p (ds_now d) (Some (ip from)) false d with
  | Some (Ret _) => true
  | _ => false
  end.

Abbreviation step := (dht_step 10 heap []).

Lemma put_step p from d : put_returns p from d = true -> step d (put p from d).
Proof.
  unfold put_returns, put. intros H.
  destruct (storageStore _ _ _ _ _ _ _ _ _ d) as [[[r d']| | |]|] eqn:E; try done.
  eapply step_store; [exact key_wf|exact E].
Qed.

(** An address stores a value without data, and the store is swept. *)
Definition empty (_ : positive) : Value := mkValue 1 None (Hash_zero HASH_LEN) 0 [] [] 0 [] [] 0.
Definition holding : DhtStore :=
  match storageStore 10 empty [] 5 key 1 0 (Some (ip 1)) false (DhtStore_make 0 16 100 false) with
  | Some (Ret (_, d)) => d
  | _ => DhtStore_make 0 16 100 false
  end.
Definition swept : DhtStore := match expireStore empty 3 holding with Some (Ret d) => d | _ => holding end.

Lemma swept_reachable : rtc (dht_step 10 empty []) (DhtStore_make 0 16 100 false) swept.
Proof.
  apply (rtc_l _ _ holding).
  - apply (step_store 10 empty [] 5 key 1 0 (Some (ip 1)) false _ true); [exact key_wf|]. vm_compute. reflexivity.
  - apply rtc_once, (step_expire 10 empty [] 3). vm_compute. reflexivity.
Qed.

(** Two addresses store a value each; the second value is refreshed five minutes
    later; another value follows after twelve minutes, and the expiry jobs run. *)
Definition history : DhtStore :=
  let d1 := put 2 2 (put 1 1 (DhtStore_make 0 16 100 false)) in
  let d2 := (storageRefresh heap [] key 2 (at_time (minutes 5) d1)).2 in
  let d3 := put 3 2 (at_time (minutes 12) d2) in
  expireStorage heap key (at_time (minutes 16) d3).

Lemma history_reachable : rtc step (DhtStore_make 0 16 100 false) history.
Proof.
  unfold history.
  eapply rtc_l; [by apply (put_step 1 1); vm_compute|].
  eapply rtc_l; [by apply (put_step 2 2); vm_compute|].
  eapply rtc_l; [apply (step_time _ _ _ (minutes 5))|].
  eapply rtc_l; [apply (step_refresh _ _ _ key 2), key_wf|].
  eapply rtc_l; [apply (step_time _ _ _ (minutes 12))|].
  eapply rtc_l; [by apply (put_step 3 2); vm_compute|].
  eapply rtc_l; [apply (step_time _ _ _ (minutes 16))|].
  eapply rtc_l; [apply (step_expire_one _ _ _ key), key_wf|]. done.
Qed.

(** What [storageStore] has done when it calls [expireStore]. *)
Abbreviation overfull :=
  (store_value 10 heap key 4 (ds_now history) (ds_now history + getType [] (v_type (heap 4))) (Some (ip 1)) false
     history).

Definition over_limit : DhtStore := match overfull with Some (_, _, _, d) => d | None => history end.
Definition over_storage : Storage := match overfull with Some (_, st, _, _) => st | None => Storage_make 0 end.

Lemma overfull_eq : overfull = Some (true, over_storage, true, over_limit).
Proof.
  assert (H : match overfull with Some (true, _, true, _) => true | _ => false end = true)
    by (vm_compute; reflexivity).
  unfold over_storage, over_limit. destruct overfull as [[[[[] st] []] d]|]; (reflexivity || discriminate H).
Qed.

(** What is left of it after the first loop of [expireStore]. *)
Definition shrinking : DhtStore :=
  after_expiry heap over_limit.

Lemma history_ok : ds_ok heap history.
Proof.
  pose proof (DhtStore_make_ok heap 0 16 100 false) as H0. pose proof history_reachable as Hr.
  induction Hr; [done|]. eauto using dht_step_ok.
Qed.

Lemma over_limit_ok : ds_ok heap over_limit.
Proof.
  pose proof history_ok as H. unfold over_limit. revert H. generalize history. intros d0 H.
  destruct (store_value _ _ _ _ _ _ _ _ d0) as [[[[c st] isnew] d]|] eqn:E; [|done].
  by eapply store_value_ok; [exact H|exact key_wf|exact E].
Qed.

Lemma shrinking_stale : om_wf op_lt (wf_hash HASH_LEN) (ds_store shrinking) /\ stale heap 2 shrinking.
Proof.
  pose proof (expire_each_ok heap over_limit over_limit_ok) as [(Hm & _) Hix].
  split; [exact Hm|]. apply stale_b_stale; [exact Hix|]. vm_compute. reflexivity.
Qed.

Lemma shrink_hangs fuel : shrink heap fuel shrinking = None.
Proof.
  destruct fuel as [|fuel]; [done|]. cbn [shrink].
  assert (Hlim : (ds_size shrinking <=? ds_max_size shrinking) = false) by (by vm_compute).
  assert (Hq : ds_quota shrinking = [(ip 1, 1%positive); (ip 2, 2%positive)]) by (by vm_compute).
  assert (Hl : largest_consumer shrinking = Ret (ip 2, 2%positive)) by (by vm_compute).
  rewrite Hlim, Hq, Hl. destruct shrinking_stale as [Hm Hs].
  by rewrite (discard_stale_diverges heap fuel 2 shrinking Hm Hs).
Qed.

Lemma expireStore_hangs fuel : expireStore heap fuel over_limit = None.
Proof. exact (expireStore_None heap fuel over_limit (shrink_hangs fuel)). Qed.
End StoreDemo.

(** A node can be made to hang: a value that was refreshed and then expired
    leaves its entry in the quota index of its address (the index is keyed by the
    expiration time, which [refresh] changes without telling the bucket).  When
    that address is later the one to discard from, [expireStore] asks for its
    oldest value again and again, and [storageStore] never returns.  The state is
    reached by ordinary operations of two addresses. *)
Theorem refreshed_value_hangs_store :
  rtc (dht_step 10 StorageDemo.heap []) (DhtStore_make 0 16 100 false) StoreDemo.history /\
  forall fuel, storageStore 10 StorageDemo.heap [] fuel StorageDemo.key 4 (ds_now StoreDemo.history)
                 (Some (StoreDemo.ip 1)) false StoreDemo.history = None.
Proof.
  split; [exact StoreDemo.history_reachable|]. intros fuel.
  refine (storageStore_None 10 StorageDemo.heap [] fuel StorageDemo.key 4 _ _ _ _ _ _ StoreDemo.overfull_eq _
    (StoreDemo.expireStore_hangs fuel)); vm_compute; reflexivity.
Qed.

(** [expireStore] frees a bucket that is still in use: a value without data, stored for a
    remote address, counts nothing, so the quota entry of that address is erased, while
    the value keeps its pointer to the bucket; removing or replacing the value, or its
    expiry, then goes through that pointer. *)
Theorem quota_bucket_dangles :
  exists d st v b, rtc (dht_step 10 StoreDemo.empty []) (DhtStore_make 0 16 100 false) d /\
    find_storage StorageDemo.key d = Some st /\ st_values st = [v] /\ vs_bucket v = Some b /\
    ds_buckets d !! b = None /\ ds_quota d = [].
Proof.
  exists StoreDemo.swept. eexists _, _, _. split; [exact StoreDemo.swept_reachable|].
  split_and!; vm_compute; reflexivity.
Qed.

Lemma single_quota_undefined_witness :
  let d := StoreDemo.put 4 1 (DhtStore_make 0 16 100 false) in
  expireStore StorageDemo.heap 3 (StoreDemo.limited 50 d) = Some (Undef "dereference of store_quota.end()").
Proof.
  apply (single_quota_undefined StorageDemo.heap 2 _ (StoreDemo.ip 1, 1%positive));
    [|vm_compute; reflexivity|vm_compute; reflexivity].
  apply StoreDemo.limited_wf. exact (proj1 (dht_step_ok 10 StorageDemo.heap [] _ _
    (StoreDemo.put_step 4 1 (DhtStore_make 0 16 100 false) ltac:(vm_compute; reflexivity))
    (DhtStore_make_ok StorageDemo.heap 0 16 100 false))).
Defined.

Lemma store_counters_exact_witness :
  ds_size StoreDemo.history = 30 /\ ds_values StoreDemo.history = 1.
Proof.
  destruct (store_counters_exact 10 StorageDemo.heap [] 0 16 100 false StoreDemo.history
    StoreDemo.history_reachable) as (_ & Hs & Hv).
  rewrite Hs, Hv. split; vm_compute; reflexivity.
Defined.

Lemma expireStore_limit_witness :
  exists d', expireStore StorageDemo.heap 3 (StoreDemo.put 1 1 (DhtStore_make 0 16 100 false)) = Some (Ret d') /\
    ds_size d' <= 100.
Proof.
  pose proof (dht_step_ok 10 StorageDemo.heap [] _ _
    (StoreDemo.put_step 1 1 (DhtStore_make 0 16 100 false) ltac:(vm_compute; reflexivity))
    (DhtStore_make_ok StorageDemo.heap 0 16 100 false)) as [Hw Hix].
  assert (F : match expireStore StorageDemo.heap 3 (StoreDemo.put 1 1 (DhtStore_make 0 16 100 false)) with
              | Some (Ret d') => negb (Z.of_nat (length (ds_quota d')) =? 0) && (ds_max_size d' =? 100)
              | _ => false
              end = true) by (vm_compute; reflexivity).
  revert Hw Hix F. generalize (StoreDemo.put 1 1 (DhtStore_make 0 16 100 false)). intros d Hw Hix F.
  destruct (expireStore StorageDemo.heap 3 d) as [[d'| | |]|] eqn:E; try discriminate F.
  exists d'. split; [reflexivity|]. zb.
  destruct (expireStore_limit StorageDemo.heap 3 d d' Hw Hix E) as [_ [Hl|Hq]]; [lia|].
  rewrite Hq in *. done.
Defined.
