(* ===== verification/DhtState.v ===== *)
(** * DhtState: what a node saves and loads

    Models [exportValues] and [importValues] of src/opendht-2.1.4/src/dht.cpp: the values of
    the storages as MessagePack buffers, and back.  The values read are new objects;
    [make_shared] is the parameter [alloc].  Loading is [storageStore] (DhtStorage.v), whose
    loops take fuel. *)
From S2P Require Import Prelude InfoHash StdMap SockAddr Node MsgPack Value Query Storage DhtStorage.

Section State.
Context {G : Gnutls} (AF_INET6 : Z) (deref : vptr -> Value) (alloc : Value -> vptr) {PA : Partition} (types : list (Z * Z)).

(** ** Export *)

Fixpoint export_each (vs : list ValueStorage) : outcome bytes :=
  match vs with
  | [] => Ret []
  | v :: vs' =>
      b ← msgpack_pack (deref (vs_data v));
      rest ← export_each vs';
      Ret ((pack_array 2 ++ pack_imp_int64 (vs_created v) ++ b) ++ rest)
  end.

Definition export_storage (e : Hash * Storage) : outcome (Hash * bytes) :=
  let vals := st_values e.2 in
  b ← export_each vals;
  Ret (e.1, pack_array (Z.of_nat (length vals)) ++ b).

Fixpoint export_storages (l : list (Hash * Storage)) : outcome (list (Hash * bytes)) :=
  match l with
  | [] => Ret []
  | e :: l' => ve ← export_storage e; rest ← export_storages l'; Ret (ve :: rest)
  end.

Definition exportValues (d : DhtStore) : outcome (list (Hash * bytes)) := export_storages (ds_store d).

(** ** Import *)

(** [as<time_point::duration::rep>], a signed integer of 64 bits. *)
Definition as_int64 (o : obj) : outcome Z :=
  match o with
  | OPos n => if 2 ^ 63 - 1 <? n then type_error else Ret n
  | ONeg n => Ret n
  | _ => type_error
  end.

(** The values of one key. A value that can not be read is skipped; an element that is
    not a pair ends the key, with what was stored so far. [storageStore] throws
    nothing. *)
Fixpoint import_each (fuel : nat) (id : Hash) (els : list obj) (d : DhtStore) : option (outcome DhtStore) :=
  match els with
  | [] => Some (Ret d)
  | OArr (t :: v :: _) :: els' =>
      match (val_time ← as_int64 t; tmp_val ← msgpack_unpack v (Value_make 0); Ret (val_time, tmp_val)) with
      | Ret (val_time, tmp_val) =>
          match storageStore AF_INET6 deref types fuel id (alloc tmp_val) (Z.min val_time (ds_now d)) None false d with
          | Some (Ret (_, d')) => import_each fuel id els' d'
          | Some (Throw w) => Some (Throw w) | Some (Undef w) => Some (Undef w) | Some (Terminate w) => Some (Terminate w)
          | None => None
          end
      | Throw _ => import_each fuel id els' d
      | Undef w => Some (Undef w) | Terminate w => Some (Terminate w)
      end
  | _ :: _ => Some (Ret d)
  end.

Definition import_one (fuel : nat) (value : Hash * bytes) (d : DhtStore) : option (outcome DhtStore) :=
  match value.2 with
  | [] => Some (Ret d)
  | _ =>
      match unpack value.2 with
      | Ret (OArr els, _) => import_each fuel value.1 els d
      | Ret _ | Throw _ => Some (Ret d)
      | Undef w => Some (Undef w) | Terminate w => Some (Terminate w)
      end
  end.

Fixpoint importValues (fuel : nat) (import : list (Hash * bytes)) (d : DhtStore) : option (outcome DhtStore) :=
  match import with
  | [] => Some (Ret d)
  | value :: import' =>
      match import_one fuel value d with
      | Some (Ret d') => importValues fuel import' d'
      | r => r
      end
  end.

(** ** The round trip *)

(** What a node holds under a key: the values with their creation times. *)
Definition contents (h : Hash) (d : DhtStore) : list (Value * Z) :=
  match find_storage h d with Some st => map (fun v => (deref (vs_data v), vs_created v)) (st_values st) | None => [] end.

(** A value that can be saved and loaded: it can be packed, loses nothing on the wire, has
    not expired by its type, and the object made for it holds it. *)
Definition savable (now : Z) (v : ValueStorage) : Prop :=
  let x := deref (vs_data v) in
  wf_value x /\ exportable x /\ transmitted x = Ret x /\ 0 <= vs_created v <= now /\ vs_created v < 2 ^ 63 /\
  now <= vs_created v + getType types (v_type x) /\ deref (alloc x) = x.

(** The entry [importValues] makes for a value. *)
Definition loaded (v : ValueStorage) : ValueStorage :=
  mkVS (alloc (deref (vs_data v))) (vs_created v) (vs_created v + getType types (v_type (deref (vs_data v)))) None.

Definition elem_obj (v : ValueStorage) (o : obj) : obj := OArr [OPos (vs_created v); o].

Context `{!GnutlsLaws G}.

Lemma pack_int64_pos n : 0 <= n < 2 ^ 63 -> pack_imp_int64 n = pack_imp_uint64 n.
Proof.
  intros Hn. unfold pack_imp_int64, pack_imp_uint64. rewrite (proj2 (Z.ltb_ge _ _)) by lia.
  destruct (Z.ltb_spec n (2 ^ 7)), (Z.ltb_spec n (2 ^ 8)), (Z.ltb_spec n (2 ^ 16)); done || lia.
Qed.

(** The buffer of a list of values is a packed array, which reads back as itself. *)
Lemma export_each_spec now vs : Forall (savable now) vs ->
  exists os, export_each vs = Ret (concat (map pack os)) /\ length os = length vs /\ Forall (wf_obj 0xfffffffe) os /\
    Forall2 (fun o v => exists ov, o = elem_obj v ov /\ msgpack_unpack ov (Value_make 0) = Ret (deref (vs_data v))) os vs.
Proof.
  induction 1 as [|v vs (Hw & He & Ht & Hc & Hc' & _) Hv (os & Hos & Hl & Hwf & H2)]; [exists []; by split_and!|].
  destruct (exportable_exported _ He) as (owner & Ho & Hob). exists (elem_obj v (value_obj owner (deref (vs_data v))) :: os). split; [|split_and!].
  - cbn [export_each]. rewrite (value_bytes _ owner) by done. cbn [mbind outcome_bind]. rewrite Hos. cbn [mbind outcome_bind]. rewrite pack_int64_pos by lia. cbn. by rewrite app_nil_r.
  - cbn. by rewrite Hl.
  - constructor; [|done]. apply wf_arr. split; [lia|]. split; [cbn; lia|]. constructor; [cbn; lia|]. constructor; [|constructor]. apply value_obj_wf; [done|done|lia].
  - constructor; [|done]. eexists. split; [done|]. by rewrite unpack_value_obj.
Qed.

Lemma as_int64_pos n : 0 <= n < 2 ^ 63 -> as_int64 (OPos n) = Ret n.
Proof. intros Hn. unfold as_int64. by rewrite (proj2 (Z.ltb_ge _ _)) by lia. Qed.

(** *** Storing one value *)

Abbreviation valid := (wf_hash HASH_LEN).

(** The keys of the node once [id] is there. *)
Definition slots (id : Hash) (d : DhtStore) : Z :=
  Z.of_nat (length (ds_store d)) + match find_storage id d with Some _ => 0 | None => 1 end.

Definition values_at (id : Hash) (d : DhtStore) : list ValueStorage := match find_storage id d with Some st => st_values st | None => [] end.

(** The node is as before but for what it holds under [id]. *)
Record same_but (id : Hash) (d d' : DhtStore) : Prop := {
  sb_wf : om_wf op_lt valid (ds_store d');
  sb_now : ds_now d' = ds_now d;
  sb_keys : ds_max_keys d' = ds_max_keys d;
  sb_max : ds_max_size d' = ds_max_size d;
  sb_slots : slots id d' <= slots id d;
  sb_other h : valid h -> h <> id -> values_at h d' = values_at h d;
}.

Lemma same_but_refl id d : om_wf op_lt valid (ds_store d) -> same_but id d d.
Proof. by split. Qed.

Lemma same_but_trans id d1 d2 d3 : same_but id d1 d2 -> same_but id d2 d3 -> same_but id d1 d3.
Proof. intros [] []. split; try congruence; try lia. intros h Hh Hne. by rewrite sb_other1, sb_other0. Qed.

Lemma om_set_length (k : Hash) (st : Storage) m : valid k -> om_wf op_lt valid m ->
  length (om_set op_lt k st m) = (length m + match om_find op_lt k m with Some _ => 0 | None => 1 end)%nat.
Proof.
  intros Hk. induction m as [|[k' v'] m IH]; [done|]. rewrite om_wf_cons. intros (Hk' & Hm & Hall). cbn [om_set om_find length].
  destruct (op_lt k k') eqn:E1; [cbn; lia|]. destruct (op_lt k' k) eqn:E2; cbn; [rewrite IH by done; lia|lia].
Qed.

Lemma put_same_but id st d d' : valid id -> om_wf op_lt valid (ds_store d) -> ds_store d' = om_set op_lt id st (ds_store d) ->
  ds_now d' = ds_now d -> ds_max_keys d' = ds_max_keys d -> ds_max_size d' = ds_max_size d -> same_but id d d'.
Proof.
  intros Hid Hw Hs H1 H2 H3. split; try done; rewrite ?Hs.
  - by apply (om_set_wf op_lt valid).
  - unfold slots, find_storage. rewrite Hs, (om_find_set_eq op_lt valid), om_set_length by done. destruct (om_find op_lt id (ds_store d)); lia.
  - intros h Hh Hne. unfold values_at, find_storage. by rewrite Hs, (om_find_set_ne op_lt valid) by (done || congruence).
Qed.

Lemma find_value_none (p : ValueStorage -> bool) vs : Forall (fun v => p v = false) vs -> find_value p vs = None.
Proof. induction 1 as [|v vs Hv _ IH]; [done|]. cbn. by rewrite Hv, IH. Qed.

Lemma v_size_nonneg v : 0 <= v_size v.
Proof. unfold v_size, len. lia. Qed.

Lemma load_one fuel id v d : valid id -> om_wf op_lt valid (ds_store d) -> savable (ds_now d) v -> slots id d <= ds_max_keys d ->
  Forall (fun w => v_id (deref (vs_data w)) <> v_id (deref (vs_data v))) (values_at id d) -> Z.of_nat (length (values_at id d)) < MAX_VALUES ->
  0 <= ds_size d -> ds_size d + v_size (deref (vs_data v)) <= ds_max_size d < 2 ^ 64 ->
  exists d', storageStore AF_INET6 deref types fuel id (alloc (deref (vs_data v))) (Z.min (vs_created v) (ds_now d)) None false d = Some (Ret (true, d')) /\
    same_but id d d' /\ values_at id d' = values_at id d ++ [loaded v] /\ ds_size d' = ds_size d + v_size (deref (vs_data v)).
Proof.
  intros Hid Hw (_ & _ & _ & Hc & _ & Hexp & Hal) Hk Hids Hcnt H0 Hsz. set (x := deref (vs_data v)) in *. pose proof (v_size_nonneg x).
  unfold storageStore. rewrite (Z.min_l (Z.min _ _)), Z.min_l by lia. rewrite Hal, (proj2 (Z.ltb_ge _ _)) by lia. set (e := vs_created v + _).
  unfold store_value.
  assert (Hf : exists st d1, find_or_make id d = Some (st, d1) /\ st_values st = values_at id d /\ ds_size d1 = ds_size d /\
    om_wf op_lt valid (ds_store d1) /\ same_but id d d1 /\ ds_buckets d1 = ds_buckets d).
  { unfold find_or_make, values_at. unfold slots in Hk. destruct (find_storage id d) as [st|] eqn:Ef; [exists st, d; split_and!; try done; by apply same_but_refl|].
    rewrite (proj2 (Z.leb_gt _ _)) by lia. eexists _, _. split; [done|].
    split; [done|]. split; [by destruct (ds_maintain d)|]. split; [destruct (ds_maintain d); cbn; by apply (om_set_wf op_lt valid)|]. split; [|by destruct (ds_maintain d)].
    by apply (put_same_but id (Storage_make (ds_now d))); destruct (ds_maintain d). }
  destruct Hf as (st & d1 & -> & Hst & Hs1 & Hw1 & Hsb & _). unfold st_store. rewrite find_value_none.
  2:{ rewrite Hst. eapply Forall_impl; [exact Hids|]. intros w Hne. apply orb_false_iff. unfold id_of. rewrite Hal. split; [|by apply Z.eqb_neq].
      apply bool_decide_eq_false. intros E. apply Hne. by rewrite E, Hal. }
  unfold valueCount. rewrite Hst, (proj2 (Z.ltb_lt _ _)) by done. cbn [negb size_diff values_diff]. unfold size_of. rewrite Hal. fold (v_size x).
  set (st' := st_set_values _ _ st). set (d3 := ds_set_buckets _ _). cbn [ds_max_size ds_size ds_notify ds_count].
  assert (Hs3 : u64 (ds_size d3 + v_size x) = ds_size d + v_size x) by (cbn; rewrite Hs1; apply wrap_small; lia). rewrite Hs3.
  assert (Hm3 : ds_max_size d3 = ds_max_size d) by (cbn; apply (sb_max _ _ _ Hsb)). rewrite Hm3, (proj2 (Z.ltb_ge _ _)) by lia.
  eexists. split; [done|]. split; [|split].
  - eapply same_but_trans; [exact Hsb|]. by apply (put_same_but id st').
  - unfold values_at at 1, find_storage. cbn. rewrite (om_find_set_eq op_lt valid) by done. unfold st'. cbn. by rewrite ?Hst.
  - cbn. exact Hs3.
Qed.

(** *** Loading a key, and all of them *)

Definition vid (v : ValueStorage) : Z := v_id (deref (vs_data v)).

Lemma loaded_vid now v : savable now v -> vid (loaded v) = vid v.
Proof. intros (_ & _ & _ & _ & _ & _ & Hal). unfold vid. cbn. by rewrite Hal. Qed.

Lemma load_key fuel id os vs : Forall2 (fun o v => exists ov, o = elem_obj v ov /\ msgpack_unpack ov (Value_make 0) = Ret (deref (vs_data v))) os vs -> forall d,
  valid id -> om_wf op_lt valid (ds_store d) -> Forall (savable (ds_now d)) vs -> slots id d <= ds_max_keys d ->
  NoDup (map vid (values_at id d ++ vs)) -> Z.of_nat (length (values_at id d ++ vs)) <= MAX_VALUES ->
  0 <= ds_size d -> ds_size d + sizes deref vs <= ds_max_size d < 2 ^ 64 ->
  exists d', import_each fuel id os d = Some (Ret d') /\ same_but id d d' /\ values_at id d' = values_at id d ++ map loaded vs /\ ds_size d' = ds_size d + sizes deref vs.
Proof.
  induction 1 as [|o v os vs (ov & -> & Hov) H2 IH]; intros d Hid Hw Hsav Hk Hnd Hcnt H0 Hsz.
  { exists d. split; [done|]. split; [by apply same_but_refl|]. split; [cbn; by rewrite app_nil_r|cbn; lia]. }
  inversion_clear Hsav as [|? ? Hv Hvs]. rewrite sizes_cons in Hsz. pose proof (v_size_nonneg (deref (vs_data v))) as Hvn.
  assert (Hsn : 0 <= sizes deref vs) by (clear; induction vs as [|w vs IH]; [done|]; rewrite sizes_cons; pose proof (v_size_nonneg (deref (vs_data w))); unfold size_of; lia).
  unfold size_of in Hsz at 1. rewrite map_app in Hnd. cbn [map] in Hnd. apply NoDup_app in Hnd as Hnd'. destruct Hnd' as (_ & Hdisj & _). rewrite length_app in Hcnt. cbn in Hcnt.
  destruct (load_one fuel id v d Hid Hw Hv Hk) as (d1 & Hs & Hsb & Hval & Hsize); [|lia|done|lia|].
  { apply Forall_forall. intros w Hin E. apply (Hdisj (vid w)); [by apply list_elem_of_fmap_2|]. unfold vid in *. rewrite E. left. }
  destruct (IH d1) as (d' & Hd' & Hsb' & Hval' & Hsize'); try done.
  - by apply Hsb.
  - by rewrite (sb_now _ _ _ Hsb).
  - rewrite (sb_keys _ _ _ Hsb). pose proof (sb_slots _ _ _ Hsb). lia.
  - rewrite Hval, <- app_assoc, !map_app. cbn [map app]. by rewrite (loaded_vid (ds_now d)).
  - rewrite Hval, !length_app. cbn. lia.
  - lia.
  - rewrite Hsize, (sb_max _ _ _ Hsb). lia.
  - exists d'. split; [|split; [by eapply same_but_trans|split]].
    + destruct Hv as (_ & _ & _ & Hc1 & Hc2 & _). cbn [import_each elem_obj]. rewrite as_int64_pos by lia. cbn [mbind outcome_bind]. rewrite Hov. cbn [mbind outcome_bind]. by rewrite Hs.
    + by rewrite Hval', Hval, <- app_assoc.
    + rewrite Hsize', Hsize, sizes_cons. unfold size_of at 1. lia.
Qed.

Lemma pack_array_cons n : exists b r, pack_array n = b :: r.
Proof. unfold pack_array. repeat case_match; eauto. Qed.

(** One key, from the storage to the storage. *)
Lemma save_load_one fuel id st d : valid id -> storage_wf deref st -> om_wf op_lt valid (ds_store d) -> Forall (savable (ds_now d)) (st_values st) ->
  values_at id d = [] -> slots id d <= ds_max_keys d -> 0 <= ds_size d -> ds_size d + sizes deref (st_values st) <= ds_max_size d < 2 ^ 64 ->
  exists b d', export_storage (id, st) = Ret (id, b) /\ import_one fuel (id, b) d = Some (Ret d') /\
    same_but id d d' /\ values_at id d' = map loaded (st_values st) /\ ds_size d' = ds_size d + sizes deref (st_values st).
Proof.
  intros Hid (Hc & Hn & _) Hw Hsav Hnil Hk H0 Hsz. destruct (export_each_spec (ds_now d) (st_values st) Hsav) as (os & He & Hl & Hwf & H2).
  unfold valueCount, MAX_VALUES in Hc. unfold export_storage. cbn [fst snd]. rewrite He. cbn [mbind outcome_bind]. eexists. 
  destruct (load_key fuel id os (st_values st) H2 d Hid Hw Hsav Hk) as (d' & Hd' & Hsb & Hval & Hs'); try done; [by rewrite Hnil|rewrite Hnil; exact Hc|].
  exists d'. split; [done|]. rewrite Hnil in Hval. split; [|by split_and!]. unfold import_one. cbn [fst snd].
  assert (Hb : pack_array (Z.of_nat (length (st_values st))) ++ concat (map pack os) = pack (OArr os) ++ []) by (rewrite app_nil_r; cbn [pack]; by rewrite Hl).
  rewrite Hb, unpack_packed; [|apply wf_arr; split; [lia|]; split; [lia|]; exact Hwf|constructor]. rewrite <- Hb.
  by destruct (pack_array_cons (Z.of_nat (length (st_values st)))) as (b0 & r & ->).
Qed.

Lemma save_load fuel l : forall d, om_wf op_lt valid l -> Forall (fun e => storage_wf deref e.2) l -> om_wf op_lt valid (ds_store d) ->
  Forall (fun e => Forall (savable (ds_now d)) (st_values e.2)) l -> (forall e, e ∈ l -> values_at e.1 d = []) ->
  Z.of_nat (length (ds_store d) + length l) <= ds_max_keys d -> 0 <= ds_size d -> ds_size d + osum (st_size deref) l <= ds_max_size d < 2 ^ 64 ->
  exists bs d', export_storages l = Ret bs /\ importValues fuel bs d = Some (Ret d') /\
    forall h, valid h -> values_at h d' = values_at h d ++ match om_find op_lt h l with Some st => map loaded (st_values st) | None => [] end.
Proof.
  induction l as [|[id st] l IH]; intros d Hl Hst Hw Hsav Hfresh Hk H0 Hsz.
  { exists [], d. split_and!; try done. intros h _. by rewrite app_nil_r. }
  apply om_wf_cons in Hl as (Hid & Hl & Habove). inversion_clear Hst as [|? ? Hst1 Hst2]. inversion_clear Hsav as [|? ? Hs1 Hs2]. cbn [fst snd osum foldr length] in *.
  fold (osum (st_size deref) l) in Hsz. unfold st_size in Hsz at 1.
  assert (Hnn : forall vs, 0 <= sizes deref vs) by (intros vs; induction vs as [|w vs IHw]; [done|]; rewrite sizes_cons; pose proof (v_size_nonneg (deref (vs_data w))); unfold size_of; lia).
  assert (Hno : 0 <= osum (st_size deref) l) by (clear - Hnn; induction l as [|e l IHl]; [done|]; cbn [osum foldr]; fold (osum (st_size deref) l); unfold st_size at 1; pose proof (Hnn (st_values e.2)); lia).
  pose proof (Hnn (st_values st)).
  destruct (save_load_one fuel id st d Hid Hst1 Hw Hs1) as (b & d1 & He & Hi & Hsb & Hval & Hsize); [by apply (Hfresh (id, st)); left| |done|lia|].
  { unfold slots. destruct (find_storage id d); lia. }
  assert (Hlen : Z.of_nat (length (ds_store d1)) <= Z.of_nat (length (ds_store d)) + 1).
  { pose proof (sb_slots _ _ _ Hsb) as Hslots. unfold slots in Hslots. destruct (find_storage id d), (find_storage id d1); lia. }
  assert (Hother : forall e, e ∈ l -> valid e.1 /\ e.1 <> id).
  { intros e Hin. rewrite Forall_forall in Habove. pose proof (Habove e Hin) as Hlt. split; [|intros E; by rewrite E, (ltb_irrefl op_lt valid) in Hlt].
    destruct Hl as [_ Hv]. rewrite Forall_forall in Hv. by apply Hv. }
  destruct (IH d1) as (bs & d' & Hbs & Hd' & Hall); try done.
  - by apply Hsb.
  - by rewrite (sb_now _ _ _ Hsb).
  - intros e Hin. destruct (Hother e Hin). rewrite (sb_other _ _ _ Hsb) by done. apply Hfresh. by right.
  - rewrite (sb_keys _ _ _ Hsb). lia.
  - lia.
  - rewrite Hsize, (sb_max _ _ _ Hsb). lia.
  - exists ((id, b) :: bs), d'. split; [cbn [export_storages]; rewrite He; cbn [mbind outcome_bind]; by rewrite Hbs|]. split; [cbn [importValues]; by rewrite Hi|].
    intros h Hh. rewrite Hall by done. cbn [om_find]. destruct (decide (h = id)) as [->|Hne].
    + rewrite (om_find_above op_lt id l Habove), app_nil_r, Hval. rewrite (ltb_irrefl op_lt valid). pose proof (Hfresh (id, st) ltac:(left)) as Hnil. cbn in Hnil. by rewrite Hnil.
    + rewrite (sb_other _ _ _ Hsb) by done. f_equal. destruct (key_cases op_lt valid h id Hh Hid) as [(H1 & _ & _)|[(H1 & H2 & _)|(_ & _ & ?)]]; [|by rewrite H2, H1|done].
      rewrite H1, (om_find_above op_lt h l); [done|]. eapply Forall_impl; [exact Habove|]. intros e. by apply (ltb_trans op_lt valid).
Qed.

Lemma contents_values h d : contents h d = map (fun v => (deref (vs_data v), vs_created v)) (values_at h d).
Proof. unfold contents, values_at. by destruct (find_storage h d). Qed.

(** C16. A node that is restarted holds what it held: saving the values of a node
    succeeds, loading them into a new node with room for them succeeds whatever the
    time passed, without the loops of [expireStore], and the new node holds under
    every key the same values in the same order with the same creation times, provided
    that they survive the wire and have not expired by their types. *)
Theorem saved_values_load fuel now max_keys max_size maintain d : ds_wf deref d ->
  Forall (fun e => Forall (savable now) (st_values e.2)) (ds_store d) ->
  Z.of_nat (length (ds_store d)) <= max_keys -> osum (st_size deref) (ds_store d) <= max_size < 2 ^ 64 ->
  exists bs d', exportValues d = Ret bs /\ importValues fuel bs (DhtStore_make now max_keys max_size maintain) = Some (Ret d') /\
    forall h, valid h -> contents h d' = contents h d.
Proof.
  intros (Hw & Hst & _) Hsav Hk Hsz. destruct (save_load fuel (ds_store d) (DhtStore_make now max_keys max_size maintain)) as (bs & d' & He & Hi & Hall); try done.
  { apply om_wf_nil. }
  exists bs, d'. split; [done|]. split; [done|]. intros h Hh. rewrite !contents_values, Hall by done. unfold values_at, find_storage at 1. cbn [ds_store DhtStore_make om_find app].
  unfold find_storage. destruct (om_find op_lt h (ds_store d)) as [st|] eqn:Ef; [|done]. apply (om_find_Some_elem op_lt valid) in Ef; [|done|done].
  rewrite Forall_forall in Hsav. specialize (Hsav (h, st) Ef). cbn in Hsav. rewrite map_map. apply map_ext_in. intros v Hv. rewrite Forall_forall in Hsav.
  destruct (Hsav v ltac:(by apply list_elem_of_In)) as (_ & _ & _ & _ & _ & _ & Hal). cbn. by rewrite Hal.
Qed.
End State.

(** ** A saved node *)

Module StateDemo.
Import StorageDemo.

Definition alloc (v : @Value GnutlsDemo.demo) : vptr := Z.to_pos (v_id v).
Definition before : DhtStore := mkDS 0 [(key, two)] [] ∅ 1%positive 2 30 8 100 false [].

Lemma before_wf : ds_wf heap before.
Proof.
  split; [|split; [constructor; [exact two_wf|constructor]|split; reflexivity]]. apply (om_wf_cons op_lt (wf_hash HASH_LEN)).
  split; [exact key_wf|]. split; [apply om_wf_nil|constructor].
Qed.

Lemma before_savable : Forall (fun e => Forall (savable heap alloc [] 5) (st_values e.2)) (ds_store before).
Proof. constructor; [|constructor]. constructor; [|constructor; [|constructor]]; unfold savable, wf_value; cbn; split_and!; first [done|by_compute|idtac]. Qed.
End StateDemo.

Lemma saved_values_load_witness : exists bs d', exportValues StorageDemo.heap StateDemo.before = Ret bs /\
  importValues 10 StorageDemo.heap StateDemo.alloc [] 0 bs (DhtStore_make 5 1 30 true) = Some (Ret d') /\
  contents StorageDemo.heap StorageDemo.key d' = [(StorageDemo.heap 1, 0); (StorageDemo.heap 2, 0)].
Proof.
  destruct (saved_values_load 10 StorageDemo.heap StateDemo.alloc [] 0 5 1 30 true StateDemo.before StateDemo.before_wf StateDemo.before_savable) as (bs & d' & H1 & H2 & H3);
    [done|done|].
  exists bs, d'. split; [exact H1|]. split; [exact H2|]. rewrite (H3 StorageDemo.key StorageDemo.key_wf). reflexivity.
Defined.
