(* ===== verification/Maintain.v ===== *)
(** * Maintain: the periodic work of a node

    Models the maintenance of src/opendht-2.1.4/src/dht.cpp: the storages that others are
    closer to are handed over ([maintainStorage], [dataPersistence]), expired nodes leave the
    buckets ([expireBuckets]), old buckets are refreshed with requests ([bucketMaintenance],
    [neighbourhoodMaintenance]), and the addresses that peers report are counted
    ([reportedAddr], [getPublicAddress], [connectivityChanged]).  Random draws are arguments;
    [sendFindNode] and [sendPing] of the network engine are functions on the store of nodes,
    and [announce] is the list of its calls. *)
From S2P Require Import Prelude StdMap InfoHash SockAddr Node RoutingTable MsgPack Value Query Storage DhtStorage.

(** ** Storages *)

Definition MAX_STORAGE_MAINTENANCE_EXPIRE_TIME : Z := minutes 10.

Section Storages.
Context {G : Gnutls} (deref : vptr -> Value) {PA : Partition} (types : list (Z * Z)) (myid : Hash).

Definition st_set_maintenance (t : Z) (st : Storage) : Storage :=
  mkStorage t (st_listeners st) (st_local st) (st_token st) (st_values st) (st_total st).

(** The calls of [announce] for one family, and whether the values are still wanted here;
    [nodes] are the identifiers of the nodes [findClosestNodes] gives, closest first. *)
Definition due (force : bool) (now : Z) (v : ValueStorage) : bool :=
  force || (now + MAX_STORAGE_MAINTENANCE_EXPIRE_TIME <? vs_created v + getType types (v_type (deref (vs_data v)))).

Definition maintain (force : bool) (now : Z) (id : Hash) (st : Storage) (nodes : list Hash) : bool * list (vptr * Z) :=
  match last nodes with
  | None => (true, [])
  | Some back =>
      if force || (xorCmp id back myid <? 0)
      then (false, map (fun v => (vs_data v, vs_created v)) (List.filter (due force now) (st_values st)))
      else (true, [])
  end.

(** [maintainStorage] of the storage at [id]: the announces on each network, and the
    node. *)
Definition maintainStorage (force : bool) (id : Hash) (st : Storage) (nodes4 nodes6 : list Hash) (d : DhtStore) :
    list (vptr * Z) * list (vptr * Z) * DhtStore :=
  let '(want4, a4) := maintain force (ds_now d) id st nodes4 in
  let '(want6, a6) := maintain force (ds_now d) id st nodes6 in
  (a4, a6,
   if negb want4 && negb want6 then
     let '(diff, st') := st_clear st in ds_count (size_diff diff) (values_diff diff) (put_storage id st' d)
   else d).

(** [dataPersistence]: the time of the next round is put into the storage as it is
    then. *)
Definition dataPersistence (id : Hash) (nodes4 nodes6 : list Hash) (d : DhtStore) : list (vptr * Z) * list (vptr * Z) * DhtStore :=
  match find_storage id d with
  | Some st =>
      if st_maintenance st <? ds_now d then
        let '(a4, a6, d1) := maintainStorage false id st nodes4 nodes6 d in
        let next := ds_now d + MAX_STORAGE_MAINTENANCE_EXPIRE_TIME in
        let st1 := default st (find_storage id d1) in
        (a4, a6, ds_notify [NSchedulePersistence next id] (put_storage id (st_set_maintenance next st1) d1))
      else ([], [], d)
  | None => ([], [], d)
  end.
End Storages.

(** ** Reported addresses *)

(** [std::sort] by decreasing counts: which of two equal counts comes first is its
    choice. *)
Class SortReports := {
  sort_reports : list (Z * SockAddr) -> list (Z * SockAddr);
  sort_perm l : sort_reports l ≡ₚ l;
  sort_sorted l : StronglySorted (fun a b => b.1 <= a.1) (sort_reports l);
}.

Section Reported.
Context {SR : SortReports}.

Abbreviation Reports := (list (Z * SockAddr)).

(** [it->first++] on the first report of the address, [None] when there is none. *)
Fixpoint count_report (addr : SockAddr) (l : Reports) : option Reports :=
  match l with
  | [] => None
  | (n, a) :: l' => if addr_equals a addr then Some ((u32 (n + 1), a) :: l') else (cons (n, a)) <$> count_report addr l'
  end.

Definition reportedAddr (addr : SockAddr) (l : Reports) : Reports :=
  match count_report addr l with
  | Some l' => l'
  | None => if Z.of_nat (length l) <? 32 then l ++ [(1, addr)] else l
  end.

(** [onReportedAddr]: an empty address is ignored. *)
Definition onReportedAddr (addr : SockAddr) (l : Reports) : Reports := match addr with [] => l | _ => reportedAddr addr l end.

(** [getPublicAddress]: it sorts the reports in place; family 0 stands for both. *)
Definition getPublicAddress (family : Z) (l : Reports) : list SockAddr * Reports :=
  let l' := sort_reports l in
  (map snd (List.filter (fun r => (family =? 0) || (family =? getFamily r.2)) l'), l').

(** The part of [connectivityChanged] on the reports. *)
Definition forget_family (af : Z) (l : Reports) : Reports := List.filter (fun r => negb (getFamily r.2 =? af)) l.
End Reported.

(** ** Buckets *)

Section Buckets.
Context (sendPing : ptr -> World -> World).

Definition expireBucket (b : Bucket) (w : World) : Bucket * World :=
  let kept := List.filter (fun p => negb (on_node isExpired w p)) (b_nodes b) in
  let b' := b_set_nodes kept b in
  if (length kept <? length (b_nodes b))%nat then sendCachedPing sendPing b' w else (b', w).

Fixpoint expireBuckets (bs : list Bucket) (w : World) : list Bucket * World :=
  match bs with
  | [] => ([], w)
  | b :: bs' => let '(b', w1) := expireBucket b w in let '(r, w2) := expireBuckets bs' w1 in (b' :: r, w2)
  end.

(** What is drawn for one bucket: the bytes of an identifier, the three trials, the
    node. *)
Record Draws := mkDraws { dr_id : list Z; dr_next : bool; dr_prev : bool; dr_38 : bool; dr_node : Z -> Z }.

Definition empty_at (bs : list Bucket) (i : nat) : bool :=
  match bs !! i with Some b => match b_nodes b with [] => true | _ => false end | None => true end.

(** The bucket asked: a neighbour when this one is empty, and sometimes else. *)
Definition choose_bucket (bs : list Bucket) (i : nat) (r : Draws) : nat :=
  let q := if (S i <? length bs)%nat && (empty_at bs i || dr_next r) then S i else i in
  if (0 <? i)%nat && (empty_at bs q || dr_prev r) && negb (empty_at bs (pred i)) then pred i else q.

Definition chosen_node (bs : list Bucket) (i : nat) (r : Draws) (w : World) : option ptr :=
  match bs !! choose_bucket bs i r with Some b => randomNode w (dr_node r) b | None => None end.

(** [network_engine.want()], and the table of the other family. *)
Context (engine_want : Z) (sendFindNode : ptr -> Hash -> Z -> World -> World).

Definition maintenance_want (other : list Bucket) (id : Hash) (r : Draws) : Z :=
  if engine_want =? -1 then -1
  else match other !! findBucket other id with
       | Some b => if Z.of_nat (length (b_nodes b)) <? TARGET_NODES then 3 else if dr_38 r then 3 else -1
       | None => if dr_38 r then 3 else -1
       end.

(** One turn of the loop of [bucketMaintenance]: the request, if one is sent. *)
Definition maintain_bucket (now : Z) (bs other : list Bucket) (i : nat) (r : Draws) (w : World) :
    outcome (option (ptr * Hash * Z) * World) :=
  match bs !! i with
  | None => Ret (None, w)
  | Some b =>
      if (b_time b <? now - minutes 10) || empty_at bs i then
        id ← randomId bs i (dr_id r);
        match chosen_node bs i r w with
        | Some n =>
            if on_node (isPendingMessage w) w n then Ret (None, w)
            else let want := maintenance_want other id r in Ret (Some (n, id, want), sendFindNode n id want w)
        | None => Ret (None, w)
        end
      else Ret (None, w)
  end.

Fixpoint bucketMaintenance_from (now : Z) (bs other : list Bucket) (i todo : nat) (draws : nat -> Draws) (w : World) :
    outcome (list (ptr * Hash * Z) * World) :=
  match todo with
  | O => Ret ([], w)
  | S todo' =>
      '(q, w1) ← maintain_bucket now bs other i (draws i) w;
      '(qs, w2) ← bucketMaintenance_from now bs other (S i) todo' draws w1;
      Ret (match q with Some q => q :: qs | None => qs end, w2)
  end.

(** [bucketMaintenance]: whether a request was sent, the requests, the nodes. *)
Definition bucketMaintenance (now : Z) (bs other : list Bucket) (draws : nat -> Draws) (w : World) :
    outcome (bool * list (ptr * Hash * Z) * World) :=
  '(qs, w') ← bucketMaintenance_from now bs other 0 (length bs) draws w;
  Ret (match qs with [] => false | _ => true end, qs, w').

(** [neighbourhoodMaintenance]: our identifier with another last byte is asked for. *)
Definition neighbourhoodMaintenance (myid : Hash) (bs : list Bucket) (r : Draws) (w : World) :
    bool * option (ptr * Hash * Z) * World :=
  let b := findBucket bs myid in
  if (length bs <=? b)%nat then (false, None, w)
  else
    let id := <[(HASH_LEN - 1)%nat := nth 0 (dr_id r) 0]> myid in
    match chosen_node bs b r w with
    | Some n => (true, Some (n, id, engine_want), sendFindNode n id engine_want w)
    | None => (true, None, w)
    end.
End Buckets.

(** ** Values are handed over before they are dropped *)

Section HandOver.
Context {G : Gnutls} (deref : vptr -> Value) {PA : Partition} (types : list (Z * Z)) (myid : Hash).

Abbreviation valid := (wf_hash HASH_LEN).

(** What [findClosestNodes] gives. *)
Definition closest_first (id : Hash) (nodes : list Hash) : Prop :=
  Forall valid nodes /\ StronglySorted (fun a b => xor_dist id a <= xor_dist id b) nodes.

(** The values of [st] that live long enough were announced to nodes that are all
    closer. *)
Definition handed (force : bool) (now : Z) (id : Hash) (st : Storage) (nodes : list Hash) (a : list (vptr * Z)) : Prop :=
  nodes <> [] /\ (force = false -> Forall (fun n => xor_dist id n < xor_dist id myid) nodes) /\
  forall v, v ∈ st_values st -> now + MAX_STORAGE_MAINTENANCE_EXPIRE_TIME < vs_created v + getType types (v_type (deref (vs_data v))) ->
    (vs_data v, vs_created v) ∈ a.

Lemma sorted_last {A} (R : A -> A -> Prop) l x : (forall y, R y y) -> StronglySorted R l -> last l = Some x -> Forall (fun y => R y x) l.
Proof.
  intros Hr. induction 1 as [|y l Hs IH Hy]; [done|]. destruct l as [|z l]; [intros [= ->]; by constructor|]. intros Hl. change (last (z :: l) = Some x) in Hl.
  constructor; [|by apply IH]. rewrite Forall_forall in Hy. apply Hy. apply last_Some_elem_of in Hl. exact Hl.
Qed.

Lemma maintain_hands force now id st nodes a : valid id -> valid myid -> closest_first id nodes ->
  maintain deref types myid force now id st nodes = (false, a) -> handed force now id st nodes a.
Proof.
  intros [Hl Hb] [Hml Hmb] [Hv Hs]. unfold maintain. destruct (last nodes) as [back|] eqn:El; [|done].
  destruct (force || (xorCmp id back myid <? 0)) eqn:E; [|done]. intros [= <-]. split; [by intros ->|]. split.
  - intros ->. cbn in E. apply Z.ltb_lt in E. assert (Hback : valid back) by (rewrite Forall_forall in Hv; apply Hv; by apply last_Some_elem_of). destruct Hback as [Hbl Hbb].
    rewrite xorCmp_dist in E by (done || congruence). eapply Forall_impl; [by apply (sorted_last (fun a b => xor_dist id a <= xor_dist id b))|]. cbn. intros n Hn.
    destruct (Z.compare_spec (xor_dist id back) (xor_dist id myid)); cbn in E; lia.
  - intros v Hin Hlive. apply list_elem_of_fmap. exists v. split; [done|]. apply list_elem_of_In, List.filter_In. split; [by apply list_elem_of_In|].
    unfold due. rewrite (proj2 (Z.ltb_lt _ _)) by done. apply orb_true_r.
Qed.

Lemma clear_wf id st d : ds_wf deref d -> valid id -> find_storage id d = Some st ->
  let '(diff, st') := st_clear st in
  ds_wf deref (ds_count (size_diff diff) (values_diff diff) (put_storage id st' d)).
Proof.
  intros Hd Hid Hf. cbn. pose proof (find_storage_wf deref id st d Hd Hf) as Hst. set (st' := st_set_values [] 0 st).
  assert (Hst' : storage_wf deref st') by (split_and!; [done|constructor|done]).
  eapply (moved_wf deref id st st' d); try done; [by left| |].
  - apply moved_step, total_sizes; [done|done|]. cbn. by rewrite Z.add_opp_diag_r.
  - apply moved_step. apply u64_ext. cbn. unfold valueCount. cbn. lia.
Qed.

Lemma maintainStorage_spec force id st nodes4 nodes6 d : ds_wf deref d -> valid id -> valid myid -> closest_first id nodes4 -> closest_first id nodes6 ->
  find_storage id d = Some st -> let '(a4, a6, d') := maintainStorage deref types myid force id st nodes4 nodes6 d in
  ds_wf deref d' /\ ds_now d' = ds_now d /\ ds_buckets d' = ds_buckets d /\ (forall h, valid h -> h <> id -> find_storage h d' = find_storage h d) /\
  exists st', find_storage id d' = Some st' /\
    (st' = st \/ (st_values st' = [] /\ handed force (ds_now d) id st nodes4 a4 /\ handed force (ds_now d) id st nodes6 a6)).
Proof.
  intros Hd Hid Hme H4 H6 Hf. unfold maintainStorage.
  destruct (maintain deref types myid force (ds_now d) id st nodes4) as [want4 a4] eqn:E4. destruct (maintain deref types myid force (ds_now d) id st nodes6) as [want6 a6] eqn:E6.
  destruct want4, want6; cbn [negb andb]; try (split_and!; try done; exists st; split; [done|by left]).
  pose proof (clear_wf id st d Hd Hid Hf) as Hw. cbn in Hw |- *. destruct Hd as [Hm _]. split; [exact Hw|]. split; [done|]. split; [done|]. split.
  - intros h Hh Hne. unfold find_storage. cbn. by apply (om_find_set_ne op_lt valid).
  - eexists. split; [unfold find_storage; cbn; by apply (om_find_set_eq op_lt valid)|]. right. split; [done|]. split; by apply maintain_hands.
Qed.

Lemma set_maintenance_wf t st : storage_wf deref st -> storage_wf deref (st_set_maintenance t st).
Proof. done. Qed.

(** C17. A node gives values up only after handing them over. The periodic maintenance
    of a storage leaves the other keys alone and keeps the counters of the node exact;
    it either keeps the values, or drops them all, and then on both networks the
    closest nodes it knows are all closer to the key than itself, and every value that
    lives ten minutes more was announced on both. A storage whose time had come is
    looked at again in ten minutes. The quota index is not told of the values that
    were dropped. *)
Theorem maintenance_hands_over id st nodes4 nodes6 d a4 a6 d' : ds_wf deref d -> valid id -> valid myid ->
  closest_first id nodes4 -> closest_first id nodes6 -> find_storage id d = Some st ->
  dataPersistence deref types myid id nodes4 nodes6 d = (a4, a6, d') ->
  ds_wf deref d' /\ ds_buckets d' = ds_buckets d /\ (forall h, valid h -> h <> id -> find_storage h d' = find_storage h d) /\
  exists st', find_storage id d' = Some st' /\
    (st_maintenance st < ds_now d -> st_maintenance st' = ds_now d + MAX_STORAGE_MAINTENANCE_EXPIRE_TIME) /\
    (st_values st' = st_values st \/
     (st_values st' = [] /\ handed false (ds_now d) id st nodes4 a4 /\ handed false (ds_now d) id st nodes6 a6)).
Proof.
  intros Hd Hid Hme H4 H6 Hf. unfold dataPersistence. rewrite Hf. destruct (Z.ltb_spec (st_maintenance st) (ds_now d)) as [Hlt|Hge].
  2:{ intros [= <- <- <-]. split_and!; try done. exists st. split; [done|]. split; [lia|by left]. }
  pose proof (maintainStorage_spec false id st nodes4 nodes6 d Hd Hid Hme H4 H6 Hf) as Hs.
  destruct (maintainStorage deref types myid false id st nodes4 nodes6 d) as [[b4 b6] d1]. destruct Hs as (Hw & Hn & Hb & Ho & st1 & Hf1 & Hcase).
  rewrite Hf1. cbn [default]. intros [= <- <- <-]. set (next := ds_now d + _). pose proof (find_storage_wf deref id st1 d1 Hw Hf1) as Hst1.
  split; [apply ds_notify_wf; by apply (put_same_wf deref id st1); [..|left|done|done]|]. split; [exact Hb|]. pose proof Hw as [Hm _]. split.
  - intros h Hh Hne. rewrite <- Ho by done. unfold find_storage. cbn. by apply (om_find_set_ne op_lt valid).
  - eexists. split; [unfold find_storage; cbn; by apply (om_find_set_eq op_lt valid)|]. split; [done|]. destruct Hcase as [->|Hcase]; [by left|by right].
Qed.
End HandOver.

(** ** The table under maintenance *)

Section Table.
Context (sendPing : ptr -> World -> World) `{!PingEngine sendPing}.

(** A bucket that lost nodes. *)
Definition thinner (b b' : Bucket) : Prop := b_first b' = b_first b /\ b_nodes b' `sublist_of` b_nodes b.

Lemma tiles_thinner idf bs bs' : Forall2 thinner bs bs' -> forall lo hi, tiles idf lo bs hi -> tiles idf lo bs' hi.
Proof.
  induction 1 as [|b b' bs bs' [Hf Hn] _ IH]; intros lo hi Ht; [done|]. inversion_clear Ht as [|? d ? ? ? Hd Hm Hw Hlo Hall Hrest].
  apply (tiles_cons _ lo d); rewrite ?Hf; [done..| |by apply IH]. by eapply Forall_sublist_of.
Qed.

Lemma expireBuckets_thinner bs : forall w, Forall2 thinner bs (expireBuckets sendPing bs w).1 /\ forall q, RoutingTable.id_of (expireBuckets sendPing bs w).2 q = RoutingTable.id_of w q.
Proof.
  induction bs as [|b bs IH]; intros w; [by split|]. cbn [expireBuckets]. unfold expireBucket. set (kept := List.filter _ (b_nodes b)).
  assert (Hk : kept `sublist_of` b_nodes b) by (unfold kept; clear; induction (b_nodes b) as [|p l IH]; cbn; [done|]; case_match; by constructor).
  destruct (length kept <? length (b_nodes b))%nat.
  - destruct (sendCachedPing_ok sendPing (b_set_nodes kept b) w) as (Hid & Hn & Hf & _). destruct (sendCachedPing _ _ w) as [b' w1]. cbn in Hid, Hn, Hf.
    specialize (IH w1). destruct (expireBuckets sendPing bs w1) as [r w2]. destruct IH as [H1 H2]. split; [constructor; [split; [done|by rewrite Hn]|done]|]. intros q. cbn in *. by rewrite H2, Hid.
  - specialize (IH w). destruct (expireBuckets sendPing bs w) as [r w2]. destruct IH as [H1 H2]. split; [constructor; [by split|done]|done].
Qed.

(** Expiring nodes keeps the partition of the identifier space. *)
Theorem expireBuckets_table bs w : table_ok (RoutingTable.id_of w) bs ->
  table_ok (RoutingTable.id_of (expireBuckets sendPing bs w).2) (expireBuckets sendPing bs w).1.
Proof.
  intros [Ht Hs]. destruct (expireBuckets_thinner bs w) as [H2 Hid]. set (r := expireBuckets sendPing bs w) in *. assert (Hok : table_ok (RoutingTable.id_of w) r.1).
  { split; [by apply (tiles_thinner _ bs)|]. clear Ht Hid. revert H2 Hs. generalize (r.1). clear r. intros bs' H2 Hs. induction H2 as [|b b' l l' [_ Hn] _ IH]; [constructor|]. inversion_clear Hs as [|? ? Hb Hr].
    constructor; [|by apply IH]. apply sublist_length in Hn. lia. }
  destruct Hok as [Ht' Hs']. split; [|done]. clear -Ht' Hid. induction Ht' as [|lo d b l hi Hd Hm Hw Hlo Hall Hrest IH]; [constructor|].
  apply (tiles_cons _ lo d); try done. eapply Forall_impl; [exact Hall|]. intros p. by rewrite Hid.
Qed.

Context (engine_want : Z) (sendFindNode : ptr -> Hash -> Z -> World -> World).

(** The draws are in range. *)
Definition draws_ok (r : Draws) : Prop := wf_bytes (dr_id r) /\ forall m, 0 <= m -> 0 <= dr_node r m <= m.

(** A request of the maintenance: for an identifier of a bucket that is old or empty, to a
    node of the table. *)
Definition refreshes (now : Z) (bs : list Bucket) (q : ptr * Hash * Z) : Prop :=
  exists i b, bs !! i = Some b /\ (b_time b < now - minutes 10 \/ b_nodes b = []) /\ contains bs i q.1.2 = true /\
    q.1.1 ∈ all_nodes bs /\ (q.2 = -1 \/ q.2 = 3).

Lemma maintain_bucket_ok now bs other i r w : (exists idf, table_ok idf bs) -> draws_ok r -> (i < length bs)%nat ->
  exists q w', maintain_bucket engine_want sendFindNode now bs other i r w = Ret (q, w') /\ (forall x, q = Some x -> refreshes now bs x).
Proof.
  intros (idf & Ht) [Hd Hn] Hi. destruct (lookup_lt_is_Some_2 _ _ Hi) as [b Hb]. unfold maintain_bucket. rewrite Hb.
  destruct ((b_time b <? now - minutes 10) || empty_at bs i) eqn:E; [|by exists None, w]. destruct (randomId_in_bucket idf bs i b (dr_id r) Ht Hb Hd) as (id & -> & _ & Hc).
  cbn [mbind outcome_bind]. unfold chosen_node. destruct (bs !! choose_bucket bs i r) as [c|] eqn:Ec; [|by exists None, w].
  destruct (b_nodes c) as [|x l] eqn:Ecn. { unfold randomNode. rewrite Ecn. by exists None, w. }
  destruct (randomNode_member w (dr_node r) c Hn) as (n & -> & Hin & _); [by rewrite Ecn|].
  destruct (on_node (isPendingMessage w) w n); [by exists None, w|]. eexists _, _. split; [done|]. intros y [= <-]. exists i, b. cbn.
  split; [done|]. split; [|split; [done|split]].
  - apply orb_true_iff in E as [?%Z.ltb_lt|He]; [by left|right]. unfold empty_at in He. rewrite Hb in He. by destruct (b_nodes b).
  - unfold all_nodes. apply list_elem_of_In, in_concat. exists (b_nodes c). split; [|by apply list_elem_of_In]. apply in_map. apply list_elem_of_In. by eapply list_elem_of_lookup_2.
  - unfold maintenance_want. repeat case_match; auto.
Qed.

(** Every request of the maintenance refreshes an old or empty bucket, through a node of
    the table; the function tells whether there was one. *)
Theorem bucketMaintenance_refreshes now bs other draws w : (exists idf, table_ok idf bs) -> (forall i, draws_ok (draws i)) ->
  exists sent qs w', bucketMaintenance engine_want sendFindNode now bs other draws w = Ret (sent, qs, w') /\
    Forall (refreshes now bs) qs /\ (sent = true <-> qs <> []) /\ (length qs <= length bs)%nat.
Proof.
  intros Ht Hd. assert (Hloop : forall todo i w0, (i + todo <= length bs)%nat -> exists qs w', bucketMaintenance_from engine_want sendFindNode now bs other i todo draws w0 = Ret (qs, w') /\
    Forall (refreshes now bs) qs /\ (length qs <= todo)%nat).
  { induction todo as [|todo IH]; intros i w0 Hi; [exists [], w0; split_and!; try done; constructor|]. cbn [bucketMaintenance_from].
    destruct (maintain_bucket_ok now bs other i (draws i) w0 Ht (Hd i) ltac:(lia)) as (q & w1 & -> & Hq). cbn [mbind outcome_bind].
    destruct (IH (S i) w1 ltac:(lia)) as (qs & w2 & -> & Hqs & Hl). cbn [mbind outcome_bind]. destruct q as [q|]; eexists _, _; (split; [done|]); [|split; [done|lia]].
    split; [constructor; [by apply Hq|done]|cbn; lia]. }
  unfold bucketMaintenance. destruct (Hloop (length bs) 0%nat w ltac:(lia)) as (qs & w' & -> & Hqs & Hl). cbn [mbind outcome_bind]. eexists _, _, _. split; [done|].
  split; [done|]. split; [|done]. by destruct qs.
Qed.
End Table.

(** ** A storage that is handed over *)

Module MaintainDemo.
Import StorageDemo.

Definition me : Hash := replicate 20 250.
Definition near : Hash := replicate 19 5 ++ [6].
Definition types : list (Z * Z) := [(0, minutes 60)].
Definition node : DhtStore := mkDS 7 [(key, two)] [] one_bucket 10%positive 2 30 8 100 true [].

Lemma node_wf : ds_wf heap node.
Proof.
  split; [|split; [constructor; [exact two_wf|constructor]|split; reflexivity]]. apply (om_wf_cons op_lt (wf_hash HASH_LEN)).
  split; [exact key_wf|]. split; [apply om_wf_nil|constructor].
Qed.

Lemma near_closest : closest_first key [near].
Proof. split; [constructor; [by_compute|constructor]|]. constructor; constructor. Qed.

(** The values are announced on both networks and dropped, but the quota index still
    counts them. *)
Example handed_over : match dataPersistence heap types me key [near] [near] node with
  | (a4, a6, d) => a4 = [(1%positive, 0); (2%positive, 0)] /\ a6 = a4 /\ ds_values d = 0 /\ ds_size d = 0 /\ usage d 9%positive = 30
  end.
Proof. vm_compute. auto. Qed.
End MaintainDemo.

Lemma maintenance_hands_over_witness :
  ds_wf StorageDemo.heap (dataPersistence StorageDemo.heap MaintainDemo.types MaintainDemo.me StorageDemo.key [MaintainDemo.near] [MaintainDemo.near] MaintainDemo.node).2.
Proof.
  destruct (dataPersistence StorageDemo.heap MaintainDemo.types MaintainDemo.me StorageDemo.key [MaintainDemo.near] [MaintainDemo.near] MaintainDemo.node) as [[a4 a6] d'] eqn:E.
  destruct (maintenance_hands_over StorageDemo.heap MaintainDemo.types MaintainDemo.me StorageDemo.key StorageDemo.two [MaintainDemo.near] [MaintainDemo.near] MaintainDemo.node
    a4 a6 d' MaintainDemo.node_wf StorageDemo.key_wf ltac:(by_compute) MaintainDemo.near_closest MaintainDemo.near_closest eq_refl E) as [H _]. exact H.
Defined.
