(* ===== verification/Message.v ===== *)
(** * Message: parsing the messages of the DHT protocol

    Models src/opendht-2.1.4/src/parsed_message.h.  A message is a MessagePack map;
    [pm_unpack] follows [ParsedMessage::msgpack_unpack], whose reads of the inactive
    member of [msgpack::object]'s union, or past the end of an array, are [Undef].
    [Message.append] and [complete] put the parts of large values together. *)
From S2P Require Import Prelude StdMap InfoHash SockAddr Node MsgPack Value Query.

Definition beq (a b : bytes) : bool := bool_decide (a = b).

(** ** Keys *)

Definition KEY_Y := str "y".
Definition KEY_R := str "r".
Definition KEY_U := str "u".
Definition KEY_E := str "e".
Definition KEY_V := str "p".
Definition KEY_TID := str "t".
Definition KEY_UA := str "v".
Definition KEY_NETID := str "n".
Definition KEY_ISCLIENT := str "s".
Definition KEY_Q := str "q".
Definition KEY_A := str "a".
Definition KEY_REQ_SID := str "sid".
Definition KEY_REQ_ID := str "id".
Definition KEY_REQ_H := str "h".
Definition KEY_REQ_TARGET := str "target".
Definition KEY_REQ_QUERY := str "q".
Definition KEY_REQ_TOKEN := str "token".
Definition KEY_REQ_VALUE_ID := str "vid".
Definition KEY_REQ_NODES4 := str "n4".
Definition KEY_REQ_NODES6 := str "n6".
Definition KEY_REQ_CREATION := str "c".
Definition KEY_REQ_ADDRESS := str "sa".
Definition KEY_REQ_VALUES := str "values".
Definition KEY_REQ_EXPIRED := str "exp".
Definition KEY_REQ_REFRESHED := str "re".
Definition KEY_REQ_FIELDS := str "fileds".
Definition KEY_REQ_WANT := str "w".
Definition KEY_VERSION := str "ve".
Definition QUERY_PING := str "ping".
Definition QUERY_FIND := str "find".
Definition QUERY_GET := str "get".
Definition QUERY_UPDATE := str "update".
Definition QUERY_PUT := str "put".
Definition QUERY_LISTEN := str "listen".
Definition QUERY_REFRESH := str "refresh".

Definition WANT4 : Z := 1.
Definition WANT6 : Z := 2.

(** ** Reading objects *)

(** [unpackTid]: an integer, or four bytes in network order.  The conversion to
    [std::array<char, 4>] leaves the bytes that a shorter binary does not give
    indeterminate, and reads four bytes of a string whatever its length. *)
Definition unpackTid (o : obj) : outcome Tid :=
  match o with
  | OPos _ => as_uint 32 o
  | OBin s | OStr s =>
      if 4 <? len s then type_error
      else if len s <? 4 then Undef "short transaction id" else Ret (be_Z s)
  | _ => type_error
  end.

Definition as_bool (o : obj) : outcome bool :=
  match o with OBool b => Ret b | _ => type_error end.

(** [o.as<std::time_t>()]. *)
Definition as_time (o : obj) : outcome Z :=
  match o with
  | OPos n => if 2 ^ 63 - 1 <? n then type_error else Ret n
  | ONeg n => Ret n
  | _ => type_error
  end.

(** [try { .. } catch (const std::exception&) {}]. *)
Definition caught {A} (m : outcome A) : outcome (option A) :=
  match m with
  | Ret a => Ret (Some a)
  | Throw _ => Ret None
  | Undef w => Undef w
  | Terminate w => Terminate w
  end.

(** The arithmetic of clocks is signed: overflow is undefined. *)
Definition checked (t : Z) : outcome Z :=
  if (time_min <=? t) && (t <=? time_max) then Ret t else Undef "signed overflow".

Lemma checked_ok t : time_min <= t <= time_max -> checked t = Ret t.
Proof. intros. unfold checked. by rewrite !(proj2 (Z.leb_le _ _)) by lia. Qed.

(** [from_time_t]: the readings of the two clocks are arguments. *)
Definition from_time_t (sys_now steady_now t : Z) : outcome Z :=
  ts ← checked (seconds t);
  dt ← checked (ts - sys_now);
  Ret (if (0 <? dt) && (time_max - dt <? steady_now) then time_max
       else if (dt <? 0) && (steady_now <? time_min - dt) then time_min
       else steady_now + dt).

Section Message.
Context {G : Gnutls} (AF_INET6 : Z) (sys_now steady_now : Z).

(** [struct ParsedMessage]. *)
Record ParsedMessage := mkMsg {
  pm_type : MessageType;
  pm_id : Hash;
  pm_network : Z;
  pm_is_client : bool;
  pm_info_hash : Hash;
  pm_target : Hash;
  pm_tid : Tid;
  pm_socket_id : Tid;
  pm_token : bytes;
  pm_value_id : Z;
  pm_created : Z;
  pm_nodes4_raw : bytes;
  pm_nodes6_raw : bytes;
  pm_values : list Value;
  pm_refreshed_values : list Z;
  pm_expired_values : list Z;
  pm_fields : list FieldValueIndex;
  pm_value_parts : list (Z * (Z * bytes));
  pm_query : list Z * list FieldValue;
  pm_want : Z;
  pm_error_code : Z;
  pm_ua : bytes;
  pm_version : Z;
  pm_addr : SockAddr;
}.

(** A new message; the members without initialiser are set before they are read. *)
Definition Message_make : ParsedMessage :=
  mkMsg MT_Error (Hash_zero HASH_LEN) 0 false (Hash_zero HASH_LEN) (Hash_zero HASH_LEN) 0 0 [] 0 time_max
        [] [] [] [] [] [] [] ([], []) (-1) 0 [] 0 [].

(** Assignment of a member. *)
Ltac pm_with m f v :=
  let t := with_member mkMsg m f v
    (pm_type, (pm_id, (pm_network, (pm_is_client, (pm_info_hash, (pm_target, (pm_tid, (pm_socket_id,
    (pm_token, (pm_value_id, (pm_created, (pm_nodes4_raw, (pm_nodes6_raw, (pm_values, (pm_refreshed_values,
    (pm_expired_values, (pm_fields, (pm_value_parts, (pm_query, (pm_want, (pm_error_code, (pm_ua,
    (pm_version, (pm_addr, tt)))))))))))))))))))))))) in exact t.

Definition pm_set_type (x : MessageType) (m : ParsedMessage) : ParsedMessage := ltac:(pm_with m pm_type x).
Definition pm_set_id (x : Hash) (m : ParsedMessage) : ParsedMessage := ltac:(pm_with m pm_id x).
Definition pm_set_network (x : Z) (m : ParsedMessage) : ParsedMessage := ltac:(pm_with m pm_network x).
Definition pm_set_is_client (x : bool) (m : ParsedMessage) : ParsedMessage := ltac:(pm_with m pm_is_client x).
Definition pm_set_info_hash (x : Hash) (m : ParsedMessage) : ParsedMessage := ltac:(pm_with m pm_info_hash x).
Definition pm_set_target (x : Hash) (m : ParsedMessage) : ParsedMessage := ltac:(pm_with m pm_target x).
Definition pm_set_tid (x : Tid) (m : ParsedMessage) : ParsedMessage := ltac:(pm_with m pm_tid x).
Definition pm_set_socket_id (x : Tid) (m : ParsedMessage) : ParsedMessage := ltac:(pm_with m pm_socket_id x).
Definition pm_set_token (x : bytes) (m : ParsedMessage) : ParsedMessage := ltac:(pm_with m pm_token x).
Definition pm_set_value_id (x : Z) (m : ParsedMessage) : ParsedMessage := ltac:(pm_with m pm_value_id x).
Definition pm_set_created (x : Z) (m : ParsedMessage) : ParsedMessage := ltac:(pm_with m pm_created x).
Definition pm_set_nodes4_raw (x : bytes) (m : ParsedMessage) : ParsedMessage := ltac:(pm_with m pm_nodes4_raw x).
Definition pm_set_nodes6_raw (x : bytes) (m : ParsedMessage) : ParsedMessage := ltac:(pm_with m pm_nodes6_raw x).
Definition pm_set_values (x : list Value) (m : ParsedMessage) : ParsedMessage := ltac:(pm_with m pm_values x).
Definition pm_set_refreshed (x : list Z) (m : ParsedMessage) : ParsedMessage := ltac:(pm_with m pm_refreshed_values x).
Definition pm_set_expired (x : list Z) (m : ParsedMessage) : ParsedMessage := ltac:(pm_with m pm_expired_values x).
Definition pm_set_fields (x : list FieldValueIndex) (m : ParsedMessage) : ParsedMessage := ltac:(pm_with m pm_fields x).
Definition pm_set_value_parts (x : list (Z * (Z * bytes))) (m : ParsedMessage) : ParsedMessage :=
  ltac:(pm_with m pm_value_parts x).
Definition pm_set_query (x : list Z * list FieldValue) (m : ParsedMessage) : ParsedMessage := ltac:(pm_with m pm_query x).
Definition pm_set_want (x : Z) (m : ParsedMessage) : ParsedMessage := ltac:(pm_with m pm_want x).
Definition pm_set_error_code (x : Z) (m : ParsedMessage) : ParsedMessage := ltac:(pm_with m pm_error_code x).
Definition pm_set_ua (x : bytes) (m : ParsedMessage) : ParsedMessage := ltac:(pm_with m pm_ua x).
Definition pm_set_version (x : Z) (m : ParsedMessage) : ParsedMessage := ltac:(pm_with m pm_version x).
Definition pm_set_addr (x : SockAddr) (m : ParsedMessage) : ParsedMessage := ltac:(pm_with m pm_addr x).

(** *** The envelope *)

(** [struct ParsedMsg], with null pointers as [None]. *)
Record ParsedMsg := mkParsed {
  p_y : option obj;
  p_r : option obj;
  p_u : option obj;
  p_e : option obj;
  p_v : option obj;
  p_a : option obj;
  p_q : bytes;
}.

Definition no_parsed : ParsedMsg := mkParsed None None None None None None [].

Ltac parsed_with m f v :=
  let t := with_member mkParsed m f v (p_y, (p_r, (p_u, (p_e, (p_v, (p_a, (p_q, tt))))))) in exact t.

Definition put_y (o : obj) (p : ParsedMsg) : ParsedMsg := ltac:(parsed_with p p_y (Some o)).
Definition put_r (o : obj) (p : ParsedMsg) : ParsedMsg := ltac:(parsed_with p p_r (Some o)).
Definition put_u (o : obj) (p : ParsedMsg) : ParsedMsg := ltac:(parsed_with p p_u (Some o)).
Definition put_e (o : obj) (p : ParsedMsg) : ParsedMsg := ltac:(parsed_with p p_e (Some o)).
Definition put_v (o : obj) (p : ParsedMsg) : ParsedMsg := ltac:(parsed_with p p_v (Some o)).
Definition put_a (o : obj) (p : ParsedMsg) : ParsedMsg := ltac:(parsed_with p p_a (Some o)).
Definition put_q (s : bytes) (p : ParsedMsg) : ParsedMsg := ltac:(parsed_with p p_q s).

(** The chain of comparisons on the keys of the message. *)
Definition top_key (key : bytes) (o : obj) (p : ParsedMsg) (m : ParsedMessage) : outcome (ParsedMsg * ParsedMessage) :=
  if beq key KEY_Y then Ret (put_y o p, m)
  else if beq key KEY_R then Ret (put_r o p, m)
  else if beq key KEY_U then Ret (put_u o p, m)
  else if beq key KEY_E then Ret (put_e o p, m)
  else if beq key KEY_V then Ret (put_v o p, m)
  else if beq key KEY_TID then t ← unpackTid o; Ret (p, pm_set_tid t m)
  else if beq key KEY_UA then ua ← as_string o; Ret (p, pm_set_ua ua m)
  else if beq key KEY_NETID then n ← as_uint 32 o; Ret (p, pm_set_network n m)
  else if beq key KEY_ISCLIENT then b ← as_bool o; Ret (p, pm_set_is_client b m)
  else if beq key KEY_Q then q ← as_string o; Ret (put_q q p, m)
  else if beq key KEY_A then Ret (put_a o p, m)
  else Ret (p, m).

Fixpoint top_loop (l : list (obj * obj)) (p : ParsedMsg) (m : ParsedMessage) : outcome (ParsedMsg * ParsedMessage) :=
  match l with
  | [] => Ret (p, m)
  | (OStr key, o) :: l' => '(p', m') ← top_key key o p m; top_loop l' p' m'
  | _ :: l' => top_loop l' p m
  end.

(** The type of the message. *)
Definition message_type (p : ParsedMsg) : outcome MessageType :=
  match p_e p, p_r p, p_v p, p_u p with
  | Some _, _, _, _ => Ret MT_Error
  | None, Some _, _, _ => Ret MT_Reply
  | None, None, Some _, _ => Ret MT_ValueData
  | None, None, None, Some _ => Ret MT_ValueUpdate
  | None, None, None, None =>
    bad ← match p_y p with
          | Some o => y ← as_string o; Ret (negb (beq y (str "q")))
          | None => Ret false
          end;
    if bad : bool then type_error
    else if beq (p_q p) QUERY_PING then Ret MT_Ping
    else if beq (p_q p) QUERY_FIND then Ret MT_FindNode
    else if beq (p_q p) QUERY_GET then Ret MT_GetValues
    else if beq (p_q p) QUERY_LISTEN then Ret MT_Listen
    else if beq (p_q p) QUERY_PUT then Ret MT_AnnounceValue
    else if beq (p_q p) QUERY_REFRESH then Ret MT_Refresh
    else if beq (p_q p) QUERY_UPDATE then Ret MT_UpdateValue
    else type_error
  end.

(** *** Parts of values *)

(** The loop over the map of parts: [index -> {o: offset, d: data}]. *)
Fixpoint parts_loop (l : list (obj * obj)) (parts : list (Z * (Z * bytes))) : outcome (list (Z * (Z * bytes))) :=
  match l with
  | [] => Ret parts
  | (k, v) :: l' =>
      o ← findMapValue v (str "o");
      d ← findMapValue v (str "d");
      match o, d with
      | Some o, Some d =>
          i ← as_uint 32 k;
          off ← as_uint 64 o;
          data ← unpackBlob d;
          parts_loop l' (om_emplace Z.ltb i (u32 off, data) parts).1
      | _, _ => parts_loop l' parts
      end
  end.

(** *** The arguments *)

(** [struct ParsedReq]. *)
Record ParsedReq := mkReq {
  a_values : option obj;
  a_fields : option obj;
  a_sa : option obj;
  a_want : option obj;
}.

Definition no_req : ParsedReq := mkReq None None None None.

(** The chain of comparisons on the keys of the arguments. *)
Definition req_key (key : bytes) (o : obj) (a : ParsedReq) (m : ParsedMessage) : outcome (ParsedReq * ParsedMessage) :=
  if beq key KEY_REQ_SID then t ← unpackTid o; Ret (a, pm_set_socket_id t m)
  else if beq key KEY_REQ_ID then h ← hash_unpack o; Ret (a, pm_set_id h m)
  else if beq key KEY_REQ_H then h ← hash_unpack o; Ret (a, pm_set_info_hash h m)
  else if beq key KEY_REQ_TARGET then h ← hash_unpack o; Ret (a, pm_set_target h m)
  else if beq key KEY_REQ_QUERY then q ← query_unpack o; Ret (a, pm_set_query q m)
  else if beq key KEY_REQ_TOKEN then t ← unpackBlob o; Ret (a, pm_set_token t m)
  else if beq key KEY_REQ_VALUE_ID then v ← as_uint 64 o; Ret (a, pm_set_value_id v m)
  else if beq key KEY_REQ_NODES4 then b ← unpackBlob o; Ret (a, pm_set_nodes4_raw b m)
  else if beq key KEY_REQ_NODES6 then b ← unpackBlob o; Ret (a, pm_set_nodes6_raw b m)
  else if beq key KEY_REQ_ADDRESS then Ret (mkReq (a_values a) (a_fields a) (Some o) (a_want a), m)
  else if beq key KEY_REQ_CREATION then t ← as_time o; c ← from_time_t sys_now steady_now t; Ret (a, pm_set_created c m)
  else if beq key KEY_REQ_VALUES then Ret (mkReq (Some o) (a_fields a) (a_sa a) (a_want a), m)
  else if beq key KEY_REQ_EXPIRED then l ← as_vector (as_uint 64) o; Ret (a, pm_set_expired l m)
  else if beq key KEY_REQ_REFRESHED then l ← as_vector (as_uint 64) o; Ret (a, pm_set_refreshed l m)
  else if beq key KEY_REQ_FIELDS then Ret (mkReq (a_values a) (Some o) (a_sa a) (a_want a), m)
  else if beq key KEY_REQ_WANT then Ret (mkReq (a_values a) (a_fields a) (a_sa a) (Some o), m)
  else if beq key KEY_VERSION then v ← as_int o; Ret (a, pm_set_version v m)
  else Ret (a, m).

Fixpoint req_loop (l : list (obj * obj)) (a : ParsedReq) (m : ParsedMessage) : outcome (ParsedReq * ParsedMessage) :=
  match l with
  | [] => Ret (a, m)
  | (OStr key, o) :: l' => '(a', m') ← req_key key o a m; req_loop l' a' m'
  | _ :: l' => req_loop l' a m
  end.

(** The pairs read through [req.via.map], whatever the type of [req]: of an array
    the size is that of the map, and each pair is two of its elements, so that only an
    array without elements, or with one that is not a string, is read within bounds. *)
Definition via_map (req : obj) : outcome (list (obj * obj)) :=
  match req with
  | OMap l => Ret l
  | OArr [] => Ret []
  | OArr [OStr _] => Undef "read past the end of an array"
  | OArr [_] => Ret []
  | OArr _ => Undef "read past the end of an array"
  | _ => Undef "inactive member of a union"
  end.

(** The reported address: 4 or 16 bytes. *)
Definition read_addr (sa : option obj) : outcome SockAddr :=
  match sa with
  | None => Ret []
  | Some (OBin s) =>
      if len s =? 4 then Ret (write_at 4 s (setFamily AF_INET6 AF_INET []))
      else if len s =? 16 then Ret (write_at 8 s (setFamily AF_INET6 AF_INET6 []))
      else Ret []
  | Some _ => type_error
  end.

(** The values: integers are the sizes of values to come in parts. *)
Fixpoint values_loop (i : Z) (l : list obj) (m : ParsedMessage) : outcome ParsedMessage :=
  match l with
  | [] => Ret m
  | o :: l' =>
      match o with
      | OPos n =>
          if MAX_VALUE_SIZE + 32 <? n then values_loop (i + 1) l' m
          else values_loop (i + 1) l' (pm_set_value_parts (om_emplace Z.ltb (u32 i) (u32 n, []) (pm_value_parts m)).1 m)
      | _ =>
          v ← caught (msgpack_unpack o (Value_make 0));
          values_loop (i + 1) l' (match v with Some v => pm_set_values (pm_values m ++ [v]) m | None => m end)
      end
  end.

(** [FieldValueIndex::msgpack_unpack_fields]; [vals] are the elements from the offset
    on. *)
Definition read_field (n : Z) (o : obj) : outcome (Field * FieldValue) :=
  match field_of_Z n with
  | Some ((F_Id | F_ValueType | F_SeqNum) as f) => x ← as_uint 64 o; Ret (f, FieldValue_int f x)
  | Some F_OwnerPk => h ← hash_unpack o; Ret (F_OwnerPk, FieldValue_hash F_OwnerPk h)
  | Some F_UserType => b ← as_string o; Ret (F_UserType, FieldValue_blob F_UserType b)
  | _ => type_error
  end.

Fixpoint unpack_fields (fields : list Z) (vals : list obj) (index : FieldValueIndex) : outcome FieldValueIndex :=
  match fields with
  | [] => Ret index
  | n :: fields' =>
      match vals with
      | [] => Undef "read past the end of an array"
      | o :: vals' => '(f, v) ← read_field n o; unpack_fields fields' vals' (om_set field_lt f v index)
      end
  end.

(** [as<std::set<Value::Field>>()]: the numbers in order, without duplicates. *)
Definition as_field_set (o : obj) : outcome (list Z) :=
  l ← as_vector as_int o;
  Ret (map fst (foldl (fun s n => om_set Z.ltb n tt s) [] l)).

Fixpoint fields_loop (k : nat) (fields : list Z) (vals : list obj) (m : ParsedMessage) : outcome ParsedMessage :=
  match k with
  | O => Ret m
  | S k' =>
      r ← caught (unpack_fields fields vals []);
      fields_loop k' fields (drop (length fields) vals)
        (match r with Some ix => pm_set_fields (pm_fields m ++ [ix]) m | None => m end)
  end.

(** The fields: an empty set of fields is a division by zero. *)
Definition read_fields (o : obj) (m : ParsedMessage) : outcome ParsedMessage :=
  rf ← findMapValue o (str "f");
  match rf with
  | None => type_error
  | Some rf =>
      fields ← as_field_set rf;
      rv ← findMapValue o (str "v");
      match rv with
      | None => Ret m
      | Some (OArr vals) =>
          match fields with
          | [] => Undef "division by zero"
          | _ => fields_loop (length vals / length fields) fields vals m
          end
      | Some _ => type_error
      end
  end.

Definition read_values (a : ParsedReq) (m : ParsedMessage) : outcome ParsedMessage :=
  match a_values a, a_fields a with
  | Some (OArr l), _ => values_loop 0 l m
  | Some _, _ => type_error
  | None, Some o => read_fields o m
  | None, None => Ret m
  end.

(** The families that are wanted; an element that is not a family is skipped. *)
Fixpoint want_loop (l : list obj) (w : Z) : outcome Z :=
  match l with
  | [] => Ret w
  | o :: l' =>
      r ← caught (as_uint 16 o);
      want_loop l' (match r with
                    | Some f => if f =? AF_INET then Z.lor w WANT4 else if f =? AF_INET6 then Z.lor w WANT6 else w
                    | None => w
                    end)
  end.

Definition read_want (o : option obj) : outcome Z :=
  match o with
  | None => Ret (-1)
  | Some (OArr l) => want_loop l 0
  | Some _ => type_error
  end.

(** The error code: the first element of an array, which must have one. *)
Definition read_error (o : option obj) (m : ParsedMessage) : outcome ParsedMessage :=
  match o with
  | None => Ret m
  | Some (OArr []) => Undef "read past the end of an array"
  | Some (OArr (c :: _)) => n ← as_uint 16 c; Ret (pm_set_error_code n m)
  | Some _ => type_error
  end.

(** The part of [msgpack_unpack] that follows the type. *)
Definition read_request (p : ParsedMsg) (m : ParsedMessage) : outcome ParsedMessage :=
  match match p_a p, p_r p, p_u p with
        | Some o, _, _ => Some o
        | None, Some o, _ => Some o
        | None, None, Some o => Some o
        | None, None, None => p_e p
        end with
  | None => type_error
  | Some req =>
      m1 ← read_error (p_e p) m;
      l ← via_map req;
      '(a, m2) ← req_loop l no_req m1;
      addr ← read_addr (a_sa a);
      m3 ← read_values a (pm_set_addr addr m2);
      w ← read_want (a_want a);
      Ret (pm_set_want w m3)
  end.

(** [ParsedMessage::msgpack_unpack]. *)
Definition pm_unpack (msg : obj) (m : ParsedMessage) : outcome ParsedMessage :=
  match msg with
  | OMap l =>
      '(p, m1) ← top_loop l no_parsed m;
      t ← message_type p;
      let m2 := pm_set_type t m1 in
      match t with
      | MT_ValueData =>
          match p_v p with
          | Some (OMap parts) => ps ← parts_loop parts (pm_value_parts m2); Ret (pm_set_value_parts ps m2)
          | _ => type_error
          end
      | _ => read_request p m2
      end
  | _ => type_error
  end.

(** Parsing a packet: [msgpack::unpack], then [msgpack_unpack] of a new message. *)
Definition parse_message (buf : bytes) : outcome ParsedMessage :=
  r ← unpack buf; pm_unpack r.1 Message_make.

(** ** Putting values together *)

(** [append]: whether data was added. *)
Fixpoint append_loop (block : list (Z * (Z * bytes))) (parts : list (Z * (Z * bytes))) (ret : bool) :
    list (Z * (Z * bytes)) * bool :=
  match block with
  | [] => (parts, ret)
  | (i, (offset, data)) :: block' =>
      match om_find Z.ltb i parts with
      | None => append_loop block' parts ret
      | Some (size, got) =>
          if size <=? len got then append_loop block' parts ret
          else if negb (offset =? len got) then append_loop block' parts ret
          else append_loop block' (om_set Z.ltb i (size, got ++ data) parts) true
      end
  end.

Definition append (block m : ParsedMessage) : ParsedMessage * bool :=
  let '(parts, ret) := append_loop (pm_value_parts block) (pm_value_parts m) false in
  (pm_set_value_parts parts m, ret).

(** [complete]: unpacks the values when all their data is there. *)
Fixpoint read_parts (parts : list (Z * (Z * bytes))) : outcome (list Value) :=
  match parts with
  | [] => Ret []
  | (_, (_, data)) :: parts' => v ← value_of_bytes data; r ← read_parts parts'; Ret (v :: r)
  end.

Definition complete (m : ParsedMessage) : outcome (ParsedMessage * bool) :=
  if existsb (fun e => len e.2.2 <? e.2.1) (pm_value_parts m) then Ret (m, false)
  else vs ← read_parts (pm_value_parts m); Ret (pm_set_values (pm_values m ++ vs) m, true).

(** ** The keys one by one *)

Lemma top_Y o p m : top_key KEY_Y o p m = Ret (put_y o p, m).
Proof. reflexivity. Qed.
Lemma top_R o p m : top_key KEY_R o p m = Ret (put_r o p, m).
Proof. reflexivity. Qed.
Lemma top_U o p m : top_key KEY_U o p m = Ret (put_u o p, m).
Proof. reflexivity. Qed.
Lemma top_E o p m : top_key KEY_E o p m = Ret (put_e o p, m).
Proof. reflexivity. Qed.
Lemma top_V o p m : top_key KEY_V o p m = Ret (put_v o p, m).
Proof. reflexivity. Qed.
Lemma top_TID o p m : top_key KEY_TID o p m = (t ← unpackTid o; Ret (p, pm_set_tid t m)).
Proof. reflexivity. Qed.
Lemma top_UA o p m : top_key KEY_UA o p m = (ua ← as_string o; Ret (p, pm_set_ua ua m)).
Proof. reflexivity. Qed.
Lemma top_NETID o p m : top_key KEY_NETID o p m = (n ← as_uint 32 o; Ret (p, pm_set_network n m)).
Proof. reflexivity. Qed.
Lemma top_ISCLIENT o p m : top_key KEY_ISCLIENT o p m = (b ← as_bool o; Ret (p, pm_set_is_client b m)).
Proof. reflexivity. Qed.
Lemma top_Q o p m : top_key KEY_Q o p m = (q ← as_string o; Ret (put_q q p, m)).
Proof. reflexivity. Qed.
Lemma top_A o p m : top_key KEY_A o p m = Ret (put_a o p, m).
Proof. reflexivity. Qed.
Lemma req_SID o a m : req_key KEY_REQ_SID o a m = (t ← unpackTid o; Ret (a, pm_set_socket_id t m)).
Proof. reflexivity. Qed.
Lemma req_ID o a m : req_key KEY_REQ_ID o a m = (h ← hash_unpack o; Ret (a, pm_set_id h m)).
Proof. reflexivity. Qed.
Lemma req_H o a m : req_key KEY_REQ_H o a m = (h ← hash_unpack o; Ret (a, pm_set_info_hash h m)).
Proof. reflexivity. Qed.
Lemma req_TARGET o a m : req_key KEY_REQ_TARGET o a m = (h ← hash_unpack o; Ret (a, pm_set_target h m)).
Proof. reflexivity. Qed.
Lemma req_QUERY o a m : req_key KEY_REQ_QUERY o a m = (q ← query_unpack o; Ret (a, pm_set_query q m)).
Proof. reflexivity. Qed.
Lemma req_TOKEN o a m : req_key KEY_REQ_TOKEN o a m = (t ← unpackBlob o; Ret (a, pm_set_token t m)).
Proof. reflexivity. Qed.
Lemma req_VALUE_ID o a m : req_key KEY_REQ_VALUE_ID o a m = (v ← as_uint 64 o; Ret (a, pm_set_value_id v m)).
Proof. reflexivity. Qed.
Lemma req_NODES4 o a m : req_key KEY_REQ_NODES4 o a m = (b ← unpackBlob o; Ret (a, pm_set_nodes4_raw b m)).
Proof. reflexivity. Qed.
Lemma req_NODES6 o a m : req_key KEY_REQ_NODES6 o a m = (b ← unpackBlob o; Ret (a, pm_set_nodes6_raw b m)).
Proof. reflexivity. Qed.
Lemma req_ADDRESS o a m : req_key KEY_REQ_ADDRESS o a m = Ret (mkReq (a_values a) (a_fields a) (Some o) (a_want a), m).
Proof. reflexivity. Qed.
Lemma req_CREATION o a m : req_key KEY_REQ_CREATION o a m = (t ← as_time o; c ← from_time_t sys_now steady_now t; Ret (a, pm_set_created c m)).
Proof. reflexivity. Qed.
Lemma req_VALUES o a m : req_key KEY_REQ_VALUES o a m = Ret (mkReq (Some o) (a_fields a) (a_sa a) (a_want a), m).
Proof. reflexivity. Qed.
Lemma req_EXPIRED o a m : req_key KEY_REQ_EXPIRED o a m = (l ← as_vector (as_uint 64) o; Ret (a, pm_set_expired l m)).
Proof. reflexivity. Qed.
Lemma req_REFRESHED o a m : req_key KEY_REQ_REFRESHED o a m = (l ← as_vector (as_uint 64) o; Ret (a, pm_set_refreshed l m)).
Proof. reflexivity. Qed.
Lemma req_FIELDS o a m : req_key KEY_REQ_FIELDS o a m = Ret (mkReq (a_values a) (Some o) (a_sa a) (a_want a), m).
Proof. reflexivity. Qed.
Lemma req_WANT o a m : req_key KEY_REQ_WANT o a m = Ret (mkReq (a_values a) (a_fields a) (a_sa a) (Some o), m).
Proof. reflexivity. Qed.
Lemma req_VERSION o a m : req_key KEY_VERSION o a m = (v ← as_int o; Ret (a, pm_set_version v m)).
Proof. reflexivity. Qed.
End Message.

(** Reading a literal key. *)
Create Rewrite HintDb vb_keys.
#[export] Hint Rewrite @top_Y @top_R @top_U @top_E @top_V @top_TID @top_UA @top_NETID @top_ISCLIENT @top_Q @top_A
  @req_SID @req_ID @req_H @req_TARGET @req_QUERY @req_TOKEN @req_VALUE_ID @req_NODES4 @req_NODES6 @req_ADDRESS @req_CREATION @req_VALUES @req_EXPIRED @req_REFRESHED @req_FIELDS @req_WANT @req_VERSION : vb_keys.
