(* ===== verification/Wire.v ===== *)
(** * Wire: the messages the network engine sends

    Models the packing functions of src/opendht-2.1.4/src/network_engine.cpp.  A
    packing function returns the bytes it appends to the buffer; what the requests do
    once packed is in NetworkEngine.  The identifier of the node, the network it is
    configured for and the readings of the clocks are parameters. *)
From S2P Require Import Prelude StdMap InfoHash SockAddr Node MsgPack Value Query Message.

Definition my_v : bytes := str "RNG1".
Definition SEND_NODES : nat := 8.
Definition MTU : nat := 1280.
Definition MAX_PACKET_VALUE_SIZE : Z := 600.
Definition NODE4_INFO_BUF_LEN : nat := 26.
Definition NODE6_INFO_BUF_LEN : nat := 38.

(** [to_time_t]: the readings of the two clocks are arguments. *)
Definition to_time_t (sys_now steady_now t : Z) : outcome Z :=
  dt ← checked (t - steady_now);
  Ret (if (0 <? dt) && (time_max - dt <=? sys_now) then Z.quot time_max 1000000000
       else if (dt <? 0) && (sys_now <=? time_min - dt) then Z.quot time_min 1000000000
       else Z.quot (sys_now + dt) 1000000000).

Section Wire.
Context {G : Gnutls} (AF_INET6 : Z) (myid : Hash) (network : Z) (sys_now steady_now : Z).

Definition nonempty {A} (l : list A) : Z := match l with [] => 0 | _ => 1 end.

(** [config.network ? 1 : 0], and the pair. *)
Definition net_count : Z := if network =? 0 then 0 else 1.
Definition pack_net : bytes := if network =? 0 then [] else pack_string KEY_NETID ++ pack_imp_uint32 network.

(** What follows the arguments of a request, and those of a reply. *)
Definition request_tail (q : bytes) (tid : Tid) : bytes :=
  pack_string KEY_Q ++ pack_string q ++
  pack_string KEY_TID ++ pack_imp_uint32 tid ++
  pack_string KEY_Y ++ pack_string KEY_Q ++
  pack_string KEY_UA ++ pack_string my_v ++ pack_net.

Definition reply_tail (y : bytes) (tid : Tid) : bytes :=
  pack_string KEY_TID ++ pack_imp_uint32 tid ++
  pack_string KEY_Y ++ pack_string y ++
  pack_string KEY_UA ++ pack_string my_v ++ pack_net.

(** [packToken]. *)
Definition packToken (token : bytes) : bytes := pack_bin (len token) ++ token.

(** [insertAddr]. *)
Definition addr_part (addr : SockAddr) : bytes :=
  if getFamily addr =? AF_INET then take (Nat.min (getLength addr) 4) (drop 4 addr)
  else take (Nat.min (getLength addr) 16) (drop 8 addr).

Definition insertAddr (addr : SockAddr) : bytes :=
  let n := Nat.min (getLength addr) (if getFamily addr =? AF_INET then 4%nat else 16%nat) in
  pack_string (str "sa") ++ pack_bin (Z.of_nat n) ++ addr_part addr.

(** The families wanted, as in [sendFindNode] and [sendGetValues]. *)
Definition pack_want (want : Z) : bytes :=
  let w4 := negb (Z.land want WANT4 =? 0) in
  let w6 := negb (Z.land want WANT6 =? 0) in
  pack_string KEY_REQ_WANT ++ pack_array ((if w4 then 1 else 0) + (if w6 then 1 else 0)) ++
  (if w4 then pack_imp_int32 AF_INET else []) ++ (if w6 then pack_imp_int32 AF_INET6 else []).

(** [sendPing]. *)
Definition ping_bytes (tid : Tid) : bytes :=
  pack_map (5 + net_count) ++
  pack_string KEY_A ++ pack_map 1 ++ pack_string KEY_REQ_ID ++ hash_pack myid ++
  request_tail QUERY_PING tid.

(** [sendPong] and [sendListenConfirmation]. *)
Definition pong_bytes (addr : SockAddr) (tid : Tid) : bytes :=
  pack_map (4 + net_count) ++
  pack_string KEY_R ++ pack_map 2 ++ pack_string KEY_REQ_ID ++ hash_pack myid ++ insertAddr addr ++
  reply_tail KEY_R tid.

(** [sendFindNode]. *)
Definition find_bytes (target : Hash) (want : Z) (tid : Tid) : bytes :=
  pack_map (5 + net_count) ++
  pack_string KEY_A ++ pack_map (2 + if 0 <? want then 1 else 0) ++
  pack_string KEY_REQ_ID ++ hash_pack myid ++
  pack_string KEY_REQ_TARGET ++ hash_pack target ++
  (if 0 <? want then pack_want want else []) ++
  request_tail QUERY_FIND tid.

(** [not query.where.empty() or not query.select.empty()]. *)
Definition has_query (q : Query) : bool :=
  match q_where q, q_select q with [], [] => false | _, _ => true end.

Definition opt_query (q : Query) : outcome bytes :=
  if has_query q then b ← query_pack q; Ret (pack_string KEY_REQ_QUERY ++ b) else Ret [].

(** [sendGetValues]. *)
Definition get_bytes (info_hash : Hash) (query : Query) (want : Z) (tid : Tid) : outcome bytes :=
  q ← opt_query query;
  Ret (pack_map (5 + net_count) ++
       pack_string KEY_A ++
       pack_map (2 + (if has_query query then 1 else 0) + (if 0 <? want then 1 else 0)) ++
       pack_string KEY_REQ_ID ++ hash_pack myid ++
       pack_string KEY_REQ_H ++ hash_pack info_hash ++ q ++
       (if 0 <? want then pack_want want else []) ++
       request_tail QUERY_GET tid).

(** [sendListen]. *)
Definition listen_bytes (hash : Hash) (query : Query) (token : bytes) (socketId : Tid) (tid : Tid) : outcome bytes :=
  q ← opt_query query;
  Ret (pack_map (5 + net_count) ++
       pack_string KEY_A ++ pack_map (5 + if has_query query then 1 else 0) ++
       pack_string KEY_REQ_ID ++ hash_pack myid ++
       pack_string KEY_VERSION ++ pack_imp_int32 1 ++
       pack_string KEY_REQ_H ++ hash_pack hash ++
       pack_string KEY_REQ_TOKEN ++ packToken token ++
       pack_string KEY_REQ_SID ++ pack_imp_uint32 socketId ++ q ++
       request_tail QUERY_LISTEN tid).

(** [serializeValues]. *)
Fixpoint serializeValues (st : list Value) : outcome (list bytes) :=
  match st with
  | [] => Ret []
  | v :: st' => b ← msgpack_pack v; r ← serializeValues st'; Ret (b :: r)
  end.

(** [packValueHeader]: the bytes, and the values to send in parts. *)
Definition packValueHeader (st : list Value) : outcome (bytes * list bytes) :=
  svals ← serializeValues st;
  let total_size := foldl (fun a (v : bytes) => u64 (a + len v)) 0 svals in
  let hd := pack_string KEY_REQ_VALUES ++ pack_array (Z.of_nat (length svals)) in
  if (Z.of_nat (length svals) <? 50) && (total_size <? MAX_PACKET_VALUE_SIZE)
  then Ret (hd ++ concat svals, [])
  else Ret (hd ++ concat (map (fun b => pack_imp_uint64 (len b)) svals), svals).

(** The creation date, when it is in the past. *)
Definition opt_creation (created now : Z) : outcome bytes :=
  if created <? now
  then t ← to_time_t sys_now steady_now created; Ret (pack_string KEY_REQ_CREATION ++ pack_imp_int64 t)
  else Ret [].

(** [sendAnnounceValue]. *)
Definition announce_bytes (infohash : Hash) (value : Value) (created now : Z) (token : bytes) (tid : Tid) :
    outcome (bytes * list bytes) :=
  '(vb, parts) ← packValueHeader [value];
  cb ← opt_creation created now;
  Ret (pack_map (5 + net_count) ++
       pack_string KEY_A ++ pack_map (if created <? now then 5 else 4) ++
       pack_string KEY_REQ_ID ++ hash_pack myid ++
       pack_string KEY_REQ_H ++ hash_pack infohash ++ vb ++ cb ++
       pack_string KEY_REQ_TOKEN ++ pack_binary token ++
       request_tail QUERY_PUT tid, parts).

(** [sendUpdateValues]. *)
Definition update_bytes (infohash : Hash) (values : list Value) (created now : Z) (token : bytes) (sid : Tid) (tid : Tid) :
    outcome (bytes * list bytes) :=
  '(vb, parts) ← packValueHeader values;
  cb ← opt_creation created now;
  Ret (pack_map (5 + net_count) ++
       pack_string KEY_A ++ pack_map (if created <? now then 7 else 6) ++
       pack_string KEY_REQ_ID ++ hash_pack myid ++
       pack_string KEY_VERSION ++ pack_imp_int32 1 ++
       pack_string KEY_REQ_H ++ hash_pack infohash ++
       pack_string KEY_REQ_SID ++ pack_imp_uint32 sid ++ vb ++ cb ++
       pack_string KEY_REQ_TOKEN ++ pack_binary token ++
       request_tail QUERY_UPDATE tid, parts).

(** [sendRefreshValue]. *)
Definition refresh_bytes (infohash : Hash) (vid : Z) (token : bytes) (tid : Tid) : bytes :=
  pack_map (5 + net_count) ++
  pack_string KEY_A ++ pack_map 4 ++
  pack_string KEY_REQ_ID ++ hash_pack myid ++
  pack_string KEY_REQ_H ++ hash_pack infohash ++
  pack_string KEY_REQ_VALUE_ID ++ pack_imp_uint64 vid ++
  pack_string KEY_REQ_TOKEN ++ pack_binary token ++
  request_tail QUERY_REFRESH tid.

(** [sendValueAnnounced]. *)
Definition announced_bytes (addr : SockAddr) (vid : Z) (tid : Tid) : bytes :=
  pack_map (4 + net_count) ++
  pack_string KEY_R ++ pack_map 3 ++
  pack_string KEY_REQ_ID ++ hash_pack myid ++
  pack_string KEY_REQ_VALUE_ID ++ pack_imp_uint64 vid ++ insertAddr addr ++
  reply_tail KEY_R tid.

(** [sendError]. *)
Definition error_bytes (code : Z) (message : bytes) (include_id : bool) (tid : Tid) : bytes :=
  pack_map (4 + (if include_id then 1 else 0) + net_count) ++
  pack_string KEY_E ++ pack_array 2 ++ pack_imp_uint16 code ++ pack_string message ++
  (if include_id then pack_string KEY_R ++ pack_map 1 ++ pack_string KEY_REQ_ID ++ hash_pack myid else []) ++
  reply_tail KEY_E tid.

(** [Value::msgpack_pack_fields]: the fields of the set that have a case; a query that
    was received may hold numbers that name no field. *)
Definition pack_field (v : Value) (n : Z) : outcome bytes :=
  match field_of_Z n with
  | Some F_Id => Ret (pack_imp_uint64 (v_id v))
  | Some F_ValueType => Ret (pack_imp_uint64 (v_type v))
  | Some F_OwnerPk => match v_owner v with Some k => pk_msgpack_pack k | None => Ret (hash_pack (Hash_zero HASH_LEN)) end
  | Some F_SeqNum => Ret (pack_imp_uint64 (v_seq v))
  | Some F_UserType => Ret (pack_string (v_user_type v))
  | _ => Ret []
  end.

(** [getSelection]: the fields as a set. *)
Definition getSelection (s : list Z) : list Z :=
  map fst (foldl (fun m f => om_set Z.ltb f tt m) [] s).

Definition pack_fields (fields : list Z) (st : list Value) : outcome bytes :=
  b ← pack_all (fun v => pack_all (pack_field v) fields) st;
  Ret (pack_string KEY_REQ_FIELDS ++ pack_map 2 ++
       pack_string (str "f") ++ pack_array (Z.of_nat (length fields)) ++
         concat (map pack_imp_int32 fields) ++
       pack_string (str "v") ++ pack_array (Z.of_nat (length st * length fields)) ++ b).

(** [sendNodesValues]. *)
Definition nodes_values_bytes (addr : SockAddr) (nodes nodes6 : bytes) (st : list Value) (select : list Z)
    (token : bytes) (tid : Tid) : outcome (bytes * list bytes) :=
  '(vb, parts) ←
    match st with
    | [] => Ret ([], [])
    | _ => match select with
           | [] => packValueHeader st
           | _ => b ← pack_fields (getSelection select) st; Ret (b, [])
           end
    end;
  Ret (pack_map (4 + net_count) ++
       pack_string KEY_R ++
       pack_map (2 + nonempty st + nonempty nodes + nonempty nodes6 + nonempty token) ++
       pack_string KEY_REQ_ID ++ hash_pack myid ++ insertAddr addr ++
       (match nodes with [] => [] | _ => pack_string KEY_REQ_NODES4 ++ pack_binary nodes end) ++
       (match nodes6 with [] => [] | _ => pack_string KEY_REQ_NODES6 ++ pack_binary nodes6 end) ++
       (match token with [] => [] | _ => pack_string KEY_REQ_TOKEN ++ packToken token end) ++ vb ++
       reply_tail KEY_R tid, parts).

(** [tellListenerRefreshed] and [tellListenerExpired] differ in the key of the ids;
    [tid] is the new transaction id of the request, or the socket. *)
Definition tell_bytes (key : bytes) (socket_id : Tid) (token : bytes) (values : list Z) (version : Z) (tid : Tid) : bytes :=
  let v1 := 1 <=? version in
  let n1 := if v1 then 1 else 0 in
  pack_map (4 + n1 + net_count) ++
  pack_string (if v1 then KEY_A else KEY_U) ++
  pack_map (1 + n1 + nonempty values + nonempty token) ++
  pack_string KEY_REQ_ID ++ hash_pack myid ++
  (if v1 then pack_string KEY_REQ_SID ++ pack_imp_uint32 socket_id else []) ++
  (match token with [] => [] | _ => pack_string KEY_REQ_TOKEN ++ packToken token end) ++
  (match values with
   | [] => []
   | _ => pack_string key ++ pack_array (Z.of_nat (length values)) ++ concat (map pack_imp_uint64 values)
   end) ++
  pack_string KEY_Y ++ pack_string (if v1 then KEY_Q else KEY_R) ++
  pack_string KEY_UA ++ pack_string my_v ++ pack_net ++
  (if v1 then pack_string KEY_Q ++ pack_string QUERY_UPDATE else []) ++
  pack_string KEY_TID ++ pack_imp_uint32 (if v1 then tid else socket_id).

(** *** Values in parts *)

(** One packet of [sendValueParts]. *)
Definition part_bytes (tid : Tid) (i : Z) (start : nat) (data : bytes) : bytes :=
  pack_map (3 + net_count) ++ pack_net ++
  pack_string KEY_Y ++ pack_string KEY_V ++
  pack_string KEY_TID ++ pack_imp_uint32 tid ++
  pack_string KEY_V ++ pack_map 1 ++
  pack_imp_uint32 i ++ pack_map 2 ++
  pack_string (str "o") ++ pack_imp_uint64 (Z.of_nat start) ++
  pack_string (str "d") ++ pack_binary data.

(** The [do .. while] loop over a value: one packet per [MTU] bytes, at least one.
    The size of the value and one is enough fuel. *)
Fixpoint value_parts (tid : Tid) (i : Z) (v : bytes) (fuel start : nat) : list bytes :=
  match fuel with
  | O => []
  | S fuel' =>
      let stop := Nat.min (start + MTU) (length v) in
      part_bytes tid i start (take (stop - start) (drop start v)) ::
      if (stop =? length v)%nat then [] else value_parts tid i v fuel' stop
  end.

(** [sendValueParts]: the packets, in order. *)
Fixpoint sendValueParts_from (tid : Tid) (i : Z) (svals : list bytes) : list bytes :=
  match svals with
  | [] => []
  | v :: svals' => value_parts tid i v (S (length v)) 0 ++ sendValueParts_from tid (u32 (i + 1)) svals'
  end.

Definition sendValueParts (tid : Tid) (svals : list bytes) : list bytes := sendValueParts_from tid 0 svals.
End Wire.

(** ** The messages as objects *)

(** Read the arguments of a message one by one, with the equations for hashes,
    transaction ids, versions and binaries. *)
Ltac args Hh Hs H1 Hb :=
  repeat (progress (cbn [req_loop kv]; autorewrite with vb_keys; cbn [mbind outcome_bind];
    rewrite ?H1, ?Hb; rewrite ?Hh by done; rewrite ?Hs by done; cbn [mbind outcome_bind])).

Section Objects.
Context {G : Gnutls} `{!GnutlsLaws G}.
Context (AF_INET6 : Z) (HAF6 : 2 < AF_INET6 < 256).
Context (myid : Hash) (Hmyid : wf_hash HASH_LEN myid) (network : Z) (Hnet : 0 <= network < 2 ^ 32).
Context (sys_now steady_now : Z) (Hsys : 0 <= sys_now <= time_max).
Context (sys_now' steady_now' : Z) (Hsys' : 0 <= sys_now' <= time_max).

Definition net_obj : list (obj * obj) := if network =? 0 then [] else [kv KEY_NETID (OPos network)].

Definition request_obj (args : list (obj * obj)) (q : bytes) (tid : Tid) : obj :=
  OMap ([kv KEY_A (OMap args); kv KEY_Q (OStr q); kv KEY_TID (OPos tid); kv KEY_Y (OStr KEY_Q);
         kv KEY_UA (OStr my_v)] ++ net_obj).

(** Lists of pairs as calls of the packer. *)
Definition pack_kvs (l : list (obj * obj)) : bytes := concat (map pack_kv l).

Lemma pack_kvs_app l1 l2 : pack_kvs (l1 ++ l2) = pack_kvs l1 ++ pack_kvs l2.
Proof. unfold pack_kvs. by rewrite map_app, concat_app. Qed.
Lemma pack_kvs_cons k o l : pack_kvs (kv k o :: l) = pack_string k ++ pack o ++ pack_kvs l.
Proof. unfold pack_kvs. cbn [map concat]. by rewrite pack_kv_eq, <- app_assoc. Qed.
Lemma pack_kvs_nil : pack_kvs [] = [].
Proof. done. Qed.
Lemma pack_map_obj l : pack (OMap l) = pack_map (Z.of_nat (length l)) ++ pack_kvs l.
Proof. apply pack_OMap. Qed.

Lemma pack_net_obj : pack_net network = pack_kvs net_obj.
Proof using Hnet.
  unfold pack_net, net_obj. destruct (network =? 0); [done|].
  by rewrite pack_kvs_cons, pack_kvs_nil, app_nil_r, pack_uint32.
Qed.

Lemma net_obj_length : Z.of_nat (length net_obj) = net_count network.
Proof. unfold net_obj, net_count. by destruct (network =? 0). Qed.

(** The bytes of a request are those of its object. *)
Lemma request_bytes args q tid :
  0 <= tid < 2 ^ 32 ->
  pack (request_obj args q tid) =
  pack_map (5 + net_count network) ++ pack_string KEY_A ++ pack_map (Z.of_nat (length args)) ++ pack_kvs args ++
  request_tail network q tid.
Proof using Hnet.
  intros Ht. unfold request_obj, request_tail. rewrite pack_map_obj, length_app, pack_kvs_app, !pack_kvs_cons, pack_kvs_nil.
  rewrite (pack_map_obj args), pack_net_obj, pack_uint32, !pack_OStr by done. cbn [length].
  rewrite Nat2Z.inj_add, net_obj_length. rewrite <- !app_assoc. done.
Qed.

(** What a message is before its arguments are read. *)
Definition pm_base (t : MessageType) (tid : Tid) : ParsedMessage :=
  pm_set_type t (pm_set_network network (pm_set_ua my_v (pm_set_tid tid Message_make))).

(** The reading of the arguments, and what follows. *)
Definition read_args (args : list (obj * obj)) (m : ParsedMessage) : outcome ParsedMessage :=
  '(a, m2) ← req_loop sys_now' steady_now' args no_req m;
  addr ← read_addr AF_INET6 (a_sa a);
  m3 ← read_values a (pm_set_addr addr m2);
  w ← read_want AF_INET6 (a_want a);
  Ret (pm_set_want w m3).

Abbreviation parse := (parse_message AF_INET6 sys_now' steady_now').

Ltac read_keys :=
  cbn [top_loop req_loop kv app mbind outcome_bind];
  repeat (autorewrite with vb_keys; cbn [mbind outcome_bind as_string unpackTid as_bool];
          rewrite ?(as_uint_ok 32) by done; cbn [top_loop req_loop kv app mbind outcome_bind]).

Lemma unpack_request args q tid t :
  0 <= tid < 2 ^ 32 -> t <> MT_ValueData ->
  message_type (mkParsed (Some (OStr KEY_Q)) None None None None (Some (OMap args)) q) = Ret t ->
  pm_unpack AF_INET6 sys_now' steady_now' (request_obj args q tid) Message_make = read_args args (pm_base t tid).
Proof using Hnet.
  intros Ht Htv Hmt. unfold pm_unpack, request_obj.
  assert (top_loop ([kv KEY_A (OMap args); kv KEY_Q (OStr q); kv KEY_TID (OPos tid); kv KEY_Y (OStr KEY_Q);
    kv KEY_UA (OStr my_v)] ++ net_obj) no_parsed Message_make =
    Ret (mkParsed (Some (OStr KEY_Q)) None None None None (Some (OMap args)) q,
         pm_set_network network (pm_set_ua my_v (pm_set_tid tid Message_make)))) as ->.
  { unfold net_obj. destruct (Z.eqb_spec network 0) as [-> |]; read_keys; done. }
  cbn [mbind outcome_bind]. rewrite Hmt. cbn [mbind outcome_bind]. destruct t; done.
Qed.

(** ** Requests *)

(** A request of the engine. *)
Inductive outgoing :=
| OutPing
| OutFind (target : Hash) (want : Z)
| OutGet (info_hash : Hash) (query : Query) (want : Z)
| OutListen (hash : Hash) (query : Query) (token : bytes) (socketId : Tid)
| OutAnnounce (infohash : Hash) (value : Value) (created now : Z) (token : bytes)
| OutUpdate (infohash : Hash) (values : list Value) (created now : Z) (token : bytes) (sid : Tid)
| OutRefresh (infohash : Hash) (vid : Z) (token : bytes)
| OutTell (refreshed : bool) (socket_id : Tid) (token : bytes) (ids : list Z) (version : Z).

(** The key of the ids that [tellListenerRefreshed] and [tellListenerExpired] send. *)
Definition tell_key (refreshed : bool) : bytes := if refreshed then KEY_REQ_REFRESHED else KEY_REQ_EXPIRED.

(** Its packet, and the values that follow in parts. *)
Definition request_packet (r : outgoing) (tid : Tid) : outcome (bytes * list bytes) :=
  match r with
  | OutPing => Ret (ping_bytes myid network tid, [])
  | OutFind target want => Ret (find_bytes AF_INET6 myid network target want tid, [])
  | OutGet h q want => b ← get_bytes AF_INET6 myid network h q want tid; Ret (b, [])
  | OutListen h q token sid => b ← listen_bytes myid network h q token sid tid; Ret (b, [])
  | OutAnnounce h v created now token => announce_bytes myid network sys_now steady_now h v created now token tid
  | OutUpdate h vs created now token sid => update_bytes myid network sys_now steady_now h vs created now token sid tid
  | OutRefresh h vid token => Ret (refresh_bytes myid network h vid token tid, [])
  | OutTell refreshed sid token ids version =>
      Ret (tell_bytes myid network (tell_key refreshed) sid token ids version tid, [])
  end.

Definition request_type (r : outgoing) : MessageType :=
  match r with
  | OutPing => MT_Ping
  | OutFind _ _ => MT_FindNode
  | OutGet _ _ _ => MT_GetValues
  | OutListen _ _ _ _ => MT_Listen
  | OutAnnounce _ _ _ _ _ => MT_AnnounceValue
  | OutUpdate _ _ _ _ _ _ => MT_UpdateValue
  | OutRefresh _ _ _ => MT_Refresh
  | OutTell _ _ _ _ _ => MT_UpdateValue
  end.

Definition request_name (r : outgoing) : bytes :=
  match r with
  | OutPing => QUERY_PING
  | OutFind _ _ => QUERY_FIND
  | OutGet _ _ _ => QUERY_GET
  | OutListen _ _ _ _ => QUERY_LISTEN
  | OutAnnounce _ _ _ _ _ => QUERY_PUT
  | OutUpdate _ _ _ _ _ _ => QUERY_UPDATE
  | OutRefresh _ _ _ => QUERY_REFRESH
  | OutTell _ _ _ _ _ => QUERY_UPDATE
  end.

(** *** Wanted families and queries *)

Definition want_obj (want : Z) : list (obj * obj) :=
  if 0 <? want
  then [kv KEY_REQ_WANT (OArr ((if negb (Z.land want WANT4 =? 0) then [OPos AF_INET] else []) ++
                               (if negb (Z.land want WANT6 =? 0) then [OPos AF_INET6] else [])))]
  else [].

Definition query_args (q : Query) : list (obj * obj) :=
  if has_query q then [kv KEY_REQ_QUERY (query_obj q)] else [].

Definition wf_want (want : Z) : Prop := want = -1 \/ 1 <= want <= 3.

Definition wf_query (q : Query) : Prop :=
  Z.of_nat (length (q_select q)) < 2 ^ 32 /\ Z.of_nat (length (q_where q)) < 2 ^ 32 /\ Forall wf_fv (q_where q).

Definition wf_blob (b : bytes) : Prop := len b < 2 ^ 32 /\ wf_bytes b.

Lemma pack_int32 d : 0 <= d < 2 ^ 31 -> pack_imp_int32 d = pack (OPos d).
Proof.
  intros. cbn [pack]. unfold pack_imp_int32, pack_imp_uint64.
  repeat match goal with |- context [?x <? ?y] => destruct (Z.ltb_spec x y) end; done || lia.
Qed.

Lemma want_bytes want :
  (if 0 <? want then pack_want AF_INET6 want else []) = pack_kvs (want_obj want).
Proof using HAF6.
  unfold want_obj. destruct (0 <? want); [|done]. unfold pack_want.
  rewrite pack_kvs_cons, pack_kvs_nil, app_nil_r. f_equal. cbn [pack].
  rewrite !pack_int32 by (unfold AF_INET; lia).
  destruct (negb (Z.land want WANT4 =? 0)), (negb (Z.land want WANT6 =? 0));
    cbn [app length map concat Z.add Z.of_nat]; rewrite ?app_nil_r; reflexivity.
Qed.

Lemma want_obj_length want : Z.of_nat (length (want_obj want)) = if 0 <? want then 1 else 0.
Proof. unfold want_obj. by destruct (0 <? want). Qed.

Lemma query_args_bytes q : wf_query q -> opt_query q = Ret (pack_kvs (query_args q)).
Proof.
  intros (_ & _ & Hw). unfold opt_query, query_args. destruct (has_query q); [|done].
  rewrite query_pack_obj by done. cbn [mbind outcome_bind].
  by rewrite pack_kvs_cons, pack_kvs_nil, app_nil_r.
Qed.

Lemma query_args_length q : Z.of_nat (length (query_args q)) = if has_query q then 1 else 0.
Proof. unfold query_args. by destruct (has_query q). Qed.

Lemma read_want_obj want :
  wf_want want ->
  read_want AF_INET6 (match want_obj want with [] => None | e :: _ => Some e.2 end) = Ret want.
Proof using HAF6.
  intros Hw. assert (as_uint 16 (OPos AF_INET6) = Ret AF_INET6) as H6 by (apply as_uint_ok; lia).
  assert ((AF_INET6 =? AF_INET) = false) as Hne by (apply Z.eqb_neq; unfold AF_INET; lia).
  assert (want = -1 \/ want = 1 \/ want = 2 \/ want = 3) as Hc by (unfold wf_want in Hw; lia).
  assert (as_uint 16 (OPos AF_INET) = Ret AF_INET) as H4 by done.
  destruct Hc as [-> |[-> |[-> | ->]]]; [done| | |].
  - change (want_obj 1) with [kv KEY_REQ_WANT (OArr [OPos AF_INET])]. done.
  - change (want_obj 2) with [kv KEY_REQ_WANT (OArr [OPos AF_INET6])].
    cbn [kv snd read_want want_loop]. rewrite H6. cbn [caught mbind outcome_bind want_loop].
    by rewrite Hne, Z.eqb_refl.
  - change (want_obj 3) with [kv KEY_REQ_WANT (OArr [OPos AF_INET; OPos AF_INET6])].
    cbn [kv snd read_want want_loop]. rewrite H6, H4. cbn [caught mbind outcome_bind want_loop].
    by rewrite Hne, !Z.eqb_refl.
Qed.

(** *** Values *)

(** The exported key of the owner, and the object of a value. *)
Definition owner_bytes (v : Value) : option bytes :=
  match v_owner v with Some (Some g) => gnutls_export g | _ => None end.
Definition vobj (v : Value) : obj := value_obj (owner_bytes v) v.

(** A value that can be sent. *)
Definition wf_sent (v : Value) : Prop := wf_value v /\ exportable v /\ len (pack (vobj v)) < 2 ^ 32.

Lemma owner_exported v : exportable v -> exported v (owner_bytes v).
Proof. unfold exportable, exported, owner_bytes. destruct (v_owner v) as [[g|]|]; [|done..]. intros [b ->]. eauto. Qed.

Lemma vobj_wf d v : wf_sent v -> 3 <= d -> wf_obj d (vobj v).
Proof using GnutlsLaws0.
  intros (Hv & He & _) Hd. apply value_obj_wf; [done| |done]. intros b Hb. unfold owner_bytes in Hb.
  destruct (v_owner v) as [[g|]|]; try done. destruct (export_size g b Hb). split; [lia|done].
Qed.

Definition svals (vs : list Value) : list bytes := map (fun v => pack (vobj v)) vs.

Lemma serializeValues_obj vs : Forall wf_sent vs -> serializeValues vs = Ret (svals vs).
Proof.
  induction 1 as [|v vs (Hv & He & _) Hvs IH]; [done|]. cbn [serializeValues].
  rewrite (value_bytes v (owner_bytes v)) by (done || by apply owner_exported). cbn. by rewrite IH.
Qed.

(** Whether the values go in the packet. *)
Definition inlined (vs : list Value) : bool :=
  (Z.of_nat (length vs) <? 50) &&
  (foldl (fun a (v : bytes) => u64 (a + len v)) 0 (svals vs) <? MAX_PACKET_VALUE_SIZE).

Definition values_obj (vs : list Value) : obj :=
  OArr (if inlined vs then map vobj vs else map (fun b => OPos (len b)) (svals vs)).

Definition sent_parts (vs : list Value) : list bytes := if inlined vs then [] else svals vs.

Lemma header_obj vs :
  Forall wf_sent vs ->
  packValueHeader vs = Ret (pack_kvs [kv KEY_REQ_VALUES (values_obj vs)], sent_parts vs).
Proof.
  intros Hvs. unfold packValueHeader. rewrite serializeValues_obj by done. cbn [mbind outcome_bind].
  assert (length (svals vs) = length vs) as -> by apply length_map. fold (inlined vs).
  rewrite pack_kvs_cons, pack_kvs_nil, app_nil_r. unfold values_obj, sent_parts.
  destruct (inlined vs); cbn [pack]; unfold svals; rewrite !length_map, <- app_assoc, map_map; [done|].
  by rewrite !map_map.
Qed.

(** The values a reader accepts. *)
Definition received_values (vs : list Value) : list Value :=
  omap (fun v => match transmitted v with Ret x => Some x | _ => None end) vs.

(** The sizes announced for values in parts: oversize values are skipped. *)
Fixpoint announced_sizes (i : Z) (bs : list bytes) : list (Z * (Z * bytes)) :=
  match bs with
  | [] => []
  | b :: bs' => (if MAX_VALUE_SIZE + 32 <? len b then [] else [(i, (len b, []))]) ++ announced_sizes (i + 1) bs'
  end.

Lemma values_loop_objs i vs m :
  Forall wf_sent vs -> values_loop i (map vobj vs) m = Ret (pm_set_values (pm_values m ++ received_values vs) m).
Proof using GnutlsLaws0.
  intros Hvs. revert i m. induction Hvs as [|v vs (Hv & He & _) Hvs IH]; intros i m.
  { cbn. rewrite app_nil_r. by destruct m. }
  assert (msgpack_unpack (vobj v) (Value_make 0) = transmitted v) as Eu.
  { apply unpack_value_obj; [done|by apply owner_exported]. }
  assert (exists l, vobj v = OMap l) as [l El] by (unfold vobj, value_obj; eauto).
  cbn [map values_loop]. rewrite El in Eu |- *. cbv iota. rewrite Eu. unfold received_values. cbn [omap list_omap].
  assert (forall w, transmitted v <> Undef w /\ transmitted v <> Terminate w) as Hn.
  { intros w. unfold transmitted. by repeat case_match. }
  destruct (transmitted v) as [x|e|e|e]; cbn [caught mbind outcome_bind]; [| |by destruct (Hn e)..].
  - rewrite IH. cbn [pm_set_values pm_values]. by rewrite <- app_assoc.
  - by rewrite IH.
Qed.

Lemma values_loop_sizes i bs m :
  0 <= i -> i + Z.of_nat (length bs) < 2 ^ 32 -> Forall (fun b => len b < 2 ^ 32) bs ->
  Forall (fun e => e.1 < i) (pm_value_parts m) ->
  values_loop i (map (fun b => OPos (len b)) bs) m =
  Ret (pm_set_value_parts (pm_value_parts m ++ announced_sizes i bs) m).
Proof.
  intros Hi Hlen Hbs. revert i m Hi Hlen. induction Hbs as [|b bs Hb Hbs IH]; intros i m Hi Hlen Hm.
  { cbn. rewrite app_nil_r. by destruct m. }
  cbn [map values_loop announced_sizes length] in *. destruct (MAX_VALUE_SIZE + 32 <? len b).
  - rewrite IH; [done|lia|lia|]. eapply Forall_impl; [exact Hm|]. cbn. lia.
  - assert (0 <= len b) by (unfold len; lia). rewrite !wrap_small by lia.
    unfold om_emplace. rewrite zm_find_last by done. cbn [fst]. rewrite zm_set_last by done.
    rewrite IH; [|lia|lia|].
    + cbn [pm_set_value_parts pm_value_parts]. by rewrite <- app_assoc.
    + cbn [pm_set_value_parts pm_value_parts]. apply Forall_app. split.
      * eapply Forall_impl; [exact Hm|]. cbn. lia.
      * repeat constructor. cbn. lia.
Qed.

(** A message with the values of a request, or the sizes of those to come. *)
Definition with_values (vs : list Value) (m : ParsedMessage) : ParsedMessage :=
  if inlined vs then pm_set_values (received_values vs) m
  else pm_set_value_parts (announced_sizes 0 (svals vs)) m.

Lemma read_values_obj vs a m :
  Forall wf_sent vs -> Z.of_nat (length vs) < 2 ^ 32 -> a_values a = Some (values_obj vs) ->
  pm_values m = [] -> pm_value_parts m = [] -> read_values a m = Ret (with_values vs m).
Proof using GnutlsLaws0.
  intros Hvs Hlen Ha Hm1 Hm2. unfold read_values. rewrite Ha. unfold values_obj, with_values.
  destruct (inlined vs).
  - rewrite values_loop_objs by done. by rewrite Hm1.
  - rewrite values_loop_sizes; [by rewrite Hm2|lia|unfold svals; rewrite length_map; lia| |by rewrite Hm2].
    apply Forall_map. eapply Forall_impl; [exact Hvs|]. intros v (_ & _ & ?). done.
Qed.

(** *** Dates *)

Definition time_obj (t : Z) : obj := if 0 <=? t then OPos t else ONeg t.

Lemma pack_time t : - 2 ^ 63 <= t < 2 ^ 63 -> pack_imp_int64 t = pack (time_obj t).
Proof.
  intros Ht. unfold time_obj. destruct (Z.leb_spec 0 t); [|done]. cbn [pack]. unfold pack_imp_int64, pack_imp_uint64.
  repeat match goal with |- context [?x <? ?y] => destruct (Z.ltb_spec x y) end; done || lia.
Qed.

Lemma as_time_obj t : - 2 ^ 63 <= t < 2 ^ 63 -> as_time (time_obj t) = Ret t.
Proof.
  intros Ht. unfold time_obj, as_time. destruct (0 <=? t); [|done].
  by rewrite (proj2 (Z.ltb_ge _ _)) by lia.
Qed.

(** A date of creation that a request can carry: after the epoch of the system clock,
    and not past the range of the clocks. *)
Definition wf_created (created now : Z) : Prop :=
  created < now -> created <= steady_now /\ checked (created - steady_now) = Ret (created - steady_now) /\
    0 <= sys_now + (created - steady_now).

(** The date that is sent, in seconds, and the one that is read. *)
Definition sent_date (created : Z) : Z := (sys_now + (created - steady_now)) / 1000000000.
Definition read_date (created : Z) : Z :=
  let dt := seconds (sent_date created) - sys_now' in
  if (0 <? dt) && (time_max - dt <? steady_now') then time_max
  else if (dt <? 0) && (steady_now' <? time_min - dt) then time_min
  else steady_now' + dt.

Lemma sent_date_range created :
  created <= steady_now -> 0 <= sys_now + (created - steady_now) ->
  0 <= sent_date created /\ seconds (sent_date created) <= sys_now + (created - steady_now) <= time_max.
Proof using Hsys.
  intros Hc Hp. unfold sent_date, seconds. pose proof (Z.div_mod (sys_now + (created - steady_now)) 1000000000).
  pose proof (Z.mod_pos_bound (sys_now + (created - steady_now)) 1000000000). lia.
Qed.

Lemma to_time_t_sent created now :
  wf_created created now -> created < now -> to_time_t sys_now steady_now created = Ret (sent_date created).
Proof using Hsys.
  intros H Hlt. destruct (H Hlt) as (Hc & Hk & Hp). unfold to_time_t. rewrite Hk. cbn [mbind outcome_bind].
  rewrite (proj2 (Z.ltb_ge 0 _)) by lia. cbn [andb].
  rewrite (proj2 (Z.leb_gt sys_now _)) by (unfold time_min, time_max in *; lia). rewrite andb_false_r.
  f_equal. by apply Z.quot_div_nonneg.
Qed.

Lemma sent_date_time created now : wf_created created now -> created < now -> - 2 ^ 63 <= sent_date created < 2 ^ 63.
Proof using Hsys.
  intros H Hlt. destruct (H Hlt) as (Hc & _ & Hp). pose proof (sent_date_range created Hc Hp) as Hr.
  unfold time_max, seconds in Hr. lia.
Qed.

Lemma from_time_t_read created now :
  wf_created created now -> created < now -> from_time_t sys_now' steady_now' (sent_date created) = Ret (read_date created).
Proof using Hsys Hsys'.
  intros H Hlt. destruct (H Hlt) as (Hc & _ & Hp). pose proof (sent_date_range created Hc Hp) as Hr.
  unfold from_time_t. rewrite checked_ok by (unfold time_min, seconds in *; lia). cbn [mbind outcome_bind].
  rewrite checked_ok by (unfold time_min, time_max, seconds in *; lia). done.
Qed.

Definition creation_obj (created now : Z) : list (obj * obj) :=
  if created <? now then [kv KEY_REQ_CREATION (time_obj (sent_date created))] else [].

Lemma creation_bytes created now :
  wf_created created now -> opt_creation sys_now steady_now created now = Ret (pack_kvs (creation_obj created now)).
Proof using Hsys.
  intros H. unfold opt_creation, creation_obj. destruct (Z.ltb_spec created now); [|done].
  rewrite (to_time_t_sent created now) by done. cbn [mbind outcome_bind].
  rewrite pack_kvs_cons, pack_kvs_nil, app_nil_r, pack_time; [done|by eapply sent_date_time].
Qed.

(** *** The ids told to listeners *)

Definition opt_blob (k b : bytes) : list (obj * obj) := match b with [] => [] | _ => [kv k (OBin b)] end.
Definition opt_ids (k : bytes) (ids : list Z) : list (obj * obj) :=
  match ids with [] => [] | _ => [kv k (OArr (map OPos ids))] end.

(** The arguments and the object of [tell_bytes], a request ([v1]) or a reply. *)
Definition tell_args (refreshed v1 : bool) (sid : Tid) (token : bytes) (ids : list Z) : list (obj * obj) :=
  [kv KEY_REQ_ID (OBin myid)] ++ (if v1 then [kv KEY_REQ_SID (OPos sid)] else []) ++
  opt_blob KEY_REQ_TOKEN token ++ opt_ids (tell_key refreshed) ids.

Definition tell_obj (v1 : bool) (args : list (obj * obj)) (tid : Tid) : obj :=
  OMap ([kv (if v1 then KEY_A else KEY_U) (OMap args); kv KEY_Y (OStr (if v1 then KEY_Q else KEY_R)); kv KEY_UA (OStr my_v)] ++
        net_obj ++ (if v1 then [kv KEY_Q (OStr QUERY_UPDATE)] else []) ++ [kv KEY_TID (OPos tid)]).

Definition wf_ids (ids : list Z) : Prop := Z.of_nat (length ids) < 2 ^ 32 /\ Forall (fun i => 0 <= i < 2 ^ 64) ids.

Lemma opt_blob_bytes k b : pack_kvs (opt_blob k b) = match b with [] => [] | _ => pack_string k ++ pack_binary b end.
Proof. destruct b; [done|]. unfold opt_blob. by rewrite pack_kvs_cons, pack_kvs_nil, app_nil_r. Qed.

Lemma opt_blob_length k b : Z.of_nat (length (opt_blob k b)) = nonempty b.
Proof. by destruct b. Qed.

Lemma opt_ids_bytes k ids :
  pack_kvs (opt_ids k ids) =
  match ids with
  | [] => []
  | _ => pack_string k ++ pack_array (Z.of_nat (length ids)) ++ concat (map pack_imp_uint64 ids)
  end.
Proof.
  destruct ids as [|i ids]; [done|]. unfold opt_ids. rewrite pack_kvs_cons, pack_kvs_nil, app_nil_r. cbn [pack].
  by rewrite length_map, map_map.
Qed.

Lemma opt_ids_length k ids : Z.of_nat (length (opt_ids k ids)) = nonempty ids.
Proof. by destruct ids. Qed.

Lemma tell_bytes_obj refreshed sid token ids version tid :
  0 <= sid < 2 ^ 32 -> 0 <= tid < 2 ^ 32 ->
  tell_bytes myid network (tell_key refreshed) sid token ids version tid =
  pack (tell_obj (1 <=? version) (tell_args refreshed (1 <=? version) sid token ids) (if 1 <=? version then tid else sid)).
Proof using Hnet.
  intros Hs Ht. unfold tell_bytes, tell_obj, tell_args.
  destruct (1 <=? version);
    rewrite pack_map_obj, !pack_kvs_app, !pack_kvs_cons, !pack_kvs_nil, !length_app, !Nat2Z.inj_add, net_obj_length, pack_net_obj,
      !pack_map_obj, !pack_kvs_app, !pack_kvs_cons, !pack_kvs_nil, opt_blob_bytes, opt_ids_bytes, !length_app, !Nat2Z.inj_add,
      opt_blob_length, opt_ids_length, !pack_OStr, !pack_uint32 by done;
    cbn [length app]; rewrite ?app_nil_r, <- ?app_assoc; unfold packToken, pack_binary.
  - f_equal; [f_equal; lia|]. f_equal. f_equal. f_equal. lia.
  - f_equal; [f_equal; lia|]. f_equal. f_equal. f_equal. lia.
Qed.

(** *** The arguments of the requests *)

Definition request_args (r : outgoing) : list (obj * obj) :=
  match r with
  | OutPing => [kv KEY_REQ_ID (OBin myid)]
  | OutFind target want => [kv KEY_REQ_ID (OBin myid); kv KEY_REQ_TARGET (OBin target)] ++ want_obj want
  | OutGet h q want => [kv KEY_REQ_ID (OBin myid); kv KEY_REQ_H (OBin h)] ++ query_args q ++ want_obj want
  | OutListen h q token sid =>
      [kv KEY_REQ_ID (OBin myid); kv KEY_VERSION (OPos 1); kv KEY_REQ_H (OBin h); kv KEY_REQ_TOKEN (OBin token);
       kv KEY_REQ_SID (OPos sid)] ++ query_args q
  | OutAnnounce h v created now token =>
      [kv KEY_REQ_ID (OBin myid); kv KEY_REQ_H (OBin h); kv KEY_REQ_VALUES (values_obj [v])] ++
      creation_obj created now ++ [kv KEY_REQ_TOKEN (OBin token)]
  | OutUpdate h vs created now token sid =>
      [kv KEY_REQ_ID (OBin myid); kv KEY_VERSION (OPos 1); kv KEY_REQ_H (OBin h); kv KEY_REQ_SID (OPos sid);
       kv KEY_REQ_VALUES (values_obj vs)] ++ creation_obj created now ++ [kv KEY_REQ_TOKEN (OBin token)]
  | OutRefresh h vid token =>
      [kv KEY_REQ_ID (OBin myid); kv KEY_REQ_H (OBin h); kv KEY_REQ_VALUE_ID (OPos vid);
       kv KEY_REQ_TOKEN (OBin token)]
  | OutTell refreshed sid token ids _ => tell_args refreshed true sid token ids
  end.

(** The object of a request: the order of the keys of [tell_bytes] differs. *)
Definition packet_obj (r : outgoing) (tid : Tid) : obj :=
  match r with
  | OutTell _ _ _ _ _ => tell_obj true (request_args r) tid
  | _ => request_obj (request_args r) (request_name r) tid
  end.

(** A request within the widths of its fields. *)
Definition wf_outgoing (r : outgoing) : Prop :=
  match r with
  | OutPing => True
  | OutFind target want => wf_hash HASH_LEN target /\ wf_want want
  | OutGet h q want => wf_hash HASH_LEN h /\ wf_query q /\ wf_want want
  | OutListen h q token sid => wf_hash HASH_LEN h /\ wf_query q /\ wf_blob token /\ 0 <= sid < 2 ^ 32
  | OutAnnounce h v created now token => wf_hash HASH_LEN h /\ wf_sent v /\ wf_blob token /\ wf_created created now
  | OutUpdate h vs created now token sid =>
      wf_hash HASH_LEN h /\ (Forall wf_sent vs /\ Z.of_nat (length vs) < 2 ^ 32) /\ wf_blob token /\
      0 <= sid < 2 ^ 32 /\ wf_created created now
  | OutRefresh h vid token => wf_hash HASH_LEN h /\ 0 <= vid < 2 ^ 64 /\ wf_blob token
  | OutTell _ sid token ids version => 1 <= version /\ 0 <= sid < 2 ^ 32 /\ wf_blob token /\ wf_ids ids
  end.

(** The values of a request that follow in parts. *)
Definition request_parts (r : outgoing) : list bytes :=
  match r with
  | OutAnnounce _ v _ _ _ => sent_parts [v]
  | OutUpdate _ vs _ _ _ _ => sent_parts vs
  | _ => []
  end.

Lemma creation_obj_length created now : Z.of_nat (length (creation_obj created now)) = if created <? now then 1 else 0.
Proof. unfold creation_obj. by destruct (created <? now). Qed.

(** The packet of a request is the encoding of its object. *)
Lemma request_packet_obj r tid :
  wf_outgoing r -> 0 <= tid < 2 ^ 32 ->
  request_packet r tid = Ret (pack (packet_obj r tid), request_parts r).
Proof using All.
  intros Hr Ht. pose proof (fun a q => request_bytes a q tid Ht) as Hrb.
  assert (forall v, pack_imp_int32 1 = pack (OPos 1) /\ pack_imp_uint64 v = pack (OPos v)) as H1 by done.
  destruct r as [|target want|h q want|h q token sid|h v created now token|h vs created now token sid|h vid token|fresh sid token ids version];
    cbn [request_packet packet_obj request_args request_name request_parts wf_outgoing] in *; rewrite ?Hrb; clear Hrb.
  - unfold ping_bytes. by rewrite pack_kvs_cons, pack_kvs_nil, !app_nil_r.
  - unfold find_bytes. rewrite !pack_kvs_app, !pack_kvs_cons, pack_kvs_nil, length_app, want_bytes.
    rewrite Nat2Z.inj_add, want_obj_length. by rewrite <- !app_assoc.
  - destruct Hr as (_ & Hq & _). unfold get_bytes. rewrite query_args_bytes by done. cbn [mbind outcome_bind].
    rewrite !pack_kvs_app, !pack_kvs_cons, pack_kvs_nil, !length_app, want_bytes, !Nat2Z.inj_add, want_obj_length,
      query_args_length. rewrite <- !app_assoc. cbn [length Z.of_nat]. by rewrite <- Z.add_assoc.
  - destruct Hr as (_ & Hq & _ & Hs). unfold listen_bytes. rewrite query_args_bytes by done. cbn [mbind outcome_bind].
    rewrite !pack_kvs_app, !pack_kvs_cons, pack_kvs_nil, !length_app, !Nat2Z.inj_add, query_args_length.
    rewrite (pack_uint32 sid) by done. by rewrite <- !app_assoc.
  - destruct Hr as (_ & Hv & _ & Hc). unfold announce_bytes. rewrite header_obj by auto. cbn [mbind outcome_bind].
    rewrite creation_bytes by done. cbn [mbind outcome_bind]. rewrite !pack_kvs_app, !pack_kvs_cons, pack_kvs_nil, !length_app, !Nat2Z.inj_add,
      creation_obj_length. rewrite <- !app_assoc. by destruct (created <? now).
  - destruct Hr as (_ & (Hv & _) & _ & Hs & Hc). unfold update_bytes. rewrite header_obj by auto. cbn [mbind outcome_bind].
    rewrite creation_bytes by done. cbn [mbind outcome_bind]. rewrite !pack_kvs_app, !pack_kvs_cons, pack_kvs_nil, !length_app, !Nat2Z.inj_add,
      creation_obj_length, (pack_uint32 sid) by done. rewrite <- !app_assoc. by destruct (created <? now).
  - unfold refresh_bytes. rewrite !pack_kvs_cons, pack_kvs_nil, !app_nil_r. by rewrite <- !app_assoc.
  - destruct Hr as (Hv & Hs & _). rewrite tell_bytes_obj by done. by rewrite (proj2 (Z.leb_le _ _)) by done.
Qed.

(** *** The objects are well formed *)

Definition wf_args (d : Z) (l : list (obj * obj)) : Prop :=
  Forall (fun e => wf_obj d e.1 /\ wf_obj d e.2) l.

Lemma wf_hash_obj d h : wf_hash HASH_LEN h -> wf_obj d (OBin h).
Proof. intros [Hl Hb]. split; [|done]. unfold len. by rewrite Hl. Qed.

Lemma wf_args_app d l1 l2 : wf_args d (l1 ++ l2) <-> wf_args d l1 /\ wf_args d l2.
Proof. apply Forall_app. Qed.

Lemma wf_args_kv d k o l :
  bool_decide (len k < 2 ^ 32 /\ wf_bytes k) = true -> wf_obj d o -> wf_args d l -> wf_args d (kv k o :: l).
Proof. intros Hk. apply bool_decide_eq_true_1 in Hk. intros. constructor; [done|done]. Qed.

Lemma wf_args_1 d k o : bool_decide (len k < 2 ^ 32 /\ wf_bytes k) = true -> wf_obj d o -> wf_args d [kv k o].
Proof. intros. apply wf_args_kv; [done|done|constructor]. Qed.

Lemma want_obj_wf d want : 2 <= d -> wf_args d (want_obj want).
Proof using HAF6.
  intros Hd. unfold wf_args, want_obj. destruct (0 <? want); [|constructor]. apply wf_args_1; [done|apply wf_arr].
  assert (forall x, 0 <= x < 2 ^ 64 -> wf_obj (d - 1) (OPos x)) as Hp by done.
  split_and!; [lia| |]; repeat case_match; cbn; repeat constructor; try apply Hp; unfold AF_INET; lia.
Qed.

Lemma query_args_wf d q : wf_query q -> 3 <= d -> wf_args d (query_args q).
Proof.
  intros (H1 & H2 & H3) Hd. unfold wf_args, query_args. destruct (has_query q); [|constructor].
  apply wf_args_1; [done|]. by apply query_obj_wf.
Qed.

Lemma values_obj_wf d vs :
  Forall wf_sent vs -> Z.of_nat (length vs) < 2 ^ 32 -> 4 <= d -> wf_obj d (values_obj vs).
Proof using GnutlsLaws0.
  intros Hvs Hl Hd. unfold values_obj. apply wf_arr. split_and!; [lia| |].
  - unfold svals. destruct (inlined vs); rewrite !length_map; lia.
  - destruct (inlined vs).
    + apply Forall_map. eapply Forall_impl; [exact Hvs|]. intros v Hv. apply vobj_wf; [done|lia].
    + unfold svals. rewrite map_map. apply Forall_map. eapply Forall_impl; [exact Hvs|]. intros v (_ & _ & Hv).
      split; [unfold len; lia|]. lia.
Qed.

Lemma creation_obj_wf d created now : wf_created created now -> wf_args d (creation_obj created now).
Proof using Hsys.
  intros H. unfold wf_args, creation_obj. destruct (Z.ltb_spec created now); [|constructor]. apply wf_args_1; [done|].
  pose proof (sent_date_time created now H ltac:(done)). unfold time_obj.
  destruct (Z.leb_spec 0 (sent_date created)); cbn [wf_obj]; lia.
Qed.

Lemma wf_lit d s : bool_decide (len s < 2 ^ 32 /\ wf_bytes s) = true -> wf_obj d (OStr s).
Proof. intros Hk. by apply bool_decide_eq_true_1 in Hk. Qed.

Lemma opt_blob_wf d k b :
  bool_decide (len k < 2 ^ 32 /\ wf_bytes k) = true -> wf_blob b -> wf_args d (opt_blob k b).
Proof. intros. destruct b; [constructor|]. by apply wf_args_1. Qed.

Lemma opt_ids_wf d refreshed ids : wf_ids ids -> 2 <= d -> wf_args d (opt_ids (tell_key refreshed) ids).
Proof.
  intros [Hl Hi] Hd. unfold opt_ids. destruct ids as [|i ids]; [constructor|]. apply wf_args_1; [by destruct refreshed|].
  apply wf_arr. rewrite length_map. split_and!; [lia|done|]. by apply Forall_map.
Qed.

Lemma tell_args_wf d refreshed v1 sid token ids :
  0 <= sid < 2 ^ 32 -> wf_blob token -> wf_ids ids -> 2 <= d -> wf_args d (tell_args refreshed v1 sid token ids).
Proof using Hmyid.
  intros Hs Ht Hi Hd. unfold tell_args. rewrite !wf_args_app. split_and!; [| |by apply opt_blob_wf|by apply opt_ids_wf].
  - apply wf_args_1; [done|by apply wf_hash_obj].
  - destruct v1; [|constructor]. apply wf_args_1; [done|cbn; lia].
Qed.

Lemma tell_obj_wf refreshed v1 sid token ids tid :
  0 <= sid < 2 ^ 32 -> wf_blob token -> wf_ids ids -> 0 <= tid < 2 ^ 32 ->
  wf_obj 0xffffffff (tell_obj v1 (tell_args refreshed v1 sid token ids) tid).
Proof using Hmyid Hnet.
  intros Hs Hk Hi Ht. unfold tell_obj. apply wf_map.
  assert (Z.of_nat (length net_obj) <= 1) as Hn by (unfold net_obj; case_match; cbn; lia).
  split_and!; [done|rewrite !length_app; destruct v1; cbn [length]; lia|]. rewrite !Forall_app. split_and!.
  - repeat (apply wf_args_kv; [by destruct v1| |]); [|destruct v1; by apply wf_lit|by apply wf_lit|constructor].
    apply wf_map. split_and!; [done| |by apply tell_args_wf].
    unfold tell_args. rewrite !length_app, !Nat2Z.inj_add, opt_blob_length, opt_ids_length.
    destruct v1, token, ids; cbn; lia.
  - unfold net_obj. case_match; [constructor|]. apply wf_args_1; [done|cbn; lia].
  - destruct v1; [|constructor]. apply wf_args_1; [done|by apply wf_lit].
  - apply wf_args_1; [done|cbn; lia].
Qed.

Lemma args_wf r d : wf_outgoing r -> 4 <= d -> wf_args d (request_args r).
Proof using All.
  intros Hr Hd.
  assert (forall n, 0 <= n < 2 ^ 32 -> wf_obj d (OPos n)) as Hp by (intros; cbn; lia).
  assert (forall s, wf_blob s -> wf_obj d (OBin s)) as Hbl by done.
  pose proof (wf_hash_obj d) as Hh.
  destruct r as [|target want|h q want|h q token sid|h v created now token|h vs created now token sid|h vid token|fresh sid token ids version];
    cbn [request_args wf_outgoing] in *; rewrite ?wf_args_app.
  - apply wf_args_1; auto.
  - destruct Hr as [? ?]. split; [|apply want_obj_wf; lia]. apply wf_args_kv, wf_args_1; auto.
  - destruct Hr as (? & ? & ?). split_and!; [|apply query_args_wf; [done|lia]|apply want_obj_wf; lia].
    apply wf_args_kv, wf_args_1; auto.
  - destruct Hr as (? & ? & ? & ?). split; [|apply query_args_wf; [done|lia]].
    repeat (apply wf_args_kv; [done| |]); auto; [apply Hp; lia|constructor].
  - destruct Hr as (? & ? & ? & ?). split_and!; [|by apply creation_obj_wf|apply wf_args_1; auto].
    repeat (apply wf_args_kv; [done| |]); auto; [|constructor]. apply values_obj_wf; [auto|done|done].
  - destruct Hr as (? & [? ?] & ? & ? & ?). split_and!; [|by apply creation_obj_wf|apply wf_args_1; auto].
    repeat (apply wf_args_kv; [done| |]); auto; [apply Hp; lia| |constructor]. apply values_obj_wf; done.
  - destruct Hr as (? & ? & ?). repeat (apply wf_args_kv; [done| |]); auto. constructor.
  - destruct Hr as (? & ? & ? & ?). apply tell_args_wf; [done..|lia].
Qed.

Lemma request_obj_wf r tid :
  wf_outgoing r -> 0 <= tid < 2 ^ 32 -> wf_obj 0xffffffff (packet_obj r tid).
Proof using All.
  intros Hr Ht.
  assert (packet_obj r tid = request_obj (request_args r) (request_name r) tid \/ wf_obj 0xffffffff (packet_obj r tid)) as [-> |]; [|unfold request_obj; apply wf_map|done].
  { destruct r; auto. right. destruct Hr as (? & ? & ? & ?). by apply tell_obj_wf. }
  assert (Z.of_nat (length net_obj) <= 1) as Hn by (unfold net_obj; case_match; cbn; lia).
  assert (forall n, 0 <= n < 2 ^ 32 -> wf_obj (0xffffffff - 1) (OPos n)) as Hp by (intros; cbn [wf_obj]; lia).
  split_and!; [done|rewrite length_app; cbn [length]; lia|]. apply Forall_app. split.
  - repeat (apply wf_args_kv; [done| |]); auto; try by apply wf_lit.
    + apply wf_map. split_and!; [done| |].
      * destruct r; cbn [request_args]; rewrite ?length_app; cbn [length];
          pose proof want_obj_length; pose proof query_args_length; pose proof creation_obj_length;
          unfold tell_args, opt_blob, opt_ids, want_obj, query_args, creation_obj; repeat case_match; cbn; lia.
      * by apply args_wf.
    + destruct r; by apply wf_lit.
    + constructor.
  - unfold net_obj. case_match; [constructor|]. apply wf_args_1; auto.
Qed.

(** *** Reading them *)

Definition received_query (q : Query) : list Z * list FieldValue := (map field_Z (q_select q), q_where q).

Definition with_creation (created now : Z) (m : ParsedMessage) : ParsedMessage :=
  if created <? now
  then pm_set_created (read_date created) m
  else m.

Definition with_ids (refreshed : bool) (ids : list Z) (m : ParsedMessage) : ParsedMessage :=
  if refreshed then pm_set_refreshed ids m else pm_set_expired ids m.

(** The message a request is read as. *)
Definition expected (r : outgoing) (tid : Tid) : ParsedMessage :=
  let m := pm_set_id myid (pm_base (request_type r) tid) in
  match r with
  | OutPing => m
  | OutFind target want => pm_set_want want (pm_set_target target m)
  | OutGet h q want => pm_set_want want (pm_set_query (received_query q) (pm_set_info_hash h m))
  | OutListen h q token sid =>
      pm_set_query (received_query q)
        (pm_set_socket_id sid (pm_set_token token (pm_set_info_hash h (pm_set_version 1 m))))
  | OutAnnounce h v created now token =>
      with_values [v] (pm_set_token token (with_creation created now (pm_set_info_hash h m)))
  | OutUpdate h vs created now token sid =>
      with_values vs (pm_set_token token (with_creation created now
        (pm_set_socket_id sid (pm_set_info_hash h (pm_set_version 1 m)))))
  | OutRefresh h vid token => pm_set_token token (pm_set_value_id vid (pm_set_info_hash h m))
  | OutTell refreshed sid token ids _ => with_ids refreshed ids (pm_set_token token (pm_set_socket_id sid m))
  end.

Abbreviation rloop := (req_loop sys_now' steady_now').

Lemma req_loop_app l1 l2 a m :
  rloop (l1 ++ l2) a m = '(a', m') ← rloop l1 a m; rloop l2 a' m'.
Proof.
  revert a m. induction l1 as [|[k o] l1 IH]; intros a m; [done|]. cbn [app req_loop].
  destruct k; try apply IH. destruct (req_key _ _ _ _ _ _) as [[a' m']|e|e|e]; cbn [mbind outcome_bind]; [apply IH|done..].
Qed.

Lemma read_query_args q a m :
  wf_query q -> pm_query m = ([], []) -> rloop (query_args q) a m = Ret (a, pm_set_query (received_query q) m).
Proof.
  intros (_ & _ & Hw) Hm. unfold query_args, received_query.
  destruct (has_query q) eqn:E.
  - read_keys. by rewrite query_unpack_obj.
  - unfold has_query in E. destruct (q_where q), (q_select q); try done. cbn. f_equal. f_equal. destruct m; cbn in *. by subst.
Qed.

Lemma read_creation created now a m :
  wf_created created now ->
  rloop (creation_obj created now) a m = Ret (a, with_creation created now m).
Proof using Hsys Hsys'.
  intros H. unfold creation_obj, with_creation. destruct (Z.ltb_spec created now); [|done]. read_keys.
  rewrite as_time_obj by by eapply sent_date_time. cbn [mbind outcome_bind]. by rewrite (from_time_t_read created now).
Qed.

Lemma read_want_args want a m :
  a_want a = None ->
  rloop (want_obj want) a m =
  Ret (mkReq (a_values a) (a_fields a) (a_sa a) (match want_obj want with [] => None | e :: _ => Some e.2 end), m).
Proof.
  intros Ha. unfold want_obj. destruct (0 <? want); [read_keys; done|]. destruct a; cbn in *. by subst.
Qed.

Lemma read_opt_blob k b a m (set : bytes -> ParsedMessage -> ParsedMessage) rest :
  (forall o, req_key sys_now' steady_now' k o a m = (t ← unpackBlob o; Ret (a, set t m))) -> set [] m = m ->
  rloop (opt_blob k b ++ rest) a m = rloop rest a (set b m).
Proof. intros Hk H0. destruct b; cbn [opt_blob app req_loop kv]; [by rewrite H0|]. by rewrite Hk. Qed.

Lemma read_opt_ids refreshed ids a m :
  wf_ids ids -> pm_refreshed_values m = [] -> pm_expired_values m = [] ->
  rloop (opt_ids (tell_key refreshed) ids) a m = Ret (a, with_ids refreshed ids m).
Proof.
  intros [_ Hi] Hr He. unfold opt_ids, with_ids. destruct ids as [|i ids].
  { destruct m; cbn in *; subst. by destruct refreshed. }
  assert (as_vector (as_uint 64) (OArr (map OPos (i :: ids))) = Ret (i :: ids)) as Hv.
  { unfold as_vector. rewrite (as_list_map (as_uint 64) OPos id); [by rewrite map_id|].
    eapply Forall_impl; [exact Hi|]. intros n Hn. by apply as_uint_ok. }
  destruct refreshed; cbn [tell_key req_loop kv]; autorewrite with vb_keys; by rewrite Hv.
Qed.

(** A message without address and wanted families. *)
Lemma pm_unasked m : pm_want m = -1 -> pm_addr m = [] -> pm_set_want (-1) (pm_set_addr [] m) = m.
Proof. destruct m. cbn. by intros -> ->. Qed.
Lemma values_unasked vs m :
  pm_want m = -1 -> pm_addr m = [] -> pm_set_want (-1) (with_values vs (pm_set_addr [] m)) = with_values vs m.
Proof. unfold with_values. destruct (inlined vs), m; cbn; by intros -> ->. Qed.

(** The ids told to a listener, as a request or as a reply. *)
Lemma read_tell refreshed (v1 : bool) sid token ids t tid :
  0 <= sid < 2 ^ 32 -> wf_ids ids ->
  read_args (tell_args refreshed v1 sid token ids) (pm_base t tid) =
  Ret (with_ids refreshed ids (pm_set_token token
        ((if v1 then pm_set_socket_id sid else id) (pm_set_id myid (pm_base t tid))))).
Proof using Hmyid.
  intros Hs Hi. unfold read_args, tell_args. cbn [app req_loop kv]. autorewrite with vb_keys. rewrite hash_unpack_ok by done.
  cbn [mbind outcome_bind]. rewrite req_loop_app.
  assert (rloop (if v1 then [kv KEY_REQ_SID (OPos sid)] else []) no_req (pm_set_id myid (pm_base t tid)) =
    Ret (no_req, (if v1 then pm_set_socket_id sid else id) (pm_set_id myid (pm_base t tid)))) as ->.
  { destruct v1; [|done]. cbn [req_loop kv]. autorewrite with vb_keys. unfold unpackTid. by rewrite as_uint_ok. }
  cbn [mbind outcome_bind]. rewrite (read_opt_blob KEY_REQ_TOKEN _ _ _ pm_set_token);
    [|intros; by autorewrite with vb_keys|by destruct v1].
  rewrite read_opt_ids by (done || by destruct v1).
  cbn [mbind outcome_bind read_addr read_values read_want no_req a_sa a_values a_fields a_want].
  rewrite pm_unasked; [done|by destruct refreshed, v1..].
Qed.

Lemma unpack_tell args tid (v1 : bool) :
  0 <= tid < 2 ^ 32 ->
  pm_unpack AF_INET6 sys_now' steady_now' (tell_obj v1 args tid) Message_make =
  read_args args (pm_base (if v1 then MT_UpdateValue else MT_ValueUpdate) tid).
Proof using Hnet.
  intros Ht. unfold pm_unpack, tell_obj.
  match goal with |- context [top_loop ?l _ _] => assert (top_loop l no_parsed Message_make =
    Ret (mkParsed (Some (OStr (if v1 then KEY_Q else KEY_R))) None (if v1 then None else Some (OMap args)) None None
          (if v1 then Some (OMap args) else None) (if v1 then QUERY_UPDATE else []),
         pm_set_network network (pm_set_ua my_v (pm_set_tid tid Message_make)))) as -> end.
  { unfold net_obj. destruct v1, (Z.eqb_spec network 0) as [-> |]; read_keys; done. }
  by destruct v1.
Qed.

Lemma read_expected r tid :
  wf_outgoing r -> 0 <= tid < 2 ^ 32 -> read_args (request_args r) (pm_base (request_type r) tid) = Ret (expected r tid).
Proof using All.
  intros Hr Ht. unfold read_args.
  assert (forall h, wf_hash HASH_LEN h -> hash_unpack (OBin h) = Ret h) as Hh by apply hash_unpack_ok.
  assert (forall n, 0 <= n < 2 ^ 32 -> unpackTid (OPos n) = Ret n) as Hs by (intros; by apply as_uint_ok).
  assert (as_int (OPos 1) = Ret 1) as H1 by done.
  assert (forall s, unpackBlob (OBin s) = Ret s) as Hb by done.
  assert (0 <= 1 < 2 ^ 32) as H1r by lia.
  destruct r as [|target want|h q want|h q token sid|h v created now token|h vs created now token sid|h vid token|fresh sid token ids version];
    cbn [request_args wf_outgoing request_type] in *; rewrite ?req_loop_app.
  - args Hh Hs H1 Hb. done.
  - destruct Hr as [Ht1 Hw]. args Hh Hs H1 Hb. rewrite read_want_args by done.
    cbn [mbind outcome_bind a_sa a_values a_fields a_want read_addr read_values no_req]. rewrite read_want_obj by assumption. reflexivity.
  - destruct Hr as (Ht1 & Hq & Hw). args Hh Hs H1 Hb. rewrite ?req_loop_app, read_query_args by done.
    cbn [mbind outcome_bind]. rewrite read_want_args by done.
    cbn [mbind outcome_bind a_sa a_values a_fields a_want read_addr read_values no_req]. rewrite read_want_obj by assumption. reflexivity.
  - destruct Hr as (Ht1 & Hq & Hk & Hsid). args Hh Hs H1 Hb. rewrite read_query_args by (assumption || reflexivity).
    cbn [mbind outcome_bind read_addr read_values read_want no_req a_sa a_values a_fields a_want].
    cbn [expected request_type]. rewrite pm_unasked by reflexivity. reflexivity.
  - destruct Hr as (Ht1 & Hv & Hk & Hc). args Hh Hs H1 Hb. rewrite req_loop_app, read_creation by done.
    args Hh Hs H1 Hb. cbn [read_addr no_req a_sa mbind outcome_bind]. erewrite (read_values_obj [v]); [|auto|done|done|..].
    + cbn [mbind outcome_bind no_req a_want read_want expected request_type]. unfold with_creation.
      destruct (created <? now); rewrite values_unasked by reflexivity; reflexivity.
    + unfold with_creation; by destruct (created <? now).
    + unfold with_creation; by destruct (created <? now).
  - destruct Hr as (Ht1 & [Hv Hl] & Hk & Hsid & Hc). args Hh Hs H1 Hb. rewrite req_loop_app, read_creation by done.
    args Hh Hs H1 Hb. cbn [read_addr no_req a_sa mbind outcome_bind]. erewrite (read_values_obj vs); [|auto|done|done|..].
    + cbn [mbind outcome_bind no_req a_want read_want expected request_type]. unfold with_creation.
      destruct (created <? now); rewrite values_unasked by reflexivity; reflexivity.
    + unfold with_creation; by destruct (created <? now).
    + unfold with_creation; by destruct (created <? now).
  - destruct Hr as (Ht1 & Hv & Hk). args Hh Hs H1 Hb. rewrite as_uint_ok by done. args Hh Hs H1 Hb. done.
  - destruct Hr as (_ & Hsid & _ & Hi). pose proof (read_tell fresh true sid token ids MT_UpdateValue tid Hsid Hi) as Hrt.
    unfold read_args in Hrt. exact Hrt.
Qed.

Lemma requests_read r tid rest :
  wf_outgoing r -> 0 <= tid < 2 ^ 32 -> wf_bytes rest ->
  exists b, request_packet r tid = Ret (b, request_parts r) /\ parse (b ++ rest) = Ret (expected r tid).
Proof using All.
  intros Hr Ht Hrest. eexists. split; [by apply request_packet_obj|].
  unfold parse_message. rewrite unpack_packed by (done || by apply request_obj_wf). cbn [mbind outcome_bind fst].
  transitivity (read_args (request_args r) (pm_base (request_type r) tid)); [|by apply read_expected].
  destruct r; cbn [packet_obj]; [..|by apply unpack_tell]; by apply unpack_request.
Qed.

(** C15. Every request the engine sends, the updates of [tellListenerRefreshed] and
    [tellListenerExpired] included, is understood: packing it succeeds, and the
    receiver's parser, whatever bytes follow the packet, gives a message of the
    request's type with the sender's id, the transaction id, the network, and every
    argument that was sent: the target or key, the wanted families, the query, the
    token, the socket, the refreshed or expired ids, and the values the receiver accepts
    (all but those with an owner and no signature), or, for values sent in parts, the
    sizes of those that are not oversize. *)
Theorem requests_parse r tid rest :
  wf_outgoing r -> 0 <= tid < 2 ^ 32 -> wf_bytes rest ->
  exists b, request_packet r tid = Ret (b, request_parts r) /\ parse (b ++ rest) = Ret (expected r tid).
Proof using All. apply requests_read. Qed.

(** The date that is read, by a reader with the same clocks, is within a second of the
    original. *)
Lemma read_date_close created now :
  wf_created created now -> created < now -> sys_now' = sys_now -> steady_now' = steady_now ->
  time_min + seconds 1 <= created -> created - seconds 1 < read_date created <= created.
Proof using Hsys Hsys'.
  intros H Hlt -> -> Hm. destruct (H Hlt) as (Hc & _ & Hp). unfold read_date, sent_date, seconds in *.
  set (a := sys_now + (created - steady_now)) in *.
  pose proof (Z.div_mod a 1000000000 ltac:(lia)). pose proof (Z.mod_pos_bound a 1000000000 ltac:(lia)).
  rewrite (proj2 (Z.ltb_ge 0 _)) by lia. cbn [andb].
  case_match eqn:E; [|lia]. apply andb_true_iff in E as [_ E]. apply Z.ltb_lt in E. unfold time_min in *. lia.
Qed.
End Objects.

Module WireDemo.
Definition me : Hash := replicate 20 5.
Definition key : Hash := replicate 20 9.
Definition announce : @outgoing GnutlsDemo.demo := OutAnnounce key GnutlsDemo.note 100 200 [1; 2; 3].
Definition told : @outgoing GnutlsDemo.demo := OutTell false 12 [1; 2; 3] [8; 9] 1.
End WireDemo.

Lemma requests_parse_witness :
  (exists b, request_packet 10 WireDemo.me 7 (seconds 2000) 300 WireDemo.announce 77 = Ret (b, []) /\
    parse_message 10 (seconds 2000) 300 (b ++ [0]) =
    Ret (expected WireDemo.me 7 (seconds 2000) 300 (seconds 2000) 300 WireDemo.announce 77)) /\
  exists b m, request_packet 10 WireDemo.me 7 (seconds 2000) 300 WireDemo.told 78 = Ret (b, []) /\
    parse_message (G := GnutlsDemo.demo) 10 (seconds 2000) 300 (b ++ [0]) = Ret m /\ pm_expired_values m = [8; 9].
Proof.
  pose proof (requests_parse (G := GnutlsDemo.demo) 10 ltac:(lia) WireDemo.me ltac:(by_compute) 7 ltac:(lia) (seconds 2000) 300 ltac:(by_compute)
    (seconds 2000) 300 ltac:(by_compute)) as H. split.
  - apply (H WireDemo.announce 77 [0]).
    + split; [by_compute|]. split; [split; [exact GnutlsDemo.note_wf|]; split; [exact I|reflexivity]|].
      split; [by_compute|]. intros _. split; [lia|]. split; [reflexivity|]. unfold seconds. lia.
    + lia.
    + by_compute.
  - destruct (H WireDemo.told 78 [0]) as (b & Hb & Hp).
    + split; [lia|]. split; [lia|]. split; by_compute.
    + lia.
    + by_compute.
    + exists b. eexists. split; [exact Hb|]. split; [exact Hp|]. reflexivity.
Defined.
