(* ===== verification/Fragment.v ===== *)
(** * Fragment: values sent in parts

    Large values do not travel in the packet that announces them: the sender cuts
    their bytes in packets of [MTU] bytes ([sendValueParts], Wire), and the receiver
    collects them ([ParsedMessage::append] and [complete], Message).  This file relates
    the two sides, for packets delivered in order and for packets that are lost,
    duplicated or reordered. *)
From S2P Require Import Prelude StdMap InfoHash SockAddr Node MsgPack Value Query Message Wire.

Section Fragment.
Context {G : Gnutls} `{!GnutlsLaws G}.
Context (AF_INET6 : Z) (network : Z) (Hnet : 0 <= network < 2 ^ 32).
Context (sys_now steady_now : Z) (tid : Tid) (Htid : 0 <= tid < 2 ^ 32).

Abbreviation parse := (parse_message AF_INET6 sys_now steady_now).

(** ** One packet *)

Definition part_obj (i : Z) (start : nat) (data : bytes) : obj :=
  OMap (net_obj network ++
        [kv KEY_Y (OStr KEY_V); kv KEY_TID (OPos tid);
         kv KEY_V (OMap [(OPos i, OMap [kv (str "o") (OPos (Z.of_nat start)); kv (str "d") (OBin data)])])]).

(** The message it is read as. *)
Definition part_msg (i : Z) (start : nat) (data : bytes) : ParsedMessage :=
  pm_set_value_parts [(i, (Z.of_nat start, data))]
    (pm_set_type MT_ValueData (pm_set_tid tid (pm_set_network network Message_make))).

Lemma part_packet_obj i start data :
  0 <= i < 2 ^ 32 -> part_bytes network tid i start data = pack (part_obj i start data).
Proof using Hnet Htid.
  intros Hi. unfold part_obj, part_bytes. rewrite pack_map_obj, length_app, pack_kvs_app, !pack_kvs_cons, pack_kvs_nil.
  rewrite <- pack_net_obj by done. rewrite Nat2Z.inj_add, net_obj_length, !pack_uint32 by done.
  rewrite !pack_map_obj. unfold pack_kvs. cbn [map concat length pack_kv]. rewrite pack_map_obj. unfold pack_kvs. cbn [map concat length]. rewrite !pack_kv_eq.
  rewrite (Z.add_comm _ (Z.of_nat 3)). rewrite ?app_nil_r, <- ?app_assoc. reflexivity.
Qed.

Lemma part_obj_wf i start data :
  0 <= i < 2 ^ 32 -> Z.of_nat start < 2 ^ 32 -> wf_blob data -> wf_obj 0xffffffff (part_obj i start data).
Proof using Hnet Htid.
  intros Hi Hs Hd. unfold part_obj. apply wf_map.
  assert (Z.of_nat (length (net_obj network)) <= 1) as Hn by (unfold net_obj; case_match; cbn; lia).
  assert (forall d n, 0 <= n < 2 ^ 32 -> wf_obj d (OPos n)) as Hp by (intros; cbn [wf_obj]; lia).
  split_and!; [done|rewrite length_app; cbn [length]; lia|]. apply Forall_app. split.
  { unfold net_obj. case_match; [constructor|]. apply wf_args_1; auto. }
  repeat (apply wf_args_kv; [done| |]); [by apply wf_lit|auto| |constructor].
  assert (forall d, 0 < d -> wf_obj d (OMap [kv (str "o") (OPos (Z.of_nat start)); kv (str "d") (OBin data)])) as Ho.
  { intros d Hd0. apply wf_map. split_and!; [done|done|]. apply wf_args_kv; [done|apply Hp; lia|]. by apply wf_args_1. }
  apply wf_map. split_and!; [done|done|]. apply Forall_cons. split; [|constructor]. split; [by apply Hp|by apply Ho].
Qed.

(** Every packet of [sendValueParts] is read as the part it carries. *)
Lemma part_parses i start data rest :
  0 <= i < 2 ^ 32 -> Z.of_nat start < 2 ^ 32 -> wf_blob data -> wf_bytes rest ->
  parse (part_bytes network tid i start data ++ rest) = Ret (part_msg i start data).
Proof using Hnet Htid.
  intros Hi Hs Hd Hr. unfold parse_message. rewrite part_packet_obj by done.
  rewrite unpack_packed by (done || by apply part_obj_wf). cbn [mbind outcome_bind fst].
  unfold pm_unpack, part_obj.
  set (m0 := pm_set_tid tid (pm_set_network network Message_make)).
  assert (forall p, top_loop (net_obj network ++ [kv KEY_Y (OStr KEY_V); kv KEY_TID (OPos tid); kv KEY_V p])
    no_parsed Message_make = Ret (mkParsed (Some (OStr KEY_V)) None None None (Some p) None [], m0)) as ->.
  { intros p. unfold net_obj, m0. destruct (Z.eqb_spec network 0) as [-> |];
      repeat (cbn [top_loop kv app]; autorewrite with vb_keys; cbn [mbind outcome_bind unpackTid];
        rewrite ?(as_uint_ok 32) by done); reflexivity. }
  cbn [mbind outcome_bind message_type p_e p_r p_v p_u parts_loop]. lookup_keys. cbn [mbind outcome_bind].
  rewrite (as_uint_ok 32), (as_uint_ok 64) by lia. cbn [mbind outcome_bind unpackBlob parts_loop pm_value_parts pm_set_type].
  unfold m0, part_msg. rewrite wrap_small by lia. reflexivity.
Qed.

(** ** The packets of a value *)

Definition chunk (v : bytes) (start : nat) : bytes := take MTU (drop start v).

Lemma chunk_eq v start :
  (start <= length v)%nat -> take (Nat.min (start + MTU) (length v) - start) (drop start v) = chunk v start.
Proof.
  intros Hs. unfold chunk. destruct (Nat.le_gt_cases (start + MTU) (length v)).
  - f_equal. lia.
  - rewrite !take_ge; [done| |]; rewrite length_drop; lia.
Qed.

Lemma value_parts_elem i v fuel start p :
  (start <= length v)%nat -> p ∈ value_parts network tid i v fuel start ->
  exists s, (s <= length v)%nat /\ p = part_bytes network tid i s (chunk v s).
Proof.
  revert start. induction fuel as [|fuel IH]; intros start Hs Hp; [by apply elem_of_nil in Hp|].
  cbn [value_parts] in Hp. rewrite chunk_eq in Hp by done. apply elem_of_cons in Hp as [-> |Hp]; [eauto|].
  case_match; [by apply elem_of_nil in Hp|]. eapply IH; [|exact Hp]. lia.
Qed.

Lemma sendValueParts_elem bs i p :
  0 <= i -> i + Z.of_nat (length bs) < 2 ^ 32 -> p ∈ sendValueParts_from network tid i bs ->
  exists k b s, bs !! k = Some b /\ (s <= length b)%nat /\ p = part_bytes network tid (i + Z.of_nat k) s (chunk b s).
Proof.
  revert i. induction bs as [|b bs IH]; intros i Hi Hl Hp; [by apply elem_of_nil in Hp|].
  cbn [sendValueParts_from length] in *. apply elem_of_app in Hp as [Hp|Hp].
  - apply value_parts_elem in Hp as (s & Hs & ->); [|lia]. exists 0%nat, b, s. by rewrite Z.add_0_r.
  - rewrite wrap_small in Hp by lia. apply IH in Hp as (k & b' & s & Hk & Hs & ->); [|lia..].
    exists (S k), b', s. split_and!; [done|done|]. f_equal. lia.
Qed.

(** ** The receiver's buffers *)

Definition oversize (b : bytes) : bool := MAX_VALUE_SIZE + 32 <? len b.

(** What the receiver has of each value; oversize values are not expected. *)
Fixpoint buffers (i : Z) (bs gots : list bytes) : list (Z * (Z * bytes)) :=
  match bs, gots with
  | b :: bs', g :: gots' => (if oversize b then [] else [(i, (len b, g))]) ++ buffers (i + 1) bs' gots'
  | _, _ => []
  end.

Lemma announced_buffers i bs : announced_sizes i bs = buffers i bs (map (fun _ => []) bs).
Proof. revert i. induction bs as [|b bs IH]; intros i; [done|]. cbn. by rewrite IH. Qed.

Lemma buffers_above i j bs gots : j < i -> om_find Z.ltb j (buffers i bs gots) = None.
Proof.
  revert i gots. induction bs as [|b bs IH]; intros i [|g gots] Hj; try done.
  cbn [buffers]. destruct (oversize b); cbn [app om_find]; [apply IH; lia|].
  by rewrite (proj2 (Z.ltb_lt j i)).
Qed.

Lemma buffers_find i bs gots k :
  length gots = length bs ->
  om_find Z.ltb (i + Z.of_nat k) (buffers i bs gots) =
  match bs !! k, gots !! k with
  | Some b, Some g => if oversize b then None else Some (len b, g)
  | _, _ => None
  end.
Proof.
  revert i gots k. induction bs as [|b bs IH]; intros i [|g gots] k Hl; try done. cbn [buffers length] in *.
  destruct k as [|k].
  - rewrite Z.add_0_r. cbn [lookup list_lookup]. destruct (oversize b); cbn [app om_find].
    + apply buffers_above. lia.
    + by rewrite Z.ltb_irrefl.
  - cbn [lookup list_lookup]. change (list_lookup k bs) with (bs !! k). change (list_lookup k gots) with (gots !! k).
    rewrite <- (IH (i + 1)) by lia. replace (i + Z.of_nat (S k)) with (i + 1 + Z.of_nat k) by lia.
    destruct (oversize b); [done|]. cbn [app om_find]. rewrite (proj2 (Z.ltb_ge _ i)), (proj2 (Z.ltb_lt i _)) by lia. done.
Qed.

Lemma buffers_set i bs gots k b x :
  length gots = length bs -> bs !! k = Some b -> oversize b = false ->
  om_set Z.ltb (i + Z.of_nat k) (len b, x) (buffers i bs gots) = buffers i bs (<[k := x]> gots).
Proof.
  revert i gots k. induction bs as [|b0 bs IH]; intros i [|g gots] k Hl Hk Ho; try done. cbn [buffers length] in *.
  destruct k as [|k].
  - injection Hk as ->. rewrite Ho, Z.add_0_r. cbn [app om_set]. by rewrite Z.ltb_irrefl.
  - cbn [insert list_insert buffers]. cbn [lookup list_lookup] in Hk. change (list_insert k x gots) with (<[k:=x]> gots).
    rewrite <- (IH (i + 1)) by (lia || done). replace (i + Z.of_nat (S k)) with (i + 1 + Z.of_nat k) by lia.
    destruct (oversize b0); [done|]. cbn [app om_set]. by rewrite (proj2 (Z.ltb_ge _ i)), (proj2 (Z.ltb_lt i _)) by lia.
Qed.

(** One part on the buffers. *)
Definition add_chunk (bs : list bytes) (k s : nat) (gots : list bytes) : list bytes :=
  match bs !! k, gots !! k with
  | Some b, Some g =>
      if oversize b || (len b <=? len g) || negb (Z.of_nat s =? len g) then gots else <[k := g ++ chunk b s]> gots
  | _, _ => gots
  end.

Lemma append_chunk bs gots k s b m :
  length gots = length bs -> bs !! k = Some b -> pm_value_parts m = buffers 0 bs gots ->
  (append (part_msg (Z.of_nat k) s (chunk b s)) m).1 = pm_set_value_parts (buffers 0 bs (add_chunk bs k s gots)) m.
Proof.
  intros Hl Hk Hm. unfold append, part_msg. cbn [pm_value_parts pm_set_value_parts append_loop].
  rewrite Hm. pose proof (buffers_find 0 bs gots k Hl) as Hf. rewrite Z.add_0_l in Hf. rewrite Hf. unfold add_chunk.
  rewrite Hk. destruct (lookup_lt_is_Some_2 gots k) as [g Hg]; [rewrite Hl; by eapply lookup_lt_Some|]. rewrite Hg.
  destruct (oversize b) eqn:Ho; [done|]. cbn [orb]. destruct (len b <=? len g); [done|]. cbn [orb].
  destruct (negb (Z.of_nat s =? len g)); [done|]. cbn [fst].
  pose proof (buffers_set 0 bs gots k b (g ++ chunk b s) Hl Hk Ho) as Hs. rewrite Z.add_0_l in Hs. by rewrite Hs.
Qed.

(** Buffers only ever hold beginnings of the values. *)
Definition prefixes (gots bs : list bytes) : Prop := Forall2 (fun g b => exists n, g = take n b) gots bs.

Lemma add_chunk_prefixes bs k s gots : prefixes gots bs -> prefixes (add_chunk bs k s gots) bs.
Proof.
  intros Hp. unfold add_chunk. destruct (bs !! k) as [b|] eqn:Hk; [|done]. destruct (gots !! k) as [g|] eqn:Hg; [|done].
  destruct (_ || _) eqn:E; [done|]. apply orb_false_iff in E as [E Es]. apply orb_false_iff in E as [_ Eg].
  apply negb_false_iff, Z.eqb_eq in Es. apply Z.leb_gt in Eg. unfold len in *.
  destruct (Forall2_lookup_lr _ _ _ _ _ _ Hp Hg Hk) as [n ->].
  rewrite <- (list_insert_id bs k b Hk). apply Forall2_insert; [done|]. exists (s + MTU)%nat. unfold chunk.
  rewrite length_take in *. assert (s = n) as -> by lia. rewrite take_take_drop. f_equal. 
Qed.

(** ** Delivery *)

(** The receiver appends one message after the other. *)
Definition deliver (m : ParsedMessage) (blocks : list ParsedMessage) : ParsedMessage :=
  foldl (fun m b => (append b m).1) m blocks.

Lemma buffers_oversize i bs gots k b x :
  bs !! k = Some b -> oversize b = true -> buffers i bs (<[k := x]> gots) = buffers i bs gots.
Proof.
  revert i gots k. induction bs as [|b0 bs IH]; intros i [|g gots] k Hk Ho; try done. destruct k as [|k].
  - injection Hk as ->. cbn. by rewrite Ho.
  - cbn [insert list_insert buffers]. change (list_insert k x gots) with (<[k:=x]> gots). by rewrite IH.
Qed.

Lemma set_parts_twice x y m : pm_set_value_parts x (pm_set_value_parts y m) = pm_set_value_parts x m.
Proof. done. Qed.
Lemma set_parts_same m : pm_set_value_parts (pm_value_parts m) m = m.
Proof. by destruct m. Qed.

Lemma chunk_wf b s : wf_blob b -> wf_blob (chunk b s).
Proof.
  intros [Hl Hb]. unfold wf_blob, chunk, len in *. rewrite length_take, length_drop. split; [lia|].
  by apply Forall_take, Forall_drop.
Qed.

Lemma take_chunk b s : take s b ++ chunk b s = take (s + MTU) b.
Proof. apply take_take_drop. Qed.

(** All the packets of one value, from an offset on. *)
Lemma value_in_order bs k b fuel :
  Forall wf_blob bs -> Z.of_nat (length bs) < 2 ^ 32 -> bs !! k = Some b ->
  forall start gots m,
  (start <= length b)%nat -> (length b - start < fuel)%nat -> length gots = length bs ->
  gots !! k = Some (take start b) -> (start = 0 \/ start < length b)%nat -> pm_value_parts m = buffers 0 bs gots ->
  exists blocks, Forall2 (fun p blk => parse p = Ret blk) (value_parts network tid (Z.of_nat k) b fuel start) blocks /\
    deliver m blocks = pm_set_value_parts (buffers 0 bs (<[k := b]> gots)) m.
Proof using Hnet Htid.
  intros Hbs Hlen Hk. pose proof (lookup_lt_Some _ _ _ Hk) as Hkl.
  assert (wf_blob b) as Hb by (by eapply Forall_lookup_1).
  assert (0 < MTU)%nat as HM by (unfold MTU; lia). assert (Z.of_nat (length b) < 2 ^ 32) as Hbl by apply Hb.
  induction fuel as [|fuel IH]; intros start gots m Hs Hf Hl Hg Hst Hm; [lia|].
  cbn [value_parts]. rewrite chunk_eq by done.
  assert (parse (part_bytes network tid (Z.of_nat k) start (chunk b start)) =
          Ret (part_msg (Z.of_nat k) start (chunk b start))) as Hp.
  { rewrite <- (app_nil_r (part_bytes _ _ _ _ _)). apply part_parses; [lia|lia|by apply chunk_wf|constructor]. }
  pose proof (append_chunk bs gots k start b m Hl Hk Hm) as Ha.
  assert (buffers 0 bs (add_chunk bs k start gots) = buffers 0 bs (<[k := take (start + MTU) b]> gots)) as Hadd.
  { unfold add_chunk. rewrite Hk, Hg. destruct (oversize b) eqn:Ho; [by erewrite buffers_oversize|]. cbn [orb].
    unfold len. rewrite length_take_le by done. rewrite Z.eqb_refl. rewrite orb_false_r.
    destruct (Z.leb_spec (Z.of_nat (length b)) (Z.of_nat start)); [|by rewrite take_chunk].
    f_equal. symmetry. apply list_insert_id. rewrite Hg. rewrite !take_ge by lia. done. }
  rewrite Hadd in Ha. case_match eqn:E.
  - apply Nat.eqb_eq in E. exists [part_msg (Z.of_nat k) start (chunk b start)]. split; [by repeat constructor|].
    cbn [deliver foldl]. rewrite Ha. rewrite take_ge by lia. done.
  - apply Nat.eqb_neq in E. assert (Nat.min (start + MTU) (length b) = start + MTU)%nat as Hmin by lia.
    destruct (IH (Nat.min (start + MTU) (length b)) (<[k := take (start + MTU) b]> gots)
      (pm_set_value_parts (buffers 0 bs (<[k := take (start + MTU) b]> gots)) m)) as (blocks & Hpb & Hd).
    + lia.
    + lia.
    + by rewrite length_insert.
    + rewrite Hmin. apply list_lookup_insert_eq. lia.
    + lia.
    + done.
    + exists (part_msg (Z.of_nat k) start (chunk b start) :: blocks). split; [by constructor|].
      cbn [deliver foldl]. rewrite Ha. unfold deliver in Hd. rewrite Hd. by rewrite set_parts_twice, list_insert_insert_eq.
Qed.

(** All the packets, in order: every buffer is filled. *)
Lemma parts_in_order bs m :
  Forall wf_blob bs -> Z.of_nat (length bs) < 2 ^ 32 -> pm_value_parts m = announced_sizes 0 bs ->
  exists blocks, Forall2 (fun p blk => parse p = Ret blk) (sendValueParts network tid bs) blocks /\
    deliver m blocks = pm_set_value_parts (buffers 0 bs bs) m.
Proof using Hnet Htid.
  intros Hbs Hlen Hm. unfold sendValueParts. rewrite announced_buffers in Hm.
  enough (forall suf pre m, bs = pre ++ suf -> pm_value_parts m = buffers 0 bs (pre ++ map (fun _ => []) suf) ->
    exists blocks, Forall2 (fun p blk => parse p = Ret blk) (sendValueParts_from network tid (Z.of_nat (length pre)) suf) blocks /\
      deliver m blocks = pm_set_value_parts (buffers 0 bs bs) m) as H.
  { destruct (H bs [] m) as (blocks & ? & ?); eauto. }
  clear m Hm. induction suf as [|b suf IH]; intros pre m Hpre Hm.
  { exists []. split; [constructor|]. cbn [deliver foldl]. rewrite app_nil_r in Hpre. cbn [map] in Hm.
    rewrite app_nil_r in Hm. subst pre. rewrite <- Hm. symmetry. apply set_parts_same. }
  cbn [sendValueParts_from]. assert (bs !! length pre = Some b) as Hk by (by rewrite Hpre, list_lookup_middle).
  destruct (value_in_order bs (length pre) b (S (length b)) Hbs Hlen Hk 0
    (pre ++ map (fun _ => []) (b :: suf)) m) as (bl1 & Hp1 & Hd1); [lia|lia| | |lia|done|].
  { rewrite Hpre, !length_app, length_map. done. }
  { cbn [map]. by rewrite list_lookup_middle. }
  assert (length bs = length pre + S (length suf))%nat as Hlb by (by rewrite Hpre, length_app).
  cbn [map] in Hd1. rewrite insert_app_r_alt, Nat.sub_diag in Hd1 by done. cbn [insert list_insert] in Hd1.
  rewrite wrap_small by lia. replace (Z.of_nat (length pre) + 1) with (Z.of_nat (length (pre ++ [b]))) by (rewrite length_app; cbn [length]; lia).
  destruct (IH (pre ++ [b]) (pm_set_value_parts (buffers 0 bs (pre ++ b :: map (fun _ => []) suf)) m)) as (bl2 & Hp2 & Hd2).
  - by rewrite <- app_assoc.
  - by rewrite <- app_assoc.
  - exists (bl1 ++ bl2). split; [by apply Forall2_app|]. unfold deliver in *. by rewrite foldl_app, Hd1, Hd2.
Qed.

(** ** Completion *)

(** The values the reader gets, one after the other; the first that is refused ends. *)
Fixpoint all_transmitted (vs : list Value) : outcome (list Value) :=
  match vs with
  | [] => Ret []
  | v :: vs' => x ← transmitted v; r ← all_transmitted vs'; Ret (x :: r)
  end.

(** The values that are not oversize. *)
Definition kept (vs : list Value) : list Value := List.filter (fun v => negb (oversize (pack (vobj v)))) vs.

Lemma svals_wf vs : Forall wf_sent vs -> Forall wf_blob (svals vs).
Proof using GnutlsLaws0.
  intros Hvs. apply Forall_map. eapply Forall_impl; [exact Hvs|]. intros v Hv. split; [apply Hv|].
  eapply pack_wf, (vobj_wf 3); done.
Qed.

Lemma whole_complete i bs : existsb (fun e => len e.2.2 <? e.2.1) (buffers i bs bs) = false.
Proof.
  revert i. induction bs as [|b bs IH]; intros i; [done|]. cbn [buffers].
  destruct (oversize b); cbn [app existsb]; [done|]. by rewrite IH, Z.ltb_irrefl.
Qed.

Lemma complete_whole i bs gots :
  prefixes gots bs -> existsb (fun e => len e.2.2 <? e.2.1) (buffers i bs gots) = false ->
  buffers i bs gots = buffers i bs bs.
Proof.
  intros Hp. revert i. induction Hp as [|g b gots bs [n ->] Hp IH]; intros i Hc; [done|].
  cbn [buffers] in *. rewrite existsb_app in Hc. apply orb_false_iff in Hc as [Hb Hc]. rewrite (IH _ Hc).
  destruct (oversize b); [done|]. cbn [existsb fst snd] in Hb. apply orb_false_iff in Hb as [Hb _].
  apply Z.ltb_ge in Hb. unfold len in Hb. rewrite length_take in Hb. by rewrite take_ge by lia.
Qed.

Lemma value_of_vobj v : wf_sent v -> value_of_bytes (pack (vobj v)) = transmitted v.
Proof using GnutlsLaws0.
  intros Hv. unfold value_of_bytes. rewrite <- (app_nil_r (pack _)).
  rewrite unpack_packed; [|by apply vobj_wf|constructor]. cbn. destruct Hv as (? & ? & _).
  apply unpack_value_obj; [done|by apply owner_exported].
Qed.

Lemma read_parts_whole i vs :
  Forall wf_sent vs -> read_parts (buffers i (svals vs) (svals vs)) = all_transmitted (kept vs).
Proof using GnutlsLaws0.
  intros Hvs. revert i. induction Hvs as [|v vs Hv Hvs IH]; intros i; [done|].
  cbn [svals map buffers kept List.filter]. fold (svals vs). destruct (oversize (pack (vobj v))); cbn [negb app]; [apply IH|].
  cbn [read_parts all_transmitted]. fold (kept vs). rewrite IH.
  by rewrite value_of_vobj.
Qed.

Lemma complete_buffers vs gots m :
  Forall wf_sent vs -> prefixes gots (svals vs) -> pm_value_parts m = buffers 0 (svals vs) gots ->
  complete m = Ret (m, false) \/
  buffers 0 (svals vs) gots = buffers 0 (svals vs) (svals vs) /\
  complete m = (ws ← all_transmitted (kept vs); Ret (pm_set_values (pm_values m ++ ws) m, true)).
Proof using GnutlsLaws0.
  intros Hvs Hp Hm. unfold complete. rewrite Hm. destruct (existsb _ _) eqn:E; [by left|right].
  rewrite (complete_whole _ _ _ Hp E), read_parts_whole by done. done.
Qed.

(** A message of the sender: some packet of [sendValueParts], parsed. *)
Definition sent_block (bs : list bytes) (blk : ParsedMessage) : Prop :=
  exists p, p ∈ sendValueParts network tid bs /\ parse p = Ret blk.

Lemma deliver_any bs m blocks :
  Forall wf_blob bs -> Z.of_nat (length bs) < 2 ^ 32 -> Forall (sent_block bs) blocks ->
  forall gots, prefixes gots bs -> pm_value_parts m = buffers 0 bs gots ->
  exists gots', prefixes gots' bs /\ pm_value_parts (deliver m blocks) = buffers 0 bs gots'.
Proof using Hnet Htid.
  intros Hbs Hlen Hbl. revert m. induction Hbl as [|blk blocks (p & Hp & Hparse) Hbl IH]; intros m gots Hg Hm; [eauto|].
  apply sendValueParts_elem in Hp as (k & b & s & Hk & Hs & ->); [|lia|lia].
  assert (wf_blob b) as Hb by (by eapply Forall_lookup_1). pose proof (lookup_lt_Some _ _ _ Hk) as Hkl.
  assert (blk = part_msg (Z.of_nat k) s (chunk b s)) as ->.
  { rewrite Z.add_0_l, <- (app_nil_r (part_bytes _ _ _ _ _)) in Hparse. rewrite part_parses in Hparse.
    - by injection Hparse.
    - lia.
    - destruct Hb as [Hb _]. unfold len in Hb. lia.
    - by apply chunk_wf.
    - constructor. }
  cbn [deliver foldl]. apply (IH _ (add_chunk bs k s gots)); [by apply add_chunk_prefixes|].
  rewrite append_chunk with (b := b) (bs := bs) (gots := gots); [done| |done|done]. by eapply Forall2_length.
Qed.

(** C14. Reassembly is correct whatever the network does: packets of the sender may be
    lost, repeated or arrive in any order, and each buffer of the receiver holds a
    beginning of the value it is for; [complete] either still waits, or yields exactly
    the values that were sent (those of more than 64 kB and 32 bytes are left out). *)
Theorem parts_never_corrupt vs m blocks :
  Forall wf_sent vs -> Z.of_nat (length vs) < 2 ^ 32 -> pm_value_parts m = announced_sizes 0 (svals vs) ->
  Forall (sent_block (svals vs)) blocks ->
  let m' := deliver m blocks in
  (exists gots, prefixes gots (svals vs) /\ pm_value_parts m' = buffers 0 (svals vs) gots) /\
  (complete m' = Ret (m', false) \/
   complete m' = (ws ← all_transmitted (kept vs); Ret (pm_set_values (pm_values m' ++ ws) m', true))).
Proof using Hnet Htid GnutlsLaws0.
  intros Hvs Hlen Hm Hbl m'. rewrite announced_buffers in Hm.
  destruct (deliver_any (svals vs) m blocks) with (gots := map (fun _ : bytes => [] : bytes) (svals vs))
    as (gots & Hg & Hm'); [by apply svals_wf|by unfold svals; rewrite length_map|done| |done|].
  { clear. induction (svals vs); constructor; [by exists 0%nat|done]. }
  split; [eauto|]. destruct (complete_buffers vs gots m' Hvs Hg Hm') as [|[_ ?]]; auto.
Qed.

(** Every packet of a value sent in parts can be read, and delivered once and in
    order the packets complete the message: the receiver gets the values back. *)
Theorem parts_complete vs m :
  Forall wf_sent vs -> Z.of_nat (length vs) < 2 ^ 32 -> pm_value_parts m = announced_sizes 0 (svals vs) ->
  exists blocks, Forall2 (fun p blk => parse p = Ret blk) (sendValueParts network tid (svals vs)) blocks /\
    complete (deliver m blocks) =
    (ws ← all_transmitted (kept vs);
     Ret (pm_set_values (pm_values m ++ ws) (deliver m blocks), true)).
Proof using Hnet Htid GnutlsLaws0.
  intros Hvs Hlen Hm. destruct (parts_in_order (svals vs) m) as (blocks & Hb & Hd);
    [by apply svals_wf|by unfold svals; rewrite length_map|done|].
  exists blocks. split; [done|]. rewrite Hd. unfold complete. cbn [pm_value_parts pm_set_value_parts].
  rewrite whole_complete, read_parts_whole by done. done.
Qed.
End Fragment.

Module FragmentDemo.
#[local] Existing Instance GnutlsDemo.demo.
Definition big : Value := mkValue 42 None (Hash_zero HASH_LEN) 3 (replicate 2000 7) [] 0 [] [] 0.

Lemma big_sent : wf_sent big.
Proof. split; [unfold wf_value; simpl; split_and!; by_compute|]. split; [exact I|]. vm_compute. reflexivity. Qed.

Definition header : ParsedMessage := pm_set_value_parts (announced_sizes 0 (svals [big])) Message_make.

(** The second packet, twice. *)
Definition late : ParsedMessage := part_msg 7 5 0 1280 (chunk (pack (vobj big)) 1280).

Lemma late_sent : sent_block 10 7 0 0 5 (svals [big]) late.
Proof.
  exists (part_bytes 7 5 0 1280 (chunk (pack (vobj big)) 1280)). split.
  - apply list_elem_of_lookup. exists 1%nat. vm_compute. reflexivity.
  - vm_compute. reflexivity.
Qed.
End FragmentDemo.

Lemma parts_never_corrupt_witness :
  complete (deliver FragmentDemo.header [FragmentDemo.late; FragmentDemo.late]) =
    Ret (deliver FragmentDemo.header [FragmentDemo.late; FragmentDemo.late], false) /\
  exists gots, prefixes gots (svals [FragmentDemo.big]).
Proof.
  split; [vm_compute; reflexivity|].
  destruct (parts_never_corrupt 10 7 ltac:(lia) 0 0 5 ltac:(lia) [FragmentDemo.big] FragmentDemo.header
    [FragmentDemo.late; FragmentDemo.late]) as [(gots & Hg & _) _].
  - constructor; [exact FragmentDemo.big_sent|constructor].
  - reflexivity.
  - reflexivity.
  - constructor; [exact FragmentDemo.late_sent|]. constructor; [exact FragmentDemo.late_sent|constructor].
  - exists gots. exact Hg.
Defined.

Lemma parts_complete_witness :
  exists blocks, Forall2 (fun p blk => parse_message 10 0 0 p = Ret blk) (sendValueParts 7 5 (svals [FragmentDemo.big])) blocks /\
    complete (deliver FragmentDemo.header blocks) =
    Ret (pm_set_values [FragmentDemo.big] (deliver FragmentDemo.header blocks), true).
Proof.
  apply (parts_complete 10 7 ltac:(lia) 0 0 5 ltac:(lia) [FragmentDemo.big] FragmentDemo.header).
  - constructor; [exact FragmentDemo.big_sent|constructor].
  - reflexivity.
  - reflexivity.
Defined.
