(* ===== verification/Reply.v ===== *)
(** * Reply: the answers of the network engine and how they are read

    Relates the replies packed in src/opendht-2.1.4/src/network_engine.cpp (Wire) to
    the parser of src/opendht-2.1.4/src/parsed_message.h (Message): confirmations,
    nodes and values, field selections and errors. *)
From S2P Require Import Prelude StdMap InfoHash SockAddr Node MsgPack Value Query Message Wire.

Section Fields.
Context {G : Gnutls} `{!GnutlsLaws G}.

(** ** Selected fields *)

Definition field_obj (v : Value) (f : Field) : obj :=
  match f with
  | F_Id => OPos (v_id v)
  | F_ValueType => OPos (v_type v)
  | F_OwnerPk => OBin (match owner_bytes v with Some b => b | None => Hash_zero HASH_LEN end)
  | F_SeqNum => OPos (v_seq v)
  | F_UserType => OStr (v_user_type v)
  | _ => ONil
  end.

Definition fields_obj (fs : list Field) (st : list Value) : obj :=
  OMap [kv (str "f") (OArr (map (fun f => OPos (field_Z f)) fs));
        kv (str "v") (OArr (concat (map (fun v => map (field_obj v) fs) st)))].

(** The fields that can be selected, and the values whose fields can be sent: the key
    of an owner can be exported, and is longer than a hash. *)
Definition selectable (f : Field) : Prop := f <> F_None /\ f <> F_COUNT.
Definition wf_fielded (v : Value) : Prop :=
  wf_sent v /\ v_owner v <> Some None /\ forall b, owner_bytes v = Some b -> len b <> 20.

Lemma pack_field_obj v f :
  wf_fielded v -> selectable f -> pack_field v (field_Z f) = Ret (pack (field_obj v f)).
Proof.
  intros ((_ & He & _) & Hn & _) [H0 H6]. destruct f; try done. unfold pack_field, field_obj, owner_bytes, exportable in *.
  cbn [field_Z field_of_Z].
  destruct (v_owner v) as [[g|]|]; [|done|done]. destruct He as [b Hb]. rewrite Hb.
  unfold pk_msgpack_pack, pk_pack. by rewrite Hb.
Qed.

Lemma pack_all_obj {A} (f : A -> outcome bytes) (g : A -> list obj) l :
  Forall (fun a => f a = Ret (concat (map pack (g a)))) l ->
  pack_all f l = Ret (concat (map pack (concat (map g l)))).
Proof.
  induction 1 as [|a l Ha Hl IH]; [done|]. cbn [pack_all map concat]. rewrite Ha, IH. cbn [mbind outcome_bind].
  by rewrite map_app, concat_app.
Qed.

Lemma fields_length (fs : list Field) (st : list Value) :
  length (concat (map (fun v => map (field_obj v) fs) st)) = (length st * length fs)%nat.
Proof. induction st as [|v st IH]; [done|]. cbn [map concat length]. rewrite length_app, length_map, IH. lia. Qed.

Lemma pack_fields_obj fs st :
  Forall selectable fs -> Forall wf_fielded st ->
  pack_fields (map field_Z fs) st = Ret (pack_kvs [kv KEY_REQ_FIELDS (fields_obj fs st)]).
Proof.
  intros Hfs Hst. unfold pack_fields. rewrite (pack_all_obj _ (fun v => map (field_obj v) fs)).
  - cbn [mbind outcome_bind]. f_equal. rewrite pack_kvs_cons, pack_kvs_nil, app_nil_r. f_equal.
    unfold fields_obj. rewrite pack_map_obj, !pack_kvs_cons, pack_kvs_nil, app_nil_r. cbn [pack length].
    rewrite fields_length, !length_map, !map_map, <- !app_assoc. do 4 f_equal.
    f_equal. apply map_ext. intros f. apply field_pack.
  - eapply Forall_impl; [exact Hst|]. intros v Hv. cbn beta.
    clear Hst. induction Hfs as [|f fs Hf Hfs IH]; [done|]. cbn [pack_all map concat].
    rewrite pack_field_obj, IH by done. done.
Qed.

(** Whether a reader gets the selected fields of a value: the owner is packed as a key
    and read as a hash. *)
Definition readable_fields (fs : list Field) (v : Value) : bool :=
  match owner_bytes v with
  | Some _ => negb (existsb (fun f => bool_decide (f = F_OwnerPk)) fs)
  | None => true
  end.

Lemma read_field_obj v f :
  wf_fielded v -> selectable f ->
  read_field (field_Z f) (field_obj v f) =
  if readable_fields [f] v then Ret (f, field_of_value v f) else type_error.
Proof.
  intros ((Hv & He & _) & Hn & Hb) [H0 H6]. destruct Hv as (Hi & Ht & Hs & _).
  unfold readable_fields, field_of_value. destruct f; try done; cbn [field_Z read_field field_of_Z field_obj];
    rewrite ?as_uint_ok by lia; try by destruct (owner_bytes v).
  unfold owner_bytes, exportable in *. destruct (v_owner v) as [[g|]|]; [|done|done].
  destruct He as [b Eb]. rewrite Eb in *. unfold hash_unpack.
  rewrite (proj2 (Z.eqb_neq (len b) (Z.of_nat HASH_LEN))) by exact (Hb b eq_refl). done.
Qed.

Lemma readable_cons f fs v : readable_fields (f :: fs) v = readable_fields [f] v && readable_fields fs v.
Proof. unfold readable_fields. destruct (owner_bytes v); [|done]. cbn [existsb]. rewrite orb_false_r. by rewrite negb_orb. Qed.

Lemma unpack_fields_obj v fs rest ix :
  wf_fielded v -> Forall selectable fs ->
  unpack_fields (map field_Z fs) (map (field_obj v) fs ++ rest) ix =
  if readable_fields fs v then Ret (foldl (fun ix f => om_set field_lt f (field_of_value v f) ix) ix fs)
  else type_error.
Proof.
  intros Hv Hfs. revert ix. induction Hfs as [|f fs Hf Hfs IH]; intros ix.
  { unfold readable_fields. by destruct (owner_bytes v). }
  cbn [map app unpack_fields foldl]. rewrite read_field_obj by done. rewrite (readable_cons f fs).
  destruct (readable_fields [f] v); [|done]. cbn [mbind outcome_bind andb]. apply IH.
Qed.

Definition read_indexes (fs : list Field) (st : list Value) : list FieldValueIndex :=
  map (fun v => FieldValueIndex_make v fs) (List.filter (readable_fields fs) st).

Lemma fields_loop_obj fs st m :
  fs <> [] -> Forall selectable fs -> Forall wf_fielded st ->
  fields_loop (length st) (map field_Z fs) (concat (map (fun v => map (field_obj v) fs) st)) m =
  Ret (pm_set_fields (pm_fields m ++ read_indexes fs st) m).
Proof.
  intros Hne Hfs Hst. revert m. induction Hst as [|v st Hv Hst IH]; intros m.
  { cbn. rewrite app_nil_r. by destruct m. }
  cbn [length fields_loop map concat]. rewrite unpack_fields_obj by done.
  rewrite length_map, drop_app_length' by by rewrite length_map.
  unfold read_indexes. cbn [List.filter]. destruct (readable_fields fs v); cbn [caught type_error mbind outcome_bind].
  - rewrite IH. cbn [pm_fields pm_set_fields map]. rewrite <- app_assoc. 
    assert (FieldValueIndex_make v fs = foldl (fun ix f => om_set field_lt f (field_of_value v f) ix) [] fs) as ->
      by (unfold FieldValueIndex_make; by destruct fs). done.
  - by rewrite IH.
Qed.

(** A set of fields is packed in order, and read back as the same set. *)
Lemma set_in_order fs (acc : list (Z * unit)) :
  StronglySorted (fun a b => field_lt a b = true) fs -> Forall (fun f => Forall (fun e => e.1 < field_Z f) acc) fs ->
  foldl (fun s n => om_set Z.ltb n tt s) acc (map field_Z fs) = acc ++ map (fun f => (field_Z f, tt)) fs.
Proof.
  intros Hs. revert acc. induction Hs as [|f fs Hs IH Hf]; intros acc Ha; [by rewrite app_nil_r|].
  inversion_clear Ha as [|? ? Ha1 Ha2]. cbn [map foldl]. rewrite zm_set_last by done. rewrite IH; [by rewrite <- app_assoc|].
  apply Forall_forall. intros g Hg. apply Forall_app. split; [by eapply (proj1 (Forall_forall _ _)) in Ha2|].
  constructor; [|constructor]. cbn. eapply (proj1 (Forall_forall _ _)) in Hf; [|exact Hg]. by apply Z.ltb_lt.
Qed.

Lemma as_field_set_obj fs :
  StronglySorted (fun a b => field_lt a b = true) fs ->
  as_field_set (OArr (map (fun f => OPos (field_Z f)) fs)) = Ret (map field_Z fs).
Proof.
  intros Hs. unfold as_field_set, as_vector. rewrite (as_list_map as_int _ field_Z) by (apply Forall_true, field_as_int).
  cbn [mbind outcome_bind]. rewrite set_in_order by (done || apply Forall_true; constructor). cbn [app]. by rewrite map_map.
Qed.

(** The fields of a selection, in order; [getSelection] works on their numbers. *)
Definition selection (s : list Field) : list Field :=
  map fst (foldl (fun m f => om_set field_lt f tt m) [] s).

Lemma om_set_numbers f (l : list (Field * unit)) :
  om_set Z.ltb (field_Z f) tt (map (fun e => (field_Z e.1, e.2)) l) = map (fun e => (field_Z e.1, e.2)) (om_set field_lt f tt l).
Proof.
  induction l as [|[k []] l IH]; [done|]. cbn [map om_set fst snd]. unfold field_lt in *.
  destruct (field_Z f <? field_Z k); [done|]. destruct (field_Z k <? field_Z f); [|done]. cbn [map fst snd]. by rewrite IH.
Qed.

Lemma getSelection_numbers s : getSelection (map field_Z s) = map field_Z (selection s).
Proof.
  unfold getSelection, selection.
  enough (forall l : list (Field * unit), foldl (fun m f => om_set Z.ltb f tt m) (map (fun e => (field_Z e.1, e.2)) l) (map field_Z s) =
    map (fun e => (field_Z e.1, e.2)) (foldl (fun m f => om_set field_lt f tt m) l s)) as H.
  { pose proof (H []) as H0. cbn [map] in H0. rewrite H0. by rewrite !map_map. }
  induction s as [|f s IH]; intros l; [done|]. cbn [map foldl]. by rewrite om_set_numbers, IH.
Qed.

Lemma selection_sorted sel : StronglySorted (fun a b => field_lt a b = true) (selection sel).
Proof.
  unfold selection.
  assert (om_wf field_lt (fun _ => True) (foldl (fun m f => om_set field_lt f tt m) [] sel)) as [Hs _].
  { assert (om_wf field_lt (fun _ => True) ([] : list (Field * unit))) as H by apply om_wf_nil. revert H.
    generalize ([] : list (Field * unit)). induction sel as [|f sel IH]; intros l Hl; [done|]. cbn [foldl]. apply IH.
    by apply (om_set_wf field_lt (fun _ => True)). }
  induction Hs as [|e l Hl IH He]; [constructor|]. cbn. constructor; [done|]. by apply Forall_map.
Qed.

Lemma om_set_elem f g (l : list (Field * unit)) : g ∈ map fst (om_set field_lt f tt l) <-> g = f \/ g ∈ map fst l.
Proof.
  induction l as [|[k []] l IH]; cbn [om_set map fst]; [by rewrite list_elem_of_singleton, elem_of_nil; tauto|].
  destruct (field_lt f k) eqn:E1; cbn [map fst]; [by rewrite !elem_of_cons|].
  destruct (field_lt k f) eqn:E2; cbn [map fst]; rewrite !elem_of_cons; [rewrite IH; tauto|].
  rewrite (field_lt_total f k E1 E2). tauto.
Qed.

Lemma selection_elem sel f : f ∈ selection sel <-> f ∈ sel.
Proof.
  unfold selection. transitivity (f ∈ map fst ([] : list (Field * unit)) \/ f ∈ sel).
  - generalize ([] : list (Field * unit)). induction sel as [|g sel IH]; intros l; cbn [foldl].
    + by rewrite elem_of_nil; tauto.
    + rewrite IH, om_set_elem, elem_of_cons. tauto.
  - cbn. by rewrite elem_of_nil; tauto.
Qed.

Lemma read_fields_obj fs st m :
  fs <> [] -> StronglySorted (fun a b => field_lt a b = true) fs -> Forall selectable fs -> Forall wf_fielded st ->
  read_fields (fields_obj fs st) m = Ret (pm_set_fields (pm_fields m ++ read_indexes fs st) m).
Proof.
  intros Hne Hs Hfs Hst. unfold read_fields, fields_obj. lookup_keys. cbn [mbind outcome_bind].
  rewrite as_field_set_obj by done. cbn [mbind outcome_bind].
  assert (map field_Z fs <> []) as Hn by (by destruct fs). destruct (map field_Z fs) eqn:E; [done|]. rewrite <- E.
  rewrite fields_length, length_map, Nat.div_mul by (by destruct fs). by apply fields_loop_obj.
Qed.

Lemma field_obj_wf d v f : wf_fielded v -> selectable f -> wf_obj d (field_obj v f).
Proof using GnutlsLaws0.
  intros (Hv & _ & _) [H0 H6]. pose proof (vobj_wf 3 v Hv ltac:(lia)) as Hw. destruct Hv as ((Hi & Ht & Hs & _ & _ & _ & Hu & _) & He & _).
  destruct f; try done; cbn [field_obj wf_obj]; try (cbn; lia).
  assert (len (Hash_zero HASH_LEN) < 2 ^ 32 /\ wf_bytes (Hash_zero HASH_LEN)) as Hz by (split; by_compute).
  unfold owner_bytes, exportable in *. destruct (v_owner v) as [[g|]|]; [|exact Hz..].
  destruct He as [b Eb]. rewrite Eb. destruct (export_size g b Eb). split; [lia|done].
Qed.

Lemma fields_obj_wf d fs st :
  Forall selectable fs -> Forall wf_fielded st -> Z.of_nat (length st * length fs) < 2 ^ 32 ->
  Z.of_nat (length fs) < 2 ^ 32 -> 3 <= d -> wf_obj d (fields_obj fs st).
Proof using GnutlsLaws0.
  intros Hfs Hst Hl Hl' Hd. apply wf_map. split_and!; [lia|cbn; lia|].
  apply wf_args_kv; [done| |apply wf_args_1; [done|]]; apply wf_arr; (split; [lia|]); rewrite ?fields_length, ?length_map;
    (split; [done|]).
  - apply Forall_map, Forall_true. intros f. destruct f; cbn; lia.
  - apply Forall_concat, Forall_map. eapply Forall_impl; [exact Hst|]. intros v Hv. apply Forall_map.
    eapply Forall_impl; [exact Hfs|]. intros f Hf. by apply field_obj_wf.
Qed.

Lemma selection_selectable sel : Forall selectable sel -> Forall selectable (selection sel).
Proof. rewrite !Forall_forall. intros H f Hf. apply H. by apply selection_elem. Qed.

Lemma sorted_fields_length fs : StronglySorted (fun a b => field_lt a b = true) fs -> (length fs <= 7)%nat.
Proof.
  intros Hs. change 7%nat with (length [F_None; F_Id; F_ValueType; F_OwnerPk; F_SeqNum; F_UserType; F_COUNT]).
  apply submseteq_length, NoDup_submseteq.
  - induction Hs as [|f fs Hs IH Hf]; constructor; [|done]. intros Hin.
    eapply (proj1 (Forall_forall _ _)) in Hf; [|exact Hin]. unfold field_lt in Hf. by rewrite Z.ltb_irrefl in Hf.
  - intros f _. destruct f; set_solver.
Qed.
End Fields.

Section Reply.
Context {G : Gnutls} `{!GnutlsLaws G}.
Context (AF_INET6 : Z) (HAF6 : 2 < AF_INET6 < 256).
Context (myid : Hash) (Hmyid : wf_hash HASH_LEN myid) (network : Z) (Hnet : 0 <= network < 2 ^ 32).
Context (sys_now steady_now : Z).

Abbreviation parse := (parse_message AF_INET6 sys_now steady_now).

(** ** The envelope *)

Definition reply_obj (args : list (obj * obj)) (tid : Tid) : obj :=
  OMap ([kv KEY_R (OMap args); kv KEY_TID (OPos tid); kv KEY_Y (OStr KEY_R); kv KEY_UA (OStr my_v)] ++ net_obj network).

Lemma reply_bytes args tid :
  0 <= tid < 2 ^ 32 ->
  pack (reply_obj args tid) =
  pack_map (4 + net_count network) ++ pack_string KEY_R ++ pack_map (Z.of_nat (length args)) ++ pack_kvs args ++
  reply_tail network KEY_R tid.
Proof using Hnet.
  intros Ht. unfold reply_obj, reply_tail. rewrite pack_map_obj, length_app, pack_kvs_app, !pack_kvs_cons, pack_kvs_nil.
  rewrite (pack_map_obj args), pack_net_obj, pack_uint32, !pack_OStr by done. cbn [length].
  rewrite Nat2Z.inj_add, net_obj_length. rewrite <- !app_assoc. done.
Qed.

Lemma net_obj_wf d : wf_args d (net_obj network).
Proof using Hnet. unfold net_obj. case_match; [constructor|]. apply wf_args_1; [done|cbn; lia]. Qed.

Lemma reply_obj_wf args tid :
  wf_args (0xffffffff - 1 - 1) args -> Z.of_nat (length args) < 2 ^ 32 -> 0 <= tid < 2 ^ 32 ->
  wf_obj 0xffffffff (reply_obj args tid).
Proof using Hnet.
  intros Ha Hl Ht. unfold reply_obj. apply wf_map.
  assert (Z.of_nat (length (net_obj network)) <= 1) as Hn by (unfold net_obj; case_match; cbn; lia).
  split_and!; [done|rewrite length_app; cbn [length]; lia|]. apply Forall_app. split; [|apply net_obj_wf].
  repeat (apply wf_args_kv; [done| |]); [|cbn; lia|by apply wf_lit|by apply wf_lit|constructor].
  apply wf_map. done.
Qed.

Lemma unpack_reply args tid :
  0 <= tid < 2 ^ 32 ->
  pm_unpack AF_INET6 sys_now steady_now (reply_obj args tid) Message_make =
  read_args AF_INET6 sys_now steady_now args (pm_base network MT_Reply tid).
Proof using Hnet.
  intros Ht. unfold pm_unpack, reply_obj.
  assert (top_loop ([kv KEY_R (OMap args); kv KEY_TID (OPos tid); kv KEY_Y (OStr KEY_R); kv KEY_UA (OStr my_v)] ++
    net_obj network) no_parsed Message_make =
    Ret (mkParsed (Some (OStr KEY_R)) (Some (OMap args)) None None None None [],
         pm_set_network network (pm_set_ua my_v (pm_set_tid tid Message_make)))) as ->; [|done].
  unfold net_obj. destruct (Z.eqb_spec network 0) as [-> |];
    repeat (cbn [top_loop kv app]; autorewrite with vb_keys; cbn [mbind outcome_bind unpackTid as_string];
      rewrite ?(as_uint_ok 32) by done); reflexivity.
Qed.

Lemma parse_reply args tid rest :
  wf_args (0xffffffff - 1 - 1) args -> Z.of_nat (length args) < 2 ^ 32 -> 0 <= tid < 2 ^ 32 -> wf_bytes rest ->
  parse (pack (reply_obj args tid) ++ rest) = read_args AF_INET6 sys_now steady_now args (pm_base network MT_Reply tid).
Proof using Hnet.
  intros. unfold parse_message. rewrite unpack_packed by (done || by apply reply_obj_wf).
  cbn [mbind outcome_bind fst]. by apply unpack_reply.
Qed.

(** ** The reported address *)

Definition wf_addr (addr : SockAddr) : Prop :=
  wf_bytes addr /\ (getFamily addr = AF_INET /\ length addr = 16%nat \/ getFamily addr = AF_INET6 /\ length addr = 28%nat).

(** The address the peer learns: the family and the IP of [addr], without the port. *)
Definition reported (addr : SockAddr) : SockAddr :=
  if getFamily addr =? AF_INET then write_at 4 (take 4 (drop 4 addr)) (setFamily AF_INET6 AF_INET [])
  else write_at 8 (take 16 (drop 8 addr)) (setFamily AF_INET6 AF_INET6 []).

Definition addr_obj (addr : SockAddr) : obj := OBin (addr_part addr).

Lemma addr_part_length addr :
  wf_addr addr -> length (addr_part addr) = if getFamily addr =? AF_INET then 4%nat else 16%nat.
Proof using HAF6.
  intros (_ & [[Hf Hl]|[Hf Hl]]); unfold addr_part, getLength; rewrite Hf, Hl.
  - rewrite Z.eqb_refl, length_take, length_drop, Hl. done.
  - rewrite (proj2 (Z.eqb_neq AF_INET6 AF_INET)) by (unfold AF_INET; lia). by rewrite length_take, length_drop, Hl.
Qed.

Lemma addr_bytes addr : wf_addr addr -> insertAddr addr = pack_kvs [kv KEY_REQ_ADDRESS (addr_obj addr)].
Proof using HAF6.
  intros Ha. pose proof (addr_part_length addr Ha) as Hp. destruct Ha as (_ & [[Hf Hl]|[Hf Hl]]); unfold insertAddr, getLength.
  all: rewrite pack_kvs_cons, pack_kvs_nil, app_nil_r; cbn [addr_obj pack]; unfold pack_binary, len; rewrite Hp, Hl, Hf;
    match goal with |- context [?x =? AF_INET] => destruct (x =? AF_INET) end; done.
Qed.

Lemma addr_obj_wf d addr : wf_addr addr -> wf_obj d (addr_obj addr).
Proof using HAF6.
  intros Ha. pose proof (addr_part_length addr Ha) as Hp. destruct Ha as [Hb _]. split.
  - unfold len. rewrite Hp. by destruct (_ =? AF_INET).
  - unfold addr_part. destruct (_ =? AF_INET); by apply Forall_take, Forall_drop.
Qed.

Lemma read_addr_obj addr : wf_addr addr -> read_addr AF_INET6 (Some (addr_obj addr)) = Ret (reported addr).
Proof using HAF6.
  intros Ha. pose proof (addr_part_length addr Ha) as Hp. destruct Ha as (_ & [[Hf Hl]|[Hf Hl]]).
  all: unfold addr_obj, read_addr, reported; unfold len; rewrite Hp; rewrite Hf; unfold addr_part, getLength; rewrite Hf, Hl.
  - done.
  - by rewrite (proj2 (Z.eqb_neq AF_INET6 AF_INET)) by (unfold AF_INET; lia).
Qed.

(** ** Answers *)

Inductive answer :=
| AnsConfirm
| AnsAnnounced (vid : Z)
| AnsNodesValues (nodes nodes6 : bytes) (st : list Value) (query : Query) (token : bytes).

(** Their packets: [sendPong] and [sendListenConfirmation], [sendValueAnnounced],
    [sendNodesValues]. *)
Definition answer_packet (addr : SockAddr) (a : answer) (tid : Tid) : outcome (bytes * list bytes) :=
  match a with
  | AnsConfirm => Ret (pong_bytes myid network addr tid, [])
  | AnsAnnounced vid => Ret (announced_bytes myid network addr vid tid, [])
  | AnsNodesValues nodes nodes6 st query token => nodes_values_bytes myid network addr nodes nodes6 st (map field_Z (q_select query)) token tid
  end.

Definition content_args (st : list Value) (query : Query) : list (obj * obj) :=
  match st with
  | [] => []
  | _ => match q_select query with
         | [] => [kv KEY_REQ_VALUES (values_obj st)]
         | _ => [kv KEY_REQ_FIELDS (fields_obj (selection (q_select query)) st)]
         end
  end.

Definition answer_args (addr : SockAddr) (a : answer) : list (obj * obj) :=
  match a with
  | AnsConfirm => [kv KEY_REQ_ID (OBin myid); kv KEY_REQ_ADDRESS (addr_obj addr)]
  | AnsAnnounced vid => [kv KEY_REQ_ID (OBin myid); kv KEY_REQ_VALUE_ID (OPos vid); kv KEY_REQ_ADDRESS (addr_obj addr)]
  | AnsNodesValues nodes nodes6 st query token =>
      [kv KEY_REQ_ID (OBin myid); kv KEY_REQ_ADDRESS (addr_obj addr)] ++
      opt_blob KEY_REQ_NODES4 nodes ++ opt_blob KEY_REQ_NODES6 nodes6 ++ opt_blob KEY_REQ_TOKEN token ++
      content_args st query
  end.

(** An answer within the widths of its fields. *)
Definition wf_answer (a : answer) : Prop :=
  match a with
  | AnsConfirm => True
  | AnsAnnounced vid => 0 <= vid < 2 ^ 64
  | AnsNodesValues nodes nodes6 st query token =>
      wf_blob nodes /\ wf_blob nodes6 /\ wf_blob token /\ Z.of_nat (length st) < 2 ^ 28 /\
      (q_select query = [] /\ Forall wf_sent st \/
       q_select query <> [] /\ Forall selectable (q_select query) /\ Forall wf_fielded st)
  end.

(** The values that follow in parts. *)
Definition answer_parts (a : answer) : list bytes :=
  match a with
  | AnsNodesValues _ _ st query _ => match q_select query with [] => sent_parts st | _ => [] end
  | _ => []
  end.

Lemma content_bytes st query :
  (q_select query = [] /\ Forall wf_sent st \/
   q_select query <> [] /\ Forall selectable (q_select query) /\ Forall wf_fielded st) ->
  match st with
  | [] => Ret ([], [])
  | _ => match map field_Z (q_select query) with
         | [] => packValueHeader st
         | _ => b ← pack_fields (getSelection (map field_Z (q_select query))) st; Ret (b, [])
         end
  end = Ret (pack_kvs (content_args st query), match q_select query with [] => sent_parts st | _ => [] end).
Proof.
  intros H. unfold content_args. destruct st as [|v st]; [by destruct (q_select query)|].
  destruct (q_select query) as [|f sel] eqn:E; destruct H as [[? ?]|(? & ? & ?)]; try done.
  - by rewrite header_obj.
  - rewrite getSelection_numbers. by rewrite pack_fields_obj by (done || by apply selection_selectable).
Qed.

Lemma answer_packet_obj addr a tid :
  wf_addr addr -> wf_answer a -> 0 <= tid < 2 ^ 32 ->
  answer_packet addr a tid = Ret (pack (reply_obj (answer_args addr a) tid), answer_parts a).
Proof using HAF6 Hnet.
  intros Ha Hw Ht. rewrite reply_bytes by done.
  destruct a as [|vid|nodes nodes6 st query token]; cbn [answer_packet answer_args answer_parts].
  - unfold pong_bytes. rewrite addr_bytes, !pack_kvs_cons, pack_kvs_nil, !app_nil_r by done. by rewrite <- !app_assoc.
  - unfold announced_bytes. rewrite addr_bytes, !pack_kvs_cons, pack_kvs_nil, !app_nil_r by done. by rewrite <- !app_assoc.
  - destruct Hw as (_ & _ & _ & _ & Hc). unfold nodes_values_bytes. rewrite (content_bytes st query Hc).
    cbn [mbind outcome_bind]. rewrite addr_bytes by done.
    rewrite !pack_kvs_app, !pack_kvs_cons, pack_kvs_nil, !opt_blob_bytes, !length_app, !Nat2Z.inj_add, !opt_blob_length.
    assert (Z.of_nat (length (content_args st query)) = nonempty st) as ->
      by (unfold content_args; destruct st; [done|]; by destruct (q_select query)).
    rewrite ?app_nil_r, <- !app_assoc. unfold packToken, pack_binary. cbn [length].
    f_equal. f_equal. do 3 f_equal. f_equal. lia.
Qed.

(** *** Reading them *)

Definition with_content (st : list Value) (query : Query) (m : ParsedMessage) : ParsedMessage :=
  match st with
  | [] => m
  | _ => match q_select query with
         | [] => with_values st m
         | _ => pm_set_fields (read_indexes (selection (q_select query)) st) m
         end
  end.

(** The message the parser makes of an answer. *)
Definition answer_read (addr : SockAddr) (a : answer) (tid : Tid) : ParsedMessage :=
  let m := pm_set_id myid (pm_base network MT_Reply tid) in
  match a with
  | AnsConfirm => pm_set_addr (reported addr) m
  | AnsAnnounced vid => pm_set_addr (reported addr) (pm_set_value_id vid m)
  | AnsNodesValues nodes nodes6 st query token =>
      with_content st query (pm_set_addr (reported addr)
        (pm_set_token token (pm_set_nodes6_raw nodes6 (pm_set_nodes4_raw nodes m))))
  end.

Lemma content_args_wf d st query :
  Z.of_nat (length st) < 2 ^ 28 ->
  (q_select query = [] /\ Forall wf_sent st \/
   q_select query <> [] /\ Forall selectable (q_select query) /\ Forall wf_fielded st) ->
  4 <= d -> wf_args d (content_args st query).
Proof using GnutlsLaws0.
  intros Hl H Hd. unfold content_args. destruct st as [|v st]; [constructor|].
  destruct (q_select query) as [|f sel] eqn:E; destruct H as [[? ?]|(? & ? & ?)]; try done; apply wf_args_1; try done.
  - apply values_obj_wf; [done|lia|done].
  - pose proof (sorted_fields_length (selection (f :: sel)) (selection_sorted _)).
    apply fields_obj_wf; [by apply selection_selectable|done| |lia|lia]. nia.
Qed.

Lemma answer_args_wf addr a :
  wf_addr addr -> wf_answer a ->
  wf_args (0xffffffff - 1 - 1) (answer_args addr a) /\ Z.of_nat (length (answer_args addr a)) < 2 ^ 32.
Proof using HAF6 Hmyid GnutlsLaws0.
  intros Ha Hw. pose proof (addr_obj_wf (0xffffffff - 1 - 1) addr Ha). pose proof (wf_hash_obj (0xffffffff - 1 - 1) myid Hmyid).
  destruct a as [|vid|nodes nodes6 st query token]; cbn [answer_args wf_answer] in *.
  - split; [|done]. repeat (apply wf_args_kv; [done|done|]). constructor.
  - split; [|done]. repeat (apply wf_args_kv; [done|done|]). constructor.
  - destruct Hw as (? & ? & ? & ? & ?). split.
    + rewrite !wf_args_app. split_and!; [|by apply opt_blob_wf..|by apply content_args_wf].
      repeat (apply wf_args_kv; [done|done|]). constructor.
    + rewrite !length_app, !Nat2Z.inj_add, !opt_blob_length.
      assert (Z.of_nat (length (content_args st query)) <= 1) by (unfold content_args; repeat case_match; cbn; lia).
      assert (forall A (b : list A), nonempty b <= 1) as Hn by (intros A []; cbn; lia).
      cbn [length]. pose proof (Hn _ nodes). pose proof (Hn _ nodes6). pose proof (Hn _ token). lia.
Qed.

Lemma read_content st query a m :
  Z.of_nat (length st) < 2 ^ 28 ->
  (q_select query = [] /\ Forall wf_sent st \/
   q_select query <> [] /\ Forall selectable (q_select query) /\ Forall wf_fielded st) ->
  pm_values m = [] -> pm_value_parts m = [] -> pm_fields m = [] ->
  a_values a = None -> a_fields a = None ->
  exists a', req_loop sys_now steady_now (content_args st query) a m = Ret (a', m) /\ a_sa a' = a_sa a /\
    a_want a' = a_want a /\ forall addr, read_values a' (pm_set_addr addr m) = Ret (with_content st query (pm_set_addr addr m)).
Proof using GnutlsLaws0.
  intros Hl H Hm1 Hm2 Hm3 Ha1 Ha2. unfold content_args, with_content. destruct st as [|v st].
  { exists a. split_and!; try done. intros addr. unfold read_values. by rewrite Ha1, Ha2. }
  destruct (q_select query) as [|f sel] eqn:E; destruct H as [[? ?]|(Hne & ? & ?)]; try done.
  - exists (mkReq (Some (values_obj (v :: st))) (a_fields a) (a_sa a) (a_want a)).
    split; [cbn [req_loop kv]; by autorewrite with vb_keys|]. split_and!; [done|done|]. intros addr.
    apply read_values_obj; [done|lia|done|done|done].
  - exists (mkReq (a_values a) (Some (fields_obj (selection (f :: sel)) (v :: st))) (a_sa a) (a_want a)).
    split; [cbn [req_loop kv]; by autorewrite with vb_keys|]. split_and!; [done|done|]. intros addr.
    unfold read_values. cbn [a_values a_fields]. rewrite Ha1. rewrite read_fields_obj.
    + change (pm_fields (pm_set_addr addr m)) with (pm_fields m). by rewrite Hm3.
    + intros Hn. assert (f ∈ selection (f :: sel)) as Hf by (apply selection_elem, elem_of_cons; by left).
      rewrite Hn in Hf. by apply elem_of_nil in Hf.
    + apply selection_sorted.
    + by apply selection_selectable.
    + done.
Qed.

Lemma want_unasked m : pm_want m = -1 -> pm_set_want (-1) m = m.
Proof. destruct m. cbn. by intros ->. Qed.

Lemma content_unasked st query m : pm_want m = -1 -> pm_set_want (-1) (with_content st query m) = with_content st query m.
Proof.
  intros Hw. unfold with_content, with_values. destruct st; [|destruct (q_select query); [destruct (inlined _)|]];
    destruct m; cbn in *; by subst.
Qed.

Lemma read_answer addr a tid :
  wf_addr addr -> wf_answer a -> 0 <= tid < 2 ^ 32 ->
  read_args AF_INET6 sys_now steady_now (answer_args addr a) (pm_base network MT_Reply tid) =
  Ret (answer_read addr a tid).
Proof using HAF6 Hmyid GnutlsLaws0.
  intros Ha Hw Ht. unfold read_args.
  assert (forall h, wf_hash HASH_LEN h -> hash_unpack (OBin h) = Ret h) as Hh by apply hash_unpack_ok.
  assert (forall n, 0 <= n < 2 ^ 32 -> unpackTid (OPos n) = Ret n) as Hs by (intros; by apply as_uint_ok).
  assert (as_int (OPos 1) = Ret 1) as H1 by done. assert (forall s, unpackBlob (OBin s) = Ret s) as Hb by done.
  destruct a as [|vid|nodes nodes6 st query token]; cbn [answer_args wf_answer] in *.
  - args Hh Hs H1 Hb. cbn [a_sa]. rewrite read_addr_obj by done.
    cbn [mbind outcome_bind read_values read_want no_req a_values a_fields a_want answer_read].
    rewrite want_unasked by reflexivity. reflexivity.
  - args Hh Hs H1 Hb. rewrite as_uint_ok by done. args Hh Hs H1 Hb. cbn [a_sa]. rewrite read_addr_obj by done.
    cbn [mbind outcome_bind read_values read_want no_req a_values a_fields a_want answer_read].
    rewrite want_unasked by reflexivity. reflexivity.
  - destruct Hw as (_ & _ & _ & Hl & Hc). rewrite req_loop_app. args Hh Hs H1 Hb.
    rewrite (read_opt_blob sys_now steady_now KEY_REQ_NODES4 _ _ _ pm_set_nodes4_raw), (read_opt_blob sys_now steady_now KEY_REQ_NODES6 _ _ _ pm_set_nodes6_raw),
      (read_opt_blob sys_now steady_now KEY_REQ_TOKEN _ _ _ pm_set_token);
      [|intros; autorewrite with vb_keys; reflexivity|reflexivity|intros; autorewrite with vb_keys; reflexivity|reflexivity
       |intros; autorewrite with vb_keys; reflexivity|reflexivity].
    edestruct (read_content st query) as (a' & -> & Hsa & Hwa & Hv); [exact Hl|exact Hc|reflexivity..|].
    cbn [mbind outcome_bind]. rewrite Hsa, Hwa. cbn [a_sa a_want no_req].
    rewrite read_addr_obj by done. cbn [mbind outcome_bind]. rewrite Hv. cbn [mbind outcome_bind read_want].
    rewrite content_unasked by reflexivity. reflexivity.
Qed.

Lemma replies_read addr a tid rest :
  wf_addr addr -> wf_answer a -> 0 <= tid < 2 ^ 32 -> wf_bytes rest ->
  exists b, answer_packet addr a tid = Ret (b, answer_parts a) /\ parse (b ++ rest) = Ret (answer_read addr a tid).
Proof using All.
  intros Ha Hw Ht Hr. eexists. split; [by apply answer_packet_obj|].
  destruct (answer_args_wf addr a Ha Hw). rewrite parse_reply by done. by apply read_answer.
Qed.

(** A query for the owner of values gets no answer for values that have one: the
    owner is sent as a public key and read as a hash, which fails, and the value is
    skipped.  The answer to such a query over owned values is read as empty. *)
Theorem owner_field_lost addr st query tid rest :
  wf_addr addr -> 0 <= tid < 2 ^ 32 -> wf_bytes rest ->
  Forall selectable (q_select query) -> Forall wf_fielded st -> Z.of_nat (length st) < 2 ^ 28 ->
  F_OwnerPk ∈ q_select query -> Forall (fun v => is_Some (owner_bytes v)) st ->
  exists b m, answer_packet addr (AnsNodesValues [] [] st query []) tid = Ret (b, []) /\
    parse (b ++ rest) = Ret m /\ pm_type m = MT_Reply /\ pm_values m = [] /\ pm_fields m = [].
Proof using All.
  intros Ha Ht Hr Hs Hst Hl Ho Hown.
  assert (q_select query <> []) as Hne by (intros E; rewrite E in Ho; by apply elem_of_nil in Ho).
  destruct (replies_read addr (AnsNodesValues [] [] st query []) tid rest) as (b & Hb & Hp); [done| |done|done|].
  { assert (wf_blob []) by (split; [done|constructor]). cbn [wf_answer]. tauto. }
  exists b, (answer_read addr (AnsNodesValues [] [] st query []) tid). cbn [answer_parts] in Hb.
  destruct (q_select query) as [|f sel] eqn:E; [done|]. split; [done|]. split; [done|].
  cbn [answer_read with_content]. unfold with_content. destruct st as [|v st]; [done|]. rewrite E. split; [done|]. split; [done|].
  cbn [pm_fields pm_set_fields]. unfold read_indexes.
  assert (forall l, Forall (fun v => is_Some (owner_bytes v)) l -> List.filter (readable_fields (selection (f :: sel))) l = []) as ->; [|done|done].
  induction 1 as [|w l [k Hk] _ IH]; [done|]. cbn [List.filter]. unfold readable_fields at 1. rewrite Hk.
  rewrite (proj2 (existsb_exists _ _)); [done|]. exists F_OwnerPk. split; [|by apply bool_decide_true].
  by apply list_elem_of_In, selection_elem.
Qed.

(** ** Errors *)

(** The object of an error: a code and a message, and the identifier if it is sent. *)
Definition error_obj (code : Z) (message : bytes) (include_id : bool) (tid : Tid) : obj :=
  OMap ([kv KEY_E (OArr [OPos code; OStr message])] ++
        (if include_id then [kv KEY_R (OMap [kv KEY_REQ_ID (OBin myid)])] else []) ++
        [kv KEY_TID (OPos tid); kv KEY_Y (OStr KEY_E); kv KEY_UA (OStr my_v)] ++ net_obj network).

Lemma error_bytes_obj code message include_id tid :
  0 <= code < 2 ^ 16 -> 0 <= tid < 2 ^ 32 ->
  error_bytes myid network code message include_id tid = pack (error_obj code message include_id tid).
Proof using Hnet.
  intros Hc Ht. unfold error_obj, error_bytes, reply_tail.
  rewrite pack_map_obj, !pack_kvs_app, !pack_kvs_cons, pack_kvs_nil, !length_app, !Nat2Z.inj_add, net_obj_length.
  rewrite pack_net_obj, pack_uint16, pack_uint32, !pack_OStr by done.
  destruct include_id; rewrite ?pack_kvs_cons, ?pack_kvs_nil, ?app_nil_r, <- ?app_assoc.
  - rewrite pack_map_obj, pack_kvs_cons, pack_kvs_nil. cbn [pack map concat length]. rewrite ?app_nil_r, <- ?app_assoc.
    change (Z.of_nat 1 + (Z.of_nat 1 + (Z.of_nat 3 + net_count network))) with (1 + (1 + (3 + net_count network))).
    rewrite !Z.add_assoc. reflexivity.
  - cbn [pack map concat length app]. rewrite ?app_nil_r, <- ?app_assoc.
    change (Z.of_nat 1 + (Z.of_nat 0 + (Z.of_nat 3 + net_count network))) with (1 + (0 + (3 + net_count network))).
    rewrite !Z.add_assoc. reflexivity.
Qed.

Lemma error_obj_wf code message include_id tid :
  0 <= code < 2 ^ 16 -> wf_blob message -> 0 <= tid < 2 ^ 32 ->
  wf_obj 0xffffffff (error_obj code message include_id tid).
Proof using Hmyid Hnet.
  intros Hc Hm Ht. unfold error_obj. apply wf_map.
  assert (Z.of_nat (length (net_obj network)) <= 1) as Hn by (unfold net_obj; case_match; cbn; lia).
  split_and!; [done|rewrite !length_app; destruct include_id; cbn [length]; lia|].
  rewrite !Forall_app. split_and!; [apply wf_args_1; [done|]| | |apply net_obj_wf].
  - apply wf_arr. split_and!; [done|done|]. repeat constructor; [lia|lia|apply Hm|apply Hm].
  - destruct include_id; [|constructor]. apply wf_args_1; [done|]. apply wf_map. split_and!; [done|done|].
    apply wf_args_1; [done|by apply wf_hash_obj].
  - repeat (apply wf_args_kv; [done| |]); [cbn; lia|by apply wf_lit|by apply wf_lit|constructor].
Qed.

Lemma error_read code message include_id tid rest :
  0 <= code < 2 ^ 16 -> wf_blob message -> 0 <= tid < 2 ^ 32 -> wf_bytes rest ->
  parse (error_bytes myid network code message include_id tid ++ rest) =
  if include_id then Ret (pm_set_id myid (pm_set_error_code code (pm_base network MT_Error tid)))
  else Undef "read past the end of an array".
Proof using Hmyid Hnet.
  intros Hc Hm Ht Hr. rewrite error_bytes_obj by done. unfold parse_message.
  rewrite unpack_packed by (done || by apply error_obj_wf). cbn [mbind outcome_bind fst]. unfold pm_unpack, error_obj.
  set (m0 := pm_set_network network (pm_set_ua my_v (pm_set_tid tid Message_make))).
  set (r := if include_id then Some (OMap [kv KEY_REQ_ID (OBin myid)]) else None).
  match goal with |- context [top_loop ?l _ _] => assert (top_loop l no_parsed Message_make =
    Ret (mkParsed (Some (OStr KEY_E)) r None (Some (OArr [OPos code; OStr message])) None None [], m0)) as -> end.
  { unfold net_obj, m0, r. destruct include_id, (Z.eqb_spec network 0) as [-> |];
      repeat (cbn [top_loop kv app]; autorewrite with vb_keys; cbn [mbind outcome_bind unpackTid as_string];
        rewrite ?(as_uint_ok 32) by done); reflexivity. }
  unfold r. destruct include_id; cbn [mbind outcome_bind message_type p_e read_request p_a p_r p_u]; unfold read_request;
    cbn [p_e p_a p_r p_u read_error]; rewrite as_uint_ok by done; cbn [mbind outcome_bind via_map]; [|done].
  cbn [req_loop kv]. autorewrite with vb_keys. rewrite hash_unpack_ok by done.
  cbn [mbind outcome_bind req_loop read_addr no_req a_sa read_values a_values a_fields read_want a_want].
  rewrite pm_unasked by reflexivity. reflexivity.
Qed.

(** The ids told to a listener of version 0, which are sent as a reply. *)
Lemma told_read refreshed sid token ids version rest :
  version < 1 -> 0 <= sid < 2 ^ 32 -> wf_blob token -> wf_ids ids -> wf_bytes rest ->
  parse (tell_bytes myid network (tell_key refreshed) sid token ids version 0 ++ rest) =
  Ret (with_ids refreshed ids (pm_set_token token (pm_set_id myid (pm_base network MT_ValueUpdate sid)))).
Proof using Hmyid Hnet.
  intros Hv Hs Hk Hi Hr. rewrite tell_bytes_obj, (proj2 (Z.leb_gt 1 version)) by lia. unfold parse_message.
  rewrite unpack_packed by (done || by apply tell_obj_wf). cbn [mbind outcome_bind fst].
  rewrite unpack_tell by done. by apply (read_tell AF_INET6 myid Hmyid network sys_now steady_now refreshed false).
Qed.

(** An error is read with its code and the identifier of its sender when the sender
    adds its identifier; an error without it makes the parser read past the end of the
    array that holds the code and the message. *)
Theorem error_parse code message include_id tid rest :
  0 <= code < 2 ^ 16 -> wf_blob message -> 0 <= tid < 2 ^ 32 -> wf_bytes rest ->
  parse (error_bytes myid network code message include_id tid ++ rest) =
  if include_id then Ret (pm_set_id myid (pm_set_error_code code (pm_base network MT_Error tid)))
  else Undef "read past the end of an array".
Proof using Hmyid Hnet. apply error_read. Qed.
(** ** What an answer means *)

(** The answers a reader can make out whole: values it accepts (one with an owner and
    no signature is refused), and no selection of the owner of an owned value, which
    is packed as a key and read as a hash. *)
Definition readable (a : answer) : Prop :=
  match a with
  | AnsNodesValues _ _ st query _ =>
      match q_select query with
      | [] => Forall (fun v => exists x, transmitted v = Ret x) st
      | sel => F_OwnerPk ∉ sel \/ Forall (fun v => v_owner v = None) st
      end
  | _ => True
  end.

(** A value as it arrives. *)
Definition arrives (v : Value) : Value := match transmitted v with Ret x => x | _ => v end.

(** Every value, or the sizes of those to come, or the selected fields of every value. *)
Definition full_content (st : list Value) (query : Query) (m : ParsedMessage) : ParsedMessage :=
  match st, q_select query with
  | [], _ => m
  | _, [] => if inlined st then pm_set_values (map arrives st) m else pm_set_value_parts (announced_sizes 0 (svals st)) m
  | _, sel => pm_set_fields (map (fun v => FieldValueIndex_make v (selection sel)) st) m
  end.

(** The message that carries an answer. *)
Definition expected_answer (addr : SockAddr) (a : answer) (tid : Tid) : ParsedMessage :=
  let m := pm_set_id myid (pm_base network MT_Reply tid) in
  match a with
  | AnsConfirm => pm_set_addr (reported addr) m
  | AnsAnnounced vid => pm_set_addr (reported addr) (pm_set_value_id vid m)
  | AnsNodesValues nodes nodes6 st query token =>
      full_content st query (pm_set_addr (reported addr)
        (pm_set_token token (pm_set_nodes6_raw nodes6 (pm_set_nodes4_raw nodes m))))
  end.

Lemma received_all vs : Forall (fun v => exists x, transmitted v = Ret x) vs -> received_values vs = map arrives vs.
Proof.
  induction 1 as [|v vs [x Hx] _ IH]; [done|]. unfold received_values, arrives in *. cbn [omap list_omap map].
  by rewrite Hx, IH.
Qed.

Lemma indexes_all fs st :
  F_OwnerPk ∉ fs \/ Forall (fun v => v_owner v = None) st ->
  read_indexes fs st = map (fun v => FieldValueIndex_make v fs) st.
Proof.
  intros H. unfold read_indexes. f_equal. apply List.forallb_filter_id, forallb_forall. intros v Hv%list_elem_of_In. unfold readable_fields.
  destruct H as [H|H].
  - destruct (owner_bytes v); [|done]. apply negb_true_iff, not_true_is_false. intros E.
    apply existsb_exists in E as (f & Hf & E). apply bool_decide_eq_true_1 in E as ->. by apply list_elem_of_In in Hf.
  - eapply (proj1 (Forall_forall _ _)) in H; [|exact Hv]. cbn in H. unfold owner_bytes. by rewrite H.
Qed.

Lemma answer_read_full addr a tid : readable a -> answer_read addr a tid = expected_answer addr a tid.
Proof.
  destruct a as [|vid|nodes nodes6 st query token]; [done..|]. cbn [readable answer_read expected_answer].
  generalize (pm_set_addr (reported addr) (pm_set_token token (pm_set_nodes6_raw nodes6 (pm_set_nodes4_raw nodes
    (pm_set_id myid (pm_base network MT_Reply tid)))))). intros m H. unfold with_content, full_content, with_values.
  destruct st as [|v st]; [done|]. destruct (q_select query) as [|f sel].
  - by rewrite received_all.
  - rewrite indexes_all; [done|]. destruct H as [H|H]; [left|by right]. intros Hin. apply H. by apply selection_elem.
Qed.

(** C31. What the engine sends in answer is understood, whatever bytes follow the packet.
    An answer that its reader can make out whole (no value with an owner and no
    signature, no selection of the owner of an owned value) packs, and is read as a
    reply with the sender's id, the transaction id, the IP address the sender saw
    (without the port), the nodes, the token and the id of an announced value, and with
    every value (or their sizes when they follow in parts), or the selected fields of
    every value.  A list of refreshed or expired ids for a listener of version 0 is read
    as such, with its token.  An error that carries the sender's id is read with it and
    the code; an error without it makes the parser read past the end of an array. *)
Theorem replies_parse addr a tid rest :
  wf_addr addr -> wf_answer a -> readable a -> 0 <= tid < 2 ^ 32 -> wf_bytes rest ->
  (exists b, answer_packet addr a tid = Ret (b, answer_parts a) /\ parse (b ++ rest) = Ret (expected_answer addr a tid)) /\
  (forall refreshed token ids version,
     version < 1 -> wf_blob token -> wf_ids ids ->
     parse (tell_bytes myid network (tell_key refreshed) tid token ids version 0 ++ rest) =
     Ret (with_ids refreshed ids (pm_set_token token (pm_set_id myid (pm_base network MT_ValueUpdate tid))))) /\
  (forall code message include_id,
     0 <= code < 2 ^ 16 -> wf_blob message ->
     parse (error_bytes myid network code message include_id tid ++ rest) =
     if include_id then Ret (pm_set_id myid (pm_set_error_code code (pm_base network MT_Error tid)))
     else Undef "read past the end of an array").
Proof using All.
  intros Ha Hw Hc Ht Hr. split_and!.
  - rewrite <- answer_read_full by done. by apply replies_read.
  - intros refreshed token ids version Hv Hk Hi. by apply told_read.
  - intros code message include_id Hco Hm. by apply error_read.
Qed.
End Reply.

(** ** Hostile packets *)

(** Four short packets that any peer can send, and on which the parser's behaviour
    is undefined: a reply whose selection of fields is empty (a division by zero), a
    reply that is not a map, an error with no element, and a date of creation past
    the range of the clock (a signed overflow). *)
Theorem hostile_packets {G : Gnutls} AF_INET6 sys_now steady_now :
  parse_message AF_INET6 sys_now steady_now
    (pack (OMap [kv KEY_R (OMap [kv KEY_REQ_FIELDS (OMap [kv (str "f") (OArr []); kv (str "v") (OArr [])])])])) =
    Undef "division by zero" /\
  parse_message AF_INET6 sys_now steady_now (pack (OMap [kv KEY_R (OPos 1)])) = Undef "inactive member of a union" /\
  parse_message AF_INET6 sys_now steady_now (pack (OMap [kv KEY_E (OArr [])])) = Undef "read past the end of an array" /\
  parse_message AF_INET6 sys_now steady_now (pack (OMap [kv KEY_R (OMap [kv KEY_REQ_CREATION (OPos (2 ^ 62))])])) =
    Undef "signed overflow".
Proof. split_and!; vm_compute; reflexivity. Qed.

Module ReplyDemo.
#[local] Existing Instance GnutlsDemo.demo.
Definition peer : SockAddr := [2; 0; 31; 144; 192; 0; 2; 1] ++ replicate 8 0.
Definition owned : Value := mkValue 8 (Some (Some tt)) (Hash_zero HASH_LEN) 3 [1; 2] [] 0 [] [] 0.
Definition ask_owner : Query := mkQuery [F_Id; F_OwnerPk] [] false.
Definition ask_type : Query := mkQuery [F_ValueType; F_Id] [] false.
Definition both : answer := AnsNodesValues [] [] [GnutlsDemo.note; owned] ask_type [9].

Lemma peer_wf : wf_addr 10 peer.
Proof. split; [by_compute|]. left. by split. Qed.

Lemma note_sent : wf_sent GnutlsDemo.note.
Proof. split; [exact GnutlsDemo.note_wf|]. split; [exact I|]. vm_compute. reflexivity. Qed.
Lemma owned_sent : wf_sent owned.
Proof. split; [unfold wf_value; simpl; split_and!; by_compute|]. split; [by eexists|]. vm_compute. reflexivity. Qed.
Lemma note_fielded : wf_fielded GnutlsDemo.note.
Proof. split; [exact note_sent|]. split; [discriminate|]. intros b Hb. discriminate Hb. Qed.
Lemma owned_fielded : wf_fielded owned.
Proof. split; [exact owned_sent|]. split; [discriminate|]. intros b [= <-]. discriminate. Qed.
Lemma ask_selectable : Forall selectable (q_select ask_owner).
Proof. repeat constructor; discriminate. Qed.

Lemma both_wf : wf_answer both.
Proof.
  split; [split; by_compute|]. split; [split; by_compute|]. split; [split; by_compute|].
  split; [vm_compute; reflexivity|]. right. split; [discriminate|].
  split; [repeat constructor; discriminate|]. repeat constructor; apply note_fielded || apply owned_fielded.
Qed.

Lemma both_readable : readable both.
Proof. left. by_compute. Qed.
End ReplyDemo.

(** The identifiers and types of two values, one of them with an owner. *)
Lemma replies_parse_witness :
  exists b m, answer_packet WireDemo.me 7 ReplyDemo.peer ReplyDemo.both 77 = Ret (b, []) /\
    parse_message (G := GnutlsDemo.demo) 10 0 0 (b ++ [1]) = Ret m /\ length (pm_fields (G := GnutlsDemo.demo) m) = 2%nat.
Proof.
  destruct (replies_parse (G := GnutlsDemo.demo) 10 ltac:(lia) WireDemo.me ltac:(by_compute) 7 ltac:(lia) 0 0 ReplyDemo.peer ReplyDemo.both 77 [1]
    ReplyDemo.peer_wf ReplyDemo.both_wf ReplyDemo.both_readable ltac:(lia) ltac:(by_compute)) as ((b & Hb & Hp) & _).
  exists b, (expected_answer 10 WireDemo.me 7 ReplyDemo.peer ReplyDemo.both 77).
  split; [exact Hb|]. split; [exact Hp|]. vm_compute. reflexivity.
Defined.

Lemma owner_field_lost_witness :
  exists b m, answer_packet WireDemo.me 7 ReplyDemo.peer (AnsNodesValues (G := GnutlsDemo.demo) [] [] [ReplyDemo.owned] ReplyDemo.ask_owner []) 77 = Ret (b, []) /\
    parse_message (G := GnutlsDemo.demo) 10 0 0 (b ++ []) = Ret m /\ pm_type (G := GnutlsDemo.demo) m = MT_Reply /\ pm_values m = [] /\ pm_fields m = [].
Proof.
  apply (owner_field_lost (G := GnutlsDemo.demo) 10 ltac:(lia) WireDemo.me ltac:(by_compute) 7 ltac:(lia) 0 0).
  - exact ReplyDemo.peer_wf.
  - lia.
  - constructor.
  - exact ReplyDemo.ask_selectable.
  - constructor; [exact ReplyDemo.owned_fielded|constructor].
  - reflexivity.
  - by_compute.
  - constructor; [by eexists|constructor].
Defined.

Lemma error_parse_witness :
  parse_message (G := GnutlsDemo.demo) 10 0 0 (error_bytes WireDemo.me 7 404 (str "not found") false 77 ++ []) =
  Undef "read past the end of an array".
Proof.
  apply (error_parse (G := GnutlsDemo.demo) 10 WireDemo.me ltac:(by_compute) 7 ltac:(lia) 0 0 404 (str "not found") false 77 []).
  - lia.
  - split; by_compute.
  - lia.
  - constructor.
Defined.
