(* ===== verification/NodeInfo.v ===== *)
(** * NodeInfo: the addresses of nodes on the wire

    Models the part of src/opendht-2.1.4/src/network_engine.cpp that packs the nodes
    closest to an identifier ([bufferNodes]), reads them back ([deserializeIPv4],
    [deserializeIPv6], and the per-node part of [deserializeNodes]) and refuses
    addresses that cannot belong to a peer ([isMartian]). *)
From S2P Require Import Prelude StdMap InfoHash SockAddr Node Message Wire.

(** [memcmp(address, v4prefix, 12)]. *)
Definition v4prefix : bytes := replicate 10 0 ++ [0xFF; 0xFF].

Section NodeInfo.
Context (AF_INET6 : Z).

(** [isMartian]. *)
Definition isMartian (addr : SockAddr) : bool :=
  if getPort AF_INET6 addr =? 0 then true
  else if getFamily addr =? AF_INET then
    (byte_at (sin_addr addr) 0 =? 0) || (Z.land (byte_at (sin_addr addr) 0) 0xE0 =? 0xE0)
  else if getFamily addr =? AF_INET6 then
    if (getLength addr <? sizeof_sockaddr_in6)%nat then true
    else
      let address := sin6_addr addr in
      (byte_at address 0 =? 0xFF) ||
      ((byte_at address 0 =? 0xFE) && (Z.land (byte_at address 1) 0xC0 =? 0x80)) ||
      bool_decide (address = replicate 16 0) ||
      bool_decide (take 12 address = v4prefix)
  else true.

(** ** Packing *)

(** [std::sort] by distance to [id]; nodes of the same distance have the same
    identifier. *)
Fixpoint insert_near (id : Hash) (n : Node) (l : list Node) : list Node :=
  match l with
  | [] => [n]
  | m :: l' => if xorCmp id (n_id m) (n_id n) <? 0 then m :: insert_near id n l' else n :: l
  end.

Definition sort_near (id : Hash) (l : list Node) : list Node := foldr (insert_near id) [] l.

(** One entry: the identifier, the IP and the port. *)
Definition port_bytes (a : SockAddr) : bytes := take 2 (drop 2 a).
Definition node_info4 (n : Node) : bytes := n_id n ++ sin_addr (n_addr n) ++ port_bytes (n_addr n).
Definition node_info6 (n : Node) : bytes := n_id n ++ sin6_addr (n_addr n) ++ port_bytes (n_addr n).

(** [bufferNodes] of one family. *)
Definition bufferNodes_af (af : Z) (id : Hash) (nodes : list Node) : bytes :=
  let picked := take (Nat.min SEND_NODES (length nodes)) (sort_near id nodes) in
  if af =? AF_INET then concat (map node_info4 picked)
  else if af =? AF_INET6 then concat (map node_info6 picked)
  else [].

(** [bufferNodes] of both families; a negative [want] is the family of the peer. *)
Definition bufferNodes (af : Z) (id : Hash) (want : Z) (nodes4 nodes6 : list Node) : bytes * bytes :=
  let want := if want <? 0 then if af =? AF_INET then WANT4 else WANT6 else want in
  (if negb (Z.land want WANT4 =? 0) then bufferNodes_af AF_INET id nodes4 else [],
   if negb (Z.land want WANT6 =? 0) then bufferNodes_af AF_INET6 id nodes6 else []).

(** ** Reading *)

Definition deserializeIPv4 (ni : bytes) : SockAddr :=
  write_at 2 (take 2 (drop 4 ni)) (write_at 4 (take 4 ni) (setFamily AF_INET6 AF_INET [])).

Definition deserializeIPv6 (ni : bytes) : SockAddr :=
  write_at 2 (take 2 (drop 16 ni)) (write_at 8 (take 16 ni) (setFamily AF_INET6 AF_INET6 [])).

(** The entries of a buffer. *)
Fixpoint entries (k n : nat) (raw : bytes) : list bytes :=
  match n with
  | O => []
  | S n' => take k raw :: entries k n' (drop k raw)
  end.

Definition entries4 (raw : bytes) : list (Hash * SockAddr) :=
  map (fun ni => (take HASH_LEN ni, deserializeIPv4 (drop HASH_LEN ni)))
    (entries NODE4_INFO_BUF_LEN (length raw / NODE4_INFO_BUF_LEN) raw).

Definition entries6 (raw : bytes) : list (Hash * SockAddr) :=
  map (fun ni => (take HASH_LEN ni, deserializeIPv6 (drop HASH_LEN ni)))
    (entries NODE6_INFO_BUF_LEN (length raw / NODE6_INFO_BUF_LEN) raw).

(** What a round of the loops of [deserializeNodes] does with an entry: [None] is
    [continue].  A loopback address is that of the sender, with the port given. *)
Definition accept_entry (myid : Hash) (af : Z) (from : SockAddr) (blacklist : list (SockAddr * unit))
    (e : Hash * SockAddr) : option (Hash * SockAddr) :=
  if op_eq HASH_LEN e.1 myid then None
  else
    let addr := if isLoopback AF_INET6 e.2 && (getFamily from =? af) then setPort AF_INET6 (getPort AF_INET6 e.2) from else e.2 in
    if isMartian addr || match om_find addr_lt addr blacklist with Some _ => true | None => false end then None
    else Some (e.1, addr).
End NodeInfo.

(** ** Properties *)

Section properties.
Context (AF_INET6 : Z) (HAF6 : 2 < AF_INET6 < 256).

(** A well-formed IPv6 address: no flow information and no scope. *)
Definition wf_ipv6 (a : SockAddr) : Prop :=
  length a = sizeof_sockaddr_in6 /\ take 2 a = [AF_INET6; 0] /\
  take 4 (drop 4 a) = replicate 4 0 /\ drop 24 a = replicate 4 0.

Definition dist_le (id : Hash) (a b : Node) : Prop := xor_dist id (n_id a) <= xor_dist id (n_id b).

Lemma insert_near_perm id n l : insert_near id n l ≡ₚ n :: l.
Proof. induction l as [|m l IH]; [done|]. cbn. case_match; [|done]. rewrite IH. apply Permutation_swap. Qed.

Lemma sort_near_perm id l : sort_near id l ≡ₚ l.
Proof. induction l as [|n l IH]; [done|]. cbn. by rewrite insert_near_perm, IH. Qed.

Section Sorted.
Context (id : Hash) (Hid : wf_hash HASH_LEN id).
Abbreviation wf_node := (fun n => wf_hash HASH_LEN (n_id n)).

Lemma near_lt a b : wf_node a -> wf_node b -> (xorCmp id (n_id a) (n_id b) <? 0) = (xor_dist id (n_id a) <? xor_dist id (n_id b)).
Proof using Hid.
  destruct Hid as [Li Wi]. intros [La Wa] [Lb Wb]. rewrite xorCmp_dist by (done || congruence). unfold sign_of, Z.ltb.
  by destruct (xor_dist id (n_id a) ?= xor_dist id (n_id b)).
Qed.

Lemma sort_near_sorted l : Forall wf_node l -> StronglySorted (dist_le id) (sort_near id l).
Proof using Hid.
  induction 1 as [|n l Hn Hl IH]; [constructor|].
  change (sort_near id (n :: l)) with (insert_near id n (sort_near id l)).
  assert (Forall wf_node (sort_near id l)) as Hs by (by rewrite sort_near_perm). revert Hs IH.
  generalize (sort_near id l). clear Hl. intros l'. induction l' as [|m l' IHl]; intros Hw Hs; [constructor; constructor|].
  inversion_clear Hw as [|? ? Hm Hw']. inversion_clear Hs as [|? ? Hs' Hf]. cbn. rewrite near_lt by done.
  destruct (Z.ltb_spec (xor_dist id (n_id m)) (xor_dist id (n_id n))).
  - constructor; [by apply IHl|]. rewrite insert_near_perm. constructor; [unfold dist_le; lia|done].
  - constructor; [by constructor|]. constructor; [unfold dist_le; lia|].
    eapply Forall_impl; [exact Hf|]. unfold dist_le. intros x Hx. lia.
Qed.
End Sorted.

Lemma entries_concat k l : Forall (fun e => length e = k) l -> entries k (length l) (concat l) = l.
Proof.
  induction 1 as [|e l He Hl IH]; [done|]. cbn [length entries concat].
  rewrite take_app_length' by done. rewrite drop_app_length' by done. by rewrite IH.
Qed.

Lemma concat_length k (l : list bytes) : Forall (fun e => length e = k) l -> length (concat l) = (length l * k)%nat.
Proof. induction 1 as [|e l He Hl IH]; [done|]. cbn. rewrite length_app, He, IH. lia. Qed.

Lemma deserialize4 a : wf_ipv4 a -> deserializeIPv4 AF_INET6 (sin_addr a ++ port_bytes a) = a /\ length (sin_addr a ++ port_bytes a) = 6%nat.
Proof. intros Ha. by destruct (wf_ipv4_inv a Ha) as (p1 & p2 & a1 & a2 & a3 & a4 & _ & ->). Qed.

Lemma deserialize6 a :
  wf_ipv6 a -> deserializeIPv6 AF_INET6 (sin6_addr a ++ port_bytes a) = a /\ length (sin6_addr a ++ port_bytes a) = 18%nat.
Proof using HAF6.
  intros (Hl & Hf & H4 & H24). unfold sin6_addr, port_bytes, deserializeIPv6. rewrite setFamily_in6 by done.
  assert (a = take 2 a ++ take 2 (drop 2 a) ++ take 4 (drop 4 a) ++ take 16 (drop 8 a) ++ drop 24 a) as E.
  { do 25 (destruct a as [|? a]; [done|]). reflexivity. }
  assert (length (take 2 (drop 2 a)) = 2 /\ length (take 16 (drop 8 a)) = 16)%nat as [L2 L16]
    by (rewrite !length_take, !length_drop, Hl; done).
  revert E L2 L16. rewrite Hf, H4, H24. generalize (take 2 (drop 2 a)) as p, (take 16 (drop 8 a)) as ip. intros p ip E Lp Li.
  split; [|rewrite length_app; lia].
  rewrite take_app_length' by done. rewrite drop_app_length' by done. rewrite (take_ge p) by lia. rewrite E.
  unfold write_at. rewrite Li, Lp. 
  by destruct p as [|p1 [|p2 [|]]].
Qed.

Lemma picked_length id nodes :
  length (take (Nat.min SEND_NODES (length nodes)) (sort_near id nodes)) = Nat.min SEND_NODES (length nodes).
Proof. rewrite length_take, sort_near_perm. lia. Qed.

(** Entries that are read back one by one. *)
Lemma entries_roundtrip (info : Node -> bytes) (deser : bytes -> SockAddr) (k : nat) l :
  Forall (fun n => length (n_id n) = HASH_LEN /\ length (info n) = k /\ take HASH_LEN (info n) = n_id n /\
                   deser (drop HASH_LEN (info n)) = n_addr n) l -> (0 < k)%nat ->
  let raw := concat (map info l) in
  (length raw mod k = 0)%nat /\
  map (fun ni => (take HASH_LEN ni, deser (drop HASH_LEN ni))) (entries k (length raw / k) raw) =
  map (fun n => (n_id n, n_addr n)) l.
Proof.
  intros Hl Hk raw. assert (Forall (fun e => length e = k) (map info l)) as Hlen.
  { apply Forall_map. eapply Forall_impl; [exact Hl|]. naive_solver. }
  assert (length raw = length l * k)%nat as Hr by (unfold raw; by rewrite (concat_length k), length_map).
  rewrite Hr, Nat.Div0.mod_mul, Nat.div_mul by lia. split; [done|].
  rewrite <- (length_map info l). unfold raw. rewrite entries_concat by done. rewrite map_map. apply map_ext_Forall.
  eapply Forall_impl; [exact Hl|]. cbn. intros n (_ & _ & -> & ->). done.
Qed.

(** The nodes that [bufferNodes] sends: those closest to [id], closest first. *)
Definition closest_first (id : Hash) (nodes picked : list Node) : Prop :=
  length picked = Nat.min SEND_NODES (length nodes) /\ StronglySorted (dist_le id) picked /\
  exists rest, nodes ≡ₚ picked ++ rest /\ Forall (fun a => Forall (dist_le id a) rest) picked.

Lemma picked_closest id nodes :
  wf_hash HASH_LEN id -> Forall (fun n => wf_hash HASH_LEN (n_id n)) nodes ->
  closest_first id nodes (take (Nat.min SEND_NODES (length nodes)) (sort_near id nodes)).
Proof.
  intros Hid Hn. split; [apply picked_length|]. pose proof (sort_near_sorted id Hid nodes Hn) as Hs.
  set (k := Nat.min SEND_NODES (length nodes)). rewrite <- (take_drop k (sort_near id nodes)) in Hs.
  split; [by eapply StronglySorted_app_1_l|]. exists (drop k (sort_near id nodes)). split.
  - by rewrite take_drop, sort_near_perm.
  - apply Forall_forall. intros a Ha. apply Forall_forall. intros b Hb. by eapply StronglySorted_app_1_elem_of.
Qed.

(** The nodes an answer carries are, for each family, the at most eight ones closest
    to the identifier asked for, closest first, and the receiver reads the identifier
    and the address of each of them back, from a buffer of whole entries. *)
Theorem node_info_roundtrip id nodes :
  wf_hash HASH_LEN id -> Forall (fun n => wf_hash HASH_LEN (n_id n)) nodes ->
  (Forall (fun n => wf_ipv4 (n_addr n)) nodes ->
   exists picked, closest_first id nodes picked /\
     (length (bufferNodes_af AF_INET6 AF_INET id nodes) mod NODE4_INFO_BUF_LEN = 0)%nat /\
     entries4 AF_INET6 (bufferNodes_af AF_INET6 AF_INET id nodes) = map (fun n => (n_id n, n_addr n)) picked) /\
  (Forall (fun n => wf_ipv6 (n_addr n)) nodes ->
   exists picked, closest_first id nodes picked /\
     (length (bufferNodes_af AF_INET6 AF_INET6 id nodes) mod NODE6_INFO_BUF_LEN = 0)%nat /\
     entries6 AF_INET6 (bufferNodes_af AF_INET6 AF_INET6 id nodes) = map (fun n => (n_id n, n_addr n)) picked).
Proof using HAF6.
  intros Hid Hn. pose proof (picked_closest id nodes Hid Hn) as Hc.
  set (picked := take (Nat.min SEND_NODES (length nodes)) (sort_near id nodes)) in *.
  assert (forall P, Forall P nodes -> Forall P picked) as Hp.
  { intros P HP. apply Forall_take. by rewrite sort_near_perm. }
  unfold bufferNodes_af. rewrite Z.eqb_refl. rewrite (proj2 (Z.eqb_neq AF_INET6 AF_INET)), Z.eqb_refl by (unfold AF_INET; lia).
  split; intros Ha; exists picked; (split; [done|]); fold picked; apply entries_roundtrip; try (unfold NODE4_INFO_BUF_LEN, NODE6_INFO_BUF_LEN; lia).
  all: apply Hp in Hn; apply Hp in Ha; apply Forall_forall; intros n Hin;
    destruct (proj1 (Forall_forall _ _) Hn n Hin) as [Hl _]; pose proof (proj1 (Forall_forall _ _) Ha n Hin) as Hna; cbn in Hna.
  - destruct (deserialize4 (n_addr n) Hna) as [Hd Hdl]. unfold node_info4. rewrite length_app, Hdl, Hl.
    by rewrite take_app_length', drop_app_length'.
  - destruct (deserialize6 (n_addr n) Hna) as [Hd Hdl]. unfold node_info6. rewrite length_app, Hdl, Hl.
    by rewrite take_app_length', drop_app_length'.
Qed.
End properties.

Module NodeInfoDemo.
Definition near : Node := Node_make (replicate 20 1) ([2; 0; 31; 144; 192; 0; 2; 1] ++ replicate 8 0) false 5.
Definition far : Node := Node_make (replicate 20 200) ([2; 0; 31; 145; 192; 0; 2; 2] ++ replicate 8 0) false 5.
End NodeInfoDemo.

Lemma node_info_roundtrip_witness :
  exists picked, closest_first (Hash_zero HASH_LEN) [NodeInfoDemo.far; NodeInfoDemo.near] picked /\
    (length (bufferNodes_af 10 AF_INET (Hash_zero HASH_LEN) [NodeInfoDemo.far; NodeInfoDemo.near]) mod NODE4_INFO_BUF_LEN = 0)%nat /\
    entries4 10 (bufferNodes_af 10 AF_INET (Hash_zero HASH_LEN) [NodeInfoDemo.far; NodeInfoDemo.near]) =
      map (fun n => (n_id n, n_addr n)) picked.
Proof.
  apply (node_info_roundtrip 10 ltac:(lia) (Hash_zero HASH_LEN) [NodeInfoDemo.far; NodeInfoDemo.near]).
  - by_compute.
  - apply Forall_cons; split; [by_compute|]. apply Forall_cons; split; [by_compute|constructor].
  - apply Forall_cons; split; [by_compute|]. apply Forall_cons; split; [by_compute|constructor].
Defined.
