(* ===== verification/ValueCache.v ===== *)
(** * ValueCache: what a listening node has told us

    Models src/opendht-2.1.4/src/value_cache.h.  The callbacks a cache queues are run
    after its state has changed: an operation returns them as a list of events, in the
    order in which the queue is drained.  Values are shared through [Sp<Value>]; the
    section's [deref] is the heap. *)
From S2P Require Import Prelude StdMap InfoHash Node Value Query Storage DhtStorage.

(** [enum class ListenSyncStatus]. *)
Inductive ListenSyncStatus := ADDED | SYNCED | UNSYNCED | REMOVED.

#[export] Instance ListenSyncStatus_eq_dec : EqDecision ListenSyncStatus.
Proof. solve_decision. Defined.

(** [CacheValueStorage]. *)
Record CacheValueStorage := mkCV { cv_data : vptr; cv_created : Z; cv_expiration : Z }.

(** A callback that was run: [ValueStateCallback] or [SyncCallback]. *)
Inductive cache_event :=
| VValues (vals : list vptr) (expired : bool)
| VSync (s : ListenSyncStatus).

(** [class ValueCache]: the flags tell whether the callbacks are set. *)
Record ValueCache := mkVC {
  vc_values : list (Z * CacheValueStorage);
  vc_callback : bool;
  vc_sync : bool;
  vc_status : ListenSyncStatus;
}.

Definition MAX_CACHE_VALUES : nat := 4096.

Definition vc_set_values (vs : list (Z * CacheValueStorage)) (c : ValueCache) : ValueCache :=
  mkVC vs (vc_callback c) (vc_sync c) (vc_status c).

(** The constructor. *)
Definition ValueCache_make (cb scb : bool) : ValueCache * list cache_event :=
  (mkVC [] cb scb UNSYNCED, if scb then [VSync ADDED] else []).

(** Queue the callback on values, unless there are none or it is not set. *)
Definition notify (c : ValueCache) (vals : list vptr) (expired : bool) : list cache_event :=
  match vals with
  | [] => []
  | _ => if vc_callback c then [VValues vals expired] else []
  end.

(** [clear]. *)
Definition vc_clear (c : ValueCache) : ValueCache * list cache_event :=
  (vc_set_values [] c, notify c (map (fun e => cv_data e.2) (vc_values c)) true).

(** [~ValueCache]. *)
Definition ValueCache_destroy (c : ValueCache) : list cache_event :=
  (vc_clear c).2 ++
  (if vc_sync c
   then (if bool_decide (vc_status c = SYNCED) then [VSync UNSYNCED] else []) ++ [VSync REMOVED]
   else []).

(** The first loop of [expireValues]: the values kept, those expired, the next time. *)
Fixpoint expire_scan (now : Z) (l : list (Z * CacheValueStorage)) (next : Z) :
    list (Z * CacheValueStorage) * list vptr * Z :=
  match l with
  | [] => ([], [], next)
  | e :: l' =>
      if cv_expiration e.2 <=? now then
        let '(keep, out, n) := expire_scan now l' next in (keep, cv_data e.2 :: out, n)
      else
        let '(keep, out, n) := expire_scan now l' (Z.min next (cv_expiration e.2)) in (e :: keep, out, n)
  end.

(** The search for the oldest value: [None] is [values.end()]. *)
Fixpoint find_oldest (l : list (Z * CacheValueStorage)) (oldest_creation : Z)
    (oldest_value : option (Z * CacheValueStorage)) : option (Z * CacheValueStorage) :=
  match l with
  | [] => oldest_value
  | e :: l' =>
      if cv_created e.2 <? oldest_creation then find_oldest l' (cv_created e.2) (Some e)
      else find_oldest l' oldest_creation oldest_value
  end.

(** The second loop: while there are too many values, the oldest goes.  [None] when
    the loop does not end, having nothing to remove, or out of fuel. *)
Fixpoint trim (fuel : nat) (l : list (Z * CacheValueStorage)) (out : list vptr) :
    option (list (Z * CacheValueStorage) * list vptr) :=
  if (MAX_CACHE_VALUES <? length l)%nat then
    match fuel with
    | O => None
    | S fuel' =>
        match find_oldest l time_max None with
        | None => None
        | Some e => trim fuel' (om_erase Z.ltb e.1 l) (out ++ [cv_data e.2])
        end
    end
  else Some (l, out).

(** [expireValues(now, next)]: the new state, the next expiration, the callbacks. *)
Definition expireValues (now next : Z) (c : ValueCache) : option (ValueCache * Z * list cache_event) :=
  let '(keep, out, next') := expire_scan now (vc_values c) next in
  match trim (length keep) keep out with
  | None => None
  | Some (keep', out') => Some (vc_set_values keep' c, next', notify c out' true)
  end.

(** [onSynced]. *)
Definition onSynced (synced : bool) (c : ValueCache) : ValueCache * list cache_event :=
  let newStatus := if synced then SYNCED else UNSYNCED in
  if bool_decide (vc_status c = newStatus) then (c, [])
  else (mkVC (vc_values c) (vc_callback c) (vc_sync c) newStatus,
        if vc_sync c then [VSync newStatus] else []).

Section ValueCache.
Context {G : Gnutls} (deref : vptr -> Value) (types : list (Z * Z)).

Abbreviation type_expiration := (fun p => getType types (v_type (deref p))).

(** The loop of [addValues]. *)
Fixpoint add_loop (now : Z) (new_values : list vptr) (l : list (Z * CacheValueStorage)) (nvals : list vptr) :
    list (Z * CacheValueStorage) * list vptr :=
  match new_values with
  | [] => (l, nvals)
  | p :: new_values' =>
      match om_find Z.ltb (id_of deref p) l with
      | None =>
          add_loop now new_values'
            (om_emplace Z.ltb (id_of deref p) (mkCV p now (now + type_expiration p)) l).1 (nvals ++ [p])
      | Some v =>
          add_loop now new_values'
            (om_set Z.ltb (id_of deref p) (mkCV (cv_data v) now (now + type_expiration (cv_data v))) l) nvals
      end
  end.

(** [addValues]. *)
Definition addValues (now : Z) (new_values : list vptr) (c : ValueCache) : ValueCache * list cache_event :=
  let '(l, nvals) := add_loop now new_values (vc_values c) [] in (vc_set_values l c, notify c nvals false).

(** [refreshValue]. *)
Definition refreshValue (now vid : Z) (c : ValueCache) : ValueCache :=
  match om_find Z.ltb vid (vc_values c) with
  | None => c
  | Some v => vc_set_values (om_set Z.ltb vid (mkCV (cv_data v) now (now + type_expiration (cv_data v))) (vc_values c)) c
  end.

(** [expireValue]. *)
Definition expireValue (vid : Z) (c : ValueCache) : ValueCache * list cache_event :=
  match om_find Z.ltb vid (vc_values c) with
  | None => (c, [])
  | Some v => (vc_set_values (om_erase Z.ltb vid (vc_values c)) c, notify c [cv_data v] true)
  end.

Fixpoint expire_all (vids : list Z) (c : ValueCache) : ValueCache * list cache_event :=
  match vids with
  | [] => (c, [])
  | vid :: vids' =>
      let '(c1, e1) := expireValue vid c in let '(c2, e2) := expire_all vids' c1 in (c2, e1 ++ e2)
  end.

(** [onValues]. *)
Definition onValues (values : list vptr) (refreshed_values expired_values : list Z) (now : Z) (c : ValueCache) :
    option (ValueCache * Z * list cache_event) :=
  let '(c1, e1) := match values with [] => (c, []) | _ => addValues now values c end in
  let c2 := foldl (fun c vid => refreshValue now vid c) c1 refreshed_values in
  let '(c3, e3) := expire_all expired_values c2 in
  match expireValues now time_max c3 with
  | None => None
  | Some (c4, next, e4) => Some (c4, next, e1 ++ e3 ++ e4)
  end.
End ValueCache.

(** ** What a listener was told *)

Section Told.
Context {G : Gnutls} (deref : vptr -> Value).
Implicit Types (V : gmap Z vptr) (l : list (Z * CacheValueStorage)).

(** The view of a listener: the values it knows, by id.  It is told of values it does
    not know, and of the end of values it knows, in the very objects it was given. *)
Fixpoint learn (vals : list vptr) (V : gmap Z vptr) : option (gmap Z vptr) :=
  match vals with
  | [] => Some V
  | p :: vals' =>
      match V !! id_of deref p with
      | Some _ => None
      | None => learn vals' (<[id_of deref p := p]> V)
      end
  end.

Fixpoint forget (vals : list vptr) (V : gmap Z vptr) : option (gmap Z vptr) :=
  match vals with
  | [] => Some V
  | p :: vals' =>
      if bool_decide (V !! id_of deref p = Some p) then forget vals' (delete (id_of deref p) V) else None
  end.

Definition told (e : cache_event) (V : gmap Z vptr) : option (gmap Z vptr) :=
  match e with
  | VValues vals false => learn vals V
  | VValues vals true => forget vals V
  | VSync _ => Some V
  end.

Fixpoint replay (es : list cache_event) (V : gmap Z vptr) : option (gmap Z vptr) :=
  match es with
  | [] => Some V
  | e :: es' => V' ← told e V; replay es' V'
  end.

Lemma replay_app es1 es2 V : replay (es1 ++ es2) V = V' ← replay es1 V; replay es2 V'.
Proof.
  revert V. induction es1 as [|e es1 IH]; intros V; [done|]. cbn. destruct (told e V); cbn; [|done]. apply IH.
Qed.

Lemma learn_app v1 v2 V : learn (v1 ++ v2) V = V' ← learn v1 V; learn v2 V'.
Proof. revert V. induction v1 as [|p v1 IH]; intros V; [done|]. cbn. case_match; [done|]. apply IH. Qed.

Lemma forget_app v1 v2 V : forget (v1 ++ v2) V = V' ← forget v1 V; forget v2 V'.
Proof. revert V. induction v1 as [|p v1 IH]; intros V; [done|]. cbn. case_match; [|done]. apply IH. Qed.

Lemma forget_frame vals V V' k d :
  forget vals V = Some V' -> Forall (fun p => id_of deref p <> k) vals ->
  forget vals (<[k := d]> V) = Some (<[k := d]> V').
Proof.
  revert V. induction vals as [|p vals IH]; intros V Hf Hk; cbn in *; [by simplify_eq|].
  inversion_clear Hk as [|? ? Hp Hvals]. rewrite lookup_insert_ne by done.
  case_bool_decide; [|done]. rewrite delete_insert_ne by done. by apply IH.
Qed.

Lemma learn_learnt vals V V' k p : learn vals V = Some V' -> V !! k = Some p -> V' !! k = Some p.
Proof.
  revert V. induction vals as [|q vals IH]; intros V Hl Hk; cbn in *; [by simplify_eq|].
  destruct (V !! id_of deref q) eqn:E; [done|]. eapply IH; [exact Hl|].
  rewrite lookup_insert_ne; [done|congruence].
Qed.

(** The values of a cache as a view. *)
Definition contents (l : list (Z * CacheValueStorage)) : gmap Z vptr := zm_view cv_data l.

Lemma contents_lookup l k : zm_wf l -> contents l !! k = cv_data <$> om_find Z.ltb k l.
Proof. apply zm_view_lookup. Qed.

Lemma contents_set l k v : zm_wf l -> contents (om_set Z.ltb k v l) = <[k := cv_data v]> (contents l).
Proof. apply zm_view_set. Qed.

Lemma contents_erase l k : zm_wf l -> contents (om_erase Z.ltb k l) = delete k (contents l).
Proof. apply zm_view_erase. Qed.

(** The invariant of a cache: sorted by id, values under their id, creation dates that
    are dates. *)
Definition entry_ok (e : Z * CacheValueStorage) : Prop :=
  id_of deref (cv_data e.2) = e.1 /\ cv_created e.2 < time_max.
Definition values_ok (l : list (Z * CacheValueStorage)) : Prop := zm_wf l /\ Forall entry_ok l.

Lemma values_ok_cons e l :
  values_ok (e :: l) <-> entry_ok e /\ values_ok l /\ Forall (fun f => e.1 < f.1) l.
Proof.
  destruct e as [k v]. unfold values_ok, zm_wf. rewrite om_wf_cons, Forall_cons.
  assert (Forall (fun f : Z * CacheValueStorage => (k <? f.1) = true) l <-> Forall (fun f => k < f.1) l) as ->.
  { apply Forall_iff. intros. apply Z.ltb_lt. }
  cbn. naive_solver.
Qed.

Lemma values_ok_find l k v :
  values_ok l -> om_find Z.ltb k l = Some v -> id_of deref (cv_data v) = k /\ cv_created v < time_max.
Proof.
  intros [Hl Ho] Hf. apply zm_find_elem in Hf; [|done].
  rewrite Forall_forall in Ho. apply (Ho _ Hf).
Qed.

Lemma values_ok_set l v :
  values_ok l -> cv_created v < time_max -> values_ok (om_set Z.ltb (id_of deref (cv_data v)) v l).
Proof.
  intros [Hl Ho] Hv. split; [by auto with vb_wf|]. rewrite Forall_forall in *. intros [k x] Hin.
  apply zm_find_elem in Hin; [|by apply zm_set_wf].
  destruct (decide (k = id_of deref (cv_data v))) as [-> |Hne].
  - rewrite zm_find_set_eq in Hin by done. by simplify_eq.
  - rewrite zm_find_set_ne in Hin by done. apply zm_find_elem in Hin; [|done].
    by apply Ho.
Qed.

Lemma values_ok_erase l k : values_ok l -> values_ok (om_erase Z.ltb k l).
Proof.
  intros [Hl Ho]. split; [by auto with vb_wf|]. rewrite Forall_forall in *. intros e He.
  apply Ho. by eapply (om_erase_sub Z.ltb (fun _ => True)).
Qed.

Definition vc_ok (c : ValueCache) : Prop := values_ok (vc_values c).
Definition vc_view (c : ValueCache) : gmap Z vptr := contents (vc_values c).

(** An operation keeps the invariant and tells the listener the change it makes, and
    nothing else. *)
Definition is_values (e : cache_event) : Prop := match e with VValues _ _ => True | VSync _ => False end.

Lemma notify_values c vals b : Forall is_values (notify c vals b).
Proof. destruct vals; cbn; [done|]. case_match; by repeat constructor. Qed.

Definition faithful (c c' : ValueCache) (es : list cache_event) : Prop :=
  vc_ok c' /\ vc_callback c' = vc_callback c /\ vc_sync c' = vc_sync c /\ vc_status c' = vc_status c /\
  Forall is_values es /\ (vc_callback c = true -> replay es (vc_view c) = Some (vc_view c')).

Lemma faithful_refl c : vc_ok c -> faithful c c [].
Proof. intros. by split_and!. Qed.

Lemma faithful_trans c1 c2 c3 e1 e2 :
  faithful c1 c2 e1 -> faithful c2 c3 e2 -> faithful c1 c3 (e1 ++ e2).
Proof.
  intros (H1 & A1 & B1 & C1 & E1 & D1) (H2 & A2 & B2 & C2 & E2 & D2).
  split_and!; [done|congruence..|by apply Forall_app|].
  intros Hc. rewrite replay_app, D1 by done. cbn. apply D2. congruence.
Qed.

Lemma replay_notify_learn c vals V V' :
  learn vals V = Some V' -> vc_callback c = true -> replay (notify c vals false) V = Some V'.
Proof. intros Hl Hc. destruct vals; cbn; [done|]. rewrite Hc. cbn in *. by rewrite Hl. Qed.

Lemma replay_notify_forget c vals V V' :
  forget vals V = Some V' -> vc_callback c = true -> replay (notify c vals true) V = Some V'.
Proof. intros Hl Hc. destruct vals; cbn; [done|]. rewrite Hc. cbn in *. by rewrite Hl. Qed.

(** *** Expiration *)

Lemma contents_cons (e : Z * CacheValueStorage) l : contents (e :: l) = <[e.1 := cv_data e.2]> (contents l).
Proof. done. Qed.

Lemma contents_above (k : Z) l : Forall (fun f => k < f.1) l -> contents l !! k = None.
Proof.
  induction 1 as [|f l Hf Hl IH]; [apply lookup_empty|]. rewrite contents_cons, lookup_insert_ne by lia. done.
Qed.

Lemma expire_scan_spec now l next keep out n :
  values_ok l -> expire_scan now l next = (keep, out, n) ->
  keep = List.filter (fun e => now <? cv_expiration e.2) l /\
  forget out (contents l) = Some (contents keep) /\
  Forall (fun p => exists e, e ∈ l /\ p = cv_data e.2 /\ cv_expiration e.2 <= now) out /\
  n <= next /\ Forall (fun e => n <= cv_expiration e.2) keep.
Proof.
  revert next keep out n. induction l as [|e l IH]; intros next keep out n Hl; cbn [expire_scan List.filter].
  { intros [= <- <- <-]. split_and!; [done..|lia|done]. }
  apply values_ok_cons in Hl as ([He _] & Hl & Habove). rewrite contents_cons.
  assert (Forall (fun p => exists f, f ∈ l /\ p = cv_data f.2 /\ cv_expiration f.2 <= now) out ->
    Forall (fun p => id_of deref p <> e.1) out) as Hids.
  { intros H. eapply Forall_impl; [exact H|]. intros p (f & Hf & -> & _).
    destruct Hl as [_ Ho]. rewrite Forall_forall in Ho, Habove. destruct (Ho f Hf) as [-> _].
    specialize (Habove f Hf). cbn in *. lia. }
  destruct (Z.leb_spec (cv_expiration e.2) now) as [Hle|Hgt].
  - destruct (expire_scan now l next) as [[keep' out'] n'] eqn:E. intros [= <- <- <-].
    destruct (IH _ _ _ _ Hl E) as (-> & Hf & Ho & Hn & Hk).
    rewrite (proj2 (Z.ltb_ge _ _) Hle). split_and!; [done| | |done|done].
    + cbn. rewrite He, lookup_insert_eq, bool_decide_true by done.
      rewrite delete_insert_id by (by apply contents_above). done.
    + constructor; [exists e; set_solver|]. eapply Forall_impl; [exact Ho|]. set_solver.
  - destruct (expire_scan now l _) as [[keep' out'] n'] eqn:E. intros [= <- <- <-].
    destruct (IH _ _ _ _ Hl E) as (-> & Hf & Ho & Hn & Hk).
    rewrite (proj2 (Z.ltb_lt _ _) Hgt). split_and!; [done| | |lia|].
    + rewrite contents_cons. by apply forget_frame; [|apply Hids].
    + eapply Forall_impl; [exact Ho|]. set_solver.
    + constructor; [lia|done].
Qed.

Lemma find_oldest_spec l t best :
  match find_oldest l t best with
  | Some e => (Some e = best \/ e ∈ l) /\
      ((cv_created e.2 < t /\ e ∈ l) \/ Some e = best) /\
      Forall (fun f => cv_created e.2 <= cv_created f.2 \/ t <= cv_created f.2) l
  | None => best = None /\ Forall (fun f => t <= cv_created f.2) l
  end.
Proof.
  revert t best. induction l as [|e l IH]; intros t best; cbn.
  { destruct best; [split_and!; auto|auto]. }
  destruct (Z.ltb_spec (cv_created e.2) t).
  - specialize (IH (cv_created e.2) (Some e)). destruct (find_oldest l _ _) as [f|]; [|by destruct IH].
    destruct IH as (H1 & H2 & H3). split_and!.
    + right. destruct H1 as [[= ->]|]; set_solver.
    + left. destruct H2 as [[? ?]|[= ->]]; (split; [lia|set_solver]).
    + constructor; [destruct H2 as [[? ?]|[= ->]]; lia|]. eapply Forall_impl; [exact H3|]. cbn. intros x Hx.
      destruct H2 as [[? ?]|[= ->]]; lia.
  - specialize (IH t best). destruct (find_oldest l _ _) as [f|].
    + destruct IH as (H1 & H2 & H3). split_and!; [set_solver|set_solver|]. constructor; [lia|done].
    + destruct IH. split; [done|]. by constructor.
Qed.

Lemma length_om_erase (k : Z) (v : CacheValueStorage) l :
  zm_wf l -> (k, v) ∈ l -> S (length (om_erase Z.ltb k l)) = length l.
Proof.
  unfold zm_wf. induction l as [|[k' v'] l IH]; [set_solver|]. rewrite om_wf_cons.
  intros (_ & Hl & Habove) [[= -> ->]|Hin]%elem_of_cons; cbn; [by rewrite Z.ltb_irrefl|].
  rewrite Forall_forall in Habove. pose proof (Habove _ Hin) as Hlt. cbn in Hlt. zb.
  destruct (Z.ltb_spec k k'), (Z.ltb_spec k' k); try lia. cbn. by rewrite IH.
Qed.

(** The oldest values go, until the cache is small enough. *)
Lemma trim_spec fuel l out :
  values_ok l -> (length l <= fuel)%nat ->
  exists keep gone, trim fuel l out = Some (keep, out ++ gone) /\
    values_ok keep /\ (length keep <= MAX_CACHE_VALUES)%nat /\
    (forall e, e ∈ keep -> e ∈ l) /\
    ((length l <= MAX_CACHE_VALUES)%nat -> keep = l /\ gone = []) /\
    forget gone (contents l) = Some (contents keep).
Proof.
  revert l out. induction fuel as [|fuel IH]; intros l out Hl Hf; cbn [trim];
    destruct (Nat.ltb_spec MAX_CACHE_VALUES (length l)) as [Hlt|Hge];
    try (exists l, []; rewrite app_nil_r; by split_and!); [lia|].
  pose proof (find_oldest_spec l time_max None) as Ho.
  destruct (find_oldest l time_max None) as [e|].
  2:{ destruct Ho as [_ Ho]. destruct l as [|f l]; [cbn in Hlt; lia|]. inversion_clear Ho.
      apply values_ok_cons in Hl as ([_ ?] & _). lia. }
  destruct Ho as ([|He] & _ & _); [done|]. destruct e as [k v]. cbn [fst snd].
  pose proof (length_om_erase k v l (proj1 Hl) He) as Hlen.
  destruct (IH (om_erase Z.ltb k l) (out ++ [cv_data v])) as (keep & gone & -> & Hk & Hk1 & Hk2 & Hk3 & Hk4);
    [by apply values_ok_erase|lia|].
  exists keep, (cv_data v :: gone). split_and!; [by rewrite <- app_assoc|done|done| |lia|].
  - intros f Hfk. apply (om_erase_sub Z.ltb (fun _ => True) k). auto.
  - assert (om_find Z.ltb k l = Some v) as Hfind.
    { apply zm_find_elem; [apply Hl|done]. }
    destruct (values_ok_find _ _ _ Hl Hfind) as [Hid _]. cbn.
    rewrite Hid, contents_lookup, Hfind, bool_decide_true by (done || apply Hl).
    by rewrite <- contents_erase by apply Hl.
Qed.

Lemma expireValues_spec now next c :
  vc_ok c ->
  exists c' n es, expireValues now next c = Some (c', n, es) /\ faithful c c' es /\
    (length (vc_values c') <= MAX_CACHE_VALUES)%nat /\
    Forall (fun e => now < cv_expiration e.2 /\ n <= cv_expiration e.2) (vc_values c') /\ n <= next /\
    (forall k p, vc_view c' !! k = Some p -> vc_view c !! k = Some p) /\
    ((length (vc_values c) <= MAX_CACHE_VALUES)%nat ->
     vc_values c' = List.filter (fun e => now <? cv_expiration e.2) (vc_values c)).
Proof.
  intros Hc. unfold expireValues. destruct (expire_scan now (vc_values c) next) as [[keep out] n] eqn:E.
  destruct (expire_scan_spec _ _ _ _ _ _ Hc E) as (Hkeep & Hf & _ & Hn & Hkn).
  assert (values_ok keep) as Hko.
  { rewrite Hkeep. assert (forall (p : _ -> bool) l, List.filter p l `sublist_of` l) as Hsub.
    { intros p l. induction l; cbn; [done|]. case_match; by constructor. }
    destruct Hc as [Hc1 Hc2]. split; [|eapply Forall_sublist_of; [apply Hsub|done]].
    eapply om_wf_sublist; [apply Hsub|done]. }
  destruct (trim_spec (length keep) keep out Hko (le_n _)) as (keep' & gone & -> & H1 & H2 & H3 & H4 & H5).
  do 3 eexists. split; [done|]. cbn [vc_set_values vc_values]. split_and!.
  - split_and!; [done..|apply notify_values|]. intros Hcb. apply replay_notify_forget; [|done].
    rewrite forget_app. unfold vc_view. rewrite Hf. cbn. done.
  - done.
  - rewrite Forall_forall in *. intros e He. pose proof (H3 _ He) as Hin. split; [|by apply Hkn].
    rewrite Hkeep in Hin. apply list_elem_of_In, List.filter_In in Hin as [_ Hin]. by zb.
  - done.
  - intros k p. unfold vc_view. cbn [vc_values]. rewrite !contents_lookup by (apply Hc || apply H1). rewrite !fmap_Some.
    intros (v & Hv & ->). exists v. split; [|done].
    apply zm_find_elem; [apply Hc|].
    apply zm_find_elem in Hv; [|apply H1]. apply H3 in Hv.
    rewrite Hkeep in Hv. by apply list_elem_of_In, List.filter_In in Hv as [?%list_elem_of_In _].
  - intros Hlen. destruct H4 as [-> _]; [|done]. rewrite Hkeep. etrans; [|exact Hlen].
    apply List.filter_length_le.
Qed.

(** *** New, refreshed and removed values *)

Context (types : list (Z * Z)).

Lemma refresh_contents l k v created expiration :
  zm_wf l -> om_find Z.ltb k l = Some v ->
  contents (om_set Z.ltb k (mkCV (cv_data v) created expiration) l) = contents l.
Proof.
  intros Hl Hf. rewrite contents_set by done. apply insert_id. by rewrite contents_lookup, Hf.
Qed.

Lemma add_loop_spec now new_values l nvals l' nvals' :
  values_ok l -> now < time_max -> add_loop deref types now new_values l nvals = (l', nvals') ->
  exists nv, nvals' = nvals ++ nv /\ values_ok l' /\ learn nv (contents l) = Some (contents l') /\
    (forall p, p ∈ nv -> p ∈ new_values) /\
    (forall p, p ∈ new_values -> is_Some (contents l' !! id_of deref p)).
Proof.
  intros Hl Hnow. revert l nvals Hl. induction new_values as [|p vs IH]; intros l nvals Hl; cbn [add_loop].
  { intros [= <- <-]. exists []. rewrite app_nil_r. split_and!; [done..|set_solver|set_solver]. }
  unfold om_emplace. destruct (om_find Z.ltb (id_of deref p) l) as [v|] eqn:E.
  - destruct (values_ok_find _ _ _ Hl E) as [Hid _]. intros H.
    destruct (IH _ _ (values_ok_set l (mkCV (cv_data v) now _) Hl Hnow) ltac:(cbn; rewrite Hid; exact H))
      as (nv & -> & H1 & H2 & H3 & H4). cbn in H2. rewrite Hid in H2.
    rewrite refresh_contents in H2 by (done || apply Hl).
    exists nv. split_and!; [done..|set_solver|]. intros q [-> |Hq]%elem_of_cons; [|auto].
    exists (cv_data v). eapply learn_learnt; [exact H2|]. rewrite contents_lookup, E by apply Hl. done.
  - intros H. cbn [fst] in H. destruct (IH _ _ (values_ok_set l (mkCV p now _) Hl Hnow) H)
      as (nv & -> & H1 & H2 & H3 & H4). rewrite contents_set in H2 by apply Hl. cbn in H2.
    exists (p :: nv). split_and!; [by rewrite <- app_assoc|done| |set_solver|].
    + cbn. by rewrite contents_lookup, E by apply Hl.
    + intros q [-> |Hq]%elem_of_cons; [|auto].
      exists p. eapply learn_learnt; [exact H2|]. apply lookup_insert_eq.
Qed.

Lemma addValues_faithful now vals c c' es :
  vc_ok c -> now < time_max -> addValues deref types now vals c = (c', es) ->
  faithful c c' es /\ forall p, p ∈ vals -> is_Some (vc_view c' !! id_of deref p).
Proof.
  intros Hc Hnow. unfold addValues. destruct (add_loop _ _ _ _ _ _) as [l nv] eqn:E. intros [= <- <-].
  destruct (add_loop_spec _ _ _ _ _ _ Hc Hnow E) as (nv' & -> & H1 & H2 & _ & H3).
  split; [|done]. split_and!; [done..|apply notify_values|]. intros Hcb. by apply replay_notify_learn.
Qed.

Lemma refreshValue_faithful now vid c :
  vc_ok c -> now < time_max ->
  faithful c (refreshValue deref types now vid c) [] /\ vc_view (refreshValue deref types now vid c) = vc_view c.
Proof.
  intros Hc Hnow. unfold refreshValue. destruct (om_find _ _ _) as [v|] eqn:E; [|by split; [apply faithful_refl|]].
  destruct (values_ok_find _ _ _ Hc E) as [Hid _].
  assert (vc_view (vc_set_values (om_set Z.ltb vid (mkCV (cv_data v) now
    (now + getType types (v_type (deref (cv_data v))))) (vc_values c)) c) = vc_view c) as Hv.
  { unfold vc_view. cbn. by apply refresh_contents; [apply Hc|]. }
  split; [|done]. split_and!; [|done..|intros _; cbn [replay]; by rewrite Hv].
  rewrite <- Hid. by apply (values_ok_set _ (mkCV (cv_data v) now _)).
Qed.

Lemma refresh_all_faithful now vids c :
  vc_ok c -> now < time_max ->
  faithful c (foldl (fun c vid => refreshValue deref types now vid c) c vids) [] /\
  vc_view (foldl (fun c vid => refreshValue deref types now vid c) c vids) = vc_view c.
Proof.
  intros Hc Hnow. revert c Hc. induction vids as [|vid vids IH]; intros c Hc; cbn [foldl].
  { by split; [apply faithful_refl|]. }
  destruct (refreshValue_faithful now vid c Hc Hnow) as [F1 V1].
  destruct (IH _ (proj1 F1)) as [F2 V2]. split; [|congruence]. by apply (faithful_trans _ _ _ [] [] F1 F2).
Qed.

Lemma expireValue_faithful vid c c' es :
  vc_ok c -> expireValue vid c = (c', es) -> faithful c c' es /\ vc_view c' = delete vid (vc_view c).
Proof.
  intros Hc. unfold expireValue. destruct (om_find _ _ _) as [v|] eqn:E; intros [= <- <-].
  - destruct (values_ok_find _ _ _ Hc E) as [Hid _]. unfold vc_view.
    split; [|by apply contents_erase, Hc]. split_and!; [by apply values_ok_erase|done..|apply (notify_values c [cv_data v])|].
    intros Hcb. apply (replay_notify_forget c [cv_data v]); [|done]. cbn [forget]. unfold vc_view.
    rewrite Hid, contents_lookup, E, bool_decide_true by (done || apply Hc). cbn [vc_set_values vc_values].
    by rewrite contents_erase by apply Hc.
  - split; [by apply faithful_refl|]. symmetry. apply delete_id. unfold vc_view.
    by rewrite contents_lookup, E by apply Hc.
Qed.

Lemma expire_all_faithful vids c c' es :
  vc_ok c -> expire_all vids c = (c', es) ->
  faithful c c' es /\ forall k, vc_view c' !! k = if decide (k ∈ vids) then None else vc_view c !! k.
Proof.
  revert c c' es. induction vids as [|vid vids IH]; intros c c' es Hc; cbn [expire_all].
  { intros [= <- <-]. split; [by apply faithful_refl|]. intros k. by rewrite decide_False by set_solver. }
  destruct (expireValue vid c) as [c1 e1] eqn:E1. destruct (expire_all vids c1) as [c2 e2] eqn:E2.
  intros [= <- <-]. destruct (expireValue_faithful _ _ _ _ Hc E1) as [F1 V1].
  destruct (IH _ _ _ (proj1 F1) E2) as [F2 V2]. split; [by eapply faithful_trans|]. intros k.
  rewrite V2, V1. destruct (decide (k = vid)) as [-> |Hne].
  - rewrite lookup_delete_eq, (decide_True (P := vid ∈ vid :: _)) by set_solver. by case_decide.
  - rewrite lookup_delete_ne by done. repeat case_decide; set_solver.
Qed.

Lemma onValues_ok vals refreshed expired now c :
  vc_ok c -> now < time_max ->
  exists c' next es, onValues deref types vals refreshed expired now c = Some (c', next, es) /\
    faithful c c' es /\ (length (vc_values c') <= MAX_CACHE_VALUES)%nat /\
    (forall k, k ∈ expired -> vc_view c' !! k = None) /\
    Forall (fun e => now < cv_expiration e.2 /\ next <= cv_expiration e.2) (vc_values c').
Proof.
  intros Hc Hnow. unfold onValues.
  destruct (match vals with [] => (c, []) | _ => addValues deref types now vals c end) as [c1 e1] eqn:E1.
  assert (faithful c c1 e1) as F1.
  { destruct vals; [simplify_eq; by apply faithful_refl|]. by eapply addValues_faithful. }
  set (c2 := foldl _ c1 refreshed). destruct (expire_all expired c2) as [c3 e3] eqn:E3.
  destruct (refresh_all_faithful now refreshed c1 (proj1 F1) Hnow) as [F2 _]. fold c2 in F2.
  destruct (expire_all_faithful _ _ _ _ (proj1 F2) E3) as [F3 V3].
  destruct (expireValues_spec now time_max c3 (proj1 F3)) as (c4 & next & e4 & -> & F4 & H1 & H2 & _ & H3 & _).
  do 3 eexists. split; [done|]. split_and!; [|done| |done].
  - eapply faithful_trans; [exact F1|]. eapply (faithful_trans _ _ _ [] _ F2), faithful_trans; [exact F3|exact F4].
  - intros k Hk. destruct (vc_view c4 !! k) as [p|] eqn:Ek; [|done].
    apply H3 in Ek. rewrite V3, decide_True in Ek by done. done.
Qed.

Lemma forget_contents l : values_ok l -> forget (map (fun e => cv_data e.2) l) (contents l) = Some ∅.
Proof.
  induction l as [|e l IH]; intros Hl; [done|]. apply values_ok_cons in Hl as ([He _] & Hl & Habove).
  rewrite contents_cons. cbn. rewrite He, lookup_insert_eq, bool_decide_true by done.
  rewrite delete_insert_id by (by apply contents_above). auto.
Qed.

Lemma vc_clear_faithful c :
  vc_ok c -> faithful c (vc_clear c).1 (vc_clear c).2 /\ vc_view (vc_clear c).1 = ∅.
Proof.
  intros Hc. split; [|done]. split_and!; [|done..|apply notify_values|].
  - split; [apply zm_wf_nil|constructor].
  - intros Hcb. apply replay_notify_forget; [|done]. by apply forget_contents.
Qed.

(** *** A cache in use *)

Inductive vc_op :=
| OpValues (vals : list vptr) (refreshed expired : list Z) (now : Z)
| OpExpire (now : Z)
| OpClear
| OpSynced (synced : bool).

Definition vc_step (o : vc_op) (c : ValueCache) : option (ValueCache * list cache_event) :=
  match o with
  | OpValues vals refreshed expired now =>
      '(c', _, es) ← onValues deref types vals refreshed expired now c; Some (c', es)
  | OpExpire now => '(c', _, es) ← expireValues now time_max c; Some (c', es)
  | OpClear => Some (vc_clear c)
  | OpSynced b => Some (onSynced b c)
  end.

Fixpoint vc_run (ops : list vc_op) (c : ValueCache) : option (ValueCache * list cache_event) :=
  match ops with
  | [] => Some (c, [])
  | o :: ops' =>
      '(c1, e1) ← vc_step o c; '(c2, e2) ← vc_run ops' c1; Some (c2, e1 ++ e2)
  end.

(** Times are dates of the clock. *)
Definition op_time (o : vc_op) : Prop :=
  match o with OpValues _ _ _ now | OpExpire now => now < time_max | _ => True end.

Lemma vc_step_ok o c :
  vc_ok c -> op_time o ->
  exists c' es, vc_step o c = Some (c', es) /\ vc_ok c' /\ vc_callback c' = vc_callback c /\
    vc_sync c' = vc_sync c /\
    (vc_callback c = true -> replay es (vc_view c) = Some (vc_view c')).
Proof.
  intros Hc Ho. destruct o as [vals refreshed expired now|now| |b]; cbn.
  - destruct (onValues_ok vals refreshed expired now c Hc Ho) as (c' & n & es & -> & (? & ? & ? & ? & ? & ?) & _).
    cbn. eauto 10.
  - destruct (expireValues_spec now time_max c Hc) as (c' & n & es & -> & (? & ? & ? & ? & ? & ?) & _).
    cbn. eauto 10.
  - destruct (vc_clear_faithful c Hc) as [(? & ? & ? & ? & ? & ?) _]. do 2 eexists. split; [done|]. auto.
  - unfold onSynced. case_bool_decide; [by eauto 10|]. do 2 eexists. split; [done|]. split_and!; [done..|].
    intros _. by destruct (vc_sync c).
Qed.

Lemma vc_run_ok ops c :
  vc_ok c -> Forall op_time ops ->
  exists c' es, vc_run ops c = Some (c', es) /\ vc_ok c' /\ vc_callback c' = vc_callback c /\
    vc_sync c' = vc_sync c /\
    (vc_callback c = true -> replay es (vc_view c) = Some (vc_view c')).
Proof.
  intros Hc Hops. revert c Hc. induction Hops as [|o ops Ho Hops IH]; intros c Hc; cbn; [by eauto 10|].
  destruct (vc_step_ok o c Hc Ho) as (c1 & e1 & -> & H1 & C1 & S1 & R1). cbn.
  destruct (IH c1 H1) as (c2 & e2 & -> & H2 & C2 & S2 & R2). cbn.
  do 2 eexists. split; [done|]. split_and!; [done|congruence..|]. intros Hcb.
  rewrite replay_app, R1 by done. cbn. apply R2. congruence.
Qed.

Lemma replay_destroy c : vc_ok c -> vc_callback c = true -> replay (ValueCache_destroy c) (vc_view c) = Some ∅.
Proof.
  intros Hc Hcb. unfold ValueCache_destroy. rewrite replay_app.
  destruct (vc_clear_faithful c Hc) as [(_ & _ & _ & _ & _ & R) V]. rewrite R by done. rewrite V. cbn.
  by destruct (vc_sync c); [case_bool_decide|].
Qed.

(** C37. A [ValueCache] refines the set of values a node holds for a listener: whatever
    answers, refreshes, expirations and changes of synchronisation it sees, every
    operation ends, and the callbacks replayed in order tell the listener exactly the
    values the cache holds: a value is announced when it is not known, its end is
    announced with the object that was given, and the destructor announces the end of
    all that is left. *)
Theorem value_cache_tells scb ops :
  Forall op_time ops ->
  let '(c0, e0) := ValueCache_make true scb in
  exists c es, vc_run ops c0 = Some (c, es) /\
    replay (e0 ++ es) ∅ = Some (vc_view c) /\
    replay (e0 ++ es ++ ValueCache_destroy c) ∅ = Some ∅.
Proof.
  intros Hops. cbn. destruct (vc_run_ok ops (mkVC [] true scb UNSYNCED)) as (c & es & -> & Hc & Hcb & _ & R);
    [by split; [apply zm_wf_nil|constructor]|done|].
  specialize (R eq_refl). exists c, es. split; [done|].
  assert (forall es', replay ((if scb then [VSync ADDED] else []) ++ es') ∅ = replay es' ∅) as Hsync
    by (by destruct scb).
  rewrite !Hsync, replay_app. unfold vc_view in R at 1. cbn in R. rewrite R. cbn.
  split; [done|]. by apply replay_destroy.
Qed.

(** [onValues] applies an answer and leaves the cache clean: the values the answer
    ends are gone, at most 4096 values are left, none of them has expired, and the time
    it returns is not after the expiration of any of them. *)
Theorem onValues_spec vals refreshed expired now c :
  vc_ok c -> now < time_max ->
  exists c' next es, onValues deref types vals refreshed expired now c = Some (c', next, es) /\
    vc_ok c' /\ (length (vc_values c') <= MAX_CACHE_VALUES)%nat /\
    (forall k, k ∈ expired -> vc_view c' !! k = None) /\
    Forall (fun e => now < cv_expiration e.2 /\ next <= cv_expiration e.2) (vc_values c').
Proof.
  intros Hc Hnow. destruct (onValues_ok vals refreshed expired now c Hc Hnow)
    as (c' & next & es & E & F & H). exists c', next, es. split; [done|]. split; [apply F|done].
Qed.

(** A value that changed is not told: when a node announces a value under an id the
    cache knows, the cache takes it for a refresh, whatever its contents, and the
    listener keeps the old object. *)
Theorem changed_value_untold now p c v :
  vc_ok c -> om_find Z.ltb (id_of deref p) (vc_values c) = Some v ->
  now < time_max ->
  exists c', addValues deref types now [p] c = (c', []) /\ vc_view c' = vc_view c /\
    vc_view c' !! id_of deref p = Some (cv_data v).
Proof.
  intros Hc Hf Hnow. unfold addValues. cbn. rewrite Hf. eexists. split; [done|].
  assert (vc_view (vc_set_values (om_set Z.ltb (id_of deref p) (mkCV (cv_data v) now
    (now + getType types (v_type (deref (cv_data v))))) (vc_values c)) c) = vc_view c) as ->.
  { by apply refresh_contents; [apply Hc|]. }
  split; [done|]. unfold vc_view. by rewrite contents_lookup, Hf by apply Hc.
Qed.
End Told.

(** ** Examples *)

(** Two values, one refreshed, the other removed; then all expire. *)
Lemma value_cache_tells_witness :
  exists c es, vc_run StorageDemo.heap [] [OpValues [1%positive; 2%positive] [1] [2] 5; OpExpire (minutes 60)]
      (mkVC [] true true UNSYNCED) = Some (c, es) /\
    replay StorageDemo.heap (es ++ ValueCache_destroy c) ∅ = Some ∅.
Proof.
  destruct (value_cache_tells StorageDemo.heap [] true
    [OpValues [1%positive; 2%positive] [1] [2] 5; OpExpire (minutes 60)]) as (c & es & H1 & _ & H2).
  { repeat constructor. }
  exists c, es. split; [exact H1|exact H2].
Defined.

Definition small_cache : ValueCache := mkVC [(1, mkCV 1 0 (minutes 10)); (2, mkCV 2 0 3)] true true UNSYNCED.

Lemma small_cache_ok : vc_ok StorageDemo.heap small_cache.
Proof. split; [split|]; repeat constructor. Qed.

Lemma onValues_spec_witness :
  exists c' next es, onValues StorageDemo.heap [] [3%positive] [] [1] 5 small_cache = Some (c', next, es) /\
    Forall (fun e => 5 < cv_expiration e.2 /\ next <= cv_expiration e.2) (vc_values c').
Proof.
  destruct (onValues_spec StorageDemo.heap [] [3%positive] [] [1] 5 small_cache) as (c' & next & es & H1 & _ & _ & _ & H2);
    [exact small_cache_ok|reflexivity|]. exists c', next, es. split; [exact H1|exact H2].
Defined.

(** Value 1 and an edited copy of it under the same id. *)
Definition edited_heap (p : positive) : @Value GnutlsDemo.demo :=
  @mkValue GnutlsDemo.demo 1 None (Hash_zero HASH_LEN) 0 [Zpos p] [] 0 [] [] (Zpos p).

Lemma changed_value_untold_witness :
  exists c', addValues edited_heap [] 5 [2%positive] (mkVC [(1, mkCV 1 0 (minutes 10))] true true UNSYNCED) = (c', []) /\
    vc_view c' !! 1 = Some 1%positive.
Proof.
  destruct (changed_value_untold edited_heap [] 5 2 (mkVC [(1, mkCV 1 0 (minutes 10))] true true UNSYNCED)
    (mkCV 1 0 (minutes 10))) as (c' & H1 & _ & H2).
  - split; [split|]; repeat constructor.
  - reflexivity.
  - reflexivity.
  - exists c'. split; [exact H1|exact H2].
Defined.
