(* ===== verification/OpCache.v ===== *)
(** * OpCache: the listen operations of a search

    Models src/opendht-2.1.4/src/op_cache.h and src/op_cache.cpp.  An [OpValueCache]
    merges what several nodes announce, counting the nodes that hold each value; an
    [OpCache] passes the changes on to the listeners of a query; a [SearchCache] keeps
    the operations of a search by query.  Queries are shared by pointer, and the map of
    operations is ordered by pointer: [qderef] reads them. *)
From S2P Require Import Prelude StdMap InfoHash Node Value Query Storage DhtStorage ValueCache.

Abbreviation qptr := positive (only parsing).

#[export] Instance Pos_key_order : KeyOrder Pos.ltb (fun _ => True).
Proof.
  split; intros.
  - apply Pos.ltb_irrefl.
  - rewrite !Pos.ltb_lt in *. lia.
  - rewrite !Pos.ltb_ge in *. lia.
Qed.

(** [OpCacheValueStorage]; [refCount] is [unsigned]. *)
Record OpCacheValueStorage := mkOV { ov_data : vptr; ov_refCount : Z; ov_updated : Z }.

(** [class OpValueCache]. *)
Record OpValueCache := mkOVC {
  oc_nodes : Z;
  oc_synced : Z;
  oc_values : list (Z * OpCacheValueStorage);
}.

Definition OpValueCache_make : OpValueCache := mkOVC 0 0 [].

Definition oc_set_values (l : list (Z * OpCacheValueStorage)) (c : OpValueCache) : OpValueCache :=
  mkOVC (oc_nodes c) (oc_synced c) l.

(** [onNodeChanged]; the counters are [size_t]. *)
Definition onNodeChanged (s : ListenSyncStatus) (c : OpValueCache) : OpValueCache :=
  match s with
  | ADDED => mkOVC (u64 (oc_nodes c + 1)) (oc_synced c) (oc_values c)
  | REMOVED => mkOVC (u64 (oc_nodes c - 1)) (oc_synced c) (oc_values c)
  | SYNCED => mkOVC (oc_nodes c) (u64 (oc_synced c + 1)) (oc_values c)
  | UNSYNCED => mkOVC (oc_nodes c) (u64 (oc_synced c - 1)) (oc_values c)
  end.

(** [isSynced]. *)
Definition isSynced (c : OpValueCache) : bool := (0 <? oc_nodes c) && (oc_synced c =? oc_nodes c).

(** The loop of [onValuesExpired], on ids: the values whose last node went. *)
Fixpoint expired_loop (t : Z) (vids : list Z) (l : list (Z * OpCacheValueStorage)) (out : list vptr) :
    list (Z * OpCacheValueStorage) * list vptr :=
  match vids with
  | [] => (l, out)
  | vid :: vids' =>
      match om_find Z.ltb vid l with
      | None => expired_loop t vids' l out
      | Some v =>
          if t <? ov_updated v then expired_loop t vids' l out
          else
            let n := u32 (ov_refCount v - 1) in
            if n =? 0 then expired_loop t vids' (om_erase Z.ltb vid l) (out ++ [ov_data v])
            else expired_loop t vids' (om_set Z.ltb vid (mkOV (ov_data v) n t) l) out
      end
  end.

(** [getValues]. *)
Definition getValues (c : OpValueCache) : list vptr := map (fun e => ov_data e.2) (oc_values c).

(** [get(id)]. *)
Definition oc_get_id (id : Z) (c : OpValueCache) : option vptr := ov_data <$> om_find Z.ltb id (oc_values c).

Section OpCache.
Context {G : Gnutls} (deref : vptr -> Value).

(** The loop of [onValuesAdded]: the values no node held before. *)
Fixpoint added_loop (t : Z) (vals : list vptr) (l : list (Z * OpCacheValueStorage)) (nv : list vptr) :
    list (Z * OpCacheValueStorage) * list vptr :=
  match vals with
  | [] => (l, nv)
  | p :: vals' =>
      match om_find Z.ltb (id_of deref p) l with
      | None => added_loop t vals' (om_set Z.ltb (id_of deref p) (mkOV p 1 t) l) (nv ++ [p])
      | Some v =>
          added_loop t vals'
            (om_set Z.ltb (id_of deref p) (mkOV (ov_data v) (u32 (ov_refCount v + 1)) t) l) nv
      end
  end.

(** [onValuesAdded], [onValuesExpired] on values and on ids: the new state and the values
    the callback is called with, when there are some. *)
Definition onValuesAdded (t : Z) (vals : list vptr) (c : OpValueCache) : OpValueCache * list vptr :=
  let '(l, nv) := added_loop t vals (oc_values c) [] in (oc_set_values l c, nv).

Definition onValuesExpired_ids (t : Z) (vids : list Z) (c : OpValueCache) : OpValueCache * list vptr :=
  let '(l, out) := expired_loop t vids (oc_values c) [] in (oc_set_values l c, out).

Definition onValuesExpired (t : Z) (vals : list vptr) (c : OpValueCache) : OpValueCache * list vptr :=
  onValuesExpired_ids t (map (id_of deref) vals) c.

(** [onValue]: [cb] is the callback's answer; the calls made, and the result. *)
Definition oc_onValue (cb : list vptr -> bool -> bool) (t : Z) (vals : list vptr) (expired : bool)
    (c : OpValueCache) : OpValueCache * list (list vptr * bool) * bool :=
  let '(c', out) := if expired then onValuesExpired t vals c else onValuesAdded t vals c in
  match out with
  | [] => (c', [], true)
  | _ => (c', [(out, expired)], cb out expired)
  end.

(** [cacheCallback]: the cached callback, cancelled when [cb] refuses. *)
Definition cacheCallback (cb : list vptr -> bool -> bool) (vals : list vptr) (expired : bool)
    (c : OpValueCache) : OpValueCache * list (list vptr * bool) * bool * bool :=
  let '(c', calls, ret) := oc_onValue cb time_min vals expired c in (c', calls, ret, negb ret).

(** [get(filter)]. *)
Definition oc_get (f : Filter) (c : OpValueCache) : list vptr :=
  List.filter (fun p => passes f (deref p)) (map (fun e => ov_data e.2) (oc_values c)).

(** ** Listeners of a query *)

(** A call of the callback of a listener, by its token. *)
Record call := mkCall { call_token : Z; call_vals : list vptr; call_expired : bool }.

(** [class OpCache]. *)
Record OpCache := mkOp {
  op_cache : OpValueCache;
  op_listeners : list (Z * LocalListener);
  op_lastRemoved : Z;
  op_searchToken : Z;
}.

Definition OpCache_make (now searchToken : Z) : OpCache := mkOp OpValueCache_make [] now searchToken.

Definition op_set_cache (c : OpValueCache) (o : OpCache) : OpCache :=
  mkOp c (op_listeners o) (op_lastRemoved o) (op_searchToken o).
Definition op_set_listeners (l : list (Z * LocalListener)) (o : OpCache) : OpCache :=
  mkOp (op_cache o) l (op_lastRemoved o) (op_searchToken o).

Definition EXPIRATION : Z := seconds 60.

(** [OpCache::onValuesAdded] and [onValuesExpired]: every listener gets what passes
    its filter. *)
Definition op_tell (vals : list vptr) (expired : bool) (o : OpCache) : list call :=
  map (fun l => mkCall l.1 (List.filter (fun p => passes (ll_filter l.2) (deref p)) vals) expired)
      (op_listeners o).

(** [OpCache::onValue]: the callback of the cache always answers [true]. *)
Definition op_onValue (vals : list vptr) (expired : bool) (o : OpCache) : OpCache * list call * bool :=
  let '(c, calls, _) := oc_onValue (fun _ _ => true) time_min vals expired (op_cache o) in
  (op_set_cache c o, concat (map (fun e => op_tell e.1 e.2 o) calls),
   negb match op_listeners o with [] => true | _ => false end).

Definition op_onNodeChanged (s : ListenSyncStatus) (o : OpCache) : OpCache :=
  op_set_cache (onNodeChanged s (op_cache o)) o.

(** [addListener]: [answer] is what the callback returns on the cached values. *)
Definition addListener (answer : list vptr -> bool) (token : Z) (l : LocalListener) (o : OpCache) :
    OpCache * list call * bool :=
  let cached := oc_get (ll_filter l) (op_cache o) in
  let calls := match cached with [] => [] | _ => [mkCall token cached false] end in
  if match cached with [] => false | _ => negb (answer cached) end then (o, calls, false)
  else (op_set_listeners (om_emplace Z.ltb token l (op_listeners o)).1 o, calls, true).

(** [removeListener]. *)
Definition removeListener (token now : Z) (o : OpCache) : OpCache * bool :=
  (mkOp (op_cache o) (om_erase Z.ltb token (op_listeners o)) now (op_searchToken o),
   match om_find Z.ltb token (op_listeners o) with Some _ => true | None => false end).

Definition removeAll (o : OpCache) : OpCache := op_set_listeners [] o.
Definition isDone (o : OpCache) : bool := match op_listeners o with [] => true | _ => false end.

(** [isExpired] and [getExpiration]. *)
Definition op_isExpired (now : Z) (o : OpCache) : bool := isDone o && (op_lastRemoved o + EXPIRATION <? now).
Definition op_getExpiration (o : OpCache) : Z := if isDone o then op_lastRemoved o + EXPIRATION else time_max.

(** ** The operations of a search *)

Section SearchCache.
Context (qderef : qptr -> Query).

Record SearchCache := mkSC {
  sc_ops : list (qptr * OpCache);
  sc_nextToken : Z;
  sc_nextExpiration : Z;
}.

Definition SearchCache_make : SearchCache := mkSC [] 1 time_max.

(** [getOp]: the same query object, or the first one that satisfies the query. *)
Definition getOp (q : qptr) (s : SearchCache) : option (qptr * OpCache) :=
  match om_find Pos.ltb q (sc_ops s) with
  | Some o => Some (q, o)
  | None => List.find (fun e => isSatisfiedBy (qderef q) (qderef e.1)) (sc_ops s)
  end.

(** [listen]: [stoken] is the token [onListen] gives to a new operation, made at [now].
    The token, the calls, whether the search was told, the new state. *)
Definition sc_listen (answer : list vptr -> bool) (now stoken : Z) (q : qptr) (l : LocalListener)
    (s : SearchCache) : Z * list call * bool * SearchCache :=
  let '(k, o, ops, fresh) :=
    match getOp q s with
    | Some (k, o) => (k, o, sc_ops s, false)
    | None =>
        let o := OpCache_make now stoken in
        (q, o, (om_emplace Pos.ltb q o (sc_ops s)).1, true)
    end in
  let token := sc_nextToken s in
  let next := u64 (token + 1) in
  let next := if next =? 0 then u64 (next + 1) else next in
  let '(o', calls, ok) := addListener answer token l o in
  (if ok then token else 0, calls, fresh, mkSC (om_set Pos.ltb k o' ops) next (sc_nextExpiration s)).

(** The loop of [cancelListen]: every operation tried notes the time. *)
Fixpoint cancel_loop (gtoken now : Z) (ops : list (qptr * OpCache)) : list (qptr * OpCache) * option OpCache :=
  match ops with
  | [] => ([], None)
  | (k, o) :: ops' =>
      let '(o', found) := removeListener gtoken now o in
      if found then ((k, o') :: ops', Some o')
      else let '(ops'', r) := cancel_loop gtoken now ops' in ((k, o') :: ops'', r)
  end.

(** [cancelListen]. *)
Definition sc_cancelListen (gtoken now : Z) (s : SearchCache) : bool * SearchCache :=
  match cancel_loop gtoken now (sc_ops s) with
  | (ops, Some o) => (true, mkSC ops (sc_nextToken s) (Z.min (sc_nextExpiration s) (op_getExpiration o)))
  | (ops, None) => (false, mkSC ops (sc_nextToken s) (sc_nextExpiration s))
  end.

(** [cancelAll]: the search tokens given to [onCancel]. *)
Definition cancelAll (s : SearchCache) : list Z * SearchCache :=
  (map (fun e => op_searchToken e.2) (sc_ops s), mkSC [] (sc_nextToken s) (sc_nextExpiration s)).

(** The loop of [expire]: the operations kept, the tokens cancelled, the next
    expiration. *)
Fixpoint sc_expire_loop (now : Z) (ops : list (qptr * OpCache)) (next : Z) :
    list (qptr * OpCache) * list Z * Z :=
  match ops with
  | [] => ([], [], next)
  | (k, o) :: ops' =>
      if op_getExpiration o <? now then
        let '(keep, toks, n) := sc_expire_loop now ops' next in (keep, op_searchToken o :: toks, n)
      else
        let '(keep, toks, n) := sc_expire_loop now ops' (Z.min next (op_getExpiration o)) in
        ((k, o) :: keep, toks, n)
  end.

(** [expire]. *)
Definition sc_expire (now : Z) (s : SearchCache) : Z * list Z * SearchCache :=
  let '(keep, toks, n) := sc_expire_loop now (sc_ops s) time_max in
  (n, toks, mkSC keep (sc_nextToken s) n).

(** [get(filter, query, gcb, dcb)]: whether the operation is done, what [gcb] was called
    with; [dcb(true, {})] is called when it is. *)
Definition sc_get_op (gcb : list vptr -> bool) (f : Filter) (q : qptr) (s : SearchCache) : bool * option (list vptr) :=
  match getOp q s with
  | None => (false, None)
  | Some (_, o) =>
      let vals := oc_get f (op_cache o) in
      let call := match vals with [] => None | _ => Some vals end in
      let refused := match vals with [] => false | _ => negb (gcb vals) end in
      (refused || isSynced (op_cache o), call)
  end.

(** [get(filter)]: with several operations, the values by id, the first one winning. *)
Definition sc_get (f : Filter) (s : SearchCache) : list vptr :=
  match sc_ops s with
  | [(_, o)] => oc_get f (op_cache o)
  | ops =>
      map snd (foldl (fun (c : list (Z * vptr)) v => (om_emplace Z.ltb (id_of deref v) v c).1) []
                 (concat (map (fun e => oc_get f (op_cache e.2)) ops)))
  end.

(** [get(id)]. *)
Fixpoint sc_get_id_in (id : Z) (ops : list (qptr * OpCache)) : option vptr :=
  match ops with
  | [] => None
  | e :: ops' => match oc_get_id id (op_cache e.2) with Some v => Some v | None => sc_get_id_in id ops' end
  end.
Definition sc_get_id (id : Z) (s : SearchCache) : option vptr := sc_get_id_in id (sc_ops s).
End SearchCache.
End OpCache.

(** ** Counting the nodes that hold a value *)

Section Counting.
Context {G : Gnutls} (deref : vptr -> Value).

Definition has (V : gmap Z vptr) (id : Z) : Z := match V !! id with Some _ => 1 | None => 0 end.

(** How many of the views hold a value with the id. *)
Definition held (views : gmap positive (gmap Z vptr)) (id : Z) : Z :=
  Z.of_nat (size (filter (fun kv => is_Some (kv.2 !! id)) views)).

Lemma held_insert views n V id :
  views !! n = None -> held (<[n := V]> views) id = held views id + has V id.
Proof.
  intros Hn. unfold held, has. destruct (V !! id) as [p|] eqn:E.
  - rewrite map_filter_insert_True by (by eexists). rewrite map_size_insert_None; [lia|].
    apply map_lookup_filter_None. by left.
  - rewrite map_filter_insert_False by (cbn; rewrite E; by intros []).
    rewrite delete_id by done. lia.
Qed.

(** The entries count the nodes: [N] is what they should count. *)
Definition counts (l : list (Z * OpCacheValueStorage)) (N : Z -> Z) : Prop :=
  zm_wf l /\
  forall id, match om_find Z.ltb id l with
    | Some v => ov_refCount v = N id /\ 0 < N id /\ ov_updated v = time_min /\ id_of deref (ov_data v) = id
    | None => N id = 0
    end.

Definition op_view (l : list (Z * OpCacheValueStorage)) : gmap Z vptr := zm_view ov_data l.

Lemma counts_ext l N N' : (forall id, N id = N' id) -> counts l N -> counts l N'.
Proof. intros HN [Hl Hc]. split; [done|]. intros id. specialize (Hc id). by rewrite HN in Hc. Qed.

Lemma has_insert V p k : has (<[id_of deref p := p]> V) k = if decide (k = id_of deref p) then 1 else has V k.
Proof.
  unfold has. destruct (decide (k = id_of deref p)) as [-> |Hne].
  - by rewrite lookup_insert_eq.
  - by rewrite lookup_insert_ne.
Qed.

Lemma has_delete V i k : has (delete i V) k = if decide (k = i) then 0 else has V k.
Proof.
  unfold has. destruct (decide (k = i)) as [-> |Hne].
  - by rewrite lookup_delete_eq.
  - by rewrite lookup_delete_ne.
Qed.

(** Assigning and erasing an entry. *)
Lemma counts_set l N i v c :
  counts l N -> ov_refCount v = c -> 0 < c -> ov_updated v = time_min -> id_of deref (ov_data v) = i ->
  counts (om_set Z.ltb i v l) (fun k => if decide (k = i) then c else N k).
Proof.
  intros [Hl Hc] Hr Hp Hu Hi. split; [by apply zm_set_wf|]. intros k. destruct (decide (k = i)) as [-> |Hne].
  - by rewrite zm_find_set_eq.
  - rewrite zm_find_set_ne by done. apply Hc.
Qed.

Lemma counts_erase l N i :
  counts l N -> counts (om_erase Z.ltb i l) (fun k => if decide (k = i) then 0 else N k).
Proof.
  intros [Hl Hc]. split; [by apply zm_erase_wf|]. intros k. destruct (decide (k = i)) as [-> |Hne].
  - by rewrite zm_find_erase_eq.
  - rewrite zm_find_erase_ne by done. apply Hc.
Qed.

(** One node learns values: its view goes from [V] to [V'], the others count [M]. *)
Lemma added_loop_spec vals l nv l' nv' M V V' :
  counts l (fun id => M id + has V id) -> (forall id, 0 <= M id < 2 ^ 32 - 1) ->
  learn deref vals V = Some V' -> added_loop deref time_min vals l nv = (l', nv') ->
  counts l' (fun id => M id + has V' id) /\
  exists x, nv' = nv ++ x /\ learn deref x (op_view l) = Some (op_view l').
Proof.
  revert l nv V. induction vals as [|p vals IH]; intros l nv V Hc HM Hl; cbn [added_loop learn] in *.
  { intros [= <- <-]. simplify_eq. split; [done|]. exists []. by rewrite app_nil_r. }
  destruct (V !! id_of deref p) eqn:EV; [done|].
  pose proof Hc as [Hwf Hcnt]. specialize (Hcnt (id_of deref p)). pose proof (HM (id_of deref p)) as HMp.
  unfold has in Hcnt. rewrite EV in Hcnt.
  destruct (om_find Z.ltb (id_of deref p) l) as [v|] eqn:E; intros H.
  - destruct Hcnt as (Hr & Hpos & Hu & Hi).
    eapply (IH _ _ (<[id_of deref p := p]> V)) in H as [Hc' (x & -> & Hx)]; [| |done|done].
    + split; [done|]. exists x. split; [done|]. rewrite <- Hx. f_equal. unfold op_view.
      rewrite zm_view_set by done. cbn. symmetry. apply insert_id. by rewrite zm_view_lookup, E.
    + eapply counts_ext; [|apply (counts_set _ _ _ _ (M (id_of deref p) + 1) Hc); cbn; try done].
      * intros k. cbn. rewrite has_insert. by case_decide; subst.
      * rewrite Hr, wrap_small by lia. lia.
      * lia.
  - eapply (IH _ _ (<[id_of deref p := p]> V)) in H as [Hc' (x & -> & Hx)]; [| |done|done].
    + split; [done|]. exists (p :: x). split; [by rewrite <- app_assoc|]. cbn. unfold op_view in *.
      rewrite zm_view_set in Hx by done. by rewrite zm_view_lookup, E.
    + eapply counts_ext; [|apply (counts_set _ _ _ _ 1 Hc); cbn; (done || lia)].
      intros k. cbn. rewrite has_insert. case_decide; subst; lia.
Qed.

(** One node loses values. *)
Lemma expired_loop_spec vals l out l' out' M V V' :
  counts l (fun id => M id + has V id) -> (forall id, 0 <= M id < 2 ^ 32 - 1) ->
  forget deref vals V = Some V' ->
  expired_loop time_min (map (id_of deref) vals) l out = (l', out') ->
  counts l' (fun id => M id + has V' id) /\
  exists x, out' = out ++ x /\ forget deref x (op_view l) = Some (op_view l').
Proof.
  revert l out V. induction vals as [|p vals IH]; intros l out V Hc HM Hl; cbn [expired_loop map forget] in *.
  { intros [= <- <-]. simplify_eq. split; [done|]. exists []. by rewrite app_nil_r. }
  case_bool_decide as EV; [|done].
  pose proof Hc as [Hwf Hcnt]. specialize (Hcnt (id_of deref p)). pose proof (HM (id_of deref p)) as HMp.
  unfold has in Hcnt. rewrite EV in Hcnt.
  destruct (om_find Z.ltb (id_of deref p) l) as [v|] eqn:E; [|lia].
  destruct Hcnt as (Hr & Hpos & Hu & Hi). rewrite Hu, Z.ltb_irrefl, Hr, wrap_small by lia.
  destruct (Z.eqb_spec (M (id_of deref p) + 1 - 1) 0) as [H0|H0]; intros H.
  - eapply (IH _ _ (delete (id_of deref p) V)) in H as [Hc' (x & -> & Hx)]; [| |done|done].
    + split; [done|]. exists (ov_data v :: x). split; [by rewrite <- app_assoc|]. cbn. unfold op_view in *.
      rewrite zm_view_erase in Hx by done. rewrite Hi, zm_view_lookup, E by done.
      by rewrite bool_decide_true.
    + eapply counts_ext; [|apply (counts_erase _ _ _ Hc)].
      intros k. cbn. rewrite has_delete. case_decide; subst; lia.
  - eapply (IH _ _ (delete (id_of deref p) V)) in H as [Hc' (x & -> & Hx)]; [| |done|done].
    + split; [done|]. exists x. split; [done|]. rewrite <- Hx. f_equal. unfold op_view.
      rewrite zm_view_set by done. cbn. symmetry. apply insert_id. by rewrite zm_view_lookup, E.
    + eapply counts_ext; [|apply (counts_set _ _ _ _ (M (id_of deref p)) Hc); cbn; (done || lia)].
      intros k. cbn. rewrite has_delete. case_decide; subst; lia.
Qed.

(** ** What the listeners of an operation are told *)

(** The part of a view that passes a filter. *)
Definition passing (f : Filter) (V : gmap Z vptr) : gmap Z vptr :=
  filter (fun kv => passes f (deref kv.2) = true) V.

Abbreviation keep f vals := (List.filter (fun p => passes f (deref p)) vals).

Lemma passing_None f V k : V !! k = None -> passing f V !! k = None.
Proof. intros H. apply map_lookup_filter_None. by left. Qed.

Lemma learn_passing f vals V V' :
  learn deref vals V = Some V' -> learn deref (keep f vals) (passing f V) = Some (passing f V').
Proof.
  revert V. induction vals as [|p vals IH]; intros V Hl; cbn [learn List.filter] in *; [by simplify_eq|].
  destruct (V !! id_of deref p) eqn:EV; [done|]. apply IH in Hl.
  destruct (passes f (deref p)) eqn:Ep; cbn [learn].
  - rewrite passing_None by done. rewrite <- Hl. f_equal. symmetry. by apply map_filter_insert_True.
  - rewrite <- Hl. f_equal. unfold passing. rewrite map_filter_insert_False by (cbn; congruence).
    by rewrite delete_id.
Qed.

Lemma forget_passing f vals V V' :
  forget deref vals V = Some V' -> forget deref (keep f vals) (passing f V) = Some (passing f V').
Proof.
  revert V. induction vals as [|p vals IH]; intros V Hl; cbn [forget List.filter] in *; [by simplify_eq|].
  case_bool_decide as EV; [|done]. apply IH in Hl.
  destruct (passes f (deref p)) eqn:Ep; cbn [forget].
  - rewrite bool_decide_true by (by apply map_lookup_filter_Some_2).
    rewrite <- Hl. f_equal. symmetry. apply map_filter_delete.
  - rewrite <- Hl. f_equal. unfold passing. rewrite map_filter_delete, delete_id; [done|].
    apply map_lookup_filter_None. right. intros q Hq. cbn. congruence.
Qed.

(** The values of the cache, listed for a new listener. *)
Lemma learn_all l V :
  zm_wf l -> Forall (fun e => id_of deref (ov_data e.2) = e.1) l -> op_view l ##ₘ V ->
  learn deref (map (fun e => ov_data e.2) l) V = Some (op_view l ∪ V).
Proof.
  unfold zm_wf. revert V. induction l as [|[k v] l IH]; intros V Hl Hk Hd; cbn [map learn].
  { unfold op_view, zm_view. cbn. by rewrite map_empty_union. }
  rewrite om_wf_cons in Hl. destruct Hl as (_ & Hl & Habove). inversion_clear Hk as [|? ? Hkv Hk'].
  cbn [fst snd] in *. rewrite Hkv. assert (op_view ((k, v) :: l) = <[k := ov_data v]> (op_view l)) as Ho by done.
  rewrite Ho in *. apply map_disjoint_insert_l in Hd as [HVk Hd]. rewrite HVk.
  assert (op_view l !! k = None) as Hlk.
  { unfold op_view. rewrite zm_view_lookup by done. by rewrite om_find_above. }
  rewrite IH; [|done|done|by apply map_disjoint_insert_r_2].
  f_equal. by rewrite <- insert_union_r, <- insert_union_l.
Qed.

Lemma oc_get_learn f c N :
  counts (oc_values c) N -> learn deref (oc_get deref f c) ∅ = Some (passing f (op_view (oc_values c))).
Proof.
  intros [Hl Hc]. rewrite <- (map_filter_empty (fun kv => passes f (deref kv.2) = true)).
  apply (learn_passing f _ ∅). rewrite <- (map_union_empty (op_view (oc_values c))).
  apply learn_all; [done| |apply map_disjoint_empty_r]. apply Forall_forall. intros [k v] Hin. cbn.
  apply zm_find_elem in Hin; [|done]. specialize (Hc k). rewrite Hin in Hc. naive_solver.
Qed.

(** The calls a listener saw, as events. *)
Definition heard (token : Z) (calls : list call) : list cache_event :=
  map (fun c => VValues (call_vals c) (call_expired c)) (List.filter (fun c => call_token c =? token) calls).

Lemma heard_app token c1 c2 : heard token (c1 ++ c2) = heard token c1 ++ heard token c2.
Proof. unfold heard. by rewrite List.filter_app, map_app. Qed.

Lemma heard_tell token l vals b o :
  zm_wf (op_listeners o) -> om_find Z.ltb token (op_listeners o) = Some l ->
  heard token (op_tell deref vals b o) = [VValues (keep (ll_filter l) vals) b].
Proof.
  unfold op_tell, zm_wf. induction (op_listeners o) as [|[k l'] ls IH]; [done|].
  rewrite om_wf_cons. intros (_ & Hls & Habove). cbn [om_find map].
  assert (forall k, Forall (fun e : Z * LocalListener => (k <? e.1) = true) ls ->
    heard k (map (fun l => mkCall l.1 (keep (ll_filter l.2) vals) b) ls) = []) as Hnone.
  { clear. intros k. unfold heard. induction 1 as [|e ls He Hls IH]; [done|]. cbn. zb.
    by destruct (Z.eqb_spec e.1 k); [lia|]. }
  destruct (Z.ltb_spec token k); [done|]. destruct (Z.ltb_spec k token).
  - intros Hf. unfold heard in *. cbn. destruct (Z.eqb_spec k token); [lia|]. by apply IH.
  - intros [= ->]. assert (k = token) as -> by lia. specialize (Hnone token Habove).
    unfold heard in *. cbn. rewrite Z.eqb_refl. cbn. by rewrite Hnone.
Qed.

(** The events of the cache of a node, fed to the operation it listens for. *)
Fixpoint feed (es : list cache_event) (o : OpCache) : OpCache * list call :=
  match es with
  | [] => (o, [])
  | VValues vals b :: es' =>
      let '(o1, c1, _) := op_onValue deref vals b o in let '(o2, c2) := feed es' o1 in (o2, c1 ++ c2)
  | VSync s :: es' => feed es' (op_onNodeChanged s o)
  end.

Definition listener_view (l : LocalListener) (o : OpCache) : gmap Z vptr :=
  passing (ll_filter l) (op_view (oc_values (op_cache o))).

Lemma oc_onValue_spec vals b c M V V' c' calls r :
  counts (oc_values c) (fun id => M id + has V id) -> (forall id, 0 <= M id < 2 ^ 32 - 1) ->
  told deref (VValues vals b) V = Some V' ->
  oc_onValue deref (fun _ _ => true) time_min vals b c = (c', calls, r) ->
  counts (oc_values c') (fun id => M id + has V' id) /\
  oc_nodes c' = oc_nodes c /\ oc_synced c' = oc_synced c /\
  exists x, calls = match x with [] => [] | _ => [(x, b)] end /\
    told deref (VValues x b) (op_view (oc_values c)) = Some (op_view (oc_values c')).
Proof.
  intros Hc HM Ht. unfold oc_onValue.
  destruct (if b then onValuesExpired deref time_min vals c else onValuesAdded deref time_min vals c) as [c1 out] eqn:E.
  intros H. assert (c' = c1 /\ calls = match out with [] => [] | _ => [(out, b)] end) as [-> ->]
    by (destruct out; naive_solver). clear H.
  destruct b; cbn [told] in Ht.
  - unfold onValuesExpired, onValuesExpired_ids in E. destruct (expired_loop _ _ _ _) as [l out'] eqn:El.
    simplify_eq. destruct (expired_loop_spec _ _ _ _ _ _ _ _ Hc HM Ht El) as [H1 (x & -> & H2)].
    split_and!; [done..|]. by exists x.
  - unfold onValuesAdded in E. destruct (added_loop _ _ _ _ _) as [l out'] eqn:El.
    simplify_eq. destruct (added_loop_spec _ _ _ _ _ _ _ _ Hc HM Ht El) as [H1 (x & -> & H2)].
    split_and!; [done..|]. by exists x.
Qed.

Lemma told_passing f x b V V' :
  told deref (VValues x b) V = Some V' ->
  told deref (VValues (keep f x) b) (passing f V) = Some (passing f V').
Proof. destruct b; cbn; [apply forget_passing|apply learn_passing]. Qed.

Lemma op_onValue_spec vals b o M V V' o' calls r :
  counts (oc_values (op_cache o)) (fun id => M id + has V id) -> (forall id, 0 <= M id < 2 ^ 32 - 1) ->
  told deref (VValues vals b) V = Some V' -> op_onValue deref vals b o = (o', calls, r) ->
  counts (oc_values (op_cache o')) (fun id => M id + has V' id) /\
  op_listeners o' = op_listeners o /\
  oc_nodes (op_cache o') = oc_nodes (op_cache o) /\ oc_synced (op_cache o') = oc_synced (op_cache o) /\
  forall token l, zm_wf (op_listeners o) -> om_find Z.ltb token (op_listeners o) = Some l ->
    replay deref (heard token calls) (listener_view l o) = Some (listener_view l o').
Proof.
  intros Hc HM Ht. unfold op_onValue. destruct (oc_onValue _ _ _ _ _ _) as [[c cs] r'] eqn:E.
  intros [= <- <- <-]. destruct (oc_onValue_spec _ _ _ _ _ _ _ _ _ Hc HM Ht E) as (H1 & H2 & H3 & x & -> & Hx).
  split_and!; [done..|]. intros token l Hwf Hf. unfold listener_view. cbn [op_set_cache op_cache].
  destruct x as [|p x]; cbn [map concat].
  { assert (op_view (oc_values c) = op_view (oc_values (op_cache o))) as -> by (destruct b; cbn in Hx; congruence).
    done. }
  rewrite app_nil_r. cbn [fst snd]. rewrite (heard_tell _ l) by done. cbn [replay].
  rewrite (told_passing (ll_filter l) _ _ _ _ Hx). done.
Qed.

Lemma feed_values es o M V V' o' calls :
  counts (oc_values (op_cache o)) (fun id => M id + has V id) -> (forall id, 0 <= M id < 2 ^ 32 - 1) ->
  Forall is_values es -> zm_wf (op_listeners o) ->
  replay deref es V = Some V' -> feed es o = (o', calls) ->
  counts (oc_values (op_cache o')) (fun id => M id + has V' id) /\
  op_listeners o' = op_listeners o /\
  oc_nodes (op_cache o') = oc_nodes (op_cache o) /\ oc_synced (op_cache o') = oc_synced (op_cache o) /\
  forall token l, om_find Z.ltb token (op_listeners o) = Some l ->
    replay deref (heard token calls) (listener_view l o) = Some (listener_view l o').
Proof.
  intros Hc HM Hes Hwf. revert o V calls Hc Hwf. induction Hes as [|e es He Hes IH]; intros o V calls Hc Hwf Hr; cbn [feed].
  { intros [= <- <-]. cbn in Hr. simplify_eq. by split_and!. }
  destruct e as [vals b|s]; [|done]. cbn [replay] in Hr. destruct (told deref (VValues vals b) V) as [V1|] eqn:Ht; [|done].
  cbn in Hr. destruct (op_onValue deref vals b o) as [[o1 c1] r] eqn:E1. destruct (feed es o1) as [o2 c2] eqn:E2.
  intros [= <- <-]. destruct (op_onValue_spec _ _ _ _ _ _ _ _ _ Hc HM Ht E1) as (H1 & L1 & N1 & S1 & R1).
  destruct (IH o1 V1 c2 H1) as (H2 & L2 & N2 & S2 & R2); [by rewrite L1|done|done|].
  split_and!; [done|congruence..|]. intros token l Hf. rewrite heard_app, replay_app, R1 by done. cbn.
  apply R2. by rewrite L1.
Qed.
End Counting.

(** ** A listen operation over the nodes of a search *)

Section Listening.
Context {G : Gnutls} (deref : vptr -> Value) (types : list (Z * Z)).

(** The caches of the nodes that were sent the query, the operation they feed (the
    callbacks [SearchCache::listen] gives to the search, which gives them to the caches
    of its nodes), and the calls made to the listeners. *)
Record LState := mkLS {
  ls_nodes : gmap positive ValueCache;
  ls_op : OpCache;
  ls_log : list call;
}.

Definition listen_init (now stoken : Z) : LState := mkLS ∅ (OpCache_make now stoken) [].

Inductive listen_step : LState -> LState -> Prop :=
| LStep_add s n c es o calls :
    ls_nodes s !! n = None -> Z.of_nat (size (ls_nodes s)) < 2 ^ 32 - 2 ->
    ValueCache_make true true = (c, es) -> feed deref es (ls_op s) = (o, calls) ->
    listen_step s (mkLS (<[n := c]> (ls_nodes s)) o (ls_log s ++ calls))
| LStep_op s n c x c' es o calls :
    ls_nodes s !! n = Some c -> op_time x -> vc_step deref types x c = Some (c', es) ->
    feed deref es (ls_op s) = (o, calls) ->
    listen_step s (mkLS (<[n := c']> (ls_nodes s)) o (ls_log s ++ calls))
| LStep_remove s n c o calls :
    ls_nodes s !! n = Some c -> feed deref (ValueCache_destroy c) (ls_op s) = (o, calls) ->
    listen_step s (mkLS (delete n (ls_nodes s)) o (ls_log s ++ calls))
| LStep_listen s answer token l o calls ok :
    Forall (fun c => call_token c <> token) (ls_log s) ->
    om_find Z.ltb token (op_listeners (ls_op s)) = None ->
    addListener deref answer token l (ls_op s) = (o, calls, ok) ->
    listen_step s (mkLS (ls_nodes s) o (ls_log s ++ calls))
| LStep_cancel s token now o found :
    removeListener token now (ls_op s) = (o, found) ->
    listen_step s (mkLS (ls_nodes s) o (ls_log s)).

Definition node_ok (c : ValueCache) : Prop :=
  vc_ok deref c /\ vc_callback c = true /\ vc_sync c = true /\
  (vc_status c = SYNCED \/ vc_status c = UNSYNCED).

Definition views (nodes : gmap positive ValueCache) : gmap positive (gmap Z vptr) := vc_view <$> nodes.

Definition synced_nodes (nodes : gmap positive ValueCache) : Z :=
  Z.of_nat (size (filter (fun kv => vc_status kv.2 = SYNCED) nodes)).

Record listen_inv (s : LState) : Prop := {
  li_nodes n c : ls_nodes s !! n = Some c -> node_ok c;
  li_size : Z.of_nat (size (ls_nodes s)) < 2 ^ 32 - 1;
  li_counts : counts deref (oc_values (op_cache (ls_op s))) (held (views (ls_nodes s)));
  li_count : oc_nodes (op_cache (ls_op s)) = Z.of_nat (size (ls_nodes s));
  li_synced : oc_synced (op_cache (ls_op s)) = synced_nodes (ls_nodes s);
  li_listeners : zm_wf (op_listeners (ls_op s));
  li_told token l :
    om_find Z.ltb token (op_listeners (ls_op s)) = Some l ->
    replay deref (heard token (ls_log s)) ∅ = Some (listener_view deref l (ls_op s));
}.

Lemma views_insert n c nodes : views (<[n := c]> nodes) = <[n := vc_view c]> (views nodes).
Proof. apply fmap_insert. Qed.

Lemma views_delete n nodes : views (delete n nodes) = delete n (views nodes).
Proof. apply fmap_delete. Qed.

Lemma held_node nodes n V id : held (<[n := V]> (views nodes)) id = held (views (delete n nodes)) id + has V id.
Proof. rewrite <- insert_delete_eq, <- views_delete. apply held_insert. rewrite views_delete. apply lookup_delete_eq. Qed.

Lemma held_bound vs id : 0 <= held vs id <= Z.of_nat (size vs).
Proof. unfold held. pose proof (map_size_filter (fun kv : positive * gmap Z vptr => is_Some (kv.2 !! id)) vs). lia. Qed.

Lemma synced_insert nodes n c :
  nodes !! n = None ->
  synced_nodes (<[n := c]> nodes) = synced_nodes nodes + (if decide (vc_status c = SYNCED) then 1 else 0).
Proof.
  intros Hn. unfold synced_nodes. case_decide.
  - rewrite map_filter_insert_True by done. rewrite map_size_insert_None; [lia|].
    apply map_lookup_filter_None. by left.
  - rewrite map_filter_insert_False by done. rewrite delete_id by done. lia.
Qed.

Lemma synced_node nodes n c :
  synced_nodes (<[n := c]> nodes) =
  synced_nodes (delete n nodes) + (if decide (vc_status c = SYNCED) then 1 else 0).
Proof. rewrite <- insert_delete_eq. apply synced_insert. apply lookup_delete_eq. Qed.

Lemma synced_bound nodes : 0 <= synced_nodes nodes <= Z.of_nat (size nodes).
Proof. unfold synced_nodes. pose proof (map_size_filter (fun kv : positive * ValueCache => vc_status kv.2 = SYNCED) nodes). lia. Qed.

Lemma size_delete_node (nodes : gmap positive ValueCache) n c :
  nodes !! n = Some c -> Z.of_nat (size nodes) = Z.of_nat (size (delete n nodes)) + 1.
Proof. intros H. pose proof (map_size_delete_Some n nodes ltac:(by eexists)). pose proof (map_size_non_empty_iff nodes).
  assert (nodes <> ∅) by (intros ->; by rewrite lookup_empty in H). destruct (size nodes) eqn:E; [tauto|]. lia. Qed.

Lemma feed_app es1 es2 o :
  feed deref (es1 ++ es2) o =
  let '(o1, c1) := feed deref es1 o in let '(o2, c2) := feed deref es2 o1 in (o2, c1 ++ c2).
Proof.
  revert o. induction es1 as [|e es1 IH]; intros o; cbn [feed app]; [by destruct (feed deref es2 o)|].
  destruct e as [vals b|st]; [|apply IH]. destruct (op_onValue deref vals b o) as [[o1 c1] r].
  rewrite IH. destruct (feed deref es1 o1) as [o2 c2], (feed deref es2 o2) as [o3 c3]. by rewrite app_assoc.
Qed.

(** A node changes its values and says so. *)
Lemma inv_values s n c c' es o calls :
  listen_inv s -> ls_nodes s !! n = Some c -> node_ok c' -> vc_status c' = vc_status c ->
  Forall is_values es -> replay deref es (vc_view c) = Some (vc_view c') ->
  feed deref es (ls_op s) = (o, calls) ->
  listen_inv (mkLS (<[n := c']> (ls_nodes s)) o (ls_log s ++ calls)).
Proof.
  intros [Hn Hsz Hc Hnum Hsy Hl Ht] Hnc Hok Hst Hes Hr Hf.
  assert (views (ls_nodes s) = <[n := vc_view c]> (views (ls_nodes s))) as Hv.
  { symmetry. apply insert_id. unfold views. by rewrite lookup_fmap, Hnc. }
  assert (forall id, 0 <= held (views (delete n (ls_nodes s))) id < 2 ^ 32 - 1) as HM.
  { intros id. pose proof (held_bound (views (delete n (ls_nodes s))) id) as Hb.
    unfold views in Hb at 3. rewrite map_size_fmap in Hb. pose proof (size_delete_node _ _ _ Hnc). lia. }
  eapply feed_values in Hf as (H1 & H2 & H3 & H4 & H5); [|..|exact Hr]; [| |exact HM|done|done].
  2:{ eapply counts_ext; [|exact Hc]. intros id. rewrite Hv at 1. apply held_node. }
  split; cbn [ls_nodes ls_op ls_log]; rewrite ?H2, ?H3, ?H4.
  - intros n' x Hx. apply lookup_insert_Some in Hx as [[_ <-]|[_ Hx]]; eauto.
  - rewrite map_size_insert_Some by (by eexists). done.
  - eapply counts_ext; [|exact H1]. intros id. by rewrite views_insert, held_node.
  - rewrite map_size_insert_Some by (by eexists). done.
  - rewrite synced_node, Hst, <- synced_node, insert_id by done. done.
  - done.
  - intros token l Hl'. rewrite heard_app, replay_app, (Ht token l) by done. cbn. by apply H5.
Qed.

(** A change that only the counters see. *)
Lemma inv_counters s nodes' o :
  listen_inv s -> (forall n c, nodes' !! n = Some c -> node_ok c) ->
  Z.of_nat (size nodes') < 2 ^ 32 - 1 ->
  (forall id, held (views nodes') id = held (views (ls_nodes s)) id) ->
  oc_values (op_cache o) = oc_values (op_cache (ls_op s)) -> op_listeners o = op_listeners (ls_op s) ->
  oc_nodes (op_cache o) = Z.of_nat (size nodes') -> oc_synced (op_cache o) = synced_nodes nodes' ->
  listen_inv (mkLS nodes' o (ls_log s)).
Proof.
  intros [Hn Hsz Hc Hnum Hsy Hl Ht] Hok Hsz' Hh Hv Hls Hnum' Hsy'.
  split; cbn [ls_nodes ls_op ls_log]; rewrite ?Hls, ?Hv; try done.
  - eapply counts_ext; [|exact Hc]. intros id. by rewrite Hh.
  - intros token l Hf. rewrite (Ht token l) by done. unfold listener_view. by rewrite Hv.
Qed.

Lemma held_same_view nodes n c c' id :
  nodes !! n = Some c -> vc_view c' = vc_view c ->
  held (views (<[n := c']> nodes)) id = held (views nodes) id.
Proof.
  intros Hn Hv. rewrite views_insert, insert_id; [done|]. unfold views. by rewrite lookup_fmap, Hn, Hv.
Qed.

Lemma inv_add s n o calls :
  listen_inv s -> ls_nodes s !! n = None -> Z.of_nat (size (ls_nodes s)) < 2 ^ 32 - 2 ->
  feed deref [VSync ADDED] (ls_op s) = (o, calls) ->
  listen_inv (mkLS (<[n := mkVC [] true true UNSYNCED]> (ls_nodes s)) o (ls_log s ++ calls)).
Proof.
  intros Hi Hn Hlt [= <- <-]. rewrite app_nil_r. destruct Hi as [H1 H2 H3 H4 H5 H6 H7] eqn:E.
  apply inv_counters; [done| | | |done|done|..]; cbn [ls_nodes op_cache op_onNodeChanged op_set_cache onNodeChanged oc_nodes oc_synced].
  - intros n' x Hx. apply lookup_insert_Some in Hx as [[_ <-]|[_ Hx]]; [|eauto].
    split_and!; [|done|done|by right]. split; [apply zm_wf_nil|constructor].
  - rewrite map_size_insert_None by done. lia.
  - intros id. rewrite views_insert, held_insert.
    { change (vc_view (mkVC [] true true UNSYNCED)) with (∅ : gmap Z vptr). unfold has.
      rewrite lookup_empty. lia. }
    unfold views. by rewrite lookup_fmap, Hn.
  - rewrite H4, map_size_insert_None, wrap_small by (done || lia). lia.
  - rewrite H5, synced_insert by done. rewrite decide_False by done. lia.
Qed.

Lemma inv_synced s n c b c' es o calls :
  listen_inv s -> ls_nodes s !! n = Some c -> onSynced b c = (c', es) -> feed deref es (ls_op s) = (o, calls) ->
  listen_inv (mkLS (<[n := c']> (ls_nodes s)) o (ls_log s ++ calls)).
Proof.
  intros Hi Hn. pose proof (li_nodes _ Hi _ _ Hn) as (Hok & Hcb & Hsy & Hst). unfold onSynced.
  case_bool_decide as Hb; [intros [= <- <-] [= <- <-]; rewrite insert_id, app_nil_r by done; by destruct s|].
  rewrite Hsy. intros [= <- <-] [= <- <-]. rewrite app_nil_r.
  destruct Hi as [H1 H2 H3 H4 H5 H6 H7] eqn:E.
  pose proof (size_delete_node _ _ _ Hn) as Hsize. pose proof (synced_bound (delete n (ls_nodes s))) as Hbd.
  pose proof (synced_node (ls_nodes s) n c) as Hcur. rewrite insert_id in Hcur by done.
  apply inv_counters; [done| | | |by destruct b|by destruct b|..].
  - intros n' x Hx. apply lookup_insert_Some in Hx as [[_ <-]|[_ Hx]]; [|eauto].
    split_and!; [done..|destruct b; auto].
  - by rewrite map_size_insert_Some by (by eexists).
  - intros id. by eapply held_same_view.
  - rewrite map_size_insert_Some by (by eexists). by destruct b.
  - rewrite synced_node. cbn [vc_status].
    destruct b; cbn [op_cache op_onNodeChanged op_set_cache onNodeChanged oc_synced]; rewrite H5, Hcur.
    + rewrite (decide_False (P := vc_status c = SYNCED)), (decide_True (P := SYNCED = SYNCED)) by done.
      rewrite wrap_small; lia.
    + assert (vc_status c = SYNCED) as -> by (destruct Hst; done).
      rewrite (decide_True (P := SYNCED = SYNCED)), (decide_False (P := UNSYNCED = SYNCED)) by done.
      rewrite wrap_small; lia.
Qed.

(** The destructor of a cache: its values end, then the counters go down. *)
Lemma inv_remove s n c o calls :
  listen_inv s -> ls_nodes s !! n = Some c -> feed deref (ValueCache_destroy c) (ls_op s) = (o, calls) ->
  listen_inv (mkLS (delete n (ls_nodes s)) o (ls_log s ++ calls)).
Proof.
  intros Hi Hn. pose proof (li_nodes _ Hi _ _ Hn) as (Hok & Hcb & Hsy & Hst).
  destruct (vc_clear_faithful deref c Hok) as [(Hok' & Hcb' & Hsy' & Hst' & Hes & Hr) Hv].
  unfold ValueCache_destroy. rewrite feed_app, Hsy.
  destruct (feed deref (vc_clear c).2 (ls_op s)) as [o1 c1] eqn:E1.
  assert (listen_inv (mkLS (<[n := (vc_clear c).1]> (ls_nodes s)) o1 (ls_log s ++ c1))) as Hi1.
  { eapply inv_values; [done|exact Hn| |done|exact Hes|by apply Hr|exact E1]. by split_and!. }
  set (s1 := mkLS _ o1 _) in Hi1. assert (ls_nodes s1 !! n = Some (vc_clear c).1) as Hn1 by apply lookup_insert_eq.
  pose proof (size_delete_node _ _ _ Hn1) as Hsize. pose proof (synced_bound (delete n (ls_nodes s1))) as Hbd.
  pose proof (synced_node (ls_nodes s1) n (vc_clear c).1) as Hcur. rewrite insert_id in Hcur by done.
  assert (delete n (ls_nodes s1) = delete n (ls_nodes s)) as Hdel by apply delete_insert_eq.
  destruct (feed deref (_ ++ [VSync REMOVED]) o1) as [o2 c2] eqn:E2. intros [= <- <-].
  assert (c2 = [] /\ oc_values (op_cache o2) = oc_values (op_cache o1) /\ op_listeners o2 = op_listeners o1 /\
    oc_nodes (op_cache o2) = u64 (oc_nodes (op_cache o1) - 1) /\
    oc_synced (op_cache o2) = if decide (vc_status c = SYNCED) then u64 (oc_synced (op_cache o1) - 1)
                              else oc_synced (op_cache o1)) as (-> & HV & HL & HN & HS).
  { case_bool_decide; cbn [feed app] in E2; injection E2 as <- <-; (split_and!; [done..|]).
    - by rewrite decide_True by done.
    - by rewrite decide_False by done. }
  rewrite app_nil_r, <- Hdel. pose proof (li_size _ Hi1) as Hlt. pose proof (li_count _ Hi1) as HC.
  pose proof (li_synced _ Hi1) as HSy. change (ls_op s1) with o1 in HC, HSy.
  change (ls_log s ++ c1) with (ls_log s1). apply inv_counters; [done| | | |done|done|..].
  - intros n' x Hx. apply lookup_delete_Some in Hx as [_ Hx]. by eapply (li_nodes _ Hi1).
  - lia.
  - intros id. rewrite <- (insert_id (ls_nodes s1) n (vc_clear c).1) at 2 by done.
    rewrite views_insert, held_node, Hv. unfold has. rewrite lookup_empty. lia.
  - rewrite HN, HC, wrap_small; lia.
  - rewrite HS, HSy, Hcur. change (vc_status (vc_clear c).1) with (vc_status c). case_decide; [rewrite wrap_small|]; lia.
Qed.

Lemma heard_none token calls : Forall (fun c => call_token c <> token) calls -> heard token calls = [].
Proof. unfold heard. induction 1 as [|c calls Hc _ IH]; [done|]. cbn. by destruct (Z.eqb_spec (call_token c) token). Qed.

Lemma inv_listen s answer token l o calls ok :
  listen_inv s -> Forall (fun c => call_token c <> token) (ls_log s) ->
  om_find Z.ltb token (op_listeners (ls_op s)) = None ->
  addListener deref answer token l (ls_op s) = (o, calls, ok) ->
  listen_inv (mkLS (ls_nodes s) o (ls_log s ++ calls)).
Proof.
  intros [H1 H2 H3 H4 H5 H6 H7] Hlog Hnew. unfold addListener.
  set (cached := oc_get deref (ll_filter l) (op_cache (ls_op s))).
  pose proof (oc_get_learn deref (ll_filter l) _ _ H3) as Hlearn. fold cached in Hlearn.
  set (cs := match cached with [] => [] | _ => [mkCall token cached false] end).
  assert (forall t l', om_find Z.ltb t (op_listeners (ls_op s)) = Some l' ->
    replay deref (heard t (ls_log s ++ cs)) ∅ = Some (listener_view deref l' (ls_op s))) as Hold.
  { intros t l' Hf. rewrite heard_app, (heard_none t cs), app_nil_r; [by apply H7|].
    assert (token <> t) by congruence. subst cs. by destruct cached; repeat constructor. }
  assert (replay deref (heard token (ls_log s ++ cs)) ∅ = Some (listener_view deref l (ls_op s))) as Hnewt.
  { rewrite heard_app, (heard_none token (ls_log s)) by done. subst cs. cbn [app].
    destruct cached as [|p ps]; [done|]. unfold heard. cbn [List.filter call_token map].
    rewrite Z.eqb_refl. cbn [replay map call_vals call_expired told]. by rewrite Hlearn. }
  destruct (match cached with [] => false | _ => negb (answer cached) end); intros [= <- <- <-]; [by split|].
  unfold om_emplace. rewrite Hnew. split; cbn [ls_nodes ls_op ls_log op_set_listeners op_cache op_listeners fst]; try done.
  - by apply zm_set_wf.
  - intros t l' Hf. destruct (decide (t = token)) as [-> |Hne].
    + rewrite zm_find_set_eq in Hf by done. by simplify_eq.
    + rewrite zm_find_set_ne in Hf by done. by apply Hold.
Qed.

Lemma inv_cancel s token now o found :
  listen_inv s -> removeListener token now (ls_op s) = (o, found) -> listen_inv (mkLS (ls_nodes s) o (ls_log s)).
Proof.
  intros [H1 H2 H3 H4 H5 H6 H7] [= <- <-]. split; cbn; try done.
  - by apply zm_erase_wf.
  - intros t l Hf. destruct (decide (t = token)) as [-> |Hne].
    + by rewrite zm_find_erase_eq in Hf.
    + rewrite zm_find_erase_ne in Hf by done. by apply H7.
Qed.

Lemma listen_step_inv s s' : listen_step s s' -> listen_inv s -> listen_inv s'.
Proof.
  destruct 1 as [s n c es o calls Hn Hsz Hmk Hf|s n c x c' es o calls Hn Hx Hs Hf|s n c o calls Hn Hf
    |s answer token l o calls ok Hl Hnew Ha|s token now o found Hr]; intros Hi.
  - injection Hmk as <- <-. by eapply inv_add.
  - pose proof (li_nodes _ Hi _ _ Hn) as (Hok & Hcb & Hsy & Hst).
    assert (faithful deref c c' es -> listen_inv (mkLS (<[n := c']> (ls_nodes s)) o (ls_log s ++ calls))) as Hfaith.
    { intros (A & B & C & D & E & F). eapply inv_values; [done|exact Hn| |exact D|exact E|by apply F|exact Hf].
      split_and!; [done|congruence..|by rewrite D]. }
    destruct x as [vals refreshed expired now|now| |b]; cbn in Hs, Hx.
    + destruct (onValues_ok deref types vals refreshed expired now c Hok Hx) as (c1 & nx & e1 & E & F & _).
      rewrite E in Hs. cbn in Hs. simplify_eq. by apply Hfaith.
    + destruct (expireValues_spec deref now time_max c Hok) as (c1 & nx & e1 & E & F & _).
      rewrite E in Hs. cbn in Hs. simplify_eq. by apply Hfaith.
    + destruct (vc_clear_faithful deref c Hok) as [F _]. injection Hs as <- <-. by apply Hfaith.
    + injection Hs as Hs. by eapply inv_synced.
  - by eapply inv_remove.
  - by eapply inv_listen.
  - by eapply inv_cancel.
Qed.

Lemma listen_reachable_inv now stoken s : rtc listen_step (listen_init now stoken) s -> listen_inv s.
Proof.
  intros H. assert (forall a b, rtc listen_step a b -> listen_inv a -> listen_inv b) as Hr.
  { induction 1 as [|x y z Hxy Hyz IH]; [done|]. intros Hx. apply IH. by eapply listen_step_inv. }
  apply (Hr _ _ H). split; cbn; try done.
  - split; [apply zm_wf_nil|]. intros id. cbn. unfold held, views. by rewrite fmap_empty, map_filter_empty.
  - apply zm_wf_nil.
Qed.

(** C25. A listen operation shows its listeners the union of what the nodes hold.  In
    every state reached by nodes being added and removed, announcing, refreshing and
    ending values, changing their synchronisation, and by listeners coming and going:
    replaying the calls a listener received gives exactly the values of the operation
    that pass its filter; the operation has a value with an id exactly when some node
    holds one; and it is synced exactly when it has nodes and all of them are. *)
Theorem listeners_see_union now stoken s :
  rtc listen_step (listen_init now stoken) s ->
  (forall token l, om_find Z.ltb token (op_listeners (ls_op s)) = Some l ->
     replay deref (heard token (ls_log s)) ∅ = Some (listener_view deref l (ls_op s))) /\
  (forall id, is_Some (oc_get_id id (op_cache (ls_op s))) <->
     exists n c, ls_nodes s !! n = Some c /\ is_Some (vc_view c !! id)) /\
  (isSynced (op_cache (ls_op s)) = true <->
     ls_nodes s <> ∅ /\ forall n c, ls_nodes s !! n = Some c -> vc_status c = SYNCED).
Proof.
  intros Hr. apply listen_reachable_inv in Hr as [H1 H2 H3 H4 H5 H6 H7]. split_and!; [done|..].
  - intros id. destruct H3 as [_ Hc]. specialize (Hc id). unfold oc_get_id. rewrite fmap_is_Some.
    assert (0 < held (views (ls_nodes s)) id <->
      exists n c, ls_nodes s !! n = Some c /\ is_Some (vc_view c !! id)) as <-.
    { unfold held. rewrite <- (Nat2Z.inj_lt 0), <- Nat.neq_0_lt_0, map_size_non_empty_iff. split.
      - intros (n & V & Hf)%map_choose. apply map_lookup_filter_Some in Hf as [Hf HV]. unfold views in Hf.
        rewrite lookup_fmap in Hf. apply fmap_Some in Hf as (c & Hc' & ->). eauto.
      - intros (n & c & Hn & HV) He. apply map_empty with (i := n) in He.
        revert He. apply not_eq_None_Some. exists (vc_view c). apply map_lookup_filter_Some_2; [|done].
        unfold views. by rewrite lookup_fmap, Hn. }
    destruct (om_find _ _ _); [naive_solver eauto|]. rewrite Hc. split; [by intros []|lia].
  - unfold isSynced. rewrite andb_true_iff, Z.ltb_lt, Z.eqb_eq, H4, H5. unfold synced_nodes.
    rewrite <- (Nat2Z.inj_lt 0), <- Nat.neq_0_lt_0, map_size_non_empty_iff, Nat2Z.inj_iff. f_equiv. split.
    + intros Hs n c Hn. assert (filter (fun kv => vc_status kv.2 = SYNCED) (ls_nodes s) = ls_nodes s) as He.
      { apply map_subseteq_size_eq; [apply map_filter_subseteq|lia]. }
      rewrite <- He in Hn. by apply map_lookup_filter_Some in Hn as [_ ?].
    + intros Hall. f_equal. apply map_filter_id. intros n c Hn. by apply (Hall n).
Qed.
End Listening.

(** ** Tokens of a search *)

Section Tokens.
Context {G : Gnutls} (deref : vptr -> Value) (qderef : qptr -> Query).

(** The listener [l] has the token [t], in the operation of the query [k]. *)
Definition registered_in (ops : list (qptr * OpCache)) (k : qptr) (t : Z) (l : LocalListener) : Prop :=
  exists o, (k, o) ∈ ops /\ om_find Z.ltb t (op_listeners o) = Some l.

Definition pm_wf (ops : list (qptr * OpCache)) : Prop := om_wf Pos.ltb (fun _ => True) ops.

(** Tokens are given out once, in order, and name one listener. *)
Record sc_ok (s : SearchCache) : Prop := {
  so_wf : pm_wf (sc_ops s);
  so_listeners k o : (k, o) ∈ sc_ops s -> zm_wf (op_listeners o);
  so_next : 0 < sc_nextToken s;
  so_tokens k t l : registered_in (sc_ops s) k t l -> 0 < t < sc_nextToken s;
  so_unique k k' t l l' : registered_in (sc_ops s) k t l -> registered_in (sc_ops s) k' t l' -> k = k';
}.

Lemma pm_find_elem k o ops : pm_wf ops -> om_find Pos.ltb k ops = Some o <-> (k, o) ∈ ops.
Proof. intros. by apply (om_find_Some_elem Pos.ltb (fun _ => True)). Qed.

Lemma pm_set_elem ops k o k' o' :
  pm_wf ops -> (k', o') ∈ om_set Pos.ltb k o ops <-> k' = k /\ o' = o \/ k' <> k /\ (k', o') ∈ ops.
Proof.
  intros Hw. assert (pm_wf (om_set Pos.ltb k o ops)) as Hw' by (by apply (om_set_wf Pos.ltb (fun _ => True))).
  rewrite <- !pm_find_elem by done. rewrite (om_find_set Pos.ltb (fun _ => True)) by done.
  destruct (Pos.ltb_spec k k'), (Pos.ltb_spec k' k); cbn; try lia.
  - assert (k' <> k) by lia. naive_solver.
  - assert (k' <> k) by lia. naive_solver.
  - assert (k' = k) by lia. naive_solver.
Qed.

(** The operation [listen] chooses: the query itself, or one that satisfies it. *)
Lemma getOp_spec q s k o :
  pm_wf (sc_ops s) -> getOp qderef q s = Some (k, o) ->
  (k, o) ∈ sc_ops s /\ (k = q \/ isSatisfiedBy (qderef q) (qderef k) = true).
Proof.
  intros Hw. unfold getOp. destruct (om_find Pos.ltb q (sc_ops s)) as [o'|] eqn:E.
  - intros [= <- <-]. apply pm_find_elem in E; [|done]. auto.
  - intros H. apply List.find_some in H as [H1 H2]. split; [by apply list_elem_of_In|by right].
Qed.

Lemma getOp_None q s : pm_wf (sc_ops s) -> getOp qderef q s = None -> om_find Pos.ltb q (sc_ops s) = None.
Proof. intros Hw. unfold getOp. by destruct (om_find _ _ _). Qed.

(** Removing the listener of a token: it goes, the others stay. *)
Lemma cancel_loop_spec token now ops ops' r :
  (forall k o, (k, o) ∈ ops -> zm_wf (op_listeners o)) ->
  (forall k k' l l', registered_in ops k token l -> registered_in ops k' token l' -> k = k') ->
  StronglySorted (key_lt Pos.ltb) ops ->
  cancel_loop token now ops = (ops', r) ->
  map fst ops' = map fst ops /\
  (forall k o, (k, o) ∈ ops' -> zm_wf (op_listeners o)) /\
  (is_Some r <-> exists k l, registered_in ops k token l) /\
  (forall k t l, registered_in ops' k t l <-> registered_in ops k t l /\ t <> token).
Proof.
  revert ops' r. induction ops as [|[k o] ops IH]; intros ops' r Hz Hu Hs; cbn.
  { intros [= <- <-]. unfold registered_in. split_and!; [done|set_solver| |set_solver].
    split; [by intros []|]. set_solver. }
  assert (zm_wf (op_listeners o)) as Hzo by (apply (Hz k); set_solver).
  assert (forall (o1 : OpCache) ops1 k' t l, registered_in ((k, o1) :: ops1) k' t l <->
    (k' = k /\ om_find Z.ltb t (op_listeners o1) = Some l) \/ registered_in ops1 k' t l) as Hreg.
  { intros o1 ops1 k' t l. unfold registered_in. split.
    - intros (o2 & [[= -> ->]|Hin]%elem_of_cons & Hf); [by left|right; eauto].
    - intros [[-> Hf]|(o2 & Hin & Hf)]; eexists; (split; [|done]); set_solver. }
  assert (forall t l, om_find Z.ltb t (om_erase Z.ltb token (op_listeners o)) = Some l <->
    om_find Z.ltb t (op_listeners o) = Some l /\ t <> token) as He.
  { intros t l. destruct (decide (t = token)) as [-> |Hne].
    - rewrite zm_find_erase_eq by done. naive_solver.
    - rewrite zm_find_erase_ne by done. naive_solver. }
  inversion_clear Hs as [|? ? Hs' Hlt].
  destruct (om_find Z.ltb token (op_listeners o)) as [l0|] eqn:E.
  - intros [= <- <-]. split_and!; [done| | |].
    + intros k' o' [[= -> ->]|Hin]%elem_of_cons; [by apply zm_erase_wf|apply (Hz k'); set_solver].
    + split; [intros _|by eexists]. exists k, l0. apply Hreg. by left.
    + intros k' t l. rewrite !Hreg. cbn. rewrite He. split; [|naive_solver].
      intros [?|Hin]; [naive_solver|]. split; [by right|]. intros ->.
      assert (k = k') as <-. { eapply Hu; apply Hreg; [by left|by right]. }
      destruct Hin as (o2 & Hin & _). rewrite Forall_forall in Hlt. apply Hlt in Hin.
      unfold key_lt in Hin. cbn in Hin. by rewrite Pos.ltb_irrefl in Hin.
  - destruct (cancel_loop token now ops) as [ops1 r1] eqn:E1. intros [= <- <-].
    destruct (IH ops1 r1) as (H1 & H2 & H3 & H4).
    { intros k' o' Hin. apply (Hz k'). set_solver. }
    { intros k1 k2 l1 l2 R1 R2. eapply Hu; apply Hreg; by right. }
    { done. }
    { done. }
    split_and!.
    + cbn. by rewrite H1.
    + intros k' o' [[= -> ->]|Hin]%elem_of_cons; [by apply zm_erase_wf|by eapply H2].
    + rewrite H3. split; intros (k' & l & R); exists k', l; [apply Hreg; by right|].
      apply Hreg in R as [[-> R]|R]; [congruence|done].
    + intros k' t l. rewrite !Hreg. cbn. rewrite He, H4. naive_solver.
Qed.

Lemma pm_wf_keys ops ops' : map fst ops' = map fst ops -> pm_wf ops -> pm_wf ops'.
Proof.
  intros Hk [Hs _]. split; [|by apply Forall_true]. revert ops' Hk.
  induction Hs as [|[k o] ops Hs IH Hlt]; intros [|[k' o'] ops'] Hk; cbn in Hk; try done; [constructor|].
  injection Hk as -> Hk. constructor; [by apply IH|]. rewrite Forall_forall in *. intros [k2 o2] Hin.
  assert (k2 ∈ map fst ops) as Hin2.
  { rewrite <- Hk. apply list_elem_of_In, in_map_iff. exists (k2, o2). split; [done|by apply list_elem_of_In]. }
  apply list_elem_of_In, in_map_iff in Hin2 as ([k3 o3] & <- & Hin3%list_elem_of_In). by apply Hlt in Hin3.
Qed.

Lemma sc_cancel_ok token now s :
  sc_ok s ->
  let '(found, s') := sc_cancelListen token now s in
  sc_ok s' /\ (found = true <-> exists k l, registered_in (sc_ops s) k token l) /\
  forall k t l, registered_in (sc_ops s') k t l <-> registered_in (sc_ops s) k t l /\ t <> token.
Proof.
  intros Hs. unfold sc_cancelListen. destruct (cancel_loop token now (sc_ops s)) as [ops r] eqn:E.
  destruct (cancel_loop_spec token now (sc_ops s) ops r) as (H1 & H2 & H3 & H4);
    [apply Hs|intros; by eapply (so_unique _ Hs)|apply (so_wf _ Hs)|done|].
  assert (forall x, sc_ok (mkSC ops (sc_nextToken s) x)) as Hok.
  { intros x. destruct Hs. split; cbn; [by eapply pm_wf_keys|done|done|..].
    - intros k t l [R _]%H4. eauto.
    - intros k k' t l l' [R _]%H4 [R' _]%H4. eauto. }
  destruct r as [o|]; (split; [apply Hok|]); (split; [|done]); rewrite <- H3.
  - naive_solver.
  - split; [done|by intros []].
Qed.

(** The operation a listener is added to, and the operations with it. *)
Lemma sc_listen_target now stoken q s :
  sc_ok s ->
  exists k o ops fresh,
    match getOp qderef q s with
    | Some (k, o) => (k, o, sc_ops s, false)
    | None => (q, OpCache_make now stoken, (om_emplace Pos.ltb q (OpCache_make now stoken) (sc_ops s)).1, true)
    end = (k, o, ops, fresh) /\
    pm_wf ops /\ (k, o) ∈ ops /\ zm_wf (op_listeners o) /\
    (k = q \/ isSatisfiedBy (qderef q) (qderef k) = true) /\
    (forall k' o', (k', o') ∈ ops -> zm_wf (op_listeners o')) /\
    (forall k' t l, registered_in ops k' t l <-> registered_in (sc_ops s) k' t l).
Proof.
  intros Hs. destruct (getOp qderef q s) as [[k o]|] eqn:E.
  - destruct (getOp_spec _ _ _ _ (so_wf _ Hs) E) as [Hin Hq].
    exists k, o, (sc_ops s), false. split_and!; try done; try apply Hs. by eapply (so_listeners _ Hs).
  - pose proof (getOp_None _ _ (so_wf _ Hs) E) as Hn. unfold om_emplace. rewrite Hn. cbn [fst].
    set (o := OpCache_make now stoken). set (ops := om_set Pos.ltb q o (sc_ops s)).
    pose proof (so_wf _ Hs) as Hw.
    assert (pm_wf ops) as Hw' by (by apply (om_set_wf Pos.ltb (fun _ => True))).
    assert (forall k' o', (k', o') ∈ ops <-> k' = q /\ o' = o \/ k' <> q /\ (k', o') ∈ sc_ops s) as Hin
      by (intros; by apply pm_set_elem).
    exists q, o, ops, true. split_and!; [done|done|apply Hin; by left|apply zm_wf_nil|by left|..].
    + intros k' o' [[-> ->]|[_ H]]%Hin; [apply zm_wf_nil|by eapply (so_listeners _ Hs)].
    + intros k' t l. unfold registered_in. split.
      * intros (o' & [[-> ->]|[_ H]]%Hin & Hf); [done|eauto].
      * intros (o' & H & Hf). exists o'. split; [|done]. apply Hin. right. split; [|done].
        intros ->. apply pm_find_elem in H; [|done]. congruence.
Qed.

(** Registering a listener under a new token. *)
Lemma add_listener_ok ops k o o' t l :
  pm_wf ops -> (k, o) ∈ ops -> zm_wf (op_listeners o) -> om_find Z.ltb t (op_listeners o) = None ->
  op_listeners o' = om_set Z.ltb t l (op_listeners o) ->
  forall k1 t1 l1, registered_in (om_set Pos.ltb k o' ops) k1 t1 l1 <->
    (k1 = k /\ t1 = t /\ l1 = l) \/ registered_in ops k1 t1 l1.
Proof.
  intros Hw Hko Hzo Hfo Ho' k1 t1 l1. unfold registered_in. setoid_rewrite pm_set_elem; [|done]. split.
  - intros (o1 & [[-> ->]|[Hk Hin]] & Hf); [|right; eauto]. rewrite Ho' in Hf.
    destruct (decide (t1 = t)) as [-> |Ht].
    + rewrite zm_find_set_eq in Hf by done. simplify_eq. by left.
    + rewrite zm_find_set_ne in Hf by done. right. eauto.
  - intros [(-> & -> & ->)|(o1 & Hin & Hf)].
    + exists o'. split; [by left|]. rewrite Ho'. by apply zm_find_set_eq.
    + destruct (decide (k1 = k)) as [-> |Hk]; [|by exists o1; split; [right|]].
      assert (o1 = o) as -> by (apply pm_find_elem in Hin, Hko; [congruence|done..]).
      exists o'. split; [by left|]. rewrite Ho', zm_find_set_ne; [done|done|]. intros <-. congruence.
Qed.

Lemma token_fresh s k l : sc_ok s -> ~ registered_in (sc_ops s) k (sc_nextToken s) l.
Proof. intros Hs R. apply (so_tokens _ Hs) in R. lia. Qed.

(** An accepted listener. *)
Lemma sc_listen_ok answer now stoken q l s token calls fresh s' :
  sc_ok s -> sc_nextToken s < 2 ^ 64 - 1 ->
  sc_listen deref qderef answer now stoken q l s = (token, calls, fresh, s') -> token <> 0 ->
  token = sc_nextToken s /\ sc_ok s' /\
  exists k, (k = q \/ isSatisfiedBy (qderef q) (qderef k) = true) /\
    forall k1 t1 l1, registered_in (sc_ops s') k1 t1 l1 <->
      (k1 = k /\ t1 = token /\ l1 = l) \/ registered_in (sc_ops s) k1 t1 l1.
Proof.
  intros Hs Hmax. unfold sc_listen.
  destruct (sc_listen_target now stoken q s Hs) as (k & o & ops & fr & -> & Hw & Hko & Hzo & Hq & Hz & Hreg).
  destruct (addListener deref answer (sc_nextToken s) l o) as [[o' cs] ok] eqn:Ea.
  intros [= Htok <- <- <-] Hne. destruct ok; [|done]. subst token.
  assert (om_find Z.ltb (sc_nextToken s) (op_listeners o) = None) as Hfo.
  { destruct (om_find _ _ _) eqn:E; [|done]. exfalso. eapply (token_fresh s k); [done|]. apply Hreg. by exists o. }
  assert (op_listeners o' = om_set Z.ltb (sc_nextToken s) l (op_listeners o)) as Ho'.
  { revert Ea. unfold addListener, om_emplace. rewrite Hfo.
    destruct (match oc_get _ _ _ with [] => false | _ => _ end); by intros [= <- _]. }
  pose proof (so_next _ Hs) as Hpos. rewrite wrap_small by lia.
  destruct (Z.eqb_spec (sc_nextToken s + 1) 0) as [|_]; [lia|].
  pose proof (add_listener_ok ops k o o' _ l Hw Hko Hzo Hfo Ho') as Hreg'. setoid_rewrite Hreg in Hreg'.
  split_and!; [done| |by exists k]. split; cbn [sc_ops sc_nextToken]; [..|lia| |].
  - by apply (om_set_wf Pos.ltb (fun _ => True)).
  - intros k1 o1 Hin. apply pm_set_elem in Hin as [[-> ->]|[_ Hin]]; [|by eapply Hz|done].
    rewrite Ho'. by apply zm_set_wf.
  - intros k1 t1 l1 [(-> & -> & ->)|R]%Hreg'; [lia|]. apply (so_tokens _ Hs) in R. lia.
  - intros k1 k2 t1 l1 l2 [(-> & -> & ->)|R1]%Hreg' [(-> & ? & ->)|R2]%Hreg'; subst.
    + done.
    + by destruct (token_fresh s k2 l2 Hs).
    + by destruct (token_fresh s k1 l1 Hs).
    + by eapply (so_unique _ Hs).
Qed.

(** Tokens of a search are good for one cancellation.  When [listen] accepts a
    listener, its token is new and not 0, the listener is registered under it with the
    operation of the query or of a query that satisfies it, and every other listener is
    where it was; [cancelListen] of that token then succeeds, removes that listener and
    no other, and a second cancellation fails. *)
Theorem listen_cancel answer now stoken q l s token calls fresh s' :
  sc_ok s -> sc_nextToken s < 2 ^ 64 - 1 ->
  sc_listen deref qderef answer now stoken q l s = (token, calls, fresh, s') -> token <> 0 ->
  sc_ok s' /\
  (exists k, registered_in (sc_ops s') k token l /\
     (k = q \/ isSatisfiedBy (qderef q) (qderef k) = true)) /\
  (forall k t l', registered_in (sc_ops s) k t l' <-> registered_in (sc_ops s') k t l' /\ t <> token) /\
  forall now', exists s'', sc_cancelListen token now' s' = (true, s'') /\ sc_ok s'' /\
    (forall k t l', registered_in (sc_ops s'') k t l' <-> registered_in (sc_ops s) k t l') /\
    (sc_cancelListen token now' s'').1 = false.
Proof.
  intros Hs Hmax Hl Hne.
  destruct (sc_listen_ok _ _ _ _ _ _ _ _ _ _ Hs Hmax Hl Hne) as (-> & Hs' & k & Hq & Hreg).
  assert (forall k1 t1 l1, registered_in (sc_ops s) k1 t1 l1 -> t1 <> sc_nextToken s) as Hold.
  { intros k1 t1 l1 R ->. exact (token_fresh s _ _ Hs R). }
  split_and!; [done|exists k; split; [apply Hreg; by left|done]| |].
  - intros k1 t1 l1. rewrite Hreg. naive_solver.
  - intros now'. pose proof (sc_cancel_ok (sc_nextToken s) now' _ Hs') as Hc.
    destruct (sc_cancelListen (sc_nextToken s) now' s') as [found s''] eqn:Es.
    destruct Hc as (H1 & H2 & H3). exists s''.
    assert (found = true) as -> by (apply H2; exists k, l; apply Hreg; by left).
    split_and!; [done|done|intros k1 t1 l1; rewrite H3, Hreg; naive_solver|].
    pose proof (sc_cancel_ok (sc_nextToken s) now' s'' H1) as Hc2.
    destruct (sc_cancelListen (sc_nextToken s) now' s'') as [found2 s3]. destruct Hc2 as (_ & H5 & _).
    destruct found2; [|done]. exfalso. destruct (proj1 H5 eq_refl) as (k1 & l1 & R). apply H3 in R as [_ R]. by apply R.
Qed.

(** [SearchCache::expire] drops exactly the operations that had no listener for a
    minute, whose search tokens it cancels, keeps every registered listener, and returns
    (and notes) a time that is not after the expiration of any operation it keeps. *)
Theorem sc_expire_spec now s n toks s' :
  now <= time_max -> sc_expire now s = (n, toks, s') ->
  sc_ops s' = List.filter (fun e => negb (op_isExpired now e.2)) (sc_ops s) /\
  toks = map (fun e => op_searchToken e.2) (List.filter (fun e => op_isExpired now e.2) (sc_ops s)) /\
  sc_nextExpiration s' = n /\ Forall (fun e => n <= op_getExpiration e.2) (sc_ops s') /\
  (forall k t l, registered_in (sc_ops s) k t l -> registered_in (sc_ops s') k t l).
Proof.
  intros Hnow. unfold sc_expire. destruct (sc_expire_loop now (sc_ops s) time_max) as [[keep tk] n'] eqn:E.
  intros [= <- <- <-]. cbn [sc_ops sc_nextExpiration].
  assert (forall o, (op_getExpiration o <? now) = op_isExpired now o) as Hexp.
  { intros o. unfold op_getExpiration, op_isExpired. destruct (isDone o); cbn; [done|]. apply Z.ltb_ge. lia. }
  assert (forall ops m keep tk n, sc_expire_loop now ops m = (keep, tk, n) ->
    keep = List.filter (fun e => negb (op_isExpired now e.2)) ops /\
    tk = map (fun e => op_searchToken e.2) (List.filter (fun e => op_isExpired now e.2) ops) /\
    n <= m /\ Forall (fun e => n <= op_getExpiration e.2) keep) as Hloop.
  { clear E. intros ops. induction ops as [|[k o] ops IH]; intros m kp tk0 n0; cbn.
    { intros [= <- <- <-]. split_and!; [done..|lia|done]. }
    rewrite Hexp. destruct (op_isExpired now o) eqn:Eo; cbn.
    - destruct (sc_expire_loop now ops m) as [[kp' tk'] n1] eqn:E1. intros [= <- <- <-].
      destruct (IH _ _ _ _ E1) as (-> & -> & ? & ?). by split_and!.
    - destruct (sc_expire_loop now ops _) as [[kp' tk'] n1] eqn:E1. intros [= <- <- <-].
      destruct (IH _ _ _ _ E1) as (-> & -> & ? & ?). split_and!; [done..|lia|]. constructor; [cbn; lia|done]. }
  destruct (Hloop _ _ _ _ _ E) as (H1 & H2 & _ & H4). split_and!; [done..|].
  intros k t l (o & Hin & Hf). exists o. split; [|done]. rewrite H1. apply list_elem_of_In, List.filter_In.
  split; [by apply list_elem_of_In|]. cbn. unfold op_isExpired, isDone. by destruct (op_listeners o).
Qed.
End Tokens.

(** ** Examples *)

Module ListenDemo.
Import StorageDemo.
#[local] Existing Instance GnutlsDemo.demo.

Definition all_values : LocalListener := mkLocal None None 0.

(** The steps as functions. *)
Definition act_add (n : positive) (s : LState) : LState :=
  let '(c, es) := ValueCache_make true true in
  let '(o, calls) := feed heap es (ls_op s) in mkLS (<[n := c]> (ls_nodes s)) o (ls_log s ++ calls).

Definition act_op (n : positive) (x : vc_op) (s : LState) : LState :=
  match ls_nodes s !! n with
  | None => s
  | Some c =>
      match vc_step heap [] x c with
      | None => s
      | Some (c', es) =>
          let '(o, calls) := feed heap es (ls_op s) in mkLS (<[n := c']> (ls_nodes s)) o (ls_log s ++ calls)
      end
  end.

Definition act_listen (token : Z) (s : LState) : LState :=
  let '(o, calls, _) := addListener heap (fun _ => true) token all_values (ls_op s) in
  mkLS (ls_nodes s) o (ls_log s ++ calls).

Lemma add_step n s :
  ls_nodes s !! n = None -> Z.of_nat (size (ls_nodes s)) < 2 ^ 32 - 2 -> listen_step heap [] s (act_add n s).
Proof.
  intros H1 H2. unfold act_add. destruct (ValueCache_make true true) as [c es] eqn:E1.
  destruct (feed heap es (ls_op s)) as [o calls] eqn:E2. by eapply LStep_add.
Qed.

Lemma op_step n x s : is_Some (ls_nodes s !! n) -> op_time x -> rtc (listen_step heap []) s (act_op n x s).
Proof.
  intros [c Hn] Hx. unfold act_op. rewrite Hn. destruct (vc_step heap [] x c) as [[c' es]|] eqn:E1; [|done].
  destruct (feed heap es (ls_op s)) as [o calls] eqn:E2. apply rtc_once. by eapply LStep_op.
Qed.

Lemma listen_step' token s :
  Forall (fun c => call_token c <> token) (ls_log s) ->
  om_find Z.ltb token (op_listeners (ls_op s)) = None -> listen_step heap [] s (act_listen token s).
Proof.
  intros H1 H2. unfold act_listen. destruct (addListener _ _ _ _ _) as [[o calls] ok] eqn:E. by eapply LStep_listen.
Qed.

(** Two nodes, one value held by both, one by the first only, which then ends it. *)
Definition s1 : LState := act_listen 7 (act_add 2 (act_add 1 (listen_init 0 1))).
Definition s2 : LState := act_op 2 (OpValues [2%positive] [] [] 5) (act_op 1 (OpValues [1%positive; 2%positive] [] [] 5) s1).
Definition s3 : LState := act_op 1 (OpSynced true) (act_op 1 (OpValues [] [] [1; 2] 6) s2).

Lemma s3_reachable : rtc (listen_step heap []) (listen_init 0 1) s3.
Proof.
  unfold s3, s2, s1.
  eapply rtc_l; [apply (add_step 1); [reflexivity|reflexivity]|].
  eapply rtc_l; [apply (add_step 2); [reflexivity|reflexivity]|].
  eapply rtc_l; [apply (listen_step' 7); [constructor|reflexivity]|].
  etrans; [apply (op_step 1 (OpValues [1%positive; 2%positive] [] [] 5)); [by vm_compute; eexists|reflexivity]|].
  etrans; [apply (op_step 2 (OpValues [2%positive] [] [] 5)); [by vm_compute; eexists|reflexivity]|].
  etrans; [apply (op_step 1 (OpValues [] [] [1; 2] 6)); [by vm_compute; eexists|reflexivity]|].
  apply (op_step 1 (OpSynced true)); [by vm_compute; eexists|done].
Qed.

(** What the listener heard: two new values, then the end of the one no node holds. *)
Example s3_log : ls_log s3 =
  [mkCall 7 [1%positive; 2%positive] false; mkCall 7 [1%positive] true].
Proof. vm_compute. reflexivity. Qed.

Definition two_queries (q : positive) : Query := mkQuery [] [] false.

Lemma empty_ok : sc_ok (SearchCache_make (G := GnutlsDemo.demo)).
Proof.
  split; cbn; [apply om_wf_nil|set_solver|lia|..].
  - intros k t l (o & H & _). set_solver.
  - intros k k' t l l' (o & H & _). set_solver.
Qed.

(** A first listener on an empty cache. *)
Definition listened : Z * list call * bool * SearchCache :=
  sc_listen StorageDemo.heap two_queries (fun _ => true) 0 4 2 all_values SearchCache_make.

Lemma listened_eq : listened = (1, [], true, listened.2).
Proof. vm_compute. reflexivity. Qed.
End ListenDemo.

Lemma listeners_see_union_witness :
  replay StorageDemo.heap (heard 7 (ls_log ListenDemo.s3)) ∅ =
  Some (listener_view StorageDemo.heap ListenDemo.all_values (ls_op ListenDemo.s3)).
Proof.
  apply (proj1 (listeners_see_union StorageDemo.heap [] 0 1 ListenDemo.s3 ListenDemo.s3_reachable)).
  vm_compute. reflexivity.
Defined.

Lemma listen_cancel_witness :
  exists s'', sc_cancelListen 1 9 ListenDemo.listened.2 = (true, s'') /\ sc_ok s''.
Proof.
  destruct (listen_cancel StorageDemo.heap ListenDemo.two_queries (fun _ => true) 0 4 2 ListenDemo.all_values
    SearchCache_make 1 [] true ListenDemo.listened.2 ListenDemo.empty_ok ltac:(reflexivity) ListenDemo.listened_eq
    ltac:(discriminate)) as (_ & _ & _ & H).
  destruct (H 9) as (s'' & H1 & H2 & _). exists s''. split; [exact H1|exact H2].
Defined.

Lemma sc_expire_spec_witness :
  exists n toks s', sc_expire (seconds 100) (mkSC [(2%positive, OpCache_make (G := GnutlsDemo.demo) 0 4)] 1 time_max) = (n, toks, s') /\
    sc_ops s' = [] /\ toks = [4].
Proof.
  do 3 eexists. split; [vm_compute; reflexivity|].
  destruct (sc_expire_spec (seconds 100) (mkSC [(2%positive, OpCache_make (G := GnutlsDemo.demo) 0 4)] 1 time_max) time_max [4]
    (mkSC (G := GnutlsDemo.demo) [] 1 time_max)) as (H1 & H2 & _); [by vm_compute|vm_compute; reflexivity|].
  split; [exact H1|exact H2].
Defined.
