(* ===== verification/SearchNode.v ===== *)
(** * SearchNode: what a search knows of one node

    Models [struct Dht::SearchNode] of src/opendht-2.1.4/src/search.h.  The node and the
    requests are shared objects of the [World]; a map keyed by [Sp<Query>] is ordered by
    the address of the query ([qptr]).  Destroying a node of a search cancels its
    requests, closes its sockets and runs the callbacks of its value caches. *)
From S2P Require Import Prelude StdMap InfoHash SockAddr Node Value Query Storage DhtStorage ValueCache OpCache.

Definition REANNOUNCE_MARGIN : Z := seconds 10.

(** [CachedListenStatus]. *)
Record CachedListenStatus := mkCLS {
  cl_cache : ValueCache;
  cl_cacheExpirationJob : option positive;
  cl_req : option ptr;
  cl_socketId : Tid;
}.

Record SearchNode := mkSN {
  sn_node : ptr;
  sn_probe_query : option qptr;
  sn_pagination_queries : list (qptr * list qptr);
  sn_getStatus : list (qptr * option ptr);
  sn_listenStatus : list (qptr * CachedListenStatus);
  sn_acked : list (Z * (option ptr * Z));
  sn_token : bytes;
  sn_last_get_reply : Z;
  sn_syncJob : option positive;
  sn_candidate : bool;
}.

(** [SearchNode(node)]. *)
Definition SearchNode_make (p : ptr) : SearchNode := mkSN p None [] [] [] [] [] time_min None false.

(** Assignment of a member. *)
Ltac sn_with m f v :=
  let t := with_member mkSN m f v
    (sn_node, (sn_probe_query, (sn_pagination_queries, (sn_getStatus, (sn_listenStatus, (sn_acked, (sn_token,
    (sn_last_get_reply, (sn_syncJob, (sn_candidate, tt)))))))))) in exact t.

Definition sn_set_probe_query (x : option qptr) (n : SearchNode) : SearchNode := ltac:(sn_with n sn_probe_query x).
Definition sn_set_pagination (x : list (qptr * list qptr)) (n : SearchNode) : SearchNode := ltac:(sn_with n sn_pagination_queries x).
Definition sn_set_getStatus (x : list (qptr * option ptr)) (n : SearchNode) : SearchNode := ltac:(sn_with n sn_getStatus x).
Definition sn_set_listenStatus (x : list (qptr * CachedListenStatus)) (n : SearchNode) : SearchNode := ltac:(sn_with n sn_listenStatus x).
Definition sn_set_acked (x : list (Z * (option ptr * Z))) (n : SearchNode) : SearchNode := ltac:(sn_with n sn_acked x).
Definition sn_set_token (x : bytes) (n : SearchNode) : SearchNode := ltac:(sn_with n sn_token x).
Definition sn_set_last_get_reply (x : Z) (n : SearchNode) : SearchNode := ltac:(sn_with n sn_last_get_reply x).
Definition sn_set_syncJob (x : option positive) (n : SearchNode) : SearchNode := ltac:(sn_with n sn_syncJob x).
Definition sn_set_candidate (x : bool) (n : SearchNode) : SearchNode := ltac:(sn_with n sn_candidate x).

(** ** Reading shared objects *)

Definition node_expired (w : World) (p : ptr) : bool :=
  match w_nodes w !! p with Some n => isExpired n | None => false end.

Definition node_id (w : World) (p : ptr) : Hash := match w_nodes w !! p with Some n => n_id n | None => [] end.

Definition req_completed (w : World) (r : ptr) : bool :=
  match w_reqs w !! r with Some q => rq_completed q | None => false end.

Definition req_reply_time (w : World) (r : ptr) : Z :=
  match w_reqs w !! r with Some q => rq_reply_time q | None => time_min end.

(** [r and r->pending()]. *)
Definition opt_pending (w : World) (r : option ptr) : bool :=
  match r with Some r => req_is_pending w r | None => false end.

Section SearchNode.
Context {G : Gnutls} (deref : vptr -> Value) (qderef : qptr -> Query) (types : list (Z * Z)).

(** ** Predicates *)

Definition sn_isSynced (w : World) (now : Z) (n : SearchNode) : bool :=
  negb (node_expired w (sn_node n)) && negb (bool_decide (sn_token n = [])) &&
  (now - NODE_EXPIRE_TIME <=? sn_last_get_reply n).

Definition sn_getSyncTime (w : World) (now : Z) (n : SearchNode) : Z :=
  if node_expired w (sn_node n) || bool_decide (sn_token n = []) then now
  else sn_last_get_reply n + NODE_EXPIRE_TIME.

Definition hasStartedPagination (n : SearchNode) (q : qptr) : bool :=
  match om_find Pos.ltb q (sn_pagination_queries n) with
  | None | Some [] => false
  | Some pqs => existsb (fun query => match om_find Pos.ltb query (sn_getStatus n) with Some (Some _) => true | _ => false end) pqs
  end.

(** The loop of [canGet] over [getStatus]: is a request pending, is one that satisfies
    the query completed, is one pending. *)
Fixpoint canGet_loop (w : World) (update : Z) (q : qptr) (l : list (qptr * option ptr)) (pending completed_sq pending_sq : bool) :
    bool * bool * bool :=
  match l with
  | [] => (pending, completed_sq, pending_sq)
  | (k, r) :: l' =>
      let pending := pending || opt_pending w r in
      match isSatisfiedBy (qderef q) (qderef k), r with
      | true, Some r' =>
          let '(completed_sq, pending_sq) :=
            if req_is_pending w r' then (completed_sq, true)
            else if req_completed w r' && negb (req_reply_time w r' <? update) then (true, pending_sq)
            else (completed_sq, pending_sq) in
          if completed_sq && pending_sq then (pending, completed_sq, pending_sq)
          else canGet_loop w update q l' pending completed_sq pending_sq
      | _, _ => canGet_loop w update q l' pending completed_sq pending_sq
      end
  end.

Definition canGet (w : World) (now update : Z) (q : qptr) (n : SearchNode) : bool :=
  if node_expired w (sn_node n) then false
  else let '(pending, completed_sq, pending_sq) := canGet_loop w update q (sn_getStatus n) false false false in
       (negb pending && (sn_last_get_reply n + NODE_EXPIRE_TIME <? now)) ||
       negb (completed_sq || pending_sq || hasStartedPagination n q).

Definition sn_isDone (w : World) (q : qptr) (n : SearchNode) : bool :=
  if hasStartedPagination n q then
    match om_find Pos.ltb q (sn_pagination_queries n) with
    | Some pqs => negb (existsb (fun query => match om_find Pos.ltb query (sn_getStatus n) with
                                              | Some r => opt_pending w r | None => false end) pqs)
    | None => true
    end
  else match om_find Pos.ltb q (sn_getStatus n) with
       | Some (Some r) => negb (req_is_pending w r)
       | _ => false
       end.

Definition pendingGet (w : World) (n : SearchNode) : bool := existsb (fun e => opt_pending w e.2) (sn_getStatus n).
Definition pendingListen (w : World) (n : SearchNode) : bool := existsb (fun e => opt_pending w (cl_req e.2)) (sn_listenStatus n).

Definition sn_isAnnounced (w : World) (vid : Z) (n : SearchNode) : bool :=
  match om_find Z.ltb vid (sn_acked n) with
  | Some (Some r, _) => req_completed w r
  | _ => false
  end.

(** [isListening(now, status, listen_expire)], for one status, one query, any query. *)
Definition status_listening (w : World) (now listen_expire : Z) (c : CachedListenStatus) : bool :=
  match cl_req c with Some r => now <? req_reply_time w r + listen_expire | None => false end.

Definition sn_isListening_query (w : World) (now : Z) (q : qptr) (listen_expire : Z) (n : SearchNode) : bool :=
  match om_find Pos.ltb q (sn_listenStatus n) with Some c => status_listening w now listen_expire c | None => false end.

Definition sn_isListening (w : World) (now listen_expire : Z) (n : SearchNode) : bool :=
  existsb (fun e => status_listening w now listen_expire e.2) (sn_listenStatus n).

(** When a value, or a listen request, should next be sent. *)
Definition getAnnounceTime (w : World) (vid : Z) (n : SearchNode) : Z :=
  match om_find Z.ltb vid (sn_acked n) with
  | Some (Some r, t) =>
      if req_completed w r then t - REANNOUNCE_MARGIN
      else if req_is_pending w r then time_max else time_min
  | _ => time_min
  end.

Definition status_listenTime (w : World) (listen_expire : Z) (c : option CachedListenStatus) : Z :=
  match c with
  | Some (mkCLS _ _ (Some r) _) =>
      if req_is_pending w r then time_max else req_reply_time w r + listen_expire - REANNOUNCE_MARGIN
  | _ => time_min
  end.

Definition getListenTime (w : World) (q : qptr) (listen_expire : Z) (n : SearchNode) : Z :=
  status_listenTime w listen_expire (om_find Pos.ltb q (sn_listenStatus n)).

Definition isBad (w : World) (n : SearchNode) : bool := node_expired w (sn_node n) || sn_candidate n.

(** ** Updates *)

(** [getStatus[q] = r]. *)
Definition set_status (q : qptr) (r : option ptr) (n : SearchNode) : SearchNode :=
  sn_set_getStatus (om_set Pos.ltb q r (sn_getStatus n)) n.

Fixpoint cancel_gets (l : list (qptr * option ptr)) (p : ptr) (w : World) : outcome World :=
  match l with
  | [] => Ret w
  | (_, None) :: _ => Undef "null request"
  | (_, Some r) :: l' =>
      w' ← (if req_is_pending w r then cancelRequest (Some r) p w else Ret w);
      cancel_gets l' p w'
  end.

Definition cancelGet (n : SearchNode) (w : World) : outcome (SearchNode * World) :=
  w' ← cancel_gets (sn_getStatus n) (sn_node n) w; Ret (sn_set_getStatus [] n, w').

Fixpoint cancel_acks (l : list (Z * (option ptr * Z))) (p : ptr) (w : World) : outcome World :=
  match l with
  | [] => Ret w
  | (_, (req, _)) :: l' =>
      w' ← (if opt_pending w req then cancelRequest req p w else Ret w);
      cancel_acks l' p w'
  end.

Definition cancelAnnounce (n : SearchNode) (w : World) : outcome (SearchNode * World) :=
  w' ← cancel_acks (sn_acked n) (sn_node n) w; Ret (sn_set_acked [] n, w').

(** [~CachedListenStatus]: the socket is closed on the node of the request. *)
Definition close_socket (c : CachedListenStatus) (w : World) : World :=
  match cl_req c with
  | Some r =>
      if cl_socketId c =? 0 then w
      else match w_reqs w !! r with
           | Some q => match w_nodes w !! rq_node q with
                       | Some n => w_upd_node (rq_node q) (closeSocket (cl_socketId c) n) w
                       | None => w
                       end
           | None => w
           end
  | None => w
  end.

Definition CachedListenStatus_destroy (c : CachedListenStatus) (w : World) : World * list cache_event :=
  (close_socket c w, ValueCache_destroy (cl_cache c)).

Fixpoint cancel_listens (l : list (qptr * CachedListenStatus)) (p : ptr) (w : World) : outcome World :=
  match l with
  | [] => Ret w
  | (_, c) :: l' => w' ← cancelRequest (cl_req c) p w; cancel_listens l' p w'
  end.

(** [listenStatus.clear()]. *)
Fixpoint destroy_all (l : list (qptr * CachedListenStatus)) (w : World) : World * list cache_event :=
  match l with
  | [] => (w, [])
  | (_, c) :: l' =>
      let '(w1, e1) := CachedListenStatus_destroy c w in
      let '(w2, e2) := destroy_all l' w1 in (w2, e1 ++ e2)
  end.

Definition sn_cancelListen (n : SearchNode) (w : World) : outcome (SearchNode * World * list cache_event) :=
  w' ← cancel_listens (sn_listenStatus n) (sn_node n) w;
  let '(w'', evs) := destroy_all (sn_listenStatus n) w' in
  Ret (sn_set_listenStatus [] n, w'', evs).

Definition sn_cancelListen_query (q : qptr) (n : SearchNode) (w : World) : outcome (SearchNode * World * list cache_event) :=
  match om_find Pos.ltb q (sn_listenStatus n) with
  | None => Ret (n, w, [])
  | Some c =>
      w' ← cancelRequest (cl_req c) (sn_node n) w;
      let '(w'', evs) := CachedListenStatus_destroy c w' in
      Ret (sn_set_listenStatus (om_erase Pos.ltb q (sn_listenStatus n)) n, w'', evs)
  end.

(** [~SearchNode]. *)
Definition SearchNode_destroy (n : SearchNode) (w : World) : outcome (World * list cache_event) :=
  '(n1, w1) ← cancelGet n w;
  '(n2, w2, evs) ← sn_cancelListen n1 w1;
  '(_, w3) ← cancelAnnounce n2 w2;
  Ret (w3, evs).

(** [onValues], [onListenSynced], [expireValues]: the cache of one query; the time is
    that at which the expiration job is scheduled. *)
Definition with_cache (q : qptr) (f : ValueCache -> option (ValueCache * Z * list cache_event)) (n : SearchNode) :
    option (SearchNode * option (option positive * Z) * list cache_event) :=
  match om_find Pos.ltb q (sn_listenStatus n) with
  | None => Some (n, None, [])
  | Some c =>
      match f (cl_cache c) with
      | None => None
      | Some (cache', next, evs) =>
          Some (sn_set_listenStatus (om_set Pos.ltb q (mkCLS cache' (cl_cacheExpirationJob c) (cl_req c) (cl_socketId c)) (sn_listenStatus n)) n,
                Some (cl_cacheExpirationJob c, next), evs)
      end
  end.

Definition sn_onValues (q : qptr) (values : list vptr) (refreshed expired : list Z) (now : Z) :=
  with_cache q (onValues deref types values refreshed expired now).

Definition sn_expireValues (q : qptr) (now : Z) := with_cache q (expireValues now time_max).

Definition onListenSynced (q : qptr) (synced : bool) (n : SearchNode) : SearchNode * list cache_event :=
  match om_find Pos.ltb q (sn_listenStatus n) with
  | None => (n, [])
  | Some c =>
      let '(cache', evs) := onSynced synced (cl_cache c) in
      (sn_set_listenStatus (om_set Pos.ltb q (mkCLS cache' (cl_cacheExpirationJob c) (cl_req c) (cl_socketId c)) (sn_listenStatus n)) n, evs)
  end.
End SearchNode.

(** ** Destroying nodes leaves the nodes as they were *)

(** The members of a node that a search reads, and the node of a request. *)
Definition core (n : Node) : Hash * SockAddr * bool := (n_id n, n_addr n, n_expired n).

Definition frame (w w' : World) : Prop :=
  (forall p, core <$> w_nodes w' !! p = core <$> w_nodes w !! p) /\ (forall r, rq_node <$> w_reqs w' !! r = rq_node <$> w_reqs w !! r).

#[export] Instance frame_preorder : PreOrder frame.
Proof.
  split; [by intros w|]. intros a b c [H1 H2] [H3 H4]. split; intros; [by rewrite H3, H1|by rewrite H4, H2].
Qed.

Lemma frame_node w w' p : frame w w' -> is_Some (w_nodes w !! p) -> is_Some (w_nodes w' !! p).
Proof. intros [H _] [n Hn]. specialize (H p). rewrite Hn in H. by apply fmap_Some in H as (m & -> & _). Qed.

Lemma frame_req w w' r : frame w w' -> is_Some (w_reqs w !! r) -> is_Some (w_reqs w' !! r).
Proof. intros [_ H] [n Hn]. specialize (H r). rewrite Hn in H. by apply fmap_Some in H as (m & -> & _). Qed.

Lemma frame_expired w w' p : frame w w' -> node_expired w' p = node_expired w p.
Proof.
  intros [H _]. specialize (H p). unfold node_expired. destruct (w_nodes w' !! p), (w_nodes w !! p); try done. cbn in H.
  injection H as H. unfold core in H. unfold isExpired. congruence.
Qed.

Lemma frame_id w w' p : frame w w' -> node_id w' p = node_id w p.
Proof.
  intros [H _]. specialize (H p). unfold node_id. destruct (w_nodes w' !! p), (w_nodes w !! p); try done. cbn in H.
  injection H as H. unfold core in H. congruence.
Qed.

Lemma frame_upd_node w p n n' : w_nodes w !! p = Some n -> core n' = core n -> frame w (w_upd_node p n' w).
Proof.
  intros Hn Hc. split; [|done]. intros q. cbn. destruct (decide (q = p)) as [->|]; [by rewrite lookup_insert_eq, Hn; cbn; f_equal|].
  by rewrite lookup_insert_ne.
Qed.

Lemma frame_upd_req w r q q' : w_reqs w !! r = Some q -> rq_node q' = rq_node q -> frame w (w_upd_req r q' [] w).
Proof.
  intros Hn Hc. split; [done|]. intros x. cbn. destruct (decide (x = r)) as [->|]; [by rewrite lookup_insert_eq, Hn; cbn; f_equal|].
  by rewrite lookup_insert_ne.
Qed.

Lemma cancel_node q : rq_node (rq_cancel q) = rq_node q.
Proof. unfold rq_cancel. by destruct (rq_pending q). Qed.

(** A request pointer that is null or points to a request. *)
Definition valid_req (w : World) (r : option ptr) : Prop := match r with Some r => is_Some (w_reqs w !! r) | None => True end.

Lemma cancelRequest_frame w p r : is_Some (w_nodes w !! p) -> valid_req w r ->
  exists w', cancelRequest r p w = Ret w' /\ frame w w'.
Proof.
  intros [n Hn] Hr. destruct r as [r|]; [|by exists w]. destruct Hr as [q Hq]. cbn. rewrite Hn, Hq. eexists. split; [done|].
  etransitivity; [eapply (frame_upd_req w r q); [done|apply cancel_node]|].
  eapply frame_upd_node; [exact Hn|done].
Qed.

Definition wf_sn (w : World) (n : SearchNode) : Prop :=
  is_Some (w_nodes w !! sn_node n) /\
  Forall (fun e => exists r, e.2 = Some r /\ is_Some (w_reqs w !! r)) (sn_getStatus n) /\
  Forall (fun e => valid_req w (cl_req e.2)) (sn_listenStatus n) /\
  Forall (fun e => valid_req w e.2.1) (sn_acked n).

Lemma frame_valid w w' r : frame w w' -> valid_req w r -> valid_req w' r.
Proof. destruct r; [|done]. apply frame_req. Qed.

Lemma frame_wf w w' n : frame w w' -> wf_sn w n -> wf_sn w' n.
Proof.
  intros Hf (H1 & H2 & H3 & H4). split; [by eapply frame_node|]. split_and!; (eapply Forall_impl; [eassumption|]); cbn; intros x.
  - intros (r & ? & ?). exists r. split; [done|by eapply frame_req].
  - by apply frame_valid.
  - by apply frame_valid.
Qed.

Lemma cancel_gets_frame p l w : is_Some (w_nodes w !! p) ->
  Forall (fun e => exists r, e.2 = Some r /\ is_Some (w_reqs w !! r)) l ->
  exists w', cancel_gets l p w = Ret w' /\ frame w w'.
Proof.
  revert w. induction l as [|[q [r|]] l IH]; intros w Hp Hl; cbn [cancel_gets]; [by exists w|..]; apply Forall_cons in Hl as [(r' & E & Hr) Hl]; [|done].
  injection E as <-. assert (exists w', (if req_is_pending w r then cancelRequest (Some r) p w else Ret w) = Ret w' /\ frame w w') as (w1 & -> & Hf1).
  { destruct (req_is_pending w r); [by apply cancelRequest_frame|by exists w]. }
  cbn [mbind outcome_bind]. destruct (IH w1) as (w2 & -> & Hf2); [by eapply frame_node| |].
  { eapply Forall_impl; [exact Hl|]. intros x (r' & ? & ?). exists r'. split; [done|by eapply frame_req]. }
  exists w2. split; [done|by etransitivity].
Qed.

Lemma cancel_acks_frame p l w : is_Some (w_nodes w !! p) -> Forall (fun e => valid_req w e.2.1) l ->
  exists w', cancel_acks l p w = Ret w' /\ frame w w'.
Proof.
  revert w. induction l as [|[v [r t]] l IH]; intros w Hp Hl; cbn [cancel_acks]; [by exists w|]. apply Forall_cons in Hl as [Hr Hl].
  assert (exists w', (if opt_pending w r then cancelRequest r p w else Ret w) = Ret w' /\ frame w w') as (w1 & -> & Hf1).
  { destruct (opt_pending w r); [by apply cancelRequest_frame|by exists w]. }
  cbn [mbind outcome_bind]. destruct (IH w1) as (w2 & -> & Hf2); [by eapply frame_node| |].
  { eapply Forall_impl; [exact Hl|]. intros x. by apply frame_valid. }
  exists w2. split; [done|by etransitivity].
Qed.

Lemma cancel_listens_frame p l w : is_Some (w_nodes w !! p) -> Forall (fun e => valid_req w (cl_req e.2)) l ->
  exists w', cancel_listens l p w = Ret w' /\ frame w w'.
Proof.
  revert w. induction l as [|[q c] l IH]; intros w Hp Hl; cbn [cancel_listens]; [by exists w|]. apply Forall_cons in Hl as [Hr Hl].
  destruct (cancelRequest_frame w p (cl_req c) Hp Hr) as (w1 & -> & Hf1). cbn [mbind outcome_bind].
  destruct (IH w1) as (w2 & -> & Hf2); [by eapply frame_node| |].
  { eapply Forall_impl; [exact Hl|]. intros x. by apply frame_valid. }
  exists w2. split; [done|by etransitivity].
Qed.

Lemma close_socket_frame c w : frame w (close_socket c w).
Proof.
  unfold close_socket. destruct (cl_req c) as [r|]; [|done]. destruct (_ =? 0); [done|].
  destruct (w_reqs w !! r) as [q|]; [|done]. destruct (w_nodes w !! rq_node q) as [n|] eqn:E; [|done].
  eapply frame_upd_node; [exact E|]. unfold closeSocket. by destruct (_ =? 0).
Qed.

Lemma destroy_all_frame l w : frame w (destroy_all l w).1.
Proof.
  revert w. induction l as [|[q c] l IH]; intros w; cbn [destroy_all]; [done|]. cbn [CachedListenStatus_destroy].
  specialize (IH (close_socket c w)). destruct (destroy_all l (close_socket c w)) as [w2 e2]. cbn in *.
  etransitivity; [apply close_socket_frame|done].
Qed.

Lemma SearchNode_destroy_frame n w : wf_sn w n -> exists w' evs, SearchNode_destroy n w = Ret (w', evs) /\ frame w w'.
Proof.
  intros (Hp & Hg & Hl & Ha). unfold SearchNode_destroy, cancelGet, sn_cancelListen, cancelAnnounce.
  destruct (cancel_gets_frame (sn_node n) (sn_getStatus n) w Hp Hg) as (w1 & -> & Hf1). cbn [mbind outcome_bind sn_listenStatus sn_set_getStatus sn_node].
  destruct (cancel_listens_frame (sn_node n) (sn_listenStatus n) w1) as (w2 & -> & Hf2); [by eapply frame_node| |].
  { eapply Forall_impl; [exact Hl|]. intros x. by apply frame_valid. }
  cbn [mbind outcome_bind]. pose proof (destroy_all_frame (sn_listenStatus n) w2) as Hf3.
  destruct (destroy_all (sn_listenStatus n) w2) as [w3 evs]. cbn [mbind outcome_bind fst] in *. cbn [sn_acked sn_set_listenStatus sn_set_getStatus sn_node].
  assert (frame w w3) as Hf by (etransitivity; [exact Hf1|etransitivity; [exact Hf2|exact Hf3]]).
  destruct (cancel_acks_frame (sn_node n) (sn_acked n) w3) as (w4 & -> & Hf4); [by eapply frame_node| |].
  { eapply Forall_impl; [exact Ha|]. intros x. by apply frame_valid. }
  cbn [mbind outcome_bind]. exists w4, evs. split; [done|]. by etransitivity.
Qed.
