(* ===== verification/Search.v ===== *)
(** * Search: the nodes, gets, puts and listeners of one key

    Models [struct Dht::Search] of src/opendht-2.1.4/src/search.h.  A search keeps the
    nodes it thinks responsible for its key, sorted by distance; [insertNode] keeps at
    most [SEARCH_NODES] good ones.  The callbacks that are run are events, in order.
    Vector iterators are positions; using one after its element was removed is
    [Undef]. *)
From S2P Require Import Prelude StdMap InfoHash SockAddr Node Value Query Storage DhtStorage ValueCache OpCache SearchNode.

Definition SEARCH_NODES : Z := 14.
Definition TARGET_NODES : nat := 8.
Definition LISTEN_NODES : nat := 4.
Definition MAX_REQUESTED_SEARCH_NODES : Z := 4.
Definition SEARCH_MAX_BAD_NODES : Z := 25.

Section Search.
Context {G : Gnutls} (deref : vptr -> Value) (qderef : qptr -> Query).

(** [Dht::Get], [Dht::Announce], [SearchListener]: callbacks are named by numbers,
    [None] an empty [std::function]. *)
Record Get := mkGet {
  g_start : Z; g_filter : Filter; g_query : qptr;
  g_query_cb : option nat; g_get_cb : option nat; g_done_cb : option nat;
}.

Record Announce := mkAnnounce { an_permanent : bool; an_value : vptr; an_created : Z; an_callback : option nat }.

Record SearchListener := mkSL { sl_query : qptr; sl_get_cb : nat; sl_sync_cb : nat }.

Record Search := mkSearch {
  sr_id : Hash;
  sr_af : Z;
  sr_tid : Z;
  sr_refill_time : Z;
  sr_step_time : Z;
  sr_nextSearchStep : option positive;
  sr_expired : bool;
  sr_done : bool;
  sr_nodes : list SearchNode;
  sr_announce : list Announce;
  sr_callbacks : list (Z * Get);
  sr_listeners : list (Z * SearchListener);
  sr_listener_token : Z;
  sr_cache : SearchCache;
  sr_opExpirationJob : option positive;
}.

(** [std::make_shared<Search>()]: [af] and [tid] are set by the caller. *)
Definition Search_make : Search :=
  mkSearch (Hash_zero HASH_LEN) 0 0 time_min time_min None false false [] [] [] [] 1 SearchCache_make None.

Ltac sr_with m f v :=
  let t := with_member mkSearch m f v
    (sr_id, (sr_af, (sr_tid, (sr_refill_time, (sr_step_time, (sr_nextSearchStep, (sr_expired, (sr_done, (sr_nodes,
    (sr_announce, (sr_callbacks, (sr_listeners, (sr_listener_token, (sr_cache, (sr_opExpirationJob, tt))))))))))))))) in exact t.

Definition sr_set_id (x : Hash) (s : Search) : Search := ltac:(sr_with s sr_id x).
Definition sr_set_af (x : Z) (s : Search) : Search := ltac:(sr_with s sr_af x).
Definition sr_set_tid (x : Z) (s : Search) : Search := ltac:(sr_with s sr_tid x).
Definition sr_set_refill_time (x : Z) (s : Search) : Search := ltac:(sr_with s sr_refill_time x).
Definition sr_set_step_time (x : Z) (s : Search) : Search := ltac:(sr_with s sr_step_time x).
Definition sr_set_nextSearchStep (x : option positive) (s : Search) : Search := ltac:(sr_with s sr_nextSearchStep x).
Definition sr_set_expired (x : bool) (s : Search) : Search := ltac:(sr_with s sr_expired x).
Definition sr_set_done (x : bool) (s : Search) : Search := ltac:(sr_with s sr_done x).
Definition sr_set_nodes (x : list SearchNode) (s : Search) : Search := ltac:(sr_with s sr_nodes x).
Definition sr_set_announce (x : list Announce) (s : Search) : Search := ltac:(sr_with s sr_announce x).
Definition sr_set_callbacks (x : list (Z * Get)) (s : Search) : Search := ltac:(sr_with s sr_callbacks x).
Definition sr_set_listeners (x : list (Z * SearchListener)) (s : Search) : Search := ltac:(sr_with s sr_listeners x).
Definition sr_set_listener_token (x : Z) (s : Search) : Search := ltac:(sr_with s sr_listener_token x).
Definition sr_set_cache (x : SearchCache) (s : Search) : Search := ltac:(sr_with s sr_cache x).
Definition sr_set_opExpirationJob (x : option positive) (s : Search) : Search := ltac:(sr_with s sr_opExpirationJob x).

(** What a search does to the outside: callbacks it runs, and jobs it schedules. *)
Inductive effect :=
| DoneCb (cb : nat) (ok : bool) (nodes : list ptr)
| GetCb (cb : nat) (vals : list vptr)
| CacheEv (e : cache_event)
| ListenEv (c : call)
| EditJob (j : option positive) (t : Z)
| AddOpExpiration
| CancelJob (j : positive).

(** Run a callback if it is set. *)
Definition done_if (cb : option nat) (ok : bool) (nodes : list ptr) : list effect :=
  match cb with Some c => [DoneCb c ok nodes] | None => [] end.

(** ** Predicates *)

Definition getNodes (s : Search) : list ptr := map sn_node (sr_nodes s).

(** [getNode]: the position of the node. *)
Fixpoint find_node (p : ptr) (l : list SearchNode) (i : nat) : option nat :=
  match l with
  | [] => None
  | n :: l' => if bool_decide (p = sn_node n) then Some i else find_node p l' (S i)
  end.
Definition getNode (p : ptr) (s : Search) : option nat := find_node p (sr_nodes s) 0.

Definition currentlySolicitedNodeCount (w : World) (s : Search) : Z :=
  Z.of_nat (length (List.filter (fun n => negb (isBad w n) && pendingGet w n) (sr_nodes s))).

Definition getNumberOfBadNodes (w : World) (l : list SearchNode) : Z :=
  Z.of_nat (length (List.filter (isBad w) l)).

Fixpoint getNumberOfConsecutiveBadNodes (w : World) (l : list SearchNode) : Z :=
  match l with
  | [] => 0
  | n :: l' => if node_expired w (sn_node n) then 1 + getNumberOfConsecutiveBadNodes w l' else 0
  end.

(** The loops over the first [max] nodes that are not bad: [None] when [ok] fails on one
    of them, else how many were seen. *)
Fixpoint first_good (w : World) (ok : SearchNode -> bool) (max : nat) (l : list SearchNode) (i : nat) : option nat :=
  match l with
  | [] => Some i
  | n :: l' =>
      if isBad w n then first_good w ok max l' i
      else if negb (ok n) then None
      else if (S i =? max)%nat then Some (S i) else first_good w ok max l' (S i)
  end.

Definition positive_count (r : option nat) : bool := match r with Some (S _) => true | _ => false end.

Definition sr_isSynced (w : World) (now : Z) (s : Search) : bool :=
  positive_count (first_good w (sn_isSynced w now) TARGET_NODES (sr_nodes s) 0).

Definition sr_isDone (w : World) (g : Get) (s : Search) : bool :=
  match first_good w (sn_isDone w (g_query g)) TARGET_NODES (sr_nodes s) 0 with Some _ => true | None => false end.

Definition sr_isAnnounced (w : World) (id : Z) (s : Search) : bool :=
  match sr_nodes s with
  | [] => false
  | l => positive_count (first_good w (sn_isAnnounced w id) TARGET_NODES l 0)
  end.

Definition sr_isListening (w : World) (now listen_expire : Z) (s : Search) : bool :=
  match sr_nodes s, sr_listeners s with
  | [], _ | _, [] => false
  | l, _ => positive_count (first_good w (sn_isListening w now listen_expire) LISTEN_NODES l 0)
  end.

Definition getLastGetTime_query (q : Query) (s : Search) : Z :=
  fold_left (fun last e => Z.max last (if isSatisfiedBy q (qderef (g_query e.2)) then g_start e.2 else time_min))
    (sr_callbacks s) time_min.

Definition getLastGetTime (s : Search) : Z :=
  fold_left (fun last e => Z.max last (g_start e.2)) (sr_callbacks s) time_min.

Definition sr_getPut (s : Search) : list vptr := map an_value (sr_announce s).

Definition sr_getPut_id (vid : Z) (s : Search) : option vptr :=
  an_value <$> List.find (fun a => id_of deref (an_value a) =? vid) (sr_announce s).

(** ** Operations *)

(** [setDone(get)]. *)
Definition erase_queries (qs : list qptr) (n : SearchNode) : SearchNode :=
  sn_set_getStatus (fold_left (fun l q => om_erase Pos.ltb q l) qs (sn_getStatus n)) n.

Definition setDone_get (g : Get) (s : Search) : Search * list effect :=
  let clean n :=
    erase_queries (match om_find Pos.ltb (g_query g) (sn_pagination_queries n) with Some pqs => pqs | None => [] end ++ [g_query g]) n in
  let s' := sr_set_nodes (map clean (sr_nodes s)) s in
  (s', done_if (g_done_cb g) true (getNodes s')).

(** [setDone()]: the listen statuses of every node are destroyed. *)
Fixpoint clear_statuses (l : list SearchNode) (w : World) : list SearchNode * World * list effect :=
  match l with
  | [] => ([], w, [])
  | n :: l' =>
      let '(w1, evs) := destroy_all (sn_listenStatus n) w in
      let '(r, w2, evs') := clear_statuses l' w1 in
      (sn_set_acked [] (sn_set_listenStatus [] (sn_set_getStatus [] n)) :: r, w2, map CacheEv evs ++ evs')
  end.

Definition sr_setDone (s : Search) (w : World) : Search * World * list effect :=
  let '(l, w', evs) := clear_statuses (sr_nodes s) w in (sr_set_done true (sr_set_nodes l s), w', evs).

(** [get]: [answer] is what the callback says to cached values. *)
Definition sr_get (answer : list vptr -> bool) (f : Filter) (q : qptr) (qcb gcb dcb : option nat) (now : Z) (s : Search) :
    outcome (Search * list effect) :=
  match gcb, qcb with
  | None, None => Ret (s, [])
  | _, _ =>
      let '(over, vals) := sc_get_op deref qderef answer f q (sr_cache s) in
      calls ← match vals, gcb with
              | None, _ => Ret []
              | Some vs, Some cb => Ret [GetCb cb vs]
              | Some _, None => Throw "bad_function_call"
              end;
      if over then
        match dcb with
        | Some cb => Ret (s, calls ++ [DoneCb cb true []])
        | None => Throw "bad_function_call"
        end
      else
        Ret (sr_set_callbacks (mm_insert Z.ltb now (mkGet now f q qcb gcb dcb) (sr_callbacks s)) s,
             calls ++ [EditJob (sr_nextSearchStep s) now])
  end.

(** [listen]: a new operation registers a listener of the search, with the callbacks of
    the operation, and reopens it. *)
Definition sr_listen (answer : list vptr -> bool) (now : Z) (q : qptr) (l : LocalListener) (get_cb sync_cb : nat) (s : Search) :
    Z * Search * list effect :=
  let stoken := u64 (sr_listener_token s + 1) in
  let '(token, calls, fresh, cache') := sc_listen deref qderef answer now stoken q l (sr_cache s) in
  let s1 := sr_set_cache cache' s in
  if fresh : bool then
    (token,
     sr_set_listeners (om_emplace Z.ltb stoken (mkSL q get_cb sync_cb) (sr_listeners s)).1
       (sr_set_listener_token stoken (sr_set_done false s1)),
     EditJob (sr_nextSearchStep s) now :: map ListenEv calls)
  else (token, s1, map ListenEv calls).

(** [cancelListen]: the first one makes the job that expires operations. *)
Definition sr_cancelListen (token now : Z) (job : positive) (s : Search) : Search * list effect :=
  let '(_, cache') := sc_cancelListen token now (sr_cache s) in
  let s1 := sr_set_cache cache' s in
  match sr_opExpirationJob s with
  | None => (sr_set_opExpirationJob (Some job) s1, [AddOpExpiration; EditJob (Some job) (sc_nextExpiration cache')])
  | Some j => (s1, [EditJob (Some j) (sc_nextExpiration cache')])
  end.

(** The job: the operations that expired are dropped with their listeners, and the nodes
    stop listening to the query, or to all when no listener is left. *)
Fixpoint nodes_cancelListen (q : option qptr) (none_left : bool) (l : list SearchNode) (w : World) :
    outcome (list SearchNode * World * list effect) :=
  match l with
  | [] => Ret ([], w, [])
  | n :: l' =>
      '(n', w', evs) ← (if none_left then sn_cancelListen n w
                        else match q with Some q => sn_cancelListen_query q n w | None => Ret (n, w, []) end);
      '(r, w'', evs') ← nodes_cancelListen q none_left l' w';
      Ret (n' :: r, w'', map CacheEv evs ++ evs')
  end.

Fixpoint cancel_tokens (toks : list Z) (s : Search) (w : World) : outcome (Search * World * list effect) :=
  match toks with
  | [] => Ret (s, w, [])
  | t :: toks' =>
      let q := sl_query <$> om_find Z.ltb t (sr_listeners s) in
      let ls := om_erase Z.ltb t (sr_listeners s) in
      '(l, w', evs) ← nodes_cancelListen q (bool_decide (ls = [])) (sr_nodes s) w;
      '(s', w'', evs') ← cancel_tokens toks' (sr_set_nodes l (sr_set_listeners ls s)) w';
      Ret (s', w'', evs ++ evs')
  end.

Definition opExpiration (now : Z) (s : Search) (w : World) : outcome (Search * World * list effect) :=
  let '(next, toks, cache') := sc_expire now (sr_cache s) in
  '(s', w', evs) ← cancel_tokens toks (sr_set_cache cache' s) w;
  Ret (s', w', evs ++ [EditJob (sr_opExpirationJob s') next]).

(** [acked[vid].first.reset()]: a new entry has a time of zero. *)
Definition reset_ack (vid : Z) (n : SearchNode) : SearchNode :=
  let t := match om_find Z.ltb vid (sn_acked n) with Some (_, t) => t | None => 0 end in
  sn_set_acked (om_set Z.ltb vid (None, t) (sn_acked n)) n.

Definition forget_ack (vid : Z) (n : SearchNode) : SearchNode := reset_ack vid (sn_set_probe_query None n).

(** [put]. *)
Fixpoint find_announce (vid : Z) (l : list Announce) : option (list Announce * Announce * list Announce) :=
  match l with
  | [] => None
  | a :: l' =>
      if id_of deref (an_value a) =? vid then Some ([], a, l')
      else match find_announce vid l' with
           | Some (pre, x, post) => Some (a :: pre, x, post)
           | None => None
           end
  end.

Definition sr_put (w : World) (value : vptr) (callback : option nat) (created : Z) (permanent : bool) (s : Search) :
    Search * list effect :=
  let s := sr_set_expired false (sr_set_done false s) in
  let vid := id_of deref value in
  match find_announce vid (sr_announce s) with
  | None =>
      (sr_set_nodes (map (forget_ack vid) (sr_nodes s))
         (sr_set_announce (sr_announce s ++ [mkAnnounce permanent value created callback]) s), [])
  | Some (pre, a, post) =>
      let s1 := if bool_decide (an_value a = value) then s else sr_set_nodes (map (forget_ack vid) (sr_nodes s)) s in
      if sr_isAnnounced w vid s1 then
        (sr_set_announce (pre ++ mkAnnounce permanent value created None :: post) s1,
         done_if (an_callback a) true [] ++ done_if callback true [])
      else
        (sr_set_announce (pre ++ mkAnnounce permanent value created callback :: post) s1,
         done_if (an_callback a) false [])
  end.

(** Drop the acknowledgement of a value, cancelling its request. *)
Fixpoint drop_acks (vid : Z) (l : list SearchNode) (w : World) : list SearchNode * World :=
  match l with
  | [] => ([], w)
  | n :: l' =>
      let '(n', w') :=
        match om_find Z.ltb vid (sn_acked n) with
        | None => (n, w)
        | Some (r, _) =>
            (sn_set_acked (om_erase Z.ltb vid (sn_acked n)) n,
             match r with
             | Some r => match w_reqs w !! r with Some q => w_upd_req r (rq_cancel q) [] w | None => w end
             | None => w
             end)
        end in
      let '(r, w'') := drop_acks vid l' w' in (n' :: r, w'')
  end.

(** [cancelPut]. *)
Definition sr_cancelPut (vid : Z) (s : Search) (w : World) : bool * Search * World :=
  let keep := List.filter (fun a => negb (id_of deref (an_value a) =? vid)) (sr_announce s) in
  let '(l, w') := drop_acks vid (sr_nodes s) w in
  (negb (length keep =? length (sr_announce s))%nat, sr_set_nodes l (sr_set_announce keep s), w').

(** [checkAnnounced]: the predicate of [std::partition] runs the callback of a value
    that is announced; [keep] is its result. *)
Definition check_announce (w : World) (vid : Z) (s : Search) (a : Announce) : Announce * bool * list effect :=
  if negb (vid =? 0) && negb (id_of deref (an_value a) =? vid) then (a, true, [])
  else if sr_isAnnounced w (id_of deref (an_value a)) s then
    (mkAnnounce (an_permanent a) (an_value a) (an_created a) None, an_permanent a,
     done_if (an_callback a) true (getNodes s))
  else (a, true, []).

Fixpoint drop_all_acks (vids : list Z) (l : list SearchNode) (w : World) : list SearchNode * World :=
  match vids with
  | [] => (l, w)
  | vid :: vids' => let '(l', w') := drop_acks vid l w in drop_all_acks vids' l' w'
  end.

Definition checkAnnounced `{Partition} (vid : Z) (s : Search) (w : World) : Search * World * list effect :=
  let checked := map (check_announce w vid s) (sr_announce s) in
  let '(keep, over) := partition (fun x => x.1.2) checked in
  let '(l, w') := drop_all_acks (map (fun x => id_of deref (an_value x.1.1)) over) (sr_nodes s) w in
  (sr_set_nodes l (sr_set_announce (map (fun x => x.1.1) keep) s), w', concat (map snd checked)).

(** [nodes.clear()], [nodes.resize(n)], [nodes.pop_back()]: the removed nodes are
    destroyed. *)
Fixpoint destroy_nodes (l : list SearchNode) (w : World) : outcome (World * list effect) :=
  match l with
  | [] => Ret (w, [])
  | n :: l' =>
      '(w1, evs) ← SearchNode_destroy n w;
      '(w2, evs') ← destroy_nodes l' w1;
      Ret (w2, map CacheEv evs ++ evs')
  end.

(** [expire]. *)
Definition sr_expire (s : Search) (w : World) : outcome (Search * World * list effect) :=
  '(w1, evs) ← destroy_nodes (sr_nodes s) w;
  let s1 := sr_set_nodes [] (sr_set_expired true s) in
  let s2 := match sr_announce s, sr_listeners s with [], [] => sr_set_done true s1 | _, _ => s1 end in
  let gets := concat (map (fun e => done_if (g_done_cb e.2) false []) (sr_callbacks s)) in
  let puts := concat (map (fun a => done_if (an_callback a) false []) (sr_announce s)) in
  let left := map (fun a => mkAnnounce (an_permanent a) (an_value a) (an_created a) None)
                (List.filter an_permanent (sr_announce s)) in
  Ret (sr_set_announce left (sr_set_callbacks [] s2), w1, evs ++ gets ++ puts).

(** [clear]. *)
Definition sr_clear (s : Search) (w : World) : outcome (Search * World * list effect) :=
  '(w1, evs) ← destroy_nodes (sr_nodes s) w;
  Ret (sr_set_nextSearchStep None (sr_set_nodes [] (sr_set_listeners [] (sr_set_callbacks [] (sr_set_announce [] s)))), w1, evs).

(** [~Search]: callbacks are called without a test, and an exception leaves a
    destructor. *)
Fixpoint call_all (cbs : list (option nat)) : outcome (list effect) :=
  match cbs with
  | [] => Ret []
  | None :: _ => Terminate "bad_function_call in a destructor"
  | Some cb :: cbs' => r ← call_all cbs'; Ret (DoneCb cb false [] :: r)
  end.

Definition Search_destroy (s : Search) (w : World) : outcome (World * list effect) :=
  calls ← call_all (map (fun e => g_done_cb e.2) (sr_callbacks s) ++ map an_callback (sr_announce s));
  '(w', evs) ← destroy_nodes (sr_nodes s) w;
  Ret (w', match sr_opExpirationJob s with Some j => [CancelJob j] | None => [] end ++ calls ++ evs).

(** ** Inserting nodes *)

(** The loop from the end of the list: is the node there, and where is or goes it;
    [k] is the position of the iterator. *)
Fixpoint scan_back (w : World) (id nid : Hash) (p : ptr) (l : list SearchNode) (k : nat) : bool * nat :=
  match k with
  | O => (false, O)
  | S k' =>
      match l !! k' with
      | None => (false, k)
      | Some n =>
          if bool_decide (sn_node n = p) then (true, k')
          else if 0 <? xorCmp id nid (node_id w (sn_node n)) then (false, k)
          else scan_back w id nid p l k'
      end
  end.

(** Step back from position [k] until at most [SEARCH_NODES] of the nodes before it are
    not counted in [bad]; [count_bad] tells whether the nodes passed are.  Positions and
    counts are [size_t]. *)
Fixpoint step_back (w : World) (count_bad : bool) (l : list SearchNode) (k : nat) (bad : Z) : outcome (nat * Z) :=
  if SEARCH_NODES <? u64 (Z.of_nat k - bad) then
    match k with
    | O => Undef "iterator before the beginning"
    | S k' =>
        match l !! k' with
        | None => Undef "iterator past the end"
        | Some n => step_back w count_bad l k' (if count_bad && isBad w n then u64 (bad - 1) else bad)
        end
    end
  else Ret (k, bad).

(** Whether the search is full, where to trim it, and how many bad nodes come before. *)
Definition trim_at (w : World) (s : Search) : outcome (bool * nat * Z) :=
  let size := length (sr_nodes s) in
  if sr_expired s then
    if SEARCH_NODES <=? Z.of_nat size then Ret (true, Z.to_nat SEARCH_NODES, 0) else Ret (false, size, 0)
  else
    let bad := getNumberOfBadNodes w (sr_nodes s) in
    '(t, bad') ← step_back w true (sr_nodes s) size bad;
    Ret (SEARCH_NODES <=? u64 (Z.of_nat size - bad), t, bad').

(** The last part of [insertNode]: what a reply with a token sets. *)
Definition put_token (now : Z) (token : bytes) (i : nat) (s : Search) : outcome Search :=
  match token with
  | [] => Ret s
  | _ =>
      match sr_nodes s !! i with
      | None => Undef "iterator to a removed node"
      | Some n =>
          let n1 := sn_set_last_get_reply now (sn_set_candidate false n) in
          let n2 := if (length token <=? 64)%nat then sn_set_token token n1 else n1 in
          Ret (sr_set_expired false (sr_set_nodes (<[i := n2]> (sr_nodes s)) s))
      end
  end.

(** [removeExpiredNode]: the last removable node goes. *)
Fixpoint last_removable (w : World) (now : Z) (l : list SearchNode) (k : nat) : option nat :=
  match k with
  | O => None
  | S k' =>
      match l !! k' with
      | Some n => if match w_nodes w !! sn_node n with Some nd => isRemovable now nd | None => false end
                  then Some k' else last_removable w now l k'
      | None => None
      end
  end.

Definition removeExpiredNode (now : Z) (s : Search) (w : World) : outcome (bool * Search * World * list effect) :=
  match last_removable w now (sr_nodes s) (length (sr_nodes s)) with
  | None => Ret (false, s, w, [])
  | Some k =>
      '(w', evs) ← destroy_nodes (take 1 (drop k (sr_nodes s))) w;
      Ret (true, sr_set_nodes (take k (sr_nodes s) ++ drop (S k) (sr_nodes s)) s, w', evs)
  end.

(** The node is put at [i], and the list cut to its size. *)
Definition emplace_node (p : ptr) (nd : Node) (now : Z) (i : nat) (bad : Z) (s : Search) (w : World) :
    outcome (Search * World * list effect) :=
  let s1 := match sr_nodes s with [] => sr_set_step_time time_min s | _ => s end in
  let l := take i (sr_nodes s1) ++ SearchNode_make p :: drop i (sr_nodes s1) in
  let w1 := w_upd_node p (setTime now nd) w in
  let '(bad', expired') :=
    if isExpired nd then (if sr_expired s then bad else bad + 1, sr_expired s)
    else if sr_expired s then (Z.of_nat (length l) - 1, false) else (bad, false) in
  '(k, _) ← step_back w1 (negb expired') l (length l) bad';
  '(w2, evs) ← destroy_nodes (rev (drop k l)) w1;
  Ret (sr_set_expired expired' (sr_set_nodes (take k l) s1), w2, evs).

(** [insertNode]. *)
Definition sr_insertNode (p : ptr) (now : Z) (token : bytes) (s : Search) (w : World) :
    outcome (bool * Search * World * list effect) :=
  match w_nodes w !! p with
  | None => Undef "dangling node"
  | Some nd =>
      if negb (getFamily (n_addr nd) =? sr_af s) then Ret (false, s, w, [])
      else
        match scan_back w (sr_id s) (n_id nd) p (sr_nodes s) (length (sr_nodes s)) with
        | (true, i) => s' ← put_token now token i s; Ret (false, s', w, [])
        | (false, i) =>
            '(full, t, bad) ← trim_at w s;
            '(w1, evs1) ← (if (full : bool) then destroy_nodes (drop t (sr_nodes s)) w else Ret (w, []));
            let s1 := if (full : bool) then sr_set_nodes (take t (sr_nodes s)) s else s in
            if (full : bool) && (t <=? i)%nat then Ret (false, s1, w1, evs1)
            else
              nd1 ← match w_nodes w1 !! p with Some n => Ret n | None => Undef "dangling node" end;
              '(s2, w2, evs2) ← emplace_node p nd1 now i bad s1 w1;
              s3 ← put_token now token i s2;
              '(_, s4, w4, evs4) ← removeExpiredNode now s3 w2;
              Ret (true, s4, w4, evs1 ++ evs2 ++ evs4)
        end
  end.
End Search.

(** ** The nodes of a search stay the closest ones *)

Section Insertion.
Context {G : Gnutls}.

Definition dist (w : World) (id : Hash) (n : SearchNode) : Z := xor_dist id (node_id w (sn_node n)).
Definition closer (w : World) (id : Hash) (a b : SearchNode) : Prop := dist w id a <= dist w id b.

(** Sorted by distance, every node once, and every pointer valid. *)
Definition wf_search (s : Search) (w : World) : Prop :=
  wf_hash HASH_LEN (sr_id s) /\ Forall (fun n => wf_hash HASH_LEN (node_id w (sn_node n))) (sr_nodes s) /\
  StronglySorted (closer w (sr_id s)) (sr_nodes s) /\ NoDup (getNodes s) /\ Forall (wf_sn w) (sr_nodes s) /\
  Z.of_nat (length (sr_nodes s)) < 2 ^ 32.

(** The nodes that are not bad. *)
Definition good_count (w : World) (l : list SearchNode) : Z := Z.of_nat (length (List.filter (fun n => negb (isBad w n)) l)).

Lemma good_bad w l : good_count w l + getNumberOfBadNodes w l = Z.of_nat (length l).
Proof. unfold good_count, getNumberOfBadNodes. induction l as [|n l IH]; [done|]. cbn. destruct (isBad w n); cbn; lia. Qed.

Lemma good_count_app w l1 l2 : good_count w (l1 ++ l2) = good_count w l1 + good_count w l2.
Proof. unfold good_count. rewrite List.filter_app, length_app. lia. Qed.

Lemma good_count_one w n : good_count w [n] = if isBad w n then 0 else 1.
Proof. unfold good_count. cbn. by destruct (isBad w n). Qed.

Lemma bad_count_snoc w l n : getNumberOfBadNodes w (l ++ [n]) = getNumberOfBadNodes w l + if isBad w n then 1 else 0.
Proof. unfold getNumberOfBadNodes. rewrite List.filter_app, length_app. cbn. destruct (isBad w n); cbn; lia. Qed.

(** [scan_back] finds the node, or the place after the last one that is closer. *)
Lemma scan_back_spec w id nid p l k :
  (k <= length l)%nat -> wf_hash HASH_LEN id -> wf_hash HASH_LEN nid ->
  Forall (fun n => wf_hash HASH_LEN (node_id w (sn_node n))) l ->
  match scan_back w id nid p l k with
  | (true, i) => exists n, l !! i = Some n /\ sn_node n = p
  | (false, i) =>
      (i <= k)%nat /\ (forall j n, (i <= j < k)%nat -> l !! j = Some n -> sn_node n <> p /\ xor_dist id nid <= dist w id n) /\
      (i = 0%nat \/ exists n, l !! pred i = Some n /\ sn_node n <> p /\ dist w id n < xor_dist id nid)
  end.
Proof.
  intros Hk Hid Hnid Hl. induction k as [|k IH]; cbn [scan_back].
  { split; [lia|]. split; [intros; lia|by left]. }
  destruct (l !! k) as [n|] eqn:En; [|apply lookup_ge_None_1 in En; lia].
  case_bool_decide as Hp; [by exists n|].
  assert (wf_hash HASH_LEN (node_id w (sn_node n))) as Hn by (rewrite Forall_lookup in Hl; eauto).
  rewrite xorCmp_dist by (destruct Hid, Hnid, Hn; first [done|congruence]).
  change (xor_dist id (node_id w (sn_node n))) with (dist w id n).
  destruct (Z.compare_spec (xor_dist id nid) (dist w id n)) as [E|E|E]; cbn [sign_of Z.ltb Z.compare].
  3: { split; [lia|]. split; [intros; lia|]. right. cbn. eauto. }
  all: specialize (IH ltac:(lia)); destruct (scan_back w id nid p l k) as [[] i]; [done|]; destruct IH as (H1 & H2 & H3);
    split; [lia|]; split; [|done]; intros j m Hj Hm; destruct (decide (j = k)) as [->|]; [rewrite En in Hm; injection Hm as <-; split; [done|lia]|apply (H2 j); [lia|done]].
Qed.

Lemma take_S_snoc {A} (l : list A) k x : l !! k = Some x -> take (S k) l = take k l ++ [x].
Proof. apply take_S_r. Qed.

(** Stepping back with an exact count of the bad nodes stops at the first position with
    at most [SEARCH_NODES] good nodes before it. *)
Lemma step_back_spec w l k :
  (k <= length l)%nat -> Z.of_nat (length l) < 2 ^ 63 ->
  exists k', step_back w true l k (getNumberOfBadNodes w (take k l)) = Ret (k', getNumberOfBadNodes w (take k' l)) /\
    (k' <= k)%nat /\ good_count w (take k' l) <= SEARCH_NODES /\ ((k' < k)%nat -> good_count w (take k' l) = SEARCH_NODES).
Proof.
  intros Hk Hl. unfold SEARCH_NODES. induction k as [|k IH]; cbn [step_back].
  { exists 0%nat. cbn. split; [done|]. split; [lia|]. split; [done|lia]. }
  pose proof (good_bad w (take (S k) l)) as Hgb. rewrite length_take, Nat.min_l in Hgb by lia.
  assert (0 <= good_count w (take (S k) l)) by (unfold good_count; lia).
  assert (0 <= getNumberOfBadNodes w (take (S k) l)) by (unfold getNumberOfBadNodes; lia).
  rewrite wrap_small by lia. replace (Z.of_nat (S k) - getNumberOfBadNodes w (take (S k) l)) with (good_count w (take (S k) l)) by lia.
  unfold SEARCH_NODES. destruct (Z.ltb_spec 14 (good_count w (take (S k) l))) as [Hgt|Hle].
  2: { exists (S k). split; [done|]. split; [lia|]. split; [lia|lia]. }
  destruct (l !! k) as [n|] eqn:En; [|apply lookup_ge_None_1 in En; lia].
  assert ((if true && isBad w n then u64 (getNumberOfBadNodes w (take (S k) l) - 1) else getNumberOfBadNodes w (take (S k) l))
          = getNumberOfBadNodes w (take k l)) as ->.
  { rewrite (take_S_snoc l k n En), bad_count_snoc. assert (0 <= getNumberOfBadNodes w (take k l) < 2 ^ 63).
    { pose proof (good_bad w (take k l)) as Hgb'. rewrite length_take in Hgb'. unfold good_count, getNumberOfBadNodes in *. lia. }
    cbn [andb]. destruct (isBad w n); [rewrite wrap_small by lia|]; lia. }
  destruct (IH ltac:(lia)) as (k' & Hr & Hle' & Hg & Heq). exists k'. split; [exact Hr|]. split; [lia|]. split; [done|].
  intros _. destruct (decide (k' < k)%nat); [by apply Heq|]. assert (k' = k) as -> by lia.
  rewrite (take_S_snoc l k n En), good_count_app, good_count_one in Hgt. destruct (isBad w n); lia.
Qed.

Lemma destroy_nodes_frame l w : Forall (wf_sn w) l -> exists w' evs, destroy_nodes l w = Ret (w', evs) /\ frame w w'.
Proof.
  revert w. induction l as [|n l IH]; intros w Hl; cbn [destroy_nodes]; [by exists w, []|]. apply Forall_cons in Hl as [Hn Hl].
  destruct (SearchNode_destroy_frame n w Hn) as (w1 & e1 & -> & Hf1). cbn [mbind outcome_bind].
  destruct (IH w1) as (w2 & e2 & -> & Hf2); [eapply Forall_impl; [exact Hl|]; intros x; by apply frame_wf|].
  cbn [mbind outcome_bind]. eexists _, _. split; [done|by etransitivity].
Qed.

Lemma frame_isBad w w' n : frame w w' -> isBad w' n = isBad w n.
Proof. intros Hf. unfold isBad. by rewrite (frame_expired w w'). Qed.

Lemma frame_good w w' l : frame w w' -> good_count w' l = good_count w l.
Proof. intros Hf. unfold good_count. do 2 f_equal. apply List.filter_ext. intros n. by rewrite (frame_isBad w w'). Qed.

Lemma frame_bad w w' l : frame w w' -> getNumberOfBadNodes w' l = getNumberOfBadNodes w l.
Proof. intros Hf. unfold getNumberOfBadNodes. do 2 f_equal. apply List.filter_ext. intros n. by apply frame_isBad. Qed.

Lemma good_take_mono w l k m : (k <= m)%nat -> good_count w (take k l) <= good_count w (take m l).
Proof.
  intros H. replace (take m l) with (take k l ++ drop k (take m l)) by (rewrite <- (take_drop k (take m l)) at 2; by rewrite take_take, Nat.min_l by lia).
  rewrite good_count_app. unfold good_count at 3. lia.
Qed.

(** The list with a new node at position [i]. *)
Definition inserted (p : ptr) (i : nat) (l : list SearchNode) : list SearchNode := take i l ++ SearchNode_make p :: drop i l.

Lemma inserted_length p i l : length (inserted p i l) = S (length l).
Proof. unfold inserted. rewrite length_app. cbn. rewrite length_take, length_drop. lia. Qed.

Lemma inserted_take p i m l : (i <= m <= length l)%nat -> inserted p i (take m l) = take (S m) (inserted p i l).
Proof.
  intros H. unfold inserted. rewrite take_take, Nat.min_l by lia. rewrite take_app, take_take, length_take, Nat.min_r by lia.
  f_equal. replace (S m - i `min` length l)%nat with (S (m - i)) by lia. cbn [take]. f_equal. by rewrite skipn_firstn_comm.
Qed.

Lemma inserted_take_before p i k l : (k <= i <= length l)%nat -> take k (inserted p i l) = take k l.
Proof.
  intros H. unfold inserted. rewrite take_app_le by (rewrite length_take; lia). by rewrite take_take, Nat.min_l by lia.
Qed.

Lemma sorted_inserted w id p i l :
  StronglySorted (closer w id) l ->
  (forall j n, (i <= j < length l)%nat -> l !! j = Some n -> xor_dist id (node_id w p) <= dist w id n) ->
  (i = 0%nat \/ exists n, l !! pred i = Some n /\ dist w id n < xor_dist id (node_id w p)) ->
  StronglySorted (closer w id) (inserted p i l).
Proof.
  revert i. induction l as [|a l IH]; intros i Hs Hafter Hbefore.
  { unfold inserted. rewrite take_nil, drop_nil. repeat constructor. }
  inversion Hs as [|? ? Hs' Hall]; subst. destruct i as [|i].
  - cbn. constructor; [done|]. apply Forall_lookup. intros j n Hj. apply (Hafter j n); [|done]. apply lookup_lt_Some in Hj. lia.
  - cbn. assert (closer w id a (SearchNode_make p)) as Ha.
    { destruct Hbefore as [?|(n & Hn & Hlt)]; [lia|]. cbn in Hn. unfold closer. change (dist w id (SearchNode_make p)) with (xor_dist id (node_id w p)).
      destruct i as [|i]; [injection Hn as <-; lia|]. cbn in Hn. rewrite Forall_lookup in Hall. specialize (Hall _ _ Hn). unfold closer in Hall. lia. }
    change (StronglySorted (closer w id) (a :: inserted p i l)). constructor.
    + apply IH; [done|..].
      * intros j n Hj Hn. apply (Hafter (S j) n); [cbn; lia|done].
      * destruct Hbefore as [?|(n & Hn & Hlt)]; [lia|]. destruct i as [|i]; [by left|]. right. by exists n.
    + unfold inserted. apply Forall_app. split; [by apply Forall_take|]. constructor; [done|by apply Forall_drop].
Qed.

(** The result of [trim_at] on a search that is not expired. *)
Lemma trim_at_spec w s : sr_expired s = false -> Z.of_nat (length (sr_nodes s)) < 2 ^ 32 ->
  exists full t, trim_at w s = Ret (full, t, getNumberOfBadNodes w (take t (sr_nodes s))) /\
    (t <= length (sr_nodes s))%nat /\ good_count w (take t (sr_nodes s)) <= SEARCH_NODES /\
    ((t < length (sr_nodes s))%nat -> good_count w (take t (sr_nodes s)) = SEARCH_NODES) /\
    (full = true -> good_count w (take t (sr_nodes s)) = SEARCH_NODES) /\ (full = false -> t = length (sr_nodes s)).
Proof.
  intros He Hl. unfold trim_at. rewrite He. set (l := sr_nodes s) in *.
  destruct (step_back_spec w l (length l) ltac:(lia) ltac:(lia)) as (t & Hr & Ht & Hg & Hlt). rewrite firstn_all in Hr. rewrite Hr.
  cbn [mbind outcome_bind]. pose proof (good_bad w l) as Hgb.
  assert (0 <= good_count w l /\ 0 <= getNumberOfBadNodes w l) by (unfold good_count, getNumberOfBadNodes; lia).
  rewrite wrap_small by lia. replace (Z.of_nat (length l) - getNumberOfBadNodes w l) with (good_count w l) by lia.
  assert (good_count w (take t l) <= good_count w l) as Hm by (rewrite <- (firstn_all l) at 2; apply good_take_mono; lia).
  assert (t = length l -> good_count w (take t l) = good_count w l) as Heq by (intros ->; by rewrite firstn_all).
  eexists _, t. split; [done|]. split; [done|]. split; [done|]. split; [done|].
  unfold SEARCH_NODES in *. split; intros Hf; zb; (destruct (decide (t < length l)%nat); [specialize (Hlt ltac:(done))|specialize (Heq ltac:(lia))]); lia.
Qed.

Lemma put_token_nodes now token i s :
  match put_token now token i s with
  | Ret s' => getNodes s' = getNodes s /\ forall w, Forall (wf_sn w) (sr_nodes s) -> Forall (wf_sn w) (sr_nodes s')
  | Undef _ => token <> [] /\ (length (sr_nodes s) <= i)%nat
  | _ => False
  end.
Proof.
  unfold put_token. destruct token as [|b token]; [done|]. destruct (sr_nodes s !! i) as [n|] eqn:E.
  - split.
    2: { intros w Hwf. apply Forall_insert; [done|]. rewrite Forall_lookup in Hwf. specialize (Hwf _ _ E).
         by destruct (length _ <=? 64)%nat. }
    unfold getNodes. cbn [sr_nodes sr_set_expired sr_set_nodes]. change (map sn_node) with (fmap (M := list) sn_node).
    rewrite list_fmap_insert. apply list_insert_id. rewrite list_lookup_fmap, E. cbn. by destruct (length token <=? 63)%nat.
  - split; [done|]. by apply lookup_ge_None_1.
Qed.

Lemma last_removable_spec w now l k j : last_removable w now l k = Some j ->
  exists n, l !! j = Some n /\ node_expired w (sn_node n) = true.
Proof.
  induction k as [|k IH]; cbn [last_removable]; [done|]. destruct (l !! k) as [n|] eqn:E; [|done].
  destruct (w_nodes w !! sn_node n) as [nd|] eqn:En; [|done]. destruct (isRemovable now nd) eqn:Er; [|done].
  intros [= <-]. exists n. split; [done|]. unfold node_expired. rewrite En. unfold isRemovable in Er. by apply andb_true_iff in Er as [? _].
Qed.

(** At most one node goes, and it is expired. *)
Definition without_expired (w : World) (l l' : list ptr) : Prop :=
  l' = l \/ exists pre p post, l = pre ++ p :: post /\ l' = pre ++ post /\ node_expired w p = true.

Lemma removeExpiredNode_spec now s w : Forall (wf_sn w) (sr_nodes s) ->
  exists b s' w' evs, removeExpiredNode now s w = Ret (b, s', w', evs) /\ frame w w' /\
    without_expired w (getNodes s) (getNodes s').
Proof.
  intros Hwf. unfold removeExpiredNode. destruct (last_removable w now (sr_nodes s) _) as [k|] eqn:E; [|eexists _, _, _, _; split; [done|]; split; [done|by left]].
  apply last_removable_spec in E as (n & Hn & He).
  destruct (destroy_nodes_frame (take 1 (drop k (sr_nodes s))) w) as (w' & evs & -> & Hf); [by apply Forall_take, Forall_drop|].
  cbn [mbind outcome_bind]. eexists _, _, _, _. split; [done|]. split; [done|]. right. unfold getNodes. cbn [sr_nodes sr_set_nodes].
  exists (map sn_node (take k (sr_nodes s))), (sn_node n), (map sn_node (drop (S k) (sr_nodes s))).
  rewrite map_app. split; [|done]. rewrite <- (take_drop_middle _ _ _ Hn) at 1. by rewrite map_app.
Qed.

Lemma make_isBad w p : isBad w (SearchNode_make p) = node_expired w p.
Proof. unfold isBad. cbn. by rewrite orb_false_r. Qed.

Lemma bad_count_inserted w p i l : getNumberOfBadNodes w (inserted p i l) = getNumberOfBadNodes w l + if node_expired w p then 1 else 0.
Proof.
  rewrite <- (take_drop i l) at 2. unfold inserted, getNumberOfBadNodes. rewrite !List.filter_app, !length_app. cbn [List.filter].
  rewrite make_isBad. destruct (node_expired w p); cbn [length]; lia.
Qed.

Lemma emplace_node_spec p nd now i s w :
  sr_expired s = false -> w_nodes w !! p = Some nd -> Z.of_nat (length (sr_nodes s)) < 2 ^ 32 -> Forall (wf_sn w) (sr_nodes s) ->
  exists k s' w' evs, emplace_node p nd now i (getNumberOfBadNodes w (sr_nodes s)) s w = Ret (s', w', evs) /\ frame w w' /\
    sr_nodes s' = take k (inserted p i (sr_nodes s)) /\ Forall (wf_sn w') (sr_nodes s') /\ (k <= S (length (sr_nodes s)))%nat /\
    good_count w (take k (inserted p i (sr_nodes s))) <= SEARCH_NODES /\
    ((k < S (length (sr_nodes s)))%nat -> good_count w (take k (inserted p i (sr_nodes s))) = SEARCH_NODES).
Proof.
  intros He Hp Hl Hwf. unfold emplace_node. set (w1 := w_upd_node p (setTime now nd) w).
  assert (frame w w1) as Hf1 by (by eapply frame_upd_node).
  assert (sr_nodes (match sr_nodes s with [] => sr_set_step_time time_min s | _ => s end) = sr_nodes s) as -> by (destruct (sr_nodes s) eqn:E; exact E).
  set (ins := take i (sr_nodes s) ++ SearchNode_make p :: drop i (sr_nodes s)). change ins with (inserted p i (sr_nodes s)). rewrite He.
  assert ((if isExpired nd then (getNumberOfBadNodes w (sr_nodes s) + 1, false) else (getNumberOfBadNodes w (sr_nodes s), false)) =
          (getNumberOfBadNodes w1 (inserted p i (sr_nodes s)), false)) as ->.
  { rewrite (frame_bad w w1) by done. rewrite bad_count_inserted. unfold node_expired. rewrite Hp. destruct (isExpired nd); f_equal; lia. }
  destruct (step_back_spec w1 (inserted p i (sr_nodes s)) (length (inserted p i (sr_nodes s)))) as (k & Hr & Hk & Hg & Hlt);
    [lia|rewrite inserted_length; lia|].
  assert (Forall (wf_sn w1) (inserted p i (sr_nodes s))) as Hins.
  { assert (Forall (wf_sn w1) (sr_nodes s)) by (eapply Forall_impl; [exact Hwf|]; intros x; by apply frame_wf).
    apply Forall_app. split; [by apply Forall_take|]. constructor; [|by apply Forall_drop].
    split; [apply (frame_node w); [done|by exists nd]|]. cbn. split_and!; constructor. }
  rewrite firstn_all in Hr. cbn [negb]. rewrite Hr. cbn [mbind outcome_bind].
  destruct (destroy_nodes_frame (rev (drop k (inserted p i (sr_nodes s)))) w1) as (w2 & evs & -> & Hf2).
  { by apply Forall_rev, Forall_drop. }
  cbn [mbind outcome_bind]. eexists k, _, w2, evs. split; [done|]. split; [by etransitivity|]. rewrite inserted_length in *.
  rewrite !(frame_good w w1) in * by done. split; [done|]. split; [|done]. cbn [sr_nodes sr_set_expired sr_set_nodes].
  apply Forall_take. eapply Forall_impl; [exact Hins|]. intros x. by apply frame_wf.
Qed.

(** Where a node that is not in the list goes. *)
Lemma scan_place p nd s w :
  wf_search s w -> w_nodes w !! p = Some nd -> wf_hash HASH_LEN (n_id nd) -> ~ p ∈ getNodes s ->
  exists i, scan_back w (sr_id s) (n_id nd) p (sr_nodes s) (length (sr_nodes s)) = (false, i) /\ (i <= length (sr_nodes s))%nat /\
    StronglySorted (closer w (sr_id s)) (inserted p i (sr_nodes s)) /\ NoDup (map sn_node (inserted p i (sr_nodes s))).
Proof.
  intros (Hid & Hids & Hsort & Hnd & Hwf & Hl) Hp Hnid Hnew.
  pose proof (scan_back_spec w (sr_id s) (n_id nd) p (sr_nodes s) (length (sr_nodes s)) ltac:(lia) Hid Hnid Hids) as Hscan.
  assert (node_id w p = n_id nd) as Hidp by (unfold node_id; by rewrite Hp).
  destruct (scan_back _ _ _ _ _ _) as [[] i].
  { exfalso. destruct Hscan as (n & Hn & <-). apply Hnew. unfold getNodes. apply list_elem_of_lookup. exists i.
    change (map sn_node) with (fmap (M := list) sn_node). by rewrite list_lookup_fmap, Hn. }
  destruct Hscan as (Hi & Hafter & Hbefore).
  assert (StronglySorted (closer w (sr_id s)) (inserted p i (sr_nodes s))) as Hsorted.
  { apply sorted_inserted; [done|..]; rewrite Hidp; [intros j n Hj Hn; by eapply Hafter|].
    destruct Hbefore as [?|(n & ? & _ & ?)]; [by left|right; eauto]. }
  assert (NoDup (map sn_node (inserted p i (sr_nodes s)))) as Hnodup.
  { unfold inserted. rewrite map_app. cbn. rewrite (Permutation_app_comm _ (p :: _)). cbn. rewrite (Permutation_app_comm _ (map _ (take i _))), <- map_app, take_drop.
    by constructor. }
  by exists i.
Qed.

(** A node that is added does not lower the number of good nodes. *)
Lemma inserted_good w p i t l : (i <= t <= length l)%nat -> good_count w (take t l) <= good_count w (take (S t) (inserted p i l)).
Proof.
  intros H. rewrite <- inserted_take by lia. unfold inserted. rewrite <- (take_drop i (take t l)) at 1. rewrite !good_count_app.
  change (SearchNode_make p :: drop i (take t l)) with ([SearchNode_make p] ++ drop i (take t l)).
  rewrite good_count_app, good_count_one. destruct (isBad _ _); lia.
Qed.

(** C12. [insertNode] keeps a search the list of the closest nodes.  A new node goes to
    its place by distance ([ins], still sorted and without repetition), and the list is
    cut after its [SEARCH_NODES]-th node that is not bad: never sooner.  The node is
    refused when the cut comes before it; an expired node may be dropped besides.  When
    the new node itself falls behind the cut and a token came with it, the code writes
    through an iterator to the removed element. *)
Theorem insertNode_closest p nd now token s w :
  wf_search s w -> w_nodes w !! p = Some nd -> wf_hash HASH_LEN (n_id nd) ->
  getFamily (n_addr nd) = sr_af s -> ~ p ∈ getNodes s -> sr_expired s = false ->
  exists i k, (k <= S (length (sr_nodes s)))%nat /\
    let ins := inserted p i (sr_nodes s) in
    StronglySorted (closer w (sr_id s)) ins /\ NoDup (map sn_node ins) /\
    good_count w (take k ins) <= SEARCH_NODES /\ ((k < length ins)%nat -> good_count w (take k ins) = SEARCH_NODES) /\
    match sr_insertNode p now token s w with
    | Ret (true, s', w', _) => frame w w' /\ without_expired w (map sn_node (take k ins)) (getNodes s')
    | Ret (false, s', w', _) => frame w w' /\ (k <= i)%nat /\ getNodes s' = map sn_node (take k (sr_nodes s))
    | Undef _ => token <> [] /\ (k <= i)%nat
    | _ => False
    end.
Proof.
  intros Hws Hp Hnid Hfam Hnew He. pose proof Hws as (_ & _ & _ & _ & Hwf & Hl). unfold sr_insertNode. rewrite Hp, Hfam, Z.eqb_refl. cbn [negb].
  destruct (scan_place p nd s w Hws Hp Hnid Hnew) as (i & -> & Hi & Hsorted & Hnodup).
  destruct (trim_at_spec w s He Hl) as (full & t & -> & Ht & Hg & Hlt & Hfull & Hnotfull). cbn [mbind outcome_bind].
  assert (exists w1 evs1, (if full then destroy_nodes (drop t (sr_nodes s)) w else Ret (w, [])) = Ret (w1, evs1) /\ frame w w1) as (w1 & evs1 & -> & Hf1).
  { destruct full; [by apply destroy_nodes_frame, Forall_drop|by exists w, []]. }
  cbn [mbind outcome_bind].
  assert ((if full then sr_set_nodes (take t (sr_nodes s)) s else s) = sr_set_nodes (take t (sr_nodes s)) s) as ->.
  { destruct full; [done|]. rewrite (Hnotfull eq_refl), firstn_all. by destruct s. }
  destruct (full && (t <=? i)%nat) eqn:Hrefuse.
  { apply andb_true_iff in Hrefuse as [-> Hti]. apply Nat.leb_le in Hti. exists i, t. rewrite inserted_length.
    rewrite inserted_take_before by lia. split; [lia|]. split; [done|]. split; [done|]. split; [done|]. split; [by intros _; apply Hfull|].
    split; [done|]. split; [done|]. done. }
  assert (i <= t)%nat as Hit.
  { destruct full; cbn in Hrefuse; [apply Nat.leb_gt in Hrefuse; lia|]. rewrite (Hnotfull eq_refl). lia. }
  destruct (frame_node w w1 p Hf1 ltac:(by exists nd)) as [nd1 Hnd1]. rewrite Hnd1. cbn [mbind outcome_bind].
  rewrite <- (frame_bad w w1) by done.
  destruct (emplace_node_spec p nd1 now i (sr_set_nodes (take t (sr_nodes s)) s) w1) as (k & s2 & w2 & evs2 & Hem & Hf2 & Hn2 & Hwf2 & Hk & Hg2 & Hlt2);
    [done|done|cbn; rewrite length_take; lia|cbn; apply Forall_take; eapply Forall_impl; [exact Hwf|]; intros x; by apply frame_wf|].
  cbn [sr_nodes sr_set_nodes] in *. rewrite length_take, Nat.min_l in * by lia. rewrite Hem. cbn [mbind outcome_bind].
  rewrite inserted_take in * by lia. rewrite take_take, Nat.min_l in * by lia. rewrite !(frame_good w w1) in * by done.
  exists i, k. split; [lia|]. split; [done|]. split; [done|]. split; [done|]. split.
  { rewrite inserted_length. intros Hkl. destruct (decide (k < S t)%nat) as [|Hkt]; [by apply Hlt2|]. assert (k = S t) as -> by lia.
    specialize (Hlt ltac:(lia)). pose proof (inserted_good w p i t (sr_nodes s) ltac:(lia)). lia. }
  pose proof (put_token_nodes now token i s2) as Hput. destruct (put_token now token i s2) as [s3| | |]; [|done| |done].
  2: { destruct Hput as [? Hlen]. split; [done|]. rewrite Hn2, length_take, inserted_length in Hlen. lia. }
  destruct Hput as [Hn3 Hwf3]. cbn [mbind outcome_bind].
  destruct (removeExpiredNode_spec now s3 w2) as (b & s4 & w4 & evs4 & -> & Hf4 & Hrem); [by apply Hwf3|].
  cbn [mbind outcome_bind]. assert (frame w w2) as Hf by (by etransitivity). split; [by etransitivity|].
  rewrite Hn3 in Hrem. unfold getNodes in Hrem at 1. rewrite Hn2 in Hrem.
  destruct Hrem as [->|(pre & x & post & E1 & E2 & Hx)]; [by left|right]. exists pre, x, post. by rewrite <- (frame_expired w w2).
Qed.
End Insertion.

(** ** What the predicates of a search mean *)

Section Targets.
Context {G : Gnutls}.

(** The first [max] nodes that are not bad. *)
Definition targets (w : World) (max : nat) (s : Search) : list SearchNode :=
  take max (List.filter (fun n => negb (isBad w n)) (sr_nodes s)).

Lemma first_good_spec w ok max l i : (i < max)%nat ->
  let ts := take (max - i) (List.filter (fun n => negb (isBad w n)) l) in
  first_good w ok max l i = if forallb ok ts then Some (i + length ts)%nat else None.
Proof.
  revert i. induction l as [|n l IH]; intros i Hi; cbn [first_good List.filter].
  { rewrite take_nil. cbn. f_equal. lia. }
  destruct (isBad w n); cbn [negb]; [by apply IH|]. replace (max - i)%nat with (S (max - S i)) by lia. cbn [take forallb length].
  destruct (ok n); cbn [negb andb]; [|done]. destruct (Nat.eqb_spec (S i) max) as [<-|Hne].
  - rewrite Nat.sub_diag. rewrite take_0. cbn. f_equal. lia.
  - rewrite IH by lia. destruct (forallb ok _); [f_equal; lia|done].
Qed.

Lemma first_targets w ok max s : (0 < max)%nat ->
  first_good w ok max (sr_nodes s) 0 = if forallb ok (targets w max s) then Some (length (targets w max s)) else None.
Proof. intros H. rewrite first_good_spec by done. unfold targets. by rewrite Nat.sub_0_r. Qed.

Lemma counted w ok max s : (0 < max)%nat ->
  positive_count (first_good w ok max (sr_nodes s) 0) = negb (bool_decide (targets w max s = [])) && forallb ok (targets w max s).
Proof.
  intros H. rewrite first_targets by done. destruct (targets w max s) as [|n ts]; [done|].
  rewrite bool_decide_eq_false_2 by done. cbn [negb andb]. by destruct (forallb ok (n :: ts)).
Qed.

(** The predicates of a search are those of its closest nodes: it is synced,
    announced or listening when there is a node that is not bad and each of the first
    eight (four for listening) of those is, and a get is done when each of the eight is
    done, or there is none. *)
Theorem search_predicates w now listen_expire vid g s :
  let all max ok := forallb ok (targets w max s) in
  let some max := negb (bool_decide (targets w max s = [])) in
  sr_isSynced w now s = some 8%nat && all 8%nat (sn_isSynced w now) /\
  sr_isDone w g s = all 8%nat (sn_isDone w (g_query g)) /\
  sr_isAnnounced w vid s = some 8%nat && all 8%nat (sn_isAnnounced w vid) /\
  sr_isListening w now listen_expire s =
    negb (bool_decide (map fst (sr_listeners s) = [])) && (some 4%nat && all 4%nat (sn_isListening w now listen_expire)).
Proof.
  cbv zeta. assert (sr_nodes s = [] -> forall max, targets w max s = []) as Hnil by (intros E max; unfold targets; rewrite E; apply take_nil).
  split_and!.
  - apply counted; by_compute.
  - unfold sr_isDone. rewrite first_targets by (unfold TARGET_NODES; lia). by destruct (forallb _ _).
  - unfold sr_isAnnounced. destruct (sr_nodes s) eqn:E; [by rewrite Hnil|]. rewrite <- E. apply counted; by_compute.
  - unfold sr_isListening. destruct (sr_nodes s) eqn:E; [rewrite Hnil by done; by rewrite andb_false_r|]. rewrite <- E.
    destruct (sr_listeners s) as [|x xs]; [done|]. cbn [map]. rewrite bool_decide_eq_false_2 by done. apply counted; by_compute.
Qed.
End Targets.

Module SearchDemo.
#[local] Existing Instance GnutlsDemo.demo.
Definition hash_at (k : Z) : Hash := replicate 19 0 ++ [k].
Definition addr4 : SockAddr := [2; 0; 31; 144; 192; 0; 2; 1] ++ replicate 8 0.
Definition node_at (k : Z) (dead : bool) : Node := mkNode (hash_at k) addr4 false 0 0 0 dead 1 [] [].
(** Fourteen nodes at distances 1 to 14, an expired one at 20, and two others. *)
Definition near : list ptr := [1; 2; 3; 4; 5; 6; 7; 8; 9; 10; 11; 12; 13; 14]%positive.
Definition world : World :=
  mkWorld (list_to_map (map (fun p => (p, node_at (Zpos p) false)) near ++
             [(20%positive, node_at 20 true); (17%positive, node_at 17 false); (30%positive, node_at 3 false)])) ∅ [].
Definition search : Search :=
  sr_set_nodes (map SearchNode_make (near ++ [20%positive])) (sr_set_id (hash_at 0) (sr_set_af 2 Search_make)).

Lemma search_wf : wf_search search world.
Proof.
  split; [by_compute|]. split; [apply (bool_decide_unpack _); vm_compute; exact I|]. split.
  { cbn. repeat first [apply SSorted_nil | apply SSorted_cons | apply Forall_nil_2 | apply Forall_cons; split];
      unfold closer; apply Z.leb_le; vm_compute; reflexivity. }
  split; [by_compute|]. split; [|by_compute]. cbn.
  repeat first [apply Forall_nil_2 | apply Forall_cons; split]; (split; [eexists; vm_compute; reflexivity|]; split_and!; apply Forall_nil_2).
Qed.

(** A node at distance 17 that answers a search with a token. *)
Lemma token_of_far_node : sr_insertNode 17 0 [1] search world = Undef "iterator to a removed node".
Proof. vm_compute. reflexivity. Qed.
End SearchDemo.

Lemma insertNode_closest_witness : exists i k, (k <= 16)%nat /\
  good_count SearchDemo.world (take k (inserted 30%positive i (sr_nodes SearchDemo.search))) <= 14.
Proof.
  destruct (insertNode_closest (G := GnutlsDemo.demo) 30%positive (SearchDemo.node_at 3 false) 0 [1] SearchDemo.search SearchDemo.world)
    as (i & k & Hk & _ & _ & Hg & _).
  - exact SearchDemo.search_wf.
  - vm_compute. reflexivity.
  - by_compute.
  - vm_compute. reflexivity.
  - by_compute.
  - reflexivity.
  - exists i, k. split; [exact Hk|exact Hg].
Defined.
