(* ===== verification/DhtOps.v ===== *)
(** * DhtOps: the get, query and put operations of a node

    Models [OpStatus], [GetStatus], [doneCallbackWrapper], [callbackWrapper] and the
    closures of [Dht::get], [Dht::query] and [Dht::put] of src/opendht-2.1.4/src/dht.cpp.
    An operation runs on two networks and on the local storage at once; its closures
    share one status.  What happens to it is a sequence of events, what it does a
    sequence of calls of the user's callbacks. *)
From S2P Require Import Prelude StdMap InfoHash Node Value Query Storage.

(** [OpStatus::Status]. *)
Record Status := mkStatus { st_done : bool; st_ok : bool }.
Definition Status_make : Status := mkStatus false false.

(** [OpStatus]. *)
Record OpStatus := mkOp { op_status : Status; op_status4 : Status; op_status6 : Status }.
Definition OpStatus_make : OpStatus := mkOp Status_make Status_make Status_make.

(** ** Gets and queries *)

Section Operation.
(** [A] are the items delivered, [T] the collection of those seen; the callback's answer
    may depend on the calls made before. *)
Context {A T : Type} (add_values : T -> list A -> T * list A) (cache_values : T -> list A -> T)
        (get_cb : list (list A) -> list A -> bool) (has_done_cb : bool).

(** [GetStatus<T>]. *)
Record GetStatus := mkGS { gs_op : OpStatus; gs_values : T; gs_nodes : list ptr }.

Inductive user_call := UGet (vals : list A) | UDone (ok : bool) (nodes : list ptr).

(** The calls of the user's callback so far. *)
Fixpoint got (calls : list user_call) : list (list A) :=
  match calls with [] => [] | UGet v :: c => v :: got c | UDone _ _ :: c => got c end.

(** [doneCallbackWrapper]. *)
Definition doneCallbackWrapper (nodes : list ptr) (o : GetStatus) : GetStatus * list user_call :=
  let s := gs_op o in
  if st_done (op_status s) then (o, [])
  else
    let all := gs_nodes o ++ nodes in
    if st_ok (op_status s) || (st_done (op_status4 s) && st_done (op_status6 s)) then
      let ok := st_ok (op_status s) || st_ok (op_status4 s) || st_ok (op_status6 s) in
      (mkGS (mkOp (mkStatus true (st_ok (op_status s))) (op_status4 s) (op_status6 s)) (gs_values o) all,
       if has_done_cb then [UDone ok all] else [])
    else (mkGS s (gs_values o) all, []).

(** [callbackWrapper]; the result tells the search whether to go on. *)
Definition callbackWrapper (before : list user_call) (values : list A) (o : GetStatus) : GetStatus * list user_call * bool :=
  let s := gs_op o in
  if st_done (op_status s) then (o, [], false)
  else
    let '(t, newvals) := add_values (gs_values o) values in
    let '(o1, calls) :=
      match newvals with
      | [] => (mkGS s t (gs_nodes o), [])
      | _ =>
          let ok := negb (get_cb (got before) newvals) in
          (mkGS (mkOp (mkStatus (st_done (op_status s)) ok) (op_status4 s) (op_status6 s)) (cache_values t newvals) (gs_nodes o),
           [UGet newvals])
      end in
    let '(o2, calls') := doneCallbackWrapper [] o1 in
    (o2, calls ++ calls', negb (st_ok (op_status (gs_op o2)))).

(** What happens to the operation: items from the storage or a search, the end of the
    search on one of the networks. *)
Inductive op_event :=
| EvValues (vals : list A)
| EvDone4 (ok : bool) (nodes : list ptr)
| EvDone6 (ok : bool) (nodes : list ptr).

Definition op_step (e : op_event) (before : list user_call) (o : GetStatus) : GetStatus * list user_call :=
  match e with
  | EvValues vals => (callbackWrapper before vals o).1
  | EvDone4 ok nodes =>
      doneCallbackWrapper nodes (mkGS (mkOp (op_status (gs_op o)) (mkStatus true ok) (op_status6 (gs_op o))) (gs_values o) (gs_nodes o))
  | EvDone6 ok nodes =>
      doneCallbackWrapper nodes (mkGS (mkOp (op_status (gs_op o)) (op_status4 (gs_op o)) (mkStatus true ok)) (gs_values o) (gs_nodes o))
  end.

Fixpoint op_run (es : list op_event) (before : list user_call) (o : GetStatus) : GetStatus * list user_call :=
  match es with
  | [] => (o, before)
  | e :: es' => let '(o', calls) := op_step e before o in op_run es' (before ++ calls) o'
  end.

Definition is_done_call (c : user_call) : bool := match c with UDone _ _ => true | UGet _ => false end.

(** What the events so far say: the last end of each network, and the nodes they gave. *)
Definition net4 (es : list op_event) : Status :=
  fold_left (fun s e => match e with EvDone4 ok _ => mkStatus true ok | _ => s end) es Status_make.
Definition net6 (es : list op_event) : Status :=
  fold_left (fun s e => match e with EvDone6 ok _ => mkStatus true ok | _ => s end) es Status_make.
Definition ev_nodes (e : op_event) : list ptr := match e with EvValues _ => [] | EvDone4 _ n | EvDone6 _ n => n end.
Definition both_done (es : list op_event) : bool := st_done (net4 es) && st_done (net6 es).

(** The last call of the user's callback asked to stop. *)
Definition stopped (calls : list user_call) : bool :=
  match rev (got calls) with [] => false | v :: before => negb (get_cb (rev before) v) end.

Definition quiet (calls : list user_call) : Prop := Forall (fun c => is_done_call c = false) calls.

(** The done callback was called once, last, after a first part of the events that
    ended the operation: both networks were done, or the user's callback had asked to
    stop. It was told whether the callback stopped it or a network ended well, and all
    the nodes so far. *)
Definition told (es : list op_event) (calls : list user_call) : Prop :=
  exists es1 es2 pre, es = es1 ++ es2 /\ quiet pre /\ stopped pre || both_done es1 = true /\
    calls = pre ++ [UDone (stopped pre || st_ok (net4 es1) || st_ok (net6 es1)) (concat (map ev_nodes es1))].

(** It has not been called, and there was no reason to. *)
Definition waiting (es : list op_event) (calls : list user_call) : Prop :=
  quiet calls /\ stopped calls = false /\ both_done es = false.

(** The status of the operation fits the events and the calls so far. *)
Definition consistent (es : list op_event) (o : GetStatus) (calls : list user_call) : Prop :=
  let s := gs_op o in
  if st_done (op_status s) then told es calls
  else waiting es calls /\ st_ok (op_status s) = false /\ op_status4 s = net4 es /\ op_status6 s = net6 es /\
       gs_nodes o = concat (map ev_nodes es).

Lemma got_snoc calls v : got (calls ++ [UGet v]) = got calls ++ [v].
Proof using Type. induction calls as [|[] calls IH]; cbn; [done|by rewrite IH|done]. Qed.

Lemma stopped_snoc calls v : stopped (calls ++ [UGet v]) = negb (get_cb (got calls) v).
Proof using Type. unfold stopped. by rewrite got_snoc, rev_unit, rev_involutive. Qed.

Lemma told_more es calls es' : told es calls -> told (es ++ es') calls.
Proof using Type. intros (es1 & es2 & pre & -> & H). exists es1, (es2 ++ es'), pre. by rewrite <- app_assoc. Qed.

Lemma doneCallbackWrapper_consistent nodes es o calls : has_done_cb = true ->
  st_done (op_status (gs_op o)) = false -> quiet calls -> st_ok (op_status (gs_op o)) = stopped calls ->
  op_status4 (gs_op o) = net4 es -> op_status6 (gs_op o) = net6 es -> gs_nodes o ++ nodes = concat (map ev_nodes es) ->
  consistent es (doneCallbackWrapper nodes o).1 (calls ++ (doneCallbackWrapper nodes o).2).
Proof using Type.
  intros Hcb Hd Hc Hok H4 H6 Hn. unfold doneCallbackWrapper. rewrite Hd, Hcb, Hok, H4, H6, Hn. fold (both_done es).
  destruct (stopped calls || both_done es) eqn:E; unfold consistent; cbn.
  - exists es, [], calls. by rewrite app_nil_r, E.
  - rewrite Hd, app_nil_r, Hok, H4, H6. apply orb_false_iff in E as [? ?]. done.
Qed.

Lemma doneCallbackWrapper_over nodes o : st_done (op_status (gs_op o)) = true -> doneCallbackWrapper nodes o = (o, []).
Proof using Type. intros H. unfold doneCallbackWrapper. by rewrite H. Qed.

Lemma op_step_consistent e es o calls : has_done_cb = true -> consistent es o calls ->
  consistent (es ++ [e]) (op_step e calls o).1 (calls ++ (op_step e calls o).2).
Proof using Type.
  intros Hcb Hcons. pose proof Hcons as Hc. unfold consistent in Hc. destruct (st_done (op_status (gs_op o))) eqn:Hd.
  - apply (told_more _ _ [e]) in Hc. destruct e as [vals|ok nodes|ok nodes]; cbn [op_step].
    + unfold callbackWrapper. rewrite Hd. cbn. rewrite app_nil_r. unfold consistent. by rewrite Hd.
    + rewrite doneCallbackWrapper_over by done. cbn. rewrite app_nil_r. unfold consistent. cbn. by rewrite Hd.
    + rewrite doneCallbackWrapper_over by done. cbn. rewrite app_nil_r. unfold consistent. cbn. by rewrite Hd.
  - destruct Hc as ((Hall & Hst & Hb) & Hok & H4 & H6 & Hn).
    assert (net4 (es ++ [e]) = match e with EvDone4 ok _ => mkStatus true ok | _ => net4 es end) as E4 by (unfold net4; by rewrite fold_left_app).
    assert (net6 (es ++ [e]) = match e with EvDone6 ok _ => mkStatus true ok | _ => net6 es end) as E6 by (unfold net6; by rewrite fold_left_app).
    assert (gs_nodes o ++ ev_nodes e = concat (map ev_nodes (es ++ [e]))) as En by (rewrite map_app, concat_app, Hn; cbn; by rewrite app_nil_r).
    destruct e as [vals|ok nodes|ok nodes]; cbn [op_step].
    2-3: apply doneCallbackWrapper_consistent; cbn [gs_op op_status op_status4 op_status6 gs_nodes];
      (done || by rewrite Hok || by rewrite E4 || by rewrite E6 || exact En).
    unfold callbackWrapper. rewrite Hd. destruct (add_values (gs_values o) vals) as [t [|v newvals]].
    + pose proof (doneCallbackWrapper_consistent [] (es ++ [EvValues vals]) (mkGS (gs_op o) t (gs_nodes o)) calls Hcb Hd Hall) as H.
      destruct (doneCallbackWrapper [] _) as [o2 c2]. apply H; [exact (eq_trans Hok (eq_sym Hst))|by rewrite E4|by rewrite E6|exact En].
    + set (o1 := mkGS _ _ _).
      pose proof (doneCallbackWrapper_consistent [] (es ++ [EvValues vals]) o1 (calls ++ [UGet (v :: newvals)]) Hcb eq_refl) as H.
      destruct (doneCallbackWrapper [] o1) as [o2 c2]. cbn [fst snd] in *. rewrite <- app_assoc in H.
      apply H; [apply Forall_app; by repeat constructor|by rewrite stopped_snoc|by rewrite E4|by rewrite E6|exact En].
Qed.

Lemma op_run_consistent es' : has_done_cb = true -> forall es o calls, consistent es o calls ->
  consistent (es ++ es') (op_run es' calls o).1 (op_run es' calls o).2.
Proof using Type.
  intros Hcb. induction es' as [|e es' IH]; intros es o calls H; cbn [op_run]; [by rewrite app_nil_r|].
  pose proof (op_step_consistent e es o calls Hcb H) as H'. destruct (op_step e calls o) as [o' c].
  apply (IH (es ++ [e])) in H'. by rewrite <- app_assoc in H'.
Qed.
End Operation.
Arguments GetStatus T : clear implicits.
Arguments user_call A : clear implicits.
Arguments op_event A : clear implicits.
Arguments mkGS {T} _ _ _.

Section Instances.
Context {G : Gnutls} (deref : vptr -> Value).

(** [PublicKey::operator==], [Value::contentEquals], [Value::operator==]; a pointer to a
    key is the key, or nothing. *)
Definition pk_eq (a b : PublicKey) : bool :=
  match a, b with
  | None, None => true
  | _, _ => op_eq HASH_LEN (pk_getId a) (pk_getId b)
  end.

Definition owner_eq (a b : option PublicKey) : bool :=
  match a, b with
  | None, None => true
  | Some a, Some b => pk_eq a b
  | _, _ => false
  end.

Definition contentEquals (a b : Value) : bool :=
  if isEncrypted a then bool_decide (v_cypher a = v_cypher b)
  else owner_eq (v_owner a) (v_owner b) && (v_type a =? v_type b) && bool_decide (v_data a = v_data b) &&
       bool_decide (v_user_type a = v_user_type b) && bool_decide (v_signature a = v_signature b).

Definition value_eq (a b : Value) : bool := (v_id a =? v_id b) && contentEquals a b.

(** The closures of [Dht::get]: the values seen, by id. *)
Abbreviation seen := (list (Z * vptr)).

Definition is_new (t : seen) (v : vptr) : bool :=
  match om_find Z.ltb (id_of deref v) t with
  | None => true
  | Some u => negb (bool_decide (u = v)) && negb (value_eq (deref u) (deref v))
  end.

Definition get_add (t : seen) (values : list vptr) : seen * list vptr := (t, List.filter (is_new t) values).
Definition get_cache (t : seen) (newvals : list vptr) : seen := fold_left (fun t v => om_set Z.ltb (id_of deref v) v t) newvals t.

(** The closures of [Dht::query]: a field index contained in one that was seen is not
    new; one that contains another replaces it. *)
Fixpoint erase_first (p : FieldValueIndex -> bool) (l : list FieldValueIndex) : list FieldValueIndex :=
  match l with
  | [] => []
  | x :: l' => if p x then l' else x :: erase_first p l'
  end.

Fixpoint query_add_loop (t : list FieldValueIndex) (fields newvals : list FieldValueIndex) : list FieldValueIndex * list FieldValueIndex :=
  match fields with
  | [] => (t, newvals)
  | f :: fields' =>
      if existsb (fun sf => containedIn f sf) t then query_add_loop t fields' newvals
      else query_add_loop (erase_first (fun sf => containedIn sf f) t) fields' (newvals ++ [f])
  end.

Definition query_add (t : list FieldValueIndex) (fields : list FieldValueIndex) := query_add_loop t fields [].
Definition query_cache (t newvals : list FieldValueIndex) : list FieldValueIndex := t ++ newvals.

(** [Dht::get] and [Dht::query] until the searches end: what the storage has comes
    first. *)
Definition GetStatus_make {T} (t : T) : GetStatus T := mkGS OpStatus_make t [].

Definition dht_get (get_cb : list (list vptr) -> list vptr -> bool) (has_done : bool) (local : list vptr) (es : list (op_event vptr)) :=
  op_run get_add get_cache get_cb has_done (EvValues local :: es) [] (GetStatus_make []).

Definition dht_query (cb : list (list FieldValueIndex) -> list FieldValueIndex -> bool) (has_done : bool)
    (q : Query) (local : list vptr) (es : list (op_event FieldValueIndex)) :=
  op_run query_add query_cache cb has_done
    (EvValues (map (fun v => FieldValueIndex_make (deref v) (q_select q)) local) :: es) [] (GetStatus_make []).

(** ** Puts *)

(** The closure [donecb] of [Dht::put], on the status after a network is done. *)
Definition put_done (nodes : list ptr) (o : OpStatus) : OpStatus * list (bool * list ptr) :=
  if negb (st_done (op_status o)) && (st_done (op_status4 o) && st_done (op_status6 o))
  then (mkOp (mkStatus true (st_ok (op_status o))) (op_status4 o) (op_status6 o), [(st_ok (op_status4 o) || st_ok (op_status6 o), nodes)])
  else (o, []).

(** The callbacks given to [announce]: the network, its answer, the nodes. *)
Definition put_step (e : bool * bool * list ptr) (o : OpStatus) : OpStatus * list (bool * list ptr) :=
  let '(ipv4, ok, nodes) := e in
  put_done nodes (if ipv4 : bool then mkOp (op_status o) (mkStatus true ok) (op_status6 o)
                  else mkOp (op_status o) (op_status4 o) (mkStatus true ok)).

Fixpoint put_run (es : list (bool * bool * list ptr)) (o : OpStatus) : OpStatus * list (bool * list ptr) :=
  match es with
  | [] => (o, [])
  | e :: es' => let '(o1, c1) := put_step e o in let '(o2, c2) := put_run es' o1 in (o2, c1 ++ c2)
  end.
End Instances.

(** ** An operation ends once *)

Lemma op_run_ended {A T} (add : T -> list A -> T * list A) cache f t (es : list (op_event A)) :
  told f es (op_run add cache f true es [] (GetStatus_make t)).2 \/ waiting f es (op_run add cache f true es [] (GetStatus_make t)).2.
Proof.
  assert (consistent f [] (GetStatus_make t) []) as Hc by (split_and!; [split_and!; [constructor|done|done]|done..]).
  pose proof (op_run_consistent add cache f true es eq_refl [] _ [] Hc) as H. cbn [app] in H.
  unfold consistent in H. destruct (st_done (op_status _)); [by left|right; apply H].
Qed.

(** The last answer of a network to a put. *)
Definition put_net (ipv4 : bool) (es : list (bool * bool * list ptr)) : Status :=
  fold_left (fun s e => if eqb e.1.1 ipv4 then mkStatus true e.1.2 else s) es Status_make.
Definition put_both (es : list (bool * bool * list ptr)) : bool := st_done (put_net true es) && st_done (put_net false es).

(** The callback of a put: called by the event that makes both networks done, with
    whether one of them took the value; else not at all. *)
Definition put_told (pre es : list (bool * bool * list ptr)) (calls : list (bool * list ptr)) : Prop :=
  (exists es1 e es2, es = es1 ++ e :: es2 /\ put_both (pre ++ es1) = false /\ put_both (pre ++ es1 ++ [e]) = true /\
     calls = [(st_ok (put_net true (pre ++ es1 ++ [e])) || st_ok (put_net false (pre ++ es1 ++ [e])), e.2)]) \/
  (put_both (pre ++ es) = false /\ calls = []).

Lemma put_run_over es : forall o, st_done (op_status o) = true -> (put_run es o).2 = [].
Proof.
  induction es as [|[[v4 ok] nodes] es IH]; intros o Ho; [done|]. cbn [put_run]. unfold put_step, put_done.
  destruct v4; cbn; rewrite Ho; cbn; match goal with |- context [put_run es ?x] => specialize (IH x Ho); destruct (put_run es x) end; cbn in *; by rewrite IH.
Qed.

Lemma put_run_told es : forall pre o, st_done (op_status o) = false -> op_status4 o = put_net true pre ->
  op_status6 o = put_net false pre -> put_both pre = false -> put_told pre es (put_run es o).2.
Proof.
  induction es as [|e es IH]; intros pre o Ho H4 H6 Hb.
  { right. by rewrite app_nil_r. }
  set (o1 := if e.1.1 then mkOp (op_status o) (mkStatus true e.1.2) (op_status6 o) else mkOp (op_status o) (op_status4 o) (mkStatus true e.1.2)).
  assert (put_step e o = put_done e.2 o1) as Es by (by destruct e as [[[] ?] ?]).
  assert (op_status4 o1 = put_net true (pre ++ [e]) /\ op_status6 o1 = put_net false (pre ++ [e]) /\ op_status o1 = op_status o) as (E4 & E6 & E0).
  { unfold o1, put_net. rewrite !fold_left_app. destruct e as [[[] ok] nodes]; cbn; by rewrite H4 || rewrite H6. }
  cbn [put_run]. rewrite Es. unfold put_done. rewrite E0, Ho, E4, E6. cbn [negb andb]. fold (put_both (pre ++ [e])).
  destruct (put_both (pre ++ [e])) eqn:Eb.
  - left. exists [], e, es. rewrite app_nil_r. cbn [app]. split_and!; [done|done|done|].
    match goal with |- context [put_run es ?x] => pose proof (put_run_over es x eq_refl) as Hov; destruct (put_run es x) end. cbn in *. by rewrite Hov.
  - pose proof (IH (pre ++ [e]) o1) as H. rewrite E0 in H. specialize (H Ho E4 E6 Eb). destruct (put_run es o1) as [o2 c2]. cbn [snd app] in *.
    destruct H as [(es1 & e' & es2 & -> & H1 & H2 & ->)|[H1 ->]]; rewrite <- !app_assoc in *.
    + left. exists (e :: es1), e', es2. done.
    + right. done.
Qed.

(** C33. The end of a get or of a query is reported once, and when it is time.
    Whatever values and ends of searches arrive, in whatever order and number: either
    the done callback has been called once, nothing was called after it, and the
    events until then had ended the operation, both networks being done or the last
    values callback having asked to stop; it was told whether the callback stopped it
    or a network ended well, and all the nodes given so far. Or it has not been
    called, one of the networks is not done, and the callback has not asked to stop.
    The callback of a put is called by the event that makes both networks done, with
    whether one of them took the value, and once. *)
Theorem operation_ends_once {G : Gnutls} deref q get_cb cb local es es' ps :
  (told get_cb (EvValues local :: es) (dht_get deref get_cb true local es).2 \/
   waiting get_cb (EvValues local :: es) (dht_get deref get_cb true local es).2) /\
  (told cb (EvValues (map (fun v => FieldValueIndex_make (deref v) (q_select q)) local) :: es') (dht_query deref cb true q local es').2 \/
   waiting cb (EvValues (map (fun v => FieldValueIndex_make (deref v) (q_select q)) local) :: es') (dht_query deref cb true q local es').2) /\
  put_told [] ps (put_run ps OpStatus_make).2.
Proof.
  split; [apply op_run_ended|]. split; [apply op_run_ended|]. by apply put_run_told.
Qed.

(** ** A get reports what is new *)

Section Reports.
Context {G : Gnutls} (deref : vptr -> Value) (get_cb : list (list vptr) -> list vptr -> bool) (has_done : bool).

(** The last value reported under an id. *)
Definition last_reported (id : Z) (calls : list (user_call vptr)) : option vptr :=
  last (List.filter (fun v => id_of deref v =? id) (concat (got calls))).

(** The value is not the one the user knows under its id. *)
Definition unknown (calls : list (user_call vptr)) (v : vptr) : Prop :=
  match last_reported (id_of deref v) calls with
  | None => True
  | Some u => u <> v /\ value_eq (deref u) (deref v) = false
  end.

Definition reports_new (calls : list (user_call vptr)) : Prop :=
  forall pre vals post, calls = pre ++ UGet vals :: post -> Forall (unknown pre) vals.

(** The status remembers what was reported. *)
Definition remembers (o : GetStatus (list (Z * vptr))) (calls : list (user_call vptr)) : Prop :=
  zm_wf (gs_values o) /\ forall id, om_find Z.ltb id (gs_values o) = last_reported id calls.

Lemma got_app (c1 c2 : list (user_call vptr)) : got (c1 ++ c2) = got c1 ++ got c2.
Proof using Type. induction c1 as [|[] c1 IH]; cbn; [done|by rewrite IH|done]. Qed.

Lemma last_reported_done id calls ok nodes : last_reported id (calls ++ [UDone ok nodes]) = last_reported id calls.
Proof using Type. unfold last_reported. by rewrite got_app, app_nil_r. Qed.

Lemma get_cache_spec vals t calls : zm_wf t -> (forall id, om_find Z.ltb id t = last_reported id calls) ->
  zm_wf (get_cache deref t vals) /\
  forall id, om_find Z.ltb id (get_cache deref t vals) = last_reported id (calls ++ [UGet vals]).
Proof using Type.
  intros Hwf Ht. unfold last_reported in *. rewrite got_app, concat_app. cbn. rewrite app_nil_r.
  set (l := concat (got calls)) in *. clearbody l. revert t l Hwf Ht. induction vals as [|v vals IH]; intros t l Hwf Ht; cbn.
  { rewrite app_nil_r. done. }
  destruct (IH (om_set Z.ltb (id_of deref v) v t) (l ++ [v])) as [H1 H2]; [auto with vb_wf| |].
  - intros id. rewrite List.filter_app. cbn. destruct (Z.eqb_spec (id_of deref v) id) as [<-|Hne].
    + rewrite zm_find_set_eq by done. by rewrite last_snoc.
    + rewrite zm_find_set_ne by (try done; congruence). by rewrite app_nil_r.
  - split; [done|]. intros id. rewrite H2. by rewrite <- app_assoc.
Qed.

Lemma reports_snoc calls c : reports_new calls -> match c with UGet vals => Forall (unknown calls) vals | UDone _ _ => True end ->
  reports_new (calls ++ [c]).
Proof using Type.
  intros H Hc pre vals post E. destruct post as [|x post _] using rev_ind.
  - apply app_inj_tail in E as [-> ->]. done.
  - rewrite (app_comm_cons post), app_assoc in E. apply app_inj_tail in E as [-> _]. by eapply H.
Qed.

Lemma is_new_unknown o calls v : remembers o calls -> is_new deref (gs_values o) v = true -> unknown calls v.
Proof using Type.
  intros [_ Hr]. unfold is_new, unknown. rewrite Hr. destruct (last_reported _ calls) as [u|]; [|done].
  rewrite andb_true_iff, !negb_true_iff. intros [H1 H2]. split; [by apply bool_decide_eq_false_1 in H1|done].
Qed.

Lemma done_step_reports nodes o calls : remembers o calls -> reports_new calls ->
  let r := doneCallbackWrapper (A := vptr) has_done nodes o in remembers r.1 (calls ++ r.2) /\ reports_new (calls ++ r.2).
Proof using Type.
  intros [Hwf Hr] Hn r. unfold r, doneCallbackWrapper. destruct (st_done _); [by rewrite app_nil_r|].
  destruct (_ || _); [|by rewrite app_nil_r]. destruct has_done; cbn; [|by rewrite app_nil_r].
  split; [|by apply reports_snoc]. split; [done|]. intros id. by rewrite last_reported_done.
Qed.

Lemma get_step_reports e o calls : remembers o calls -> reports_new calls ->
  let r := op_step (get_add deref) (get_cache deref) get_cb has_done e calls o in remembers r.1 (calls ++ r.2) /\ reports_new (calls ++ r.2).
Proof using Type.
  intros Hr Hn. destruct e as [vals|ok nodes|ok nodes]; cbn [op_step]; [|by apply done_step_reports..].
  unfold callbackWrapper. destruct (st_done _); cbn; [by rewrite app_nil_r|].
  destruct (List.filter (is_new deref (gs_values o)) vals) as [|v nv] eqn:E.
  - pose proof (done_step_reports [] (mkGS (gs_op o) (gs_values o) (gs_nodes o)) calls Hr Hn) as H.
    destruct (doneCallbackWrapper _ [] _). exact H.
  - set (o1 := mkGS _ _ _). destruct Hr as [Hwf Hr]. destruct (get_cache_spec (v :: nv) (gs_values o) calls Hwf Hr) as [H1 H2].
    pose proof (done_step_reports [] o1 (calls ++ [UGet (v :: nv)])) as H. destruct (doneCallbackWrapper _ [] o1). cbn in *. rewrite <- app_assoc in H. apply H.
    + done.
    + apply reports_snoc; [done|]. rewrite <- E. apply Forall_forall. intros x Hx. apply list_elem_of_In, filter_In in Hx as [_ Hx].
      by apply (is_new_unknown o).
Qed.

(** A get never repeats itself: every value it hands to the callback is, for its
    id, another value than the last one handed over, on whichever network, or from the
    storage, it was found. *)
Theorem get_reports_news local es : reports_new (dht_get deref get_cb has_done local es).2.
Proof using Type.
  unfold dht_get. generalize (EvValues local :: es). intros evs.
  assert (remembers (GetStatus_make []) [] /\ reports_new []) as [Hr Hn].
  { split; [split; [auto with vb_wf|done]|]. intros pre vals post E. by destruct pre. }
  revert Hr Hn. generalize ([] : list (user_call vptr)). generalize (GetStatus_make ([] : list (Z * vptr))).
  induction evs as [|e evs IH]; intros o calls Hr Hn; cbn [op_run]; [done|].
  destruct (get_step_reports e o calls Hr Hn) as [Hr' Hn'].
  destruct (op_step _ _ _ _ e calls o) as [o' c]. by apply IH.
Qed.
End Reports.
