(* ===== verification/DhtSearch.v ===== *)
(** * DhtSearch: the searches of a node

    Models the part of src/opendht-2.1.4/src/dht.cpp that keeps the table of searches of
    a network and starts operations on them: [search], [refill], [announce],
    [listenTo], [listen], [cancelListen], [cancelPut], [getPut], [expireSearches], and the
    completion of gets and puts by [searchStep].  Searches are shared objects in a heap;
    a table maps keys to them.  [None] stands for a loop that has not ended. *)
From S2P Require Import Prelude StdMap InfoHash SockAddr Node NodeCache Value Query Storage DhtStorage ValueCache OpCache.
From S2P Require Import SearchNode Search.

Abbreviation sptr := positive (only parsing).

Definition SEARCH_EXPIRE_TIME : Z := minutes 62.

Section DhtSearch.
Context {G : Gnutls} (AF_INET6 : Z) (deref : vptr -> Value) (qderef : qptr -> Query).

(** The members of [Dht] used here; [dht4.searches] and [dht6.searches] are tables. *)
Record DhtSearch := mkDht {
  dd_heap : gmap positive Search;
  dd_srs4 : list (Hash * sptr);
  dd_srs6 : list (Hash * sptr);
  dd_search_id : Z;
  dd_max_searches : Z;
  dd_running4 : bool;
  dd_running6 : bool;
  dd_cache : NodeCache;
  dd_world : World;
  dd_store : list (Hash * Storage);
  dd_max_store_keys : Z;
  dd_listeners : list (Z * (Z * Z * Z));
  dd_listener_token : Z;
}.

Ltac dd_with m f v :=
  let t := with_member mkDht m f v
    (dd_heap, (dd_srs4, (dd_srs6, (dd_search_id, (dd_max_searches, (dd_running4, (dd_running6, (dd_cache, (dd_world,
    (dd_store, (dd_max_store_keys, (dd_listeners, (dd_listener_token, tt))))))))))))) in exact t.

Definition dd_set_heap (x : gmap positive Search) (d : DhtSearch) : DhtSearch := ltac:(dd_with d dd_heap x).
Definition dd_set_srs4 (x : list (Hash * sptr)) (d : DhtSearch) : DhtSearch := ltac:(dd_with d dd_srs4 x).
Definition dd_set_srs6 (x : list (Hash * sptr)) (d : DhtSearch) : DhtSearch := ltac:(dd_with d dd_srs6 x).
Definition dd_set_search_id (x : Z) (d : DhtSearch) : DhtSearch := ltac:(dd_with d dd_search_id x).
Definition dd_set_world (x : World) (d : DhtSearch) : DhtSearch := ltac:(dd_with d dd_world x).
Definition dd_set_store (x : list (Hash * Storage)) (d : DhtSearch) : DhtSearch := ltac:(dd_with d dd_store x).
Definition dd_set_listeners (x : list (Z * (Z * Z * Z))) (d : DhtSearch) : DhtSearch := ltac:(dd_with d dd_listeners x).
Definition dd_set_listener_token (x : Z) (d : DhtSearch) : DhtSearch := ltac:(dd_with d dd_listener_token x).

(** [searches(af)], [isRunning(af)]. *)
Definition searches (af : Z) (d : DhtSearch) : list (Hash * sptr) := if af =? AF_INET then dd_srs4 d else dd_srs6 d.
Definition set_searches (af : Z) (x : list (Hash * sptr)) (d : DhtSearch) : DhtSearch :=
  if af =? AF_INET then dd_set_srs4 x d else dd_set_srs6 x d.
Definition isRunning (af : Z) (d : DhtSearch) : bool := if af =? AF_INET then dd_running4 d else dd_running6 d.

Definition put_search (p : sptr) (s : Search) (d : DhtSearch) : DhtSearch := dd_set_heap (<[p := s]> (dd_heap d)) d.

(** [refill]: nodes of the cache are tried in turn. *)
Fixpoint refill_loop (ps : list ptr) (now : Z) (s : Search) (w : World) : outcome (Search * World * list effect) :=
  match ps with
  | [] => Ret (s, w, [])
  | p :: ps' =>
      '(_, s1, w1, e1) ← sr_insertNode p now [] s w;
      '(s2, w2, e2) ← refill_loop ps' now s1 w1;
      Ret (s2, w2, e1 ++ e2)
  end.

Definition refill (now : Z) (cache : NodeCache) (s : Search) (w : World) : outcome (Search * World * list effect) :=
  refill_loop (getCachedNodes (sr_id s) (sr_af s) (Z.to_nat SEARCH_NODES) cache w) now (sr_set_refill_time now s) w.

(** The loop that looks for a search to use again: its iterator does not move. *)
Definition reusable (s : Search) : bool :=
  (sr_done s || sr_expired s) && bool_decide (map an_value (sr_announce s) = []) && bool_decide (map fst (sr_listeners s) = []).

Fixpoint reuse_loop (fuel : nat) (heap : gmap positive Search) (it : list (Hash * sptr)) : option (option sptr) :=
  match it with
  | [] => Some None
  | (_, p) :: _ =>
      if match heap !! p with Some s => reusable s | None => false end then Some (Some p)
      else match fuel with O => None | S fuel' => reuse_loop fuel' heap it end
  end.

(** The search to use, and whether it is to be set up; [None] of the inner option when
    there is none. *)
Definition search_slot (fuel : nat) (id : Hash) (af : Z) (fresh : sptr) (d : DhtSearch) : option (option (sptr * bool) * DhtSearch) :=
  match om_find op_lt id (searches af d) with
  | Some p => Some (Some (p, false), d)
  | None =>
      if Z.of_nat (length (searches af d)) <? dd_max_searches d then
        Some (Some (fresh, true), set_searches af (om_emplace op_lt id fresh (searches af d)).1 (put_search fresh Search_make d))
      else match reuse_loop fuel (dd_heap d) (searches af d) with
           | None => None
           | Some None => Some (None, d)
           | Some (Some p) => Some (Some (p, true), d)
           end
  end.

(** Setting up a search. *)
Definition init_search (id : Hash) (af : Z) (job : positive) (d : DhtSearch) (s : Search) : outcome (Search * DhtSearch * list effect) :=
  '(w, evs) ← destroy_nodes (sr_nodes s) (dd_world d);
  let next := wrap 16 (dd_search_id d + 1) in
  Ret (sr_set_nextSearchStep (Some job) (sr_set_nodes [] (sr_set_expired false (sr_set_done false (sr_set_id id
         (sr_set_step_time time_min (sr_set_tid (dd_search_id d) (sr_set_af af s))))))),
       dd_set_search_id (if next =? 0 then 1 else next) (dd_set_world w d), evs).

(** [search]: [job] is the job added for its steps, [fresh] a new object. *)
Definition search (fuel : nat) (id : Hash) (af : Z) (answer : list vptr -> bool) (f : Filter) (q : qptr)
    (gcb qcb dcb : option nat) (now : Z) (fresh job : positive) (d : DhtSearch) :
    option (outcome (option sptr * DhtSearch * list effect)) :=
  if negb (isRunning af d) then Some (Ret (None, d, done_if dcb false []))
  else
    match search_slot fuel id af fresh d with
    | None => None
    | Some (None, d1) => Some (Ret (None, d1, []))
    | Some (Some (p, setup), d1) =>
        Some
          (s ← match dd_heap d1 !! p with Some s => Ret s | None => Undef "dangling search" end;
           '(s1, d2, e1) ← (if setup : bool then init_search id af job d1 s
                            else Ret (sr_set_expired false (sr_set_done false s), d1, []));
           '(s2, e2) ← sr_get deref qderef answer f q qcb gcb dcb now s1;
           '(s3, w, e3) ← refill now (dd_cache d2) s2 (dd_world d2);
           Ret (Some p, dd_set_world w (put_search p s3 d2), e1 ++ e2 ++ e3))
    end.

(** [search(id, af)], the other arguments being empty. *)
Definition search_only (fuel : nat) (id : Hash) (af : Z) (now : Z) (fresh job : positive) (d : DhtSearch) :=
  search fuel id af (fun _ => true) None 1%positive None None None now fresh job d.

(** The search of a key, started when there is none. *)
Definition find_or_search (fuel : nat) (id : Hash) (af : Z) (now : Z) (fresh job : positive) (d : DhtSearch) :
    option (outcome (option sptr * DhtSearch * list effect)) :=
  match om_find op_lt id (searches af d) with
  | Some p => Some (Ret (Some p, d, []))
  | None => search_only fuel id af now fresh job d
  end.

(** [announce]. *)
Definition announce (fuel : nat) (id : Hash) (af : Z) (value : vptr) (callback : option nat) (created : Z) (permanent : bool)
    (now : Z) (fresh job : positive) (d : DhtSearch) : option (outcome (DhtSearch * list effect)) :=
  match find_or_search fuel id af now fresh job d with
  | None => None
  | Some r => Some
      ('(sp, d1, e1) ← r;
       match sp with
       | None => Ret (d1, e1 ++ done_if callback false [])
       | Some p =>
           s ← match dd_heap d1 !! p with Some s => Ret s | None => Undef "dangling search" end;
           let '(s', e2) := sr_put deref (dd_world d1) value callback created permanent s in
           Ret (put_search p s' d1, e1 ++ e2 ++ [EditJob (sr_nextSearchStep s') now])
       end)
  end.

(** [listenTo]: the token of the search, or [0]. *)
Definition listenTo (fuel : nat) (id : Hash) (af : Z) (answer : list vptr -> bool) (q : qptr) (l : LocalListener) (get_cb sync_cb : nat)
    (now : Z) (fresh job : positive) (d : DhtSearch) : option (outcome (Z * DhtSearch * list effect)) :=
  if negb (isRunning af d) then Some (Ret (0, d, []))
  else
    match find_or_search fuel id af now fresh job d with
    | None => None
    | Some r => Some
        ('(sp, d1, e1) ← r;
         match sp with
         | None => Throw "Can't create search"
         | Some p =>
             s ← match dd_heap d1 !! p with Some s => Ret s | None => Undef "dangling search" end;
             let '(token, s', e2) := sr_listen deref qderef answer now q l get_cb sync_cb s in
             Ret (token, put_search p s' d1, e1 ++ e2)
         end)
    end.

(** [listen]: on the storage, then on both networks. *)
Definition listen_local (id : Hash) (answer : list vptr -> bool) (q : qptr) (l : LocalListener) (now : Z) (d : DhtSearch) :
    option Z * DhtSearch * list (list vptr) :=
  let st := match om_find op_lt id (dd_store d) with
            | Some st => Some st
            | None => if Z.of_nat (length (dd_store d)) <? dd_max_store_keys d then Some (Storage_make (now + minutes 10)) else None
            end in
  match st with
  | None => (None, d, [])
  | Some st =>
      let '(token, calls, st') := st_listen deref answer (ll_cb l) (ll_filter l) (Some (qderef q)) st in
      (Some token, dd_set_store (om_set op_lt id st' (dd_store d)) d, calls)
  end.

Definition cancel_local (id : Hash) (token : Z) (d : DhtSearch) : DhtSearch :=
  match om_find op_lt id (dd_store d) with
  | Some st => dd_set_store (om_set op_lt id (cancelListen token st) (dd_store d)) d
  | None => d
  end.

Definition listen (fuel : nat) (id : Hash) (answer : list vptr -> bool) (q : qptr) (l : LocalListener) (get_cb sync_cb : nat)
    (now : Z) (fresh4 fresh6 job4 job6 : positive) (d : DhtSearch) : option (outcome (Z * DhtSearch * list effect)) :=
  let token := u64 (dd_listener_token d + 1) in
  let '(tokenlocal, d1, calls) := listen_local id answer q l now (dd_set_listener_token token d) in
  let e0 := map (fun vals => GetCb (ll_cb l) vals) calls in
  match tokenlocal with
  | Some 0 => Some (Ret (0, d1, e0))
  | _ =>
      match listenTo fuel id AF_INET answer q l get_cb sync_cb now fresh4 job4 d1 with
      | None => None
      | Some (Ret (token4, d2, e1)) =>
          match (if token4 =? 0 then Some (Ret (0, d2, [])) else listenTo fuel id AF_INET6 answer q l get_cb sync_cb now fresh6 job6 d2) with
          | None => None
          | Some r => Some
              ('(token6, d3, e2) ← r;
               match tokenlocal with
               | Some t =>
                   if token6 =? 0 then Ret (0, cancel_local id t d3, e0 ++ e1 ++ e2)
                   else Ret (token, dd_set_listeners (om_emplace Z.ltb token (t, token4, token6) (dd_listeners d3)).1 d3, e0 ++ e1 ++ e2)
               | None => Ret (token, dd_set_listeners (om_emplace Z.ltb token (0, token4, token6) (dd_listeners d3)).1 d3, e0 ++ e1 ++ e2)
               end)
          end
      | Some o => Some ('(_, _, _) ← o; Undef "unreachable")
      end
  end.

(** [cancelListen]: the local listener, then those of the searches; [job] is used when a
    search makes its expiration job. *)
Definition search_cancelListen (id : Hash) (af token now : Z) (job : positive) (d : DhtSearch) : DhtSearch * list effect :=
  if token =? 0 then (d, [])
  else match om_find op_lt id (searches af d) with
       | None => (d, [])
       | Some p => match dd_heap d !! p with
                   | None => (d, [])
                   | Some s => let '(s', e) := sr_cancelListen token now job s in (put_search p s' d, e)
                   end
       end.

Definition dht_cancelListen (id : Hash) (token now : Z) (job4 job6 : positive) (d : DhtSearch) : bool * DhtSearch * list effect :=
  match om_find Z.ltb token (dd_listeners d) with
  | None => (false, d, [])
  | Some (tokenlocal, token4, token6) =>
      let d1 := if tokenlocal =? 0 then d else cancel_local id tokenlocal d in
      let '(d2, e2) := search_cancelListen id AF_INET token4 now job4 d1 in
      let '(d3, e3) := search_cancelListen id AF_INET6 token6 now job6 d2 in
      (true, dd_set_listeners (om_erase Z.ltb token (dd_listeners d3)) d3, e2 ++ e3)
  end.

(** [getPut]. *)
Definition table_getPut (id : Hash) (srs : list (Hash * sptr)) (d : DhtSearch) : list vptr :=
  match om_find op_lt id srs with
  | Some p => match dd_heap d !! p with Some s => sr_getPut s | None => [] end
  | None => []
  end.
Definition dht_getPut (id : Hash) (d : DhtSearch) : list vptr := table_getPut id (dd_srs4 d) d ++ table_getPut id (dd_srs6 d) d.

Definition table_getPut_id (id : Hash) (vid : Z) (srs : list (Hash * sptr)) (d : DhtSearch) : option vptr :=
  p ← om_find op_lt id srs; s ← dd_heap d !! p; sr_getPut_id deref vid s.
Definition dht_getPut_id (id : Hash) (vid : Z) (d : DhtSearch) : option vptr :=
  match table_getPut_id id vid (dd_srs4 d) d with Some v => Some v | None => table_getPut_id id vid (dd_srs6 d) d end.

(** [cancelPut]: whether the caller is to erase the value from the storage. *)
Definition table_cancelPut (id : Hash) (vid : Z) (af : Z) (d : DhtSearch) : bool * DhtSearch :=
  match om_find op_lt id (searches af d) with
  | None => (false, d)
  | Some p => match dd_heap d !! p with
              | None => (false, d)
              | Some s => let '(b, s', w) := sr_cancelPut deref vid s (dd_world d) in (b, dd_set_world w (put_search p s' d))
              end
  end.
Definition dht_cancelPut (id : Hash) (vid : Z) (d : DhtSearch) : bool * DhtSearch :=
  let '(b4, d1) := table_cancelPut id vid AF_INET d in
  let '(b6, d2) := table_cancelPut id vid AF_INET6 d1 in (b4 || b6, d2).

(** [expireSearches]. *)
Definition search_unused (t : Z) (s : Search) : bool :=
  bool_decide (map fst (sr_callbacks s) = []) && bool_decide (map an_value (sr_announce s) = []) &&
  bool_decide (map fst (sr_listeners s) = []) && (sr_step_time s <? t).

Fixpoint expire_table (t : Z) (srs : list (Hash * sptr)) (d : DhtSearch) : outcome (list (Hash * sptr) * DhtSearch * list effect) :=
  match srs with
  | [] => Ret ([], d, [])
  | (id, p) :: srs' =>
      match dd_heap d !! p with
      | None => Undef "dangling search"
      | Some s =>
          if search_unused t s then
            '(s', w, e) ← sr_clear s (dd_world d);
            '(l, d', e') ← expire_table t srs' (dd_set_world w (put_search p s' d));
            Ret (l, d', e ++ e')
          else
            '(l, d', e') ← expire_table t srs' d; Ret ((id, p) :: l, d', e')
      end
  end.

Definition expireSearches (now : Z) (d : DhtSearch) : outcome (DhtSearch * list effect) :=
  let t := now - SEARCH_EXPIRE_TIME in
  '(l4, d1, e1) ← expire_table t (dd_srs4 d) d;
  '(l6, d2, e2) ← expire_table t (dd_srs6 d1) (dd_set_srs4 l4 d1);
  Ret (dd_set_srs6 l6 d2, e1 ++ e2).

(** ** Completing operations

    The part of [searchStep] that runs on a synced search with gets or puts. *)

(** The loop over [callbacks]: those left, those completed. *)
Fixpoint complete_loop (w : World) (cbs : list (Z * Get)) (s : Search) : Search * list (Z * Get) * list Get * list effect :=
  match cbs with
  | [] => (s, [], [], [])
  | (t, g) :: cbs' =>
      if sr_isDone w g s then
        let '(s1, e1) := setDone_get g s in
        let '(s2, rest, completed, e2) := complete_loop w cbs' s1 in (s2, rest, g :: completed, e1 ++ e2)
      else
        let '(s2, rest, completed, e2) := complete_loop w cbs' s in (s2, (t, g) :: rest, completed, e2)
  end.

Definition clear_queries (completed : list Get) (n : SearchNode) : SearchNode :=
  fold_left (fun n g =>
    sn_set_pagination (om_erase Pos.ltb (g_query g) (sn_pagination_queries n))
      (sn_set_getStatus (om_erase Pos.ltb (g_query g) (sn_getStatus n)) n)) completed n.

Definition complete `{Partition} (s : Search) (w : World) : Search * World * list effect :=
  let '(s1, rest, completed, e1) := complete_loop w (sr_callbacks s) s in
  let s2 := sr_set_nodes (map (clear_queries completed) (sr_nodes s1)) (sr_set_callbacks rest s1) in
  let '(s3, w3, e3) := checkAnnounced deref 0 s2 w in
  match sr_callbacks s3, sr_announce s3, sr_listeners s3 with
  | [], [], [] => let '(s4, w4, e4) := sr_setDone s3 w3 in (s4, w4, e1 ++ e3 ++ e4)
  | _, _, _ => (s3, w3, e1 ++ e3)
  end.
End DhtSearch.

(** ** Done callbacks are called once *)

Lemma list_filter_none {A} (f : A -> bool) l : Forall (fun x => f x = false) l -> List.filter f l = [].
Proof. induction 1 as [|x l Hx _ IH]; cbn; [done|]. by rewrite Hx. Qed.

Lemma list_filter_all {A} (f : A -> bool) l : Forall (fun x => f x = true) l -> List.filter f l = l.
Proof. induction 1 as [|x l Hx _ IH]; cbn; [done|]. by rewrite Hx, IH. Qed.

Lemma list_filter_perm {A} (f : A -> bool) l l' : l ≡ₚ l' -> List.filter f l ≡ₚ List.filter f l'.
Proof.
  induction 1 as [|x l l' _ IH|x y l|]; cbn; [done|destruct (f x); by rewrite IH| |by etrans].
  destruct (f x), (f y); try done. apply Permutation_swap.
Qed.

(** A step of [outcome] that returned. *)
Lemma outcome_bind_Ret {A B} (m : outcome A) (f : A -> outcome B) b : (x ← m; f x) = Ret b -> exists a, m = Ret a /\ f a = Ret b.
Proof. destruct m; try done. eauto. Qed.

Ltac inv_bind H x E := apply outcome_bind_Ret in H as (x & E & H).

Section Callbacks.
Context {G : Gnutls} (deref : vptr -> Value) (qderef : qptr -> Query) {PA : Partition}.

Definition called (es : list effect) : list nat := omap (fun e => match e with DoneCb cb _ _ => Some cb | _ => None end) es.

(** The done callbacks a search still owes a call. *)
Definition put_cbs (l : list Announce) : list nat := omap an_callback l.
Definition get_cbs (l : list (Z * Get)) : list nat := omap (fun e => g_done_cb e.2) l.
Definition pending (s : Search) : list nat := put_cbs (sr_announce s) ++ get_cbs (sr_callbacks s).

Definition given (cb : option nat) : list nat := match cb with Some c => [c] | None => [] end.

Lemma called_app a b : called (a ++ b) = called a ++ called b.
Proof using Type. apply omap_app. Qed.

Lemma called_done_if cb ok nodes : called (done_if cb ok nodes) = given cb.
Proof using Type. by destruct cb. Qed.

Lemma put_cbs_app a b : put_cbs (a ++ b) = put_cbs a ++ put_cbs b.
Proof using Type. apply omap_app. Qed.

Lemma put_cbs_cons a l : put_cbs (a :: l) = given (an_callback a) ++ put_cbs l.
Proof using Type. unfold put_cbs. cbn. by destruct (an_callback a). Qed.

Lemma get_cbs_cons e l : get_cbs (e :: l) = given (g_done_cb e.2) ++ get_cbs l.
Proof using Type. unfold get_cbs. cbn. by destruct (g_done_cb e.2). Qed.

Lemma find_announce_split vid l pre a post : find_announce deref vid l = Some (pre, a, post) -> l = pre ++ a :: post.
Proof using Type.
  revert pre. induction l as [|x l IH]; intros pre H; cbn in H; [done|]. destruct (_ =? vid); [by simplify_eq|].
  destruct (find_announce deref vid l) as [[[p y] q]|]; [|done]. simplify_eq. cbn. f_equal. by apply IH.
Qed.

Lemma put_callbacks w v cb created perm s s' es : sr_put deref w v cb created perm s = (s', es) ->
  pending s' ++ called es ≡ₚ pending s ++ given cb.
Proof using Type.
  unfold sr_put, pending. cbn [sr_announce sr_set_expired sr_set_done]. destruct (find_announce _ _ _) as [[[pre a] post]|] eqn:E.
  - apply find_announce_split in E. rewrite E.
    case_bool_decide; destruct (sr_isAnnounced _ _ _); intros [= <- <-];
      cbn [sr_announce sr_callbacks sr_set_announce sr_set_nodes sr_set_expired sr_set_done];
      rewrite !put_cbs_app, !put_cbs_cons, ?called_app, !called_done_if; cbn [an_callback given]; solve_Permutation.
  - intros [= <- <-]. cbn. rewrite put_cbs_app, put_cbs_cons. cbn. rewrite !app_nil_r. solve_Permutation.
Qed.

Lemma get_callbacks answer f q qcb gcb dcb now s s' es :
  sr_get deref qderef answer f q qcb gcb dcb now s = Ret (s', es) -> (gcb <> None \/ qcb <> None) ->
  pending s' ++ called es ≡ₚ pending s ++ given dcb.
Proof using Type.
  intros H Hcb. unfold sr_get in H.
  assert (exists es0, called es0 = [] /\
    ((s' = s /\ es = es0 ++ done_if dcb true [] /\ dcb <> None) \/
     (s' = sr_set_callbacks (mm_insert Z.ltb now (mkGet now f q qcb gcb dcb) (sr_callbacks s)) s /\ es = es0 ++ [EditJob (sr_nextSearchStep s) now]))) as (es0 & Hes & Hcase).
  { destruct (sc_get_op _ _ _ _ _ _) as [over vals]. destruct gcb as [gcb|], qcb as [qcb|], vals as [vs|], over; try (by destruct Hcb); cbn in H; try done;
      try (destruct dcb as [dcb|]; [|done]); simplify_eq;
      first [exists []; split; [done|]; (left; split_and!; done) || (right; split_and!; done)
            |exists [GetCb gcb vs]; split; [done|]; (left; split_and!; done) || (right; split_and!; done)]. }
  destruct Hcase as [(-> & -> & _)|[-> ->]].
  - by rewrite called_app, Hes, called_done_if.
  - rewrite called_app, Hes. cbn [called omap list_omap app]. rewrite app_nil_r. unfold pending. cbn [sr_announce sr_callbacks sr_set_callbacks].
    rewrite <- app_assoc. f_equiv. unfold get_cbs. rewrite mm_insert_perm. cbn. destruct dcb; cbn; [|by rewrite app_nil_r]. solve_Permutation.
Qed.

Lemma check_callbacks w vid s l :
  put_cbs (map (fun x => x.1.1) (map (check_announce deref w vid s) l)) ++ called (concat (map snd (map (check_announce deref w vid s) l))) ≡ₚ put_cbs l.
Proof using Type.
  induction l as [|a l IH]; [done|]. cbn [map concat]. rewrite called_app, !put_cbs_cons.
  assert (given (an_callback (check_announce deref w vid s a).1.1) ++ called (check_announce deref w vid s a).2 ≡ₚ given (an_callback a)) as Ha.
  { unfold check_announce. destruct (_ && _); [by rewrite app_nil_r|]. destruct (sr_isAnnounced _ _ _); [cbn; by rewrite called_done_if|by rewrite app_nil_r]. }
  rewrite <- Ha, <- IH. solve_Permutation.
Qed.

(** The values that are dropped have no callback left. *)
Lemma check_over w vid s l :
  put_cbs (map (fun x => x.1.1) (List.filter (fun x => negb x.1.2) (map (check_announce deref w vid s) l))) = [].
Proof using Type.
  induction l as [|a l IH]; [done|]. cbn [map List.filter].
  assert (an_callback (check_announce deref w vid s a).1.1 = None \/ (check_announce deref w vid s a).1.2 = true) as Ha.
  { unfold check_announce. destruct (_ && _); [by right|]. destruct (sr_isAnnounced _ _ _); [by left|by right]. }
  destruct Ha as [Ha| ->]; [|done]. destruct ((check_announce deref w vid s a).1.2); cbn [negb map]; [done|]. by rewrite put_cbs_cons, Ha.
Qed.

Lemma put_cbs_perm l l' : l ≡ₚ l' -> put_cbs l ≡ₚ put_cbs l'.
Proof using Type. intros H. unfold put_cbs. by rewrite H. Qed.

Lemma checkAnnounced_callbacks vid s w s' w' es : checkAnnounced deref vid s w = (s', w', es) ->
  sr_callbacks s' = sr_callbacks s /\ put_cbs (sr_announce s') ++ called es ≡ₚ put_cbs (sr_announce s).
Proof using Type.
  unfold checkAnnounced. set (l := map (check_announce deref w vid s) (sr_announce s)).
  pose proof (partition_perm (fun x => x.1.2) l) as Hp. pose proof (partition_left (fun x => x.1.2) l) as Hl.
  pose proof (partition_right (fun x => x.1.2) l) as Hr. destruct (partition _ l) as [keep over]. cbn [fst snd] in *.
  destruct (drop_all_acks _ _ _) as [nodes w1]. intros [= <- <- <-]. cbn [sr_callbacks sr_announce sr_set_nodes sr_set_announce].
  split; [done|]. rewrite <- (check_callbacks w vid s (sr_announce s)). fold l. f_equiv.
  assert (put_cbs (map (fun x => x.1.1) over) = []) as Hover.
  { assert (over ≡ₚ List.filter (fun x => negb x.1.2) l) as Ho.
    { rewrite <- (list_filter_perm _ _ _ Hp), List.filter_app, (list_filter_none _ keep), (list_filter_all _ over); [done|..].
      - eapply Forall_impl; [exact Hr|]. cbn. by intros x ->.
      - eapply Forall_impl; [exact Hl|]. cbn. by intros x ->. }
    apply Permutation_nil_r. rewrite (put_cbs_perm _ _ (Permutation_map _ Ho)). unfold l. by rewrite check_over. }
  rewrite <- (put_cbs_perm _ _ (Permutation_map (fun x : Announce * bool * list effect => x.1.1) Hp)), map_app, put_cbs_app, Hover. by rewrite app_nil_r.
Qed.

(** What the other operations leave: the gets and puts of the search, and no call. *)
Definition quiet (s s' : Search) (es : list effect) : Prop :=
  sr_callbacks s' = sr_callbacks s /\ sr_announce s' = sr_announce s /\ called es = [].

Lemma called_cache evs : called (map CacheEv evs) = [].
Proof using Type. by induction evs. Qed.

Lemma destroy_nodes_called l w w' es : destroy_nodes l w = Ret (w', es) -> called es = [].
Proof using Type.
  revert w w' es. induction l as [|n l IH]; intros w w' es H; cbn in H; [by simplify_eq|].
  inv_bind H x E. destruct x as [w1 e1]. inv_bind H y E'. destruct y as [w2 e2]. simplify_eq.
  by rewrite called_app, called_cache, (IH _ _ _ E').
Qed.

Lemma put_token_quiet now token i s s' : put_token now token i s = Ret s' -> sr_callbacks s' = sr_callbacks s /\ sr_announce s' = sr_announce s.
Proof using Type.
  unfold put_token. destruct token; [by intros [= <-]|]. destruct (sr_nodes s !! i); [|done]. by intros [= <-].
Qed.

Lemma removeExpiredNode_quiet now s w b s' w' es : removeExpiredNode now s w = Ret (b, s', w', es) -> quiet s s' es.
Proof using Type.
  unfold removeExpiredNode. destruct (last_removable _ _ _ _); intros H; [|by simplify_eq].
  inv_bind H x E. destruct x as [w1 e1]. simplify_eq. split_and!; [done..|]. by eapply destroy_nodes_called.
Qed.

Lemma emplace_quiet p nd now i bad s w s' w' es : emplace_node p nd now i bad s w = Ret (s', w', es) -> quiet s s' es.
Proof using Type.
  unfold emplace_node. destruct (if isExpired nd then _ else _) as [bad' ex]. intros H.
  inv_bind H x E. destruct x as [k b]. inv_bind H y E'. destruct y as [w2 e2]. simplify_eq.
  split_and!; [by destruct (sr_nodes s)..|]. by eapply destroy_nodes_called.
Qed.

Lemma insertNode_quiet p now token s w b s' w' es : sr_insertNode p now token s w = Ret (b, s', w', es) -> quiet s s' es.
Proof using Type.
  unfold sr_insertNode. destruct (w_nodes w !! p) as [nd|]; [|done]. destruct (negb _); [by intros [= <- <- <- <-]|].
  destruct (scan_back _ _ _ _ _ _) as [[] i]; intros H.
  - inv_bind H x E. simplify_eq. by destruct (put_token_quiet _ _ _ _ _ E).
  - inv_bind H x E. destruct x as [[full t] bad]. inv_bind H y E'. destruct y as [w1 e1].
    assert (called e1 = []) as He1 by (destruct full; [by eapply destroy_nodes_called|by simplify_eq]).
    destruct (full && _); [simplify_eq; by destruct full|].
    inv_bind H nd1 E1. inv_bind H y E2. destruct y as [[s2 w2] e2]. inv_bind H s3 E3.
    inv_bind H y E4. destruct y as [[[b4 s4] w4] e4]. simplify_eq.
    apply emplace_quiet in E2 as (Hc & Ha & He2). apply put_token_quiet in E3 as [Hc' Ha'].
    apply removeExpiredNode_quiet in E4 as (Hc4 & Ha4 & He4).
    split_and!; [rewrite Hc4, Hc', Hc; by destruct full|rewrite Ha4, Ha', Ha; by destruct full|].
    by rewrite !called_app, He1, He2, He4.
Qed.

Lemma listen_quiet answer now q l gcb scb s t s' es : sr_listen deref qderef answer now q l gcb scb s = (t, s', es) -> quiet s s' es.
Proof using Type.
  unfold sr_listen. destruct (sc_listen _ _ _ _ _ _ _ _) as [[[token calls] fresh] cache'].
  assert (called (map ListenEv calls) = []) as Hc by (by induction calls). destruct fresh; intros [= <- <- <-]; by split_and!.
Qed.

Lemma cancelListen_quiet token now job s s' es : sr_cancelListen token now job s = (s', es) -> quiet s s' es.
Proof using Type.
  unfold sr_cancelListen. destruct (sc_cancelListen _ _ _) as [b cache']. destruct (sr_opExpirationJob s); by intros [= <- <-].
Qed.

Lemma nodes_cancelListen_called q none l w l' w' es : nodes_cancelListen q none l w = Ret (l', w', es) -> called es = [].
Proof using Type.
  revert w l' w' es. induction l as [|n l IH]; intros w l' w' es H; cbn in H; [by simplify_eq|].
  inv_bind H x E. destruct x as [[n1 w1] e1]. inv_bind H y E'. destruct y as [[l2 w2] e2]. simplify_eq.
  by rewrite called_app, called_cache, (IH _ _ _ _ E').
Qed.

Lemma cancel_tokens_quiet toks s w s' w' es : cancel_tokens toks s w = Ret (s', w', es) -> quiet s s' es.
Proof using Type.
  revert s w s' w' es. induction toks as [|t toks IH]; intros s w s' w' es H; cbn in H; [by simplify_eq|].
  inv_bind H x E. destruct x as [[l1 w1] e1]. inv_bind H y E'. destruct y as [[s2 w2] e2]. simplify_eq.
  apply nodes_cancelListen_called in E. apply IH in E' as (Hc & Ha & He). split_and!; [done..|]. by rewrite called_app, E, He.
Qed.

Lemma opExpiration_quiet now s w s' w' es : opExpiration now s w = Ret (s', w', es) -> quiet s s' es.
Proof using Type.
  unfold opExpiration. destruct (sc_expire _ _) as [[next toks] cache']. intros H. inv_bind H x E. destruct x as [[s1 w1] e1].
  simplify_eq. apply cancel_tokens_quiet in E as (Hc & Ha & He). split_and!; [done..|]. by rewrite called_app, He.
Qed.

Lemma complete_loop_callbacks w cbs s s' rest completed es : complete_loop w cbs s = (s', rest, completed, es) ->
  sr_announce s' = sr_announce s /\ get_cbs rest ++ called es ≡ₚ get_cbs cbs.
Proof using Type.
  revert s s' rest completed es. induction cbs as [|[t g] cbs IH]; intros s s' rest completed es H; cbn in H; [by simplify_eq|].
  destruct (sr_isDone w g s).
  - destruct (complete_loop w cbs _) as [[[s2 r2] c2] e2] eqn:E. simplify_eq. apply IH in E as [Ha Hp].
    split; [done|]. rewrite called_app, called_done_if, get_cbs_cons, <- Hp. cbn. solve_Permutation.
  - destruct (complete_loop w cbs s) as [[[s2 r2] c2] e2] eqn:E. simplify_eq. apply IH in E as [Ha Hp].
    split; [done|]. rewrite !get_cbs_cons, <- Hp. by rewrite app_assoc.
Qed.

Lemma setDone_quiet s w s' w' es : sr_setDone s w = (s', w', es) -> quiet s s' es.
Proof using Type.
  unfold sr_setDone. assert (forall l w, called (clear_statuses l w).2 = []) as Hc.
  { intros l. induction l as [|n l IH]; intros w0; [done|]. cbn. destruct (destroy_all _ w0) as [w1 e1].
    pose proof (IH w1). destruct (clear_statuses l w1) as [[r w2] e2]. cbn in *. by rewrite called_app, called_cache. }
  pose proof (Hc (sr_nodes s) w). destruct (clear_statuses _ w) as [[l w1] e1]. intros [= <- <- <-]. by split_and!.
Qed.

Lemma complete_callbacks s w s' w' es : complete deref s w = (s', w', es) -> pending s' ++ called es ≡ₚ pending s.
Proof using Type.
  unfold complete, pending. destruct (complete_loop w _ s) as [[[s1 rest] completed] e1] eqn:E1.
  apply complete_loop_callbacks in E1 as [Ha Hp]. destruct (checkAnnounced _ _ _ _) as [[s3 w3] e3] eqn:E3.
  apply checkAnnounced_callbacks in E3 as [Hc Hq]. cbn [sr_callbacks sr_announce sr_set_nodes sr_set_callbacks] in Hc, Hq.
  intros H. assert (exists e4, called e4 = [] /\ es = e1 ++ e3 ++ e4 /\ sr_callbacks s' = sr_callbacks s3 /\ sr_announce s' = sr_announce s3) as (e4 & He4 & -> & -> & ->).
  { destruct (sr_setDone s3 w3) as [[s4 w4] e4] eqn:E4. apply setDone_quiet in E4 as (Hc4 & Ha4 & He4).
    destruct (sr_callbacks s3) eqn:?, (sr_announce s3) eqn:?, (sr_listeners s3); simplify_eq; first [by exists e4|exists []; by rewrite app_nil_r]. }
  rewrite !called_app, He4, app_nil_r, Hc, <- Hp, <- Ha, <- Hq. solve_Permutation.
Qed.

Lemma called_concat {A} (f : A -> list effect) (g : A -> option nat) l : (forall x, called (f x) = given (g x)) ->
  called (concat (map f l)) = omap g l.
Proof using Type.
  intros H. induction l as [|x l IH]; [done|]. cbn [map concat]. rewrite called_app, H, IH. cbn. by destruct (g x).
Qed.

(** An expired search has called everything it owed. *)
Lemma expire_callbacks s w s' w' es : sr_expire s w = Ret (s', w', es) -> pending s' = [] /\ called es ≡ₚ pending s.
Proof using Type.
  unfold sr_expire, pending. intros H. inv_bind H x E. destruct x as [w1 e1]. simplify_eq.
  apply destroy_nodes_called in E. rewrite !called_app, E. split.
  - assert (forall x : Search, sr_callbacks (sr_set_announce (map (fun a => mkAnnounce (an_permanent a) (an_value a) (an_created a) None) (List.filter an_permanent (sr_announce s))) (sr_set_callbacks [] x)) = []) as -> by done.
    assert (forall x : Search, sr_announce (sr_set_announce (map (fun a => mkAnnounce (an_permanent a) (an_value a) (an_created a) None) (List.filter an_permanent (sr_announce s))) x) =
      map (fun a => mkAnnounce (an_permanent a) (an_value a) (an_created a) None) (List.filter an_permanent (sr_announce s))) as -> by done.
    rewrite app_nil_r. by induction (List.filter _ _).
  - rewrite (called_concat _ (fun e => g_done_cb e.2)), (called_concat _ an_callback) by (intros; by rewrite called_done_if).
    cbn [app]. apply Permutation_app_comm.
Qed.

(** The callbacks of the puts [cancelPut] removes. *)
Definition cancelled (vid : Z) (s : Search) : list nat := put_cbs (List.filter (fun a => id_of deref (an_value a) =? vid) (sr_announce s)).

Lemma cancelPut_callbacks vid s w b s' w' : sr_cancelPut deref vid s w = (b, s', w') -> pending s' ++ cancelled vid s ≡ₚ pending s.
Proof using Type.
  unfold sr_cancelPut, pending, cancelled. destruct (drop_acks _ _ _) as [l w1]. intros [= <- <- <-].
  cbn [sr_callbacks sr_announce sr_set_nodes sr_set_announce].
  enough (forall l, put_cbs (List.filter (fun a => negb (id_of deref (an_value a) =? vid)) l) ++ put_cbs (List.filter (fun a => id_of deref (an_value a) =? vid) l) ≡ₚ put_cbs l) as H
    by (rewrite <- (H (sr_announce s)); solve_Permutation).
  clear. intros l. induction l as [|a l IH]; [done|]. cbn [List.filter]. rewrite (put_cbs_cons a l), <- IH.
  destruct (_ =? vid); cbn [negb]; rewrite put_cbs_cons; solve_Permutation.
Qed.

(** ** Sequences of operations on a search

    Every operation runs on the state of the nodes at its time. *)
Inductive op :=
  | OPut (w : World) (v : vptr) (cb : option nat) (created : Z) (permanent : bool)
  | OGet (answer : list vptr -> bool) (f : Filter) (q : qptr) (qcb gcb dcb : option nat) (now : Z)
  | OInsert (p : ptr) (now : Z) (token : bytes) (w : World)
  | OListen (answer : list vptr -> bool) (now : Z) (q : qptr) (l : LocalListener) (gcb scb : nat)
  | OCancelListen (token now : Z) (job : positive)
  | OOpExpiration (now : Z) (w : World)
  | OComplete (w : World)
  | OExpire (w : World)
  | OCancelPut (vid : Z) (w : World).

Definition run_op (o : op) (s : Search) : outcome (Search * list effect) :=
  match o with
  | OPut w v cb created permanent => Ret (sr_put deref w v cb created permanent s)
  | OGet answer f q qcb gcb dcb now => sr_get deref qderef answer f q qcb gcb dcb now s
  | OInsert p now token w => '(_, s', _, es) ← sr_insertNode p now token s w; Ret (s', es)
  | OListen answer now q l gcb scb => let '(_, s', es) := sr_listen deref qderef answer now q l gcb scb s in Ret (s', es)
  | OCancelListen token now job => Ret (sr_cancelListen token now job s)
  | OOpExpiration now w => '(s', _, es) ← opExpiration now s w; Ret (s', es)
  | OComplete w => let '(s', _, es) := complete deref s w in Ret (s', es)
  | OExpire w => '(s', _, es) ← sr_expire s w; Ret (s', es)
  | OCancelPut vid w => let '(_, s', _) := sr_cancelPut deref vid s w in Ret (s', [])
  end.

(** The done callback an operation is given, and those it drops. *)
Definition op_given (o : op) : list nat :=
  match o with OPut _ _ cb _ _ => given cb | OGet _ _ _ _ _ dcb _ => given dcb | _ => [] end.
Definition op_dropped (o : op) (s : Search) : list nat :=
  match o with
  | OGet _ _ _ None None dcb _ => given dcb
  | OCancelPut vid _ => cancelled vid s
  | _ => []
  end.

Fixpoint run_ops (ops : list op) (s : Search) : outcome (Search * list effect * list nat) :=
  match ops with
  | [] => Ret (s, [], [])
  | o :: ops' =>
      '(s1, e1) ← run_op o s;
      '(s2, e2, ds) ← run_ops ops' s1;
      Ret (s2, e1 ++ e2, op_dropped o s ++ ds)
  end.

Lemma quiet_pending s s' es : quiet s s' es -> pending s' ++ called es ≡ₚ pending s.
Proof using Type. intros (Hc & Ha & He). unfold pending. by rewrite Hc, Ha, He, app_nil_r. Qed.

Lemma run_op_callbacks o s s' es : run_op o s = Ret (s', es) ->
  pending s' ++ called es ++ op_dropped o s ≡ₚ pending s ++ op_given o.
Proof using Type.
  destruct o as [w v cb created permanent|answer f q qcb gcb dcb now|p now token w|answer now q l gcb scb|token now job|now w|w|w|vid w];
    cbn [run_op op_dropped op_given]; intros H; rewrite ?app_nil_r.
  - injection H as H. by apply (put_callbacks w v cb created permanent).
  - destruct gcb, qcb; [rewrite app_nil_r; eapply get_callbacks; [done|auto]..|].
    cbn in H. simplify_eq. done.
  - inv_bind H x E. destruct x as [[[b s1] w1] e1]. simplify_eq. by eapply quiet_pending, insertNode_quiet.
  - destruct (sr_listen _ _ _ _ _ _ _ _ s) as [[t s1] e1] eqn:E. simplify_eq. by eapply quiet_pending, listen_quiet.
  - injection H as H. by eapply quiet_pending, cancelListen_quiet.
  - inv_bind H x E. destruct x as [[s1 w1] e1]. simplify_eq. by eapply quiet_pending, opExpiration_quiet.
  - destruct (complete _ s w) as [[s1 w1] e1] eqn:E. simplify_eq. by eapply complete_callbacks.
  - inv_bind H x E. destruct x as [[s1 w1] e1]. simplify_eq. by apply expire_callbacks in E as [-> ->].
  - destruct (sr_cancelPut _ vid s w) as [[b s1] w1] eqn:E. simplify_eq. by eapply cancelPut_callbacks.
Qed.

Lemma run_ops_callbacks ops s s' es ds : run_ops ops s = Ret (s', es, ds) ->
  pending s' ++ called es ++ ds ≡ₚ pending s ++ concat (map op_given ops).
Proof using Type.
  revert s es ds. induction ops as [|o ops IH]; intros s es ds H; cbn in H.
  - simplify_eq. by rewrite !app_nil_r.
  - inv_bind H x E. destruct x as [s1 e1]. inv_bind H y E'. destruct y as [[s2 e2] d2]. simplify_eq.
    apply run_op_callbacks in E. apply IH in E'. cbn [map concat]. rewrite called_app.
    assert (pending s' ++ (called e1 ++ called e2) ++ op_dropped o s ++ d2 ≡ₚ (pending s' ++ called e2 ++ d2) ++ called e1 ++ op_dropped o s) as -> by solve_Permutation.
    rewrite E'. assert ((pending s1 ++ concat (map op_given ops)) ++ called e1 ++ op_dropped o s ≡ₚ (pending s1 ++ called e1 ++ op_dropped o s) ++ concat (map op_given ops)) as -> by solve_Permutation.
    rewrite E. by rewrite app_assoc.
Qed.

Lemma run_ops_snoc ops o s : run_ops (ops ++ [o]) s =
  '(s1, e1, d1) ← run_ops ops s; '(s2, e2) ← run_op o s1; Ret (s2, e1 ++ e2, d1 ++ op_dropped o s1).
Proof using Type.
  revert s. induction ops as [|o' ops IH]; intros s.
  - cbn. destruct (run_op o s) as [[s1 e1]| | |]; [|done..]. cbn. by rewrite !app_nil_r.
  - cbn. destruct (run_op o' s) as [[s1 e1]| | |]; [|done..]. cbn. rewrite IH.
    destruct (run_ops ops s1) as [[[s2 e2] d2]| | |]; [|done..]. cbn. destruct (run_op o s2) as [[s3 e3]| | |]; [|done..]. cbn.
    by rewrite !app_assoc.
Qed.

(** C9. Every done callback is accounted for: whatever operations are run on a new search,
    the callbacks given to its gets and puts are, each as often as it was given, those it
    called, those [cancelPut] (or a get that asks for nothing) dropped, and those still
    pending.  So a callback given once is called at most once; and a search that expires
    has none pending: all were called or dropped. *)
Theorem done_callbacks_once ops s es ds : run_ops ops Search_make = Ret (s, es, ds) ->
  concat (map op_given ops) ≡ₚ called es ++ ds ++ pending s /\
  (NoDup (concat (map op_given ops)) -> NoDup (called es)) /\
  (forall w ops', ops = ops' ++ [OExpire w] -> concat (map op_given ops) ≡ₚ called es ++ ds).
Proof using Type.
  intros H. pose proof (run_ops_callbacks _ _ _ _ _ H) as Hp. cbn in Hp. split_and!.
  - rewrite <- Hp. solve_Permutation.
  - rewrite <- Hp. intros Hnd. apply NoDup_app in Hnd as (_ & _ & Hnd). by apply NoDup_app in Hnd as (? & _ & _).
  - intros w ops' ->. rewrite run_ops_snoc in H. inv_bind H x E. destruct x as [[s1 e1] d1]. inv_bind H y E'. destruct y as [s2 e2].
    simplify_eq. cbn in E'. inv_bind E' z E2. destruct z as [[s3 w3] e3]. simplify_eq. apply expire_callbacks in E2 as [E2 _].
    rewrite E2 in Hp. by rewrite <- Hp.
Qed.
End Callbacks.

(** ** The table of searches *)

Section Table.
Context {G : Gnutls} (deref : vptr -> Value) (qderef : qptr -> Query).

Lemma searches_heap af d p s : searches af (put_search p s d) = searches af d.
Proof using Type. done. Qed.

Lemma searches_world af d w : searches af (dd_set_world w d) = searches af d.
Proof using Type. done. Qed.

Lemma searches_set af d l : searches af (set_searches af l d) = l.
Proof using Type. unfold searches, set_searches. by destruct (af =? AF_INET). Qed.

Lemma init_search_table id af af' job d s s' d' es : init_search id af job d s = Ret (s', d', es) -> searches af' d' = searches af' d.
Proof using Type. unfold init_search. intros H. inv_bind H x E. destruct x as [w evs]. by simplify_eq. Qed.

(** The rest of [search] once the slot is known. *)
Lemma search_result fuel id af answer f q gcb qcb dcb now fresh job d r d' es :
  search deref qderef fuel id af answer f q gcb qcb dcb now fresh job d = Some (Ret (r, d', es)) -> isRunning af d = true ->
  (exists p b d1, search_slot fuel id af fresh d = Some (Some (p, b), d1) /\ r = Some p /\ searches af d' = searches af d1) \/
  (exists d1, search_slot fuel id af fresh d = Some (None, d1) /\ r = None /\ d' = d1 /\ es = []).
Proof using Type.
  unfold search. intros H Hrun. rewrite Hrun in H. cbn [negb] in H. destruct (search_slot _ _ _ _ _) as [[[[p b]|] d1]|]; [|right; by exists d1; simplify_eq|done].
  left. exists p, b, d1. split; [done|]. injection H as H. inv_bind H s E. inv_bind H x E1. destruct x as [[s1 d2] e1].
  inv_bind H x E2. destruct x as [s2 e2]. inv_bind H x E3. destruct x as [[s3 w] e3]. simplify_eq. split; [done|].
  rewrite searches_world, searches_heap. destruct b; [by eapply init_search_table|by simplify_eq].
Qed.

Lemma search_returns fuel id af answer f q gcb qcb dcb now fresh job d :
  is_Some (search_slot fuel id af fresh d) -> is_Some (search deref qderef fuel id af answer f q gcb qcb dcb now fresh job d).
Proof using Type. unfold search. intros [[[[p b]|] d1] ->]; destruct (negb _); eauto. Qed.

Lemma reuse_loop_busy fuel heap id0 p rest s : heap !! p = Some s -> reusable s = false -> reuse_loop fuel heap ((id0, p) :: rest) = None.
Proof using Type. intros Hp Hr. induction fuel as [|fuel IH]; cbn [reuse_loop]; rewrite Hp, Hr; [done|]. exact IH. Qed.

(** The search [search] hands out: on a key that has a search, or while the table has
    room, it is the one filed under the key. On a full table, an unknown key is given
    the first search of the table when that one is over, without being filed under it,
    so that the next operation on the key does not find it; and while the first search
    is busy [search] does not return, whatever the other searches are: for no fuel
    does its loop end. *)
Theorem search_table id af answer f q gcb qcb dcb now fresh job d :
  isRunning af d = true -> wf_hash HASH_LEN id -> om_wf op_lt (wf_hash HASH_LEN) (searches af d) ->
  (is_Some (om_find op_lt id (searches af d)) \/ Z.of_nat (length (searches af d)) < dd_max_searches d ->
   forall fuel, is_Some (search deref qderef fuel id af answer f q gcb qcb dcb now fresh job d) /\
   forall r d' es, search deref qderef fuel id af answer f q gcb qcb dcb now fresh job d = Some (Ret (r, d', es)) ->
     exists p, r = Some p /\ om_find op_lt id (searches af d') = Some p) /\
  (om_find op_lt id (searches af d) = None -> dd_max_searches d <= Z.of_nat (length (searches af d)) ->
   forall id0 p rest s0, searches af d = (id0, p) :: rest -> dd_heap d !! p = Some s0 ->
     (reusable s0 = true -> forall fuel, is_Some (search deref qderef fuel id af answer f q gcb qcb dcb now fresh job d) /\
        forall r d' es, search deref qderef fuel id af answer f q gcb qcb dcb now fresh job d = Some (Ret (r, d', es)) ->
        r = Some p /\ searches af d' = searches af d) /\
     (reusable s0 = false -> forall fuel, search deref qderef fuel id af answer f q gcb qcb dcb now fresh job d = None)).
Proof using Type.
  intros Hrun Hid Hwf. split.
  - intros Hroom fuel.
    assert (exists p b d1, search_slot fuel id af fresh d = Some (Some (p, b), d1) /\ om_find op_lt id (searches af d1) = Some p) as (p & b & d1 & Hs & Hf).
    { unfold search_slot. destruct (om_find op_lt id (searches af d)) as [p|] eqn:Ef; [by exists p, false, d|].
      destruct Hroom as [[? [=]]|Hroom]. rewrite (proj2 (Z.ltb_lt _ _) Hroom). eexists _, _, _. split; [done|].
      rewrite searches_set. unfold om_emplace. rewrite Ef. by apply (om_find_set_eq op_lt (wf_hash HASH_LEN)). }
    split; [apply search_returns; by rewrite Hs|]. intros r d' es H.
    apply search_result in H as [(p' & b' & d1' & Hs' & -> & Hd)|(d1' & Hs' & _)]; [..|done]; rewrite Hs in Hs'; simplify_eq.
    exists p'. by rewrite Hd.
  - intros Hnew Hfull id0 p rest s0 Hsr Hp.
    assert (forall fuel, search_slot fuel id af fresh d =
      match reuse_loop fuel (dd_heap d) (searches af d) with None => None | Some None => Some (None, d) | Some (Some p) => Some (Some (p, true), d) end) as Hslot.
    { intros fuel. unfold search_slot. rewrite Hnew. by rewrite (proj2 (Z.ltb_ge _ _) Hfull). }
    split; intros Hb fuel; specialize (Hslot fuel); rewrite Hsr in Hslot.
    + assert (reuse_loop fuel (dd_heap d) ((id0, p) :: rest) = Some (Some p)) as Hl by (destruct fuel; cbn [reuse_loop]; by rewrite Hp, Hb).
      rewrite Hl in Hslot. split; [apply search_returns; by rewrite Hslot|]. intros r d' es H.
      apply search_result in H as [(p' & b & d1 & Hs & -> & Hd)|(d1 & Hs & _)]; [..|done]; rewrite Hslot in Hs; by simplify_eq.
    + rewrite (reuse_loop_busy _ _ _ _ _ s0 Hp Hb) in Hslot. unfold search. by rewrite Hrun, Hslot.
Qed.
End Table.

Module TableDemo.
#[local] Existing Instance GnutlsDemo.demo.
Import SearchDemo.

Definition queries (q : qptr) : Query := mkQuery [] [] false.
Definition listener : LocalListener := mkLocal None None 0.
Definition no_world : World := mkWorld ∅ ∅ [].

(** A put and a get that both end when the search expires, and a put that is cancelled. *)
Definition ops : list op :=
  [OPut no_world 1%positive (Some 1%nat) 0 false;
   OGet (fun _ => true) None 1%positive None (Some 9%nat) (Some 2%nat) 0;
   OPut no_world 2%positive (Some 3%nat) 0 true;
   OCancelPut (v_id (StorageDemo.heap 2%positive)) no_world;
   OExpire no_world].

(** A network with one search, which is busy listening, and a full table. *)
Definition busy : Search := sr_set_listeners [(1, mkSL 1%positive 0%nat 0%nat)] (sr_set_id (hash_at 0) (sr_set_af 2 Search_make)).
Definition full : DhtSearch :=
  mkDht {[1%positive := busy]} [(hash_at 0, 1%positive)] [] 1 1 true false NodeCache_make no_world [] 16 [] 0.

(** IPv6 is not running: [listen] reports that it failed, and forgets the token under
    which the IPv4 search goes on listening. *)
Definition fresh_dht : DhtSearch := mkDht ∅ [] [] 1 16 true false NodeCache_make no_world [] 16 [] 0.
Definition listened : option (outcome (Z * DhtSearch * list effect)) :=
  listen 10 StorageDemo.heap queries 0 (hash_at 5) (fun _ => true) 1%positive listener 0%nat 0%nat 0 1%positive 2%positive 1%positive 2%positive fresh_dht.

Definition listeners_of (p : sptr) (d : DhtSearch) : list Z :=
  match dd_heap d !! p with Some s => map fst (sr_listeners s) | None => [] end.

Lemma listen_one_network :
  match listened with
  | Some (Ret (token, d, _)) =>
      token = 0 /\ dd_listeners d = [] /\ om_find op_lt (hash_at 5) (dd_srs4 d) = Some 1%positive /\ listeners_of 1%positive d = [2]
  | _ => False
  end.
Proof. vm_compute. by split_and!. Qed.
End TableDemo.

Lemma done_callbacks_once_witness : exists s es, run_ops (G := GnutlsDemo.demo) StorageDemo.heap TableDemo.queries TableDemo.ops Search_make = Ret (s, es, [3%nat]) /\
  [1; 2; 3]%nat ≡ₚ called es ++ [3%nat].
Proof.
  destruct (run_ops (G := GnutlsDemo.demo) StorageDemo.heap TableDemo.queries TableDemo.ops Search_make) as [[[s es] ds]| | |] eqn:E;
    [|vm_compute in E; discriminate..].
  assert (ds = [3%nat]) as -> by (vm_compute in E; by injection E as <- <- <-). exists s, es. split; [done|].
  exact (proj2 (proj2 (done_callbacks_once (G := GnutlsDemo.demo) StorageDemo.heap TableDemo.queries _ _ _ _ E)) TableDemo.no_world (take 4 TableDemo.ops) eq_refl).
Defined.

Lemma search_table_witness :
  search (G := GnutlsDemo.demo) StorageDemo.heap TableDemo.queries 100 (SearchDemo.hash_at 5) 2 (fun _ => true) None 1%positive None None None 0 2%positive 2%positive TableDemo.full = None.
Proof.
  refine (proj2 (proj2 (search_table (G := GnutlsDemo.demo) StorageDemo.heap TableDemo.queries _ _ _ _ _ _ _ _ _ _ _ _ _ _ _) _ _ _ _ _ _ _ _) _ 100%nat).
  - reflexivity.
  - by_compute.
  - split; [repeat constructor|]. repeat constructor; cbn; by_compute.
  - vm_compute. reflexivity.
  - by_compute.
  - reflexivity.
  - reflexivity.
  - vm_compute. reflexivity.
Defined.
