(* ===== verification/SearchStep.v ===== *)
(** * SearchStep: the requests of a search

    Models the part of src/opendht-2.1.4/src/dht.cpp that drives a search by requests to
    its nodes: [searchNodeGetDone], [searchNodeGetExpired], [paginate],
    [searchSendGetValues], [searchSendAnnounceValue], [searchSynchedNodeListen],
    [searchStep], [onGetValuesDone], [onListenDone], [onAnnounceDone] and the part of
    [onError] that concerns a search.  The network engine is behind an interface,
    [NetSend], whose laws say what sending a request does to the shared nodes and requests;
    a request that cannot be sent expires at once, with all others of its node, and their
    callbacks run before the call returns. *)
From S2P Require Import Prelude StdMap InfoHash SockAddr Node NodeCache Value Query Storage DhtStorage ValueCache OpCache.
From S2P Require Import SearchNode Search DhtSearch.

(** What a request asks for. *)
Inductive asked :=
| AFindNode (id : Hash)
| AGetValues (id : Hash) (q : qptr)
| AListen (id : Hash) (q : qptr) (token : bytes) (socket : Tid)
| AAnnounce (id : Hash) (v : vptr) (created : Z) (token : bytes)
| ARefresh (id : Hash) (vid : Z) (token : bytes).

(** ** The interface of the network engine *)

(** [net_send x p r w]: send a new request [r] to the node [p].  [net_ready k w]: the
    engine can number [k] more requests. *)
Class NetSend := {
  net_send : asked -> ptr -> ptr -> World -> outcome World;
  net_ready : nat -> World -> Prop;
}.

(** The request is on its way: nothing else changed. *)
Record sent (p r : ptr) (w w' : World) : Prop := {
  sent_pending : exists q, w_reqs w' !! r = Some q /\ rq_node q = p /\ rq_pending q = true;
  sent_reqs r' : r' <> r -> w_reqs w' !! r' = w_reqs w !! r';
  sent_nodes p' : node_expired w' p' = node_expired w p';
}.

(** The node cannot be reached: it expired with its requests. *)
Record unreached (p r : ptr) (w w' : World) : Prop := {
  un_req : exists q, w_reqs w' !! r = Some q /\ rq_node q = p /\ rq_pending q = false;
  un_reqs r' : r' <> r -> (forall q, w_reqs w !! r' = Some q -> rq_node q <> p) -> w_reqs w' !! r' = w_reqs w !! r';
  un_node r' : rq_node <$> w_reqs w' !! r' = (if bool_decide (r' = r) then Some p else rq_node <$> w_reqs w !! r');
  un_expired : node_expired w' p = true;
  un_nodes p' : p' <> p -> node_expired w' p' = node_expired w p';
}.

Class NetSendLaws (N : NetSend) : Prop := {
  net_send_law x p r k w : net_ready (S k) w -> is_Some (w_nodes w !! p) -> w_reqs w !! r = None ->
    exists w', net_send x p r w = Ret w' /\ net_ready k w' /\ (forall p', is_Some (w_nodes w !! p') -> is_Some (w_nodes w' !! p')) /\
      (sent p r w w' \/ unreached p r w w');
  net_close_law k w p n s : net_ready k w -> w_nodes w !! p = Some n -> net_ready k (w_upd_node p (closeSocket s n) w);
}.

(** ** The state of a step *)

(** Effects besides those of a search: jobs that step the search, expire a cache, and
    calls to the engine. *)
Inductive out :=
| Eff (e : effect)
| AddStep (t : Z)
| AddCacheExpiration (q : qptr) (p : ptr) (job : positive)
| QueryCb (cb : nat) (fields : list FieldValueIndex)
| Blacklist (p : ptr)
| ConnectivityChanged (af : Z).

Section SearchStep.
Context {G : Gnutls}.

(** [x_req], [x_qry] and [x_job] are the next new request, query and job. *)
Record Stepper := mkStepper {
  x_search : Search;
  x_world : World;
  x_req : ptr;
  x_qry : qptr;
  x_job : positive;
  x_queries : gmap positive Query;
  x_out : list out;
}.

Context {N : NetSend} {PA : Partition} (deref : vptr -> Value) (types : list (Z * Z)).
(** C++14 leaves open which side of an assignment is evaluated first. *)
Context (left_first : bool).
(** [scheduler.time()], [getListenExpiration()], [public_stable]. *)
Context (now listen_expire : Z) (public_stable : bool) (cache : NodeCache).

Ltac x_with m f v :=
  let t := with_member mkStepper m f v (x_search, (x_world, (x_req, (x_qry, (x_job, (x_queries, (x_out, tt))))))) in exact t.

Definition x_set_search (s : Search) (x : Stepper) : Stepper := ltac:(x_with x x_search s).
Definition x_set_world (w : World) (x : Stepper) : Stepper := ltac:(x_with x x_world w).
Definition x_set_req (r : ptr) (x : Stepper) : Stepper := ltac:(x_with x x_req r).
Definition x_set_queries (q : qptr) (m : gmap positive Query) (x : Stepper) : Stepper :=
  mkStepper (x_search x) (x_world x) (x_req x) q (x_job x) m (x_out x).
Definition x_set_job (j : positive) (x : Stepper) : Stepper := ltac:(x_with x x_job j).
Definition x_emit (o : list out) (x : Stepper) : Stepper :=
  mkStepper (x_search x) (x_world x) (x_req x) (x_qry x) (x_job x) (x_queries x) (x_out x ++ o).

(** [ANY_QUERY] and [PROBE_QUERY], static in their functions. *)
Definition ANY_QUERY : qptr := 1%positive.
Definition PROBE_QUERY : qptr := 2%positive.
Definition qd (x : Stepper) (q : qptr) : Query :=
  if bool_decide (q = ANY_QUERY) then mkQuery [] [] true
  else if bool_decide (q = PROBE_QUERY) then mkQuery (select_field F_SeqNum (select_field F_Id [])) [] false
  else default (mkQuery [] [] false) (x_queries x !! q).

(** [std::make_shared<Query>]. *)
Definition new_query (q : Query) (x : Stepper) : qptr * Stepper :=
  (x_qry x, x_set_queries (Pos.succ (x_qry x)) (<[x_qry x := q]> (x_queries x)) x).

(** Change a node of the search. *)
Definition on_node_at (i : nat) (f : SearchNode -> SearchNode) (x : Stepper) : Stepper :=
  x_set_search (sr_set_nodes (alter f i (sr_nodes (x_search x))) (x_search x)) x.

Definition step_now (x : Stepper) : Stepper := x_emit [Eff (EditJob (sr_nextSearchStep (x_search x)) now)] x.

(** ** Callbacks of expired requests *)

(** [searchNodeGetExpired(req, over, ws, query)], for the node of the search at [i]. *)
Definition get_expired (over : bool) (q : qptr) (n : SearchNode) : SearchNode :=
  let n1 := sn_set_candidate (negb over) n in
  if over then sn_set_getStatus (om_erase Pos.ltb q (sn_getStatus n1)) n1 else n1.

Definition searchNodeGetExpired (p : ptr) (over : bool) (q : qptr) (x : Stepper) : Stepper :=
  step_now (match getNode p (x_search x) with Some i => on_node_at i (get_expired over q) x | None => x end).

(** The gets and listens of a node that were pending before and expired since: their
    callbacks run with [over] set. *)
Definition gone (w w' : World) (r : option ptr) : bool := opt_pending w r && negb (opt_pending w' r).

Definition expired_gets (w w' : World) (n : SearchNode) : list qptr :=
  map fst (List.filter (fun e => gone w w' e.2) (sn_getStatus n)).
Definition expired_listens (w w' : World) (n : SearchNode) : list qptr :=
  map fst (List.filter (fun e => gone w w' (cl_req e.2)) (sn_listenStatus n)).

(** [sn->listenStatus.erase(query)]. *)
Definition erase_listen (i : nat) (q : qptr) (x : Stepper) : Stepper :=
  match sr_nodes (x_search x) !! i with
  | None => x
  | Some n =>
      match om_find Pos.ltb q (sn_listenStatus n) with
      | None => x
      | Some c =>
          let '(w, evs) := CachedListenStatus_destroy c (x_world x) in
          x_emit (map (fun e => Eff (CacheEv e)) evs)
            (on_node_at i (fun n => sn_set_listenStatus (om_erase Pos.ltb q (sn_listenStatus n)) n) (x_set_world w x))
      end
  end.

Definition run_expired (i : nat) (w w' : World) (x : Stepper) : Stepper :=
  match sr_nodes (x_search x) !! i with
  | None => x
  | Some n =>
      let x1 := fold_left (fun x q => searchNodeGetExpired (sn_node n) true q x) (expired_gets w w' n) x in
      fold_left (fun x q => erase_listen i q (step_now x)) (expired_listens w w' n) x1
  end.

(** ** Sending *)

(** Send a request to the node at [i]; the callback of the request itself is run by the
    caller ([mine]). *)
Definition send_to (a : asked) (i : nat) (mine : Stepper -> Stepper) (x : Stepper) : outcome (ptr * Stepper) :=
  match sr_nodes (x_search x) !! i with
  | None => Undef "dangling search node"
  | Some n =>
      let r := x_req x in
      w' ← net_send a (sn_node n) r (x_world x);
      let x1 := x_set_req (Pos.succ r) (x_set_world w' x) in
      Ret (r, if req_is_pending w' r then x1 else mine (run_expired i (x_world x) w' x1))
  end.

(** [n->getStatus[q] = network_engine.send...(..., searchNodeGetExpired for q)]. *)
Definition send_get (a : asked) (i : nat) (q : qptr) (x : Stepper) : outcome Stepper :=
  match sr_nodes (x_search x) !! i with
  | None => Undef "dangling search node"
  | Some n =>
      '(r, x1) ← send_to a i (searchNodeGetExpired (sn_node n) true q) x;
      if left_first && negb (req_is_pending (x_world x1) r) then Undef "assignment to an erased element"
      else Ret (on_node_at i (set_status q (Some r)) x1)
  end.

(** [paginate]: ask for the ids first. *)
Definition push_query (q q' : qptr) (n : SearchNode) : SearchNode :=
  let qs := match om_find Pos.ltb q (sn_pagination_queries n) with Some l => l | None => [] end in
  sn_set_pagination (om_set Pos.ltb q (qs ++ [q']) (sn_pagination_queries n)) n.

Definition paginate (i : nat) (q : qptr) (x : Stepper) : outcome Stepper :=
  let '(select_q, x1) := new_query (mkQuery (select_field F_Id []) (q_where (qd x q)) false) x in
  send_get (AGetValues (sr_id (x_search x)) select_q) i select_q (on_node_at i (push_query q select_q) x1).

(** [searchSendGetValues]: the node chosen for a query, then the first query that has
    one. *)
Definition up_time (update : bool) (q : qptr) (x : Stepper) : Z :=
  match sr_callbacks (x_search x) with
  | [] => time_min
  | _ => if update then getLastGetTime_query (qd x) (qd x q) (x_search x) else time_min
  end.

Fixpoint first_can_get (x : Stepper) (up : Z) (q : qptr) (l : list SearchNode) (i : nat) : option nat :=
  match l with
  | [] => None
  | n :: l' => if canGet (qd x) (x_world x) now up q n then Some i else first_can_get x up q l' (S i)
  end.

Definition choose_node (pn : option nat) (update : bool) (q : qptr) (x : Stepper) : option nat :=
  let up := up_time update q x in
  match pn with
  | Some i =>
      if match sr_nodes (x_search x) !! i with Some n => canGet (qd x) (x_world x) now up q n | None => false end then Some i
      else first_can_get x up q (sr_nodes (x_search x)) 0
  | None => first_can_get x up q (sr_nodes (x_search x)) 0
  end.

Fixpoint send_first (pn : option nat) (update : bool) (qs : list qptr) (x : Stepper) : outcome (option nat * Stepper) :=
  match qs with
  | [] => Ret (None, x)
  | q :: qs' =>
      match choose_node pn update q x with
      | None => send_first pn update qs' x
      | Some i =>
          x' ← (match q_select (qd x q) with
                | [] => paginate i q x
                | _ => send_get (AGetValues (sr_id (x_search x)) q) i q x
                end);
          Ret (Some i, x')
      end
  end.

Definition searchSendGetValues (pn : option nat) (update : bool) (x : Stepper) : outcome (option nat * Stepper) :=
  if sr_done (x_search x) || (MAX_REQUESTED_SEARCH_NODES <=? currentlySolicitedNodeCount (x_world x) (x_search x))
  then Ret (None, x)
  else
    match sr_callbacks (x_search x) with
    | [] =>
        match choose_node pn update ANY_QUERY x with
        | None => Ret (None, x)
        | Some i => x' ← send_get (AFindNode (sr_id (x_search x))) i ANY_QUERY x; Ret (Some i, x')
        end
    | cbs => send_first pn update (map (fun e => g_query e.2) cbs) x
    end.

(** [while (currentlySolicitedNodeCount() < MAX_REQUESTED_SEARCH_NODES and
    searchSendGetValues(sr))]. *)
Fixpoint send_loop (fuel : nat) (x : Stepper) : option (outcome Stepper) :=
  if currentlySolicitedNodeCount (x_world x) (x_search x) <? MAX_REQUESTED_SEARCH_NODES then
    match fuel with
    | O => None
    | S fuel' =>
        match searchSendGetValues None true x with
        | Ret (None, x') => Some (Ret x')
        | Ret (Some _, x') => send_loop fuel' x'
        | Throw e => Some (Throw e) | Undef e => Some (Undef e) | Terminate e => Some (Terminate e)
        end
    end
  else Some (Ret x).

(** ** Answers to gets *)

(** A reply: its token, values, fields and expired values. *)
Record reply := mkReply { rp_token : bytes; rp_values : list vptr; rp_fields : list FieldValueIndex; rp_vid : Z }.

(** [std::make_shared<net::Request>] of a request that is over.  It has no node; as no
    operation reads the node of a request that no node knows, the node at hand stands for
    the null pointer. *)
Definition new_request (p : ptr) (st : ReqState) (reply_time : Z) (x : Stepper) : ptr * Stepper :=
  let q := mkRequest p reply_time 0 MT_Error st 0 0 time_min time_min None None None [] [] in
  (x_req x, x_set_req (Pos.succ (x_req x)) (x_set_world (w_upd_req (x_req x) q [] (x_world x)) x)).

(** [sr->insertNode(node, now, token)]. *)
Definition insert_node (p : ptr) (token : bytes) (x : Stepper) : outcome Stepper :=
  '(_, s, w, es) ← sr_insertNode p now token (x_search x) (x_world x);
  Ret (x_emit (map Eff es) (x_set_world w (x_set_search s x))).

(** What [onGetValuesDone] tells a get operation. *)
Definition tell_get (a : reply) (orig : qptr) (x : Stepper) (g : Get) : list out :=
  let unset cb := match cb : option nat with None => true | Some _ => false end in
  if (unset (g_get_cb g) && unset (g_query_cb g)) || negb (isSatisfiedBy (qd x (g_query g)) (qd x orig)) then []
  else match g_query_cb g, g_get_cb g with
       | Some cb, _ =>
           match rp_fields a, rp_values a with
           | _ :: _, _ => [QueryCb cb (rp_fields a)]
           | [], _ :: _ => [QueryCb cb (map (fun v => FieldValueIndex_make (deref v) (q_select (qd x orig))) (rp_values a))]
           | [], [] => []
           end
       | None, Some cb =>
           match List.filter (fun v => passes (g_filter g) (deref v)) (rp_values a) with
           | [] => []
           | tmp => [Eff (GetCb cb tmp)]
           end
       | None, None => []
       end.

Definition onGetValuesDone (p : ptr) (a : reply) (orig : qptr) (x : Stepper) : outcome Stepper :=
  let x1 := match rp_token a with
            | [] => x_emit [Blacklist p] x
            | _ => match rp_values a, rp_fields a with
                   | [], [] => x
                   | _, _ => x_emit (concat (map (fun e => tell_get a orig x e.2) (sr_callbacks (x_search x)))) x
                   end
            end in
  if sr_done (x_search x1) then Ret x1
  else ('(_, x2) ← searchSendGetValues None true x1; Ret (step_now x2)).

(** [searchNodeGetDone]: gets that the answer satisfies are not sent to the node. *)
Definition skip_satisfied (p : ptr) (i : nat) (query : qptr) (x : Stepper) : Stepper :=
  fold_left (fun x e =>
    let q := g_query e.2 in
    if isSatisfiedBy (qd x q) (qd x query) && negb (bool_decide (q = query))
    then let '(r, x1) := new_request p CANCELLED time_min x in on_node_at i (set_status q (Some r)) x1
    else x) (sr_callbacks (x_search x)) x.

Definition set_sync_job (i : nat) (x : Stepper) : Stepper :=
  match sr_nodes (x_search x) !! i with
  | None => x
  | Some n =>
      let t := sn_getSyncTime (x_world x) now n in
      match sn_syncJob n with
      | Some j => x_emit [Eff (EditJob (Some j) t)] x
      | None => x_emit [AddStep t] (on_node_at i (sn_set_syncJob (Some (x_job x))) (x_set_job (Pos.succ (x_job x)) x))
      end
  end.

Definition searchNodeGetDone (p : ptr) (a : reply) (query : qptr) (x : Stepper) : outcome Stepper :=
  x1 ← insert_node p (rp_token a) x;
  let x2 := match getNode p (x_search x1) with Some i => set_sync_job i (skip_satisfied p i query x1) | None => x1 end in
  onGetValuesDone p a query x2.

(** The answer to the query of [paginate]: one query for each id. *)
Fixpoint ask_ids (fields : list FieldValueIndex) (query : qptr) (i : nat) (x : Stepper) : outcome Stepper :=
  match fields with
  | [] => Ret x
  | fvi :: fields' =>
      x' ← match om_find field_lt F_Id fvi with
           | None => Ret x
           | Some fv =>
               if fv_int fv =? 0 then Ret x
               else
                 let '(q', x1) := new_query (mkQuery [] [FieldValue_int F_Id (fv_int fv)] false) x in
                 send_get (AGetValues (sr_id (x_search x)) q') i q' (on_node_at i (push_query query q') x1)
           end;
      ask_ids fields' query i x'
  end.

Definition onPaginateDone (p : ptr) (a : reply) (query : qptr) (x : Stepper) : outcome Stepper :=
  match getNode p (x_search x) with
  | None => Ret x
  | Some i => match rp_fields a with
              | [] => searchNodeGetDone p a query x
              | fields => ask_ids fields query i x
              end
  end.

(** ** Announces *)

Definition expiration_of (v : vptr) : Z := getType types (v_type (deref v)).
Definition set_acked (vid : Z) (r : ptr) (t : Z) (n : SearchNode) : SearchNode :=
  sn_set_acked (om_set Z.ltb vid (Some r, t) (sn_acked n)) n.

(** [n.acked[vid] = {send..., t}]; an expired request steps the search. *)
Definition send_ack (a : asked) (i : nat) (vid t : Z) (x : Stepper) : outcome Stepper :=
  '(r, x1) ← send_to a i step_now x; Ret (on_node_at i (set_acked vid r t) x1).

(** The loop of [searchSendAnnounceValue] over the values, for one node: whether to
    probe it. *)
Fixpoint announce_values (l : list Announce) (i : nat) (probe : bool) (x : Stepper) : outcome (bool * Stepper) :=
  match l with
  | [] => Ret (probe, x)
  | a :: l' =>
      match sr_nodes (x_search x) !! i with
      | None => Undef "dangling search node"
      | Some n =>
          let vid := id_of deref (an_value a) in
          if getAnnounceTime (x_world x) vid n <=? now then
            if an_permanent a then announce_values l' i true x
            else (x' ← send_ack (AAnnounce (sr_id (x_search x)) (an_value a) (an_created a) (sn_token n)) i vid (now + expiration_of (an_value a)) x;
                  announce_values l' i probe x')
          else announce_values l' i probe x
      end
  end.

Definition probe_node (i : nat) (x : Stepper) : outcome Stepper :=
  match sr_nodes (x_search x) !! i with
  | None => Undef "dangling search node"
  | Some n =>
      let x0 := on_node_at i (sn_set_probe_query (Some PROBE_QUERY)) x in
      '(r, x1) ← send_to (AGetValues (sr_id (x_search x)) PROBE_QUERY) i (searchNodeGetExpired (sn_node n) true PROBE_QUERY) x0;
      Ret (on_node_at i (set_status PROBE_QUERY (Some r)) x1)
  end.

(** The loop over the nodes: [left_] more nodes that are not candidates. *)
Fixpoint announce_nodes (k i left_ : nat) (x : Stepper) : outcome Stepper :=
  match k with
  | O => Ret x
  | S k' =>
      match sr_nodes (x_search x) !! i with
      | None => Ret x
      | Some n =>
          let probing := match sn_probe_query n with
                         | Some q => match om_find Pos.ltb q (sn_getStatus n) with Some r => opt_pending (x_world x) r | None => false end
                         | None => false
                         end in
          if negb (sn_isSynced (x_world x) now n) || probing then announce_nodes k' (S i) left_ x
          else
            '(probe, x1) ← announce_values (sr_announce (x_search x)) i false x;
            x2 ← (if probe : bool then probe_node i x1 else Ret x1);
            let candidate := match sr_nodes (x_search x2) !! i with Some n' => sn_candidate n' | None => true end in
            if candidate then announce_nodes k' (S i) left_ x2
            else match left_ with
                 | S (S l) => announce_nodes k' (S i) (S l) x2
                 | _ => Ret x2
                 end
      end
  end.

Definition searchSendAnnounceValue (x : Stepper) : outcome Stepper :=
  match sr_announce (x_search x) with
  | [] => Ret x
  | _ => announce_nodes (length (sr_nodes (x_search x))) 0 TARGET_NODES x
  end.

(** The answer to a probe: whether the node has the value, and its sequence number.  A
    field that is missing throws: nothing is found when it is an id. *)
Fixpoint probe_answer (vid : Z) (fields : list FieldValueIndex) : bool * Z :=
  match fields with
  | [] => (false, 0)
  | fvi :: fields' =>
      match om_find field_lt F_Id fvi with
      | None => (false, 0)
      | Some fv =>
          if fv_int fv =? vid then (true, match om_find field_lt F_SeqNum fvi with Some sv => wrap 16 (fv_int sv) | None => 0 end)
          else probe_answer vid fields'
      end
  end.

Fixpoint announce_probed (l : list Announce) (fields : list FieldValueIndex) (i : nat) (x : Stepper) : outcome Stepper :=
  match l with
  | [] => Ret x
  | a :: l' =>
      match sr_nodes (x_search x) !! i with
      | None => Undef "dangling search node"
      | Some n =>
          let vid := id_of deref (an_value a) in
          if now <? getAnnounceTime (x_world x) vid n then announce_probed l' fields i x
          else
            let '(hasValue, seq_no) := probe_answer vid fields in
            let next := now + expiration_of (an_value a) in
            x1 ← (if negb hasValue || (seq_no <? v_seq (deref (an_value a))) then
                    send_ack (AAnnounce (sr_id (x_search x)) (an_value a) (if an_permanent a then time_max else an_created a) (sn_token n)) i vid next x
                  else if an_permanent a then send_ack (ARefresh (sr_id (x_search x)) vid (sn_token n)) i vid next x
                  else let '(r, x0) := new_request (sn_node n) COMPLETED now x in Ret (step_now (on_node_at i (set_acked vid r next) x0)));
            announce_probed l' fields i (if an_permanent a then x_emit [AddStep (next - REANNOUNCE_MARGIN)] x1 else x1)
      end
  end.

Definition onProbeDone (p : ptr) (a : reply) (x : Stepper) : outcome Stepper :=
  x1 ← insert_node p (rp_token a) x;
  match getNode p (x_search x1) with
  | None => Ret x1
  | Some i =>
      match sr_nodes (x_search x1) !! i with
      | None => Undef "dangling search node"
      | Some n => if negb (sn_isSynced (x_world x1) now n) then Ret (step_now x1)
                  else announce_probed (sr_announce (x_search x1)) (rp_fields a) i x1
      end
  end.

(** The error of a refresh: the value is announced again when the node lost it. *)
Definition onRefreshNotFound (p : ptr) (v : vptr) (created next : Z) (x : Stepper) : outcome (bool * Stepper) :=
  match getNode p (x_search x) with
  | None => Ret (false, x)
  | Some i =>
      match sr_nodes (x_search x) !! i with
      | None => Undef "dangling search node"
      | Some n =>
          x1 ← send_ack (AAnnounce (sr_id (x_search x)) v created (sn_token n)) i (id_of deref v) next x;
          Ret (true, step_now x1)
      end
  end.

Definition onAnnounceDone (a : reply) (x : Stepper) : outcome Stepper :=
  '(_, x1) ← searchSendGetValues None true x;
  let '(s, w, es) := checkAnnounced deref (rp_vid a) (x_search x1) (x_world x1) in
  Ret (x_emit (map Eff es) (x_set_world w (x_set_search s x1))).

(** ** Listens *)

Context (consumed : bool).

(** A new status: a socket, a cache and its expiration job. *)
Definition open_status (i : nat) (n : SearchNode) (l : SearchListener) (x : Stepper) : outcome Stepper :=
  match w_nodes (x_world x) !! sn_node n with
  | None => Undef "dangling node"
  | Some nd =>
      let '(sid, nd') := openSocket consumed (sl_get_cb l) nd in
      let '(vc, evs) := ValueCache_make true true in
      let job := x_job x in
      let x1 := on_node_at i (fun n => sn_set_listenStatus (om_set Pos.ltb (sl_query l) (mkCLS vc (Some job) None sid) (sn_listenStatus n)) n)
                  (x_set_job (Pos.succ job) (x_set_world (w_upd_node (sn_node n) nd' (x_world x)) x)) in
      Ret (x_emit (map (fun e => Eff (CacheEv e)) evs ++ [AddCacheExpiration (sl_query l) (sn_node n) job]) x1)
  end.

Definition listen_one (i : nat) (l : SearchListener) (x : Stepper) : outcome Stepper :=
  let q := sl_query l in
  match sr_nodes (x_search x) !! i with
  | None => Undef "dangling search node"
  | Some n =>
      if now <? getListenTime (x_world x) q listen_expire n then Ret x
      else
        x1 ← match om_find Pos.ltb q (sn_listenStatus n) with Some _ => Ret x | None => open_status i n l x end;
        let sid := match sr_nodes (x_search x1) !! i with
                   | Some n1 => match om_find Pos.ltb q (sn_listenStatus n1) with Some c => cl_socketId c | None => 0 end
                   | None => 0
                   end in
        '(r, x2) ← send_to (AListen (sr_id (x_search x)) q (sn_token n) sid) i (fun x => erase_listen i q (step_now x)) x1;
        Ret (on_node_at i (fun n => match om_find Pos.ltb q (sn_listenStatus n) with
                                    | Some c => sn_set_listenStatus (om_set Pos.ltb q (mkCLS (cl_cache c) (cl_cacheExpirationJob c) (Some r) (cl_socketId c)) (sn_listenStatus n)) n
                                    | None => n
                                    end) x2)
  end.

Fixpoint searchSynchedNodeListen (ls : list (Z * SearchListener)) (i : nat) (x : Stepper) : outcome Stepper :=
  match ls with
  | [] => Ret x
  | (_, l) :: ls' => x' ← listen_one i l x; searchSynchedNodeListen ls' i x'
  end.

(** What a socket receives, and the confirmation of a listen. *)
Definition onListenDone (x : Stepper) : outcome Stepper :=
  if sr_done (x_search x) then Ret x else ('(_, x1) ← searchSendGetValues None true x; Ret (step_now x1)).

Definition onListenConfirmed (p : ptr) (q : qptr) (x : Stepper) : outcome Stepper :=
  let x0 := step_now x in
  match getNode p (x_search x0) with
  | None => onListenDone x0
  | Some i =>
      match sr_nodes (x_search x0) !! i with
      | None => Undef "dangling search node"
      | Some n =>
          let '(n', evs) := onListenSynced q true n in
          onListenDone (x_emit (AddStep (getListenTime (x_world x0) q listen_expire n) :: map (fun e => Eff (CacheEv e)) evs) (on_node_at i (fun _ => n') x0))
      end
  end.

(** The nodes that listen: synced ones, up to four that are not candidates. *)
Fixpoint listen_nodes (k i left_ : nat) (x : Stepper) : outcome Stepper :=
  match k with
  | O => Ret x
  | S k' =>
      match sr_nodes (x_search x) !! i with
      | None => Ret x
      | Some n =>
          if negb (sn_isSynced (x_world x) now n) then listen_nodes k' (S i) left_ x
          else
            x' ← searchSynchedNodeListen (sr_listeners (x_search x)) i x;
            let candidate := match sr_nodes (x_search x') !! i with Some n' => sn_candidate n' | None => true end in
            if candidate then listen_nodes k' (S i) left_ x'
            else match left_ with
                 | S (S l) => listen_nodes k' (S i) (S l) x'
                 | _ => Ret x'
                 end
      end
  end.

(** ** The step *)

Definition no_operation (s : Search) : bool :=
  match sr_callbacks s, sr_announce s, sr_listeners s with [], [], [] => true | _, _, _ => false end.

Definition step_refill (x : Stepper) : outcome Stepper :=
  let s := x_search x in
  if (sr_refill_time s + NODE_EXPIRE_TIME <? now) &&
     (Z.of_nat (length (sr_nodes s)) - getNumberOfBadNodes (x_world x) (sr_nodes s) <? SEARCH_NODES)
  then ('(s', w, es) ← refill now cache s (x_world x); Ret (x_emit (map Eff es) (x_set_world w (x_set_search s' x))))
  else Ret x.

Definition set_done (x : Stepper) : Stepper :=
  let '(s, w, es) := sr_setDone (x_search x) (x_world x) in x_emit (map Eff es) (x_set_world w (x_set_search s x)).

(** The work of a search whose nodes have replied. *)
Definition step_synced (x : Stepper) : outcome Stepper :=
  let x1 := match sr_callbacks (x_search x), sr_announce (x_search x) with
            | [], [] => x
            | _, _ => let '(s, w, es) := complete deref (x_search x) (x_world x) in x_emit (map Eff es) (x_set_world w (x_set_search s x))
            end in
  x2 ← match sr_listeners (x_search x1) with [] => Ret x1 | _ => listen_nodes (length (sr_nodes (x_search x1))) 0 LISTEN_NODES x1 end;
  x3 ← searchSendAnnounceValue x2;
  Ret (if no_operation (x_search x3) then set_done x3 else x3).

(** A search whose nodes are all bad expires. *)
Definition step_expire (x : Stepper) : outcome Stepper :=
  let s := x_search x in
  if Z.min (Z.of_nat (length (sr_nodes s))) SEARCH_MAX_BAD_NODES <=? getNumberOfConsecutiveBadNodes (x_world x) (sr_nodes s) then
    ('(s', w, es) ← sr_expire s (x_world x);
     Ret (x_emit (map Eff es ++ (if public_stable then [] else [ConnectivityChanged (sr_af s)])) (x_set_world w (x_set_search s' x))))
  else Ret x.

Definition searchStep (fuel : nat) (x : Stepper) : option (outcome Stepper) :=
  if sr_expired (x_search x) || sr_done (x_search x) then Some (Ret x)
  else
    match (x1 ← step_refill (x_set_search (sr_set_step_time now (x_search x)) x);
           if sr_isSynced (x_world x1) now (x_search x1) then step_synced x1 else Ret x1) with
    | Ret x2 =>
        match send_loop fuel x2 with
        | Some (Ret x3) => Some (step_expire x3)
        | r => r
        end
    | Throw e => Some (Throw e) | Undef e => Some (Undef e) | Terminate e => Some (Terminate e)
    end.

(** [onError] with [UNAUTHORIZED], for one search. *)
Definition token_flush (p : ptr) (x : Stepper) : outcome Stepper :=
  match getNode p (x_search x) with
  | None => Ret x
  | Some i =>
      '(_, x1) ← searchSendGetValues None true (on_node_at i (fun n => sn_set_last_get_reply time_min (sn_set_token [] n)) x);
      Ret (step_now x1)
  end.
End SearchStep.

(** ** Sending ends *)

Abbreviation pmap_wf := (om_wf Pos.ltb (fun _ => True)).

Lemma pm_elem_set {V} (k k0 : positive) (v v0 : V) m : pmap_wf m ->
  (k, v) ∈ om_set Pos.ltb k0 v0 m <-> (k = k0 /\ v = v0) \/ (k <> k0 /\ (k, v) ∈ m).
Proof.
  intros Hm. pose proof (om_set_wf Pos.ltb (fun _ => True) k0 v0 m I Hm) as Hm'.
  rewrite <- (om_find_Some_elem Pos.ltb (fun _ => True) k v) by done.
  rewrite <- (om_find_Some_elem Pos.ltb (fun _ => True) k v m) by done.
  destruct (decide (k = k0)) as [->|Hne].
  - rewrite (om_find_set_eq Pos.ltb (fun _ => True)) by done. naive_solver.
  - rewrite (om_find_set_ne Pos.ltb (fun _ => True)) by done. naive_solver.
Qed.

Lemma existsb_elem {A} (f : A -> bool) l : existsb f l = true <-> exists x, x ∈ l /\ f x = true.
Proof. rewrite existsb_exists. by setoid_rewrite list_elem_of_In. Qed.

Lemma canGet_stat_eq w l : existsb (fun e : qptr * option ptr => opt_pending w e.2) l = true <-> exists k r, (k, Some r) ∈ l /\ req_is_pending w r = true.
Proof.
  rewrite existsb_elem. split.
  - intros ([k [r|]] & Hin & H); [by exists k, r|done].
  - intros (k & r & Hin & H). by exists (k, Some r).
Qed.

Section CanGet.
Context (qderef : qptr -> Query).

(** A request that answers the query, or will. *)
Definition hit (w : World) (up : Z) (q : qptr) (e : qptr * option ptr) : bool :=
  isSatisfiedBy (qderef q) (qderef e.1) &&
  match e.2 with Some r => req_is_pending w r || (req_completed w r && negb (req_reply_time w r <? up)) | None => false end.

Lemma canGet_loop_eq w up q l : forall p c s, (s = true -> p = true) ->
  let '(p', c', s') := canGet_loop qderef w up q l p c s in
  p' = p || existsb (fun e => opt_pending w e.2) l /\ c' || s' = c || s || existsb (hit w up q) l.
Proof.
  induction l as [|[k r] l IH]; intros p c s Hsp; cbn [canGet_loop existsb]; [by rewrite !orb_false_r|].
  unfold hit at 1. cbn [fst snd]. destruct (isSatisfiedBy _ _), r as [r|]; cbn [andb orb opt_pending];
    try (specialize (IH (p || req_is_pending w r) c s); destruct (canGet_loop _ _ _ _ _ _ _ _) as [[p' c'] s'];
         destruct IH as [-> ->]; [intros Hs; by rewrite (Hsp Hs)|]; rewrite ?orb_false_r; split; by rewrite ?orb_assoc);
    try (specialize (IH (p || false) c s); destruct (canGet_loop _ _ _ _ _ _ _ _) as [[p' c'] s'];
         destruct IH as [-> ->]; [intros Hs; by rewrite (Hsp Hs)|]; rewrite ?orb_false_r; split; by rewrite ?orb_assoc).
  destruct (req_is_pending w r) eqn:Ep; cbn [orb].
  - destruct c; cbn [andb].
    + by rewrite !orb_true_r.
    + specialize (IH (p || true) false true). destruct (canGet_loop _ _ _ _ _ _ _ _) as [[p' c'] s'].
      destruct IH as [-> ->]; [intros _; by rewrite orb_true_r|]. split; [by rewrite !orb_true_r|]. by rewrite !orb_true_r.
  - destruct (req_completed w r && negb (req_reply_time w r <? up)) eqn:Ec.
    + destruct s; cbn [andb].
      * rewrite (Hsp eq_refl). cbn. by rewrite !orb_true_r.
      * specialize (IH (p || false) true false). destruct (canGet_loop _ _ _ _ _ _ _ _) as [[p' c'] s'].
        destruct IH as [-> ->]; [done|]. split; [by rewrite orb_false_r|]. by rewrite ?orb_true_r.
    + destruct (c && s) eqn:Ecs.
      * apply andb_true_iff in Ecs as [-> ->]. rewrite (Hsp eq_refl). cbn. done.
      * specialize (IH (p || false) c s). destruct (canGet_loop _ _ _ _ _ _ _ _) as [[p' c'] s'].
        destruct IH as [-> ->]; [intros Hs; by rewrite (Hsp Hs)|]. by rewrite orb_false_r.
Qed.

(** What [canGet] comes to. *)
Lemma canGet_eq w now up q n : canGet qderef w now up q n =
  negb (node_expired w (sn_node n)) &&
  ((negb (pendingGet w n) && (sn_last_get_reply n + NODE_EXPIRE_TIME <? now)) ||
   negb (existsb (hit w up q) (sn_getStatus n) || hasStartedPagination n q)).
Proof.
  unfold canGet. destruct (node_expired w (sn_node n)); [done|]. cbn [negb andb].
  pose proof (canGet_loop_eq w up q (sn_getStatus n) false false false ltac:(done)) as H.
  destruct (canGet_loop _ _ _ _ _ _ _ _) as [[p c] s]. destruct H as [-> ->]. done.
Qed.

Lemma canGet_view w w' now up q n : node_expired w' (sn_node n) = node_expired w (sn_node n) ->
  (forall k r, (k, Some r) ∈ sn_getStatus n -> w_reqs w' !! r = w_reqs w !! r) ->
  canGet qderef w' now up q n = canGet qderef w now up q n /\ pendingGet w' n = pendingGet w n.
Proof.
  intros He Hr. rewrite !canGet_eq, He. unfold pendingGet.
  assert (forall k r, (k, Some r) ∈ sn_getStatus n -> req_is_pending w' r = req_is_pending w r /\ req_completed w' r = req_completed w r /\ req_reply_time w' r = req_reply_time w r) as Hv.
  { intros k r Hin. unfold req_is_pending, req_completed, req_reply_time. by rewrite (Hr k r Hin). }
  assert (existsb (fun e => opt_pending w' e.2) (sn_getStatus n) = existsb (fun e => opt_pending w e.2) (sn_getStatus n) /\
          existsb (hit w' up q) (sn_getStatus n) = existsb (hit w up q) (sn_getStatus n)) as [-> ->]; [|done].
  clear Hr He. induction (sn_getStatus n) as [|[k [r|]] l IH]; [done|..]; cbn [existsb opt_pending fst snd]; unfold hit at 1 3; cbn [fst snd].
  - destruct (Hv k r) as (-> & -> & ->); [by left|]. destruct IH as [-> ->]; [|done]. intros k' r' H'. apply (Hv k' r'). by right.
  - destruct IH as [-> ->]; [|done]. intros k' r' H'. apply (Hv k' r'). by right.
Qed.
End CanGet.

Section SendLoop.
Context {G : Gnutls} {N : NetSend} `{!NetSendLaws N} (now : Z).

(** The keys of the maps are sorted, and the requests of a node of the search are to
    that node. *)
Definition node_ok (w : World) (n : SearchNode) : Prop :=
  is_Some (w_nodes w !! sn_node n) /\ pmap_wf (sn_getStatus n) /\ pmap_wf (sn_pagination_queries n) /\
  forall k r, (k, Some r) ∈ sn_getStatus n -> rq_node <$> w_reqs w !! r = Some (sn_node n).

(** The state a search can send [k] requests from. *)
Record ready (k : nat) (x : Stepper) : Prop := {
  rd_net : net_ready k (x_world x);
  rd_nodup : NoDup (getNodes (x_search x));
  rd_nodes : Forall (node_ok (x_world x)) (sr_nodes (x_search x));
  rd_fresh r : (x_req x <= r)%positive -> w_reqs (x_world x) !! r = None;
  rd_queries : (2 < x_qry x)%positive;
  rd_keys : Forall (fun n => forall e, e ∈ sn_getStatus n -> (e.1 < x_qry x)%positive) (sr_nodes (x_search x));
  rd_cbs : Forall (fun e => (g_query e.2 < x_qry x)%positive) (sr_callbacks (x_search x));
  rd_refl : Forall (fun e => isSatisfiedBy (qd x (g_query e.2)) (qd x (g_query e.2)) = true) (sr_callbacks (x_search x));
}.

(** ** The callbacks of expired requests

    They change one node of the search, by erasing statuses. *)
Definition erases (f : SearchNode -> SearchNode) : Prop := forall n,
  sn_node (f n) = sn_node n /\ sn_pagination_queries (f n) = sn_pagination_queries n /\
  (forall e, e ∈ sn_getStatus (f n) -> e ∈ sn_getStatus n) /\ (pmap_wf (sn_getStatus n) -> pmap_wf (sn_getStatus (f n))).

Record benign (i : nat) (x x' : Stepper) : Prop := {
  bn_nodes : exists f, erases f /\ sr_nodes (x_search x') = alter f i (sr_nodes (x_search x));
  bn_search : sr_callbacks (x_search x') = sr_callbacks (x_search x) /\ sr_done (x_search x') = sr_done (x_search x);
  bn_fresh : x_req x' = x_req x /\ x_qry x' = x_qry x /\ x_queries x' = x_queries x;
  bn_reqs : w_reqs (x_world x') = w_reqs (x_world x);
  bn_frame : frame (x_world x) (x_world x');
  bn_net k : net_ready k (x_world x) -> net_ready k (x_world x');
}.

Lemma benign_refl i x : benign i x x.
Proof. split; try done. exists id. split; [done|]. symmetry. apply list_alter_id. done. Qed.

Lemma benign_trans i x y z : benign i x y -> benign i y z -> benign i x z.
Proof.
  intros [(f & Hf & Ef) [A1 A2] (B1 & B2 & B3) C D E] [(g & Hg & Eg) [A1' A2'] (B1' & B2' & B3') C' D' E'].
  split; [|split; congruence|split_and!; congruence|congruence|by etrans|auto].
  exists (g ∘ f). split; [|rewrite Eg, Ef; apply list_alter_alter_eq].
  intros n. destruct (Hf n) as (a & b & c & d), (Hg (f n)) as (a' & b' & c' & d'). cbn. split_and!; [congruence|congruence|auto|auto].
Qed.

Lemma benign_emit i o x : benign i x (x_emit o x).
Proof. destruct (benign_refl i x). by split. Qed.

Lemma benign_on_node i f x : erases f -> benign i x (on_node_at i f x).
Proof. intros Hf. split; try done. by exists f. Qed.

Lemma getNode_at p s i n : NoDup (getNodes s) -> sr_nodes s !! i = Some n -> sn_node n = p -> getNode p s = Some i.
Proof.
  unfold getNode, getNodes. enough (forall l k, NoDup (map sn_node l) -> l !! i = Some n -> sn_node n = p -> find_node p l k = Some (k + i)%nat) as H
    by (intros; by apply (H (sr_nodes s) 0%nat)).
  clear s. revert i. induction i as [|i IH]; intros [|m l] k Hnd Hi Hp; try done; cbn in *.
  - simplify_eq. by rewrite bool_decide_true, Nat.add_0_r by done.
  - apply NoDup_cons in Hnd as [Hni Hnd]. rewrite bool_decide_false.
    + rewrite (IH l (S k)) by done. f_equal. lia.
    + intros E. apply Hni. rewrite <- E, <- Hp. apply list_elem_of_In, in_map, list_elem_of_In. by eapply list_elem_of_lookup_2.
Qed.

Lemma erase_erases over q : erases (get_expired over q).
Proof.
  intros n. unfold get_expired. destruct over; cbn [negb]; [|by split_and!]. cbn. split_and!; [done|done| |].
  - intros e. apply (om_erase_sub Pos.ltb (fun _ => True)).
  - by apply (om_erase_wf Pos.ltb (fun _ => True)).
Qed.

Lemma benign_getNode i x x' : benign i x x' -> getNodes (x_search x') = getNodes (x_search x) /\
  forall n, sr_nodes (x_search x) !! i = Some n -> exists n', sr_nodes (x_search x') !! i = Some n' /\ sn_node n' = sn_node n.
Proof.
  intros [(f & Hf & Ef) _ _ _ _ _]. unfold getNodes. rewrite Ef. split.
  - revert i Ef. generalize (sr_nodes (x_search x)). intros l i _. revert i. induction l as [|n l IH]; intros [|i]; cbn; try done.
    + f_equal. apply Hf.
    + by rewrite IH.
  - intros n Hn. exists (f n). rewrite list_lookup_alter_eq, Hn. split; [done|apply Hf].
Qed.

Lemma benign_get_expired i n over q x : NoDup (getNodes (x_search x)) -> sr_nodes (x_search x) !! i = Some n ->
  benign i x (searchNodeGetExpired now (sn_node n) over q x).
Proof.
  intros Hnd Hn. unfold searchNodeGetExpired. rewrite (getNode_at _ _ i n Hnd Hn eq_refl). unfold step_now.
  eapply benign_trans; [apply (benign_on_node i (get_expired over q)), erase_erases|apply benign_emit].
Qed.

Lemma benign_close k w c : net_ready k w -> net_ready k (CachedListenStatus_destroy c w).1.
Proof using NetSendLaws0.
  intros H. unfold CachedListenStatus_destroy, close_socket. cbn. destruct (cl_req c); [|done]. destruct (_ =? 0); [done|].
  destruct (w_reqs w !! _) as [q|]; [|done]. destruct (w_nodes w !! rq_node q) as [n|] eqn:E; [|done]. by apply net_close_law.
Qed.

Lemma destroy_frame c w : w_reqs (CachedListenStatus_destroy c w).1 = w_reqs w /\ frame w (CachedListenStatus_destroy c w).1.
Proof.
  unfold CachedListenStatus_destroy, close_socket. cbn. destruct (cl_req c); [|done]. destruct (_ =? 0); [done|].
  destruct (w_reqs w !! _) as [q|]; [|done]. destruct (w_nodes w !! rq_node q) as [n|] eqn:E; [|done]. split; [done|].
  eapply frame_upd_node; [done|]. unfold closeSocket. by destruct (_ =? 0).
Qed.

Lemma benign_erase_listen i q x : benign i x (erase_listen i q x).
Proof using NetSendLaws0.
  unfold erase_listen. destruct (sr_nodes (x_search x) !! i) as [n|]; [|apply benign_refl].
  destruct (om_find _ _ _) as [c|]; [|apply benign_refl].
  pose proof (fun k => benign_close k (x_world x) c) as Hn. destruct (destroy_frame c (x_world x)) as [Hr Hf].
  destruct (CachedListenStatus_destroy c (x_world x)) as [w evs]. cbn [fst] in *.
  eapply benign_trans; [|apply benign_emit]. eapply (benign_trans i x (x_set_world w x)).
  - destruct (benign_refl i x). by split.
  - apply benign_on_node. intros m. by split_and!.
Qed.

Lemma benign_fold {A} i (f : Stepper -> A -> Stepper) (P : Stepper -> Prop) l : (forall x a, P x -> benign i x (f x a)) ->
  (forall x x', P x -> benign i x x' -> P x') -> forall x, P x -> benign i x (fold_left f l x).
Proof.
  intros Hf HP. induction l as [|a l IH]; intros x Hx; cbn; [apply benign_refl|].
  eapply benign_trans; [by apply Hf|]. apply IH. eapply HP; [exact Hx|by apply Hf].
Qed.

Lemma benign_run_expired i w w' x : NoDup (getNodes (x_search x)) -> benign i x (run_expired now i w w' x).
Proof using NetSendLaws0.
  intros Hnd. unfold run_expired. destruct (sr_nodes (x_search x) !! i) as [n|] eqn:Hn; [|apply benign_refl].
  eapply benign_trans.
  - apply (benign_fold i (fun x q => searchNodeGetExpired now (sn_node n) true q x) (fun x => NoDup (getNodes (x_search x)) /\ exists n', sr_nodes (x_search x) !! i = Some n' /\ sn_node n' = sn_node n)).
    + intros y q [Hy (n' & Hn' & Hp)]. rewrite <- Hp. by apply benign_get_expired.
    + intros y y' [Hy (n' & Hn' & Hp)] Hb. destruct (benign_getNode i y y' Hb) as [-> Hb']. split; [done|].
      destruct (Hb' n' Hn') as (n2 & H2 & Hp2). exists n2. split; [done|congruence].
    + split; [done|by exists n].
  - apply (benign_fold i (fun x q => erase_listen i q (step_now now x)) (fun _ => True)); [|done..]. intros y q _. eapply benign_trans; [apply benign_emit|apply benign_erase_listen].
Qed.


(** What sending a request to the node [n] at [i] leaves: the other nodes as they were,
    and the node expired or with the request under the query. *)
Record stepped (i : nat) (q : qptr) (n : SearchNode) (x x' : Stepper) : Prop := {
  sp_callbacks : sr_callbacks (x_search x') = sr_callbacks (x_search x);
  sp_done : sr_done (x_search x') = sr_done (x_search x);
  sp_queries : x_qry x' = x_qry x /\ x_queries x' = x_queries x;
  sp_nodes : exists n', sr_nodes (x_search x') = <[i := n']> (sr_nodes (x_search x)) /\ sn_node n' = sn_node n /\
    (node_expired (x_world x') (sn_node n) = true \/
     exists r, n' = set_status q (Some r) n /\ req_is_pending (x_world x') r = true /\
       node_expired (x_world x') (sn_node n) = node_expired (x_world x) (sn_node n) /\
       forall k r, (k, Some r) ∈ sn_getStatus n -> w_reqs (x_world x') !! r = w_reqs (x_world x) !! r);
  sp_others j m : j <> i -> sr_nodes (x_search x) !! j = Some m ->
    node_expired (x_world x') (sn_node m) = node_expired (x_world x) (sn_node m) /\
    forall k r, (k, Some r) ∈ sn_getStatus m -> w_reqs (x_world x') !! r = w_reqs (x_world x) !! r;
}.

Lemma nodes_distinct s i j n m : NoDup (getNodes s) -> sr_nodes s !! i = Some n -> sr_nodes s !! j = Some m -> j <> i -> sn_node m <> sn_node n.
Proof.
  intros Hnd Hi Hj Hne E. apply Hne. change (getNodes s) with (sn_node <$> sr_nodes s) in Hnd.
  eapply NoDup_lookup; [exact Hnd|..]; rewrite list_lookup_fmap, ?Hi, ?Hj; cbn; by rewrite ?E.
Qed.

Lemma node_requests x k i n q r : ready k x -> sr_nodes (x_search x) !! i = Some n -> (q, Some r) ∈ sn_getStatus n ->
  rq_node <$> w_reqs (x_world x) !! r = Some (sn_node n) /\ r <> x_req x.
Proof.
  intros Hx Hn Hin. pose proof (Forall_lookup_1 _ _ _ _ (rd_nodes _ _ Hx) Hn) as (_ & _ & _ & Hr). specialize (Hr q r Hin). split; [done|].
  intros ->. by rewrite (rd_fresh _ _ Hx (x_req x)) in Hr.
Qed.

(** The state once the request is sent and the callbacks have run. *)
Lemma send_to_result a i q n k x : ready (S k) x -> sr_nodes (x_search x) !! i = Some n ->
  exists x1 w', send_to now a i (searchNodeGetExpired now (sn_node n) true q) x = Ret (x_req x, x1) /\
    net_ready k (x_world x1) /\ (forall p, is_Some (w_nodes (x_world x) !! p) -> is_Some (w_nodes (x_world x1) !! p)) /\
    benign i (x_set_req (Pos.succ (x_req x)) (x_set_world w' x)) x1 /\
    (sent (sn_node n) (x_req x) (x_world x) w' /\ x1 = x_set_req (Pos.succ (x_req x)) (x_set_world w' x) \/ unreached (sn_node n) (x_req x) (x_world x) w').
Proof using NetSendLaws0.
  intros Hx Hn. pose proof (Forall_lookup_1 _ _ _ _ (rd_nodes _ _ Hx) Hn) as (Hp & _).
  destruct (net_send_law a (sn_node n) (x_req x) k (x_world x) (rd_net _ _ Hx) Hp (rd_fresh _ _ Hx _ ltac:(done))) as (w' & Hs & Hk & Hkeep & Hcase).
  unfold send_to. rewrite Hn, Hs. cbn. set (x0 := x_set_req _ _).
  destruct (req_is_pending w' (x_req x)) eqn:Ep.
  - exists x0, w'. split_and!; [done..|apply benign_refl|]. destruct Hcase as [Hcase|Hcase]; [by left|by right].
  - assert (benign i x0 (searchNodeGetExpired now (sn_node n) true q (run_expired now i (x_world x) w' x0))) as Hb.
    { pose proof (benign_run_expired i (x_world x) w' x0 (rd_nodup _ _ Hx)) as H1. eapply benign_trans; [exact H1|].
      destruct (benign_getNode _ _ _ H1) as [Hg Hnode]. destruct (Hnode n Hn) as (n1 & Hn1 & <-). apply benign_get_expired; [|done].
      rewrite Hg. exact (rd_nodup _ _ Hx). }
    eexists _, w'. split; [done|]. split_and!.
    + apply (bn_net _ _ _ Hb k). exact Hk.
    + intros p' Hp'. eapply frame_node; [exact (bn_frame _ _ _ Hb)|]. by apply Hkeep.
    + exact Hb.
    + destruct Hcase as [[(rq & Hrq & _ & Hpend) _ _]|Hcase]; [|by right]. unfold req_is_pending in Ep. rewrite Hrq in Ep. by rewrite Hpend in Ep.
Qed.


Lemma sent_rq_node p r w w' : sent p r w w' \/ unreached p r w w' ->
  forall r', rq_node <$> w_reqs w' !! r' = (if bool_decide (r' = r) then Some p else rq_node <$> w_reqs w !! r').
Proof.
  intros [[(q & Hq & Hp & _) Hr _]|[_ _ H _ _]] r'; [|by apply H]. case_bool_decide as E; [subst; rewrite Hq; cbn; congruence|by rewrite Hr].
Qed.

Lemma alter_insert {A} (f : A -> A) i (l : list A) a : l !! i = Some a -> alter f i l = <[i := f a]> l.
Proof. revert i. induction l as [|b l IH]; intros [|i] H; cbn in *; simplify_eq; [done|]. f_equal. by apply IH. Qed.

Lemma getNodes_insert i n n' (l : list SearchNode) : l !! i = Some n -> sn_node n' = sn_node n -> map sn_node (<[i := n']> l) = map sn_node l.
Proof. revert i. induction l as [|b l IH]; intros [|i] H E; cbn in *; simplify_eq; f_equal; [done|]. by apply IH. Qed.

(** The state after a request, in terms of what its failure may have erased. *)
Record after_send (i : nat) (q : qptr) (n : SearchNode) (f : SearchNode -> SearchNode) (x x' : Stepper) : Prop := {
  af_keep p : is_Some (w_nodes (x_world x) !! p) -> is_Some (w_nodes (x_world x') !! p);
  af_erases : erases f;
  af_nodes : sr_nodes (x_search x') = <[i := set_status q (Some (x_req x)) (f n)]> (sr_nodes (x_search x));
  af_search : sr_callbacks (x_search x') = sr_callbacks (x_search x) /\ sr_done (x_search x') = sr_done (x_search x);
  af_fresh : x_req x' = Pos.succ (x_req x) /\ x_qry x' = x_qry x /\ x_queries x' = x_queries x;
  af_rq_node r : rq_node <$> w_reqs (x_world x') !! r = (if bool_decide (r = x_req x) then Some (sn_node n) else rq_node <$> w_reqs (x_world x) !! r);
  af_case : f n = n /\ sent (sn_node n) (x_req x) (x_world x) (x_world x') \/
    node_expired (x_world x') (sn_node n) = true /\
    (forall p, p <> sn_node n -> node_expired (x_world x') p = node_expired (x_world x) p) /\
    (forall r, r <> x_req x -> (forall rq, w_reqs (x_world x) !! r = Some rq -> rq_node rq <> sn_node n) -> w_reqs (x_world x') !! r = w_reqs (x_world x) !! r);
}.

Lemma send_get_after a i q n k x : ready (S k) x -> sr_nodes (x_search x) !! i = Some n ->
  exists f x', send_get false now a i q x = Ret x' /\ net_ready k (x_world x') /\ after_send i q n f x x'.
Proof using NetSendLaws0.
  intros Hx Hn. destruct (send_to_result a i q n k x Hx Hn) as (x1 & w' & Hs & Hk & Hkeep & Hb & Hcase).
  unfold send_get. rewrite Hn, Hs. cbn [andb mbind outcome_bind].
  set (x0 := x_set_req (Pos.succ (x_req x)) (x_set_world w' x)) in *. destruct Hb as [(f & Hf & Ef) [Hcb Hdone] (Hxr & Hxq & Hxm) Hreqs Hframe _].
  cbn [x_search x_set_req x_set_world x0] in Ef. rewrite (alter_insert f i _ n Hn) in Ef.
  exists f, (on_node_at i (set_status q (Some (x_req x))) x1). split; [done|]. split; [exact Hk|].
  split; change (x_world (on_node_at i (set_status q (Some (x_req x))) x1)) with (x_world x1); try done.
  - unfold on_node_at. cbn. rewrite Ef, (alter_insert _ i _ (f n)) by (apply list_lookup_insert_eq; by eapply lookup_lt_Some). by rewrite list_insert_insert_eq.
  - intros r'. rewrite Hreqs. apply sent_rq_node. destruct Hcase as [[H _]|H]; [by left|by right].
  - destruct Hcase as [[Hsent ->]|Hun]; [left|right].
    + split; [|done]. assert (sr_nodes (x_search x) !! i = Some (f n)) as E; [|congruence].
      change (sr_nodes (x_search x0)) with (sr_nodes (x_search x)) in Ef. rewrite Ef at 1. apply list_lookup_insert_eq. by eapply lookup_lt_Some.
    + rewrite Hreqs. split_and!; [rewrite (frame_expired _ _ _ Hframe); apply Hun| |apply Hun].
      intros p Hp. rewrite (frame_expired _ _ _ Hframe). by apply Hun.
Qed.

Lemma after_send_ready i q n f k x x' : ready (S k) x -> sr_nodes (x_search x) !! i = Some n -> (q < x_qry x)%positive ->
  net_ready k (x_world x') -> after_send i q n f x x' -> ready k x'.
Proof.
  intros Hx Hn Hq Hk [Hkeep Hf En [Hcb _] (Hxr & Hxq & Hxm) Hrq _]. destruct (Hf n) as (Hfn & Hfp & Hfs & Hfw).
  pose proof (Forall_lookup_1 _ _ _ _ (rd_nodes _ _ Hx) Hn) as (Hp & Hw1 & Hw2 & _). pose proof (rd_keys _ _ Hx) as Hkeys.
  assert (forall m kk r', m ∈ sr_nodes (x_search x) -> (kk, Some r') ∈ sn_getStatus m -> rq_node <$> w_reqs (x_world x') !! r' = Some (sn_node m)) as Hold.
  { intros m kk r' [j Hj]%list_elem_of_lookup Hin. destruct (node_requests x (S k) j m kk r' Hx Hj Hin) as [H1 H2]. rewrite Hrq. by rewrite bool_decide_false. }
  split.
  - done.
  - unfold getNodes. rewrite En, (getNodes_insert i n); [exact (rd_nodup _ _ Hx)|done|done].
  - rewrite En. apply Forall_insert.
    + apply Forall_forall. intros m Hm. pose proof (proj1 (Forall_forall _ _) (rd_nodes _ _ Hx) m Hm) as (Hmp & Hm1 & Hm2 & _).
      split_and!; [by apply Hkeep|done|done|]. intros kk r' Hin. by eapply Hold.
    + split_and!; cbn; [rewrite Hfn; by apply Hkeep|apply (om_set_wf Pos.ltb (fun _ => True)); [done|by apply Hfw]|by rewrite Hfp|].
      intros kk r' [[-> [= ->]]|[_ Hin]]%pm_elem_set; [rewrite Hrq; by rewrite bool_decide_true, Hfn| |by apply Hfw].
      rewrite Hfn. eapply Hold; [by eapply list_elem_of_lookup_2|]. by apply Hfs.
  - intros r' Hr'. rewrite Hxr in Hr'. specialize (Hrq r'). rewrite bool_decide_false in Hrq by lia. rewrite (rd_fresh _ _ Hx r') in Hrq by lia. by apply fmap_None in Hrq.
  - rewrite Hxq. exact (rd_queries _ _ Hx).
  - rewrite En, Hxq. apply Forall_insert; [exact Hkeys|]. intros [kk v] [[-> ->]|[_ Hin]]%pm_elem_set; [done| |by apply Hfw].
    apply (Forall_lookup_1 _ _ _ _ Hkeys Hn). by apply Hfs.
  - rewrite Hxq, Hcb. exact (rd_cbs _ _ Hx).
  - rewrite Hcb. unfold qd. rewrite Hxm. exact (rd_refl _ _ Hx).
Qed.

Lemma after_send_stepped i q n f k x x' : ready (S k) x -> sr_nodes (x_search x) !! i = Some n -> after_send i q n f x x' -> stepped i q n x x'.
Proof.
  intros Hx Hn [_ Hf En [Hcb Hdone] (_ & Hxq & Hxm) _ Hcase]. split; [done|done|done| |].
  - exists (set_status q (Some (x_req x)) (f n)). split; [exact En|]. split; [apply Hf|]. destruct Hcase as [[-> Hsent]|(He & _)]; [right|by left].
    exists (x_req x). split_and!; [done| |apply Hsent|].
    + destruct Hsent as [(rq & Hrq & _ & Hpend) _ _]. unfold req_is_pending. by rewrite Hrq.
    + intros kk r' Hin. apply Hsent. by eapply node_requests.
  - intros j m Hj Hm. assert (sn_node m <> sn_node n) as Hne by (eapply nodes_distinct; eauto using rd_nodup).
    destruct Hcase as [[_ Hsent]|(_ & Hoth & Hreq)].
    + split; [apply Hsent|]. intros kk r' Hin. apply Hsent. by eapply node_requests.
    + split; [by apply Hoth|]. intros kk r' Hin. destruct (node_requests x (S k) j m kk r' Hx Hm Hin) as [H1 H2].
      apply Hreq; [done|]. intros rq Hrq. rewrite Hrq in H1. cbn in H1. congruence.
Qed.

Lemma send_get_step a i q n k x : ready (S k) x -> sr_nodes (x_search x) !! i = Some n -> (q < x_qry x)%positive ->
  exists x', send_get false now a i q x = Ret x' /\ ready k x' /\ stepped i q n x x'.
Proof using NetSendLaws0.
  intros Hx Hn Hq. destruct (send_get_after a i q n k x Hx Hn) as (f & x' & Hs & Hk & Ha). exists x'. split_and!; [done| |].
  - by eapply after_send_ready.
  - by eapply after_send_stepped.
Qed.

(** ** What is left to send *)

Definition queries_of (x : Stepper) : list qptr :=
  match sr_callbacks (x_search x) with [] => [ANY_QUERY] | cbs => map (fun e => g_query e.2) cbs end.
Definition can (x : Stepper) (q : qptr) (n : SearchNode) : bool := canGet (qd x) (x_world x) now (up_time true q x) q n.
Definition todo_at (x : Stepper) (n : SearchNode) : nat := length (List.filter (fun q => can x q n) (queries_of x)).
Definition todo (x : Stepper) : nat := sum_list_with (todo_at x) (sr_nodes (x_search x)).
Definition solicited_at (w : World) (n : SearchNode) : nat := if negb (isBad w n) && pendingGet w n then 1 else 0.
Definition solicited (x : Stepper) : Z := currentlySolicitedNodeCount (x_world x) (x_search x).

Lemma sum_update {A} (f f' : A -> nat) (l : list A) i a a' : l !! i = Some a -> (forall j m, j <> i -> l !! j = Some m -> f' m = f m) ->
  (sum_list_with f' (<[i := a']> l) + f a = sum_list_with f l + f' a')%nat.
Proof.
  revert i. induction l as [|b l IH]; intros [|i] Hi Hf; cbn in *; simplify_eq.
  - assert (sum_list_with f' l = sum_list_with f l) as ->; [|lia]. clear IH. assert (forall j m, l !! j = Some m -> f' m = f m) as H
      by (intros j m; apply (Hf (S j)); lia). clear Hf. induction l as [|c l IH]; [done|]. cbn. rewrite (H 0%nat c), IH; [done| |done]. intros j m. apply (H (S j)).
  - assert (f' b = f b) as -> by (apply (Hf 0%nat); done).
    assert (forall j m, j <> i -> l !! j = Some m -> f' m = f m) as Hf' by (intros j m Hj; apply (Hf (S j)); lia).
    pose proof (IH i Hi Hf') as H. unfold insert in H |- *. cbn in H |- *. lia.
Qed.

Lemma filter_fewer {A} (f f' : A -> bool) l a : (forall b, b ∈ l -> f' b = true -> f b = true) -> a ∈ l -> f a = true -> f' a = false ->
  (length (List.filter f' l) < length (List.filter f l))%nat.
Proof.
  intros Hm Ha Hf Hf'. assert (forall l', (forall b, b ∈ l' -> f' b = true -> f b = true) -> length (List.filter f' l') <= length (List.filter f l'))%nat as Hle.
  { intros l'. clear. induction l' as [|b l' IH]; intros Hm; [done|]. cbn. pose proof (Hm b ltac:(by left)). specialize (IH ltac:(intros; apply Hm; [by right|done])).
    destruct (f' b), (f b); cbn; lia || (by specialize (H eq_refl)). }
  apply list_elem_of_split in Ha as (l1 & l2 & ->). rewrite !List.filter_app, !length_app. cbn. rewrite Hf, Hf'. cbn.
  pose proof (Hle l1 ltac:(intros; apply Hm; [set_solver|done])). pose proof (Hle l2 ltac:(intros; apply Hm; [set_solver|done])). lia.
Qed.

Lemma solicited_sum x : solicited x = Z.of_nat (sum_list_with (solicited_at (x_world x)) (sr_nodes (x_search x))).
Proof.
  unfold solicited, currentlySolicitedNodeCount. f_equal. induction (sr_nodes (x_search x)) as [|n l IH]; [done|]. cbn.
  unfold solicited_at at 1. destruct (_ && _); cbn; by rewrite IH.
Qed.

(** Queries are the same objects after a step, up to the new ones. *)
Definition same_queries (x x' : Stepper) : Prop := forall q, (q < x_qry x)%positive -> qd x' q = qd x q.

Lemma fold_left_same {A B} (f f' : A -> B -> A) (P : B -> Prop) l : (forall a b, P b -> f a b = f' a b) -> Forall P l -> forall a, fold_left f l a = fold_left f' l a.
Proof. intros H. induction 1 as [|b l Hb _ IH]; intros a; [done|]. cbn. by rewrite H, IH. Qed.

Lemma up_time_same x x' q : same_queries x x' -> sr_callbacks (x_search x') = sr_callbacks (x_search x) -> (q < x_qry x)%positive ->
  Forall (fun e => (g_query e.2 < x_qry x)%positive) (sr_callbacks (x_search x)) -> up_time true q x' = up_time true q x.
Proof.
  intros Hq Hc Hlt Hcb. unfold up_time, getLastGetTime_query. rewrite Hc, (Hq q Hlt).
  assert (forall z, fold_left (fun last e => Z.max last (if isSatisfiedBy (qd x q) (qd x' (g_query e.2)) then g_start e.2 else time_min)) (sr_callbacks (x_search x)) z =
    fold_left (fun last e => Z.max last (if isSatisfiedBy (qd x q) (qd x (g_query e.2)) then g_start e.2 else time_min)) (sr_callbacks (x_search x)) z) as ->; [|done].
  eapply fold_left_same; [|exact Hcb]. intros z e He. cbn in He. by rewrite (Hq _ He).
Qed.

Lemma hit_same x x' w up q l : same_queries x x' -> (q < x_qry x)%positive -> (forall e, e ∈ l -> (e.1 < x_qry x)%positive) ->
  existsb (hit (qd x') w up q) l = existsb (hit (qd x) w up q) l.
Proof.
  intros Hs Hq Hl. induction l as [|e l IH]; [done|]. cbn. rewrite IH by (intros; apply Hl; by right). f_equal. unfold hit.
  rewrite (Hs q Hq), (Hs e.1); [done|]. apply Hl. by left.
Qed.

Lemma canGet_same x x' w up q n : same_queries x x' -> (q < x_qry x)%positive -> (forall e, e ∈ sn_getStatus n -> (e.1 < x_qry x)%positive) ->
  canGet (qd x') w now up q n = canGet (qd x) w now up q n.
Proof. intros Hs Hq Hl. by rewrite !canGet_eq, (hit_same x x'). Qed.

(** The effect of a step on the measures, from what it does to the node at [i]. *)
Lemma step_measures i n n' q0 x x' k : ready k x -> sr_nodes (x_search x) !! i = Some n ->
  sr_nodes (x_search x') = <[i := n']> (sr_nodes (x_search x)) -> sr_callbacks (x_search x') = sr_callbacks (x_search x) -> same_queries x x' ->
  (forall j m, j <> i -> sr_nodes (x_search x) !! j = Some m ->
     node_expired (x_world x') (sn_node m) = node_expired (x_world x) (sn_node m) /\
     forall k r, (k, Some r) ∈ sn_getStatus m -> w_reqs (x_world x') !! r = w_reqs (x_world x) !! r) ->
  (forall q, (q < x_qry x)%positive -> can x' q n' = true -> can x q n = true) ->
  q0 ∈ queries_of x -> can x q0 n = true -> can x' q0 n' = false ->
  (todo x' < todo x)%nat /\ solicited x' <= solicited x + 1.
Proof.
  intros Hx Hi Hn' Hcb Hsq Hoth Hmono Hq0 Hcan Hcan'.
  assert (forall q, q ∈ queries_of x -> (q < x_qry x)%positive) as Hlt.
  { intros q. unfold queries_of. pose proof (rd_cbs _ _ Hx) as H. pose proof (rd_queries _ _ Hx). destruct (sr_callbacks (x_search x)) as [|e l] eqn:E.
    - intros ->%list_elem_of_singleton. unfold ANY_QUERY. lia.
    - intros Hin. apply list_elem_of_In, in_map_iff in Hin as (e' & <- & Hin). rewrite Forall_forall in H. by apply H, list_elem_of_In. }
  assert (queries_of x' = queries_of x) as Eq by (unfold queries_of; by rewrite Hcb).
  assert (forall q m j, j <> i -> sr_nodes (x_search x) !! j = Some m -> q ∈ queries_of x -> can x' q m = can x q m) as Hsame.
  { intros q m j Hj Hm Hq. unfold can. rewrite (up_time_same x x' q Hsq Hcb (Hlt q Hq) (rd_cbs _ _ Hx)).
    rewrite (canGet_same x x'); [|done|by apply Hlt|apply (Forall_lookup_1 _ _ _ _ (rd_keys _ _ Hx) Hm)].
    by apply canGet_view; apply (Hoth j m Hj Hm). }
  split.
  - unfold todo. rewrite Hn'.
    assert (forall j m, j <> i -> sr_nodes (x_search x) !! j = Some m -> todo_at x' m = todo_at x m) as H1.
    { intros j m Hj Hm. unfold todo_at. rewrite Eq. f_equal. apply List.filter_ext_in. intros q Hq. eapply Hsame; [done|done|]. by apply list_elem_of_In. }
    pose proof (sum_update _ _ _ i n n' Hi H1) as H.
    assert (todo_at x' n' < todo_at x n)%nat; [|lia]. unfold todo_at. rewrite Eq.
    apply (filter_fewer (fun q => can x q n)) with q0; try done. intros q Hq. by apply Hmono, Hlt.
  - rewrite !solicited_sum, Hn'. pose proof (sum_update (solicited_at (x_world x)) (solicited_at (x_world x')) (sr_nodes (x_search x)) i n n' Hi) as H.
    assert (solicited_at (x_world x') n' <= 1)%nat by (unfold solicited_at; destruct (_ && _); lia). cut (forall j m, j <> i -> sr_nodes (x_search x) !! j = Some m -> solicited_at (x_world x') m = solicited_at (x_world x) m); [intros H1; specialize (H H1); lia|].
    intros j m Hj Hm. destruct (Hoth j m Hj Hm) as [He Hr]. unfold solicited_at, isBad. rewrite He. by destruct (canGet_view (qd x) (x_world x) (x_world x') now 0 1%positive m He Hr) as [_ ->].
Qed.


(** ** One request *)

Lemma pending_set w n q r : pmap_wf (sn_getStatus n) -> req_is_pending w r = true -> pendingGet w (set_status q (Some r) n) = true.
Proof. intros Hw Hr. apply canGet_stat_eq. exists q, r. split; [|done]. apply pm_elem_set; [done|]. by left. Qed.

Lemma hit_set qderef w w' up q q0 r n : pmap_wf (sn_getStatus n) -> req_is_pending w' r = true ->
  (forall k r, (k, Some r) ∈ sn_getStatus n -> w_reqs w' !! r = w_reqs w !! r) ->
  existsb (hit qderef w up q) (sn_getStatus n) = true -> existsb (hit qderef w' up q) (sn_getStatus (set_status q0 (Some r) n)) = true.
Proof.
  intros Hw Hr Hsame. rewrite !existsb_elem. intros ([k [r0|]] & Hin & H); unfold hit in H; cbn [fst snd] in H; [|by rewrite andb_false_r in H].
  apply andb_true_iff in H as [Hsat H]. destruct (decide (k = q0)) as [->|Hne].
  - exists (q0, Some r). split; [apply pm_elem_set; [done|by left]|]. unfold hit. cbn [fst snd]. by rewrite Hsat, Hr.
  - exists (k, Some r0). split; [apply pm_elem_set; [done|by right]|]. unfold hit. cbn [fst snd]. rewrite Hsat.
    unfold req_is_pending, req_completed, req_reply_time in *. by rewrite (Hsame k r0 Hin).
Qed.

Lemma started_set n q q0 r : pmap_wf (sn_getStatus n) -> hasStartedPagination n q = true -> hasStartedPagination (set_status q0 (Some r) n) q = true.
Proof.
  intros Hw. unfold hasStartedPagination. cbn [sn_pagination_queries set_status sn_set_getStatus sn_getStatus]. destruct (om_find Pos.ltb q _) as [[|a l]|]; [done| |done].
  rewrite !existsb_elem. intros (k & Hk & H). exists k. split; [done|]. destruct (decide (q0 = k)) as [->|Hne].
  - by rewrite (om_find_set_eq Pos.ltb (fun _ => True)).
  - by rewrite (om_find_set_ne Pos.ltb (fun _ => True)).
Qed.

Lemma started_push n q q0 q' : pmap_wf (sn_pagination_queries n) -> hasStartedPagination n q = true -> hasStartedPagination (push_query q0 q' n) q = true.
Proof.
  intros Hw. unfold hasStartedPagination, push_query. cbn [sn_pagination_queries sn_set_pagination sn_getStatus].
  destruct (decide (q0 = q)) as [->|Hne]; [|by rewrite (om_find_set_ne Pos.ltb (fun _ => True))].
  rewrite (om_find_set_eq Pos.ltb (fun _ => True)) by done. destruct (om_find Pos.ltb q (sn_pagination_queries n)) as [[|a l]|]; [done| |done].
  intros H. change ((a :: l) ++ [q']) with (a :: (l ++ [q'])). rewrite existsb_elem in H |- *. destruct H as (k & Hk & H). exists k. split; [|done].
  rewrite app_comm_cons, elem_of_app. by left.
Qed.

Lemma started_now n q q' r : pmap_wf (sn_pagination_queries n) -> pmap_wf (sn_getStatus n) ->
  hasStartedPagination (set_status q' (Some r) (push_query q q' n)) q = true.
Proof.
  intros Hp Hw. unfold hasStartedPagination, push_query. cbn [sn_pagination_queries sn_set_pagination sn_getStatus set_status sn_set_getStatus].
  rewrite (om_find_set_eq Pos.ltb (fun _ => True)) by done.
  assert (forall l, match l ++ [q'] with [] => false | _ :: _ => existsb (fun query => match om_find Pos.ltb query (om_set Pos.ltb q' (Some r) (sn_getStatus n)) with Some (Some _) => true | _ => false end) (l ++ [q']) end = true) as H.
  { intros l. destruct (l ++ [q']) eqn:E; [by destruct l|]. rewrite <- E. apply existsb_elem. exists q'. split; [apply elem_of_app; right; by left|].
    by rewrite (om_find_set_eq Pos.ltb (fun _ => True)). }
  apply H.
Qed.

(** A request that was sent keeps every query from being sent that could not be sent
    before, and its own. *)
Lemma sent_can_less qderef w w' up q q0 r n n0 : pmap_wf (sn_getStatus n) -> req_is_pending w' r = true ->
  (forall k r, (k, Some r) ∈ sn_getStatus n -> w_reqs w' !! r = w_reqs w !! r) ->
  node_expired w' (sn_node n) = node_expired w (sn_node n) ->
  sn_node n0 = sn_node n -> sn_getStatus n0 = sn_getStatus n -> (hasStartedPagination n q = true -> hasStartedPagination n0 q = true) ->
  canGet qderef w' now up q (set_status q0 (Some r) n0) = true -> canGet qderef w now up q n = true.
Proof.
  intros Hw Hr Hsame He Hnode Hst Hpag. rewrite !canGet_eq. change (sn_node (set_status q0 (Some r) n0)) with (sn_node n0).
  rewrite Hnode, He. destruct (node_expired w (sn_node n)); [done|]. cbn [negb andb].
  rewrite pending_set by (done || by rewrite Hst). cbn [negb andb orb]. intros H. apply negb_true_iff, orb_false_iff in H as [H1 H2].
  apply orb_true_iff. right. apply negb_true_iff, orb_false_iff. split.
  - destruct (existsb (hit qderef w up q) (sn_getStatus n)) eqn:E; [|done]. pose proof (hit_set qderef w w' up q q0 r n Hw Hr Hsame E) as H.
    unfold set_status in H1, H. cbn [sn_getStatus sn_set_getStatus] in H1, H. rewrite Hst in H1. congruence.
  - destruct (hasStartedPagination n q) eqn:E; [|done]. specialize (Hpag eq_refl).
    rewrite (started_set n0 q q0 r) in H2; [done|by rewrite Hst|done].
Qed.


Record progress (x x' : Stepper) : Prop := {
  pg_callbacks : sr_callbacks (x_search x') = sr_callbacks (x_search x);
  pg_done : sr_done (x_search x') = sr_done (x_search x);
  pg_todo : (todo x' < todo x)%nat;
  pg_solicited : solicited x' <= solicited x + 1;
}.

Lemma can_expired x q n p : node_expired (x_world x) p = true -> sn_node n = p -> can x q n = false.
Proof. intros He <-. unfold can. by rewrite canGet_eq, He. Qed.

Lemma queries_lt k x q : ready k x -> q ∈ queries_of x -> (q < x_qry x)%positive.
Proof.
  intros Hx. unfold queries_of. pose proof (rd_cbs _ _ Hx) as H. pose proof (rd_queries _ _ Hx). destruct (sr_callbacks (x_search x)) as [|e l] eqn:E.
  - intros ->%list_elem_of_singleton. unfold ANY_QUERY. lia.
  - intros Hin. apply list_elem_of_In, in_map_iff in Hin as (e' & <- & Hin). rewrite Forall_forall in H. by apply H, list_elem_of_In.
Qed.

Lemma direct_step a i q n k x : ready (S k) x -> sr_nodes (x_search x) !! i = Some n -> q ∈ queries_of x -> can x q n = true ->
  isSatisfiedBy (qd x q) (qd x q) = true ->
  exists x', send_get false now a i q x = Ret x' /\ ready k x' /\ progress x x'.
Proof using NetSendLaws0.
  intros Hx Hn Hq Hcan Hrefl. pose proof (queries_lt _ _ _ Hx Hq) as Hlt.
  destruct (send_get_step a i q n k x Hx Hn Hlt) as (x' & Hs & Hx' & [Hcb Hdone [Hqry Hmap] (n' & Hn' & Hnode & Hcase) Hoth]).
  exists x'. split; [done|]. split; [done|].
  assert (same_queries x x') as Hsq by (intros q1 _; unfold qd; by rewrite Hmap).
  pose proof (Forall_lookup_1 _ _ _ _ (rd_nodes _ _ Hx) Hn) as (_ & Hw1 & Hw2 & _).
  assert ((forall q1, (q1 < x_qry x)%positive -> can x' q1 n' = true -> can x q1 n = true) /\ can x' q n' = false) as [Hmono Hno].
  { destruct Hcase as [He|(r & -> & Hr & He & Hreq)].
    - split; [intros q1 _|]; by rewrite (can_expired x' _ n' _ He Hnode).
    - assert (forall q1, (q1 < x_qry x)%positive -> can x' q1 (set_status q (Some r) n) = canGet (qd x) (x_world x') now (up_time true q1 x) q1 (set_status q (Some r) n)) as Ecan.
      { intros q1 Hq1. unfold can. rewrite (up_time_same x x' q1 Hsq Hcb Hq1 (rd_cbs _ _ Hx)). apply (canGet_same x x'); [done|done|].
        intros [kk v] [[-> _]|[_ Hin]]%pm_elem_set; [done| |done]. by apply (Forall_lookup_1 _ _ _ _ (rd_keys _ _ Hx) Hn). }
      split.
      + intros q1 Hq1. rewrite Ecan by done. apply sent_can_less; done.
      + rewrite Ecan by done. rewrite canGet_eq, pending_set by done. cbn [negb andb orb].
        assert (existsb (hit (qd x) (x_world x') (up_time true q x) q) (sn_getStatus (set_status q (Some r) n)) = true) as ->; [|by rewrite andb_false_r].
        apply existsb_elem. exists (q, Some r). split; [apply pm_elem_set; [done|by left]|]. unfold hit. cbn [fst snd]. by rewrite Hrefl, Hr. }
  destruct (step_measures i n n' q x x' (S k) Hx Hn Hn' Hcb Hsq Hoth Hmono Hq Hcan Hno). by split.
Qed.

(** The state [paginate] sends its query from. *)
Lemma paginate_ready i q n k x x1 : ready k x -> sr_nodes (x_search x) !! i = Some n ->
  new_query (mkQuery (select_field F_Id []) (q_where (qd x q)) false) x = (x_qry x, x1) ->
  ready k (on_node_at i (push_query q (x_qry x)) x1) /\ same_queries x (on_node_at i (push_query q (x_qry x)) x1) /\
  sr_nodes (x_search (on_node_at i (push_query q (x_qry x)) x1)) = <[i := push_query q (x_qry x) n]> (sr_nodes (x_search x)) /\
  x_qry (on_node_at i (push_query q (x_qry x)) x1) = Pos.succ (x_qry x) /\ x_world (on_node_at i (push_query q (x_qry x)) x1) = x_world x.
Proof.
  intros Hx Hn [= <-].
  assert (same_queries x (x_set_queries (Pos.succ (x_qry x)) (<[x_qry x := mkQuery (select_field F_Id []) (q_where (qd x q)) false]> (x_queries x)) x)) as Hsq.
  { intros q1 Hq1. unfold qd. cbn [x_queries x_set_queries]. rewrite lookup_insert_ne by lia. done. }
  pose proof Hx as [R1 R2 R3 R4 R5 R6 R7 R8]. pose proof (Forall_lookup_1 _ _ _ _ R3 Hn) as (Hp & Hw1 & Hw2 & Hr).
  unfold on_node_at. cbn. rewrite (alter_insert _ i _ n Hn). split; [|split_and!; try done].
  split; cbn.
  - done.
  - unfold getNodes. cbn. by rewrite (getNodes_insert i n).
  - apply Forall_insert; [done|]. split_and!; cbn; [done|done| |done]. by apply (om_set_wf Pos.ltb (fun _ => True)).
  - done.
  - lia.
  - apply Forall_insert; [|cbn; intros e He; pose proof (Forall_lookup_1 _ _ _ _ R6 Hn e He); cbn in *; lia].
    eapply Forall_impl; [exact R6|]. cbn. intros m Hm e He. specialize (Hm e He). lia.
  - eapply Forall_impl; [exact R7|]. cbn. intros e He. lia.
  - rewrite Forall_forall in R8 |- *. intros e He. rewrite Forall_forall in R7. pose proof (Hsq _ (R7 e He)) as Hq. unfold qd in Hq |- *. cbn in Hq |- *. rewrite Hq. by apply R8.
Qed.

Lemma paginate_step i q n k x : ready (S k) x -> sr_nodes (x_search x) !! i = Some n -> q ∈ queries_of x -> can x q n = true ->
  exists x', paginate false now i q x = Ret x' /\ ready k x' /\ progress x x'.
Proof using NetSendLaws0.
  intros Hx Hn Hq Hcan. pose proof (queries_lt _ _ _ Hx Hq) as Hlt. unfold paginate.
  destruct (new_query (mkQuery (select_field F_Id []) (q_where (qd x q)) false) x) as [sq x1] eqn:Enew. assert (sq = x_qry x) as -> by (by injection Enew).
  destruct (paginate_ready i q n (S k) x x1 Hx Hn Enew) as (Hx2 & Hsq2 & Hn2 & Hqry2 & Hw2).
  assert (sr_callbacks (x_search (on_node_at i (push_query q (x_qry x)) x1)) = sr_callbacks (x_search x) /\ sr_done (x_search (on_node_at i (push_query q (x_qry x)) x1)) = sr_done (x_search x)) as [Hcb2 Hd2]
    by (injection Enew as <-; done).
  set (x2 := on_node_at i (push_query q (x_qry x)) x1) in *. set (n2 := push_query q (x_qry x) n) in *.
  assert (sr_nodes (x_search x2) !! i = Some n2) as Hi2 by (rewrite Hn2; apply list_lookup_insert_eq; by eapply lookup_lt_Some).
  destruct (send_get_step (AGetValues (sr_id (x_search x)) (x_qry x)) i (x_qry x) n2 k x2 Hx2 Hi2) as (x' & Hs & Hx' & [Hcb Hdone [Hqry Hmap] (n' & Hn' & Hnode & Hcase) Hoth]); [lia|].
  exists x'. split; [done|]. split; [done|]. rewrite Hw2 in Hcase, Hoth.
  assert (same_queries x x') as Hsq by (intros q1 Hq1; rewrite <- (Hsq2 q1 Hq1); unfold qd; by rewrite Hmap).
  pose proof (Forall_lookup_1 _ _ _ _ (rd_nodes _ _ Hx) Hn) as (_ & Hg1 & Hg2 & _).
  assert ((forall q1, (q1 < x_qry x)%positive -> can x' q1 n' = true -> can x q1 n = true) /\ can x' q n' = false) as [Hmono Hno].
  { destruct Hcase as [He|(r & -> & Hr & He & Hreq)].
    - split; [intros q1 _|]; by rewrite (can_expired x' _ n' _ He Hnode).
    - assert (forall q1, (q1 < x_qry x)%positive -> up_time true q1 x' = up_time true q1 x) as Eup.
      { intros q1 Hq1. apply up_time_same; [done|congruence|done|exact (rd_cbs _ _ Hx)]. }
      split.
      + intros q1 Hq1 H. unfold can in H |- *. rewrite Eup in H by done.
        rewrite <- (canGet_same x x' (x_world x) (up_time true q1 x) q1 n Hsq Hq1 (Forall_lookup_1 _ _ _ _ (rd_keys _ _ Hx) Hn)).
        eapply (sent_can_less (qd x') (x_world x) (x_world x') (up_time true q1 x) q1 (x_qry x) r n n2); try done. by apply started_push.
      + unfold can. rewrite canGet_eq, pending_set by done. pose proof (started_now n q (x_qry x) r Hg2 Hg1) as Hst. fold n2 in Hst. rewrite Hst. cbn [negb andb orb]. by rewrite orb_true_r, andb_false_r. }
  destruct (step_measures i n n' q x x' (S k) Hx Hn) as [? ?]; try done.
  - rewrite Hn', Hn2. by rewrite list_insert_insert_eq.
  - congruence.
  - intros j m Hj Hm. apply (Hoth j m Hj). rewrite Hn2. by rewrite list_lookup_insert_ne.
  - split; [congruence|congruence|done|done].
Qed.


(** ** The loop *)

Lemma first_can_get_spec x up q l i :
  match first_can_get now x up q l i with
  | Some j => exists n, (i <= j)%nat /\ l !! (j - i)%nat = Some n /\ canGet (qd x) (x_world x) now up q n = true
  | None => Forall (fun n => canGet (qd x) (x_world x) now up q n = false) l
  end.
Proof.
  revert i. induction l as [|n l IH]; intros i; cbn [first_can_get]; [constructor|].
  destruct (canGet (qd x) (x_world x) now up q n) eqn:E; [exists n; split; [done|]; by rewrite Nat.sub_diag|].
  specialize (IH (S i)). destruct (first_can_get _ _ _ _ l (S i)) as [j|]; [|by constructor].
  destruct IH as (m & Hle & Hm & Hc). exists m. split; [lia|]. split; [|done]. by replace (j - i)%nat with (S (j - S i)) by lia.
Qed.

Lemma choose_spec x q :
  match choose_node now None true q x with
  | Some j => exists n, sr_nodes (x_search x) !! j = Some n /\ can x q n = true
  | None => Forall (fun n => can x q n = false) (sr_nodes (x_search x))
  end.
Proof.
  unfold choose_node. pose proof (first_can_get_spec x (up_time true q x) q (sr_nodes (x_search x)) 0) as H.
  destruct (first_can_get _ _ _ _ _ _) as [j|]; [|done]. destruct H as (n & _ & Hn & Hc). rewrite Nat.sub_0_r in Hn. by exists n.
Qed.

(** Nothing left to send. *)
Definition idle (x : Stepper) : Prop := Forall (fun n => forall q, q ∈ queries_of x -> can x q n = false) (sr_nodes (x_search x)).

Lemma can_todo x q n : q ∈ queries_of x -> n ∈ sr_nodes (x_search x) -> can x q n = true -> (0 < todo x)%nat.
Proof.
  intros Hq Hn Hc. unfold todo. apply list_elem_of_split in Hn as (l1 & l2 & ->). rewrite sum_list_with_app. cbn.
  assert (0 < todo_at x n)%nat; [|lia]. unfold todo_at. apply list_elem_of_split in Hq as (a & b & ->).
  rewrite List.filter_app, length_app. cbn. rewrite Hc. cbn. lia.
Qed.

Lemma send_first_step k x qs : ready k x -> (todo x <= k)%nat -> (forall q, q ∈ qs -> q ∈ queries_of x /\ isSatisfiedBy (qd x q) (qd x q) = true) ->
  (send_first false now None true qs x = Ret (None, x) /\ Forall (fun q => Forall (fun n => can x q n = false) (sr_nodes (x_search x))) qs) \/
  exists i x' k', k = S k' /\ send_first false now None true qs x = Ret (Some i, x') /\ ready k' x' /\ progress x x'.
Proof using NetSendLaws0.
  intros Hx Hk. induction qs as [|q qs IH]; intros Hqs; [left; split; [done|constructor]|]. cbn [send_first].
  pose proof (choose_spec x q) as Hch. destruct (choose_node now None true q x) as [i|].
  - right. destruct Hch as (n & Hn & Hc). destruct (Hqs q ltac:(by left)) as [Hq Hrefl].
    pose proof (can_todo x q n Hq ltac:(by eapply list_elem_of_lookup_2) Hc). destruct k as [|k']; [lia|].
    assert (exists x', (match q_select (qd x q) with [] => paginate false now i q x | _ => send_get false now (AGetValues (sr_id (x_search x)) q) i q x end) = Ret x' /\ ready k' x' /\ progress x x') as (x' & -> & H1 & H2).
    { destruct (q_select (qd x q)); [by eapply paginate_step|by eapply direct_step]. }
    by exists i, x', k'.
  - destruct (IH ltac:(intros; apply Hqs; by right)) as [[-> Hf]|H]; [left; split; [done|by constructor]|by right].
Qed.

Lemma send_step k x : ready k x -> (todo x <= k)%nat ->
  (searchSendGetValues false now None true x = Ret (None, x) /\ (sr_done (x_search x) = true \/ MAX_REQUESTED_SEARCH_NODES <= solicited x \/ idle x)) \/
  exists i x' k', k = S k' /\ searchSendGetValues false now None true x = Ret (Some i, x') /\ ready k' x' /\ progress x x'.
Proof using NetSendLaws0.
  intros Hx Hk. unfold searchSendGetValues. fold (solicited x). destruct (sr_done (x_search x)); [left; by auto|]. cbn [orb].
  destruct (Z.leb_spec MAX_REQUESTED_SEARCH_NODES (solicited x)); [left; by auto|].
  destruct (sr_callbacks (x_search x)) as [|e l] eqn:Ecb.
  - assert (ANY_QUERY ∈ queries_of x) as Hq by (unfold queries_of; rewrite Ecb; by left).
    pose proof (choose_spec x ANY_QUERY) as Hch. destruct (choose_node now None true ANY_QUERY x) as [i|].
    + right. destruct Hch as (n & Hn & Hc). pose proof (can_todo x _ n Hq ltac:(by eapply list_elem_of_lookup_2) Hc). destruct k as [|k']; [lia|].
      destruct (direct_step (AFindNode (sr_id (x_search x))) i ANY_QUERY n k' x Hx Hn Hq Hc eq_refl) as (x' & -> & H1 & H2). by exists i, x', k'.
    + left. split; [done|]. right. right. eapply Forall_impl; [exact Hch|]. intros n Hn q. unfold queries_of. rewrite Ecb. by intros ->%list_elem_of_singleton.
  - assert (forall q, q ∈ map (fun e => g_query e.2) (e :: l) <-> q ∈ queries_of x) as Hqs by (intros q; unfold queries_of; by rewrite Ecb).
    destruct (send_first_step k x (map (fun e => g_query e.2) (e :: l)) Hx Hk) as [[-> Hf]|H1]; [|left|by right].
    + intros q Hq. split; [by apply Hqs|]. apply list_elem_of_In, in_map_iff in Hq as (e' & <- & Hin). rewrite <- Ecb in Hin.
      pose proof (rd_refl _ _ Hx) as Hr. rewrite Forall_forall in Hr. apply (Hr e'). by apply list_elem_of_In.
    + split; [done|]. right. right. apply Forall_forall. intros n Hn q Hq%Hqs. rewrite Forall_forall in Hf. specialize (Hf q Hq). rewrite Forall_forall in Hf. by apply Hf.
Qed.

(** C5. The sending loop of a search step ends: with as much fuel as there are pairs of a
    node and a query that can be asked of it, it returns; it solicits at most four nodes
    at a time; and it stops because the search is done, or four nodes are solicited, or no
    node can be asked anything (nodes that cannot be reached expire on the way). *)
Theorem send_loop_ends x fuel : ready (todo x) x -> (todo x < fuel)%nat ->
  exists x', send_loop false now fuel x = Some (Ret x') /\
    currentlySolicitedNodeCount (x_world x') (x_search x') <= Z.max 4 (currentlySolicitedNodeCount (x_world x) (x_search x)) /\
    (sr_done (x_search x') = true \/ 4 <= currentlySolicitedNodeCount (x_world x') (x_search x') \/ idle x').
Proof using NetSendLaws0.
  fold (solicited x). enough (forall k, ready k x -> (todo x <= k)%nat -> (todo x < fuel)%nat -> exists x', send_loop false now fuel x = Some (Ret x') /\
    solicited x' <= Z.max 4 (solicited x) /\ (sr_done (x_search x') = true \/ 4 <= solicited x' \/ idle x')) as H by (intros; by eapply H).
  revert x. induction fuel as [|fuel IH]; intros x k Hx Hk Hf; [lia|]. cbn [send_loop]. fold (solicited x).
  destruct (Z.ltb_spec (solicited x) MAX_REQUESTED_SEARCH_NODES) as [Hlt|Hge]; [|exists x; split_and!; [done|lia|by right; left]].
  destruct (send_step k x Hx Hk) as [[-> Hend]|(i & x' & k' & -> & -> & Hx' & [Hcb Hd Ht Hs])].
  - exists x. split_and!; [done|lia|]. destruct Hend as [?|[?|?]]; auto.
  - destruct (IH x' k' Hx' ltac:(lia) ltac:(lia)) as (x'' & -> & Hs' & Hend). exists x''. split_and!; [done| |done].
    unfold MAX_REQUESTED_SEARCH_NODES in Hlt. lia.
Qed.

End SendLoop.

(** ** The engine behind the interface

    What [NetworkEngine::sendRequest] and [requestStep] do to the shared nodes and
    requests (NetworkEngine has all of them): the request is numbered and registered with
    its node; when the socket reports that the node cannot be reached, the node expires. *)
Section NodeSend.
Context (reached : ptr -> bool).

Definition asked_type (a : asked) : MessageType :=
  match a with
  | AFindNode _ => MT_FindNode | AGetValues _ _ => MT_GetValues | AListen _ _ _ _ => MT_Listen
  | AAnnounce _ _ _ _ => MT_AnnounceValue | ARefresh _ _ _ => MT_Refresh
  end.

Definition node_send (a : asked) (p r : ptr) (w : World) : outcome World :=
  match w_nodes w !! p with
  | None => Undef "dangling node"
  | Some n =>
      let '(tid, n1) := getNewTid n in
      let q := Request_make (asked_type a) tid p [] (Some 0%nat) None (Some 0%nat) in
      w1 ← requested p r (w_upd_req r q [] (w_upd_node p n1 w));
      if reached r then Ret w1 else setExpired p w1
  end.

(** No transaction id comes back before [k] more requests. *)
Definition node_ready (k : nat) (w : World) : Prop := forall p n, w_nodes w !! p = Some n ->
  0 <= n_transaction_id n /\ n_transaction_id n + 2 * Z.of_nat k < 2 ^ 32 - 1 /\
  Forall (fun e => e.1 <= n_transaction_id n /\
    exists q, w_reqs w !! e.2 = Some q /\ rq_node q = p /\ (rq_pending q = true -> is_Some (rq_on_expired q))) (n_requests n).

#[global] Instance node_net : NetSend := {| net_send := node_send; net_ready := node_ready |}.

Lemma w_req_setExpired_other p w w' : w_req_setExpired p w = Ret w' -> w_nodes w' = w_nodes w /\
  (forall r, r <> p -> w_reqs w' !! r = w_reqs w !! r) /\ (forall r, rq_node <$> w_reqs w' !! r = rq_node <$> w_reqs w !! r).
Proof.
  unfold w_req_setExpired. destruct (w_reqs w !! p) as [q|] eqn:E; [|done]. unfold rq_setExpired. intros H.
  assert (exists q' evs, w' = w_upd_req p q' evs w /\ rq_node q' = rq_node q) as (q' & evs & -> & Hq).
  { destruct (rq_pending q); [destruct (rq_on_expired q)|]; cbn in H; simplify_eq; by eexists _, _. }
  split_and!; [done|intros r Hr; cbn; by rewrite lookup_insert_ne|]. intros r. cbn. destruct (decide (r = p)) as [->|]; [rewrite lookup_insert_eq, E; cbn; by f_equal|by rewrite lookup_insert_ne].
Qed.

Lemma w_reqs_setExpired_other l w w' : w_reqs_setExpired l w = Ret w' -> w_nodes w' = w_nodes w /\
  (forall r, Forall (fun e => e.2 <> r) l -> w_reqs w' !! r = w_reqs w !! r) /\ (forall r, rq_node <$> w_reqs w' !! r = rq_node <$> w_reqs w !! r).
Proof.
  revert w. induction l as [|[t p] l IH]; intros w H; cbn [w_reqs_setExpired] in H; [by simplify_eq|].
  apply outcome_bind_Ret in H as (w1 & E & H). apply w_req_setExpired_other in E as (En & Er & Eq). apply IH in H as (Hn & Hr & Hq).
  split_and!; [congruence| |intros r; by rewrite Hq, Eq]. intros r Hl. inversion_clear Hl as [|? ? Hp Hl']. rewrite Hr by done. apply Er. by intros ->.
Qed.


Lemma u32_small z : 0 <= z < 2 ^ 32 -> u32 z = z.
Proof. intros H. unfold u32, wrap. by rewrite Z.mod_small. Qed.

(** The world once a request is registered. *)
Definition registered (a : asked) (p r : ptr) (n : Node) (w : World) : World :=
  let tid := n_transaction_id n + 2 in
  mkWorld (<[p := n_set_requests (n_requests n ++ [(tid, r)]) (n_set_tid tid n)]> (w_nodes w))
    (<[r := Request_make (asked_type a) tid p [] (Some 0%nat) None (Some 0%nat)]> (w_reqs w)) (w_log w).

Lemma node_send_registered a p r n k w : node_ready (S k) w -> w_nodes w !! p = Some n -> w_reqs w !! r = None ->
  node_send a p r w = (if reached r then Ret (registered a p r n w) else setExpired p (registered a p r n w)).
Proof.
  intros Hw Hn Hr. destruct (Hw p n Hn) as (H0 & Hk & Hreqs). unfold node_send. rewrite Hn.
  assert (getNewTid n = (n_transaction_id n + 2, n_set_tid (n_transaction_id n + 2) n)) as ->.
  { unfold getNewTid. rewrite (u32_small (n_transaction_id n + 1)) by lia. rewrite (proj2 (Z.eqb_neq _ _)) by lia. rewrite u32_small by lia.
    by replace (n_transaction_id n + 1 + 1) with (n_transaction_id n + 2) by lia. }
  unfold requested. cbn [w_nodes w_reqs w_upd_req w_upd_node]. rewrite !lookup_insert_eq. cbn [rq_tid Request_make n_requests n_set_tid].
  assert (Forall (fun e => e.1 < n_transaction_id n + 2) (n_requests n)) as Hlt by (eapply Forall_impl; [exact Hreqs|]; intros e [He _]; lia).
  rewrite (zm_find_last _ _ Hlt), (zm_set_last _ _ _ Hlt). unfold registered, w_upd_node, w_upd_req. cbn. rewrite insert_insert_eq, app_nil_r. done.
Qed.

Lemma registered_ready a p r n k w : node_ready (S k) w -> w_nodes w !! p = Some n -> w_reqs w !! r = None -> node_ready k (registered a p r n w).
Proof.
  intros Hw Hn Hr p' n' Hp'. unfold registered in Hp'. cbn in Hp'.
  assert (forall p1 n1 b, w_nodes w !! p1 = Some n1 -> n_transaction_id n1 <= b ->
    Forall (fun e => e.1 <= b /\ exists q, w_reqs (registered a p r n w) !! e.2 = Some q /\ rq_node q = p1 /\ (rq_pending q = true -> is_Some (rq_on_expired q))) (n_requests n1)) as Hold.
  { intros p1 n1 b H1 Hb. destruct (Hw p1 n1 H1) as (_ & _ & Hreqs). eapply Forall_impl; [exact Hreqs|]. intros e (He & q & Hq & ?). split; [lia|].
    exists q. split; [|done]. cbn. rewrite lookup_insert_ne; [done|]. intros Heq. rewrite <- Heq in Hq. congruence. }
  destruct (decide (p' = p)) as [->|Hne].
  - rewrite lookup_insert_eq in Hp'. simplify_eq. destruct (Hw p n Hn) as (H0 & Hk & _). cbn [n_transaction_id n_set_requests n_set_tid n_requests].
    split_and!; [lia|lia|]. apply Forall_app. split; [apply Hold; [done|lia]|]. apply Forall_singleton. cbn. split; [lia|].
    eexists. rewrite lookup_insert_eq. split; [done|]. split; [done|]. intros _. by eexists.
  - rewrite lookup_insert_ne in Hp' by done. destruct (Hw p' n' Hp') as (H0 & Hk & _). split_and!; [lia|lia|]. by apply Hold.
Qed.

Lemma registered_sent a p r n w : w_nodes w !! p = Some n -> sent p r w (registered a p r n w).
Proof.
  intros Hn. split.
  - eexists. cbn. rewrite lookup_insert_eq. by split_and!.
  - intros r' Hr'. cbn. by rewrite lookup_insert_ne.
  - intros p'. unfold node_expired. cbn. destruct (decide (p' = p)) as [->|]; [by rewrite lookup_insert_eq, Hn|by rewrite lookup_insert_ne].
Qed.

(** Expiring the node of a request that is registered. *)
Lemma expire_unreached p r k w0 w n : node_ready k w -> w_nodes w !! p = Some n -> (exists t, (t, r) ∈ n_requests n) -> sent p r w0 w ->
  exists w', setExpired p w = Ret w' /\ node_ready k w' /\ (forall p', is_Some (w_nodes w !! p') -> is_Some (w_nodes w' !! p')) /\ unreached p r w0 w'.
Proof.
  intros Hw Hn [t Hin] [(q & Hq & Hqp & _) Hreqs Hexp]. unfold setExpired. rewrite Hn. set (n1 := n_set_times (n_time n) (n_reply_time n) true n).
  destruct (Hw p n Hn) as (H0 & Hk & Hl).
  destruct (w_reqs_setExpired_ok (n_requests n) (w_upd_node p n1 w)) as (w1 & E & Hn1 & Hlist & _).
  { eapply Forall_impl; [exact Hl|]. intros e (_ & q0 & Hq0 & _ & Hcb). cbn. by rewrite Hq0. }
  rewrite E. destruct (w_reqs_setExpired_other _ _ _ E) as (_ & Hother & Hnode). cbn [w_reqs w_upd_node] in Hother, Hnode.
  assert (forall r', (forall q', w_reqs w !! r' = Some q' -> rq_node q' <> p) -> w_reqs w1 !! r' = w_reqs w !! r') as Hkeep.
  { intros r' Hr'. apply Hother. eapply Forall_impl; [exact Hl|]. intros e (_ & q0 & Hq0 & Hq0p & _) <-. by apply (Hr' q0). }
  eexists. split; [done|]. split_and!.
  - intros p' n' Hp'. cbn in Hp'. rewrite Hn1 in Hp'. cbn in Hp'. rewrite insert_insert_eq in Hp'. destruct (decide (p' = p)) as [->|Hne].
    + rewrite lookup_insert_eq in Hp'. simplify_eq. cbn. split_and!; [done|done|constructor].
    + rewrite lookup_insert_ne in Hp' by done. destruct (Hw p' n' Hp') as (H0' & Hk' & Hl'). split_and!; [done|done|].
      eapply Forall_impl; [exact Hl'|]. intros e (He & q0 & Hq0 & Hq0p & Hcb). split; [done|]. exists q0. split; [|done]. cbn. rewrite Hkeep; [done|]. intros q' Hq'. congruence.
  - intros p' Hp'. cbn. rewrite Hn1. cbn. rewrite insert_insert_eq. destruct (decide (p' = p)) as [->|]; [by rewrite lookup_insert_eq|by rewrite lookup_insert_ne].
  - split; cbn [w_reqs w_upd_node].
    + pose proof (Hnode r) as H. rewrite Hq in H. cbn in H. destruct (w_reqs w1 !! r) as [q'|] eqn:E'; [|done]. exists q'. cbn in H. split_and!; [done|congruence|].
      specialize (Hlist _ Hin). unfold req_is_pending in Hlist. cbn in Hlist. by rewrite E' in Hlist.
    + intros r' Hr' Hnp. rewrite Hkeep; [by apply Hreqs|]. intros q' Hq'. apply Hnp. by rewrite <- (Hreqs r' Hr').
    + intros r'. rewrite Hnode. case_bool_decide as Hr'; [subst r'; rewrite Hq; cbn; by f_equal|by rewrite Hreqs].
    + unfold node_expired. cbn. by rewrite lookup_insert_eq.
    + intros p' Hp'. rewrite <- Hexp. unfold node_expired. cbn. rewrite lookup_insert_ne, Hn1 by done. cbn. by rewrite lookup_insert_ne.
Qed.

#[global] Instance node_net_laws : NetSendLaws node_net.
Proof.
  split.
  - intros a p r k w Hw [n Hn] Hr. cbn [net_send net_ready node_net] in *. rewrite (node_send_registered a p r n k w Hw Hn Hr).
    pose proof (registered_ready a p r n k w Hw Hn Hr) as Hk. pose proof (registered_sent a p r n w Hn) as Hs.
    assert (forall p', is_Some (w_nodes w !! p') -> is_Some (w_nodes (registered a p r n w) !! p')) as Hkeep.
    { intros p' Hp'. cbn. destruct (decide (p' = p)) as [->|]; [by rewrite lookup_insert_eq|by rewrite lookup_insert_ne]. }
    destruct (reached r); [eexists; split_and!; [done|done|done|by left]|].
    destruct (expire_unreached p r k w (registered a p r n w) (n_set_requests (n_requests n ++ [(n_transaction_id n + 2, r)]) (n_set_tid (n_transaction_id n + 2) n))) as (w' & -> & Hk' & Hkeep' & Hun);
      [done|cbn; by rewrite lookup_insert_eq|exists (n_transaction_id n + 2); cbn; apply elem_of_app; right; by left|done|].
    exists w'. split_and!; [done|done|auto|by right].
  - intros k w p n s Hw Hn. intros p' n' Hp'. cbn in Hp'. destruct (decide (p' = p)) as [->|Hne].
    + rewrite lookup_insert_eq in Hp'. simplify_eq. pose proof (Hw p n Hn) as H. unfold closeSocket. by destruct (s =? 0).
    + rewrite lookup_insert_ne in Hp' by done. by apply Hw.
Qed.
End NodeSend.

Module StepDemo.
#[local] Existing Instance GnutlsDemo.demo.
Import SearchDemo.

(** Two nodes, the second of which cannot be reached. *)
Definition nodes : list (ptr * Node) := [(1%positive, node_at 1 false); (2%positive, node_at 2 false)].
Definition world2 : World := mkWorld (list_to_map nodes) ∅ [].
Definition reached (r : ptr) : bool := bool_decide (r <> 101%positive).
Definition get_all : Get := mkGet 0 None 3%positive None (Some 7%nat) (Some 8%nat).
Definition search2 : Search :=
  sr_set_callbacks [(0, get_all)] (sr_set_nodes [SearchNode_make 1%positive; SearchNode_make 2%positive] (sr_set_id (hash_at 0) (sr_set_af 2 Search_make))).
Definition start : Stepper := mkStepper search2 world2 100%positive 4%positive 1%positive {[3%positive := mkQuery [] [] false]} [].

Lemma start_ready k : Z.of_nat k < 100 -> ready (N := node_net reached) k start.
Proof.
  intros Hk. split.
  - intros p n Hn. apply elem_of_list_to_map_2 in Hn. cbn. assert (n_transaction_id n = 1 /\ n_requests n = []) as [-> ->].
    { cbn in Hn. apply elem_of_cons in Hn as [[= -> ->]|[[= -> ->]|Hn%not_elem_of_nil]%elem_of_cons]; done. }
    split_and!; [lia|lia|constructor].
  - by_compute.
  - repeat constructor; cbn; try (eexists; vm_compute; reflexivity); intros; by apply not_elem_of_nil in H.
  - intros r _. reflexivity.
  - reflexivity.
  - repeat constructor; cbn; intros e He; by apply not_elem_of_nil in He.
  - repeat constructor.
  - repeat constructor.
Qed.

(** The step asks both nodes for the ids of their values; the second expires. *)
Example two_sends :
  match send_loop (N := node_net reached) false (minutes 20) 3 start with
  | Some (Ret x) => map (fun n => (node_expired (x_world x) (sn_node n), pendingGet (x_world x) n)) (sr_nodes (x_search x)) = [(false, true); (true, false)]
  | _ => False
  end.
Proof. vm_compute. reflexivity. Qed.

(** When the left side of the assignment is evaluated first, the failed request erases the
    element that is then assigned. *)
Lemma assignment_to_erased : send_loop (N := node_net reached) true (minutes 20) 3 start = Some (Undef "assignment to an erased element").
Proof. vm_compute. reflexivity. Qed.
End StepDemo.

Lemma send_loop_ends_witness : exists x', send_loop (G := GnutlsDemo.demo) (N := node_net StepDemo.reached) false (minutes 20) 3 StepDemo.start = Some (Ret x') /\
  currentlySolicitedNodeCount (x_world x') (x_search x') <= 4.
Proof.
  destruct (send_loop_ends (G := GnutlsDemo.demo) (N := node_net StepDemo.reached) (minutes 20) StepDemo.start 3) as (x' & H1 & H2 & _).
  - apply StepDemo.start_ready. by_compute.
  - apply Nat.ltb_lt. vm_compute. reflexivity.
  - exists x'. split; [exact H1|]. etransitivity; [exact H2|]. by_compute.
Defined.
