(* ===== verification/RateLimiter.v ===== *)
(** * RateLimiter: the sliding-window limiter of incoming requests

    Models src/opendht-2.1.4/include/opendht/rate_limiter.h.  The queue of
    [time_point]s is a list, its front first; a time point is a number of
    nanoseconds.  [window_allows] is what the class promises, stated on the
    complete history of the calls it accepted. *)
From S2P Require Import Prelude.

(** The members of the class. *)
Record RateLimiter := mkRateLimiter {
  rl_quota : Z;
  rl_period : Z;
  rl_records : list Z;
}.

(** [std::numeric_limits<size_t>::max()]. *)
Definition SIZE_MAX : Z := 2 ^ 64 - 1.

Definition rl_set_records (rs : list Z) (l : RateLimiter) : RateLimiter :=
  mkRateLimiter (rl_quota l) (rl_period l) rs.

(** The loop of [maintain]: pop the front while it is older than the limit. *)
Fixpoint pop_outdated (limit : Z) (records : list Z) : list Z :=
  match records with
  | [] => []
  | r :: rs => if r <? limit then pop_outdated limit rs else records
  end.

(** [maintain]. *)
Definition rl_maintain (now : Z) (l : RateLimiter) : Z * RateLimiter :=
  let rs := pop_outdated (now - rl_period l) (rl_records l) in
  (Z.of_nat (length rs), rl_set_records rs l).

(** [limit]. *)
Definition rl_limit (now : Z) (l : RateLimiter) : bool * RateLimiter :=
  if rl_quota l =? SIZE_MAX then (true, l)
  else
    let '(usage, l1) := rl_maintain now l in
    if rl_quota l <=? usage then (false, l1)
    else (true, rl_set_records (rl_records l1 ++ [now]) l1).

(** [empty]. *)
Definition rl_empty (l : RateLimiter) : bool :=
  match rl_records l with [] => true | _ => false end.

(** A sequence of calls of [limit], with the answers. *)
Fixpoint rl_calls (nows : list Z) (l : RateLimiter) : list bool * RateLimiter :=
  match nows with
  | [] => ([], l)
  | t :: ts =>
      let '(b, l1) := rl_limit t l in
      let '(bs, l2) := rl_calls ts l1 in (b :: bs, l2)
  end.

(** ** The specification

    A call at [now] is allowed when fewer than [quota] accepted calls happened in
    the last [period]. *)

Definition recent (quota_start : Z) (hist : list Z) : list Z :=
  List.filter (fun t => quota_start <=? t) hist.

Definition window_allows (quota period : Z) (hist : list Z) (now : Z) : bool :=
  Z.of_nat (length (recent (now - period) hist)) <? quota.

Fixpoint window_calls (quota period : Z) (hist nows : list Z) : list bool :=
  match nows with
  | [] => []
  | t :: ts =>
      if window_allows quota period hist t
      then true :: window_calls quota period (hist ++ [t]) ts
      else false :: window_calls quota period hist ts
  end.

(** The times of the calls that were answered [true]. *)
Fixpoint accepted (nows : list Z) (bs : list bool) : list Z :=
  match nows, bs with
  | t :: ts, b :: bs' => if b then t :: accepted ts bs' else accepted ts bs'
  | _, _ => []
  end.

(** The times of a list that lie in a closed interval. *)
Definition within (a b : Z) (l : list Z) : list Z :=
  List.filter (fun t => (a <=? t) && (t <=? b)) l.

Abbreviation nondecreasing := (StronglySorted Z.le).

Lemma pop_outdated_filter limit rs : nondecreasing rs -> pop_outdated limit rs = recent limit rs.
Proof.
  induction 1 as [|r rs Hs IH Hall]; [done|]. simpl. unfold recent in *. simpl.
  rewrite Z.leb_antisym. destruct (Z.ltb_spec r limit) as [|Hge]; simpl; [done|]. f_equal.
  clear IH Hs. induction Hall as [|x l Hx Hl IHl]; [done|]. simpl.
  rewrite <- IHl. by destruct (Z.leb_spec limit x); [|lia].
Qed.

Lemma recent_recent a b hist : a <= b -> recent b (recent a hist) = recent b hist.
Proof.
  intros Hab. unfold recent. induction hist as [|t l IH]; [done|]. simpl.
  destruct (Z.leb_spec a t); simpl; rewrite IH; [done|].
  by destruct (Z.leb_spec b t); [lia|].
Qed.

Lemma recent_app a l1 l2 : recent a (l1 ++ l2) = recent a l1 ++ recent a l2.
Proof. apply List.filter_app. Qed.

Lemma recent_sorted a l : nondecreasing l -> nondecreasing (recent a l).
Proof.
  unfold recent. induction 1 as [|x l Hs IH Hall]; simpl; [constructor|].
  case_match; [|done]. constructor; [done|]. rewrite Forall_forall in Hall |- *.
  intros y Hy%list_elem_of_In%List.filter_In. apply Hall. apply list_elem_of_In, Hy.
Qed.

Lemma nondecreasing_snoc l t : nondecreasing l -> Forall (fun x => x <= t) l -> nondecreasing (l ++ [t]).
Proof.
  induction 1 as [|x l Hs IH Hall]; inversion_clear 1; simpl; [by repeat constructor|].
  constructor; [by apply IH|]. apply Forall_app. auto.
Qed.

(** The queue holds the recent part of the history: what [limit] keeps between
    two calls. *)
Definition tracks (hist : list Z) (last : Z) (l : RateLimiter) : Prop :=
  0 <= rl_period l /\ rl_records l = recent (last - rl_period l) hist /\
  nondecreasing hist /\ Forall (fun x => x <= last) hist.

Lemma limit_tracks hist last now l :
  tracks hist last l -> last <= now -> rl_quota l <> SIZE_MAX ->
  exists l', rl_limit now l = (window_allows (rl_quota l) (rl_period l) hist now, l') /\
    rl_quota l' = rl_quota l /\ rl_period l' = rl_period l /\
    tracks (if window_allows (rl_quota l) (rl_period l) hist now then hist ++ [now] else hist) now l'.
Proof.
  intros (Hp0 & Hr & Hs & Hl) Hnow Hq. unfold rl_limit, rl_maintain, window_allows.
  destruct (Z.eqb_spec (rl_quota l) SIZE_MAX); [done|].
  assert (Hp : pop_outdated (now - rl_period l) (rl_records l) = recent (now - rl_period l) hist).
  { rewrite Hr, pop_outdated_filter by by apply recent_sorted. apply recent_recent. lia. }
  rewrite Hp, Z.leb_antisym.
  assert (Forall (fun x => x <= now) hist) by (eapply Forall_impl; [exact Hl|]; simpl; lia).
  destruct (Z.ltb_spec (Z.of_nat (length (recent (now - rl_period l) hist))) (rl_quota l)); cbn [negb];
    eexists; (split; [reflexivity|]); unfold tracks; simpl; split_and!; try done.
  - rewrite recent_app. f_equal. unfold recent. simpl.
    by destruct (Z.leb_spec (now - rl_period l) now); [|lia].
  - by apply nondecreasing_snoc.
  - apply Forall_app; split; [done|]. constructor; [lia|constructor].
Qed.

Lemma calls_track hist last nows l :
  tracks hist last l -> Forall (Z.le last) nows -> nondecreasing nows -> rl_quota l <> SIZE_MAX ->
  (rl_calls nows l).1 = window_calls (rl_quota l) (rl_period l) hist nows.
Proof.
  intros Ht Hlast Hs. revert hist last l Ht Hlast.
  induction Hs as [|t ts Hs IH Hall]; intros hist last l Ht Hlast Hq; [done|].
  inversion_clear Hlast as [|? ? Hle _]. cbn [rl_calls window_calls].
  destruct (limit_tracks hist last t l Ht Hle Hq) as (l' & -> & HQ & HP & Ht').
  specialize (IH _ t l' Ht' Hall ltac:(by rewrite HQ)). rewrite HQ, HP in IH.
  destruct (rl_calls ts l') as [bs l2]. simpl in *. rewrite IH. by case_match.
Qed.

(** A history in which no window of one period holds more than [quota] calls
    stays so when an allowed call is added. *)
Definition bounded (quota period : Z) (hist : list Z) : Prop :=
  forall a, Z.of_nat (length (within a (a + period) hist)) <= quota.

Lemma within_app a b l1 l2 : within a b (l1 ++ l2) = within a b l1 ++ within a b l2.
Proof. apply List.filter_app. Qed.

Lemma within_recent a b c l : c <= a -> (length (within a b l) <= length (recent c l))%nat.
Proof.
  intros Hc. unfold within, recent. induction l as [|t l IH]; [done|]. simpl.
  destruct (Z.leb_spec a t); simpl; [|case_match; simpl; lia].
  destruct (Z.leb_spec c t); [|lia]. case_match; simpl; lia.
Qed.

Lemma window_allows_bounded quota period hist now :
  bounded quota period hist -> window_allows quota period hist now = true ->
  bounded quota period (hist ++ [now]).
Proof.
  intros Hb Hw a. unfold window_allows in Hw. apply Z.ltb_lt in Hw.
  rewrite within_app, length_app. specialize (Hb a). unfold within at 2. simpl.
  destruct ((a <=? now) && (now <=? a + period)) eqn:E; simpl; [|lia]. zb.
  pose proof (within_recent a (a + period) (now - period) hist ltac:(lia)). lia.
Qed.

Lemma window_calls_bounded quota period nows hist :
  bounded quota period hist ->
  bounded quota period (hist ++ accepted nows (window_calls quota period hist nows)).
Proof.
  revert hist. induction nows as [|t ts IH]; intros hist Hb; simpl; [by rewrite app_nil_r|].
  destruct (window_allows quota period hist t) eqn:E; [|by apply IH].
  specialize (IH (hist ++ [t])). rewrite <- app_assoc in IH. apply IH.
  by apply window_allows_bounded.
Qed.

(** A fresh limiter, as the constructor makes it. *)
Definition RateLimiter_make (quota period : Z) : RateLimiter := mkRateLimiter quota period [].

Lemma fresh_tracks quota period t : 0 <= period -> tracks [] t (RateLimiter_make quota period).
Proof. by repeat constructor. Qed.

Lemma limiter_answers quota period nows :
  0 <= period -> quota <> SIZE_MAX -> nondecreasing nows ->
  (rl_calls nows (RateLimiter_make quota period)).1 = window_calls quota period [] nows.
Proof.
  intros Hp Hq Hs. destruct nows as [|t ts]; [done|].
  apply (calls_track [] t (t :: ts)); [by apply fresh_tracks| |done|done].
  inversion_clear Hs. by constructor.
Qed.

(** C39. On calls made at nondecreasing times, a limiter answers exactly as the
    sliding-window specification on the whole history of accepted calls does (it
    forgets nothing that matters and refuses nothing else), and so no interval
    of one period ever contains more than [quota] accepted calls. *)
Theorem limiter_refines_window quota period nows :
  0 <= period -> 0 <= quota < SIZE_MAX -> nondecreasing nows ->
  (rl_calls nows (RateLimiter_make quota period)).1 = window_calls quota period [] nows /\
  forall a, Z.of_nat (length (within a (a + period)
              (accepted nows (rl_calls nows (RateLimiter_make quota period)).1))) <= quota.
Proof.
  intros Hp Hq Hs. rewrite limiter_answers by (done || lia). split; [done|].
  apply (window_calls_bounded quota period nows []). intros a. simpl. lia.
Qed.

Lemma limiter_refines_window_witness :
  (rl_calls [0; 1; 5; 10; 11; 12] (RateLimiter_make 2 10)).1 = [true; true; false; false; true; true] /\
  window_calls 2 10 [] [0; 1; 5; 10; 11; 12] = [true; true; false; false; true; true].
Proof.
  split; [reflexivity|].
  rewrite <- (proj1 (limiter_refines_window 2 10 [0; 1; 5; 10; 11; 12]
    ltac:(lia) ltac:(unfold SIZE_MAX; lia) ltac:(repeat constructor; lia))).
  reflexivity.
Defined.
