(* ===== verification/NetworkEngine.v ===== *)
(** * NetworkEngine: requests, answers and incoming messages

    Models the state of the class [NetworkEngine] of
    src/opendht-2.1.4/include/opendht/network_engine.h and its operations in
    src/network_engine.cpp.  The state is a record; an operation is a computation of a
    monad that keeps the state when an exception is thrown.  The callbacks that Dht
    gives the engine are the interface [Handlers]: they act on a state of their own and on
    the shared nodes and requests.  The socket, the random draws and the reading of the
    scheduler's clock are parameters; timers are recorded in the log, with the packets
    that were sent and the callbacks that were run.  Log messages are left out. *)
From S2P Require Import Prelude StdMap InfoHash SockAddr Node NodeCache MsgPack Value Query Message Wire NodeInfo RateLimiter.

(** [struct NetworkConfig]. *)
Record NetworkConfig := mkConfig {
  nc_network : Z;
  nc_max_req_per_sec : Z;
  nc_max_peer_req_per_sec : Z;
}.

Definition UDP_REPLY_TIME : Z := seconds 15.
Definition RX_MAX_PACKET_TIME : Z := seconds 10.
Definition RX_TIMEOUT : Z := seconds 3.

(** Codes of [DhtProtocolException]. *)
Definition UNAUTHORIZED : Z := 401.
Definition NOT_FOUND : Z := 404.

Record ProtocolException := mkProto { pe_code : Z; pe_msg : bytes }.

(** What [send] returns: the error numbers the engine tells apart. *)
Inductive errno := E_OK | ENETUNREACH | EHOSTUNREACH | EAFNOSUPPORT | EPIPE | EPERM | EAGAIN | E_OTHER.

(** The errors after which a node is given up. *)
Definition unreachable (e : errno) : bool :=
  match e with ENETUNREACH | EHOSTUNREACH | EAFNOSUPPORT | EPIPE | EPERM => true | _ => false end.

(** [struct MessageStats]. *)
Record MessageStats := mkStats {
  st_ping : Z; st_find : Z; st_get : Z; st_put : Z; st_listen : Z; st_refresh : Z; st_updateValue : Z;
}.
Definition no_stats : MessageStats := mkStats 0 0 0 0 0 0 0.

(** [++] of the counter of a message. *)
Definition count (t : MessageType) (s : MessageStats) : MessageStats :=
  match s with mkStats p f g u l r v =>
    match t with
    | MT_Ping => mkStats (u32 (p + 1)) f g u l r v
    | MT_FindNode => mkStats p (u32 (f + 1)) g u l r v
    | MT_GetValues => mkStats p f (u32 (g + 1)) u l r v
    | MT_AnnounceValue => mkStats p f g (u32 (u + 1)) l r v
    | MT_Listen => mkStats p f g u (u32 (l + 1)) r v
    | MT_Refresh => mkStats p f g u l (u32 (r + 1)) v
    | MT_UpdateValue => mkStats p f g u l r (u32 (v + 1))
    | _ => s
    end
  end.

(** Assignments to members of a request. *)
Ltac rq_with m f v :=
  let t := with_member mkRequest m f v
    (rq_node, (rq_reply_time, (rq_tid, (rq_type, (rq_state, (rq_attempt_count, (rq_attempt_duration, (rq_start,
    (rq_last_try, (rq_on_done, (rq_on_error, (rq_on_expired, (rq_msg, (rq_parts, tt)))))))))))))) in exact t.
Definition rq_set_node (x : ptr) (r : Request) : Request := ltac:(rq_with r rq_node x).
Definition rq_set_reply_time (x : Z) (r : Request) : Request := ltac:(rq_with r rq_reply_time x).
Definition rq_set_attempt_count (x : Z) (r : Request) : Request := ltac:(rq_with r rq_attempt_count x).
Definition rq_set_attempt_duration (x : Z) (r : Request) : Request := ltac:(rq_with r rq_attempt_duration x).
Definition rq_set_start (x : Z) (r : Request) : Request := ltac:(rq_with r rq_start x).
Definition rq_set_last_try (x : Z) (r : Request) : Request := ltac:(rq_with r rq_last_try x).
Definition rq_set_parts (x : list bytes) (r : Request) : Request := ltac:(rq_with r rq_parts x).

Section Interface.
Context {G : Gnutls}.

(** [struct RequestAnswer], as the handlers fill it. *)
Record RequestAnswer := mkAnswer {
  an_ntoken : bytes;
  an_values : list Value;
  an_nodes4 : list ptr;
  an_nodes6 : list ptr;
}.

Abbreviation query_t := (list Z * list FieldValue)%type.

(** The callbacks of the engine.  A handler of requests may raise a
    [DhtProtocolException]; [on_error_result] is the result of the error callback of a
    request. *)
Class Handlers := {
  client : Type;
  onNewNode : ptr -> Z -> client -> World -> outcome (client * World);
  onReportedAddr : Hash -> SockAddr -> client -> World -> outcome (client * World);
  onError : ptr -> Z -> client -> World -> outcome (client * World);
  onReceive : nat -> ptr -> ParsedMessage -> list ptr -> list ptr -> client -> World -> outcome (client * World);
  on_error_result : nat -> client -> bool;
  onPing : ptr -> client -> World -> outcome (client * World * (RequestAnswer + ProtocolException));
  onFindNode : ptr -> Hash -> Z -> client -> World -> outcome (client * World * (RequestAnswer + ProtocolException));
  onGetValues : ptr -> Hash -> Z -> query_t -> client -> World -> outcome (client * World * (RequestAnswer + ProtocolException));
  onListen : ptr -> Hash -> bytes -> Tid -> query_t -> Z -> client -> World ->
    outcome (client * World * (RequestAnswer + ProtocolException));
  onAnnounce : ptr -> Hash -> bytes -> list Value -> Z -> client -> World ->
    outcome (client * World * (RequestAnswer + ProtocolException));
  onRefresh : ptr -> Hash -> bytes -> Z -> client -> World -> outcome (client * World * (RequestAnswer + ProtocolException));
}.

(** Jobs given to the scheduler. *)
Inductive job := JStep (req : ptr) | JMaintain (tid : Tid).

(** What the engine does to the outside, in order. *)
Inductive output :=
| OSent (addr : SockAddr) (data : bytes) (confirmed : bool)
| OTimer (at_ : Z) (j : job)
| ONewNode (node : ptr) (confirm : Z)
| OReported (id : Hash) (addr : SockAddr)
| OReceive (socket : nat) (node : ptr) (m : ParsedMessage) (nodes4 nodes6 : list ptr)
| OReply (req : ptr) (m : ParsedMessage) (nodes4 nodes6 : list ptr)
| OError (req : ptr) (code : Z).

(** [struct PartialMessage]. *)
Record PartialMessage := mkPartial {
  pa_from : SockAddr;
  pa_start : Z;
  pa_last_part : Z;
  pa_msg : ParsedMessage;
}.
End Interface.

Section Engine.
Context {G : Gnutls} {H : Handlers} (AF_INET6 : Z) (myid : Hash) (config : NetworkConfig).
(** What the constructor of a node and [InfoHash::getRandom] draw, the socket, and the
    readings of the clocks that [to_time_t] and [from_time_t] make. *)
Context (draw_tid : ptr -> Tid) (draw_hash : ptr -> Hash).
Context (sendTo : list output -> SockAddr -> bytes -> bool -> errno).
Context (sys_now steady_now : Z).

(** The members of the class that change; [e_fresh] is the next pointer that
    [make_shared] gives. *)
Record Engine := mkEngine {
  e_world : World;
  e_fresh : ptr;
  e_cache : NodeCache;
  e_address_rate_limiter : list (SockAddr * RateLimiter);
  e_rate_limiter : RateLimiter;
  e_limiter_maintenance : Z;
  e_requests : list (Tid * ptr);
  e_partial_messages : list (Tid * PartialMessage);
  e_in_stats : MessageStats;
  e_out_stats : MessageStats;
  e_blacklist : list (SockAddr * unit);
  e_client : client;
  e_log : list output;
}.

Ltac e_with m f v :=
  let t := with_member mkEngine m f v
    (e_world, (e_fresh, (e_cache, (e_address_rate_limiter, (e_rate_limiter, (e_limiter_maintenance, (e_requests,
    (e_partial_messages, (e_in_stats, (e_out_stats, (e_blacklist, (e_client, (e_log, tt))))))))))))) in exact t.
Definition e_set_world (x : World) (e : Engine) : Engine := ltac:(e_with e e_world x).
Definition e_set_fresh (x : ptr) (e : Engine) : Engine := ltac:(e_with e e_fresh x).
Definition e_set_cache (x : NodeCache) (e : Engine) : Engine := ltac:(e_with e e_cache x).
Definition e_set_limiters (x : list (SockAddr * RateLimiter)) (e : Engine) : Engine := ltac:(e_with e e_address_rate_limiter x).
Definition e_set_limiter (x : RateLimiter) (e : Engine) : Engine := ltac:(e_with e e_rate_limiter x).
Definition e_set_maintenance (x : Z) (e : Engine) : Engine := ltac:(e_with e e_limiter_maintenance x).
Definition e_set_requests (x : list (Tid * ptr)) (e : Engine) : Engine := ltac:(e_with e e_requests x).
Definition e_set_partial (x : list (Tid * PartialMessage)) (e : Engine) : Engine := ltac:(e_with e e_partial_messages x).
Definition e_set_in_stats (x : MessageStats) (e : Engine) : Engine := ltac:(e_with e e_in_stats x).
Definition e_set_out_stats (x : MessageStats) (e : Engine) : Engine := ltac:(e_with e e_out_stats x).
Definition e_set_blacklist (x : list (SockAddr * unit)) (e : Engine) : Engine := ltac:(e_with e e_blacklist x).
Definition e_set_client (x : client) (e : Engine) : Engine := ltac:(e_with e e_client x).
Definition e_set_log (x : list output) (e : Engine) : Engine := ltac:(e_with e e_log x).

(** ** The monad *)

Definition M (A : Type) : Type := Engine -> outcome A * Engine.

#[global] Instance M_ret : MRet M := fun A a e => (Ret a, e).
#[global] Instance M_bind : MBind M := fun A B f m e =>
  match m e with
  | (Ret a, e') => f a e'
  | (Throw s, e') => (Throw s, e')
  | (Undef s, e') => (Undef s, e')
  | (Terminate s, e') => (Terminate s, e')
  end.

Definition lift {A} (o : outcome A) : M A := fun e => (o, e).
Definition gets {A} (f : Engine -> A) : M A := fun e => (Ret (f e), e).
Definition modify (f : Engine -> Engine) : M unit := fun e => (Ret tt, f e).
Definition emit (o : output) : M unit := modify (fun e => e_set_log (e_log e ++ [o]) e).
Definition when (b : bool) (m : M unit) : M unit := if b then m else mret tt.

(** An operation on the shared nodes and requests. *)
Definition on_world (f : World -> outcome World) : M unit := fun e =>
  match f (e_world e) with
  | Ret w => (Ret tt, e_set_world w e)
  | Throw s => (Throw s, e)
  | Undef s => (Undef s, e)
  | Terminate s => (Terminate s, e)
  end.

(** A callback. *)
Definition call {A} (f : client -> World -> outcome (client * World * A)) : M A := fun e =>
  match f (e_client e) (e_world e) with
  | Ret (c, w, a) => (Ret a, e_set_client c (e_set_world w e))
  | Throw s => (Throw s, e)
  | Undef s => (Undef s, e)
  | Terminate s => (Terminate s, e)
  end.

Definition notify (f : client -> World -> outcome (client * World)) : M unit :=
  call (fun c w => '(c', w') ← f c w; Ret (c', w', tt)).

(** Dereferences. *)
Definition the_node (p : ptr) : M Node := fun e =>
  match w_nodes (e_world e) !! p with Some n => (Ret n, e) | None => (Undef "dangling node", e) end.
Definition the_req (r : ptr) : M Request := fun e =>
  match w_reqs (e_world e) !! r with Some q => (Ret q, e) | None => (Undef "dangling request", e) end.
Definition put_node (p : ptr) (n : Node) : M unit := modify (fun e => e_set_world (w_upd_node p n (e_world e)) e).
Definition put_req (r : ptr) (q : Request) (evs : list event) : M unit :=
  modify (fun e => e_set_world (w_upd_req r q evs (e_world e)) e).

(** ** Sending *)

(** [send]. *)
Definition send (addr : SockAddr) (data : bytes) (confirmed : bool) : M errno := fun e =>
  (Ret (sendTo (e_log e) addr data confirmed), e_set_log (e_log e ++ [OSent addr data confirmed]) e).

Definition send_ (addr : SockAddr) (data : bytes) : M unit := _ ← send addr data false; mret tt.

Fixpoint send_all (addr : SockAddr) (packets : list bytes) : M unit :=
  match packets with
  | [] => mret tt
  | d :: packets' => send_ addr d;; send_all addr packets'
  end.

Definition send_parts (tid : Tid) (parts : list bytes) (addr : SockAddr) : M unit :=
  send_all addr (sendValueParts (nc_network config) tid parts).

(** [sendPong] and [sendListenConfirmation]. *)
Definition sendPong (addr : SockAddr) (tid : Tid) : M unit := send_ addr (pong_bytes myid (nc_network config) addr tid).

(** [sendValueAnnounced]. *)
Definition sendValueAnnounced (addr : SockAddr) (tid : Tid) (vid : Z) : M unit :=
  send_ addr (announced_bytes myid (nc_network config) addr vid tid).

(** [sendError]. *)
Definition sendError (addr : SockAddr) (tid : Tid) (e : ProtocolException) (include_id : bool) : M unit :=
  send_ addr (error_bytes myid (nc_network config) (pe_code e) (pe_msg e) include_id tid).

(** [sendNodesValues]. *)
Definition sendNodesValues (addr : SockAddr) (tid : Tid) (nodes : bytes * bytes) (st : list Value) (select : list Z)
    (token : bytes) : M unit :=
  '(b, parts) ← lift (nodes_values_bytes myid (nc_network config) addr nodes.1 nodes.2 st select token tid);
  send_ addr b;;
  match parts with [] => mret tt | _ => send_parts tid parts addr end.

(** ** Requests *)

(** [requestStep]; [jitter] is what [uniform_duration_distribution] draws. *)
Definition expire_request (p : ptr) (tid : Tid) : M unit :=
  on_world (setExpired p);;
  n ← the_node p;
  when (negb (op_bool HASH_LEN (n_id n))) (modify (fun e => e_set_requests (om_erase Z.ltb tid (e_requests e)) e)).

Definition requestStep (now jitter : Z) (r : ptr) : M unit :=
  q ← the_req r;
  if negb (rq_pending q) then mret tt
  else
    let p := rq_node q in
    if rq_isExpired now q then expire_request p (rq_tid q)
    else
      when (rq_attempt_count q =? 1)
        (match rq_on_expired q with
         | Some cb => put_req r q [EvExpired cb (rq_tid q) false]
         | None => lift (Throw "bad_function_call")
         end);;
      n ← the_node p;
      err ← send (n_addr n) (rq_msg q) (n_reply_time n <? now - UDP_REPLY_TIME);
      if unreachable err then expire_request p (rq_tid q)
      else
        let q1 := rq_set_last_try now q in
        q2 ← match err with
             | EAGAIN => mret q1
             | _ =>
                 let q2 := rq_set_attempt_duration (rq_attempt_duration q1 + (rq_attempt_duration q1 + jitter))
                             (rq_set_attempt_count (u32 (rq_attempt_count q1 + 1)) q1) in
                 match rq_parts q2 with [] => mret q2 | parts => send_parts (rq_tid q2) parts (n_addr n);; mret q2 end
             end;
        put_req r q2 [];;
        emit (OTimer (rq_last_try q2 + rq_attempt_duration q2) (JStep r)).

(** [sendRequest]. *)
Definition sendRequest (now jitter : Z) (r : ptr) : M unit :=
  q ← the_req r;
  n ← the_node (rq_node q);
  when (negb (op_bool HASH_LEN (n_id n)))
    (modify (fun e => e_set_requests (om_emplace Z.ltb (rq_tid q) r (e_requests e)).1 e));;
  put_req r (rq_set_start now q) [];;
  on_world (requested (rq_node q) r);;
  requestStep now jitter r.

(** What the requests share: pack the request under a new transaction id, make the
    request object and send it.  The callbacks are function objects of the engine
    around those of the caller; only a refresh has one for errors. *)
Definition make_request (now jitter : Z) (o : outgoing) (p : ptr) (on_done on_error on_expired : option nat) : M ptr :=
  n ← the_node p;
  let '(tid, n') := getNewTid n in
  put_node p n';;
  '(b, parts) ← lift (request_packet AF_INET6 myid (nc_network config) sys_now steady_now o tid);
  r ← gets e_fresh;
  modify (fun e => e_set_fresh (Pos.succ (e_fresh e)) e);;
  put_req r (rq_set_parts parts (Request_make (request_type o) tid p b on_done on_error on_expired)) [];;
  sendRequest now jitter r;;
  modify (fun e => e_set_out_stats (count (request_type o) (e_out_stats e)) e);;
  mret r.

Definition sendPing (now jitter : Z) (p : ptr) (on_done on_expired : nat) : M ptr :=
  make_request now jitter OutPing p (Some on_done) None (Some on_expired).

Definition sendFindNode (now jitter : Z) (p : ptr) (target : Hash) (want : Z) (on_done on_expired : nat) : M ptr :=
  make_request now jitter (OutFind target want) p (Some on_done) None (Some on_expired).

Definition sendGetValues (now jitter : Z) (p : ptr) (info_hash : Hash) (query : Query) (want : Z) (on_done on_expired : nat) : M ptr :=
  make_request now jitter (OutGet info_hash query want) p (Some on_done) None (Some on_expired).

Definition sendListen (now jitter : Z) (p : ptr) (hash : Hash) (query : Query) (token : bytes) (socketId : Tid)
    (on_done on_expired : nat) : M ptr :=
  make_request now jitter (OutListen hash query token socketId) p (Some on_done) None (Some on_expired).

Definition sendAnnounceValue (now jitter : Z) (p : ptr) (infohash : Hash) (value : Value) (created : Z) (token : bytes)
    (on_done on_expired : nat) : M ptr :=
  make_request now jitter (OutAnnounce infohash value created now token) p (Some on_done) None (Some on_expired).

Definition sendUpdateValues (now jitter : Z) (p : ptr) (infohash : Hash) (values : list Value) (created : Z) (token : bytes)
    (sid : Tid) (on_done on_expired : nat) : M ptr :=
  make_request now jitter (OutUpdate infohash values created now token sid) p (Some on_done) None (Some on_expired).

Definition sendRefreshValue (now jitter : Z) (p : ptr) (infohash : Hash) (vid : Z) (token : bytes)
    (on_done on_error on_expired : nat) : M ptr :=
  make_request now jitter (OutRefresh infohash vid token) p (Some on_done) (Some on_error) (Some on_expired).

(** [clear]. *)
Fixpoint clear_requests (l : list (Tid * ptr)) : M unit :=
  match l with
  | [] => mret tt
  | (_, r) :: l' =>
      q ← the_req r;
      put_req r (rq_cancel q) [];;
      on_world (setExpired (rq_node q));;
      clear_requests l'
  end.

Definition clear : M unit :=
  l ← gets e_requests; clear_requests l;; modify (e_set_requests []).

(** ** Limits *)

(** [rateLimit]: maintenance of the limiters of addresses, then the limiter of the
    address and the global one. *)
Fixpoint maintain_limiters (now : Z) (l : list (SockAddr * RateLimiter)) : list (SockAddr * RateLimiter) :=
  match l with
  | [] => []
  | (a, rl) :: l' =>
      let '(usage, rl') := rl_maintain now rl in
      if usage =? 0 then maintain_limiters now l' else (a, rl') :: maintain_limiters now l'
  end.

Definition rateLimit (now : Z) (addr : SockAddr) : M bool := fun e =>
  let k := e_limiter_maintenance e in
  let e1 :=
    if k =? nc_max_peer_req_per_sec config
    then e_set_maintenance 0 (e_set_limiters (maintain_limiters now (e_address_rate_limiter e)) e)
    else e_set_maintenance (k + 1) e in
  let '(peer_ok, e2) :=
    if nc_max_peer_req_per_sec config <? 0 then (true, e1)
    else
      let l := e_address_rate_limiter e1 in
      let rl := match om_find (ipCmp AF_INET6) addr l with
                | Some rl => rl
                | None => RateLimiter_make (nc_max_peer_req_per_sec config) (seconds 1)
                end in
      let '(ok, rl') := rl_limit now rl in
      (ok, e_set_limiters (om_set (ipCmp AF_INET6) addr rl' l) e1) in
  if peer_ok then
    let '(ok, gl) := rl_limit now (e_rate_limiter e2) in (Ret ok, e_set_limiter gl e2)
  else (Ret false, e2).

(** [blacklistNode] and [isNodeBlacklisted]. *)
Definition blacklistNode (p : ptr) : M unit :=
  on_world (setExpired p);;
  n ← the_node p;
  modify (fun e => e_set_blacklist (om_emplace addr_lt (n_addr n) tt (e_blacklist e)).1 e).

Definition isNodeBlacklisted (addr : SockAddr) (e : Engine) : bool :=
  match om_find addr_lt addr (e_blacklist e) with Some _ => true | None => false end.

(** ** Nodes *)

(** [cache.getNode]. *)
Definition get_node (id : Hash) (addr : SockAddr) (now : Z) (confirm cl : bool) : M ptr := fun e =>
  let p := e_fresh e in
  match cache_getNode_addr p (draw_tid p) (draw_hash p) id addr now confirm cl (e_cache e) (e_world e) with
  | Ret (q, c, w) => (Ret q, e_set_fresh (Pos.succ p) (e_set_cache c (e_set_world w e)))
  | Throw s => (Throw s, e)
  | Undef s => (Undef s, e)
  | Terminate s => (Terminate s, e)
  end.

Definition new_node (p : ptr) (confirm : Z) : M unit := emit (ONewNode p confirm);; notify (onNewNode p confirm).

(** [insertNode]. *)
Definition insertNode (now : Z) (id : Hash) (addr : SockAddr) : M ptr :=
  p ← get_node id addr now false false; new_node p 0;; mret p.

(** [connectivityChanged]. *)
Definition connectivityChanged (af : Z) : M unit :=
  modify (fun e => let '(c, w) := clearBadNodes AF_INET6 af (e_cache e) (e_world e) in e_set_cache c (e_set_world w e)).

(** [deserializeNodes]: the nodes of each family. *)
Fixpoint add_nodes (now af : Z) (from : SockAddr) (l : list (Hash * SockAddr)) : M (list ptr) :=
  match l with
  | [] => mret []
  | x :: l' =>
      bl ← gets e_blacklist;
      match accept_entry AF_INET6 myid af from bl x with
      | None => add_nodes now af from l'
      | Some (id, addr) =>
          p ← get_node id addr now false false;
          new_node p 0;;
          ps ← add_nodes now af from l';
          mret (p :: ps)
      end
  end.

Definition deserializeNodes (now : Z) (m : ParsedMessage) (from : SockAddr) : M (list ptr * list ptr) :=
  if negb ((length (pm_nodes4_raw m) mod NODE4_INFO_BUF_LEN =? 0)%nat &&
           (length (pm_nodes6_raw m) mod NODE6_INFO_BUF_LEN =? 0)%nat)
  then lift (Throw "DhtProtocolException: node info length is wrong")
  else
    n4 ← add_nodes now AF_INET from (entries4 AF_INET6 (pm_nodes4_raw m));
    n6 ← add_nodes now AF_INET6 from (entries6 AF_INET6 (pm_nodes6_raw m));
    mret (n4, n6).

(** The nodes an answer names. *)
Definition nodes_of (l : list ptr) : M (list Node) := gets (fun e => omap (fun p => w_nodes (e_world e) !! p) l).

Definition buffer_answer (af : Z) (id : Hash) (want : Z) (a : RequestAnswer) : M (bytes * bytes) :=
  n4 ← nodes_of (an_nodes4 a);
  n6 ← nodes_of (an_nodes6 a);
  mret (bufferNodes AF_INET6 af id want n4 n6).

(** ** Incoming messages *)

(** Data for a socket. *)
Definition on_receive (cb : nat) (p : ptr) (m : ParsedMessage) (n4 n6 : list ptr) : M unit :=
  emit (OReceive cb p m n4 n6);; notify (onReceive cb p m n4 n6).

Definition is_client (p : ptr) : M bool := n ← the_node p; mret (isClient n).

(** The branch of [process] for answers. *)
Definition is_auth_type (t : MessageType) : bool :=
  match t with MT_AnnounceValue | MT_Listen | MT_Refresh => true | _ => false end.

Definition error_applies (code : Z) (t : MessageType) : bool :=
  match t with
  | MT_Refresh => code =? NOT_FOUND
  | MT_AnnounceValue | MT_Listen => code =? UNAUTHORIZED
  | _ => false
  end.

Definition process_error (m : ParsedMessage) (req : option ptr) : M unit :=
  match req with
  | Some r =>
      q ← the_req r;
      if op_bool HASH_LEN (pm_id m) && error_applies (pm_error_code m) (rq_type q) then
        let q1 := rq_set_reply_time time_min (rq_set_last_try time_min q) in
        c ← gets e_client;
        let '(q2, evs, handled) := rq_setError (fun cb => on_error_result cb c) q1 in
        put_req r q2 evs;;
        when (negb handled) (emit (OError r (pm_error_code m));; notify (onError r (pm_error_code m)))
      else mret tt
  | None => mret tt
  end.

Definition process_reply (now : Z) (m : ParsedMessage) (from : SockAddr) (p : ptr) (req : option ptr) (rsocket : option nat) : M unit :=
  match req with
  | Some r =>
      q ← the_req r;
      when (is_auth_type (rq_type q)) (n ← the_node (rq_node q); put_node (rq_node q) (authSuccess n));;
      put_req r (rq_set_reply_time now q) [];;
      '(n4, n6) ← deserializeNodes now m from;
      q' ← the_req r;
      '(q2, evs) ← lift (rq_setDone q');
      emit (OReply r m n4 n6);;
      put_req r q2 evs
  | None =>
      '(n4, n6) ← deserializeNodes now m from;
      match rsocket with
      | Some cb => on_receive cb p m n4 n6
      | None => lift (Undef "null socket")
      end
  end.

(** The request a message answers, looked up among those of the node, then among those
    sent to a node whose identifier was not known: [None] when there is nothing. *)
Definition find_request (m : ParsedMessage) (p : ptr) : M (option (option ptr * option nat)) :=
  n ← the_node p;
  let rsocket := getSocket (pm_tid m) n in
  match getRequest (pm_tid m) n, rsocket with
  | None, None =>
      rs ← gets e_requests;
      match om_find Z.ltb (pm_tid m) rs with
      | Some r =>
          q ← the_req r;
          n' ← the_node (rq_node q);
          if negb (op_bool HASH_LEN (n_id n')) then
            put_req r (rq_set_node p q) [];;
            modify (fun e => e_set_requests (om_erase Z.ltb (pm_tid m) (e_requests e)) e);;
            mret (Some (Some r, None))
          else mret None
      | None => mret None
      end
  | req, _ => mret (Some (req, rsocket))
  end.

Definition process_answer (now : Z) (m : ParsedMessage) (from : SockAddr) (p : ptr) : M unit :=
  found ← find_request m p;
  match found with
  | None =>
      on_world (received now None p);;
      c ← is_client p;
      when (negb c) (new_node p 1)
  | Some (req, rsocket) =>
      on_world (received now req p);;
      c ← is_client p;
      when (negb c) (new_node p 2);;
      emit (OReported (pm_id m) (pm_addr m));;
      notify (onReportedAddr (pm_id m) (pm_addr m));;
      over ← match req with Some r => q ← the_req r; mret (rq_over q) | None => mret false end;
      if over : bool then mret tt
      else match pm_type m with
           | MT_Error => process_error m req
           | _ => process_reply now m from p req rsocket
           end
  end.

(** The answer of a handler, or the error it raised: the [try] block of [process]. *)
Definition answered {A} (h : client -> World -> outcome (client * World * (A + ProtocolException))) (from : SockAddr)
    (tid : Tid) (k : A -> M unit) : M unit :=
  r ← call h;
  match r with
  | inl a => k a
  | inr err => sendError from tid err true
  end.

Definition count_in (t : MessageType) : M unit := modify (fun e => e_set_in_stats (count t (e_in_stats e)) e).

Fixpoint announce_all (from : SockAddr) (tid : Tid) (vs : list Value) : M unit :=
  match vs with
  | [] => mret tt
  | v :: vs' => sendValueAnnounced from tid (v_id v);; announce_all from tid vs'
  end.

(** The branch of [process] for requests.  The nodes that the listen branch packs are
    not sent. *)
Definition process_request (now : Z) (m : ParsedMessage) (from : SockAddr) (p : ptr) : M unit :=
  on_world (received now None p);;
  c ← is_client p;
  when (negb c) (new_node p 1);;
  match pm_type m with
  | MT_Ping =>
      count_in MT_Ping;;
      answered (onPing p) from (pm_tid m) (fun _ => sendPong from (pm_tid m))
  | MT_FindNode =>
      count_in MT_FindNode;;
      answered (onFindNode p (pm_target m) (pm_want m)) from (pm_tid m) (fun a =>
        nn ← buffer_answer (getFamily from) (pm_target m) (pm_want m) a;
        sendNodesValues from (pm_tid m) nn [] [] (an_ntoken a))
  | MT_GetValues =>
      count_in MT_GetValues;;
      answered (onGetValues p (pm_info_hash m) (pm_want m) (pm_query m)) from (pm_tid m) (fun a =>
        nn ← buffer_answer (getFamily from) (pm_info_hash m) (pm_want m) a;
        sendNodesValues from (pm_tid m) nn (an_values a) (pm_query m).1 (an_ntoken a))
  | MT_AnnounceValue =>
      count_in MT_AnnounceValue;;
      answered (onAnnounce p (pm_info_hash m) (pm_token m) (pm_values m) (pm_created m)) from (pm_tid m) (fun _ =>
        announce_all from (pm_tid m) (pm_values m))
  | MT_Refresh =>
      answered (onRefresh p (pm_info_hash m) (pm_token m) (pm_value_id m)) from (pm_tid m) (fun _ =>
        sendValueAnnounced from (pm_tid m) (pm_value_id m))
  | MT_Listen =>
      count_in MT_Listen;;
      answered (onListen p (pm_info_hash m) (pm_token m) (pm_socket_id m) (pm_query m) (pm_version m)) from (pm_tid m)
        (fun _ => sendPong from (pm_tid m))
  | MT_UpdateValue =>
      count_in MT_UpdateValue;;
      n ← the_node p;
      match getSocket (pm_socket_id m) n with
      | Some cb => on_receive cb p m [] []
      | None => mret tt
      end;;
      sendPong from (pm_tid m)
  | _ => mret tt
  end.

(** [process]. *)
Definition process (now : Z) (m : ParsedMessage) (from : SockAddr) : M unit :=
  p ← get_node (pm_id m) from now true (pm_is_client m);
  match pm_type m with
  | MT_ValueUpdate =>
      n ← the_node p;
      match getSocket (pm_tid m) n with
      | None => lift (Throw "DhtProtocolException: Can't find socket")
      | Some cb =>
          on_world (received now None p);;
          new_node p 2;;
          '(n4, n6) ← deserializeNodes now m from;
          on_receive cb p m n4 n6
      end
  | MT_Error | MT_Reply => process_answer now m from p
  | _ => process_request now m from p
  end.

(** [maintainRxBuffer]. *)
Definition maintainRxBuffer (now : Z) (tid : Tid) : M unit := modify (fun e =>
  match om_find Z.ltb tid (e_partial_messages e) with
  | Some pm =>
      if (pa_start pm + RX_MAX_PACKET_TIME <? now) || (pa_last_part pm + RX_TIMEOUT <? now)
      then e_set_partial (om_erase Z.ltb tid (e_partial_messages e)) e else e
  | None => e
  end).

Definition set_partial (tid : Tid) (pm : PartialMessage) : M unit :=
  modify (fun e => e_set_partial (om_set Z.ltb tid pm (e_partial_messages e)) e).

(** The data of a value in parts.  When [process] throws, the entry stays. *)
Definition processPart (now : Z) (m : ParsedMessage) (from : SockAddr) : M unit :=
  pms ← gets e_partial_messages;
  match om_find Z.ltb (pm_tid m) pms with
  | None => _ ← rateLimit now from; mret tt
  | Some pm =>
      if negb (addr_equals (pa_from pm) from) then _ ← rateLimit now from; mret tt
      else
        let '(msg, added) := append m (pa_msg pm) in
        if negb added then mret tt
        else
          set_partial (pm_tid m) (mkPartial (pa_from pm) (pa_start pm) now msg);;
          '(msg', full) ← lift (complete msg);
          if full : bool then
            set_partial (pm_tid m) (mkPartial (pa_from pm) (pa_start pm) now msg');;
            process now msg' from;;
            modify (fun e => e_set_partial (om_erase Z.ltb (pm_tid m) (e_partial_messages e)) e)
          else emit (OTimer (now + RX_TIMEOUT) (JMaintain (pm_tid m)))
  end.

(** The requests, which are limited: the types above [Reply]. *)
Definition is_request (t : MessageType) : bool := match t with MT_Error | MT_Reply => false | _ => true end.

Definition startPartial (now : Z) (m : ParsedMessage) (from : SockAddr) : M unit :=
  pms ← gets e_partial_messages;
  match om_find Z.ltb (pm_tid m) pms with
  | None =>
      set_partial (pm_tid m) (mkPartial from now now m);;
      emit (OTimer (now + RX_MAX_PACKET_TIME) (JMaintain (pm_tid m)));;
      emit (OTimer (now + RX_TIMEOUT) (JMaintain (pm_tid m)))
  | Some _ => mret tt
  end.

(** [processMessage]; an exception of the parser is caught. *)
Definition processMessage (now : Z) (buf : bytes) (f : SockAddr) : M unit :=
  let from := getMappedIPv4 AF_INET6 f in
  if isMartian AF_INET6 from then mret tt
  else
    bl ← gets (isNodeBlacklisted from);
    if bl : bool then mret tt
    else
      parsed ← lift (caught (parse_message AF_INET6 sys_now steady_now buf));
      match parsed with
      | None => mret tt
      | Some m =>
          if negb (pm_network m =? nc_network config) then mret tt
          else match pm_type m with
          | MT_ValueData => processPart now m from
          | t =>
              if op_eq HASH_LEN (pm_id m) myid || negb (op_bool HASH_LEN (pm_id m)) then mret tt
              else
                ok ← (if is_request t then rateLimit now from else mret true);
                if negb ok then mret tt
                else match pm_value_parts m with
                     | [] => process now m from
                     | _ => startPartial now m from
                     end
          end
      end.

(** ** Listeners *)

(** [tellListenerRefreshed] and [tellListenerExpired]. *)
Definition tell_ids (key : bytes) (now jitter : Z) (p : ptr) (socket_id : Tid) (token : bytes) (values : list Z)
    (version : Z) (on_done on_expired : nat) : M unit :=
  n ← the_node p;
  if 1 <=? version then
    let '(tid, n') := getNewTid n in
    put_node p n';;
    r ← gets e_fresh;
    modify (fun e => e_set_fresh (Pos.succ (e_fresh e)) e);;
    put_req r (Request_make MT_UpdateValue tid p (tell_bytes myid (nc_network config) key socket_id token values version tid)
                 (Some on_done) None (Some on_expired)) [];;
    sendRequest now jitter r;;
    modify (fun e => e_set_out_stats (count MT_UpdateValue (e_out_stats e)) e)
  else send_ (n_addr n) (tell_bytes myid (nc_network config) key socket_id token values version 0).

Definition tellListenerRefreshed := tell_ids KEY_REQ_REFRESHED.
Definition tellListenerExpired := tell_ids KEY_REQ_EXPIRED.

(** [tellListener]. *)
Definition tellListener (now jitter : Z) (p : ptr) (socket_id : Tid) (hash : Hash) (want : Z) (ntoken : bytes)
    (nodes nodes6 : list ptr) (values : list Value) (select : list Z) (version : Z) (on_done on_expired : nat) : M unit :=
  n ← the_node p;
  nn ← buffer_answer (getFamily (n_addr n)) hash want (mkAnswer ntoken values nodes nodes6);
  if 1 <=? version then
    _ ← sendUpdateValues now jitter p hash values now ntoken socket_id on_done on_expired;
    mret tt
  else sendNodesValues (n_addr n) socket_id nn values select ntoken.

(** ** Packets that are dropped *)

Abbreviation parse := (parse_message AF_INET6 sys_now steady_now).

Lemma bind_Ret {A B} (m : M A) (f : A -> M B) e a e' : m e = (Ret a, e') -> (m ≫= f) e = f a e'.
Proof. intros E. unfold mbind, M_bind. by rewrite E. Qed.

Lemma gets_bind {A B} (g : Engine -> A) (f : A -> M B) e : (gets g ≫= f) e = f (g e) e.
Proof. done. Qed.

(** The limits change only the limiters. *)
Lemma rateLimit_frame now from e :
  exists ok l gl k, rateLimit now from e = (Ret ok, e_set_maintenance k (e_set_limiter gl (e_set_limiters l e))).
Proof.
  unfold rateLimit. set (e1 := if _ =? _ then _ else _).
  assert (exists l k, e1 = e_set_maintenance k (e_set_limiters l e)) as (l & k & ->).
  { unfold e1. destruct (_ =? _); [by eexists _, _|]. exists (e_address_rate_limiter e), (e_limiter_maintenance e + 1). by destruct e. }
  destruct (nc_max_peer_req_per_sec config <? 0).
  - destruct (rl_limit now _) as [ok gl]. by eexists _, _, _, _.
  - destruct (rl_limit now _) as [[] rl'].
    + destruct (rl_limit now _) as [ok gl]. by eexists _, _, _, _.
    + eexists _, _, (e_rate_limiter e), _. by destruct e.
Qed.

(** Packets that the engine must not act on leave it as it was: those from addresses
    that no peer can have, from blacklisted addresses, those that do not parse, of
    another network, and those that claim the engine's own identifier or none.  A
    request over the limits changes nothing but the limiters. *)
Theorem processMessage_drops now buf f e :
  let from := getMappedIPv4 AF_INET6 f in
  ((isMartian AF_INET6 from = true \/ isNodeBlacklisted from e = true \/
    (exists s, parse buf = Throw s) \/
    (exists m, parse buf = Ret m /\
       (pm_network m <> nc_network config \/
        pm_type m <> MT_ValueData /\ (op_eq HASH_LEN (pm_id m) myid = true \/ op_bool HASH_LEN (pm_id m) = false)))) ->
   processMessage now buf f e = (Ret tt, e)) /\
  (forall m, parse buf = Ret m -> is_request (pm_type m) = true -> pm_type m <> MT_ValueData ->
    (rateLimit now from e).1 = Ret false ->
    exists l gl k, processMessage now buf f e =
      (Ret tt, e_set_maintenance k (e_set_limiter gl (e_set_limiters l e))) \/
      processMessage now buf f e = (Ret tt, e)).
Proof.
  intros from. split.
  - intros Hd. unfold processMessage. fold from. destruct (isMartian AF_INET6 from) eqn:Em; [done|].
    rewrite gets_bind. destruct (isNodeBlacklisted from e) eqn:Eb; [done|].
    destruct Hd as [?|[?|[[s Hs]|(m & Hm & Hd)]]]; [done|done|by rewrite Hs|]. rewrite Hm.
    unfold lift, mbind, M_bind, caught. destruct (Z.eqb_spec (pm_network m) (nc_network config)); [|done]. cbn [negb].
    destruct Hd as [?|[Ht Hid]]; [done|].
    assert (op_eq HASH_LEN (pm_id m) myid || negb (op_bool HASH_LEN (pm_id m)) = true) as E
      by (destruct Hid as [-> | ->]; [done|by rewrite orb_true_r]).
    rewrite E. by destruct (pm_type m).
  - intros m Hm Hr Ht Hl. unfold processMessage. fold from. destruct (isMartian AF_INET6 from); [by exists [], (e_rate_limiter e), 0; right|].
    rewrite gets_bind. destruct (isNodeBlacklisted from e); [by exists [], (e_rate_limiter e), 0; right|].
    rewrite Hm. unfold lift, mbind, M_bind, caught.
    destruct (pm_network m =? nc_network config); [|by exists [], (e_rate_limiter e), 0; right]. cbn [negb].
    destruct (rateLimit_frame now from e) as (ok & l & gl & k & El). rewrite El in Hl. injection Hl as ->.
    exists l, gl, k. destruct (pm_type m) eqn:Et; try done; cbn [is_request];
      (destruct (op_eq HASH_LEN (pm_id m) myid || _); [by right|left; by rewrite El]).
Qed.
End Engine.
