(* ===== verification/Serving.v ===== *)
(** * Serving: incoming requests are answered

    What [NetworkEngine::process] does with a request, for handlers that behave as
    [HandlersLaws] says: one answer, or an error, goes back to the sender under the
    transaction id of the request, and the sender's parser reads it. *)
From S2P Require Import Prelude StdMap InfoHash SockAddr Node NodeCache MsgPack Value Query Message Wire Reply NodeInfo RateLimiter NetworkEngine.

(** The packets of a log. *)
Definition sent {G : Gnutls} (l : list output) : list (SockAddr * bytes) :=
  omap (fun o => match o with OSent a d _ => Some (a, d) | _ => None end) l.

Lemma sent_app {G : Gnutls} l1 l2 : sent (l1 ++ l2) = sent l1 ++ sent l2.
Proof. apply omap_app. Qed.

(** What the engine relies on: callbacks return, keep the nodes that are in use, and
    answer with data that fits the protocol. *)
Section Laws.
Context {G : Gnutls}.

Definition keeps (w w' : World) : Prop := forall p, is_Some (w_nodes w !! p) -> is_Some (w_nodes w' !! p).

Definition good_answer (a : RequestAnswer) (w : World) : Prop :=
  wf_blob (an_ntoken a) /\ Forall wf_fielded (an_values a) /\ Z.of_nat (length (an_values a)) < 2 ^ 28 /\
  Forall (fun p => forall n, w_nodes w !! p = Some n -> wf_hash HASH_LEN (n_id n) /\ wf_bytes (n_addr n))
    (an_nodes4 a ++ an_nodes6 a).

Definition good_result (r : RequestAnswer + ProtocolException) (w : World) : Prop :=
  match r with
  | inl a => good_answer a w
  | inr err => 0 <= pe_code err < 2 ^ 16 /\ wf_blob (pe_msg err)
  end.

Definition well_behaved {C} (h : C -> World -> outcome (C * World * (RequestAnswer + ProtocolException))) : Prop :=
  forall c w, exists c' w' r, h c w = Ret (c', w', r) /\ keeps w w' /\ good_result r w'.

Definition harmless {C} (h : C -> World -> outcome (C * World)) : Prop :=
  forall c w, exists c' w', h c w = Ret (c', w') /\ keeps w w'.

Class HandlersLaws (H : Handlers) : Prop := {
  law_new_node p k : harmless (onNewNode p k);
  law_receive cb p m n4 n6 : harmless (onReceive cb p m n4 n6);
  law_ping p : well_behaved (onPing p);
  law_find p h w : well_behaved (onFindNode p h w);
  law_get p h w q : well_behaved (onGetValues p h w q);
  law_listen p h t s q v : well_behaved (onListen p h t s q v);
  law_announce p h t vs c : well_behaved (onAnnounce p h t vs c);
  law_refresh p h t v : well_behaved (onRefresh p h t v);
}.
End Laws.

Section Serving.
Context {G : Gnutls} `{!GnutlsLaws G} {H : Handlers} `{!HandlersLaws H}.
Context (AF_INET6 : Z) (HAF6 : 2 < AF_INET6 < 256) (myid : Hash) (Hmyid : wf_hash HASH_LEN myid).
Context (config : NetworkConfig) (Hnet : 0 <= nc_network config < 2 ^ 32).
Context (draw_tid : ptr -> Tid) (draw_hash : ptr -> Hash) (sendTo : list output -> SockAddr -> bytes -> bool -> errno).

(** A computation returns, in a state that satisfies [Q]. *)
Definition runs {A} (m : M A) (e : Engine) (Q : A -> Engine -> Prop) : Prop :=
  exists a e', m e = (Ret a, e') /\ Q a e'.

Lemma runs_bind {A B} (m : M A) (f : A -> M B) e Q :
  runs m e (fun a e' => runs (f a) e' Q) -> runs (m ≫= f) e Q.
Proof. intros (a & e' & E & b & e'' & E' & HQ). exists b, e''. split; [|done]. by rewrite (bind_Ret m f e a e'). Qed.

Lemma runs_ret {A} (a : A) e (Q : A -> Engine -> Prop) : Q a e -> runs (mret a) e Q.
Proof. intros. by exists a, e. Qed.

Lemma runs_gets {A} (g : Engine -> A) e (Q : A -> Engine -> Prop) : Q (g e) e -> runs (gets g) e Q.
Proof. intros. by exists (g e), e. Qed.

Lemma runs_modify g e (Q : unit -> Engine -> Prop) : Q tt (g e) -> runs (modify g) e Q.
Proof. intros. by exists tt, (g e). Qed.

Lemma runs_weaken {A} (m : M A) e (Q Q' : A -> Engine -> Prop) :
  runs m e Q -> (forall a e', Q a e' -> Q' a e') -> runs m e Q'.
Proof. intros (a & e' & E & HQ) HW. exists a, e'. auto. Qed.

(** Nothing was sent, and a node is still there. *)
Definition alive (p : ptr) (e : Engine) : Prop := is_Some (w_nodes (e_world e) !! p).
Definition quiet (p : ptr) (e e' : Engine) : Prop := sent (e_log e') = sent (e_log e) /\ alive p e'.

Lemma runs_harmless h p e :
  harmless h -> alive p e ->
  runs (notify h) e (fun _ e' => quiet p e e' /\ h (e_client e) (e_world e) = Ret (e_client e', e_world e')).
Proof.
  intros Hh Hp. destruct (Hh (e_client e) (e_world e)) as (c & w & E & Hk). unfold runs, notify, call. rewrite E.
  eexists _, _. split; [done|]. split; [|done]. split; [done|]. by apply Hk.
Qed.

Lemma runs_new_node p k e :
  alive p e ->
  runs (new_node p k) e (fun _ e' => quiet p e e' /\ onNewNode p k (e_client e) (e_world e) = Ret (e_client e', e_world e')).
Proof using HandlersLaws0.
  intros Hp. unfold new_node. apply runs_bind, runs_modify.
  eapply runs_weaken; [by apply runs_harmless; [apply law_new_node|]|]. intros ? e' [[Hs Ha] Hc]. split; [|done]. split; [|done].
  rewrite Hs. cbn [e_log e_set_log]. rewrite sent_app. cbn. by rewrite app_nil_r.
Qed.

Lemma runs_get_node id addr now confirm cl e :
  runs (get_node draw_tid draw_hash id addr now confirm cl) e (fun p e' => quiet p e e').
Proof.
  assert (exists p c w, cache_getNode_addr (e_fresh e) (draw_tid (e_fresh e)) (draw_hash (e_fresh e)) id addr now confirm cl
    (e_cache e) (e_world e) = Ret (p, c, w) /\ is_Some (w_nodes w !! p)) as (p & c & w & E & Hp).
  { unfold cache_getNode_addr. destruct (negb _).
    { eexists _, _, _. split; [done|]. cbn. rewrite lookup_insert_eq. done. }
    assert (forall m, exists p m' w, create_node (e_fresh e) (draw_tid (e_fresh e)) (draw_hash (e_fresh e)) id addr cl m (e_world e) =
      Ret (p, m', w) /\ is_Some (w_nodes w !! p)) as Hc.
    { intros m. unfold create_node. destruct (_ =? CLEANUP_FREQ).
      - match goal with |- context [cleanup ?r ?w ?m] => destruct (cleanup_ok r w m) as (l & -> & _) end.
        eexists _, _, _. split; [done|]. cbn. by rewrite lookup_insert_eq.
      - eexists _, _, _. split; [done|]. cbn. by rewrite lookup_insert_eq. }
    unfold getNode_addr. destruct (om_find op_lt id _) as [p|]; [|destruct (Hc (cache (getFamily addr) (e_cache e))) as (p & m' & w & -> & ?); by eexists _, _, _].
    destruct (w_nodes (e_world e) !! p) as [n|] eqn:En;
      [|destruct (Hc (cache (getFamily addr) (e_cache e))) as (q & m' & w & -> & ?); by eexists _, _, _].
    destruct (confirm || isOld now n); eexists _, _, _; (split; [done|]); cbn; [by rewrite lookup_insert_eq|by eexists]. }
  unfold runs, get_node. rewrite E. eexists _, _. split; [done|]. by split.
Qed.

Lemma quiet_trans p e1 e2 e3 : quiet p e1 e2 -> quiet p e2 e3 -> quiet p e1 e3.
Proof. intros [H1 _] [H2 ?]. split; [congruence|done]. Qed.

Lemma runs_received p now e :
  alive p e ->
  runs (on_world (received now None p)) e (fun _ e' => quiet p e e' /\
    received now None p (e_world e) = Ret (e_world e') /\ e_client e' = e_client e).
Proof.
  intros [n Hn]. unfold runs, on_world, received. rewrite Hn. eexists _, _. split; [done|]. split; [|done]. split; [done|].
  unfold alive. cbn. by rewrite lookup_insert_eq.
Qed.

Lemma runs_the_node p e (Q : Node -> Engine -> Prop) :
  alive p e -> (forall n, w_nodes (e_world e) !! p = Some n -> Q n e) -> runs (the_node p) e Q.
Proof. intros [n Hn] HQ. unfold runs, the_node. rewrite Hn. eauto. Qed.

Lemma runs_is_client p e :
  alive p e -> runs (is_client p) e (fun b e' => e' = e /\ exists n, w_nodes (e_world e) !! p = Some n /\ b = isClient n).
Proof. intros Hp. apply runs_bind, runs_the_node; [done|]. intros n Hn. apply runs_ret. eauto. Qed.

(** ** Sending *)

(** Packets were sent, and nothing else changed for the handlers. *)
Definition sends (ps : list (SockAddr * bytes)) (e e' : Engine) : Prop :=
  sent (e_log e') = sent (e_log e) ++ ps /\ e_client e' = e_client e /\ e_world e' = e_world e.

Lemma sends_app ps qs e1 e2 e3 : sends ps e1 e2 -> sends qs e2 e3 -> sends (ps ++ qs) e1 e3.
Proof. intros (S1 & C1 & W1) (S2 & C2 & W2). split; [rewrite S2, S1; by rewrite app_assoc|split; congruence]. Qed.

Lemma runs_send_ addr d e : runs (send_ sendTo addr d) e (fun _ e' => sends [(addr, d)] e e').
Proof. eexists _, _. split; [done|]. split; [|done]. cbn [e_log e_set_log]. by rewrite sent_app. Qed.

Lemma runs_send_all addr l e : runs (send_all sendTo addr l) e (fun _ e' => sends (map (pair addr) l) e e').
Proof.
  revert e. induction l as [|d l IH]; intros e; cbn [send_all map]; [apply runs_ret; split; [by rewrite app_nil_r|done]|].
  apply runs_bind. eapply runs_weaken; [apply runs_send_|]. intros ? e1 H1.
  eapply runs_weaken; [apply IH|]. intros ? e2 H2. exact (sends_app _ _ _ _ _ H1 H2).
Qed.

(** An answer to the request [tid] went to [from]: a packet that the peer reads as a
    reply or an error of this node to that request, and the values in parts. *)
Definition replied (from : SockAddr) (tid : Tid) (e e' : Engine) : Prop :=
  exists data parts, sent (e_log e') = sent (e_log e) ++ (from, data) :: map (pair from) parts /\
    forall sys_now steady_now, exists reply,
      parse_message AF_INET6 sys_now steady_now data = Ret reply /\ pm_tid reply = tid /\ pm_id reply = myid /\
      (pm_type reply = MT_Reply \/ pm_type reply = MT_Error).

(** The packets of an answer: its own, which the peer reads as that answer, and those of
    the values in parts. *)
Definition packed (from : SockAddr) (tid : Tid) (a : answer) (bs : list bytes) : Prop :=
  exists b parts, answer_packet myid (nc_network config) from a tid = Ret (b, parts) /\
    bs = b :: sendValueParts (nc_network config) tid parts /\
    forall sys_now steady_now,
      parse_message AF_INET6 sys_now steady_now b = Ret (answer_read AF_INET6 myid (nc_network config) from a tid).

(** Exactly these answers were sent, in order; or exactly this error. *)
Definition answers_sent (from : SockAddr) (tid : Tid) (l : list answer) (e e' : Engine) : Prop :=
  exists bss, Forall2 (packed from tid) l bss /\ sent (e_log e') = sent (e_log e) ++ map (pair from) (concat bss).

Definition error_sent (from : SockAddr) (tid : Tid) (err : ProtocolException) (e e' : Engine) : Prop :=
  exists b, sent (e_log e') = sent (e_log e) ++ [(from, b)] /\
    forall sys_now steady_now, parse_message AF_INET6 sys_now steady_now b =
      Ret (pm_set_id myid (pm_set_error_code (pe_code err) (pm_base (nc_network config) MT_Error tid))).

Lemma answers_from from tid l e1 e2 e3 :
  sent (e_log e2) = sent (e_log e1) -> answers_sent from tid l e2 e3 -> answers_sent from tid l e1 e3.
Proof. intros E (bss & H1 & H2). exists bss. by rewrite <- E. Qed.

Lemma error_from from tid err e1 e2 e3 :
  sent (e_log e2) = sent (e_log e1) -> error_sent from tid err e2 e3 -> error_sent from tid err e1 e3.
Proof. intros E (b & H1 & H2). exists b. by rewrite <- E. Qed.

Lemma read_ids from tid a : pm_tid (answer_read AF_INET6 myid (nc_network config) from a tid) = tid /\
  pm_id (answer_read AF_INET6 myid (nc_network config) from a tid) = myid /\
  pm_type (answer_read AF_INET6 myid (nc_network config) from a tid) = MT_Reply.
Proof.
  destruct a as [|vid|n4 n6 st q tok]; try done. cbn [answer_read]. unfold with_content, with_values.
  destruct st; [done|]. destruct (q_select q); [|done]. by destruct (inlined _).
Qed.

Lemma answers_replied from tid a l e e' : answers_sent from tid (a :: l) e e' -> replied from tid e e'.
Proof.
  intros (bss & Hb & Hs). apply Forall2_cons_inv_l in Hb as (bs & bss' & (b & parts & _ & -> & Hp) & _ & ->).
  exists b, (sendValueParts (nc_network config) tid parts ++ concat bss'). split; [exact Hs|]. intros s1 s2.
  eexists. split; [apply Hp|]. destruct (read_ids from tid a) as (? & ? & ?). auto.
Qed.

Lemma error_replied from tid err e e' : error_sent from tid err e e' -> replied from tid e e'.
Proof. intros (b & Hs & Hp). exists b, []. split; [done|]. intros s1 s2. eexists. split; [apply Hp|]. auto. Qed.

(** ** What a request asks for *)

(** The handler of a request, with the arguments of the message. *)
Definition handler (m : ParsedMessage) (p : ptr) :
    option (client -> World -> outcome (client * World * (RequestAnswer + ProtocolException))) :=
  match pm_type m with
  | MT_Ping => Some (onPing p)
  | MT_FindNode => Some (onFindNode p (pm_target m) (pm_want m))
  | MT_GetValues => Some (onGetValues p (pm_info_hash m) (pm_want m) (pm_query m))
  | MT_AnnounceValue => Some (onAnnounce p (pm_info_hash m) (pm_token m) (pm_values m) (pm_created m))
  | MT_Refresh => Some (onRefresh p (pm_info_hash m) (pm_token m) (pm_value_id m))
  | MT_Listen => Some (onListen p (pm_info_hash m) (pm_token m) (pm_socket_id m) (pm_query m) (pm_version m))
  | _ => None
  end.

(** The nodes of an answer, as they are packed for the asker. *)
Definition answer_nodes (from : SockAddr) (id : Hash) (want : Z) (a : RequestAnswer) (w : World) : bytes * bytes :=
  bufferNodes AF_INET6 (getFamily from) id want (omap (fun p => w_nodes w !! p) (an_nodes4 a)) (omap (fun p => w_nodes w !! p) (an_nodes6 a)).

(** The answers to send for what the handler gave: a confirmation; nodes and a token;
    nodes, values or their selected fields, and a token; or the ids announced. *)
Definition answer_to (m : ParsedMessage) (from : SockAddr) (w : World) (a : RequestAnswer) : list answer :=
  match pm_type m with
  | MT_FindNode =>
      let nn := answer_nodes from (pm_target m) (pm_want m) a w in
      [AnsNodesValues nn.1 nn.2 [] (mkQuery [] [] false) (an_ntoken a)]
  | MT_GetValues =>
      let nn := answer_nodes from (pm_info_hash m) (pm_want m) a w in
      [AnsNodesValues nn.1 nn.2 (an_values a) (mkQuery (omap field_of_Z (pm_query m).1) [] false) (an_ntoken a)]
  | MT_AnnounceValue => map (fun v => AnsAnnounced (v_id v)) (pm_values m)
  | MT_Refresh => [AnsAnnounced (pm_value_id m)]
  | _ => [AnsConfirm]
  end.

(** The handler ran, once, on the state [c], [w], and left its own; what it returned was
    sent.  An update goes to the callback of the socket it names, if the node has it. *)
Definition served (m : ParsedMessage) (from : SockAddr) (p : ptr) (c : client) (w : World) (e e' : Engine) : Prop :=
  match handler m p with
  | Some h => exists r, h c w = Ret (e_client e', e_world e', r) /\
      match r with
      | inl a => answers_sent from (pm_tid m) (answer_to m from (e_world e') a) e e'
      | inr err => error_sent from (pm_tid m) err e e'
      end
  | None => exists n, w_nodes w !! p = Some n /\
      match getSocket (pm_socket_id m) n with
      | Some cb => onReceive cb p m [] [] c w = Ret (e_client e', e_world e')
      | None => e_client e' = c /\ e_world e' = w
      end /\ answers_sent from (pm_tid m) [AnsConfirm] e e'
  end.

(** The state the handler sees: the node was heard of, and reported if it is no client. *)
Definition introduced (now : Z) (p : ptr) (e : Engine) (c : client) (w : World) : Prop :=
  exists n w1, received now None p (e_world e) = Ret w1 /\ w_nodes w1 !! p = Some n /\
    if isClient n then c = e_client e /\ w = w1 else onNewNode p 1 (e_client e) w1 = Ret (c, w).

(** The whole of [process] for a request: the cache gives the node of the sender. *)
Definition handled (now : Z) (m : ParsedMessage) (from : SockAddr) (e e' : Engine) : Prop :=
  exists p e1 c w, get_node draw_tid draw_hash (pm_id m) from now true (pm_is_client m) e = (Ret p, e1) /\
    introduced now p e1 c w /\ served m from p c w e e'.

Lemma served_from m from p c w e1 e2 e3 :
  sent (e_log e2) = sent (e_log e1) -> served m from p c w e2 e3 -> served m from p c w e1 e3.
Proof.
  intros E. unfold served. destruct (handler m p) as [h|].
  - intros (r & Hh & Hr). exists r. split; [done|]. destruct r; [by eapply answers_from|by eapply error_from].
  - intros (n & Hn & Hc & Ha). exists n. split; [done|]. split; [done|]. by eapply answers_from.
Qed.

(** The state of the limiters does not matter. *)
Lemma handled_limits now m from l gl k e e' :
  handled now m from (e_set_maintenance k (e_set_limiter gl (e_set_limiters l e))) e' -> handled now m from e e'.
Proof.
  intros (p & e1 & c & w & Hg & Hi & Hs). unfold get_node in Hg.
  cbn [e_fresh e_cache e_world e_set_maintenance e_set_limiter e_set_limiters] in Hg.
  destruct (cache_getNode_addr _ _ _ _ _ _ _ _ _ _) as [[[q c'] w']|x|x|x] eqn:E; try done. injection Hg as <- <-.
  eexists q, _, c, w. split; [unfold get_node; rewrite E; done|]. split; [exact Hi|]. by eapply served_from; [|exact Hs].
Qed.

Section Answers.
Context (from : SockAddr) (Hfrom : wf_addr AF_INET6 from) (tid : Tid) (Htid : 0 <= tid < 2 ^ 32).

(** Answers that fit the protocol were sent, and the handlers' state is the same. *)
Definition delivered (l : list answer) (e e' : Engine) : Prop :=
  answers_sent from tid l e e' /\ e_client e' = e_client e /\ e_world e' = e_world e.

Lemma delivered_one a b parts e e' :
  wf_answer a -> answer_packet myid (nc_network config) from a tid = Ret (b, parts) ->
  sends (map (pair from) (b :: sendValueParts (nc_network config) tid parts)) e e' -> delivered [a] e e'.
Proof using All.
  intros Ha Hb [Hs Hc]. split; [|done]. exists [b :: sendValueParts (nc_network config) tid parts].
  split; [|cbn [concat]; by rewrite app_nil_r]. constructor; [|constructor]. exists b, parts. split; [done|]. split; [done|].
  intros s1 s2.
  destruct (replies_read AF_INET6 HAF6 myid Hmyid (nc_network config) Hnet s1 s2 from a tid [] Hfrom Ha Htid) as (b' & Hb' & Hp);
    [constructor|]. rewrite Hb in Hb'. injection Hb' as <- _. by rewrite app_nil_r in Hp.
Qed.

Lemma delivered_app l1 l2 e1 e2 e3 : delivered l1 e1 e2 -> delivered l2 e2 e3 -> delivered (l1 ++ l2) e1 e3.
Proof.
  intros ((b1 & H1 & S1) & C1 & W1) ((b2 & H2 & S2) & C2 & W2). split; [|split; congruence].
  exists (b1 ++ b2). split; [by apply Forall2_app|]. by rewrite concat_app, map_app, S2, S1, app_assoc.
Qed.

Lemma runs_sendPong e : runs (sendPong myid config sendTo from tid) e (fun _ e' => delivered [AnsConfirm] e e').
Proof using All. eapply runs_weaken; [apply runs_send_|]. intros ? e' Hs. by eapply delivered_one. Qed.

Lemma runs_announced vid e :
  0 <= vid < 2 ^ 64 -> runs (sendValueAnnounced myid config sendTo from tid vid) e (fun _ e' => delivered [AnsAnnounced vid] e e').
Proof using All. intros Hv. eapply runs_weaken; [apply runs_send_|]. intros ? e' Hs. by eapply delivered_one. Qed.

Lemma runs_sendError err e :
  0 <= pe_code err < 2 ^ 16 -> wf_blob (pe_msg err) ->
  runs (sendError myid config sendTo from tid err true) e (fun _ e' =>
    error_sent from tid err e e' /\ e_client e' = e_client e /\ e_world e' = e_world e).
Proof using All.
  intros Hc Hm. eapply runs_weaken; [apply runs_send_|]. intros ? e' [Hs Hk]. split; [|done]. eexists. split; [exact Hs|]. intros s1 s2.
  pose proof (error_read AF_INET6 myid Hmyid (nc_network config) Hnet s1 s2 (pe_code err) (pe_msg err) true tid [] Hc Hm Htid
    ltac:(constructor)) as Hp. by rewrite app_nil_r in Hp.
Qed.

Lemma runs_nodes_values nn st sel token e :
  wf_answer (AnsNodesValues nn.1 nn.2 st (mkQuery sel [] false) token) ->
  runs (sendNodesValues myid config sendTo from tid nn st (map field_Z sel) token) e
    (fun _ e' => delivered [AnsNodesValues nn.1 nn.2 st (mkQuery sel [] false) token] e e').
Proof using All.
  intros Ha. destruct (replies_read AF_INET6 HAF6 myid Hmyid (nc_network config) Hnet 0 0 from
    (AnsNodesValues nn.1 nn.2 st (mkQuery sel [] false) token) tid [] Hfrom Ha Htid ltac:(constructor)) as (b & Hb & _).
  eapply runs_weaken; [|intros ? e' Hs; exact (delivered_one _ _ _ _ _ Ha Hb Hs)].
  unfold sendNodesValues. cbn [answer_packet q_select] in Hb. rewrite Hb.
  apply runs_bind. eexists _, _. split; [done|]. apply runs_bind. eapply runs_weaken; [apply runs_send_|]. intros ? e1 Hs.
  destruct (answer_parts _) as [|x l]; [by apply runs_ret|].
  eapply runs_weaken; [apply runs_send_all|]. intros ? e2 Hs2. exact (sends_app _ _ _ _ _ Hs Hs2).
Qed.

Lemma runs_announce_all vs e :
  Forall (fun v => 0 <= v_id v < 2 ^ 64) vs ->
  runs (announce_all myid config sendTo from tid vs) e (fun _ e' => delivered (map (fun v => AnsAnnounced (v_id v)) vs) e e').
Proof using All.
  intros Hv. revert e. induction Hv as [|v vs H1 Hv IH]; intros e; cbn [announce_all map].
  { apply runs_ret. split; [|done]. exists []. split; [constructor|]. by rewrite app_nil_r. }
  apply runs_bind. eapply runs_weaken; [by apply runs_announced|]. intros ? e1 H2.
  eapply runs_weaken; [apply IH|]. intros ? e2 H3. exact (delivered_app [_] _ _ _ _ H2 H3).
Qed.

(** ** Handlers *)

Lemma runs_call h e :
  well_behaved h ->
  runs (call h) e (fun r e' => sent (e_log e') = sent (e_log e) /\
    h (e_client e) (e_world e) = Ret (e_client e', e_world e', r) /\ good_result r (e_world e')).
Proof.
  intros Hh. destruct (Hh (e_client e) (e_world e)) as (c & w & r & E & _ & Hg). unfold runs, call. rewrite E. by eexists _, _.
Qed.

Lemma runs_answered h k (l : World -> RequestAnswer -> list answer) e :
  well_behaved h ->
  (forall a e1, good_answer a (e_world e1) -> runs (k a) e1 (fun _ e' => delivered (l (e_world e1) a) e1 e')) ->
  runs (answered myid config sendTo h from tid k) e (fun _ e' =>
    exists r, h (e_client e) (e_world e) = Ret (e_client e', e_world e', r) /\
      match r with inl a => answers_sent from tid (l (e_world e') a) e e' | inr err => error_sent from tid err e e' end).
Proof using All.
  intros Hh Hk. apply runs_bind. eapply runs_weaken; [by apply runs_call|]. intros r e1 (Hs & Hr & Hg).
  destruct r as [ans|err].
  - eapply runs_weaken; [by apply Hk|]. intros ? e2 (Ha & Hc & Hw). exists (inl ans). rewrite Hc, Hw. split; [done|].
    by eapply answers_from.
  - destruct Hg. eapply runs_weaken; [by apply runs_sendError|]. intros ? e2 (Ha & Hc & Hw). exists (inr err). rewrite Hc, Hw.
    split; [done|]. by eapply error_from.
Qed.

Lemma info_wf n : wf_hash HASH_LEN (n_id n) -> wf_bytes (n_addr n) ->
  (length (node_info4 n) <= 26 /\ length (node_info6 n) <= 38)%nat /\ wf_bytes (node_info4 n) /\ wf_bytes (node_info6 n).
Proof.
  intros [Hl Hb] Ha. unfold node_info4, node_info6, sin_addr, sin6_addr, port_bytes.
  rewrite !length_app, !length_take, Hl. rewrite !Forall_app. unfold HASH_LEN.
  split; [lia|]. split_and!; try done; by apply Forall_take, Forall_drop.
Qed.

Lemma buffer_af_wf af id nodes :
  Forall (fun n => wf_hash HASH_LEN (n_id n) /\ wf_bytes (n_addr n)) nodes -> wf_blob (bufferNodes_af AF_INET6 af id nodes).
Proof.
  intros Hn. unfold bufferNodes_af. set (picked := take _ _).
  assert (Forall (fun n => wf_hash HASH_LEN (n_id n) /\ wf_bytes (n_addr n)) picked) as Hp
    by (apply Forall_take; by rewrite sort_near_perm).
  assert (length picked <= 8)%nat as Hl by (unfold picked, SEND_NODES; rewrite length_take; lia).
  assert (forall (info : Node -> bytes), Forall (fun n => (length (info n) <= 38)%nat /\ wf_bytes (info n)) picked ->
    wf_blob (concat (map info picked))) as Hc.
  { intros info Hi. split.
    - enough (length (concat (map info picked)) <= 38 * length picked)%nat by (unfold len; lia).
      clear -Hi. induction Hi as [|n l [Hn _] Hl IH]; [done|]. cbn [map concat length]. rewrite length_app. lia.
    - apply Forall_concat, Forall_map. eapply Forall_impl; [exact Hi|]. naive_solver. }
  destruct (af =? AF_INET); [|destruct (af =? AF_INET6); [|split; [done|constructor]]];
    apply Hc; (eapply Forall_impl; [exact Hp|]); intros n [Hi Ha]; destruct (info_wf n Hi Ha) as ([? ?] & ? & ?); split; (done || lia).
Qed.

Lemma runs_buffer id want a e :
  good_answer a (e_world e) ->
  runs (buffer_answer AF_INET6 (getFamily from) id want a) e (fun nn e' =>
    e' = e /\ nn = answer_nodes from id want a (e_world e) /\ wf_blob nn.1 /\ wf_blob nn.2).
Proof.
  intros (_ & _ & _ & Hn). apply Forall_app in Hn as [H4 H6].
  assert (forall l, Forall (fun p => forall n, w_nodes (e_world e) !! p = Some n -> wf_hash HASH_LEN (n_id n) /\ wf_bytes (n_addr n)) l ->
    Forall (fun n => wf_hash HASH_LEN (n_id n) /\ wf_bytes (n_addr n)) (omap (fun p => w_nodes (e_world e) !! p) l)) as Hl.
  { intros l Hl. apply Forall_forall. intros n Hin. apply list_elem_of_omap in Hin as (p & Hp & En).
    exact (proj1 (Forall_forall _ _) Hl p Hp n En). }
  assert (wf_blob []) as Hnil by (split; [done|constructor]).
  unfold buffer_answer, nodes_of. apply runs_bind. apply runs_gets. apply runs_bind. apply runs_gets. apply runs_ret.
  split; [done|]. split; [done|].
  unfold bufferNodes. cbn [fst snd]. split; (case_match; [by apply buffer_af_wf, Hl|done]).
Qed.

Lemma runs_nodes_answer sel a vs e id want :
  good_answer a (e_world e) -> Forall selectable sel -> vs = [] \/ vs = an_values a ->
  runs (nn ← buffer_answer AF_INET6 (getFamily from) id want a;
        sendNodesValues myid config sendTo from tid nn vs (map field_Z sel) (an_ntoken a)) e
    (fun _ e' => let nn := answer_nodes from id want a (e_world e) in
       delivered [AnsNodesValues nn.1 nn.2 vs (mkQuery sel [] false) (an_ntoken a)] e e').
Proof using All.
  intros Ha Hsel Hvs. apply runs_bind. eapply runs_weaken; [by apply runs_buffer|].
  intros nn e' (-> & Enn & ? & ?). cbv zeta. rewrite <- Enn. apply runs_nodes_values. destruct Ha as (Htok & Hv & Hlen & _).
  assert (Forall wf_fielded vs /\ Z.of_nat (length vs) < 2 ^ 28) as [Hfv Hl] by (destruct Hvs as [-> | ->]; [split; [constructor|done]|done]).
  cbn [wf_answer q_select]. split_and!; [done..|]. destruct sel; [left|right; split; [done|by split]].
  split; [done|]. eapply Forall_impl; [exact Hfv|]. intros v Hv'. apply Hv'.
Qed.
End Answers.

Lemma fields_of_numbers sel : omap field_of_Z (map field_Z sel) = sel.
Proof. induction sel as [|f sel IH]; [done|]. cbn [map]. destruct f; cbn; by rewrite IH. Qed.

(** ** Requests *)

(** A request whose arguments are within the protocol: a query selects known fields,
    the ids of values are 64-bit numbers, and an announcement carries a value. *)
Definition wf_incoming (m : ParsedMessage) : Prop :=
  0 <= pm_tid m < 2 ^ 32 /\
  match pm_type m with
  | MT_Ping | MT_FindNode | MT_Listen | MT_UpdateValue => True
  | MT_GetValues => exists sel, (pm_query m).1 = map field_Z sel /\ Forall selectable sel
  | MT_Refresh => 0 <= pm_value_id m < 2 ^ 64
  | MT_AnnounceValue => pm_values m <> [] /\ Forall (fun v => 0 <= v_id v < 2 ^ 64) (pm_values m)
  | _ => False
  end.

(** The branch of the type of the request. *)
Lemma served_call m from p h k e :
  wf_addr AF_INET6 from -> 0 <= pm_tid m < 2 ^ 32 -> well_behaved h -> handler m p = Some h ->
  (forall a e1, good_answer a (e_world e1) ->
     runs (k a) e1 (fun _ e' => delivered from (pm_tid m) (answer_to m from (e_world e1) a) e1 e')) ->
  runs (answered myid config sendTo h from (pm_tid m) k) e (fun _ e' => served m from p (e_client e) (e_world e) e e').
Proof using All.
  intros Hf Ht Hh E Hk. unfold served. rewrite E. by apply (runs_answered from Hf (pm_tid m) Ht h k (answer_to m from)).
Qed.

Lemma update_runs m from p e :
  wf_addr AF_INET6 from -> 0 <= pm_tid m < 2 ^ 32 -> handler m p = None -> alive p e ->
  runs (n ← the_node p;
        match getSocket (pm_socket_id m) n with Some cb => on_receive cb p m [] [] | None => mret tt end;;
        sendPong myid config sendTo from (pm_tid m)) e (fun _ e' => served m from p (e_client e) (e_world e) e e').
Proof using All.
  intros Hf Ht Eh Hp. unfold served. rewrite Eh. apply runs_bind, runs_the_node; [done|]. intros n Hn. apply runs_bind.
  apply runs_weaken with (Q := fun _ e4 => quiet p e e4 /\ match getSocket (pm_socket_id m) n with
    | Some cb => onReceive cb p m [] [] (e_client e) (e_world e) = Ret (e_client e4, e_world e4)
    | None => e_client e4 = e_client e /\ e_world e4 = e_world e end).
  - destruct (getSocket (pm_socket_id m) n) as [cb|]; [|by apply runs_ret].
    unfold on_receive. apply runs_bind, runs_modify. eapply runs_weaken; [apply runs_harmless; [apply law_receive|apply Hp]|].
    intros ? e4 [[Hs Ha] Hc]. split; [|done]. split; [|done]. rewrite Hs. cbn [e_log e_set_log]. rewrite sent_app. cbn. by rewrite app_nil_r.
  - intros ? e4 [[Hs _] Hc]. eapply runs_weaken; [by apply runs_sendPong|]. intros ? e5 (Ha & Ec & Ew). exists n.
    rewrite Ec, Ew. split; [done|]. split; [done|]. by eapply answers_from.
Qed.

Lemma introduced_runs now p e (k : M unit) Q :
  alive p e ->
  (forall e2, quiet p e e2 -> introduced now p e (e_client e2) (e_world e2) -> runs k e2 Q) ->
  runs (on_world (received now None p);; c ← is_client p; when (negb c) (new_node p 1);; k) e Q.
Proof using HandlersLaws0.
  intros Hp Hk. apply runs_bind. eapply runs_weaken; [by apply runs_received|]. intros u1 e1 (H1 & Hrec & Hcl).
  apply runs_bind. eapply runs_weaken; [apply runs_is_client, H1|]. intros c e1' (-> & n & Hn & ->). apply runs_bind.
  destruct (isClient n) eqn:Ec; cbn [negb when].
  - apply runs_ret, Hk; [done|]. exists n, (e_world e1). by rewrite Ec.
  - eapply runs_weaken; [apply runs_new_node, H1|]. intros u2 e2 [H2 Hnew]. apply Hk; [exact (quiet_trans _ _ _ _ H1 H2)|].
    exists n, (e_world e1). rewrite Ec, <- Hcl. done.
Qed.

Lemma process_request_runs now m from p e :
  wf_addr AF_INET6 from -> wf_incoming m -> alive p e ->
  runs (process_request AF_INET6 myid config sendTo now m from p) e (fun _ e' =>
    exists c w, introduced now p e c w /\ served m from p c w e e').
Proof using All.
  intros Hf [Ht Hm] Hp. unfold process_request. apply introduced_runs; [done|]. intros e2 H2 Hi.
  apply runs_weaken with (Q := fun _ e' => served m from p (e_client e2) (e_world e2) e2 e');
    [|intros ? e' Hs; exists (e_client e2), (e_world e2); split; [done|]; by eapply served_from; [apply H2|]].
  assert (forall t (k : M unit), (forall e3, alive p e3 -> runs k e3 (fun _ e' => served m from p (e_client e3) (e_world e3) e3 e')) ->
    runs (count_in t;; k) e2 (fun _ e' => served m from p (e_client e2) (e_world e2) e2 e')) as Hc.
  { intros t k Hk. apply runs_bind, runs_modify. eapply runs_weaken; [apply Hk, H2|]. intros ? e3 H3. by eapply served_from; [|exact H3]. }
  destruct (pm_type m) eqn:Etype; try done.
  - apply Hc. intros e3 H3. apply served_call; [done|done|apply law_ping|by unfold handler; rewrite Etype|].
    intros a e4 _. unfold answer_to. rewrite Etype. by apply runs_sendPong.
  - apply Hc. intros e3 H3. apply served_call; [done|done|apply law_find|by unfold handler; rewrite Etype|].
    intros a e4 Ha. unfold answer_to. rewrite Etype. apply (runs_nodes_answer from Hf (pm_tid m) Ht []); auto.
  - destruct Hm as (sel & Eq & Hsel). apply Hc. intros e3 H3.
    apply served_call; [done|done|apply law_get|by unfold handler; rewrite Etype|].
    intros a e4 Ha. unfold answer_to. rewrite Etype, Eq, fields_of_numbers. apply runs_nodes_answer; auto.
  - destruct Hm as [Hne Hids]. apply Hc. intros e3 H3. apply served_call; [done|done|apply law_announce|by unfold handler; rewrite Etype|].
    intros a e4 _. unfold answer_to. rewrite Etype. by apply runs_announce_all.
  - apply served_call; [done|done|apply law_refresh|by unfold handler; rewrite Etype|].
    intros a e4 _. unfold answer_to. rewrite Etype. by apply runs_announced.
  - apply Hc. intros e3 H3. apply served_call; [done|done|apply law_listen|by unfold handler; rewrite Etype|].
    intros a e4 _. unfold answer_to. rewrite Etype. by apply runs_sendPong.
  - apply Hc. intros e3 H3. apply update_runs; [done|done|by unfold handler; rewrite Etype|done].
Qed.

Lemma process_handled now m from e :
  wf_addr AF_INET6 from -> wf_incoming m ->
  runs (process AF_INET6 myid config draw_tid draw_hash sendTo now m from) e (fun _ e' => handled now m from e e').
Proof using All.
  intros Hf Hm. destruct (runs_get_node (pm_id m) from now true (pm_is_client m) e) as (p & e1 & Eg & H1).
  destruct H1 as [Hs1 Ha1]. unfold process. apply runs_bind. exists p, e1. split; [done|].
  apply runs_weaken with (Q := fun _ e' => exists c w, introduced now p e1 c w /\ served m from p c w e1 e').
  - pose proof Hm as [_ Ht]. destruct (pm_type m); try done; by apply process_request_runs.
  - intros ? e2 (c & w & Hi & Hs). exists p, e1, c, w. split; [done|]. split; [done|]. by eapply served_from.
Qed.

(** Something is always sent. *)
Lemma handled_replied now m from e e' : wf_incoming m -> handled now m from e e' -> replied from (pm_tid m) e e'.
Proof.
  intros [_ Hm] (p & e1 & c & w & _ & _ & Hs). unfold served in Hs. destruct (handler m p) as [h|] eqn:Eh.
  - destruct Hs as ([a|err] & _ & Ha); [|by eapply error_replied].
    assert (exists x l, answer_to m from (e_world e') a = x :: l) as (x & l & E); [|rewrite E in Ha; by eapply answers_replied].
    unfold answer_to, handler in *. destruct (pm_type m); try done; try by eexists _, _.
    destruct Hm as [Hne _]. destruct (pm_values m); [done|]. by eexists _, _.
  - destruct Hs as (n & _ & _ & Ha). by eapply answers_replied.
Qed.

Lemma process_runs now m from e :
  wf_addr AF_INET6 from -> wf_incoming m ->
  runs (process AF_INET6 myid config draw_tid draw_hash sendTo now m from) e (fun _ e' => replied from (pm_tid m) e e').
Proof using All.
  intros Hf Hm. eapply runs_weaken; [by apply process_handled|]. intros ? e' Hh. by apply (handled_replied now).
Qed.

(** ** From one engine to the other *)

(** A request that gets an answer: a query selects known fields, and an announced
    value is one the reader accepts. *)
Definition answerable (r : outgoing) : Prop :=
  match r with
  | OutGet _ q _ => Forall selectable (q_select q)
  | OutAnnounce _ v _ _ _ => exists x, transmitted v = Ret x
  | _ => True
  end.

Section Peer.
(** The peer, on the same network, with its own clocks. *)
Context (peer : Hash) (Hpeer : wf_hash HASH_LEN peer).
Context (peer_sys peer_steady : Z) (Hpeer_sys : 0 <= peer_sys <= time_max).
Context (sys_now steady_now : Z) (Hsys : 0 <= sys_now <= time_max).

Abbreviation message r tid := (expected peer (nc_network config) peer_sys peer_steady sys_now steady_now r tid).

Lemma expected_fields r tid :
  pm_tid (message r tid) = tid /\ pm_id (message r tid) = peer /\ pm_type (message r tid) = request_type r /\
  pm_network (message r tid) = nc_network config.
Proof.
  destruct r as [| | | |h v created now token|h vs created now token sid| |fresh sid token ids version]; try done; cbn [expected];
    unfold with_values, with_creation; [destruct (inlined _), (created <? now); done..|by destruct fresh].
Qed.

Lemma transmitted_id v x : transmitted v = Ret x -> v_id x = v_id v.
Proof. unfold transmitted. repeat case_match; intros; simplify_eq; done. Qed.

Lemma expected_incoming r tid :
  wf_outgoing (G := G) peer_sys peer_steady r -> answerable r -> request_parts r = [] -> 0 <= tid < 2 ^ 32 ->
  wf_incoming (message r tid) /\ pm_value_parts (message r tid) = [].
Proof.
  intros Hr Ha Hp Ht. destruct (expected_fields r tid) as (E1 & _ & E3 & _). unfold wf_incoming. rewrite E1, E3.
  destruct r as [| |h q want| |h v created now token|h vs created now token sid|h vid token|fresh sid token ids version]; cbn [request_type answerable wf_outgoing] in *; try done.
  - split; [|done]. split; [done|]. by exists (q_select q).
  - destruct Ha as [x Hx]. destruct Hr as (_ & (Hv & _) & _). cbn [request_parts sent_parts] in Hp. unfold sent_parts in Hp.
    destruct (inlined [v]) eqn:Ei; [|done]. cbn [expected]. unfold with_values, with_creation. rewrite Ei.
    assert (received_values [v] = [x]) as -> by (unfold received_values; cbn; by rewrite Hx).
    assert (0 <= v_id x < 2 ^ 64) by (rewrite (transmitted_id v x Hx); apply Hv).
    destruct (created <? now); cbn [pm_values pm_set_values pm_value_parts]; (split; [|done]); (split; [done|]); (split; [done|]); (constructor; [done|constructor]).
  - split; [done|]. cbn [request_parts] in Hp. cbn [expected]. unfold with_values, with_creation.
    destruct (inlined vs) eqn:Ei; [by destruct (created <? now)|]. unfold sent_parts in Hp. rewrite Ei in Hp. rewrite Hp.
    by destruct (created <? now).
  - destruct Hr as (_ & ? & _). done.
  - split; [done|]. by destruct fresh.
Qed.

(** C13. A request is handed to its handler and answered: when a peer of the network
    packs any request (whose values fit in the packet) and the packet arrives, from an
    address that is neither impossible nor blacklisted and within the limits, the engine
    returns.  The handler of the request's type ran exactly once, with the arguments of
    the message, on the state in which the sender's node was heard of and reported, and
    its state is the one that remains; and what was sent, all of it to the sender and
    under the transaction id of the request, is the answer that the handler returned
    (or the error it raised), in packets that the peer's parser reads as that answer of
    this node.  An update goes to the callback of its socket and is confirmed. *)
Theorem request_answered now r tid f e :
  let from := getMappedIPv4 AF_INET6 f in
  wf_outgoing (G := G) peer_sys peer_steady r -> answerable r -> request_parts r = [] -> 0 <= tid < 2 ^ 32 ->
  wf_addr AF_INET6 from -> isMartian AF_INET6 from = false -> isNodeBlacklisted from e = false ->
  op_eq HASH_LEN peer myid = false -> op_bool HASH_LEN peer = true ->
  (rateLimit AF_INET6 config now from e).1 = Ret true ->
  exists b, request_packet AF_INET6 peer (nc_network config) peer_sys peer_steady r tid = Ret (b, []) /\
    runs (processMessage AF_INET6 myid config draw_tid draw_hash sendTo sys_now steady_now now b f) e
      (fun _ e' => handled now (message r tid) from e e').
Proof using All.
  intros from Hr Ha Hp Ht Hf Hmart Hbl Hne Hz Hl.
  destruct (requests_read AF_INET6 HAF6 peer Hpeer (nc_network config) Hnet peer_sys peer_steady Hpeer_sys sys_now steady_now
    Hsys r tid [] Hr Ht ltac:(constructor)) as (b & Hb & Hparse).
  exists b. rewrite <- Hp. split; [done|]. rewrite app_nil_r in Hparse.
  destruct (expected_incoming r tid Hr Ha Hp Ht) as [Hin Hvp]. destruct (expected_fields r tid) as (E1 & E2 & E3 & E4).
  unfold processMessage. fold from. rewrite Hmart. apply runs_bind, runs_gets. rewrite Hbl.
  rewrite Hparse. apply runs_bind. eexists _, _. split; [done|]. cbn [caught]. rewrite E4, Z.eqb_refl. cbn [negb].
  destruct (rateLimit_frame AF_INET6 config now from e) as (ok & l & gl & k & El). rewrite El in Hl. injection Hl as ->.
  pose proof (process_handled now (message r tid) from (e_set_maintenance k (e_set_limiter gl (e_set_limiters l e))) Hf Hin) as Hproc.
  assert (match request_type r with MT_Error | MT_Reply | MT_ValueData | MT_ValueUpdate => False | _ => True end) as Hq
    by (clear; by destruct r).
  rewrite E3. revert Hq. destruct (request_type r); intros Hq; try (exfalso; exact Hq).
  all: rewrite E2, Hne, Hz; cbn [orb negb is_request]; apply runs_bind; eexists _, _; (split; [exact El|]); cbn [negb]; rewrite Hvp;
    (eapply runs_weaken; [exact Hproc|]); intros ? e' He'; exact (handled_limits _ _ _ _ _ _ _ _ He').
Qed.
End Peer.
End Serving.

(** A node that stores nothing and knows nobody. *)
Module ServingDemo.
#[local] Existing Instance GnutlsDemo.demo.
Definition nothing : RequestAnswer := mkAnswer [1; 2] [] [] [].
#[global] Instance silent : Handlers := {|
  client := unit;
  onNewNode _ _ c w := Ret (c, w);
  onReportedAddr _ _ c w := Ret (c, w);
  onError _ _ c w := Ret (c, w);
  onReceive _ _ _ _ _ c w := Ret (c, w);
  on_error_result _ _ := false;
  onPing _ c w := Ret (c, w, inl nothing);
  onFindNode _ _ _ c w := Ret (c, w, inl nothing);
  onGetValues _ _ _ _ c w := Ret (c, w, inl nothing);
  onListen _ _ _ _ _ _ c w := Ret (c, w, inr (mkProto 401 (str "wrong token")));
  onAnnounce _ _ _ _ _ c w := Ret (c, w, inl nothing);
  onRefresh _ _ _ _ c w := Ret (c, w, inl nothing);
|}.

Lemma nothing_good w : good_answer nothing w.
Proof. split; [split; by_compute|]. split; [constructor|]. split; [done|constructor]. Qed.

#[global] Instance silent_laws : HandlersLaws silent.
Proof.
  assert (forall w, keeps w w) as Hk by (by intros w p).
  split; intros; intros c0 w0; eexists _, _; try (split; [reflexivity|apply Hk]).
  all: eexists; split; [reflexivity|]; split; [apply Hk|]; first [apply nothing_good|split; [done|split; by_compute]].
Qed.

Definition config : NetworkConfig := mkConfig 7 100 10.
Definition engine : Engine :=
  mkEngine (mkWorld ∅ ∅ []) 1 NodeCache_make [] (RateLimiter_make 100 (seconds 1)) 0 [] [] no_stats no_stats [] tt [].
Definition from : SockAddr := [2; 0; 31; 144; 192; 0; 2; 1] ++ replicate 8 0.
End ServingDemo.

Lemma request_answered_witness :
  exists b, request_packet (G := GnutlsDemo.demo) 10 WireDemo.key 7 (seconds 2000) 300 WireDemo.announce 77 = Ret (b, []) /\
    runs (processMessage 10 WireDemo.me ServingDemo.config (fun _ => 5) (fun _ => WireDemo.me) (fun _ _ _ _ => E_OK)
            (seconds 2000) 300 400 b ServingDemo.from) ServingDemo.engine
      (fun _ e' => handled 10 WireDemo.me ServingDemo.config (fun _ => 5) (fun _ => WireDemo.me) 400
         (expected WireDemo.key 7 (seconds 2000) 300 (seconds 2000) 300 WireDemo.announce 77) ServingDemo.from ServingDemo.engine e').
Proof.
  apply (request_answered (G := GnutlsDemo.demo) 10 ltac:(lia) WireDemo.me ltac:(by_compute) ServingDemo.config ltac:(done)
    (fun _ => 5) (fun _ => WireDemo.me) (fun _ _ _ _ => E_OK) WireDemo.key ltac:(by_compute) (seconds 2000) 300 ltac:(by_compute)
    (seconds 2000) 300 ltac:(by_compute) 400 WireDemo.announce 77 ServingDemo.from ServingDemo.engine).
  - split; [by_compute|]. split; [split; [exact GnutlsDemo.note_wf|]; split; [exact I|reflexivity]|].
    split; [by_compute|]. intros _. split; [lia|]. split; [reflexivity|]. unfold seconds. lia.
  - eexists. reflexivity.
  - vm_compute. reflexivity.
  - lia.
  - split; [by_compute|]. left. vm_compute. done.
  - vm_compute. reflexivity.
  - vm_compute. reflexivity.
  - vm_compute. reflexivity.
  - vm_compute. reflexivity.
  - vm_compute. reflexivity.
Defined.

Lemma processMessage_drops_witness :
  processMessage 10 WireDemo.me ServingDemo.config (fun _ => 5) (fun _ => WireDemo.me) (fun _ _ _ _ => E_OK)
    0 0 400 [0xc1] ServingDemo.from ServingDemo.engine = (Ret tt, ServingDemo.engine).
Proof.
  apply (proj1 (processMessage_drops (G := GnutlsDemo.demo) 10 WireDemo.me ServingDemo.config (fun _ => 5) (fun _ => WireDemo.me)
    (fun _ _ _ _ => E_OK) 0 0 400 [0xc1] ServingDemo.from ServingDemo.engine)).
  right. right. left. eexists. vm_compute. reflexivity.
Defined.
