(* ===== verification/Retry.v ===== *)
(** * Retry: requests that get no answer

    [NetworkEngine::sendRequest] and [requestStep] (NetworkEngine) drive a request by
    the timers they set: the packet is sent again, at growing intervals, until the
    request and its node expire. *)
From S2P Require Import Prelude StdMap InfoHash SockAddr Node NodeCache MsgPack Value Query Message Wire RateLimiter NetworkEngine Serving.

Section Retry.
Context {G : Gnutls} {H : Handlers} (config : NetworkConfig).
Context (sendTo : list output -> SockAddr -> bytes -> bool -> errno).
(** The socket accepts every packet. *)
Context (Hsend : forall l a d c, sendTo l a d c = E_OK).
Context (p r : ptr) (tid : Tid) (addr : SockAddr) (msg : bytes) (parts : list bytes) (cb : nat).

(** The packets of one attempt. *)
Definition attempt : list (SockAddr * bytes) :=
  (addr, msg) :: map (pair addr) (sendValueParts (nc_network config) tid parts).

(** The request waits for an answer after [k] attempts. *)
Definition asks (k last duration : Z) (q : Request) : Prop :=
  rq_state q = PENDING /\ rq_node q = p /\ rq_tid q = tid /\ rq_msg q = msg /\ rq_parts q = parts /\
  rq_on_expired q = Some cb /\ rq_attempt_count q = k /\ rq_last_try q = last /\ rq_attempt_duration q = duration.

Definition waits (k last duration : Z) (evs : list event) (pks : list (SockAddr * bytes)) (e : Engine) : Prop :=
  (exists q, w_reqs (e_world e) !! r = Some q /\ asks k last duration q) /\
  (exists n, w_nodes (e_world e) !! p = Some n /\ n_addr n = addr /\ n_requests n = [(tid, r)]) /\
  w_log (e_world e) = evs /\ sent (e_log e) = pks.

(** It is over: the request expired, and its node too. *)
Definition expired (evs : list event) (pks : list (SockAddr * bytes)) (e : Engine) : Prop :=
  (exists q, w_reqs (e_world e) !! r = Some q /\ rq_state q = EXPIRED) /\
  (exists n, w_nodes (e_world e) !! p = Some n /\ isExpired n = true /\ n_requests n = []) /\
  w_log (e_world e) = evs /\ sent (e_log e) = pks.

Abbreviation step now jitter := (requestStep config sendTo now jitter r).

Lemma asks_expired k last d now q :
  asks k last d q -> rq_isExpired now q = (last + d <? now) && (MAX_ATTEMPT_COUNT <=? k).
Proof. intros (H1 & _ & _ & _ & _ & _ & H7 & H8 & H9). unfold rq_isExpired, rq_pending. by rewrite H1, H7, H8, H9. Qed.

Lemma send_all_runs a l e :
  runs (send_all sendTo a l) e (fun _ e' => e_world e' = e_world e /\ sent (e_log e') = sent (e_log e) ++ map (pair a) l).
Proof.
  revert e. induction l as [|d l IH]; intros e; cbn [send_all map]; [apply runs_ret; by rewrite app_nil_r|].
  apply runs_bind. eexists _, _. split; [reflexivity|]. eapply runs_weaken; [apply IH|]. intros u e2 [Hw Hs].
  split; [by rewrite Hw|]. rewrite Hs. cbn [e_log e_set_log]. rewrite sent_app, <- app_assoc. done.
Qed.

(** An attempt. *)
Lemma step_sends now jitter k last d evs pks e :
  waits k last d evs pks e -> 0 <= k < 2 ^ 32 - 1 -> (last + d <? now) && (MAX_ATTEMPT_COUNT <=? k) = false ->
  runs (step now jitter) e (fun _ e' =>
    waits (k + 1) now (d + (d + jitter)) (evs ++ if k =? 1 then [EvExpired cb tid false] else []) (pks ++ attempt) e').
Proof using Hsend.
  intros ((q & Hq & Ha) & (n & Hn & Haddr & Hnr) & Hev & Hpk) Hk Hexp. pose proof Ha as (H1 & H2 & H3 & H4 & H5 & H6 & H7 & H8 & H9).
  unfold requestStep. apply runs_bind. unfold the_req. eexists _, _. rewrite Hq. split; [done|].
  unfold rq_pending at 1. rewrite H1. cbn [bool_decide decide negb]. rewrite bool_decide_true by done. cbn [negb].
  rewrite (asks_expired k last d now q Ha), Hexp. apply runs_bind.
  apply runs_weaken with (Q := fun _ e1 => (exists n', w_nodes (e_world e1) !! p = Some n' /\ n_addr n' = addr /\ n_requests n' = [(tid, r)]) /\
    w_log (e_world e1) = (evs ++ if k =? 1 then [EvExpired cb tid false] else []) /\ sent (e_log e1) = pks).
  { rewrite H7, H6, H3. destruct (k =? 1); cbn [when].
    - apply runs_modify. cbn. rewrite Hev. split_and!; eauto.
    - apply runs_ret. rewrite app_nil_r. split_and!; eauto. }
  intros u1 e1 ((n1 & Hn1 & Ha1 & Hr1) & Hev1 & Hpk1). rewrite H2.
  apply runs_bind. eexists _, _. unfold the_node at 1. rewrite Hn1. split; [done|].
  apply runs_bind. eexists _, _. split; [reflexivity|]. rewrite Hsend. cbn [unreachable].
  set (q2 := rq_set_attempt_duration _ _).
  assert (asks (k + 1) now (d + (d + jitter)) q2) as Hq2.
  { unfold asks, q2. cbn. rewrite H7, H9, wrap_small by lia. done. }
  apply runs_bind. apply runs_weaken with (Q := fun q' e2 => q' = q2 /\ e_world e2 = e_world e1 /\ sent (e_log e2) = pks ++ attempt).
  { assert (rq_parts q2 = parts) as -> by apply Hq2. destruct parts as [|b bs] eqn:Ep.
    - apply runs_ret. split; [done|]. split; [done|]. cbn [e_log e_set_log]. rewrite sent_app, Hpk1, Ha1, H4. unfold attempt. by rewrite Ep.
    - apply runs_bind. eapply runs_weaken; [apply send_all_runs|]. intros u2 e2 [Hw2 Hs2]. apply runs_ret.
      split; [done|]. split; [done|]. rewrite Hs2. cbn [e_log e_set_log]. rewrite sent_app, Hpk1, Ha1, H4. unfold attempt. rewrite Ep.
      rewrite <- app_assoc. assert (rq_tid q2 = tid) as -> by apply Hq2. done. }
  intros q' e2 (-> & Hw2 & Hpk2). apply runs_bind. apply runs_modify. eexists _, _. split; [done|]. 
  unfold waits. cbn [e_world e_set_world e_log e_set_log w_upd_req w_reqs w_nodes w_log emit modify].
  rewrite Hw2, app_nil_r, sent_app, lookup_insert_eq. cbn. rewrite app_nil_r. split_and!; eauto.
Qed.

(** The end: the node expires, and the request with it. *)
Lemma step_expires now jitter k last d evs pks e :
  waits k last d evs pks e -> (last + d <? now) && (MAX_ATTEMPT_COUNT <=? k) = true ->
  runs (step now jitter) e (fun _ e' => expired (evs ++ [EvExpired cb tid true]) pks e').
Proof.
  intros ((q & Hq & Ha) & (n & Hn & Haddr & Hnr) & Hev & Hpk) Hexp. pose proof Ha as (H1 & H2 & H3 & H4 & H5 & H6 & H7 & H8 & H9).
  unfold requestStep. apply runs_bind. unfold the_req. eexists _, _. rewrite Hq. split; [done|].
  unfold rq_pending at 1. rewrite bool_decide_true by done. cbn [negb].
  rewrite (asks_expired k last d now q Ha), Hexp, H2, H3. unfold expire_request. apply runs_bind.
  apply runs_weaken with (Q := fun _ e1 => expired (evs ++ [EvExpired cb tid true]) pks e1).
  - unfold runs, on_world, setExpired. rewrite Hn, Hnr. cbn [w_reqs_setExpired]. unfold w_req_setExpired. cbn [w_reqs w_upd_node].
    rewrite Hq. unfold rq_setExpired, rq_pending. rewrite bool_decide_true by done. rewrite H6, H3. cbn [mbind outcome_bind w_reqs_setExpired].
    eexists _, _. split; [done|]. unfold expired. cbn. rewrite !lookup_insert_eq, Hev. split_and!; eauto.
  - intros u e1 He. apply runs_bind. destruct He as (Hq1 & (n1 & Hn1 & ? & ?) & Hev1 & Hpk1). unfold the_node.
    eexists _, _. rewrite Hn1. split; [done|]. unfold when. destruct (negb _); [apply runs_modify|apply runs_ret];
      unfold expired; cbn; split_and!; eauto.
Qed.

(** Nothing happens to a request that is over. *)
Lemma step_over now jitter evs pks e :
  expired evs pks e -> step now jitter e = (Ret tt, e).
Proof.
  intros ((q & Hq & Hs) & _). unfold requestStep. unfold mbind, M_bind, the_req. rewrite Hq. unfold rq_pending.
  by rewrite Hs.
Qed.

(** [sendRequest] of a new request to a node that has no other. *)
Definition fresh_request (q : Request) : Prop :=
  asks 0 (rq_last_try q) (MAX_RESPONSE_TIME / 2) q.

Lemma send_first now jitter q n e :
  w_reqs (e_world e) !! r = Some q -> w_nodes (e_world e) !! p = Some n -> n_addr n = addr -> n_requests n = [] ->
  fresh_request q ->
  runs (sendRequest config sendTo now jitter r) e (fun _ e' =>
    waits 1 now (MAX_RESPONSE_TIME / 2 + (MAX_RESPONSE_TIME / 2 + jitter)) (w_log (e_world e)) (sent (e_log e) ++ attempt) e').
Proof using Hsend.
  intros Hq Hn Haddr Hnr Hf. pose proof Hf as (H1 & H2 & H3 & H4 & H5 & H6 & H7 & H8 & H9).
  unfold sendRequest. apply runs_bind. unfold the_req at 1. eexists _, _. rewrite Hq. split; [done|].
  apply runs_bind. unfold the_node at 1. eexists _, _. rewrite H2, Hn. split; [done|].
  apply runs_bind. apply runs_weaken with (Q := fun _ e1 => e_world e1 = e_world e /\ e_log e1 = e_log e).
  { unfold when. case_match; [apply runs_modify|apply runs_ret]; done. }
  intros u1 e1 [Hw1 Hl1]. apply runs_bind, runs_modify. apply runs_bind.
  apply runs_weaken with (Q := fun _ e2 => waits 0 (rq_last_try q) (MAX_RESPONSE_TIME / 2) (w_log (e_world e)) (sent (e_log e)) e2).
  { unfold runs, on_world, requested. cbn [e_world e_set_world w_upd_req w_nodes w_reqs]. rewrite Hw1, Hn, lookup_insert_eq.
    rewrite Hnr. cbn [om_find]. eexists _, _. split; [done|].
    unfold waits. cbn. rewrite Hl1, !lookup_insert_eq. cbn. rewrite H3, app_nil_r. split_and!; [|by eexists|done|done].
    eexists. split; [done|]. by unfold asks. }
  intros u2 e2 Hw. eapply runs_weaken; [eapply (step_sends now jitter 0); [exact Hw|lia|by rewrite andb_false_r]|].
  intros u3 e3. cbn. by rewrite app_nil_r.
Qed.

(** C26. A request that gets no answer, the only one of its node, over a socket that
    accepts every packet. The packet goes out with [sendRequest]; the first two timers
    send it again, whenever they run, and the first of them calls the expiration
    callback with [false]. The third timer, when it runs strictly later than it is
    due, sends nothing: it expires the request and its node and calls the callback a
    second time, with [true]; later timers do nothing. Run at the very time it is due
    or before, it sends the packet a fourth time and the request still waits. Nothing
    else is called. *)
Theorem three_attempts q n e t0 t1 t2 t3 j0 j1 j2 j3 :
  let d1 := MAX_RESPONSE_TIME / 2 + (MAX_RESPONSE_TIME / 2 + j0) in
  let d2 := d1 + (d1 + j1) in
  let d3 := d2 + (d2 + j2) in
  w_reqs (e_world e) !! r = Some q -> w_nodes (e_world e) !! p = Some n -> n_addr n = addr -> n_requests n = [] ->
  fresh_request q ->
  runs (sendRequest config sendTo t0 j0 r;; step t1 j1;; step t2 j2;; step t3 j3) e (fun _ e' =>
    if t2 + d3 <? t3
    then expired (w_log (e_world e) ++ [EvExpired cb tid false; EvExpired cb tid true])
           (sent (e_log e) ++ attempt ++ attempt ++ attempt) e' /\
         forall t4 j4, step t4 j4 e' = (Ret tt, e')
    else waits 4 t3 (d3 + (d3 + j3)) (w_log (e_world e) ++ [EvExpired cb tid false])
           (sent (e_log e) ++ attempt ++ attempt ++ attempt ++ attempt) e').
Proof using Hsend.
  intros d1 d2 d3 Hq Hn Ha Hnr Hf.
  apply runs_bind. eapply runs_weaken; [by apply (send_first t0 j0 q n)|]. intros u1 e1 H1.
  apply runs_bind. eapply runs_weaken; [eapply (step_sends t1 j1 1); [exact H1|lia|by rewrite andb_false_r]|]. intros u2 e2 H2.
  apply runs_bind. eapply runs_weaken; [eapply (step_sends t2 j2 2); [exact H2|lia|by rewrite andb_false_r]|]. intros u3 e3 H3.
  fold d1 d2 d3 in H3. destruct (t2 + d3 <? t3) eqn:L.
  - eapply runs_weaken; [eapply (step_expires t3 j3 3); [exact H3|by rewrite L]|].
    intros u4 e4 H4. split; [|intros t4 j4; exact (step_over _ _ _ _ _ H4)]. cbn in H4. rewrite !app_nil_r, <- !app_assoc in H4. exact H4.
  - eapply runs_weaken; [eapply (step_sends t3 j3 3); [exact H3|lia|by rewrite L]|].
    intros u4 e4 H4. cbn in H4. rewrite !app_nil_r, <- !app_assoc in H4. exact H4.
Qed.
End Retry.

Module RetryDemo.
#[local] Existing Instance GnutlsDemo.demo.
Definition addr : SockAddr := [2; 0; 31; 144; 192; 0; 2; 1] ++ replicate 8 0.
Definition node : Node := Node_make WireDemo.key addr false 5.
Definition request : Request := Request_make MT_Ping 9 1%positive [1; 2; 3] (Some 0%nat) None (Some 4%nat).
Definition engine : Engine :=
  e_set_world (mkWorld {[1%positive := node]} {[2%positive := request]} []) ServingDemo.engine.
End RetryDemo.

(** Half a second, then the delays double; the third timer is late. *)
Lemma three_attempts_witness :
  runs (sendRequest ServingDemo.config (fun _ _ _ _ => E_OK) 0 0 2%positive;;
        requestStep ServingDemo.config (fun _ _ _ _ => E_OK) (seconds 2) 0 2%positive;;
        requestStep ServingDemo.config (fun _ _ _ _ => E_OK) (seconds 5) 0 2%positive;;
        requestStep ServingDemo.config (fun _ _ _ _ => E_OK) (seconds 10) 0 2%positive) RetryDemo.engine (fun _ e' =>
    expired 1%positive 2%positive [EvExpired 4 9 false; EvExpired 4 9 true] (replicate 3 (RetryDemo.addr, [1; 2; 3])) e').
Proof.
  eapply runs_weaken; [apply (three_attempts (H := ServingDemo.silent) ServingDemo.config (fun _ _ _ _ => E_OK) (fun _ _ _ _ => eq_refl)
    1%positive 2%positive 9 RetryDemo.addr [1; 2; 3] [] 4
    RetryDemo.request RetryDemo.node RetryDemo.engine 0 (seconds 2) (seconds 5) (seconds 10) 0 0 0 0)|].
  - reflexivity.
  - reflexivity.
  - reflexivity.
  - reflexivity.
  - by repeat split.
  - intros u e' [He _]. exact He.
Defined.
