(* ===== verification/Partial.v ===== *)
(** * Partial: requests whose value comes in parts

    Follows a large value from [sendAnnounceValue] of one engine to [process] of the
    other: the packet that announces the size opens a partial message, the packets of
    [sendValueParts] fill it, and the last one hands the whole message to [process]. *)
From S2P Require Import Prelude StdMap InfoHash SockAddr Node NodeCache MsgPack Value Query Message Wire Fragment Reply NodeInfo.
From S2P Require Import RateLimiter NetworkEngine Serving.

Lemma om_set_again {V} k (v w : V) m : om_set Z.ltb k v (om_set Z.ltb k w m) = om_set Z.ltb k v m.
Proof.
  induction m as [|[k' x] m IH]; cbn; [by rewrite Z.ltb_irrefl|].
  destruct (k <? k') eqn:E1; cbn; [by rewrite Z.ltb_irrefl|]. destruct (k' <? k) eqn:E2; cbn; rewrite E1, E2; [by rewrite IH|done].
Qed.

Lemma om_find_set_Z {V} k (v : V) m : om_find Z.ltb k (om_set Z.ltb k v m) = Some v.
Proof.
  induction m as [|[k' x] m IH]; cbn; [by rewrite Z.ltb_irrefl|].
  destruct (k <? k') eqn:E1; cbn; [by rewrite Z.ltb_irrefl|]. destruct (k' <? k) eqn:E2; cbn; rewrite E1, E2; done.
Qed.

Section Partial.
Context {G : Gnutls} `{!GnutlsLaws G} {H : Handlers} `{!HandlersLaws H}.
Context (AF_INET6 : Z) (HAF6 : 2 < AF_INET6 < 256) (myid : Hash) (Hmyid : wf_hash HASH_LEN myid).
Context (config : NetworkConfig) (Hnet : 0 <= nc_network config < 2 ^ 32).
Context (draw_tid : ptr -> Tid) (draw_hash : ptr -> Hash) (sendTo : list output -> SockAddr -> bytes -> bool -> errno).
Context (sys_now steady_now now : Z) (tid : Tid) (Htid : 0 <= tid < 2 ^ 32).
Context (f : SockAddr).
Abbreviation from := (getMappedIPv4 AF_INET6 f).
Context (Hbytes : wf_bytes from) (Hmart : isMartian AF_INET6 from = false).

Abbreviation receive b := (processMessage AF_INET6 myid config draw_tid draw_hash sendTo sys_now steady_now now b f).
Abbreviation process_ m := (process AF_INET6 myid config draw_tid draw_hash sendTo now m from).

(** Packets that arrive one after the other. *)
Fixpoint receive_all (l : list bytes) : M unit :=
  match l with
  | [] => mret tt
  | b :: l' => receive b;; receive_all l'
  end.

Definition forget : M unit := modify (fun e => e_set_partial (om_erase Z.ltb tid (e_partial_messages e)) e).

(** The state with a partial message, after some timers were set. *)
Definition holding (pm : PartialMessage) (timers : list output) (e : Engine) : Engine :=
  e_set_partial (om_set Z.ltb tid pm (e_partial_messages e)) (e_set_log (e_log e ++ timers) e).

Lemma holding_again pm pm' l l' e : holding pm' l' (holding pm l e) = holding pm' (l ++ l') e.
Proof. unfold holding. cbn. by rewrite om_set_again, app_assoc. Qed.

Lemma holding_find pm l e : om_find Z.ltb tid (e_partial_messages (holding pm l e)) = Some pm.
Proof. apply om_find_set_Z. Qed.

Abbreviation part i start data := (part_msg (nc_network config) tid i start data).
Abbreviation processPart_ m := (processPart AF_INET6 myid config draw_tid draw_hash sendTo now m from).

(** A packet of parts is handed to the partial message of its transaction. *)
Lemma receive_part i start data e :
  isNodeBlacklisted from e = false -> 0 <= i < 2 ^ 32 -> Z.of_nat start < 2 ^ 32 -> wf_blob data ->
  receive (part_bytes (nc_network config) tid i start data) e = processPart_ (part i start data) e.
Proof using Hmart Hnet Htid.
  intros Hbl Hi Hs Hd. unfold processMessage. rewrite Hmart, gets_bind, Hbl.
  rewrite <- (app_nil_r (part_bytes _ _ _ _ _)).
  rewrite (part_parses AF_INET6 (nc_network config) Hnet sys_now steady_now tid Htid i start data []) by (done || constructor).
  cbn [caught]. rewrite (bind_Ret (lift (Ret (Some (part i start data)))) _ e (Some (part i start data)) e) by done.
  cbn [pm_network part_msg pm_set_value_parts pm_set_type pm_set_tid pm_set_network]. rewrite Z.eqb_refl. cbn [negb]. done.
Qed.

Lemma part_received m start data st last timers e :
  (append (part 0 start data) m).2 = true ->
  let msg := (append (part 0 start data) m).1 in
  (complete msg = Ret (msg, false) ->
   processPart_ (part 0 start data) (holding (mkPartial from st last m) timers e) =
   (Ret tt, holding (mkPartial from st now msg) (timers ++ [OTimer (now + RX_TIMEOUT) (JMaintain tid)]) e)) /\
  (forall full, complete msg = Ret (full, true) ->
   processPart_ (part 0 start data) (holding (mkPartial from st last m) timers e) =
   (process_ full;; forget) (holding (mkPartial from st now full) timers e)).
Proof using Hbytes.
  intros Hadd msg. set (e1 := holding (mkPartial from st last m) timers e). unfold processPart. rewrite !gets_bind.
  change (pm_tid (part 0 start data)) with tid. unfold e1 at 1 3. rewrite holding_find.
  cbn [pa_from pa_msg pa_start]. rewrite (proj2 (addr_equals_iff from from Hbytes Hbytes) eq_refl). cbn [negb].
  destruct (append (part 0 start data) m) as [msg' added] eqn:Ea. cbn [fst snd] in *. subst msg added. cbn [negb].
  assert (forall pm, set_partial tid pm e1 = (Ret tt, holding pm timers e)) as Hset.
  { intros pm. unfold e1, set_partial, modify, holding. cbn. by rewrite om_set_again. }
  split.
  - intros Hc. rewrite (bind_Ret _ _ _ tt (holding (mkPartial from st now msg') timers e)) by apply Hset.
    rewrite Hc. unfold lift, mbind at 1, M_bind at 1. unfold emit, modify, holding. cbn. by rewrite <- app_assoc.
  - intros full Hc. rewrite (bind_Ret _ _ _ tt (holding (mkPartial from st now msg') timers e)) by apply Hset.
    rewrite Hc. rewrite (bind_Ret (lift (Ret (full, true))) _ _ (full, true) (holding (mkPartial from st now msg') timers e)) by done.
    cbv iota beta. rewrite (bind_Ret _ _ _ tt (holding (mkPartial from st now full) timers e)); [done|].
    unfold set_partial, modify, holding. cbn. by rewrite om_set_again.
Qed.

Lemma bind_unit (m : M unit) e : (m ≫= fun _ => mret tt) e = m e.
Proof. unfold mbind, M_bind. destruct (m e) as [[[]|s|s|s] e']; done. Qed.

(** ** All the packets *)

Section Value.
Context (b : bytes) (Hb : wf_blob b) (x : Value) (Hx : value_of_bytes b = Ret x).
Context (m : ParsedMessage) (Hm : pm_values m = []).

Definition with_data (g : bytes) : ParsedMessage := pm_set_value_parts [(0, (len b, g))] m.
Definition whole : ParsedMessage := pm_set_values [x] (with_data b).

Lemma append_next start :
  (start < length b)%nat ->
  append (part 0 start (chunk b start)) (with_data (take start b)) = (with_data (take (start + MTU) b), true).
Proof.
  intros Hs. unfold append, with_data. cbn [pm_value_parts part_msg pm_set_value_parts append_loop om_find].
  change (0 <? 0) with false. cbv iota. unfold len. rewrite length_take_le by lia.
  rewrite (proj2 (Z.leb_gt _ _)) by lia. rewrite Z.eqb_refl. cbn [negb om_set]. change (0 <? 0) with false. cbv iota.
  by rewrite take_chunk.
Qed.

Lemma complete_data g : complete (with_data g) = if len g <? len b then Ret (with_data g, false)
  else v ← value_of_bytes g; Ret (pm_set_values [v] (with_data g), true).
Proof.
  unfold complete, with_data. cbn [pm_value_parts pm_set_value_parts existsb fst snd read_parts]. rewrite orb_false_r.
  destruct (len g <? len b); [done|]. destruct (value_of_bytes g) as [v|s|s|s]; cbn [mbind outcome_bind]; try done.
  change (pm_values (pm_set_value_parts [(0, (len b, g))] m)) with (pm_values m). by rewrite Hm.
Qed.

Lemma parts_received fuel start st last timers e :
  (start < length b)%nat -> (length b - start < fuel)%nat -> isNodeBlacklisted from e = false ->
  exists timers', sent timers' = [] /\
    receive_all (value_parts (nc_network config) tid 0 b fuel start) (holding (mkPartial from st last (with_data (take start b))) timers e) =
    (process_ whole;; forget) (holding (mkPartial from st now whole) (timers ++ timers') e).
Proof using All.
  assert (0 < MTU)%nat as HM by (unfold MTU; lia). assert (Z.of_nat (length b) < 2 ^ 32) as Hbl32 by apply Hb.
  revert start last timers. induction fuel as [|fuel IH]; intros start last timers Hs Hf Hbl; [lia|].
  cbn [value_parts]. rewrite chunk_eq by lia.
  assert (forall e0, isNodeBlacklisted from e0 = false ->
    receive (part_bytes (nc_network config) tid 0 start (chunk b start)) e0 = processPart_ (part 0 start (chunk b start)) e0) as Hrec.
  { intros e0 He0. apply receive_part; [done|lia|lia|by apply chunk_wf]. }
  pose proof (append_next start Hs) as Ha.
  destruct (part_received (with_data (take start b)) start (chunk b start) st last timers e) as [Hwait Hfull]; [by rewrite Ha|].
  rewrite Ha in Hwait, Hfull. cbn [fst] in Hwait, Hfull. rewrite complete_data in Hwait, Hfull.
  unfold len in Hwait, Hfull. rewrite length_take in Hwait, Hfull.
  destruct (Nat.eqb_spec (Nat.min (start + MTU) (length b)) (length b)) as [E|E].
  - exists []. split; [done|]. cbn [receive_all]. rewrite bind_unit, Hrec by done. rewrite app_nil_r. apply Hfull.
    rewrite (proj2 (Z.ltb_ge _ _)) by lia. rewrite take_ge by lia. by rewrite Hx.
  - rewrite (proj2 (Z.ltb_lt _ _)) in Hwait by lia. specialize (Hwait eq_refl).
    cbn [receive_all]. rewrite <- Hrec in Hwait by done. rewrite (bind_Ret _ _ _ _ _ Hwait).
    assert (Nat.min (start + MTU) (length b) = start + MTU)%nat as Emin by lia. rewrite Emin.
    destruct (IH (start + MTU)%nat now (timers ++ [OTimer (now + RX_TIMEOUT) (JMaintain tid)])) as (ts & Hts & Hr); [lia|lia|done|].
    exists (OTimer (now + RX_TIMEOUT) (JMaintain tid) :: ts). split; [done|]. rewrite Hr. by rewrite <- app_assoc.
Qed.
End Value.

(** ** From one engine to the other *)

Section Peer.
Context (peer : Hash) (Hpeer : wf_hash HASH_LEN peer) (Hother : op_eq HASH_LEN peer myid = false) (Hid : op_bool HASH_LEN peer = true).
Context (peer_sys peer_steady : Z) (Hpeer_sys : 0 <= peer_sys <= time_max) (Hsys : 0 <= sys_now <= time_max).
Context (h : Hash) (v : Value) (created sent_at : Z) (token : bytes).

Abbreviation request := (OutAnnounce h v created sent_at token).
Abbreviation sv := (pack (vobj v)).
Abbreviation header := (expected peer (nc_network config) peer_sys peer_steady sys_now steady_now request tid).

Lemma header_parts : inlined [v] = false -> oversize sv = false -> pm_value_parts header = [(0, (len sv, []))] /\ pm_values header = [].
Proof.
  intros Hi Ho. cbn [expected]. unfold with_values, with_creation. rewrite Hi. unfold oversize in Ho.
  destruct (created <? sent_at); cbn [pm_value_parts pm_set_value_parts svals map announced_sizes]; by rewrite Ho.
Qed.

Lemma large_nonempty : wf_sent v -> inlined [v] = false -> (0 < length sv)%nat.
Proof.
  intros (_ & _ & Hl) Hi. unfold inlined in Hi. cbn [length svals map foldl andb Z.of_nat Z.ltb] in Hi.
  apply andb_false_iff in Hi as [Hi|Hi]; [done|]. apply Z.ltb_ge in Hi. unfold MAX_PACKET_VALUE_SIZE in Hi.
  rewrite wrap_small in Hi by (unfold len in *; lia). unfold len in Hi. lia.
Qed.

Lemma header_received b e :
  wf_outgoing peer_sys peer_steady request -> inlined [v] = false -> oversize sv = false ->
  request_packet AF_INET6 peer (nc_network config) peer_sys peer_steady request tid = Ret (b, [sv]) ->
  isNodeBlacklisted from e = false -> (rateLimit AF_INET6 config now from e).1 = Ret true ->
  om_find Z.ltb tid (e_partial_messages e) = None ->
  exists e1, sent (e_log e1) = sent (e_log e) /\ isNodeBlacklisted from e1 = false /\
  receive b e = (Ret tt, holding (mkPartial from now now header)
    [OTimer (now + RX_MAX_PACKET_TIME) (JMaintain tid); OTimer (now + RX_TIMEOUT) (JMaintain tid)] e1).
Proof using All.
  intros Hr Hi Ho Hb Hbl Hl Hp. destruct (rateLimit_frame AF_INET6 config now from e) as (ok & l & gl & k & El).
  rewrite El in Hl. injection Hl as ->.
  exists (e_set_maintenance k (e_set_limiter gl (e_set_limiters l e))). split; [done|]. split; [done|].
  destruct (requests_read AF_INET6 HAF6 peer Hpeer (nc_network config) Hnet peer_sys peer_steady Hpeer_sys sys_now steady_now Hsys
    request tid [] Hr Htid ltac:(constructor)) as (b' & Hb' & Hparse).
  rewrite Hb in Hb'. injection Hb' as <- _. rewrite app_nil_r in Hparse.
  destruct (expected_fields config peer peer_sys peer_steady sys_now steady_now request tid) as (E1 & E2 & E3 & E4).
  unfold processMessage. rewrite Hmart, gets_bind, Hbl, Hparse. cbn [caught].
  rewrite (bind_Ret (lift (Ret (Some header))) _ e (Some header) e) by done. rewrite E4, Z.eqb_refl, E3. cbn [negb request_type].
  rewrite E2, Hother, Hid. cbn [orb negb is_request]. rewrite (bind_Ret _ _ _ _ _ El). cbn [negb].
  destruct (header_parts Hi Ho) as [Hvp _]. rewrite Hvp. unfold startPartial. rewrite gets_bind, E1.
  cbn [e_partial_messages e_set_maintenance e_set_limiter e_set_limiters]. rewrite Hp.
  unfold set_partial, emit, modify, mbind, M_bind, holding. cbn. by rewrite <- app_assoc.
Qed.

(** C24. A value too large for a packet reaches the other engine: the packet that
    announces it opens a partial message, the packets of its parts, received in order,
    complete it, and the engine processes the announcement with exactly the value that
    was sent, and answers it. *)
Theorem large_value_processed x e :
  wf_outgoing peer_sys peer_steady request -> inlined [v] = false -> oversize sv = false -> transmitted v = Ret x ->
  wf_addr AF_INET6 from -> isNodeBlacklisted from e = false -> (rateLimit AF_INET6 config now from e).1 = Ret true ->
  om_find Z.ltb tid (e_partial_messages e) = None ->
  exists b full e1, request_packet AF_INET6 peer (nc_network config) peer_sys peer_steady request tid = Ret (b, [sv]) /\
    receive_all (b :: sendValueParts (nc_network config) tid [sv]) e = (process_ full;; forget) e1 /\
    pm_type full = MT_AnnounceValue /\ pm_id full = peer /\ pm_info_hash full = h /\ pm_values full = [x] /\ pm_token full = token /\
    runs (receive_all (b :: sendValueParts (nc_network config) tid [sv])) e (fun _ e' => replied AF_INET6 myid from tid e e').
Proof using All.
  intros Hr Hi Ho Hx Hf Hbl Hl Hp. pose proof Hr as (_ & Hv & _).
  destruct (requests_read AF_INET6 HAF6 peer Hpeer (nc_network config) Hnet peer_sys peer_steady Hpeer_sys sys_now steady_now Hsys
    request tid [] Hr Htid ltac:(constructor)) as (b & Hb & _).
  assert (request_parts request = [sv]) as Eparts by (cbn [request_parts]; unfold sent_parts; by rewrite Hi). rewrite Eparts in Hb.
  destruct (header_received b e Hr Hi Ho Hb Hbl Hl Hp) as (e1 & Hs1 & Hbl1 & Hrec). destruct (header_parts Hi Ho) as [Hvp Hvals].
  assert (wf_blob sv) as Hsv by (split; [apply Hv|]; eapply pack_wf, (vobj_wf 3); done).
  pose proof (large_nonempty Hv Hi) as Hne.
  assert (header = with_data sv header (take 0 sv)) as Eh by (unfold with_data; rewrite take_0, <- Hvp; symmetry; apply set_parts_same).
  assert (value_of_bytes sv = Ret x) as Hval by (by rewrite value_of_vobj).
  destruct (parts_received sv Hsv x Hval header Hvals (S (length sv)) 0 now now
    [OTimer (now + RX_MAX_PACKET_TIME) (JMaintain tid); OTimer (now + RX_TIMEOUT) (JMaintain tid)] e1) as (ts & Hts & Hall); [done|lia|done|].
  rewrite <- Eh in Hall. set (full := whole sv x header) in *.
  assert (receive_all (b :: sendValueParts (nc_network config) tid [sv]) e = (process_ full;; forget)
    (holding (mkPartial from now now full) ([OTimer (now + RX_MAX_PACKET_TIME) (JMaintain tid); OTimer (now + RX_TIMEOUT) (JMaintain tid)] ++ ts) e1)) as Eall.
  { cbn [receive_all]. rewrite (bind_Ret _ _ _ _ _ Hrec). unfold sendValueParts. cbn [sendValueParts_from]. rewrite app_nil_r. exact Hall. }
  destruct (expected_fields config peer peer_sys peer_steady sys_now steady_now request tid) as (E1 & E2 & E3 & E4).
  assert (pm_tid full = tid /\ pm_id full = peer /\ pm_type full = MT_AnnounceValue) as (F1 & F2 & F3) by (by split_and!).
  exists b, full, (holding (mkPartial from now now full) ([OTimer (now + RX_MAX_PACKET_TIME) (JMaintain tid); OTimer (now + RX_TIMEOUT) (JMaintain tid)] ++ ts) e1).
  split_and!; try done.
  - unfold full, whole, with_data. cbn [expected]. unfold with_values, with_creation. by destruct (inlined [v]), (created <? sent_at).
  - unfold full, whole, with_data. cbn [expected]. unfold with_values, with_creation. by destruct (inlined [v]), (created <? sent_at).
  - unfold runs. rewrite Eall. apply runs_bind.
    eapply runs_weaken; [apply process_runs; [done..|]|].
    { split; [by rewrite F1|]. rewrite F3. split; [done|]. constructor; [|constructor]. rewrite (transmitted_id v x Hx). apply Hv. }
    rewrite F1. intros u e2 (d & ps & H1 & H2). apply runs_modify. exists d, ps. split; [|done]. cbn [e_log e_set_partial].
    rewrite H1. unfold holding. cbn [e_log e_set_partial e_set_log]. by rewrite !sent_app, Hts, Hs1, app_nil_r.
Qed.
End Peer.
End Partial.

Lemma large_value_processed_witness :
  exists b full e1,
    request_packet (G := GnutlsDemo.demo) 10 WireDemo.key 7 (seconds 2000) 300 (OutAnnounce WireDemo.key FragmentDemo.big 100 200 [1; 2; 3]) 77 =
      Ret (b, [pack (vobj FragmentDemo.big)]) /\
    receive_all 10 WireDemo.me ServingDemo.config (fun _ => 5) (fun _ => WireDemo.me) (fun _ _ _ _ => E_OK) (seconds 2000) 300 400
      ServingDemo.from (b :: sendValueParts 7 77 [pack (vobj FragmentDemo.big)]) ServingDemo.engine =
      (process 10 WireDemo.me ServingDemo.config (fun _ => 5) (fun _ => WireDemo.me) (fun _ _ _ _ => E_OK) 400 full ServingDemo.from;; forget 77) e1 /\
    pm_values full = [FragmentDemo.big].
Proof.
  destruct (large_value_processed (G := GnutlsDemo.demo) 10 ltac:(lia) WireDemo.me ltac:(by_compute) ServingDemo.config ltac:(done)
    (fun _ => 5) (fun _ => WireDemo.me) (fun _ _ _ _ => E_OK) (seconds 2000) 300 400 77 ltac:(lia) ServingDemo.from ltac:(by_compute)
    ltac:(vm_compute; reflexivity) WireDemo.key ltac:(by_compute) ltac:(vm_compute; reflexivity) ltac:(vm_compute; reflexivity)
    (seconds 2000) 300 ltac:(by_compute) ltac:(by_compute) WireDemo.key FragmentDemo.big 100 200 [1; 2; 3] FragmentDemo.big ServingDemo.engine)
    as (b & full & e1 & H1 & H2 & _ & _ & _ & H3 & _).
  - split; [by_compute|]. split; [exact FragmentDemo.big_sent|].
    split; [by_compute|]. intros _. split; [lia|]. split; [reflexivity|]. unfold seconds. lia.
  - vm_compute. reflexivity.
  - vm_compute. reflexivity.
  - reflexivity.
  - split; [by_compute|]. left. vm_compute. done.
  - vm_compute. reflexivity.
  - vm_compute. reflexivity.
  - reflexivity.
  - exists b, full, e1. split; [exact H1|]. split; [exact H2|exact H3].
Defined.
