(* ===== verification/DhtServe.v ===== *)
(** * DhtServe: how a node serves requests

    Models the request handlers of [class Dht] (src/opendht-2.1.4/src/dht.cpp):
    [makeToken], [tokenMatch], [rotateSecrets], [onPing], [onFindNode], [onGetValues],
    [onListen], [onAnnounce], [onRefresh], and [crypto::hash] (src/opendht-2.1.4/src/crypto.cpp).
    [gnutls_fingerprint] and the policies of the application's value types are parameters.
    A handler answers or raises a [DhtProtocolException]; [None] stands for a store that
    has not finished making room. *)
From S2P Require Import Prelude StdMap InfoHash SockAddr Node RoutingTable Value Query Storage DhtStorage Message.
From S2P Require Import DhtOps NetworkEngine.

Definition TOKEN_SIZE : nat := 32.
Definition TARGET_NODES : nat := 8.
Definition SEARCH_NODES : nat := 14.
Definition NON_AUTHORITATIVE_INFORMATION : Z := 203.

(** ** [crypto::hash] *)

Inductive digest := SHA1 | SHA256 | SHA512.

Definition gnutlsHashAlgo (min_res : nat) : digest :=
  if (32 <? min_res)%nat then SHA512 else if (20 <? min_res)%nat then SHA256 else SHA1.
Definition gnutlsHashSize (a : digest) : nat := match a with SHA512 => 64 | SHA256 => 32 | SHA1 => 20 end.

(** [uint64_t] in memory, on a little-endian host. *)
Definition secret_bytes (s : Z) : bytes := rev (be_bytes 8 s).

Section DhtServe.
Context {G : Gnutls} (AF_INET6 : Z) (deref : vptr -> Value) {PA : Partition} (types : list (Z * Z)).
Context (gnutls_fingerprint : digest -> bytes -> option bytes).
Context (storePolicy : Z -> Hash -> vptr -> Hash -> SockAddr -> bool * vptr).
Context (editPolicy : Z -> Hash -> vptr -> vptr -> Hash -> SockAddr -> bool * vptr).
Context (myid : Hash).

Definition crypto_hash (data : bytes) (hash_len : nat) : outcome bytes :=
  match gnutls_fingerprint (gnutlsHashAlgo hash_len) data with
  | None => Throw "Can't compute hash"
  | Some res => Ret (take (Nat.min hash_len (gnutlsHashSize (gnutlsHashAlgo hash_len))) res)
  end.

(** The members of [Dht] the handlers use. *)
Record DhtNode := mkDN {
  dn_store : DhtStore;
  dn_secret : Z;
  dn_oldsecret : Z;
  dn_buckets4 : list RoutingTable.Bucket;
  dn_buckets6 : list RoutingTable.Bucket;
  dn_world : World;
}.

Definition dn_set_store (s : DhtStore) (d : DhtNode) : DhtNode :=
  mkDN s (dn_secret d) (dn_oldsecret d) (dn_buckets4 d) (dn_buckets6 d) (dn_world d).

(** [rotateSecrets]; [s] is the number drawn. *)
Definition rotateSecrets (s : Z) (d : DhtNode) : DhtNode :=
  mkDN (dn_store d) s (dn_secret d) (dn_buckets4 d) (dn_buckets6 d) (dn_world d).

(** The data a token is made of: the secret, the address and the port as they lie in the
    socket address. *)
Definition endpoint (addr : SockAddr) : option bytes :=
  if getFamily addr =? AF_INET then Some (sin_addr addr ++ take 2 (drop 2 addr))
  else if getFamily addr =? AF_INET6 then Some (sin6_addr addr ++ take 2 (drop 2 addr))
  else None.

Definition token_data (c : Z) (e : bytes) : bytes := secret_bytes c ++ e.

(** [makeToken]. *)
Definition makeToken (addr : SockAddr) (old : bool) (d : DhtNode) : outcome bytes :=
  match endpoint addr with
  | None => Ret []
  | Some e => crypto_hash (token_data (if old then dn_oldsecret d else dn_secret d) e) TOKEN_SIZE
  end.

(** [tokenMatch]. *)
Definition tokenMatch (token : bytes) (addr : SockAddr) (d : DhtNode) : outcome bool :=
  if (length addr =? 0)%nat || negb (length token =? TOKEN_SIZE)%nat then Ret false
  else
    t ← makeToken addr false d;
    if bool_decide (token = t) then Ret true
    else (t' ← makeToken addr true d; Ret (bool_decide (token = t'))).

(** ** The handlers *)

Definition served : Type := option (outcome (DhtNode * (RequestAnswer + ProtocolException))).
Definition nothing : RequestAnswer := mkAnswer [] [] [] [].
Definition answer (a : RequestAnswer) (d : DhtNode) : served := Some (Ret (d, inl a)).
Definition refuse (code : Z) (msg : string) (d : DhtNode) : served := Some (Ret (d, inr (mkProto code (str msg)))).

(** A step that may raise an exception, or not end. *)
Definition step {A} (m : option (outcome A)) (f : A -> served) : served :=
  match m with
  | None => None
  | Some (Ret a) => f a
  | Some (Throw w) => Some (Throw w) | Some (Undef w) => Some (Undef w) | Some (Terminate w) => Some (Terminate w)
  end.

Definition closest (bs : list RoutingTable.Bucket) (id : Hash) (count : nat) (d : DhtNode) : option (outcome (list ptr)) :=
  match findClosestNodes (dn_world d) bs id (ds_now (dn_store d)) count with Some l => Some (Ret l) | None => None end.

(** The node a request comes from. *)
Definition from_node (p : ptr) (d : DhtNode) (f : Node -> served) : served :=
  match w_nodes (dn_world d) !! p with Some n => f n | None => Some (Undef "dangling node") end.

Definition dht_onPing (p : ptr) (d : DhtNode) : served := answer nothing d.

Definition dht_onFindNode (p : ptr) (target : Hash) (want : Z) (d : DhtNode) : served :=
  from_node p d (fun node =>
    step (Some (makeToken (n_addr node) false d)) (fun token =>
    step (if negb (Z.land want WANT4 =? 0) then closest (dn_buckets4 d) target TARGET_NODES d else Some (Ret [])) (fun nodes4 =>
    step (if negb (Z.land want WANT6 =? 0) then closest (dn_buckets6 d) target TARGET_NODES d else Some (Ret [])) (fun nodes6 =>
    answer (mkAnswer token [] nodes4 nodes6) d)))).

Definition dht_onGetValues (p : ptr) (hash : Hash) (q : Query) (d : DhtNode) : served :=
  if negb (op_bool HASH_LEN hash) then refuse NON_AUTHORITATIVE_INFORMATION "Get_values with no info_hash" d
  else
    from_node p d (fun node =>
      step (Some (makeToken (n_addr node) false d)) (fun token =>
      step (closest (dn_buckets4 d) hash TARGET_NODES d) (fun nodes4 =>
      step (closest (dn_buckets6 d) hash TARGET_NODES d) (fun nodes6 =>
      let values := match find_storage hash (dn_store d) with
                    | Some st => if st_empty st then [] else Storage.st_get deref (getFilter (q_where q)) st
                    | None => []
                    end in
      answer (mkAnswer token (map deref values) nodes4 nodes6) d)))).

Definition dht_onListen (p : ptr) (hash : Hash) (token : bytes) (sid : Z) (q : Query) (version : Z) (d : DhtNode) : served :=
  if negb (op_bool HASH_LEN hash) then refuse NON_AUTHORITATIVE_INFORMATION "Listen with no info_hash" d
  else
    from_node p d (fun node =>
      step (Some (tokenMatch token (n_addr node) d)) (fun ok =>
      if ok : bool then answer nothing (dn_set_store (storageAddListener deref hash p sid q version (dn_store d)) d)
      else refuse UNAUTHORIZED "Listen with wrong token" d)).

(** [getLocalById]. *)
Definition getLocalById (id : Hash) (vid : Z) (s : DhtStore) : option vptr :=
  match find_storage id s with Some st => getById deref vid st | None => None end.

(** One value of an announce: what is stored, if anything, is what the policy of its type
    leaves of it. *)
Definition announce_store (fuel : nat) (hash : Hash) (node : Node) (created : Z) (s : DhtStore) (vc : vptr) : option (outcome DhtStore) :=
  match storageStore AF_INET6 deref types fuel hash vc created (Some (n_addr node)) false s with
  | None => None
  | Some r => Some ('(_, s') ← r; Ret s')
  end.

Definition announce_value (fuel : nat) (hash : Hash) (node : Node) (created : Z) (v : vptr) (s : DhtStore) : option (outcome DhtStore) :=
  let store := announce_store fuel hash node created s in
  match getLocalById hash (id_of deref v) s with
  | Some lv =>
      if value_eq (deref lv) (deref v) then Some (Ret (storageRefresh deref types hash (id_of deref v) s).2)
      else let '(ok, vc) := editPolicy (v_type (deref lv)) hash lv v (n_id node) (n_addr node) in
           if ok then store vc else Some (Ret s)
  | None =>
      let '(ok, vc) := storePolicy (v_type (deref v)) hash v (n_id node) (n_addr node) in
      if ok then store vc else Some (Ret s)
  end.

Fixpoint announce_loop (fuel : nat) (hash : Hash) (node : Node) (created : Z) (vs : list vptr) (d : DhtNode) : served :=
  match vs with
  | [] => answer nothing d
  | v :: vs' =>
      if id_of deref v =? 0 then refuse NON_AUTHORITATIVE_INFORMATION "Put with invalid id" d
      else step (announce_value fuel hash node created v (dn_store d)) (fun s => announce_loop fuel hash node created vs' (dn_set_store s d))
  end.

(** Whether the node is too far from the key: eight good nodes, all closer. *)
Definition too_far (hash : Hash) (nodes : list ptr) (d : DhtNode) : bool :=
  (TARGET_NODES <=? length nodes)%nat &&
  match last nodes with
  | Some p => match w_nodes (dn_world d) !! p with Some n => xorCmp hash (n_id n) myid <? 0 | None => false end
  | None => false
  end.

Definition dht_onAnnounce (fuel : nat) (p : ptr) (hash : Hash) (token : bytes) (values : list vptr) (creation_date : Z) (d : DhtNode) : served :=
  if negb (op_bool HASH_LEN hash) then refuse NON_AUTHORITATIVE_INFORMATION "Put with no info_hash" d
  else
    from_node p d (fun node =>
      step (Some (tokenMatch token (n_addr node) d)) (fun ok =>
      if negb ok then refuse UNAUTHORIZED "Put with wrong token" d
      else
        step (closest (if getFamily (n_addr node) =? AF_INET then dn_buckets4 d else dn_buckets6 d) hash SEARCH_NODES d) (fun nodes =>
        if too_far hash nodes d then answer nothing d
        else announce_loop fuel hash node (Z.min creation_date (ds_now (dn_store d))) values d))).

Definition dht_onRefresh (p : ptr) (hash : Hash) (token : bytes) (vid : Z) (d : DhtNode) : served :=
  from_node p d (fun node =>
    step (Some (tokenMatch token (n_addr node) d)) (fun ok =>
    if negb ok then refuse UNAUTHORIZED "Put with wrong token" d
    else
      let '(found, s) := storageRefresh deref types hash vid (dn_store d) in
      if found : bool then answer nothing (dn_set_store s d)
      else refuse NOT_FOUND "Access operation for unknown storage" (dn_set_store s d))).
End DhtServe.

(** ** Tokens *)

Section Tokens.
Context (AF_INET6 : Z) (gnutls_fingerprint : digest -> bytes -> option bytes).
(** Documented of [gnutls_fingerprint]: it fails only for an unknown digest, and writes as
    many bytes as the digest has. *)
Hypothesis fingerprint_size : forall a data, exists r, gnutls_fingerprint a data = Some r /\ length r = gnutlsHashSize a.

Lemma hash_token data : exists r, gnutls_fingerprint SHA256 data = Some r /\ crypto_hash gnutls_fingerprint data TOKEN_SIZE = Ret r /\ length r = TOKEN_SIZE.
Proof using fingerprint_size.
  destruct (fingerprint_size SHA256 data) as (r & Hr & Hl). exists r. split; [done|]. unfold crypto_hash. cbn. rewrite Hr.
  cbn in Hl. split; [|done]. by rewrite take_ge by lia.
Qed.

Lemma endpoint_nonempty addr e : endpoint AF_INET6 addr = Some e -> 2 < AF_INET6 -> length addr <> 0%nat.
Proof using Type.
  intros H Hlt. destruct addr; [|done]. unfold endpoint in H. assert (getFamily [] = 0) as E by done. rewrite E in H.
  rewrite (proj2 (Z.eqb_neq 0 AF_INET6)) in H by lia. done.
Qed.

Lemma secret_bytes_inj a b : 0 <= a < 2 ^ 64 -> 0 <= b < 2 ^ 64 -> secret_bytes a = secret_bytes b -> a = b.
Proof using Type.
  intros Ha Hb H. apply (f_equal (fun l => be_Z (rev l))) in H. unfold secret_bytes in H. rewrite !rev_involutive, !be_Z_be_bytes in H.
  change (256 ^ Z.of_nat 8) with (2 ^ 64) in H. by rewrite !Z.mod_small in H by lia.
Qed.

Lemma token_data_inj a b e e' : 0 <= a < 2 ^ 64 -> 0 <= b < 2 ^ 64 -> token_data a e = token_data b e' -> a = b /\ e = e'.
Proof using Type.
  intros Ha Hb H. apply app_inj_1 in H as [H He]; [|unfold secret_bytes; by rewrite !length_rev, !be_bytes_length].
  split; [by apply secret_bytes_inj|done].
Qed.

(** What [makeToken] and [tokenMatch] come to for an IP address. *)
Lemma makeToken_digest {G : Gnutls} addr e (old : bool) d : endpoint AF_INET6 addr = Some e ->
  exists r, gnutls_fingerprint SHA256 (token_data (if old then dn_oldsecret d else dn_secret d) e) = Some r /\
    makeToken AF_INET6 gnutls_fingerprint addr old d = Ret r /\ length r = TOKEN_SIZE.
Proof using fingerprint_size. intros H. unfold makeToken. rewrite H. apply hash_token. Qed.

Lemma tokenMatch_digest {G : Gnutls} addr e t d : 2 < AF_INET6 -> endpoint AF_INET6 addr = Some e -> length t = TOKEN_SIZE ->
  exists b, tokenMatch AF_INET6 gnutls_fingerprint t addr d = Ret b /\
    (b = true <-> gnutls_fingerprint SHA256 (token_data (dn_secret d) e) = Some t \/
                  gnutls_fingerprint SHA256 (token_data (dn_oldsecret d) e) = Some t).
Proof using fingerprint_size.
  intros Haf He Hl. pose proof (endpoint_nonempty _ _ He Haf) as Hne. unfold tokenMatch.
  rewrite (proj2 (Nat.eqb_neq _ _) Hne), Hl. cbn [orb negb Nat.eqb TOKEN_SIZE].
  destruct (makeToken_digest addr e false d He) as (r & Hr & -> & _). destruct (makeToken_digest addr e true d He) as (r' & Hr' & -> & _).
  rewrite Hr, Hr'. cbn. case_bool_decide as H1; [exists true; split; [done|]; subst; naive_solver|].
  eexists. split; [done|]. rewrite bool_decide_eq_true. naive_solver.
Qed.

(** A socket address of an IP network, as the system gives it; its IP. *)
Definition ip_address (a : SockAddr) : Prop :=
  wf_bytes a /\
  (getFamily a = AF_INET /\ length a = sizeof_sockaddr_in \/ getFamily a = AF_INET6 /\ length a = sizeof_sockaddr_in6).
Definition ip_of (a : SockAddr) : bytes := if getFamily a =? AF_INET then sin_addr a else sin6_addr a.

Lemma port_bytes (a : SockAddr) : (4 <= length a)%nat -> take 2 (drop 2 a) = [byte_at a 2; byte_at a 3].
Proof using Type. destruct a as [|x0 [|x1 [|x2 [|x3 a]]]]; cbn; try lia. done. Qed.

Lemma byte_at_range (a : SockAddr) i : wf_bytes a -> 0 <= byte_at a i < 256.
Proof using Type.
  intros Ha. unfold byte_at. destruct (nth_in_or_default i a 0) as [Hin| ->]; [|lia].
  rewrite Forall_forall in Ha. apply list_elem_of_In in Hin. exact (Ha _ Hin).
Qed.

(** The hashed bytes identify the network, the IP and the port. *)
Lemma endpoint_identifies a b : 2 < AF_INET6 -> ip_address a -> ip_address b ->
  is_Some (endpoint AF_INET6 a) /\
  (endpoint AF_INET6 a = endpoint AF_INET6 b <->
   getFamily a = getFamily b /\ ip_of a = ip_of b /\ getPort AF_INET6 a = getPort AF_INET6 b).
Proof using Type.
  intros Haf [Wa Ha] [Wb Hb]. unfold endpoint, ip_of, getPort.
  pose proof (byte_at_range a 2 Wa). pose proof (byte_at_range a 3 Wa). pose proof (byte_at_range b 2 Wb). pose proof (byte_at_range b 3 Wb).
  assert (forall x y : bytes, length x = length y -> x ++ [byte_at a 2; byte_at a 3] = y ++ [byte_at b 2; byte_at b 3] <->
    x = y /\ 256 * byte_at a 2 + byte_at a 3 = 256 * byte_at b 2 + byte_at b 3) as Happ.
  { intros x y Hl. split; [intros [-> [= -> ->]]%app_inj_1; done|]. intros [-> E]. assert (byte_at a 2 = byte_at b 2) by lia. assert (byte_at a 3 = byte_at b 3) by lia. congruence. }
  assert (AF_INET6 <> AF_INET) as Hne by (unfold AF_INET; lia).
  assert (forall c : SockAddr, length (take 4 (drop 4 c)) = Nat.min 4 (length c - 4) /\ length (take 16 (drop 8 c)) = Nat.min 16 (length c - 8)) as Hlen
    by (intros c; by rewrite !length_take, !length_drop).
  destruct (Hlen a) as [La4 La6], (Hlen b) as [Lb4 Lb6]. unfold sin_addr, sin6_addr.
  destruct Ha as [[-> La]|[-> La]], Hb as [[-> Lb]|[-> Lb]]; rewrite ?Z.eqb_refl, ?(proj2 (Z.eqb_neq _ _) Hne); cbn [orb];
    rewrite La, Lb in *; rewrite !port_bytes by (rewrite ?La, ?Lb; unfold sizeof_sockaddr_in, sizeof_sockaddr_in6; lia).
  all: split; [by eexists|].
  all: split; [intros [= E]|intros (E1 & E2 & E3)]; try congruence.
  all: try (apply Happ in E; [|congruence]; by destruct E).
  all: try (f_equal; apply Happ; [congruence|done]).
  all: apply (f_equal length) in E; rewrite !length_app, La4, Lb6 in E || rewrite !length_app, La6, Lb4 in E; cbn in E; lia.
Qed.

(** C32. A token is bound to where it was sent and to the secrets: the token a node
    gives to one IP address is accepted from an IP address exactly when that has the
    same family, IP and port and the secret the token was made with is the current or
    the previous one, given that SHA-256 has no collision among the data involved. So
    it is accepted again at once, and after one rotation of the secrets. *)
Theorem token_bound {G : Gnutls} addr addr' d d' :
  2 < AF_INET6 -> ip_address addr -> ip_address addr' ->
  0 <= dn_secret d < 2 ^ 64 -> 0 <= dn_secret d' < 2 ^ 64 -> 0 <= dn_oldsecret d' < 2 ^ 64 ->
  (forall c e e', c = dn_secret d' \/ c = dn_oldsecret d' ->
     endpoint AF_INET6 addr = Some e -> endpoint AF_INET6 addr' = Some e' ->
     gnutls_fingerprint SHA256 (token_data c e') = gnutls_fingerprint SHA256 (token_data (dn_secret d) e) ->
     token_data c e' = token_data (dn_secret d) e) ->
  exists t, makeToken AF_INET6 gnutls_fingerprint addr false d = Ret t /\ length t = TOKEN_SIZE /\
    (exists b, tokenMatch AF_INET6 gnutls_fingerprint t addr' d' = Ret b /\
      (b = true <-> getFamily addr = getFamily addr' /\ ip_of addr = ip_of addr' /\
                    getPort AF_INET6 addr = getPort AF_INET6 addr' /\
                    (dn_secret d = dn_secret d' \/ dn_secret d = dn_oldsecret d'))) /\
    (forall s, tokenMatch AF_INET6 gnutls_fingerprint t addr d = Ret true /\
               tokenMatch AF_INET6 gnutls_fingerprint t addr (rotateSecrets s d) = Ret true).
Proof using fingerprint_size.
  intros Haf Ha Ha' Hs Hs1 Hs2 Hcoll. destruct (endpoint_identifies addr addr' Haf Ha Ha') as [[e He] Hsame].
  destruct (endpoint_identifies addr' addr Haf Ha' Ha) as [[e' He'] _].
  destruct (makeToken_digest addr e false d He) as (t & Ht & Hm & Hl). exists t. split_and!; [done..| |].
  - destruct (tokenMatch_digest addr' e' t d' Haf He' Hl) as (b & -> & Hb). exists b. split; [done|]. rewrite Hb. rewrite He, He' in Hsame. split.
    + intros Hf. assert (e = e' /\ (dn_secret d = dn_secret d' \/ dn_secret d = dn_oldsecret d')) as [-> Hsec].
      { destruct Hf as [H|H]; rewrite <- Ht in H; apply (Hcoll _ e e') in H; auto; apply token_data_inj in H as [H ->]; auto. }
      destruct (proj1 Hsame eq_refl) as (? & ? & ?). done.
    + intros (H1 & H2 & H3 & Hsec). pose proof (proj2 Hsame (conj H1 (conj H2 H3))) as Heq. injection Heq as ->. destruct Hsec as [H|H]; rewrite <- H; auto.
  - intros s. destruct (tokenMatch_digest addr e t d Haf He Hl) as (b & -> & Hb).
    destruct (tokenMatch_digest addr e t (rotateSecrets s d) Haf He Hl) as (b' & -> & Hb'). cbn in Hb'.
    split; f_equal; [apply Hb; by left|apply Hb'; by right].
Qed.
End Tokens.

(** ** What an announce can change *)

Abbreviation map_wf := (om_wf op_lt (wf_hash HASH_LEN)).

Section Holds.
Context {G : Gnutls}.

(** The value [p] is stored under the key [h]. *)
Definition st_holds (p : vptr) (st : Storage) : Prop := p ∈ map vs_data (st_values st).
Definition list_holds (h : Hash) (p : vptr) (l : list (Hash * Storage)) : Prop := exists st, (h, st) ∈ l /\ st_holds p st.
Definition holds (h : Hash) (p : vptr) (s : DhtStore) : Prop := list_holds h p (ds_store s).

Lemma store_set_elem k (st : Storage) l e : map_wf l -> wf_hash HASH_LEN k -> e ∈ om_set op_lt k st l -> e = (k, st) \/ e ∈ l.
Proof.
  intros Hl Hk. induction l as [|[k' st'] l IH]; cbn; [set_solver|].
  rewrite (om_wf_cons op_lt (wf_hash HASH_LEN)) in Hl. destruct Hl as (Hk' & Hl & _).
  destruct (op_lt k k') eqn:E1; [set_solver|]. destruct (op_lt k' k) eqn:E2; [set_solver|].
  assert (k' = k) as -> by (by apply (klt_total (ltb := op_lt) (kvalid := wf_hash HASH_LEN))). set_solver.
Qed.

Lemma find_holds h p st s : find_storage h s = Some st -> map_wf (ds_store s) -> wf_hash HASH_LEN h -> st_holds p st -> holds h p s.
Proof. intros Hf Hm Hh Hp. exists st. split; [|done]. by apply (om_find_Some_elem op_lt (wf_hash HASH_LEN)). Qed.

(** Replacing a storage. *)
Lemma put_holds id st h p s : map_wf (ds_store s) -> wf_hash HASH_LEN id ->
  holds h p (put_storage id st s) -> (h = id /\ st_holds p st) \/ holds h p s.
Proof.
  intros Hm Hid (st' & Hin & Hp). apply store_set_elem in Hin as [[= -> ->]|Hin]; [by left| |done|done]. right. by exists st'.
Qed.

Context (deref : vptr -> Value) {PA : Partition} (types : list (Z * Z)).

Lemma refresh_holds now vid ea st p : st_holds p (refresh deref now vid ea st).2 -> st_holds p st.
Proof.
  unfold refresh, st_holds. destruct (refresh_in deref now vid ea (st_values st)) as [[e vs]|] eqn:E; [|done].
  cbn. by rewrite (refresh_in_data _ _ _ _ _ _ _ E).
Qed.




Lemma storageRefresh_holds h p id vid s : map_wf (ds_store s) -> wf_hash HASH_LEN id ->
  holds h p (storageRefresh deref types id vid s).2 -> holds h p s.
Proof.
  intros Hm Hid. unfold storageRefresh. destruct (find_storage id s) as [st|] eqn:E; [|done].
  pose proof (refresh_holds (ds_now s) vid (getType types) st p) as Hr. destruct (refresh _ _ _ _ st) as [e st'].
  intros H. apply (put_holds id st') in H as [[-> H]|H]; [|done..]. eapply find_holds; eauto.
Qed.





Context (AF_INET6 : Z).


End Holds.

Lemma closest_loop_returns fuel w id now count : forall itn itp acc,
  (length itn <= fuel)%nat -> (length itp <= fuel)%nat -> is_Some (closest_loop fuel w id now count itn itp acc).
Proof.
  induction fuel as [|fuel IH]; intros itn itp acc Hn Hp; cbn [closest_loop].
  - destruct itn, itp; cbn in *; try lia. rewrite andb_false_r. eauto.
  - destruct (_ && _); [|eauto]. destruct itn, itp; cbn in *; apply IH; cbn; lia.
Qed.

Lemma findClosestNodes_returns w bs id now count : is_Some (findClosestNodes w bs id now count).
Proof.
  unfold findClosestNodes. destruct (_ =? _)%nat; [eauto|].
  destruct (closest_loop_returns (S (length bs)) w id now (Z.of_nat count) (drop (findBucket bs id) bs) (rev (take (findBucket bs id) bs)) []) as [l ->];
    [rewrite length_drop; lia|rewrite length_rev, length_take; lia|eauto].
Qed.

Section Announce.
Context {G : Gnutls} (AF_INET6 : Z) (deref : vptr -> Value) {PA : Partition} (types : list (Z * Z)).
Context (gnutls_fingerprint : digest -> bytes -> option bytes).
Context (storePolicy : Z -> Hash -> vptr -> Hash -> SockAddr -> bool * vptr).
Context (editPolicy : Z -> Hash -> vptr -> vptr -> Hash -> SockAddr -> bool * vptr).
Context (myid : Hash).

Abbreviation onAnnounce := (dht_onAnnounce AF_INET6 deref types gnutls_fingerprint storePolicy editPolicy myid).
Abbreviation onGetValues := (dht_onGetValues AF_INET6 deref gnutls_fingerprint).















End Announce.

(** ** What keeps a value

    Operations of the node that do not take a value [v], held under [hash], away: all those on the store but
    the sweep of all keys, the erasure or replacement of that value, its expiry, and storing
    past the limit of the store. *)
Section Keeping.
Context {G : Gnutls} (AF_INET6 : Z) (deref : vptr -> Value) {PA : Partition} (types : list (Z * Z)).

Inductive keeps (hash : Hash) (v : vptr) : DhtStore -> DhtStore -> Prop :=
| keeps_store fuel id w created sa s r s' : wf_hash HASH_LEN id -> id <> hash \/ id_of deref w <> id_of deref v ->
    storageStore AF_INET6 deref types fuel id w created sa false s = Some (Ret (r, s')) ->
    (forall c e st isnew s5, store_value AF_INET6 deref id w c e sa false s = Some (true, st, isnew, s5) -> ds_size s5 <= ds_max_size s5) ->
    keeps hash v s s'
| keeps_erase id vid s : wf_hash HASH_LEN id -> id <> hash \/ vid <> id_of deref v -> keeps hash v s (storageErase deref id vid s).2
| keeps_refresh id vid s : wf_hash HASH_LEN id -> keeps hash v s (storageRefresh deref types id vid s).2
| keeps_listen id node sid q version s : wf_hash HASH_LEN id -> keeps hash v s (storageAddListener deref id node sid q version s)
| keeps_expire id s : wf_hash HASH_LEN id ->
    (forall st x, find_storage hash s = Some st -> x ∈ st_values st -> vs_data x = v -> ds_now s < vs_expiration x) ->
    keeps hash v s (expireStorage deref id s)
| keeps_time t s : keeps hash v s (mkDS t (ds_store s) (ds_quota s) (ds_buckets s) (ds_next s) (ds_values s) (ds_size s)
                                     (ds_max_keys s) (ds_max_size s) (ds_maintain s) (ds_log s)).

Definition stored (hash : Hash) (v : vptr) (s : DhtStore) : Prop := exists st, find_storage hash s = Some st /\ st_holds v st.

Lemma keeps_ok hash v s s' : keeps hash v s s' -> ds_ok deref s -> ds_ok deref s'.
Proof.
  intros Hk. apply (dht_step_ok AF_INET6 deref types). destruct Hk; [by eapply step_store|by apply step_erase|by apply step_refresh|by apply step_listen|by apply step_expire_one|by apply step_time].
Qed.

(** Replacing the storage of a key. *)
Lemma put_stored hash v id st s : ds_ok deref s -> wf_hash HASH_LEN hash -> wf_hash HASH_LEN id -> stored hash v s ->
  (id = hash -> st_holds v st) -> forall s', ds_store s' = om_set op_lt id st (ds_store s) -> stored hash v s'.
Proof.
  intros [(Hm & _) _] Hh Hid (st0 & Hf & Hp) Hst s' Es. unfold stored, find_storage in *. rewrite Es. destruct (decide (id = hash)) as [-> |Hne].
  - exists st. split; [by apply (om_find_set_eq op_lt (wf_hash HASH_LEN))|auto].
  - exists st0. by rewrite (om_find_set_ne op_lt (wf_hash HASH_LEN)).
Qed.

Lemma st_remove_keeps id vid st bs v : st_holds v st -> vid <> id_of deref v -> st_holds v (st_remove deref id vid st bs).1.2.
Proof.
  intros Hv Hne. unfold st_remove. destruct (find_value _ _) as [[[l it] r]|] eqn:E; [|done]. cbn. unfold st_holds in *. cbn.
  apply find_value_Some in E as (Hl & Hit & _). rewrite Hl, map_app in Hv. rewrite map_app. cbn in Hv. apply Z.eqb_eq in Hit. set_solver.
Qed.

Lemma refresh_data now vid st : map vs_data (st_values (refresh deref now vid (getType types) st).2) = map vs_data (st_values st).
Proof.
  unfold refresh. destruct (refresh_in deref now vid _ (st_values st)) as [[e vs]|] eqn:E; [|done]. by rewrite <- (refresh_in_data _ _ _ _ _ _ _ E).
Qed.

Lemma expire_one_keeps id st s v : st_holds v st -> (forall x, x ∈ st_values st -> vs_data x = v -> ds_now s < vs_expiration x) ->
  st_holds v (expireStore_one deref id st s).1.
Proof.
  intros Hv Hx. unfold expireStore_one, st_expire. set (st1 := st_set_listeners _ st).
  pose proof (partition_perm (fun x => ds_now s <? vs_expiration x) (st_values st1)) as Hp.
  pose proof (partition_right (fun x => ds_now s <? vs_expiration x) (st_values st1)) as Hr.
  destruct (partition _ (st_values st1)) as [keep dropped]. destruct (expire_values _ _ _ _ _) as [y bs]. cbn in *. unfold st_holds in *. cbn.
  apply list_elem_of_fmap in Hv as (x & -> & Hin). apply list_elem_of_fmap. exists x. split; [done|].
  assert (x ∈ keep ++ dropped) as [?|Hd]%elem_of_app by (by rewrite Hp); [done|].
  rewrite Forall_forall in Hr. specialize (Hr x Hd). apply Z.ltb_ge in Hr. specialize (Hx x Hin eq_refl). lia.
Qed.

Lemma st_store_keeps id w c e sb st bs v : st_holds v st -> id_of deref w <> id_of deref v -> st_holds v (st_store deref id w c e sb st bs).1.2.
Proof.
  intros Hv Hne. unfold st_store, st_holds in *. destruct (find_value _ _) as [[[l it] r]|] eqn:E.
  - apply find_value_Some in E as (Hl & Hit & _). assert (vs_data it <> v) as Hiv.
    { intros Hd. unfold same_value in Hit. apply orb_true_iff in Hit as [Hw%bool_decide_eq_true|Hw%Z.eqb_eq]; congruence. }
    rewrite Hl, map_app in Hv. cbn in Hv. case_bool_decide; cbn; rewrite map_app; set_solver.
  - case_match; cbn; [|done]. rewrite map_app. set_solver.
Qed.

Lemma store_value_keeps id w c e sa s ch st isnew s5 hash v : ds_ok deref s -> wf_hash HASH_LEN hash -> wf_hash HASH_LEN id ->
  id <> hash \/ id_of deref w <> id_of deref v -> store_value AF_INET6 deref id w c e sa false s = Some (ch, st, isnew, s5) ->
  stored hash v s -> stored hash v s5.
Proof.
  intros Hs Hh Hid Hne. unfold store_value. destruct (find_or_make id s) as [[st0 s1]|] eqn:Ef; [|done].
  destruct (find_or_make_ok deref id s st0 s1 Hs Hid Ef) as [Hs1 Hst]. intros Hstore Hv.
  assert (stored hash v s1) as Hv1.
  { unfold find_or_make in Ef. destruct (find_storage id s) as [st1|] eqn:Ef0; [by simplify_eq|]. destruct (_ <=? _); [done|]. simplify_eq.
    eapply (put_stored hash v id _ s); [done..| |by destruct (ds_maintain s)]. intros ->. destruct Hv as (? & Hf & _). congruence. }
  set (d2 := match sa with Some a => let '(b, d') := quota_bucket AF_INET6 a s1 in (Some b, d') | None => (None, s1) end) in *.
  assert (ds_ok deref d2.2 /\ ds_store d2.2 = ds_store s1) as [Hs2 E2].
  { subst d2. destruct sa as [a|]; [|done]. pose proof (quota_bucket_ok AF_INET6 deref a s1 Hs1) as H. by destruct (quota_bucket AF_INET6 a s1). }
  destruct d2 as [sb s2]. cbn [snd] in *. pose proof (st_store_keeps id w c e sb st0 (ds_buckets s2) v) as Hk.
  destruct (st_store deref id w c e sb st0 (ds_buckets s2)) as [[[ch' diff] st1] bs]. cbn [fst snd] in Hk.
  assert (stored hash v s2) as Hv2 by (unfold stored, find_storage in *; by rewrite E2).
  assert (id = hash -> st_holds v st1) as Hst1.
  { intros ->. destruct Hne as [?|Hne]; [done|]. apply Hk; [|done]. destruct Hv1 as (? & Hf & ?). rewrite Hst in Hf. by simplify_eq. }
  destruct ch'; cbn [negb] in Hstore; simplify_eq; by eapply (put_stored hash v id st s2).
Qed.

Lemma keeps_stored hash v s s' : ds_ok deref s -> wf_hash HASH_LEN hash -> keeps hash v s s' -> stored hash v s -> stored hash v s'.
Proof.
  intros Hs Hh Hk Hv. destruct Hk as [fuel id w created sa s r s' Hid Hne Hst Hlim|id vid s Hid Hne|id vid s Hid|id node sid q version s Hid|id s Hid Hexp|t s].
  - revert Hst. unfold storageStore. case_match; [by intros [= <- <-]|]. set (c := Z.min created _). set (e := c + _).
    destruct (store_value _ _ _ _ _ _ _ _ _) as [[[[ch st'] isnew] s5]|] eqn:Es; [|by intros [= <- <-]].
    assert (stored hash v s5) as H5 by (by eapply (store_value_keeps id w c e sa)).
    destruct ch; [|by intros [= <- <-]]. rewrite (proj2 (Z.ltb_ge _ _) (Hlim _ _ _ _ _ Es)). intros [= <- <-]. exact H5.
  - unfold storageErase. destruct (find_storage id s) as [st|] eqn:Ef; [|done]. pose proof (st_remove_keeps id vid st (ds_buckets s)) as Hr.
    destruct (st_remove deref id vid st (ds_buckets s)) as [[diff st'] bs']. cbn [fst snd] in *.
    eapply (put_stored hash v id st' s); [done..| |done]. intros ->. destruct Hv as (st0 & Hf & Hp). rewrite Ef in Hf. simplify_eq. apply Hr; [done|]. by destruct Hne.
  - unfold storageRefresh. destruct (find_storage id s) as [st|] eqn:Ef; [|done]. pose proof (refresh_data (ds_now s) vid st) as Hr.
    destruct (refresh deref (ds_now s) vid (getType types) st) as [e st']. cbn [snd] in *.
    eapply (put_stored hash v id st' s); [done..| |done]. intros ->. destruct Hv as (st0 & Hf & Hp). rewrite Ef in Hf. simplify_eq. unfold st_holds. by rewrite Hr.
  - unfold storageAddListener. destruct (find_storage id s) as [st|] eqn:Ef.
    + case_match; (eapply (put_stored hash v id); [done..| |done]); intros ->; destruct Hv as (st0 & Hf & Hp); rewrite Ef in Hf; by simplify_eq.
    + destruct (ds_max_keys s <=? _); [done|]. cbn zeta. destruct (om_find Z.ltb sid _); (eapply (put_stored hash v id); [done..| |done]); intros ->; destruct Hv as (st0 & Hf & Hp); by rewrite Ef in Hf.
  - unfold expireStorage. destruct (find_storage id s) as [st|] eqn:Ef; [|done]. pose proof (expire_one_keeps id st s v) as Hr.
    destruct (expireStore_one deref id st s) as [st' s1] eqn:E1. cbn [fst] in Hr. eapply (put_stored hash v id st' s); [done..| |].
    + intros ->. destruct Hv as (st0 & Hf & Hp). rewrite Ef in Hf. simplify_eq. apply Hr; [done|]. intros x. by apply Hexp.
    + unfold expireStore_one in E1. destruct (st_expire _ _ _ _ _) as [[[? ?] ?] ?]. by injection E1 as <- <-.
  - exact Hv.
Qed.

Lemma keeps_rtc hash v s s' : ds_ok deref s -> wf_hash HASH_LEN hash -> rtc (keeps hash v) s s' -> stored hash v s -> stored hash v s'.
Proof.
  intros Hs Hh Hr. revert Hs. induction Hr as [|x y z Hk _ IH]; intros Hs Hv; [done|]. apply IH; [by eapply keeps_ok|by eapply keeps_stored].
Qed.
End Keeping.

(** ** A conversation *)

Section Conversation.
Context {G : Gnutls} (AF_INET6 : Z) (deref : vptr -> Value) {PA : Partition} (types : list (Z * Z)).
Context (gnutls_fingerprint : digest -> bytes -> option bytes).
Context (storePolicy : Z -> Hash -> vptr -> Hash -> SockAddr -> bool * vptr).
Context (editPolicy : Z -> Hash -> vptr -> vptr -> Hash -> SockAddr -> bool * vptr).
Context (myid : Hash).
Hypothesis fingerprint_size : forall a data, exists r, gnutls_fingerprint a data = Some r /\ length r = gnutlsHashSize a.

Abbreviation onAnnounce := (dht_onAnnounce AF_INET6 deref types gnutls_fingerprint storePolicy editPolicy myid).
Abbreviation onGetValues := (dht_onGetValues AF_INET6 deref gnutls_fingerprint).

(** What a get finds. *)
Definition matching (hash : Hash) (q : Query) (s : DhtStore) : list vptr :=
  match find_storage hash s with Some st => Storage.st_get deref (getFilter (q_where q)) st | None => [] end.

Lemma get_answers p node e hash q d : op_bool HASH_LEN hash = true -> w_nodes (dn_world d) !! p = Some node -> endpoint AF_INET6 (n_addr node) = Some e ->
  exists t nodes4 nodes6, makeToken AF_INET6 gnutls_fingerprint (n_addr node) false d = Ret t /\
    onGetValues p hash q d = Some (Ret (d, inl (mkAnswer t (map deref (matching hash q (dn_store d))) nodes4 nodes6))).
Proof using fingerprint_size.
  intros Hh Hn He. unfold dht_onGetValues, from_node. rewrite Hh, Hn. cbn [negb].
  destruct (makeToken_digest AF_INET6 gnutls_fingerprint fingerprint_size (n_addr node) e false d He) as (t & _ & -> & _). cbn [step].
  unfold closest. destruct (findClosestNodes_returns (dn_world d) (dn_buckets4 d) hash (ds_now (dn_store d)) TARGET_NODES) as [n4 ->].
  destruct (findClosestNodes_returns (dn_world d) (dn_buckets6 d) hash (ds_now (dn_store d)) TARGET_NODES) as [n6 ->]. cbn [step].
  exists t, n4, n6. split; [done|]. unfold answer, matching. destruct (find_storage _ _) as [st|]; [|done].
  unfold st_empty, Storage.st_get. destruct (st_values st) eqn:E; by rewrite ?E.
Qed.

Lemma getById_None_same v st : getById deref (id_of deref v) st = None -> find_value (same_value deref v) (st_values st) = None.
Proof using Type.
  unfold getById. induction (st_values st) as [|x l IH]; [done|]. cbn. destruct (Z.eqb_spec (id_of deref (vs_data x)) (id_of deref v)) as [|Hne]; [done|].
  intros H. unfold same_value at 1. rewrite bool_decide_false by (intros Heq; by rewrite Heq in Hne).
  rewrite (proj2 (Z.eqb_neq _ _) Hne). cbn. by rewrite IH.
Qed.

(** The storage of a key, or the one that would be made for it. *)
Definition room (hash : Hash) (v : vptr) (st : Storage) (s : DhtStore) : Prop :=
  (find_storage hash s = Some st \/
   find_storage hash s = None /\ st = Storage_make (ds_now s) /\ Z.of_nat (length (ds_store s)) < ds_max_keys s) /\
  getById deref (id_of deref v) st = None /\ valueCount st < MAX_VALUES /\
  u64 (ds_size s + size_of deref v) <= ds_max_size s.

Lemma find_or_make_room hash v st s : room hash v st s ->
  exists s1, find_or_make hash s = Some (st, s1) /\ ds_size s1 = ds_size s /\ ds_max_size s1 = ds_max_size s.
Proof using Type.
  intros ([Hf|(Hf & -> & Hlt)] & _); unfold find_or_make; rewrite Hf; [by exists s|].
  rewrite (proj2 (Z.leb_gt _ _) Hlt). eexists. split; [done|]. by destruct (ds_maintain s).
Qed.

(** A value there is room for is stored. *)
Lemma storageStore_new fuel hash v created addr s st : ds_ok deref s -> wf_hash HASH_LEN hash -> room hash v st s ->
  ds_now s <= Z.min created (ds_now s) + getType types (v_type (deref v)) ->
  exists s' st', storageStore AF_INET6 deref types fuel hash v created (Some addr) false s = Some (Ret (true, s')) /\
    find_storage hash s' = Some st' /\ v ∈ map vs_data (st_values st').
Proof using Type.
  intros Hs Hh Hroom Hexp. destruct (find_or_make_room _ _ _ _ Hroom) as (s1 & Hm & Hsz & Hmx).
  destruct Hroom as (_ & Hid & Hcnt & Hsize). destruct (find_or_make_ok deref hash s st s1 Hs Hh Hm) as [Hs1 _].
  unfold storageStore. rewrite (proj2 (Z.ltb_ge _ _) Hexp). unfold store_value. rewrite Hm.
  destruct (quota_bucket_ok AF_INET6 deref addr s1 Hs1) as [Hs2 Hst2].
  assert (ds_size (quota_bucket AF_INET6 addr s1).2 = ds_size s /\ ds_max_size (quota_bucket AF_INET6 addr s1).2 = ds_max_size s) as [Hz Hx]
    by (unfold quota_bucket; destruct (om_find _ _ _); done).
  destruct (quota_bucket AF_INET6 addr s1) as [b s2]. cbn [snd] in *. unfold st_store.
  rewrite (getById_None_same v st Hid), (proj2 (Z.ltb_lt _ _) Hcnt). cbn [negb]. cbn zeta.
  match goal with |- context [ds_notify [?n] ?x] => set (s3 := ds_notify [n] x) end.
  assert (ds_max_size s3 = ds_max_size s2 /\ ds_size s3 = u64 (ds_size s2 + size_of deref v)) as [-> ->] by done.
  rewrite Hz, Hx, (proj2 (Z.ltb_ge _ _) Hsize). eexists _, _. split; [done|].
  split; [apply (find_put_storage deref); [apply Hs2|done]|]. cbn. rewrite map_app. apply elem_of_app. right. by left.
Qed.

(** C4. A put conversation with a node: a node that gets a key is given a token; when
    it announces a new value with that token, the policy of the type accepts the value
    as it is, there is room for it, it has not expired and the node is not too far
    from the key, the value is stored. Whoever later gets the key with a query the
    value satisfies is answered with it, whatever the node has done to its store in
    the meantime that keeps the value: storing other values within the limit, erasing
    other values, refreshing, adding listeners, letting time pass, and expiring keys
    before the value's own time; its secrets and its tables may have changed too. *)
Theorem put_conversation fuel p node e hash q0 v created d st :
  2 < AF_INET6 -> ds_ok deref (dn_store d) -> wf_hash HASH_LEN hash -> op_bool HASH_LEN hash = true ->
  w_nodes (dn_world d) !! p = Some node -> endpoint AF_INET6 (n_addr node) = Some e ->
  (forall nodes, findClosestNodes (dn_world d) (if getFamily (n_addr node) =? AF_INET then dn_buckets4 d else dn_buckets6 d)
     hash (ds_now (dn_store d)) SEARCH_NODES = Some nodes -> too_far myid hash nodes d = false) ->
  id_of deref v <> 0 -> room hash v st (dn_store d) ->
  storePolicy (v_type (deref v)) hash v (n_id node) (n_addr node) = (true, v) ->
  ds_now (dn_store d) <= Z.min created (ds_now (dn_store d)) + getType types (v_type (deref v)) ->
  exists a d1, onGetValues p hash q0 d = Some (Ret (d, inl a)) /\
    onAnnounce fuel p hash (an_ntoken a) [v] created d = Some (Ret (d1, inl nothing)) /\
    forall d2 p' node' e' q, rtc (keeps AF_INET6 deref types hash v) (dn_store d1) (dn_store d2) ->
      w_nodes (dn_world d2) !! p' = Some node' -> endpoint AF_INET6 (n_addr node') = Some e' ->
      passes (getFilter (q_where q)) (deref v) = true ->
      exists a', onGetValues p' hash q d2 = Some (Ret (d2, inl a')) /\ deref v ∈ an_values a'.
Proof using fingerprint_size.
  intros Haf Hs Hh Hb Hn He Hfar Hid Hroom Hpol Hexp.
  destruct (get_answers p node e hash q0 d Hb Hn He) as (t & n4 & n6 & Ht & Hget).
  destruct (storageStore_new fuel hash v (Z.min created (ds_now (dn_store d))) (n_addr node) _ st Hs Hh Hroom) as (s' & st' & Hstore & Hfind & Hin);
    [by rewrite <- Z.min_assoc, Z.min_id|].
  eexists _, (dn_set_store s' d). split; [exact Hget|]. split.
  - unfold dht_onAnnounce, from_node. rewrite Hb, Hn. cbn [negb an_ntoken].
    destruct (makeToken_digest AF_INET6 gnutls_fingerprint fingerprint_size (n_addr node) e false d He) as (t' & Hd & Ht' & Hl).
    rewrite Ht in Ht'. simplify_eq.
    destruct (tokenMatch_digest AF_INET6 gnutls_fingerprint fingerprint_size (n_addr node) e t' d Haf He Hl) as (b & -> & Hbt).
    rewrite (proj2 Hbt (or_introl Hd)). cbn [step negb]. unfold closest.
    destruct (findClosestNodes_returns (dn_world d) (if getFamily (n_addr node) =? AF_INET then dn_buckets4 d else dn_buckets6 d) hash (ds_now (dn_store d)) SEARCH_NODES) as [nodes Hc].
    rewrite Hc. cbn [step]. rewrite (Hfar nodes Hc). cbn [announce_loop]. rewrite (proj2 (Z.eqb_neq _ _) Hid).
    assert (getLocalById deref hash (id_of deref v) (dn_store d) = None) as Hlocal.
    { destruct Hroom as ([Hf|(Hf & _)] & Hg & _); unfold getLocalById; by rewrite Hf. }
    unfold announce_value. rewrite Hlocal, Hpol. unfold announce_store. rewrite Hstore. done.
  - intros d2 p' node' e' q Hk Hn' He' Hq. cbn [dn_store dn_set_store] in Hk.
    assert (stored hash v (dn_store d2)) as (st2 & Hfind2 & Hin2).
    { eapply keeps_rtc; [|exact Hh|exact Hk|by exists st']. by eapply storageStore_ok. }
    destruct (get_answers p' node' e' hash q d2 Hb Hn' He') as (t2 & m4 & m6 & _ & Hget2).
    eexists. split; [exact Hget2|]. cbn [an_values]. apply list_elem_of_In, in_map. unfold matching. rewrite Hfind2.
    apply filter_In. split; [by apply list_elem_of_In|done].
Qed.
End Conversation.

Module ServeDemo.
#[local] Existing Instance GnutlsDemo.demo.
(** Data cut or padded to the size of a digest. *)
Definition pad (a : digest) (data : bytes) : option bytes := Some (take (gnutlsHashSize a) (data ++ replicate 64 0)).
Definition addr (host port : Z) : SockAddr := [2; 0; 0; port; 10; 0; 0; host] ++ replicate 8 0.
Definition key : Hash := replicate 19 0 ++ [5].
Definition node_of (k : Z) : Node := mkNode (replicate 19 0 ++ [k]) (addr k 80) false 0 0 0 false 1 [] [].
Definition world : World := mkWorld (list_to_map [(1%positive, node_of 1); (2%positive, node_of 2)]) ∅ [].
Definition d : DhtNode := mkDN (DhtStore_make 0 16 1000 false) 7 9 [] [] world.
Definition store_policy (t : Z) (h : Hash) (v : vptr) (from : Hash) (a : SockAddr) : bool * vptr := (DEFAULT_STORE_POLICY (StorageDemo.heap v), v).
Definition edit_policy (t : Z) (h : Hash) (lv v : vptr) (from : Hash) (a : SockAddr) : bool * vptr := (false, v).
Definition any : Query := mkQuery [] [] false.

(** The node some time later. *)
Definition later (d : DhtNode) : DhtNode :=
  dn_set_store (let s := dn_store d in mkDS 5 (ds_store s) (ds_quota s) (ds_buckets s) (ds_next s) (ds_values s) (ds_size s)
                  (ds_max_keys s) (ds_max_size s) (ds_maintain s) (ds_log s)) (rotateSecrets 3 d).

Lemma pad_size a data : exists r, pad a data = Some r /\ length r = gnutlsHashSize a.
Proof.
  eexists. split; [reflexivity|]. rewrite length_take, length_app, length_replicate. destruct a; cbn [gnutlsHashSize]; lia.
Qed.
End ServeDemo.

(** A node at another port of the same host is refused; the one the token was made for is
    accepted, also after a rotation. *)
Lemma token_bound_witness : exists t, makeToken 10 ServeDemo.pad (ServeDemo.addr 1 80) false ServeDemo.d = Ret t /\
  tokenMatch 10 ServeDemo.pad t (ServeDemo.addr 1 81) ServeDemo.d = Ret false /\
  tokenMatch 10 ServeDemo.pad t (ServeDemo.addr 1 80) (rotateSecrets 11 ServeDemo.d) = Ret true.
Proof.
  destruct (token_bound 10 ServeDemo.pad ServeDemo.pad_size (G := GnutlsDemo.demo) (ServeDemo.addr 1 80) (ServeDemo.addr 1 81)
              ServeDemo.d ServeDemo.d) as (t & Ht & _ & (b & Hb & Hiff) & Hm);
    [reflexivity|split; [by_compute|left; split; reflexivity]|split; [by_compute|left; split; reflexivity]|by_compute|by_compute|by_compute|..].
  - intros c e e' [-> | ->] [= <-] [= <-]; vm_compute; discriminate.
  - exists t. split; [exact Ht|]. split; [|apply Hm]. rewrite Hb. f_equal. apply not_true_iff_false. rewrite Hiff. intros (_ & _ & Hp & _). discriminate Hp.
Defined.


(** Five ticks later another node gets the key. *)
Lemma put_conversation_witness : exists a d1 a',
  dht_onGetValues (G := GnutlsDemo.demo) 10 StorageDemo.heap ServeDemo.pad 1%positive ServeDemo.key ServeDemo.any ServeDemo.d = Some (Ret (ServeDemo.d, inl a)) /\
  dht_onAnnounce 10 StorageDemo.heap [] ServeDemo.pad ServeDemo.store_policy ServeDemo.edit_policy (replicate 20 0) 5 1%positive ServeDemo.key (an_ntoken a) [1%positive] 0 ServeDemo.d =
    Some (Ret (d1, inl nothing)) /\
  dht_onGetValues (G := GnutlsDemo.demo) 10 StorageDemo.heap ServeDemo.pad 2%positive ServeDemo.key ServeDemo.any (ServeDemo.later d1) = Some (Ret (ServeDemo.later d1, inl a')) /\
  StorageDemo.heap 1%positive ∈ an_values a'.
Proof.
  destruct (put_conversation (G := GnutlsDemo.demo) 10 StorageDemo.heap [] ServeDemo.pad ServeDemo.store_policy ServeDemo.edit_policy (replicate 20 0)
    ServeDemo.pad_size 5 1%positive (ServeDemo.node_of 1) [10; 0; 0; 1; 0; 80] ServeDemo.key ServeDemo.any 1%positive 0 ServeDemo.d (Storage_make 0))
    as (a & d1 & Hg & Ha & Hlater); [reflexivity|apply DhtStore_make_ok|by_compute|reflexivity|reflexivity|reflexivity| | | | |by_compute|].
  - intros nodes H. vm_compute in H. injection H as <-. reflexivity.
  - vm_compute. discriminate.
  - split; [right; split_and!; reflexivity|]. split_and!; [reflexivity|reflexivity|by_compute].
  - vm_compute. reflexivity.
  - destruct (Hlater (ServeDemo.later d1) 2%positive (ServeDemo.node_of 2) [10; 0; 0; 2; 0; 80] ServeDemo.any) as (a' & Hg' & Hin).
    + apply rtc_once. apply keeps_time.
    + assert (dn_world d1 = ServeDemo.world) as E; [|change (w_nodes (dn_world d1) !! 2%positive = Some (ServeDemo.node_of 2)); by rewrite E].
      assert (H := Ha). clear Ha Hlater. vm_compute in Hg. injection Hg as <-. vm_compute in H. injection H as <-. reflexivity.
    + reflexivity.
    + reflexivity.
    + exists a, d1, a'. split; [exact Hg|]. split; [exact Ha|]. split; [exact Hg'|exact Hin].
Defined.
