(* ===== verification/Crypto.v ===== *)
(** * Crypto: encryption of data for a public key

    Models the part of src/opendht-2.1.4/src/crypto.cpp that works on bytes: AES-GCM with
    a key or a password, the stretching of passwords, [PublicKey::encrypt] and
    [PrivateKey::decrypt], which use RSA alone for short data and RSA with AES for the
    rest, signing, and the chains of certificates.  GnuTLS, nettle and argon2 are classes
    of operations, with what they document as laws; the bytes drawn from the random device
    are arguments. *)
From S2P Require Import Prelude InfoHash MsgPack Value DhtServe.

Definition PASSWORD_SALT_LENGTH : Z := 16.
Definition GCM_IV_SIZE : Z := 12.
Definition GCM_DIGEST_SIZE : Z := 16.
Definition AES_LENGTHS : list Z := [128 / 8; 192 / 8; 256 / 8].

(** nettle: [gcm_aes_set_key], [gcm_aes_set_iv], [gcm_aes_update] with the authenticated
    data, then [gcm_aes_encrypt] or [gcm_aes_decrypt] and [gcm_aes_digest]; the result is
    the text and the digest.  [argon2i_hash_raw] gives 32 bytes. *)
Class Ciphers := {
  gcm_encrypt : bytes -> bytes -> bytes -> bytes -> bytes * bytes;
  gcm_decrypt : bytes -> bytes -> bytes -> bytes -> bytes * bytes;
  argon2i_hash_raw : bytes -> bytes -> option bytes;
  gnutls_fingerprint : digest -> bytes -> option bytes;
}.

(** The text has the size of the data and does not depend on the authenticated data; the
    digest is the same on both sides. *)
Class CiphersLaws (C : Ciphers) : Prop := {
  gcm_size k iv aad p : len (gcm_encrypt k iv aad p).1 = len p /\ len (gcm_encrypt k iv aad p).2 = GCM_DIGEST_SIZE;
  gcm_stream k iv aad aad' p : (gcm_encrypt k iv aad p).1 = (gcm_encrypt k iv aad' p).1;
  gcm_inverse k iv aad p : gcm_decrypt k iv aad (gcm_encrypt k iv aad p).1 = (p, (gcm_encrypt k iv aad p).2);
  fingerprint_size a b h : gnutls_fingerprint a b = Some h -> length h = gnutlsHashSize a;
}.

(** ** AES *)

Fixpoint aesKeySize_loop (ls : list Z) (max aes_key_len : Z) : Z :=
  match ls with
  | [] => aes_key_len
  | s :: ls' => if s <=? max then aesKeySize_loop ls' max s else aes_key_len
  end.
Definition aesKeySize (max : Z) : Z := aesKeySize_loop AES_LENGTHS max 0.

Definition aesKeySizeGood (key_size : Z) : bool := existsb (fun i => key_size =? i) AES_LENGTHS.

Section Aes.
Context {C : Ciphers}.

(** [aesEncrypt], as it is compiled: the data is also authenticated as associated data
    ([DHT_AES_LEGACY_ENCRYPT]). [iv] are the first bytes of the result, drawn at
    random. *)
Definition aesEncrypt (iv data key : bytes) : outcome bytes :=
  if negb (aesKeySizeGood (len key)) then Throw "Wrong key size"
  else let '(text, digest) := gcm_encrypt key iv data data in Ret (iv ++ text ++ digest).

Definition last_bytes (n : Z) (b : bytes) : bytes := drop (Z.to_nat (len b - n)) b.

(** [aesDecrypt]: the digest without associated data is tried first, then the one with the
    data found ([DHT_AES_LEGACY_DECRYPT]). *)
Definition aesDecrypt (data key : bytes) : outcome bytes :=
  if negb (aesKeySizeGood (len key)) then Throw "Wrong key size"
  else if len data <=? GCM_IV_SIZE + GCM_DIGEST_SIZE then Throw "Wrong data size"
  else
    let iv := take (Z.to_nat GCM_IV_SIZE) data in
    let data_sz := len data - GCM_IV_SIZE - GCM_DIGEST_SIZE in
    let text := take (Z.to_nat data_sz) (drop (Z.to_nat GCM_IV_SIZE) data) in
    let '(ret, digest) := gcm_decrypt key iv [] text in
    if bool_decide (digest = last_bytes GCM_DIGEST_SIZE data) then Ret ret
    else if bool_decide ((gcm_encrypt key iv ret ret).2 = last_bytes GCM_DIGEST_SIZE data) then Ret ret
    else Throw "Can't decrypt data".

(** [stretchKey]: a salt is drawn when none is given. *)
Definition stretchKey (rnd password salt : bytes) (key_length : nat) : outcome (bytes * bytes) :=
  let salt' := match salt with [] => rnd | _ => salt end in
  match argon2i_hash_raw password salt' with
  | None => Throw "Can't compute argon2i !"
  | Some res => k ← crypto_hash gnutls_fingerprint res key_length; Ret (k, salt')
  end.

(** The overloads with a password. *)
Definition aesEncrypt_password (rnd iv data password : bytes) : outcome bytes :=
  '(key, salt) ← stretchKey rnd password [] (256 / 8)%nat;
  encrypted ← aesEncrypt iv data key;
  Ret (salt ++ encrypted).

Definition aesDecrypt_password (data password : bytes) : outcome bytes :=
  if len data <=? PASSWORD_SALT_LENGTH then Throw "Wrong data size"
  else
    '(key, _) ← stretchKey [] password (take (Z.to_nat PASSWORD_SALT_LENGTH) data) (256 / 8)%nat;
    aesDecrypt (drop (Z.to_nat PASSWORD_SALT_LENGTH) data) key.
End Aes.

(** ** RSA *)

Definition GNUTLS_PK_RSA : Z := 1.

(** The calls on keys that encryption uses: the algorithm (or a negative error) with the
    length of the key in bits, and the encryption of a block, which is randomised. *)
Class Rsa (G : Gnutls) := {
  gnutls_pubkey_get_pk_algorithm : gkey -> Z * Z;
  gnutls_privkey_get_pk_algorithm : skey -> Z * Z;
  gnutls_pubkey_encrypt_data : bytes -> gkey -> bytes -> option bytes;
  gnutls_privkey_decrypt_data : skey -> bytes -> option bytes;
}.

(** Both halves of a pair have the same algorithm and length; a block of at most the
    length of the modulus less the eleven bytes of padding is encrypted to the length of
    the modulus, and decrypted by the private key. *)
Class RsaLaws {G : Gnutls} (R : Rsa G) : Prop := {
  pair_algorithm s : gnutls_privkey_get_pk_algorithm s = gnutls_pubkey_get_pk_algorithm (skey_public s);
  rsa_encrypts rnd g n d : gnutls_pubkey_get_pk_algorithm g = (GNUTLS_PK_RSA, n) -> len d <= n / 8 - 11 ->
    exists c, gnutls_pubkey_encrypt_data rnd g d = Some c /\ len c = n / 8;
  rsa_inverse rnd s d c : gnutls_pubkey_encrypt_data rnd (skey_public s) d = Some c -> gnutls_privkey_decrypt_data s c = Some d;
}.

Section Keys.
Context {C : Ciphers} {G : Gnutls} {R : Rsa G}.

(** [PrivateKey]: a handle, null by default; [decryptBloc], [decrypt] and [sign]. *)
Definition PrivateKey : Type := option skey.

Definition decryptBloc (key : skey) (src : bytes) : outcome bytes :=
  match gnutls_privkey_decrypt_data key src with Some out => Ret out | None => Throw "Can't decrypt data: " end.

Definition sk_decrypt (k : PrivateKey) (cipher : bytes) : outcome bytes :=
  match k with
  | None => Throw "Can't decrypt data without private key !"
  | Some key =>
      let '(err, key_len) := gnutls_privkey_get_pk_algorithm key in
      if err <? 0 then Throw "Can't read public key length !"
      else if negb (err =? GNUTLS_PK_RSA) then Throw "Must be an RSA key"
      else
        let cypher_block_sz := key_len / 8 in
        if len cipher <? cypher_block_sz then Throw "Unexpected cipher length"
        else if len cipher =? cypher_block_sz then decryptBloc key cipher
        else
          k ← decryptBloc key (take (Z.to_nat cypher_block_sz) cipher);
          aesDecrypt (drop (Z.to_nat cypher_block_sz) cipher) k
  end.

Definition sk_sign (k : PrivateKey) (data : bytes) : outcome bytes :=
  match k with
  | None => Throw "Can't sign data: no private key set !"
  | Some key =>
      if 2 ^ 32 - 1 <? len data then Throw "Can't sign data: too large !"
      else match gnutls_sign key data with Some s => Ret s | None => Throw "Can't sign data !" end
  end.

(** [PublicKey::encryptBloc] and [PublicKey::encrypt]; [rnd] is what the padding draws,
    [aes_rnd] and [iv] the random bytes of the key and of the vector. *)
Definition encryptBloc (rnd : bytes) (g : gkey) (src : bytes) (dst_size : Z) : outcome bytes :=
  match gnutls_pubkey_encrypt_data rnd g src with
  | None => Throw "Can't encrypt data: "
  | Some e => if negb (len e =? dst_size) then Throw "Unexpected cypherblock size" else Ret e
  end.

Definition pk_encrypt (rnd : bytes) (aes_rnd : Z -> bytes) (iv : bytes) (k : PublicKey) (data : bytes) : outcome bytes :=
  match k with
  | None => Throw "Can't read public key !"
  | Some g =>
      let '(err, key_len) := gnutls_pubkey_get_pk_algorithm g in
      if err <? 0 then Throw "Can't read public key length !"
      else if negb (err =? GNUTLS_PK_RSA) then Throw "Must be an RSA key"
      else
        let max_block_sz := u32 (key_len / 8 - 11) in
        let cypher_block_sz := key_len / 8 in
        if len data <=? max_block_sz then encryptBloc rnd g data cypher_block_sz
        else
          let aes_key_sz := aesKeySize max_block_sz in
          if aes_key_sz =? 0 then Throw "Key is not long enough for AES128"
          else
            let key := aes_rnd aes_key_sz in
            data_encrypted ← aesEncrypt iv data key;
            b ← encryptBloc rnd g key cypher_block_sz;
            Ret (b ++ data_encrypted)
  end.
End Keys.

(** ** Certificates *)

(** [Certificate]: the handle and the issuer, as the chain of handles; a default one
    is empty. The calls on certificates: reading a list in the PEM or DER format,
    writing one in PEM, its public key and the identifier of that key. *)
Class X509 (G : Gnutls) := {
  crt : Type;
  crt_list_import_pem : bytes -> option (list crt);
  crt_list_import_der : bytes -> option (list crt);
  crt_export_pem : crt -> option bytes;
  pubkey_import_x509 : crt -> option gkey;
  crt_get_key_id : crt -> Hash;
}.

(** The identifier of a certificate is that of its public key. *)
Class X509Laws {G : Gnutls} (X : X509 G) : Prop := {
  crt_key_id c g : pubkey_import_x509 c = Some g -> crt_get_key_id c = gnutls_key_id g;
}.

Section Certificates.
Context {G : Gnutls} {X : X509 G}.

Definition Certificate : Type := list crt.

(** [explicit operator bool]. *)
Definition crt_ok (c : Certificate) : bool := match c with [] => false | _ => true end.

(** [Certificate(const Blob&)], that is [unpack]: PEM first, then DER; an empty list is an
    error. *)
Definition Certificate_of_blob (b : bytes) : outcome Certificate :=
  match match crt_list_import_pem b with Some l => Some l | None => crt_list_import_der b end with
  | Some (c :: l) => Ret (c :: l)
  | Some [] | None => Throw "Could not read certificate - "
  end.

Definition Certificate_msgpack_unpack (o : obj) : outcome Certificate :=
  match o with
  | OBin s => Certificate_of_blob s
  | _ => dat ← unpackBlob o; Certificate_of_blob dat
  end.

(** [pack]: the chain in PEM, up to a certificate that cannot be written. *)
Fixpoint crt_pack (c : Certificate) : bytes :=
  match c with
  | [] => []
  | x :: c' => match crt_export_pem x with Some b => b ++ crt_pack c' | None => [] end
  end.

(** [toString(chain)]: nothing at all on an error. *)
Fixpoint crt_toString (chain : bool) (c : Certificate) : option bytes :=
  match c with
  | [] => Some []
  | x :: c' =>
      match crt_export_pem x with
      | None => None
      | Some b => if negb chain then Some b else match crt_toString chain c' with Some r => Some (b ++ r) | None => None end
      end
  end.

(** [getPublicKey]; the call on a null certificate fails. *)
Definition crt_getPublicKey (c : Certificate) : outcome PublicKey :=
  match c with
  | x :: _ => match pubkey_import_x509 x with Some g => Ret (Some g) | None => Throw "Can't get certificate public key: " end
  | [] => Throw "Can't get certificate public key: "
  end.

Definition crt_getId (c : Certificate) : Hash :=
  match c with x :: _ => crt_get_key_id x | [] => Hash_zero HASH_LEN end.
End Certificates.

(** ** Round trips *)

Section AesRoundTrip.
Context {C : Ciphers} `{!CiphersLaws C}.

Lemma last_bytes_app a b : last_bytes (len b) (a ++ b) = b.
Proof.
  unfold last_bytes, len. rewrite length_app. replace (Z.to_nat _) with (length a) by lia. apply drop_app_length.
Qed.

(** What AES-GCM encrypts it decrypts, except the empty text: a cypher text of no more
    than the vector and the digest is refused. *)
Lemma aes_roundtrip iv data key : len iv = GCM_IV_SIZE -> aesKeySizeGood (len key) = true ->
  exists c, aesEncrypt iv data key = Ret c /\ len c = len data + GCM_IV_SIZE + GCM_DIGEST_SIZE /\
    aesDecrypt c key = match data with [] => Throw "Wrong data size" | _ => Ret data end.
Proof.
  intros Hiv Hk. unfold aesEncrypt, aesDecrypt. rewrite Hk. cbn [negb].
  destruct (gcm_encrypt key iv data data) as [text digest] eqn:E. destruct (gcm_size key iv data data) as [Ht Hd].
  rewrite E in Ht, Hd. cbn [fst snd] in Ht, Hd. exists (iv ++ text ++ digest). split; [done|].
  assert (Hlen : len (iv ++ text ++ digest) = len data + GCM_IV_SIZE + GCM_DIGEST_SIZE) by (unfold len in *; rewrite !length_app; lia).
  split; [done|]. rewrite Hlen. destruct data as [|x data].
  { by rewrite (proj2 (Z.leb_le _ _)) by (unfold len; cbn; lia). }
  set (d := x :: data) in *. assert (1 <= len d) by (unfold len, d; cbn; lia).
  destruct (Z.leb_spec (len d + GCM_IV_SIZE + GCM_DIGEST_SIZE) (GCM_IV_SIZE + GCM_DIGEST_SIZE)); [lia|].
  replace (Z.to_nat GCM_IV_SIZE) with (length iv) by (unfold len in Hiv; lia). rewrite take_app_length, drop_app_length.
  replace (Z.to_nat (len d + GCM_IV_SIZE + GCM_DIGEST_SIZE - GCM_IV_SIZE - GCM_DIGEST_SIZE)) with (length text) by (unfold len in *; lia).
  rewrite take_app_length.
  assert (Hdec : (gcm_decrypt key iv [] text).1 = d).
  { pose proof (gcm_inverse key iv [] d) as Hi. rewrite (gcm_stream key iv [] d d), E in Hi. cbn [fst] in Hi. by rewrite Hi. }
  destruct (gcm_decrypt key iv [] text) as [ret dg]. cbn [fst] in Hdec. subst ret.
  rewrite app_assoc, <- Hd, last_bytes_app. case_bool_decide; [done|].
  rewrite E. by rewrite bool_decide_true.
Qed.

(** With a password: the salt in front lets the reader stretch the password to the same
    key. *)
Theorem password_roundtrip rnd iv data password c :
  len rnd = PASSWORD_SALT_LENGTH -> len iv = GCM_IV_SIZE -> aesEncrypt_password rnd iv data password = Ret c ->
  aesDecrypt_password c password = match data with [] => Throw "Wrong data size" | _ => Ret data end.
Proof.
  intros Hr Hiv. unfold aesEncrypt_password, aesDecrypt_password, stretchKey.
  destruct (argon2i_hash_raw password rnd) as [res|] eqn:Ea; [|done]. unfold crypto_hash.
  destruct (gnutls_fingerprint _ res) as [h|] eqn:Ef; [|done]. cbn [mbind outcome_bind].
  set (key := take _ h). assert (Hk : aesKeySizeGood (len key) = true).
  { apply fingerprint_size in Ef. assert (length key = 32%nat) as Hk32 by (unfold key; rewrite length_take, Ef; reflexivity).
    unfold len. rewrite Hk32. reflexivity. }
  destruct (aes_roundtrip iv data key Hiv Hk) as (e & He & Hl & Hd). rewrite He. cbn [mbind outcome_bind]. intros [= <-].
  assert (0 <= len data) by (unfold len; lia).
  destruct (Z.leb_spec (len (rnd ++ e)) PASSWORD_SALT_LENGTH) as [Hs|_].
  { unfold len, GCM_IV_SIZE, GCM_DIGEST_SIZE in *. rewrite length_app in Hs. lia. }
  replace (Z.to_nat PASSWORD_SALT_LENGTH) with (length rnd) by (unfold len in Hr; lia).
  rewrite take_app_length, drop_app_length. destruct rnd as [|r0 rnd]; [done|]. rewrite Ea, Ef. cbn [mbind outcome_bind]. exact Hd.
Qed.
End AesRoundTrip.

Section RsaRoundTrip.
Context {C : Ciphers} `{!CiphersLaws C} {G : Gnutls} {R : Rsa G} `{!RsaLaws R}.

(** The key size chosen is one of AES, fits, and is found from 16 bytes on. *)
Lemma aesKeySize_good max : 16 <= max -> aesKeySizeGood (aesKeySize max) = true /\ 16 <= aesKeySize max <= max.
Proof.
  intros H. unfold aesKeySize. cbn. change (128 / 8) with 16. change (192 / 8) with 24. change (256 / 8) with 32.
  destruct (Z.leb_spec 16 max); [|lia]. destruct (Z.leb_spec 24 max); [destruct (Z.leb_spec 32 max)|]; by split; [|lia].
Qed.

Lemma encryptBloc_ok rnd s n d : gnutls_pubkey_get_pk_algorithm (skey_public s) = (GNUTLS_PK_RSA, n) -> len d <= n / 8 - 11 ->
  exists c, encryptBloc rnd (skey_public s) d (n / 8) = Ret c /\ len c = n / 8 /\ decryptBloc s c = Ret d.
Proof.
  intros Ha Hd. destruct (rsa_encrypts rnd _ n d Ha Hd) as (c & Hc & Hl). exists c. unfold encryptBloc, decryptBloc.
  rewrite Hc, Hl, Z.eqb_refl, (rsa_inverse _ _ _ _ Hc). done.
Qed.

(** Whatever its size, data encrypted for the public key of an RSA pair is decrypted
    by the private key: by RSA alone up to eleven bytes less than the modulus, with an
    AES key in the RSA block beyond; 27 bytes of modulus are enough for the smallest
    AES key. *)
Lemma encrypt_decrypt rnd aes_rnd iv s n data :
  gnutls_pubkey_get_pk_algorithm (skey_public s) = (GNUTLS_PK_RSA, n) -> 27 <= n / 8 < 2 ^ 32 ->
  len iv = GCM_IV_SIZE -> (forall k, 0 <= k -> len (aes_rnd k) = k) ->
  exists c, pk_encrypt rnd aes_rnd iv (Some (skey_public s)) data = Ret c /\ sk_decrypt (Some s) c = Ret data /\
    len c = n / 8 + (if len data <=? n / 8 - 11 then 0 else len data + GCM_IV_SIZE + GCM_DIGEST_SIZE).
Proof.
  intros Ha Hn Hiv Hr. unfold pk_encrypt, sk_decrypt. rewrite pair_algorithm, Ha. change (GNUTLS_PK_RSA <? 0) with false.
  rewrite Z.eqb_refl. cbn [negb]. rewrite wrap_small by lia. destruct (Z.leb_spec (len data) (n / 8 - 11)) as [Hd|Hd].
  - destruct (encryptBloc_ok rnd s n data Ha Hd) as (c & Hc & Hl & Hdec). exists c. rewrite Hc, Hl, Z.ltb_irrefl, Z.eqb_refl, Z.add_0_r. done.
  - destruct (aesKeySize_good (n / 8 - 11) ltac:(lia)) as [Hg Hk]. rewrite (proj2 (Z.eqb_neq _ _)) by lia.
    set (key := aes_rnd _). assert (Hkl : len key = aesKeySize (n / 8 - 11)) by (apply Hr; lia).
    destruct (aes_roundtrip iv data key Hiv ltac:(by rewrite Hkl)) as (e & He & Hel & Hed). rewrite He. cbn [mbind outcome_bind].
    destruct (encryptBloc_ok rnd s n key Ha ltac:(lia)) as (b & Hb & Hbl & Hbd). rewrite Hb. cbn [mbind outcome_bind].
    exists (b ++ e). split; [done|]. assert (0 <= len data) by (unfold len; lia).
    assert (Hle : len (b ++ e) = n / 8 + (len data + GCM_IV_SIZE + GCM_DIGEST_SIZE)) by (unfold len in *; rewrite length_app; lia).
    rewrite Hle. split; [|done]. destruct (Z.ltb_spec (n / 8 + (len data + GCM_IV_SIZE + GCM_DIGEST_SIZE)) (n / 8)); [unfold GCM_IV_SIZE, GCM_DIGEST_SIZE in *; lia|].
    rewrite (proj2 (Z.eqb_neq _ _)) by (unfold GCM_IV_SIZE, GCM_DIGEST_SIZE in *; lia).
    replace (Z.to_nat (n / 8)) with (length b) by (unfold len in Hbl; lia). rewrite take_app_length, drop_app_length, Hbd.
    cbn [mbind outcome_bind]. rewrite Hed. destruct data; [unfold len in Hd; cbn in Hd; lia|done].
Qed.
End RsaRoundTrip.

(** ** Two parties, with toy ciphers *)
Module CryptoDemo.

Definition bit (b : bool) : Z := if b then 1 else 0.

Definition parties : Gnutls := {|
  gkey := bool;
  gnutls_export k := Some [48; bit k];
  gnutls_import_pem _ := None;
  gnutls_import_der b := match b with [48; 0] => Some false | [48; 1] => Some true | _ => None end;
  gnutls_key_id k := replicate 20 (7 + bit k);
  gnutls_verify k d s := bool_decide (s = [GnutlsDemo.checksum d; bit k]);
  skey := bool;
  skey_public k := k;
  gnutls_sign k d := Some [GnutlsDemo.checksum d; bit k];
|}.

#[global] Instance parties_laws : GnutlsLaws parties.
Proof.
  split; simpl.
  - intros [] b [= <-]; done.
  - intros [] b [= <-]; (split; [done|by_compute]).
  - intros k d s [= <-]. by apply bool_decide_true.
  - intros k d s [= <-]. split_and!; [done|done|]. constructor; [apply Z.mod_pos_bound; lia|]. constructor; [by destruct k|constructor].
Qed.

(** The text is the data, the digest a sum. *)
Definition sum_digest (aad text : bytes) : bytes := replicate 16 (GnutlsDemo.checksum (aad ++ text)).

Definition ciphers : Ciphers := {|
  gcm_encrypt _ _ aad p := (p, sum_digest aad p);
  gcm_decrypt _ _ aad c := (c, sum_digest aad c);
  argon2i_hash_raw password salt := Some (password ++ salt);
  gnutls_fingerprint := ServeDemo.pad;
|}.

#[global] Instance ciphers_laws : CiphersLaws ciphers.
Proof.
  split; simpl; [done..|]. intros a b h H. destruct (ServeDemo.pad_size a b) as (r & Hr & Hl). congruence.
Qed.

(** Keys of 256 bits: the block holds the size, the key and the data. *)
Definition rsa : Rsa parties := {|
  gnutls_pubkey_get_pk_algorithm _ := (GNUTLS_PK_RSA, 256);
  gnutls_privkey_get_pk_algorithm _ := (GNUTLS_PK_RSA, 256);
  gnutls_pubkey_encrypt_data _ (g : @gkey parties) d :=
    if len d <=? 21 then Some (len d :: bit g :: d ++ replicate (30 - length d) 0) else None;
  gnutls_privkey_decrypt_data (s : @skey parties) c :=
    match c with l :: g :: r => if g =? bit s then Some (take (Z.to_nat l) r) else None | _ => None end;
|}.

#[global] Instance rsa_laws : RsaLaws rsa.
Proof.
  split; simpl; [done|..].
  - intros _ g n d [= <-] Hd. rewrite (proj2 (Z.leb_le _ _)) by exact Hd. eexists. split; [reflexivity|].
    unfold len in *. change (256 / 8 - 11) with 21 in Hd. change (256 / 8) with 32. cbn [length]. rewrite length_app, length_replicate. lia.
  - intros _ s d c. destruct (len d <=? 21); [|done]. intros [= <-]. rewrite Z.eqb_refl. unfold len. by rewrite Nat2Z.id, take_app_length.
Qed.

(** A certificate is a key. *)
Definition x509 : X509 parties := {|
  crt := bool;
  crt_list_import_pem _ := None;
  crt_list_import_der b := match b with [67; 0] => Some [false] | [67; 1] => Some [true] | _ => None end;
  crt_export_pem c := Some [67; bit c];
  pubkey_import_x509 c := Some (c : @gkey parties);
  crt_get_key_id c := replicate 20 (7 + bit c);
|}.

#[global] Instance x509_laws : X509Laws x509.
Proof. split. by intros c g [= <-]. Qed.
End CryptoDemo.

Lemma password_roundtrip_witness : exists c,
  aesEncrypt_password (C := CryptoDemo.ciphers) (replicate 16 1) (replicate 12 2) [] [5; 6] = Ret c /\
  aesDecrypt_password (C := CryptoDemo.ciphers) c [5; 6] = Throw "Wrong data size".
Proof.
  eexists. split; [vm_compute; reflexivity|].
  apply (password_roundtrip (C := CryptoDemo.ciphers) (replicate 16 1) (replicate 12 2) [] [5; 6]); vm_compute; reflexivity.
Defined.
