(* ===== verification/SecureDht.v ===== *)
(** * SecureDht: signed and encrypted values over the DHT

    Models [class SecureDht] (src/opendht-2.1.4/src/securedht.cpp): the policies that guard
    the types it registers, the certificates and public keys it collects, the check of
    values before the application sees them, and the operations that sign or encrypt what
    is put.  Values are shared: a value is a cell of a heap with the members that remember
    the outcome of its check, and the key object of its owner has an address of its own,
    since the code compares the pointers.  The [Dht] below is reached by the values its
    callbacks bring; threads, logging and the forwarding of calls are left out. *)
From S2P Require Import Prelude StdMap InfoHash SockAddr Node MsgPack Value Query Storage DhtStorage.
From S2P Require Import DhtOps DhtServe Crypto.

(** ** State *)

(** A [Value] with its cache for cryptographic operations. [c_owner] is the address of
    the [PublicKey] that [owner] points to, when it is not null. *)
Record Cell {G : Gnutls} := mkCell {
  c_val : Value;
  c_owner : positive;
  c_checked : bool;
  c_valid : bool;
  c_decrypted : bool;
  c_dvalue : option vptr;
}.

(** A value just made. *)
Definition Cell_make {G : Gnutls} (v : Value) (o : positive) : Cell := mkCell _ v o false false false None.

Section SecureDht.
Context {C : Ciphers} {G : Gnutls} {R : Rsa G} {X : X509 G}.

(** The members of [SecureDht], with the heap of values and the next address of a key. *)
Record Secure := mkSD {
  sd_key : option skey;
  sd_cert : option Certificate;
  sd_certs : list (Hash * Certificate);
  sd_pubkeys : list (Hash * PublicKey);
  sd_forward : bool;
  sd_cache : bool;
  sd_heap : gmap vptr Cell;
  sd_next : positive;
}.

Definition sd_set_heap (h : gmap vptr Cell) (s : Secure) : Secure :=
  mkSD (sd_key s) (sd_cert s) (sd_certs s) (sd_pubkeys s) (sd_forward s) (sd_cache s) h (sd_next s).
Definition sd_set_cell (p : vptr) (c : Cell) (s : Secure) : Secure := sd_set_heap (<[p := c]> (sd_heap s)) s.
Definition sd_set_certs (m : list (Hash * Certificate)) (s : Secure) : Secure :=
  mkSD (sd_key s) (sd_cert s) m (sd_pubkeys s) (sd_forward s) (sd_cache s) (sd_heap s) (sd_next s).
Definition sd_set_pubkey (k : PublicKey) (s : Secure) : Secure :=
  mkSD (sd_key s) (sd_cert s) (sd_certs s) (om_set op_lt (pk_getId k) k (sd_pubkeys s)) (sd_forward s) (sd_cache s) (sd_heap s) (sd_next s).

(** [std::make_shared<Value>]: a new cell, its owner a new object. *)
Definition sd_alloc (v : Value) (s : Secure) : vptr * Secure :=
  let q := fresh (dom (sd_heap s)) in
  (q, mkSD (sd_key s) (sd_cert s) (sd_certs s) (sd_pubkeys s) (sd_forward s) (sd_cache s)
        (<[q := Cell_make v (sd_next s)]> (sd_heap s)) (Pos.succ (sd_next s))).

(** [getId]. *)
Definition key_id (k : option skey) : Hash :=
  match k with Some key => pk_getId (Some (skey_public key)) | None => Hash_zero HASH_LEN end.
Definition sd_getId (s : Secure) : Hash := key_id (sd_key s).

(** The constructor: the certificate must be that of the key, and is put, for good, under
    its identifier; [Value(CERTIFICATE_TYPE, *certificate_, 1)] packs it. *)
Definition CERTIFICATE_TYPE_id : Z := 8.
Definition certificate_value (c : Certificate) : Value :=
  mkValue 1 None (Hash_zero HASH_LEN) CERTIFICATE_TYPE_id (pack_binary (crt_pack c)) [] 0 [] [] 0.

Definition SecureDht_make (id : option skey * option Certificate) (cert_cache_all : bool) : outcome (Secure * option (Hash * Value)) :=
  let s := mkSD id.1 id.2 [] [] false cert_cache_all ∅ 1 in
  match id.2 with
  | None => Ret (s, None)
  | Some c =>
      let certId := crt_getId c in
      if match id.1 with Some k => op_ne HASH_LEN certId (pk_getId (Some (skey_public k))) | None => false end
      then Throw "SecureDht: provided certificate doesn't match private key."
      else Ret (s, Some (certId, certificate_value c))
  end.

(** ** Encryption of values *)

Definition set_recipient (r : Hash) (v : Value) : Value :=
  mkValue (v_id v) (v_owner v) r (v_type v) (v_data v) (v_user_type v) (v_seq v) (v_signature v) (v_cypher v) (v_priority v).
Definition set_seq (n : Z) (v : Value) : Value :=
  mkValue (v_id v) (v_owner v) (v_recipient v) (v_type v) (v_data v) (v_user_type v) n (v_signature v) (v_cypher v) (v_priority v).
Definition set_cypher (c : bytes) (v : Value) : Value :=
  mkValue (v_id v) (v_owner v) (v_recipient v) (v_type v) (v_data v) (v_user_type v) (v_seq v) (v_signature v) c (v_priority v).

(** [Value::encrypt]. *)
Definition v_encrypt (rnd : bytes) (aes_rnd : Z -> bytes) (iv : bytes) (from : skey) (to : PublicKey) (v : Value) : outcome Value :=
  if isEncrypted v then Throw "Data is already encrypted."
  else
    v' ← v_sign from (set_recipient (pk_getId to) v);
    d ← msgpack_pack_to_encrypt v';
    c ← pk_encrypt rnd aes_rnd iv to d;
    Ret (set_cypher c (Value_make (v_id v'))).

(** [SecureDht::decrypt]. *)
Definition sd_decrypt (key : skey) (v : Value) : outcome Value :=
  if negb (isEncrypted v) then Throw "Data is not encrypted."
  else
    decrypted ← sk_decrypt (Some key) (v_cypher v);
    msg ← unpack decrypted;
    ret ← msgpack_unpack_body msg.1 (Value_make (v_id v));
    if op_ne HASH_LEN (v_recipient ret) (key_id (Some key)) then Throw "Recipient mismatch"
    else match v_owner ret with
         | None => Throw "Signature mismatch"
         | Some k =>
             d ← getToSign ret;
             if pk_checkSignature k d (v_signature ret) then Ret ret else Throw "Signature mismatch"
         end.

(** ** The check of values *)

Definition set_checked (valid : bool) (c : Cell) : Cell :=
  mkCell _ (c_val c) (c_owner c) true valid (c_decrypted c) (c_dvalue c).
Definition set_decrypted (d : option vptr) (c : Cell) : Cell :=
  mkCell _ (c_val c) (c_owner c) (c_checked c) (c_valid c) true d.

Definition dangling {A} : outcome A := Undef "dereference of a null pointer".

(** The encrypted values of [checkValue]. [proxy_server] is the build option. *)
Definition check_encrypted (proxy_server : bool) (p : vptr) (c : Cell) (s : Secure) : outcome (Secure * option vptr) :=
  match sd_key s with
  | None => Ret (s, if proxy_server && sd_forward s then Some p else None)
  | Some key =>
      if c_decrypted c then Ret (s, c_dvalue c)
      else
        let s1 := sd_set_cell p (set_decrypted (c_dvalue c) c) s in
        match sd_decrypt key (c_val c) with
        | Ret d =>
            if op_eq HASH_LEN (v_recipient d) (sd_getId s1) then
              let s2 := match v_owner d with Some k => sd_set_pubkey k s1 | None => s1 end in
              let '(q, s3) := sd_alloc d s2 in
              Ret (sd_set_cell p (set_decrypted (Some q) c) s3, Some q)
            else Ret (s1, None)
        | Throw _ => Ret (s1, None)
        | Undef w => Undef w
        | Terminate w => Terminate w
        end
  end.

(** The signed ones. *)
Definition check_signed (p : vptr) (c : Cell) (s : Secure) : outcome (Secure * option vptr) :=
  if c_checked c then Ret (s, if c_valid c then Some p else None)
  else
    let s1 := sd_set_cell p (set_checked (c_valid c) c) s in
    match v_owner (c_val c) with
    | None => Ret (s1, None)
    | Some k =>
        d ← getToSign (c_val c);
        if pk_checkSignature k d (v_signature (c_val c)) then
          let s2 := sd_set_cell p (set_checked true c) s1 in
          Ret (if sd_cache s then sd_set_pubkey k s2 else s2, Some p)
        else Ret (s1, None)
    end.

(** [checkValue]. *)
Definition checkValue (proxy_server : bool) (p : vptr) (s : Secure) : outcome (Secure * option vptr) :=
  match sd_heap s !! p with
  | None => dangling
  | Some c =>
      if isEncrypted (c_val c) then check_encrypted proxy_server p c s
      else if isSigned (c_val c) then check_signed p c s
      else Ret (s, Some p)
  end.

(** The loop of [getCallbackFilter]. *)
Fixpoint filter_loop (proxy_server : bool) (filter : Filter) (values tmpvals : list vptr) (s : Secure) : outcome (Secure * list vptr) :=
  match values with
  | [] => Ret (s, tmpvals)
  | v :: values' =>
      '(s', nv) ← checkValue proxy_server v s;
      match nv with
      | None => filter_loop proxy_server filter values' tmpvals s'
      | Some q =>
          match sd_heap s' !! q with
          | None => dangling
          | Some c => filter_loop proxy_server filter values' (if passes filter (c_val c) then tmpvals ++ [q] else tmpvals) s'
          end
      end
  end.

(** [getCallbackFilter]: what the callback is called with, if it is, and what the [Dht]
    below is told. *)
Definition getCallbackFilter (proxy_server : bool) (cb : option (list vptr -> bool)) (filter : Filter) (values : list vptr) (s : Secure) :
    outcome (Secure * option (list vptr) * bool) :=
  '(s', tmpvals) ← filter_loop proxy_server filter values [] s;
  match cb, tmpvals with
  | Some f, _ :: _ => Ret (s', Some tmpvals, f tmpvals)
  | _, _ => Ret (s', None, true)
  end.

(** ** Policies of secure types *)

(** The signature of the cell at [p], checked with [k] unless it already was. *)
Definition policy_check (k : option PublicKey) (p : vptr) (c : Cell) (s : Secure) : outcome (Secure * bool) :=
  if c_checked c then Ret (s, c_valid c)
  else
    valid ← match k with
            | Some k => d ← getToSign (c_val c); Ret (pk_checkSignature k d (v_signature (c_val c)))
            | None => Ret false
            end;
    Ret (sd_set_cell p (set_checked valid c) s, valid).

(** [secureType]: the store policy and the edit policy it puts around those of the
    type. *)
Definition secure_storePolicy (inner : Hash -> vptr -> Hash -> SockAddr -> bool * vptr)
    (id : Hash) (v : vptr) (nid : Hash) (a : SockAddr) (s : Secure) : outcome (Secure * (bool * vptr)) :=
  match sd_heap s !! v with
  | None => dangling
  | Some c =>
      if isSigned (c_val c) then
        '(s', valid) ← policy_check (v_owner (c_val c)) v c s;
        Ret (s', if valid : bool then inner id v nid a else (false, v))
      else Ret (s, inner id v nid a)
  end.

(** [o->owner == n->owner], on the pointers. *)
Definition same_owner (o n : Cell) : bool :=
  match v_owner (c_val o), v_owner (c_val n) with
  | Some _, Some _ => bool_decide (c_owner o = c_owner n)
  | None, None => true
  | _, _ => false
  end.

(** The comparison of sequence numbers: equal ones need the same data. *)
Definition newer (o n : Value) : outcome bool :=
  if v_seq o =? v_seq n then
    a ← getToSign o; b ← getToSign n; Ret (bool_decide (a = b))
  else Ret (negb (v_seq n <? v_seq o)).

Definition secure_editPolicy (inner : Hash -> vptr -> vptr -> Hash -> SockAddr -> bool * vptr)
    (id : Hash) (o n : vptr) (nid : Hash) (a : SockAddr) (s : Secure) : outcome (Secure * (bool * vptr)) :=
  match sd_heap s !! o, sd_heap s !! n with
  | Some oc, Some nc =>
      if negb (isSigned (c_val oc)) then Ret (s, inner id o n nid a)
      else if negb (same_owner oc nc) then Ret (s, (false, n))
      else
        '(s', valid) ← policy_check (v_owner (c_val oc)) n nc s;
        if negb valid then Ret (s', (false, n))
        else b ← newer (c_val oc) (c_val nc); Ret (s', (b, n))
  | _, _ => dangling
  end.

(** The policies of [CERTIFICATE_TYPE]. *)
Definition certificate_storePolicy (id : Hash) (v : Value) : bool :=
  match crt ← Certificate_of_blob (v_data v); crt_getPublicKey crt with
  | Ret k => op_eq HASH_LEN (pk_getId k) id
  | _ => false
  end.

Definition certificate_editPolicy (o n : Value) : bool :=
  match (co ← Certificate_of_blob (v_data o); ko ← crt_getPublicKey co;
         cn ← Certificate_of_blob (v_data n); kn ← crt_getPublicKey cn;
         Ret (op_eq HASH_LEN (pk_getId ko) (pk_getId kn))) with
  | Ret b => b
  | _ => false
  end.

(** ** Certificates and keys *)

Definition getCertificate (node : Hash) (s : Secure) : option Certificate :=
  if op_eq HASH_LEN node (sd_getId s) then sd_cert s else om_find op_lt node (sd_certs s).

(** [getPublicKey]: our own key is that of the certificate, which is not tested. *)
Definition getPublicKey (node : Hash) (s : Secure) : outcome (option PublicKey) :=
  if op_eq HASH_LEN node (sd_getId s) then
    match sd_cert s with None => dangling | Some c => k ← crt_getPublicKey c; Ret (Some k) end
  else Ret (om_find op_lt node (sd_pubkeys s)).

(** [registerCertificate(node, data)]: data that is no certificate, or that of another
    node, is refused. *)
Definition registerCertificate (node : Hash) (data : bytes) (s : Secure) : outcome (Secure * option Certificate) :=
  match Certificate_of_blob data with
  | Throw _ => Ret (s, None)
  | Ret crt =>
      k ← crt_getPublicKey crt;
      if op_eq HASH_LEN node (pk_getId k)
      then Ret (sd_set_certs (om_set op_lt (pk_getId k) crt (sd_certs s)) s, Some crt)
      else Ret (s, None)
  | Undef w => Undef w
  | Terminate w => Terminate w
  end.

(** [registerCertificate(cert)]. *)
Definition registerCertificate_of (cert : option Certificate) (s : Secure) : Secure :=
  match cert with Some c => sd_set_certs (om_set op_lt (crt_getId c) c (sd_certs s)) s | None => s end.

(** The callback of the [get] in [findCertificate]: the first value that is a certificate
    of the node is the result. *)
Fixpoint cert_on_values (node : Hash) (datas : list bytes) (s : Secure) : outcome (Secure * option Certificate) :=
  match datas with
  | [] => Ret (s, None)
  | d :: datas' =>
      '(s', r) ← registerCertificate node d s;
      match r with Some c => Ret (s', Some c) | None => cert_on_values node datas' s' end
  end.

(** All the calls of that callback, until a certificate is found; the end of the [get]
    reports that none was. *)
Fixpoint cert_search (node : Hash) (batches : list (list bytes)) (s : Secure) : outcome (Secure * option Certificate) :=
  match batches with
  | [] => Ret (s, None)
  | b :: batches' =>
      '(s', r) ← cert_on_values node b s;
      match r with Some c => Ret (s', Some c) | None => cert_search node batches' s' end
  end.

(** [findCertificate], with what the local store and the network answer; the result is the
    certificate the callback gets. *)
Definition findCertificate (localQuery : option (Hash -> list Certificate)) (answers : list (list bytes)) (node : Hash) (s : Secure) :
    outcome (Secure * option Certificate) :=
  let network := cert_search node answers s in
  let ask := match localQuery with
             | None => network
             | Some q => match q node with
                         | [] => network
                         | c :: _ => Ret (sd_set_certs (om_emplace op_lt node c (sd_certs s)).1 s, Some c)
                         end
             end in
  match getCertificate node s with
  | Some b => if crt_ok b then Ret (s, Some b) else ask
  | None => ask
  end.

(** [findPublicKey]. *)
Definition pk_ok (k : PublicKey) : bool := match k with Some _ => true | None => false end.

(** The callback it gives to [findCertificate]. *)
Definition on_certificate (s : Secure) (crt : option Certificate) : outcome (Secure * option PublicKey) :=
  match crt with
  | Some c =>
      if crt_ok c then
        k ← crt_getPublicKey c;
        if pk_ok k then Ret (sd_set_pubkey k s, Some k) else Ret (s, None)
      else Ret (s, None)
  | None => Ret (s, None)
  end.

Definition findPublicKey (localQuery : option (Hash -> list Certificate)) (answers : list (list bytes)) (node : Hash) (s : Secure) :
    outcome (Secure * option PublicKey) :=
  pk ← getPublicKey node s;
  match pk with
  | Some (Some g) => Ret (s, Some (Some g))
  | _ => '(s', crt) ← findCertificate localQuery answers node s; on_certificate s' crt
  end.

(** ** Signed and encrypted puts *)

(** [putSigned]: the identifier and the sequence number before the search; [p] is the
    value already announced here under that identifier. *)
Definition putSigned_start (rand_id : Z) (getPut : Z -> option Value) (val : Value) : Value :=
  let val1 := if v_id val =? 0 then set_id rand_id val else val in
  match getPut (v_id val1) with
  | Some p => if v_seq val1 <=? v_seq p then set_seq (wrap 16 (v_seq p + 1)) val1 else val1
  | None => val1
  end.

(** A value is ours: signed, by our key. *)
Definition owned_by (me : Hash) (v : Value) : bool :=
  isSigned v && match v_owner v with Some k => negb (op_ne HASH_LEN (pk_getId k) me) | None => false end.

(** The callback of its [get], on the values that passed the check. *)
Definition putSigned_on_get (me : Hash) (vals : list Value) (val : Value) : Value :=
  fold_left (fun val v => if owned_by me v && (v_seq val <=? v_seq v) then set_seq (wrap 16 (v_seq v + 1)) val else val) vals val.

(** The whole operation: what is put, or [None] when the callback is told of a failure. *)
Definition putSigned (rand_id : Z) (getPut : Z -> option Value) (batches : list (list Value)) (val : Value) (s : Secure) : outcome (option Value) :=
  match sd_key s with
  | None => Ret None
  | Some key =>
      let val' := fold_left (fun val vals => putSigned_on_get (sd_getId s) vals val) batches (putSigned_start rand_id getPut val) in
      v ← v_sign key val'; Ret (Some v)
  end.

(** [putEncrypted]. *)
Definition putEncrypted (rnd : bytes) (aes_rnd : Z -> bytes) (iv : bytes) (localQuery : option (Hash -> list Certificate))
    (answers : list (list bytes)) (to : Hash) (val : Value) (s : Secure) : outcome (Secure * option Value) :=
  match sd_key s with
  | None => Ret (s, None)
  | Some key =>
      '(s', pk) ← findPublicKey localQuery answers to s;
      match pk with
      | Some (Some g) =>
          match v_encrypt rnd aes_rnd iv key (Some g) val with
          | Ret v => Ret (s', Some v)
          | Throw _ => Ret (s', None)
          | Undef w => Undef w
          | Terminate w => Terminate w
          end
      | _ => Ret (s', None)
      end
  end.
End SecureDht.

(** ** The check as a function of values

    What the check makes of a value, without the memory of earlier checks. *)

Section Verdict.
Context {C : Ciphers} {G : Gnutls} {R : Rsa G}.

(** The signature verifies. *)
Definition sig_ok (v : Value) : bool :=
  match v_owner v, getToSign v with
  | Some k, Ret d => pk_checkSignature k d (v_signature v)
  | _, _ => false
  end.

Definition verdict (forward : bool) (key : option skey) (v : Value) : outcome (option Value) :=
  if isEncrypted v then
    match key with
    | None => Ret (if forward then Some v else None)
    | Some k => match sd_decrypt k v with
                | Ret d => Ret (Some d)
                | Throw _ => Ret None
                | Undef w => Undef w
                | Terminate w => Terminate w
                end
    end
  else Ret (if isSigned v then if sig_ok v then Some v else None else Some v).

(** What an application may rely on: a value that came in clear was never signed, a
    signed one bears a signature its owner's key verifies, and a decrypted one was
    addressed to us and signed by the key it names. *)
Definition authentic (forward : bool) (key : option skey) (v d : Value) : Prop :=
  (isEncrypted v = false /\ d = v /\ (isSigned v = true -> sig_ok v = true)) \/
  (isEncrypted v = true /\ exists k, key = Some k /\ sd_decrypt k v = Ret d /\ v_id d = v_id v /\
     op_eq HASH_LEN (v_recipient d) (key_id key) = true /\ sig_ok d = true) \/
  (isEncrypted v = true /\ key = None /\ forward = true /\ d = v).

Lemma unpack_owner_id o body r v d : unpack_owner o body r v = Ret d -> v_id d = v_id v.
Proof.
  unfold unpack_owner. repeat (match goal with |- context [?m ≫= _] => destruct m; try done; cbn [mbind outcome_bind] end).
  by intros [= <-].
Qed.

Lemma unpack_body_id o v d : msgpack_unpack_body o v = Ret d -> v_id d = v_id v.
Proof.
  unfold msgpack_unpack_body. destruct o; try done; [by intros [= <-]|].
  repeat (match goal with |- context [?m ≫= _] => destruct m; try done; cbn [mbind outcome_bind] end).
  case_match; [intros Hu; exact (unpack_owner_id _ _ _ _ _ Hu)|by intros [= <-]].
Qed.

Lemma decrypt_authentic k v d : sd_decrypt k v = Ret d ->
  v_id d = v_id v /\ op_eq HASH_LEN (v_recipient d) (key_id (Some k)) = true /\ sig_ok d = true.
Proof.
  unfold sd_decrypt. destruct (negb _); [done|]. destruct (sk_decrypt _ _); try done. cbn [mbind outcome_bind].
  destruct (unpack _) as [m| | |]; try done. cbn [mbind outcome_bind].
  destruct (msgpack_unpack_body _ _) as [r| | |] eqn:E; try done. cbn [mbind outcome_bind].
  unfold op_ne. destruct (op_eq _ (v_recipient r) _) eqn:Er; [|done]. cbn [negb].
  unfold sig_ok. destruct (v_owner r) as [o|] eqn:Eo; [|done]. destruct (getToSign r) as [t| | |] eqn:Et; try done. cbn [mbind outcome_bind].
  destruct (pk_checkSignature o t (v_signature r)) eqn:Ec; [|done]. intros [= <-].
  split; [by apply unpack_body_id in E|]. split; [done|]. by rewrite Eo, Et.
Qed.

Lemma verdict_authentic forward key v d : verdict forward key v = Ret (Some d) -> authentic forward key v d.
Proof.
  unfold verdict, authentic. destruct (isEncrypted v).
  - destruct key as [k|].
    + destruct (sd_decrypt k v) as [x| | |] eqn:E; try done. intros [= <-]. right. left. split; [done|].
      destruct (decrypt_authentic k v x E) as (? & ? & ?). by exists k.
    + destruct forward; [|done]. intros [= <-]. right. right. done.
  - destruct (isSigned v); [destruct (sig_ok v) eqn:E|]; intros [= <-]; left; done.
Qed.
End Verdict.

(** ** The memory of checks *)

Section Memory.
Context {C : Ciphers} {G : Gnutls} {R : Rsa G} {X : X509 G}.

(** A cell remembers what a check of its value gives. *)
Definition memo_ok (key : option skey) (h : gmap vptr Cell) (c : Cell) : Prop :=
  c_valid c = c_checked c && sig_ok (c_val c) /\
  (c_decrypted c = false -> c_dvalue c = None) /\
  (c_decrypted c = true -> forall k, key = Some k ->
     match sd_decrypt k (c_val c) with
     | Ret d => exists q c', c_dvalue c = Some q /\ h !! q = Some c' /\ c_val c' = d
     | Throw _ => c_dvalue c = None
     | _ => False
     end).

(** The heap is sound: its cells are, and an address is one key. *)
Definition heap_ok (s : Secure) : Prop :=
  (forall p c, sd_heap s !! p = Some c -> memo_ok (sd_key s) (sd_heap s) c /\ (c_owner c < sd_next s)%positive) /\
  (forall p p' c c' k k', sd_heap s !! p = Some c -> sd_heap s !! p' = Some c' -> c_owner c = c_owner c' ->
     v_owner (c_val c) = Some k -> v_owner (c_val c') = Some k' -> k = k').

(** Values are not changed, only what is remembered of them. *)
Definition extends (s s' : Secure) : Prop :=
  sd_key s' = sd_key s /\ sd_forward s' = sd_forward s /\
  forall p c, sd_heap s !! p = Some c -> exists c', sd_heap s' !! p = Some c' /\ c_val c' = c_val c /\ c_owner c' = c_owner c.

#[export] Instance extends_preorder : PreOrder extends.
Proof.
  split.
  - intros s. split_and!; [done..|]. intros p c H. by exists c.
  - intros s1 s2 s3 (K1 & F1 & H1) (K2 & F2 & H2). split_and!; [congruence..|]. intros p c H.
    destruct (H1 p c H) as (c1 & Hc & ? & ?). destruct (H2 p c1 Hc) as (c2 & ? & ? & ?). exists c2. split; [done|]. split; congruence.
Qed.

Lemma memo_mono key (h h' : gmap vptr Cell) c : (forall p c, h !! p = Some c -> exists c', h' !! p = Some c' /\ c_val c' = c_val c) ->
  memo_ok key h c -> memo_ok key h' c.
Proof.
  intros Hh (H1 & H2 & H3). split; [done|]. split; [done|]. intros Hd k Hk. specialize (H3 Hd k Hk).
  destruct (sd_decrypt k (c_val c)) as [d| | |]; try done. destruct H3 as (q & c' & Hq & Hc & <-).
  destruct (Hh q c' Hc) as (c2 & ? & ?). exists q, c2. done.
Qed.

Lemma set_cell_extends p c c' s : sd_heap s !! p = Some c -> c_val c' = c_val c -> c_owner c' = c_owner c -> extends s (sd_set_cell p c' s).
Proof.
  intros Hp Hv Ho. split; [done|]. split; [done|]. intros q d Hq. cbn. destruct (decide (q = p)) as [->|Hne].
  - rewrite lookup_insert_eq. exists c'. by simplify_eq.
  - rewrite lookup_insert_ne by done. by exists d.
Qed.

Lemma extends_vals s s' : extends s s' -> forall p c, sd_heap s !! p = Some c -> exists c', sd_heap s' !! p = Some c' /\ c_val c' = c_val c.
Proof. intros (_ & _ & H) p c Hp. destruct (H p c Hp) as (c' & ? & ? & ?). by exists c'. Qed.

Lemma set_cell_ok p c c' s : heap_ok s -> sd_heap s !! p = Some c -> c_val c' = c_val c -> c_owner c' = c_owner c ->
  memo_ok (sd_key s) (sd_heap s) c' -> heap_ok (sd_set_cell p c' s).
Proof.
  intros [Hm Ho] Hp Hv Hown Hc'. pose proof (set_cell_extends p c c' s Hp Hv Hown) as He.
  assert (Hsame : forall q d, sd_heap (sd_set_cell p c' s) !! q = Some d -> exists d', sd_heap s !! q = Some d' /\ c_val d = c_val d' /\ c_owner d = c_owner d').
  { intros q d Hq. cbn in Hq. destruct (decide (q = p)) as [->|Hne].
    - rewrite lookup_insert_eq in Hq. injection Hq as <-. by exists c.
    - rewrite lookup_insert_ne in Hq by done. by exists d. }
  split.
  - intros q d Hq. destruct (Hsame q d Hq) as (d' & Hd' & Ev & Eo). destruct (Hm q d' Hd') as [Hmd Hlt]. split; [|cbn; by rewrite Eo].
    apply (memo_mono (sd_key s) (sd_heap s)); [by apply extends_vals|]. cbn in Hq. destruct (decide (q = p)) as [->|Hne].
    + rewrite lookup_insert_eq in Hq. by injection Hq as <-.
    + rewrite lookup_insert_ne in Hq by done. by simplify_eq.
  - intros q q' d d' k k' Hq Hq' Eq Hk Hk'. destruct (Hsame q d Hq) as (e & He' & Ev & Eo). destruct (Hsame q' d' Hq') as (e' & He'' & Ev' & Eo').
    eapply (Ho q q' e e'); congruence.
Qed.

Lemma alloc_spec v s : heap_ok s -> let '(q, s') := sd_alloc v s in
  heap_ok s' /\ extends s s' /\ sd_heap s !! q = None /\ sd_heap s' !! q = Some (Cell_make v (sd_next s)) /\
  (forall p c, sd_heap s !! p = Some c -> sd_heap s' !! p = Some c).
Proof.
  intros [Hm Ho]. unfold sd_alloc. set (q := fresh (dom (sd_heap s))). assert (Hq : sd_heap s !! q = None) by apply not_elem_of_dom, is_fresh.
  set (s' := mkSD _ _ _ _ _ _ _ _). assert (Hold : forall p c, sd_heap s !! p = Some c -> sd_heap s' !! p = Some c).
  { intros p c Hp. cbn. rewrite lookup_insert_ne; [done|]. intros ->. congruence. }
  assert (Hnew : forall p c, sd_heap s' !! p = Some c -> (p = q /\ c = Cell_make v (sd_next s)) \/ sd_heap s !! p = Some c).
  { intros p c Hp. cbn in Hp. apply lookup_insert_Some in Hp as [[<- <-]|[_ ?]]; [by left|by right]. }
  split_and!; [split| |done|cbn; apply lookup_insert_eq|done].
  - intros p c [[-> ->]|Hp]%Hnew; cbn [sd_key sd_next s'].
    + split; [|cbn; lia]. unfold memo_ok. cbn. done.
    + destruct (Hm p c Hp) as [H1 H2]. split; [|cbn; lia]. eapply memo_mono; [|exact H1]. intros p' c' Hp'. exists c'. split; [by apply Hold|done].
  - intros p p' c c' k k' [[-> ->]|Hp]%Hnew [[-> ->]|Hp']%Hnew Eo Hk Hk'.
    + congruence.
    + destruct (Hm p' c' Hp'). cbn in Eo. lia.
    + destruct (Hm p c Hp). cbn in Eo. lia.
    + by eapply (Ho p p' c c').
  - split_and!; [done..|]. intros p c Hp. exists c. split; [by apply Hold|done].
Qed.

Lemma set_pubkey_ok k s : heap_ok s -> heap_ok (sd_set_pubkey k s) /\ extends s (sd_set_pubkey k s).
Proof. intros H. split; [exact H|]. split_and!; [done..|]. intros p c Hp. by exists c. Qed.

(** The value a returned pointer stands for. *)
Definition denotes (s : Secure) (q : option vptr) (r : option Value) : Prop :=
  match q, r with
  | Some p, Some d => exists c, sd_heap s !! p = Some c /\ c_val c = d
  | None, None => True
  | _, _ => False
  end.

(** The key of the owner of a value sent in clear can be exported, so that the data to
    verify can be built. *)
Definition checkable (v : Value) : Prop := isEncrypted v = false -> isSigned v = true -> exists d, getToSign v = Ret d.

Lemma check_signed_spec p c s : heap_ok s -> sd_heap s !! p = Some c -> isSigned (c_val c) = true -> (exists d, getToSign (c_val c) = Ret d) ->
  exists s', check_signed p c s = Ret (s', if sig_ok (c_val c) then Some p else None) /\ heap_ok s' /\ extends s s'.
Proof.
  intros Hok Hp Hs [d Hd]. destruct (proj1 Hok p c Hp) as [(Hv & Hdn & Hdy) Hlt]. unfold check_signed. destruct (c_checked c) eqn:Ec.
  { exists s. rewrite Hv. cbn [andb]. done. }
  cbn [andb] in Hv. unfold isSigned in Hs. destruct (v_owner (c_val c)) as [k|] eqn:Ek; [|done]. rewrite Hd. cbn [mbind outcome_bind].
  assert (Hsig : sig_ok (c_val c) = pk_checkSignature k d (v_signature (c_val c))) by (unfold sig_ok; by rewrite Ek, Hd).
  rewrite Hsig. set (s1 := sd_set_cell p (set_checked (c_valid c) c) s).
  destruct (pk_checkSignature k d _) eqn:Ev.
  - assert (Hs2 : sd_set_cell p (set_checked true c) s1 = sd_set_cell p (set_checked true c) s).
    { unfold s1, sd_set_cell, sd_set_heap. cbn. by rewrite insert_insert_eq. }
    rewrite Hs2. set (s2 := sd_set_cell p (set_checked true c) s).
    assert (heap_ok s2 /\ extends s s2) as [H1 H2].
    { split; [eapply set_cell_ok|by eapply set_cell_extends]; [done..|]. split_and!; [cbn; by rewrite Hsig|done..]. }
    destruct (sd_cache s); [|by exists s2]. destruct (set_pubkey_ok k s2 H1) as [H3 H4]. exists (sd_set_pubkey k s2).
    split; [done|]. split; [exact H3|]. by transitivity s2.
  - exists s1. split; [done|]. split; [eapply set_cell_ok|by eapply set_cell_extends]; [done..|]. split_and!; [cbn; by rewrite Hsig, Hv|done..].
Qed.

Lemma check_encrypted_spec proxy p c s r : heap_ok s -> sd_heap s !! p = Some c -> isEncrypted (c_val c) = true ->
  verdict (proxy && sd_forward s) (sd_key s) (c_val c) = Ret r ->
  exists s' q, check_encrypted proxy p c s = Ret (s', q) /\ heap_ok s' /\ extends s s' /\ denotes s' q r.
Proof.
  intros Hok Hp He. destruct (proj1 Hok p c Hp) as [(Hv & Hdn & Hdy) Hlt]. unfold verdict, check_encrypted. rewrite He.
  destruct (sd_key s) as [k|] eqn:Ek.
  2:{ intros [= <-]. eexists s, _. split; [reflexivity|]. split; [done|]. split; [done|]. destruct (proxy && sd_forward s); [by exists c|done]. }
  destruct (c_decrypted c) eqn:Ed.
  { specialize (Hdy eq_refl k eq_refl). intros Hr. exists s, (c_dvalue c). split; [done|]. split; [done|]. split; [done|].
    destruct (sd_decrypt k (c_val c)) as [d| | |]; try done; injection Hr as <-.
    - destruct Hdy as (q & c' & -> & Hq & Hd). by exists c'.
    - by rewrite Hdy. }
  specialize (Hdn eq_refl). set (s1 := sd_set_cell p (set_decrypted (c_dvalue c) c) s). assert (He1 : extends s s1) by (by eapply set_cell_extends).
  destruct (sd_decrypt k (c_val c)) as [d| | |] eqn:Edec; try done; intros [= <-].
  - destruct (decrypt_authentic k (c_val c) d Edec) as (_ & Hrec & _). change (sd_getId s1) with (key_id (sd_key s)). rewrite Ek, Hrec.
    set (s2 := match v_owner d with Some _ => _ | None => _ end). assert (Hh2 : sd_heap s2 = sd_heap s1) by (unfold s2; by destruct (v_owner d)).
    assert (Hk2 : sd_key s2 = Some k) by (unfold s2; destruct (v_owner d); cbn; exact Ek).
    assert (Hn2 : sd_next s2 = sd_next s) by (unfold s2; by destruct (v_owner d)).
    assert (Hf2 : sd_forward s2 = sd_forward s) by (unfold s2; by destruct (v_owner d)).
    (* allocating after the flag is set is allocating before, then setting flag and value *)
    destruct (sd_alloc d s) as [q0 s0] eqn:Ea0. pose proof (alloc_spec d s Hok) as Ha. rewrite Ea0 in Ha. destruct Ha as (Hok0 & Hex0 & Hfresh & Hq0 & Hold).
    destruct (sd_alloc d s2) as [q s3] eqn:Ea. unfold sd_alloc in Ea, Ea0. rewrite Hh2 in Ea.
    assert (Hdom : dom (sd_heap s1) = dom (sd_heap s)).
    { cbn. rewrite dom_insert_L. apply elem_of_dom_2 in Hp. set_solver. }
    rewrite Hdom in Ea. injection Ea as <- <-. injection Ea0 as <- <-.
    set (q := fresh (dom (sd_heap s))) in *. assert (Hpq : p <> q) by congruence.
    set (c2 := set_decrypted (Some q) c). eexists _, (Some q). split; [reflexivity|].
    set (s0 := mkSD _ _ _ _ _ _ _ (Pos.succ (sd_next s))) in *.
    assert (Hbase : heap_ok (sd_set_cell p c2 s0) /\ extends s (sd_set_cell p c2 s0)).
    { split.
      - eapply set_cell_ok; [exact Hok0|by apply Hold|done..|]. split_and!; [done|done|]. intros _ k' Hk'. cbn in Hk'. rewrite Ek in Hk'. injection Hk' as <-.
        cbn [c_val c2 set_decrypted]. rewrite Edec. exists q, (Cell_make d (sd_next s)). done.
      - etrans; [exact Hex0|]. eapply set_cell_extends; [by apply Hold|done..]. }
    match goal with |- heap_ok ?s' /\ _ => assert (Hheap : sd_heap s' = sd_heap (sd_set_cell p c2 s0)) end.
    { cbn. rewrite Hn2. rewrite (insert_insert_ne (sd_heap s)) by done. rewrite insert_insert_eq. done. }
    destruct Hbase as [[Hb1 Hb2] Hb3]. split_and!.
    + split; [intros p' c'|intros p1 p2 c1 c1' k1 k1']; rewrite ?Hheap; [|apply Hb2]. intros Hp'. cbn [sd_key sd_next sd_set_cell sd_set_heap].
      rewrite Hk2, Hn2. rewrite <- Ek. exact (Hb1 p' c' Hp').
    + destruct Hb3 as (_ & _ & Hb3). split_and!; [cbn; congruence|cbn; congruence|]. intros p' c' Hp'. rewrite Hheap. by apply Hb3.
    + exists (Cell_make d (sd_next s)). rewrite Hheap. split; [|done]. cbn. by rewrite lookup_insert_ne, lookup_insert_eq by done.
  - exists s1, None. split; [done|]. split; [|done]. eapply set_cell_ok; [done|exact Hp|done..|]. split_and!; [done|done|].
    intros _ k' Hk'. cbn. rewrite Ek in Hk'. injection Hk' as <-. by rewrite Edec.
Qed.

(** The check implements the verdict, whatever was remembered before. *)
Lemma checkValue_spec proxy p c s r : heap_ok s -> sd_heap s !! p = Some c -> checkable (c_val c) ->
  verdict (proxy && sd_forward s) (sd_key s) (c_val c) = Ret r ->
  exists s' q, checkValue proxy p s = Ret (s', q) /\ heap_ok s' /\ extends s s' /\ denotes s' q r.
Proof.
  intros Hok Hp Hc Hr. unfold checkValue. rewrite Hp. destruct (isEncrypted (c_val c)) eqn:He; [by apply check_encrypted_spec|].
  unfold verdict in Hr. rewrite He in Hr. injection Hr as <-. destruct (isSigned (c_val c)) eqn:Hs.
  - destruct (check_signed_spec p c s Hok Hp Hs (Hc He Hs)) as (s' & H & Hok' & Hex). eexists s', _. split; [exact H|]. split; [done|]. split; [done|].
    destruct (sig_ok (c_val c)); [|done]. destruct (extends_vals _ _ Hex p c Hp) as (c' & ? & ?). by exists c'.
  - exists s, (Some p). split; [done|]. split; [done|]. split; [done|]. by exists c.
Qed.

(** Pointers and the values they stand for. *)
Definition points (s : Secure) (p : vptr) (v : Value) : Prop := exists c, sd_heap s !! p = Some c /\ c_val c = v.

Lemma points_mono s s' ps vs : extends s s' -> Forall2 (points s) ps vs -> Forall2 (points s') ps vs.
Proof.
  intros He H. eapply Forall2_impl; [exact H|]. intros p v (c & Hc & Hv). destruct (extends_vals _ _ He p c Hc) as (c' & ? & ?). exists c'. split; congruence.
Qed.

(** The value the check lets through, if any. *)
Definition passed (forward : bool) (key : option skey) (v : Value) : option Value :=
  match verdict forward key v with Ret r => r | _ => None end.

(** The check of a value returns: decrypting it does not run into the undefined behaviour
    of the parser. *)
Definition returns (forward : bool) (key : option skey) (v : Value) : Prop := checkable v /\ exists r, verdict forward key v = Ret r.

Lemma filter_loop_spec proxy filter key fw : forall ps vs tmp ds s,
  heap_ok s -> sd_key s = key -> proxy && sd_forward s = fw -> Forall2 (points s) ps vs -> Forall (returns fw key) vs -> Forall2 (points s) tmp ds ->
  exists s' out, filter_loop proxy filter ps tmp s = Ret (s', out) /\ heap_ok s' /\ extends s s' /\
    Forall2 (points s') out (ds ++ List.filter (passes filter) (omap (passed fw key) vs)).
Proof.
  induction ps as [|p ps IH]; intros vs tmp ds s Hok Hk Hf Hps Hret Htmp.
  { apply Forall2_nil_inv_l in Hps as ->. exists s, tmp. cbn. rewrite app_nil_r. done. }
  apply Forall2_cons_inv_l in Hps as (v & vs' & (c & Hc & <-) & Hps & ->). apply Forall_cons in Hret as [[Hck [r Hr]] Hret].
  cbn [filter_loop]. rewrite <- Hf, <- Hk in Hr. destruct (checkValue_spec proxy p c s r Hok Hc Hck Hr) as (s1 & q & -> & Hok1 & Hex & Hden).
  cbn [mbind outcome_bind]. assert (Hp : passed fw key (c_val c) = r) by (unfold passed; by rewrite <- Hf, <- Hk, Hr).
  destruct Hex as (Hek & Hef & Hex'). assert (extends s s1) as Hex by (by split_and!).
  assert (Hk1 : sd_key s1 = key) by congruence. assert (Hf1 : proxy && sd_forward s1 = fw) by (by rewrite Hef).
  pose proof (points_mono _ _ _ _ Hex Hps) as Hps1. pose proof (points_mono _ _ _ _ Hex Htmp) as Htmp1. cbn [omap list_omap]. rewrite Hp.
  destruct q as [q|], r as [d|]; try done.
  - destruct Hden as (cq & Hq & <-). rewrite Hq. set (tmp' := if passes filter (c_val cq) then _ else _).
    destruct (IH vs' tmp' (ds ++ List.filter (passes filter) [c_val cq]) s1 Hok1 Hk1 Hf1 Hps1 Hret) as (s2 & out & Hl & Hok2 & Hex2 & Hout).
    { unfold tmp'. cbn. destruct (passes filter (c_val cq)); [|by rewrite app_nil_r]. apply Forall2_app; [done|]. constructor; [by exists cq|constructor]. }
    exists s2, out. split; [done|]. split; [done|]. split; [by transitivity s1|]. rewrite <- app_assoc, <- List.filter_app in Hout. exact Hout.
  - destruct (IH vs' tmp ds s1 Hok1 Hk1 Hf1 Hps1 Hret Htmp1) as (s2 & out & Hl & Hok2 & Hex2 & Hout).
    exists s2, out. split; [done|]. split; [done|]. split; [by transitivity s1|]. exact Hout.
Qed.

(** C6. An application behind [SecureDht] only sees authentic values, and all of them:
    the callback of a [get] or [listen] is called with exactly the values of the
    answer that pass the filter after the check, in order, and is not called when
    there are none. Each is a value that came in clear and unsigned, or one whose
    signature the key of its owner verifies, or the content of a value encrypted for
    our key, addressed to us and signed by the key it names. What was remembered from
    earlier checks of the same shared values does not change this, and stays sound. *)
Theorem callback_authentic proxy filter cb ps vs s :
  heap_ok s -> Forall2 (points s) ps vs -> Forall (returns (proxy && sd_forward s) (sd_key s)) vs ->
  exists s' out ds, getCallbackFilter proxy (Some cb) filter ps s =
      Ret (s', match out with [] => None | _ => Some out end, match out with [] => true | _ => cb out end) /\
    heap_ok s' /\ extends s s' /\ Forall2 (points s') out ds /\
    ds = List.filter (passes filter) (omap (passed (proxy && sd_forward s) (sd_key s)) vs) /\
    Forall (fun d => exists v, v ∈ vs /\ authentic (proxy && sd_forward s) (sd_key s) v d) ds.
Proof.
  intros Hok Hps Hret. destruct (filter_loop_spec proxy filter _ _ ps vs [] [] s Hok eq_refl eq_refl Hps Hret ltac:(constructor)) as (s' & out & Hl & Hok' & Hex & Hout).
  unfold getCallbackFilter. rewrite Hl. cbn [mbind outcome_bind]. eexists s', out, _. split; [by destruct out|].
  split; [done|]. split; [done|]. split; [exact Hout|]. split; [done|]. apply Forall_forall. intros d Hd.
  apply list_elem_of_In, List.filter_In in Hd as [Hd _]. apply list_elem_of_In, list_elem_of_omap in Hd as (v & Hv & Hp). exists v. split; [done|].
  apply verdict_authentic. unfold passed in Hp. rewrite Forall_forall in Hret. destruct (Hret v Hv) as [_ [r Hr]]. rewrite Hr in *. congruence.
Qed.
End Memory.

(** ** What the policies allow *)

Section Policies.
Context {C : Ciphers} {G : Gnutls} {R : Rsa G} {X : X509 G}.

#[export] Instance outcome_eq_dec `{EqDecision A} : EqDecision (outcome A).
Proof. solve_decision. Defined.

(** The data to sign can be built. *)
Definition signable (v : Value) : Prop := exists d, getToSign v = Ret d.

Lemma policy_check_spec p c s : heap_ok s -> sd_heap s !! p = Some c -> signable (c_val c) ->
  exists s', policy_check (v_owner (c_val c)) p c s = Ret (s', sig_ok (c_val c)) /\ heap_ok s' /\ extends s s'.
Proof.
  intros Hok Hp [d Hd]. destruct (proj1 Hok p c Hp) as [(Hv & Hdn & Hdy) Hlt]. unfold policy_check. destruct (c_checked c) eqn:Ec.
  { exists s. rewrite Hv. done. }
  assert (Hval : match v_owner (c_val c) with
    | Some k => d ← getToSign (c_val c); Ret (pk_checkSignature k d (v_signature (c_val c))) | None => Ret false end = Ret (sig_ok (c_val c))).
  { unfold sig_ok. destruct (v_owner (c_val c)); [|done]. by rewrite Hd. }
  rewrite Hval. cbn [mbind outcome_bind]. eexists. split; [reflexivity|].
  split; [eapply set_cell_ok|by eapply set_cell_extends]; [done..|]. split_and!; done.
Qed.

(** The store policy of a secure type: a signed value needs a signature that verifies, and
    then the policy of the type decides; other values are left to it. *)
Lemma store_policy_spec inner id v nid a s c : heap_ok s -> sd_heap s !! v = Some c -> signable (c_val c) ->
  exists s', secure_storePolicy inner id v nid a s = Ret (s', if isSigned (c_val c) && negb (sig_ok (c_val c)) then (false, v) else inner id v nid a) /\
    heap_ok s' /\ extends s s'.
Proof.
  intros Hok Hv Hs. unfold secure_storePolicy. rewrite Hv. destruct (isSigned (c_val c)); [|by exists s].
  destruct (policy_check_spec v c s Hok Hv Hs) as (s' & -> & Hok' & He). exists s'. cbn [mbind outcome_bind andb]. by destruct (sig_ok (c_val c)).
Qed.

(** The reading of the edit policy. *)
Definition may_replace (o n : Cell) : bool :=
  same_owner o n && sig_ok (c_val n) &&
  ((v_seq (c_val o) <? v_seq (c_val n)) ||
   ((v_seq (c_val o) =? v_seq (c_val n)) && bool_decide (getToSign (c_val o) = getToSign (c_val n)))).

Lemma newer_spec o n : signable o -> signable n ->
  newer o n = Ret ((v_seq o <? v_seq n) || ((v_seq o =? v_seq n) && bool_decide (getToSign o = getToSign n))).
Proof.
  intros [a Ha] [b Hb]. unfold newer. rewrite Ha, Hb. cbn [mbind outcome_bind]. destruct (Z.eqb_spec (v_seq o) (v_seq n)) as [E|E].
  - rewrite E, Z.ltb_irrefl. cbn. f_equal. apply bool_decide_ext. split; [by intros ->|by intros [= ->]].
  - cbn. rewrite orb_false_r. f_equal. destruct (Z.ltb_spec (v_seq n) (v_seq o)), (Z.ltb_spec (v_seq o) (v_seq n)); try done; lia.
Qed.

(** The edit policy of a secure type, on a signed value: the new value must have the same
    owner object, a signature that verifies, and a larger sequence number, or the same one
    with the same data. *)
Lemma edit_policy_spec inner id o n nid a s oc nc : heap_ok s -> sd_heap s !! o = Some oc -> sd_heap s !! n = Some nc ->
  isSigned (c_val oc) = true -> signable (c_val oc) -> signable (c_val nc) ->
  exists s', secure_editPolicy inner id o n nid a s = Ret (s', (may_replace oc nc, n)) /\ heap_ok s' /\ extends s s'.
Proof.
  intros Hok Ho Hn Hsig So Sn. unfold secure_editPolicy, may_replace. rewrite Ho, Hn, Hsig. cbn [negb].
  destruct (same_owner oc nc) eqn:Eo; [|by exists s]. cbn [negb andb].
  assert (Hk : v_owner (c_val oc) = v_owner (c_val nc)).
  { unfold same_owner in Eo. destruct (v_owner (c_val oc)) as [k|] eqn:E1, (v_owner (c_val nc)) as [k'|] eqn:E2; try done.
    apply bool_decide_eq_true in Eo. f_equal. eapply (proj2 Hok o n oc nc); done. }
  rewrite Hk. destruct (policy_check_spec n nc s Hok Hn Sn) as (s' & -> & Hok' & He). cbn [mbind outcome_bind].
  destruct (sig_ok (c_val nc)); cbn [negb andb]; [|by exists s']. rewrite (newer_spec _ _ So Sn). cbn [mbind outcome_bind]. by exists s'.
Qed.

(** The values of a node whose types are secure, and the policy its [Dht] calls. *)
Definition cell_value (s : Secure) (p : vptr) : Value := match sd_heap s !! p with Some c => c_val c | None => Value_make 0 end.

Definition registered_editPolicy (inner : Z -> Hash -> vptr -> vptr -> Hash -> SockAddr -> bool * vptr) (s : Secure)
    (t : Z) (id : Hash) (o n : vptr) (nid : Hash) (a : SockAddr) : bool * vptr :=
  match secure_editPolicy (inner t) id o n nid a s with Ret (_, r) => r | _ => (false, n) end.

(** C20. A signed value can not be edited over the network, not even by its owner: an
    announce brings a value that was just unpacked, whose owner is a new object, and the
    edit policy compares the addresses of the owners instead of the keys.  So an announce
    of a different value under the identifier of a stored signed one leaves the store as
    it is, also when it is signed by the same key with a larger sequence number. *)
Theorem signed_value_frozen AF_INET6 `{PA : Partition} types storePolicy inner fuel hash node created s lv oc v q s' st :
  heap_ok s -> sd_heap s !! lv = Some oc -> isSigned (c_val oc) = true -> sd_alloc v s = (q, s') ->
  getLocalById (cell_value s') hash (v_id v) st = Some lv -> value_eq (c_val oc) v = false ->
  announce_value AF_INET6 (cell_value s') types storePolicy (registered_editPolicy inner s') fuel hash node created q st = Some (Ret st).
Proof.
  intros Hok Hlv Hsig Ha Hloc Hne. pose proof (alloc_spec v s Hok) as Hs. rewrite Ha in Hs. destruct Hs as (_ & _ & _ & Hq & Hold).
  assert (Hvq : cell_value s' q = v) by (unfold cell_value; by rewrite Hq). pose proof (Hold lv oc Hlv) as Hlv'.
  assert (Hvl : cell_value s' lv = c_val oc) by (unfold cell_value; by rewrite Hlv').
  unfold announce_value, id_of. rewrite Hvq, Hloc, Hvl, Hne. unfold registered_editPolicy, secure_editPolicy. rewrite Hlv', Hq, Hsig. cbn [negb].
  assert (same_owner oc (Cell_make v (sd_next s)) = false) as ->; [|done].
  unfold same_owner. cbn. unfold isSigned in Hsig. destruct (v_owner (c_val oc)); [|done]. destruct (v_owner v); [|done].
  apply bool_decide_eq_false. destruct (proj1 Hok lv oc Hlv). lia.
Qed.
End Policies.

(** ** Keys are those of the nodes they are looked up for *)

Section KeyBinding.
Context {C : Ciphers} {G : Gnutls} {R : Rsa G} {X : X509 G} `{!X509Laws X}.

(** Identifiers of keys are hashes of twenty bytes. *)
Class KeyIds : Prop := { key_id_wf g : wf_hash HASH_LEN (gnutls_key_id g); crt_id_wf c : wf_hash HASH_LEN (crt_get_key_id c) }.
Context `{!KeyIds}.

Abbreviation hmap_wf := (om_wf op_lt (wf_hash HASH_LEN)).

(** Every public key and every certificate is filed under the identifier of its key. *)
Definition keys_ok (s : Secure) : Prop :=
  hmap_wf (sd_pubkeys s) /\ Forall (fun e => exists g, e.2 = Some g /\ gnutls_key_id g = e.1) (sd_pubkeys s) /\
  hmap_wf (sd_certs s) /\ Forall (fun e => crt_ok e.2 = true -> crt_getId e.2 = e.1) (sd_certs s) /\
  (forall c k, sd_cert s = Some c -> sd_key s = Some k -> crt_getId c = gnutls_key_id (skey_public k)).

Lemma om_set_Forall {V} (P : Hash * V -> Prop) k v (m : list (Hash * V)) :
  wf_hash HASH_LEN k -> hmap_wf m -> P (k, v) -> Forall P m -> Forall P (om_set op_lt k v m).
Proof.
  intros Hk Hw Hp. induction 1 as [|[k' v'] m Hk' Hm IH]; cbn; [by constructor|].
  rewrite (om_wf_cons op_lt (wf_hash HASH_LEN)) in Hw. destruct Hw as (Hwk & Hw & _).
  destruct (op_lt k k') eqn:E1; [by repeat constructor|]. destruct (op_lt k' k) eqn:E2; [by constructor; [|apply IH]|].
  assert (k' = k) as -> by (by apply (klt_total (ltb := op_lt) (kvalid := wf_hash HASH_LEN))). by constructor.
Qed.

Lemma om_find_P {V} (P : Hash -> V -> Prop) k v (m : list (Hash * V)) : wf_hash HASH_LEN k -> hmap_wf m ->
  Forall (fun e => P e.1 e.2) m -> om_find op_lt k m = Some v -> P k v.
Proof.
  intros Hk Hm HP Hf. apply (om_find_Some_elem op_lt (wf_hash HASH_LEN)) in Hf; [|done..].
  rewrite Forall_forall in HP. exact (HP _ Hf).
Qed.

Lemma hash_eq a b : wf_hash HASH_LEN a -> wf_hash HASH_LEN b -> op_eq HASH_LEN a b = true -> a = b.
Proof. intros Ha Hb. by apply op_eq_true_iff. Qed.

(** A node starts with its caches in order. *)
Lemma SecureDht_make_ok id cache s put : SecureDht_make id cache = Ret (s, put) -> heap_ok s /\ keys_ok s.
Proof.
  unfold SecureDht_make. set (s0 := mkSD id.1 id.2 [] [] false cache ∅ 1). intros Hmk. assert (Hs : s = s0).
  { destruct id.2 as [c|]; [case_match; [done|]|]; by injection Hmk as <- _. }
  split; [subst s; split; intros p; intros; cbn in *; by rewrite lookup_empty in *|].
  subst s. split_and!; [apply om_wf_nil|constructor|apply om_wf_nil|constructor|]. cbn. intros c k Hc Hk. rewrite Hc, Hk in Hmk.
  unfold op_ne in Hmk. cbn [pk_getId] in Hmk. destruct (op_eq _ _ _) eqn:E; [|done]. apply hash_eq in E; [done| |apply key_id_wf].
  destruct c as [|x c]; [by_compute|apply crt_id_wf].
Qed.

Lemma set_pubkey_keys g s : keys_ok s -> keys_ok (sd_set_pubkey (Some g) s).
Proof.
  intros (H1 & H2 & H3). split_and!; [..|apply H3|apply H3|apply H3]; cbn.
  - apply om_set_wf; [apply _|apply key_id_wf|done].
  - apply om_set_Forall; [apply key_id_wf|done|by exists g|done].
Qed.

Lemma set_cert_keys h c s : keys_ok s -> wf_hash HASH_LEN h -> (crt_ok c = true -> crt_getId c = h) ->
  keys_ok (sd_set_certs (om_set op_lt h c (sd_certs s)) s).
Proof.
  intros (H1 & H2 & H3 & H4 & H5) Hh Hc. split_and!; try done; cbn; [by apply om_set_wf; [apply _|..]|by apply om_set_Forall].
Qed.

Lemma crt_key c k : crt_getPublicKey c = Ret k -> exists g, k = Some g /\ crt_getId c = gnutls_key_id g.
Proof.
  unfold crt_getPublicKey, crt_getId. destruct c as [|x c]; [done|]. destruct (pubkey_import_x509 x) as [g|] eqn:E; [|done].
  intros [= <-]. exists g. split; [done|]. by apply crt_key_id.
Qed.

Lemma registerCertificate_keys node data s s' r : keys_ok s -> wf_hash HASH_LEN node ->
  registerCertificate node data s = Ret (s', r) ->
  keys_ok s' /\ sd_key s' = sd_key s /\ forall c, r = Some c -> crt_getId c = node.
Proof.
  intros Hok Hn. unfold registerCertificate. destruct (Certificate_of_blob data) as [c| | |]; try done; [|by intros [= <- <-]].
  destruct (crt_getPublicKey c) as [k| | |] eqn:Ek; try done. cbn [mbind outcome_bind]. destruct (crt_key c k Ek) as (g & -> & Hid).
  destruct (op_eq _ node _) eqn:Eq; [|by intros [= <- <-]]. apply hash_eq in Eq; [|done|apply key_id_wf]. cbn [pk_getId] in *.
  intros [= <- <-]. split; [apply set_cert_keys; [done|apply key_id_wf|done]|]. split; [done|]. intros c' [= <-]. congruence.
Qed.

Lemma cert_on_values_keys node datas : forall s s' r, keys_ok s -> wf_hash HASH_LEN node -> cert_on_values node datas s = Ret (s', r) ->
  keys_ok s' /\ sd_key s' = sd_key s /\ forall c, r = Some c -> crt_getId c = node.
Proof.
  induction datas as [|d datas IH]; intros s s' r Hok Hn; cbn [cert_on_values]; [by intros [= <- <-]|].
  destruct (registerCertificate node d s) as [[s1 r1]| | |] eqn:E; try done. cbn [mbind outcome_bind].
  destruct (registerCertificate_keys node d s s1 r1 Hok Hn E) as (Hok1 & Hk1 & H1). destruct r1 as [c1|]; [by intros [= <- <-]|].
  intros Hrest. destruct (IH s1 s' r Hok1 Hn Hrest) as (? & Hk & ?). split_and!; [done|congruence|done].
Qed.

Lemma cert_search_keys node batches : forall s s' r, keys_ok s -> wf_hash HASH_LEN node -> cert_search node batches s = Ret (s', r) ->
  keys_ok s' /\ sd_key s' = sd_key s /\ forall c, r = Some c -> crt_getId c = node.
Proof.
  induction batches as [|b batches IH]; intros s s' r Hok Hn; cbn [cert_search]; [by intros [= <- <-]|].
  destruct (cert_on_values node b s) as [[s1 r1]| | |] eqn:E; try done. cbn [mbind outcome_bind].
  destruct (cert_on_values_keys node b s s1 r1 Hok Hn E) as (Hok1 & Hk1 & H1). destruct r1 as [c1|]; [by intros [= <- <-]|].
  intros Hrest. destruct (IH s1 s' r Hok1 Hn Hrest) as (? & Hk & ?). split_and!; [done|congruence|done].
Qed.

(** The documentation of the local store: it is asked for the certificates of a key. *)
Definition store_contract (localQuery : option (Hash -> list Certificate)) : Prop :=
  forall q h c l, localQuery = Some q -> q h = c :: l -> crt_ok c = true -> crt_getId c = h.

Lemma getCertificate_keys node s c : keys_ok s -> wf_hash HASH_LEN node -> is_Some (sd_key s) ->
  getCertificate node s = Some c -> crt_ok c = true -> crt_getId c = node.
Proof.
  intros (H1 & H2 & H3 & H4 & H5) Hn [k Hk]. unfold getCertificate, sd_getId. rewrite Hk. destruct (op_eq _ node _) eqn:E.
  - apply hash_eq in E; [|done|apply key_id_wf]. intros Hc _. rewrite (H5 c k Hc Hk). by rewrite E.
  - intros Hf Hc. exact (om_find_P (fun h c => crt_ok c = true -> crt_getId c = h) node c (sd_certs s) Hn H3 H4 Hf Hc).
Qed.

Lemma findCertificate_keys lq answers node s s' r : keys_ok s -> wf_hash HASH_LEN node -> is_Some (sd_key s) -> store_contract lq ->
  findCertificate lq answers node s = Ret (s', r) ->
  keys_ok s' /\ sd_key s' = sd_key s /\ forall c, r = Some c -> crt_ok c = true -> crt_getId c = node.
Proof.
  intros Hok Hn Hk Hlq. unfold findCertificate. set (ask := match lq with Some _ => _ | None => _ end).
  assert (Hask : ask = Ret (s', r) -> keys_ok s' /\ sd_key s' = sd_key s /\ forall c, r = Some c -> crt_ok c = true -> crt_getId c = node).
  { unfold ask. assert (Hnet : cert_search node answers s = Ret (s', r) ->
      keys_ok s' /\ sd_key s' = sd_key s /\ forall c, r = Some c -> crt_ok c = true -> crt_getId c = node).
    { intros Hc. destruct (cert_search_keys node answers s s' r Hok Hn Hc) as (? & ? & Hr). split_and!; [done..|]. intros c Hcc _. by apply Hr. }
    destruct lq as [q|] eqn:Eq; [|by apply Hnet]. destruct (q node) as [|c l] eqn:El; [by apply Hnet|]. intros [= <- <-].
    assert (Hc : crt_ok c = true -> crt_getId c = node) by (by apply (Hlq q node c l)).
    split_and!; [|done|by intros c' [= <-]]. unfold om_emplace. case_match; [by destruct s|]. by apply set_cert_keys. }
  destruct (getCertificate node s) as [b|] eqn:Eb; [|done]. destruct (crt_ok b) eqn:Eo; [|done]. intros [= <- <-]. split_and!; [done..|].
  intros c [= <-] _. by eapply getCertificate_keys.
Qed.

Definition bound (node : Hash) (r : option PublicKey) : Prop := forall k, r = Some k -> exists g, k = Some g /\ gnutls_key_id g = node.

Lemma getPublicKey_bound node s pk : keys_ok s -> wf_hash HASH_LEN node -> is_Some (sd_key s) -> getPublicKey node s = Ret pk -> bound node pk.
Proof.
  intros (H1 & H2 & _ & _ & H5) Hn [key Hkey]. unfold getPublicKey. destruct (op_eq _ node _) eqn:Eq.
  - destruct (sd_cert s) as [c|] eqn:Ec; [|done]. destruct (crt_getPublicKey c) as [k| | |] eqn:Ek; try done. intros [= <-] k' [= <-].
    destruct (crt_key c k Ek) as (g & -> & Hid). exists g. split; [done|]. rewrite <- Hid, (H5 c key eq_refl Hkey).
    unfold sd_getId in Eq. rewrite Hkey in Eq. apply hash_eq in Eq; [done|done|apply key_id_wf].
  - intros [= <-] k Hk. exact (om_find_P (fun h k => exists g, k = Some g /\ gnutls_key_id g = h) node k (sd_pubkeys s) Hn H1 H2 Hk).
Qed.

Lemma on_certificate_bound node s crt s' r : keys_ok s -> (forall c, crt = Some c -> crt_ok c = true -> crt_getId c = node) ->
  on_certificate s crt = Ret (s', r) -> keys_ok s' /\ bound node r.
Proof.
  intros Hok Hc. unfold on_certificate. destruct crt as [c|]; [|by intros [= <- <-]]. destruct (crt_ok c) eqn:Eo; [|by intros [= <- <-]].
  destruct (crt_getPublicKey c) as [k| | |] eqn:Ek; try done. cbn [mbind outcome_bind]. destruct (crt_key c k Ek) as (g & -> & Hid).
  cbn [pk_ok]. intros [= <- <-]. split; [by apply set_pubkey_keys|]. intros k [= <-]. exists g. split; [done|]. rewrite <- Hid. by apply Hc.
Qed.

Lemma findPublicKey_bound lq answers node s s' r : keys_ok s -> wf_hash HASH_LEN node -> is_Some (sd_key s) -> store_contract lq ->
  findPublicKey lq answers node s = Ret (s', r) -> keys_ok s' /\ bound node r.
Proof.
  intros Hok Hn Hk Hlq. unfold findPublicKey. destruct (getPublicKey node s) as [pk| | |] eqn:Ep; try done. cbn [mbind outcome_bind].
  pose proof (getPublicKey_bound node s pk Hok Hn Hk Ep) as Hb.
  assert (('(s1, crt) ← findCertificate lq answers node s; on_certificate s1 crt) = Ret (s', r) -> keys_ok s' /\ bound node r) as Hcrt.
  { destruct (findCertificate lq answers node s) as [[s1 crt]| | |] eqn:Ef; try done. cbn [mbind outcome_bind].
    destruct (findCertificate_keys _ _ _ _ _ _ Hok Hn Hk Hlq Ef) as (Hok1 & _ & Hc). by apply on_certificate_bound. }
  destruct pk as [[g|]|]; [|exact Hcrt..]. intros [= <- <-]. done.
Qed.

Lemma v_encrypt_parts rnd aes_rnd iv key g val nv : v_encrypt rnd aes_rnd iv key (Some g) val = Ret nv ->
  exists v' d, v_sign key (set_recipient (gnutls_key_id g) val) = Ret v' /\ msgpack_pack_to_encrypt v' = Ret d /\
    pk_encrypt rnd aes_rnd iv (Some g) d = Ret (v_cypher nv) /\ nv = set_cypher (v_cypher nv) (Value_make (v_id val)).
Proof.
  unfold v_encrypt. destruct (isEncrypted val); [done|]. cbn [pk_getId].
  destruct (v_sign key (set_recipient _ val)) as [v'| | |] eqn:Es; try done. cbn [mbind outcome_bind].
  destruct (msgpack_pack_to_encrypt v') as [d| | |] eqn:Ed; try done. cbn [mbind outcome_bind].
  destruct (pk_encrypt _ _ _ _ _) as [c| | |] eqn:Ec; try done. intros [= <-]. exists v', d. split_and!; try done.
  cbn. f_equal. f_equal. unfold v_sign in Es. destruct (isEncrypted _); [done|]. destruct (getToSign _); try done. cbn [mbind outcome_bind] in Es.
  destruct (gnutls_sign _ _); [|done]. by injection Es as <-.
Qed.

(** C18. Nobody can substitute a key: whatever values the network answers with, the key
    found for a node is one whose identifier is that node, the caches of keys and
    certificates keep every entry under the identifier of its key, and what is put
    encrypted for a node is the signed value, addressed to it, under such a key. *)
Theorem key_binding lq answers node s s' : keys_ok s -> wf_hash HASH_LEN node -> is_Some (sd_key s) -> store_contract lq ->
  (forall r, findPublicKey lq answers node s = Ret (s', r) -> keys_ok s' /\ bound node r) /\
  (forall rnd aes_rnd iv val nv, putEncrypted rnd aes_rnd iv lq answers node val s = Ret (s', Some nv) ->
     keys_ok s' /\ exists key g v' d, sd_key s = Some key /\ gnutls_key_id g = node /\ v_sign key (set_recipient node val) = Ret v' /\
       msgpack_pack_to_encrypt v' = Ret d /\ pk_encrypt rnd aes_rnd iv (Some g) d = Ret (v_cypher nv) /\
       nv = set_cypher (v_cypher nv) (Value_make (v_id val))).
Proof.
  intros Hok Hn Hk Hlq. split; [by intros r; apply findPublicKey_bound|]. intros rnd aes_rnd iv val nv. unfold putEncrypted.
  destruct (sd_key s) as [key|] eqn:Hkey; [|done]. destruct (findPublicKey lq answers node s) as [[s1 pk]| | |] eqn:Ef; try done. cbn [mbind outcome_bind].
  destruct pk as [[g|]|]; try done. destruct (v_encrypt rnd aes_rnd iv key (Some g) val) as [v| | |] eqn:Ev; try done. intros [= -> ->].
  rewrite <- Hkey in Hk. destruct (findPublicKey_bound _ _ _ _ _ _ Hok Hn Hk Hlq Ef) as [Hok' Hb]. destruct (Hb (Some g) eq_refl) as (g' & [= <-] & Hid).
  split; [done|]. destruct (v_encrypt_parts _ _ _ _ _ _ _ Ev) as (v' & d & H1 & H2 & H3 & H4). rewrite Hid in H1. by exists key, g, v', d.
Qed.
End KeyBinding.

(** ** From the sender to the addressee *)

Section Delivery.
Context {C : Ciphers} `{!CiphersLaws C} {G : Gnutls} `{!GnutlsLaws G} {R : Rsa G} `{!RsaLaws R} {X : X509 G}.

(** The value that is sent, and what the addressee's key makes of it. *)
Lemma encrypted_verdict rnd aes_rnd iv from s n v v' :
  gnutls_pubkey_get_pk_algorithm (skey_public s) = (GNUTLS_PK_RSA, n) -> 27 <= n / 8 < 2 ^ 32 ->
  len iv = GCM_IV_SIZE -> (forall k, 0 <= k -> len (aes_rnd k) = k) ->
  wf_value v -> isEncrypted v = false -> wf_hash HASH_LEN (gnutls_key_id (skey_public s)) -> is_Some (gnutls_export (skey_public from)) ->
  v_sign from (set_recipient (gnutls_key_id (skey_public s)) v) = Ret v' ->
  exists nv, v_encrypt rnd aes_rnd iv from (Some (skey_public s)) v = Ret nv /\
    nv = set_cypher (v_cypher nv) (Value_make (v_id v)) /\ transmitted nv = Ret nv /\
    (isEncrypted nv = true /\ forall forward, verdict forward (Some s) nv = Ret (Some (set_priority 0 v'))) /\
    v_owner v' = Some (Some (skey_public from)) /\ v_recipient v' = gnutls_key_id (skey_public s) /\ v_id v' = v_id v /\
    v_data v' = v_data v /\ v_type v' = v_type v /\ v_user_type v' = v_user_type v /\ v_seq v' = v_seq v.
Proof.
  intros Ha Hn Hiv Hr Hv He Hid [eb Hx] Hs. destruct (sign_result _ _ _ Hs) as (dat & sg & Hsig & Hd & _ & Hv'). cbn in Hv'.
  destruct (sign_size _ _ _ Hsig) as (Hne & Hsz). assert (Hc : v_cypher v = []) by (unfold isEncrypted in He; by destruct (v_cypher v)).
  assert (Hnb : empty_blob sg = false) by (by destruct sg). rewrite Hc in Hv'.
  assert (Hw : wf_value v') by (subst v'; unfold wf_value in *; simpl; rewrite Hc in *; tauto).
  assert (Ho : exported v' (Some eb)) by (subst v'; exists eb; done).
  assert (He' : isEncrypted v' = false) by (by subst v'). assert (Hsd : isSigned v' = true) by (subst v'; unfold isSigned; cbn; by rewrite Hnb).
  pose proof (to_encrypt_bytes v' _ Hw Ho) as Hb.
  destruct (encrypt_decrypt rnd aes_rnd iv s n (pack (body_obj (Some eb) v')) Ha Hn Hiv Hr) as (c & Hec & Hdc & Hlc).
  assert (Hcne : empty_blob c = false).
  { destruct c; [|done]. exfalso. unfold len at 1 in Hlc. cbn [length] in Hlc. assert (0 <= len (pack (body_obj (Some eb) v'))) by (unfold len; lia).
    unfold GCM_IV_SIZE, GCM_DIGEST_SIZE in Hlc. case_match; lia. }
  assert (Hvid : v_id v' = v_id v) by (by subst v').
  exists (set_cypher c (Value_make (v_id v'))). split; [|split; [by rewrite Hvid|split]].
  - unfold v_encrypt. rewrite He. cbn [pk_getId]. rewrite Hs. cbn [mbind outcome_bind]. rewrite Hb. cbn [mbind outcome_bind]. by rewrite Hec.
  - unfold transmitted, isEncrypted. cbn. by rewrite Hcne.
  - split; [|by subst v']. split; [unfold isEncrypted; cbn; by rewrite Hcne|]. intros forward.
    unfold verdict, isEncrypted. cbn [v_cypher set_cypher]. rewrite Hcne. cbn [negb].
    assert (Hdec : sd_decrypt s (set_cypher c (Value_make (v_id v'))) = Ret (set_priority 0 v')); [|by rewrite Hdec].
    unfold sd_decrypt, isEncrypted. cbn [v_cypher set_cypher v_id Value_make]. rewrite Hcne, Hdc. cbn [negb mbind outcome_bind].
    rewrite <- (app_nil_r (pack _)), unpack_packed; [|apply body_obj_wf; [done| |lia]|constructor].
    2:{ intros b [= <-]. destruct (export_size _ _ Hx). split; [lia|done]. }
    cbn [mbind outcome_bind fst]. unfold body_obj. rewrite He', (unpack_sign_obj (Value_make (v_id v')) v' (Some eb)) by done.
    rewrite Hsd. unfold has_owner. assert (Hown : v_owner v' = Some (Some (skey_public from))) by (by subst v'). rewrite Hown. cbn [mbind outcome_bind].
    set (r := mkValue _ _ _ _ _ _ _ _ _ _). assert (Hr' : r = set_priority 0 v').
    { unfold r, set_priority. subst v'. reflexivity. }
    rewrite Hr'. assert (Hrec : v_recipient (set_priority 0 v') = gnutls_key_id (skey_public s)) by (by subst v').
    rewrite Hrec. unfold op_ne. cbn [key_id pk_getId]. rewrite (proj2 (op_eq_true_iff HASH_LEN _ _ ltac:(reflexivity) Hid Hid) eq_refl). cbn [negb].
    assert (Hts : getToSign (set_priority 0 v') = Ret dat) by (rewrite <- Hd; by subst v'). rewrite Hts.
    assert (Hown2 : v_owner (set_priority 0 v') = Some (Some (skey_public from))) by (by subst v'). rewrite Hown2. cbn [mbind outcome_bind].
    assert (Hsg : v_signature (set_priority 0 v') = sg) by (by subst v'). rewrite Hsg. cbn [pk_checkSignature]. by rewrite (sign_verify _ _ _ Hsig).
Qed.

(** C10. A value encrypted for a node reaches it: signing and encrypting a value for
    an RSA key of at least 216 bits succeeds whatever the size of the value, gives a
    value that carries nothing but the identifier and the cypher text and passes the
    network as it is; and [checkValue] of a node that has the private key, on a shared
    value with that content, gives a pointer to the signed value, with its data, type,
    sequence number and owner, addressed to it, whatever the node remembers of earlier
    checks. *)
Theorem encrypted_delivery rnd aes_rnd iv from s n v v' :
  gnutls_pubkey_get_pk_algorithm (skey_public s) = (GNUTLS_PK_RSA, n) -> 27 <= n / 8 < 2 ^ 32 ->
  len iv = GCM_IV_SIZE -> (forall k, 0 <= k -> len (aes_rnd k) = k) ->
  wf_value v -> isEncrypted v = false -> wf_hash HASH_LEN (gnutls_key_id (skey_public s)) -> is_Some (gnutls_export (skey_public from)) ->
  v_sign from (set_recipient (gnutls_key_id (skey_public s)) v) = Ret v' ->
  exists nv, v_encrypt rnd aes_rnd iv from (Some (skey_public s)) v = Ret nv /\
    nv = set_cypher (v_cypher nv) (Value_make (v_id v)) /\ transmitted nv = Ret nv /\
    (forall proxy me p c, heap_ok me -> sd_key me = Some s -> sd_heap me !! p = Some c -> c_val c = nv ->
       exists me' q c', checkValue proxy p me = Ret (me', Some q) /\ heap_ok me' /\
         sd_heap me' !! q = Some c' /\ c_val c' = set_priority 0 v') /\
    v_owner v' = Some (Some (skey_public from)) /\ v_recipient v' = gnutls_key_id (skey_public s) /\ v_id v' = v_id v /\
    v_data v' = v_data v /\ v_type v' = v_type v /\ v_user_type v' = v_user_type v /\ v_seq v' = v_seq v.
Proof.
  intros Ha Hn Hiv Hr Hv He Hid Hx Hs.
  destruct (encrypted_verdict rnd aes_rnd iv from s n v v' Ha Hn Hiv Hr Hv He Hid Hx Hs) as (nv & H1 & H2 & H3 & (Hen & H4) & H5).
  exists nv. split_and!; try apply H5; try done. intros proxy me p c Hok Hk Hp <-.
  destruct (checkValue_spec proxy p c me (Some (set_priority 0 v')) Hok Hp) as (me' & q & Hc & Hok' & _ & Hden).
  - unfold checkable. rewrite Hen. discriminate.
  - by rewrite Hk.
  - destruct q as [q|]; [|done]. destruct Hden as (c' & Hq & Hv'). by exists me', q, c'.
Qed.
End Delivery.

(** ** Sequence numbers *)

Section Sequence.
Context {C : Ciphers} {G : Gnutls} {R : Rsa G} {X : X509 G}.

Lemma on_get_seq me vals : forall val, Forall (fun v => owned_by me v = true -> 0 <= v_seq v < 2 ^ 16 - 1) vals -> 0 <= v_seq val ->
  v_seq val <= v_seq (putSigned_on_get me vals val) /\
  Forall (fun v => owned_by me v = true -> v_seq v < v_seq (putSigned_on_get me vals val)) vals.
Proof.
  induction vals as [|v vals IH]; intros val Hv H0; [split; [cbn; lia|constructor]|].
  apply Forall_cons in Hv as [Hv Hvs]. unfold putSigned_on_get in *. cbn [fold_left]. set (val1 := if _ && _ then _ else val).
  assert (v_seq val <= v_seq val1 /\ (owned_by me v = true -> v_seq v < v_seq val1)) as [H1 H2].
  { unfold val1. destruct (owned_by me v); cbn [andb]; [|by split; [lia|]]. specialize (Hv eq_refl).
    destruct (Z.leb_spec (v_seq val) (v_seq v)); [|split; [lia|lia]]. cbn [set_seq v_seq]. rewrite wrap_small by lia. lia. }
  destruct (IH val1 Hvs ltac:(lia)) as [H3 H4]. split; [lia|]. constructor; [|done]. intros Ho. specialize (H2 Ho). lia.
Qed.

(** The sequence numbers of our own values that the search found. *)
Definition below_max (me : Hash) (vals : list Value) : Prop := Forall (fun v => owned_by me v = true -> 0 <= v_seq v < 2 ^ 16 - 1) vals.
Definition overtakes (me : Hash) (n : Z) (vals : list Value) : Prop := Forall (fun v => owned_by me v = true -> v_seq v < n) vals.

Lemma on_gets_seq me batches : forall val, Forall (below_max me) batches -> 0 <= v_seq val ->
  let val' := fold_left (fun val vals => putSigned_on_get me vals val) batches val in
  v_seq val <= v_seq val' /\ Forall (overtakes me (v_seq val')) batches.
Proof.
  induction batches as [|b batches IH]; intros val Hb H0; [split; [cbn; lia|constructor]|].
  apply Forall_cons in Hb as [Hb Hbs]. cbn [fold_left]. destruct (on_get_seq me b val Hb H0) as [H1 H2].
  destruct (IH (putSigned_on_get me b val) Hbs ltac:(lia)) as [H3 H4]. split; [lia|]. constructor; [|done].
  eapply Forall_impl; [exact H2|]. intros v Hv Ho. specialize (Hv Ho). lia.
Qed.

(** C21. A signed put overtakes what it replaces: the sequence number that is signed is
    larger than that of the value already announced under the identifier and than that of
    every value of ours the search found, unless one of them has the largest number of 16
    bits; the number then wraps to 0, and the edit policy refuses the value as older. *)
Theorem putSigned_overtakes rand_id getPut batches val s v : 0 <= v_seq val -> putSigned rand_id getPut batches val s = Ret (Some v) ->
  let id := if v_id val =? 0 then rand_id else v_id val in
  (Forall (below_max (sd_getId s)) batches -> (forall p, getPut id = Some p -> 0 <= v_seq p < 2 ^ 16 - 1) ->
     v_id v = id /\ v_seq val <= v_seq v /\ Forall (overtakes (sd_getId s) (v_seq v)) batches /\
     forall p, getPut id = Some p -> v_seq p < v_seq v) /\
  (forall p, getPut id = Some p -> v_seq p = 2 ^ 16 - 1 -> v_seq val <= 2 ^ 16 - 1 -> batches = [] ->
     v_seq v = 0 /\ newer p v = Ret false).
Proof.
  intros H0 Hput. set (id := if v_id val =? 0 then rand_id else v_id val). cbn zeta. revert Hput.
  unfold putSigned. destruct (sd_key s) as [key|]; [|done]. set (val1 := putSigned_start rand_id getPut val).
  set (val' := fold_left _ batches val1). destruct (v_sign key val') as [x| | |] eqn:Es; try done. cbn [mbind outcome_bind]. intros [= ->].
  destruct (sign_result _ _ _ Es) as (d & sg & _ & _ & _ & ->). cbn [v_id v_seq].
  assert (Hset : forall me b w, v_id (putSigned_on_get me b w) = v_id w).
  { intros me b. unfold putSigned_on_get. induction b as [|y b IH]; intros w; [done|]. cbn [fold_left]. rewrite IH. by case_match. }
  assert (Hid' : v_id val' = v_id val1).
  { unfold val'. clear Es val'. generalize val1. induction batches as [|b bs IH]; intros w; [done|]. cbn [fold_left]. by rewrite IH, Hset. }
  assert (Hstart : val1 = match getPut id with
    | Some p => if v_seq val <=? v_seq p then set_seq (wrap 16 (v_seq p + 1)) (set_id id val) else set_id id val | None => set_id id val end).
  { unfold val1, putSigned_start, id. destruct (v_id val =? 0); cbn [v_id v_seq set_id]; [done|]. by destruct val. }
  assert (Hid1 : v_id val1 = id) by (rewrite Hstart; repeat case_match; done).
  split.
  - intros Hb Hp. assert (v_seq val <= v_seq val1 /\ forall p, getPut id = Some p -> v_seq p < v_seq val1) as [H1 H2].
    { rewrite Hstart. destruct (getPut id) as [p|]; [|by split; [cbn; lia|]]. specialize (Hp p eq_refl).
      destruct (Z.leb_spec (v_seq val) (v_seq p)); cbn [set_seq set_id v_seq]; rewrite ?wrap_small by lia; (split; [lia|]); intros p' [= <-]; lia. }
    destruct (on_gets_seq (sd_getId s) batches val1 Hb ltac:(lia)) as [H3 H4]. fold val' in H3, H4. split_and!; [congruence|lia|done|].
    intros p Hpp. specialize (H2 p Hpp). lia.
  - intros p Hp Hmax Hle ->. cbn [fold_left] in val'. assert (Hv0 : v_seq val' = 0).
    { unfold val'. rewrite Hstart, Hp, Hmax. rewrite (proj2 (Z.leb_le _ _)) by lia. reflexivity. }
    split; [done|]. unfold newer. cbn [v_seq]. rewrite Hv0, Hmax. reflexivity.
Qed.
End Sequence.

Module SecureDemo.
#[local] Existing Instance CryptoDemo.parties.
#[local] Existing Instance CryptoDemo.ciphers.
#[local] Existing Instance CryptoDemo.rsa.
#[local] Existing Instance CryptoDemo.x509.

#[global] Instance ids : KeyIds (G := CryptoDemo.parties) (X := CryptoDemo.x509).
Proof. split; intros []; by_compute. Qed.

(** Alice is [false], Bob is [true]. *)
Definition note : Value := mkValue 42 None (Hash_zero HASH_LEN) 3 (replicate 40 9) (str "text/plain") 5 [] [] 1.
Lemma secret_note_wf : wf_value note.
Proof. unfold wf_value. simpl. split_and!; by_compute. Qed.

Definition rnd_key (n : Z) : bytes := replicate (Z.to_nat n) 4.
Definition iv : bytes := replicate 12 2.

Lemma rnd_key_len k : 0 <= k -> len (rnd_key k) = k.
Proof. intros. unfold len, rnd_key. rewrite length_replicate. lia. Qed.

(** A value signed by Alice, as signing makes it, and one with a wrong signature. *)
Definition signed (seq : Z) : Value :=
  match v_sign (G := CryptoDemo.parties) false (set_seq seq note) with Ret v => v | _ => note end.
Definition forged : Value :=
  mkValue 43 (Some (Some false)) (Hash_zero HASH_LEN) 3 [1] [] 0 [255; 255] [] 0.
(** One encrypted by Alice for Bob. *)
Definition sealed : Value :=
  match v_encrypt [] rnd_key iv false (Some true) note with Ret v => v | _ => note end.

(** What Bob reads in it. *)
Definition opened : Value := match sd_decrypt true sealed with Ret v => v | _ => note end.

(** Bob, with no value yet, and with three. *)
Definition own : Certificate := [true].
Definition bob0 : Secure := mkSD (Some true) (Some own) [] [] false true ∅ 1.
Lemma bob0_ok : heap_ok bob0 /\ keys_ok bob0.
Proof. apply (SecureDht_make_ok (G := CryptoDemo.parties) (X := CryptoDemo.x509) (Some true, Some own) true _ (Some (replicate 20 8, certificate_value own))). reflexivity. Qed.

Definition bob1 := sd_alloc (signed 5) bob0.
Definition bob2 := sd_alloc forged bob1.2.
Definition bob3 := sd_alloc sealed bob2.2.

Lemma alloc_ok v s : heap_ok s -> heap_ok (sd_alloc v s).2.
Proof. intros H. pose proof (alloc_spec v s H) as Ha. destruct (sd_alloc v s). apply Ha. Qed.
Lemma bob3_ok : heap_ok bob3.2.
Proof. do 3 apply alloc_ok. apply bob0_ok. Qed.

(** The store of a node that holds the signed value. *)
Definition key : Hash := replicate 20 5.
Definition st : DhtStore :=
  put_storage key (mkStorage 0 [] [] 1 [mkVS bob1.1 0 100 None] 0) (DhtStore_make 0 16 1000 false).
Definition bob' := sd_alloc (signed 6) bob1.2.

(** Bob looks for the key of Alice; the network first offers other things. *)
Definition answers : list (list bytes) := [[[1; 2]; [67; 1]]; [[67; 0]]].
Definition alice : Hash := replicate 20 7.
Definition found : Secure := match findPublicKey None answers alice bob0 with Ret (s, _) => s | _ => bob0 end.

(** A put over a value that has the largest sequence number. *)
Definition announced (id : Z) : option Value := Some (signed (2 ^ 16 - 1)).
Definition wrapped : Value := match putSigned 9 announced [] note bob0 with Ret (Some v) => v | _ => note end.
End SecureDemo.

Lemma callback_authentic_witness : exists s' out,
  getCallbackFilter (C := CryptoDemo.ciphers) (R := CryptoDemo.rsa) false (Some (fun _ => true)) None
    [SecureDemo.bob1.1; SecureDemo.bob2.1; SecureDemo.bob3.1] SecureDemo.bob3.2 = Ret (s', Some out, true) /\ length out = 2%nat.
Proof.
  destruct (callback_authentic (C := CryptoDemo.ciphers) (R := CryptoDemo.rsa) (X := CryptoDemo.x509) false None (fun _ => true)
    [SecureDemo.bob1.1; SecureDemo.bob2.1; SecureDemo.bob3.1] [SecureDemo.signed 5; SecureDemo.forged; SecureDemo.sealed] SecureDemo.bob3.2)
    as (s' & out & ds & H & _ & _ & Hp & Hd & _).
  - exact SecureDemo.bob3_ok.
  - constructor; [|constructor; [|constructor; [|constructor]]].
    + exists (Cell_make (SecureDemo.signed 5) 1). split; [vm_refl|reflexivity].
    + exists (Cell_make SecureDemo.forged 2). split; [vm_refl|reflexivity].
    + exists (Cell_make SecureDemo.sealed 3). split; [vm_refl|reflexivity].
  - constructor; [|constructor; [|constructor; [|constructor]]].
    + split; [intros _ _; eexists; reflexivity|]. exists (Some (SecureDemo.signed 5)). vm_refl.
    + split; [intros _ _; eexists; reflexivity|]. exists None. vm_refl.
    + split; [discriminate|]. exists (Some SecureDemo.opened). vm_refl.
  - apply Forall2_length in Hp. assert (length ds = 2%nat) as Hl by (rewrite Hd; vm_refl). rewrite Hl in Hp.
    exists s', out. split; [|exact Hp]. rewrite H. destruct out; [discriminate Hp|reflexivity].
Defined.

Lemma signed_value_frozen_witness :
  isSigned (SecureDemo.signed 6) = true /\ sig_ok (SecureDemo.signed 6) = true /\
  announce_value (PA := StorageDemo.stable_partition) 10 (cell_value SecureDemo.bob'.2) [] (fun _ _ v _ _ => (true, v))
    (registered_editPolicy (fun _ _ _ n _ _ => (false, n)) SecureDemo.bob'.2) 5 SecureDemo.key (ServeDemo.node_of 1) 0 SecureDemo.bob'.1 SecureDemo.st
  = Some (Ret SecureDemo.st).
Proof.
  split; [vm_refl|]. split; [vm_refl|].
  apply (signed_value_frozen (C := CryptoDemo.ciphers) (R := CryptoDemo.rsa) (X := CryptoDemo.x509) (PA := StorageDemo.stable_partition) 10 [] (fun _ _ v _ _ => (true, v)) (fun _ _ _ n _ _ => (false, n)) 5 SecureDemo.key
    (ServeDemo.node_of 1) 0 SecureDemo.bob1.2 SecureDemo.bob1.1 (Cell_make (SecureDemo.signed 5) 1) (SecureDemo.signed 6)).
  - apply SecureDemo.alloc_ok, SecureDemo.bob0_ok.
  - vm_refl.
  - vm_refl.
  - reflexivity.
  - vm_refl.
  - vm_refl.
Defined.

Lemma key_binding_witness :
  findPublicKey (G := CryptoDemo.parties) (X := CryptoDemo.x509) None SecureDemo.answers SecureDemo.alice SecureDemo.bob0 = Ret (SecureDemo.found, Some (Some false)) /\
  keys_ok (X := CryptoDemo.x509) SecureDemo.found.
Proof.
  assert (findPublicKey (G := CryptoDemo.parties) (X := CryptoDemo.x509) None SecureDemo.answers SecureDemo.alice SecureDemo.bob0 =
    Ret (SecureDemo.found, Some (Some false))) as H by vm_refl.
  split; [exact H|]. exact (proj1 (proj1 (key_binding (C := CryptoDemo.ciphers) (R := CryptoDemo.rsa) (X := CryptoDemo.x509) None SecureDemo.answers SecureDemo.alice
    SecureDemo.bob0 SecureDemo.found (proj2 SecureDemo.bob0_ok) ltac:(by_compute) ltac:(by eexists) ltac:(done)) _ H)).
Defined.

(** Bob gets the sealed note in a new shared value, and opens it. *)
Lemma encrypted_delivery_witness : exists nv me' q c',
  v_encrypt (C := CryptoDemo.ciphers) (R := CryptoDemo.rsa) [] SecureDemo.rnd_key SecureDemo.iv false (Some true) SecureDemo.note = Ret nv /\
  checkValue (C := CryptoDemo.ciphers) (R := CryptoDemo.rsa) (X := CryptoDemo.x509) false SecureDemo.bob3.1 SecureDemo.bob3.2 = Ret (me', Some q) /\
  sd_heap me' !! q = Some c' /\ v_data (c_val c') = replicate 40 9.
Proof.
  destruct (encrypted_delivery (C := CryptoDemo.ciphers) (R := CryptoDemo.rsa) (X := CryptoDemo.x509) [] SecureDemo.rnd_key SecureDemo.iv false true 256 SecureDemo.note
    (match v_sign (G := CryptoDemo.parties) false (set_recipient (replicate 20 8) SecureDemo.note) with Ret v => v | _ => SecureDemo.note end))
    as (nv & H1 & _ & _ & H2 & _ & _ & _ & H3 & _).
  - reflexivity.
  - by_compute.
  - reflexivity.
  - exact SecureDemo.rnd_key_len.
  - exact SecureDemo.secret_note_wf.
  - reflexivity.
  - by_compute.
  - by eexists.
  - vm_refl.
  - destruct (H2 false SecureDemo.bob3.2 SecureDemo.bob3.1 (Cell_make SecureDemo.sealed 3) SecureDemo.bob3_ok eq_refl) as (me' & q & c' & H4 & _ & H5 & H6).
    + vm_refl.
    + exact (f_equal (fun o => match o with Ret v => v | _ => SecureDemo.note end) H1).
    + exists nv, me', q, c'. split; [exact H1|]. split; [exact H4|]. split; [exact H5|]. rewrite H6. exact H3.
Defined.

Lemma putSigned_overtakes_witness :
  putSigned (G := CryptoDemo.parties) (X := CryptoDemo.x509) 9 SecureDemo.announced [] SecureDemo.note SecureDemo.bob0 = Ret (Some SecureDemo.wrapped) /\
  v_seq SecureDemo.wrapped = 0.
Proof.
  assert (putSigned (G := CryptoDemo.parties) (X := CryptoDemo.x509) 9 SecureDemo.announced [] SecureDemo.note SecureDemo.bob0 = Ret (Some SecureDemo.wrapped)) as H
    by vm_refl.
  split; [exact H|]. refine (proj1 (proj2 (putSigned_overtakes (X := CryptoDemo.x509) 9 SecureDemo.announced []
    SecureDemo.note SecureDemo.bob0 SecureDemo.wrapped _ H) (SecureDemo.signed (2 ^ 16 - 1)) _ _ _ _)); [by_compute|reflexivity|vm_refl|by_compute|reflexivity].
Defined.
