(* ===== verification/Scheduler.v ===== *)
(** * Scheduler: timed jobs

    Models src/opendht-2.1.4/include/opendht/scheduler.h.  Jobs are shared through
    [std::shared_ptr], so the scheduler's state holds a store of jobs indexed by
    pointers; a pointer may be null ([None]).  A job's function is the identity of
    a closure, and what closures do is the parameter [exec]: they belong to the
    callers, and may use the scheduler again.  [run] pops the due jobs until none
    is left; it is a function with fuel and returns [None] when the fuel runs out. *)
From S2P Require Import Prelude StdMap Node.

Abbreviation job_ptr := positive (only parsing).
Abbreviation task := nat (only parsing).

(** The scheduler with its jobs; [s_trace] records the timers [run] has popped, with
    the function that was called, in order. *)
Record Scheduler := mkScheduler {
  s_now : Z;
  s_timers : list (Z * option job_ptr);
  s_jobs : gmap job_ptr (option task);
  s_next : job_ptr;
  s_trace : list (Z * option task);
}.

Definition s_set_timers (ts : list (Z * option job_ptr)) (s : Scheduler) : Scheduler :=
  mkScheduler (s_now s) ts (s_jobs s) (s_next s) (s_trace s).
Definition s_set_jobs (js : gmap job_ptr (option task)) (s : Scheduler) : Scheduler :=
  mkScheduler (s_now s) (s_timers s) js (s_next s) (s_trace s).

(** [std::make_shared<Job>]. *)
Definition make_job (f : option task) (s : Scheduler) : job_ptr * Scheduler :=
  (s_next s, mkScheduler (s_now s) (s_timers s) (<[s_next s := f]> (s_jobs s))
                         (Pos.succ (s_next s)) (s_trace s)).

(** [Job::cancel]. *)
Definition job_cancel (j : job_ptr) (s : Scheduler) : Scheduler :=
  s_set_jobs (<[j := None]> (s_jobs s)) s.

(** [add(job, t)]. *)
Definition add_job (j : option job_ptr) (t : Z) (s : Scheduler) : Scheduler :=
  if t =? time_max then s else s_set_timers (mm_insert Z.ltb t j (s_timers s)) s.

(** [add(t, job_func)]. *)
Definition add (t : Z) (f : option task) (s : Scheduler) : job_ptr * Scheduler :=
  let '(j, s1) := make_job f s in (j, add_job (Some j) t s1).

(** [edit]: the function moves to a new job, and the reference is updated. *)
Definition edit (j : option job_ptr) (t : Z) (s : Scheduler) : option job_ptr * Scheduler :=
  match j with
  | None => (None, s)
  | Some p =>
      let f := default None (s_jobs s !! p) in
      let '(p', s1) := add t f (job_cancel p s) in (Some p', s1)
  end.

(** [getNextJobTime]. *)
Definition getNextJobTime (s : Scheduler) : Z :=
  match s_timers s with [] => time_max | (t, _) :: _ => t end.

(** [syncTime(n)]. *)
Definition syncTime (n : Z) (s : Scheduler) : Scheduler :=
  mkScheduler n (s_timers s) (s_jobs s) (s_next s) (s_trace s).

(** The function a pointer's job holds. *)
Definition job_task (j : job_ptr) (s : Scheduler) : option task := default None (s_jobs s !! j).

Definition s_log (e : Z * option task) (s : Scheduler) : Scheduler :=
  mkScheduler (s_now s) (s_timers s) (s_jobs s) (s_next s) (s_trace s ++ [e]).

Section Run.
Context (exec : task -> Scheduler -> Scheduler).

(** [if (job->do_) job->do_()], of the timer popped at time [t]. *)
Definition fire (t : Z) (p : job_ptr) (s : Scheduler) : Scheduler :=
  match job_task p s with
  | Some f => exec f (s_log (t, Some f) s)
  | None => s_log (t, None) s
  end.

(** [run]; dereferencing a null job is undefined. *)
Fixpoint run (fuel : nat) (s : Scheduler) : option (outcome (Z * Scheduler)) :=
  match fuel with
  | O => None
  | S fuel' =>
      match s_timers s with
      | [] => Some (Ret (getNextJobTime s, s))
      | (t, j) :: rest =>
          if s_now s <? t then Some (Ret (getNextJobTime s, s))
          else
            match j with
            | None => Some (Undef "null job")
            | Some p => run fuel' (fire t p (s_set_timers rest s))
            end
      end
  end.


End Run.

(** ** What jobs do

    A job is a closure of the callers.  Seen from the scheduler it is the calls it makes to
    it, which may depend on the state: new jobs, jobs put in the queue again, moved or
    cancelled, and readings of the clock. *)
Inductive action :=
| AAdd (t : Z) (f : task)
| AAddJob (p : job_ptr) (t : Z)
| AEdit (j : option job_ptr) (t : Z)
| ACancel (p : job_ptr)
| ASync (n : Z).

Definition act (s : Scheduler) (a : action) : Scheduler :=
  match a with
  | AAdd t f => (add t (Some f) s).2
  | AAddJob p t => add_job (Some p) t s
  | AEdit j t => (edit j t s).2
  | ACancel p => job_cancel p s
  | ASync n => syncTime n s
  end.

(** The pointers a job uses are those of jobs that exist, and the clock is steady. *)
Definition act_ok (s : Scheduler) (a : action) : Prop :=
  match a with
  | AAddJob p _ | AEdit (Some p) _ | ACancel p => (p < s_next s)%positive
  | ASync n => s_now s <= n
  | _ => True
  end.

Fixpoint acts_ok (s : Scheduler) (l : list action) : Prop :=
  match l with [] => True | a :: l' => act_ok s a /\ acts_ok (act s a) l' end.

Abbreviation jobs := (task -> Scheduler -> list action) (only parsing).


(** The invariant: timers sorted by time, and every timer holds a job made before. *)
Definition live (next : job_ptr) (e : Z * option job_ptr) : Prop :=
  match e.2 with Some p => (p < next)%positive | None => False end.

Definition sched_wf (s : Scheduler) : Prop :=
  mm_wf Z.ltb (s_timers s) /\ Forall (live (s_next s)) (s_timers s).











(** What every call leaves in place: timers are only added, the clock and the pointers
    only grow, and a job that exists keeps its function or loses it. *)
Record extends (s s' : Scheduler) : Prop := {
  ex_now : s_now s <= s_now s';
  ex_trace : s_trace s' = s_trace s;
  ex_next : (s_next s <= s_next s')%positive;
  ex_timers : s_timers s ⊆+ s_timers s';
  ex_jobs : forall p, (p < s_next s)%positive -> job_task p s' = job_task p s \/ job_task p s' = None;
}.

#[export] Instance extends_refl : Reflexive extends.
Proof. intros s. split; auto; lia. Qed.
#[export] Instance extends_trans : Transitive extends.
Proof.
  intros s1 s2 s3 H1 H2. destruct H1 as [? ? ? ? Hj1], H2 as [? ? ? ? Hj2]. split; [lia|congruence|lia|by etrans|].
  intros p Hp. destruct (Hj2 p ltac:(lia)) as [-> | ->]; auto.
Qed.











(** ** Running *)




(** Jobs that keep to the interface; jobs that may schedule for now or before, but
    less and less: what becomes due by running [f] weighs no more than [W f]; jobs
    that schedule only for later than now. *)
Class JobsOk (prog : jobs) : Prop := jobs_ok : forall f s, sched_wf s -> acts_ok s (prog f s).




Section RunSpec.
Context (prog : jobs) `{!JobsOk prog}.












End RunSpec.

(** ** Concrete jobs *)
Module JobDemo.

(** Task 0 schedules itself five ticks later and cancels the first job, the others do
    nothing. *)
Definition later (f : task) (s : Scheduler) : list action :=
  match f with
  | O => AAdd (s_now s + 5) O :: if (1 <? s_next s)%positive then [ACancel 1] else []
  | S _ => []
  end.

#[global] Instance later_ok : JobsOk later.
Proof.
  intros f s _. destruct f as [|f]; [|done]. simpl. split; [done|]. destruct (Pos.ltb_spec 1 (s_next s)); simpl; [|done].
  split; [|done]. unfold add, add_job. simpl. case_match; simpl; lia.
Qed.


(** Each task schedules the task before it for "now". *)
Definition countdown (f : task) (s : Scheduler) : list action :=
  match f with O => [] | S f' => [AAdd (s_now s) f'] end.

#[global] Instance countdown_ok : JobsOk countdown.
Proof. intros f s _. by destruct f. Qed.


(** Task 0 schedules itself for "now". *)
Definition at_once (f : task) (s : Scheduler) : Scheduler :=
  match f with
  | O => (add (s_now s) (Some O) s).2
  | S _ => s
  end.

Definition empty (now : Z) : Scheduler := mkScheduler now [] ∅ 1%positive [].


End JobDemo.


(** One round of [run] on a job that reschedules itself for "now" leads to the
    same situation. *)
Lemma at_once_round fuel s p rest :
  s_timers s = (s_now s, Some p) :: rest -> job_task p s = Some 0%nat -> s_now s < time_max ->
  Forall (fun e => s_now s < e.1) rest ->
  exists s' p', run JobDemo.at_once (S fuel) s = run JobDemo.at_once fuel s' /\
    s_timers s' = (s_now s', Some p') :: rest /\ job_task p' s' = Some 0%nat /\ s_now s' = s_now s.
Proof.
  intros Ht Hj Hmax Hr.
  exists (fire JobDemo.at_once (s_now s) p (s_set_timers rest s)), (s_next s). cbn [run].
  rewrite Ht. destruct (Z.ltb_spec (s_now s) (s_now s)); [lia|]. split; [done|].
  unfold fire. change (job_task p (s_set_timers rest s)) with (job_task p s). rewrite Hj. simpl.
  unfold add, add_job. simpl. destruct (Z.eqb_spec (s_now s) time_max); [lia|]. simpl.
  unfold job_task. simpl. rewrite lookup_insert_eq. split_and!; try done.
  destruct Hr as [|[t j] rest Hlt _]; [done|]. simpl in *. by destruct (Z.ltb_spec (s_now s) t); [|lia].
Qed.

Lemma at_once_diverges fuel s p rest :
  s_timers s = (s_now s, Some p) :: rest -> job_task p s = Some 0%nat -> s_now s < time_max ->
  Forall (fun e => s_now s < e.1) rest -> run JobDemo.at_once fuel s = None.
Proof.
  revert s p. induction fuel as [|fuel IH]; intros s p Ht Hj Hmax Hr; [done|].
  destruct (at_once_round fuel s p rest Ht Hj Hmax Hr) as (s' & p' & -> & Ht' & Hj' & Hn).
  apply (IH s' p'); [done|done|by rewrite Hn|by rewrite Hn].
Qed.

(** The loop the comment in [run] rules out is possible: the test is
    [timer->first > now], so a job that schedules itself for "now" is served
    again in the same call, and [run] never returns, whatever the fuel. *)
Theorem run_reschedule_now_diverges fuel :
  run JobDemo.at_once fuel (add 10 (Some 0%nat) (JobDemo.empty 10)).2 = None.
Proof.
  by apply (at_once_diverges fuel _ 1%positive []).
Qed.
