(* ===== verification/Prefix.v ===== *)
(** * Prefix: labels and keys of the prefix hash tree

    Models [struct Prefix] of src/opendht-2.1.4/include/opendht/indexation/pht.h and the
    part of class [Pht] that turns a key into a prefix: [validKey], [linearize] and
    [zcurve], with [findSplitLocation].  A prefix is a bit string kept in bytes
    ([content_]), its length in bits ([size_]), and the bits that are known ([flags_]).
    Reading or writing outside a vector is [Undef]. *)
From S2P Require Import Prelude StdMap InfoHash MsgPack.

(** ** Prefixes *)

Record Prefix := mkPrefix { size_ : Z; flags_ : bytes; content_ : bytes }.

#[export] Instance Prefix_eq_dec : EqDecision Prefix.
Proof. solve_decision. Defined.

(** The number of bits of [content_]. *)
Abbreviation bits b := (8 * len b).

Definition Prefix_default : Prefix := mkPrefix 0 [] [].
Definition Prefix_of_hash (h : Hash) : Prefix := mkPrefix (bits h) [] h.
Definition Prefix_of_blob (d f : bytes) : Prefix := mkPrefix (bits d) f d.

(** [v[i]] and [Blob(v.begin(), v.begin() + n)]. *)
Definition vec_at (v : bytes) (i : Z) : outcome Z :=
  match v !! Z.to_nat i with Some b => Ret b | None => Undef "read past the end of a vector" end.

Definition vec_first (v : bytes) (n : Z) : outcome bytes :=
  if n <=? len v then Ret (take (Z.to_nat n) v) else Undef "iterator past the end of a vector".

(** The bytes of the first [n] bits of [v], the last one masked. *)
Definition cut (v : bytes) (n : Z) : outcome bytes :=
  l ← vec_first v (n / 8);
  if n mod 8 =? 0 then Ret l
  else b ← vec_at v (n / 8); Ret (l ++ [u8 (Z.land b (Z.shiftl 255 (8 - n mod 8)))]).

(** [Prefix(const Prefix& p, size_t first)]. *)
Definition Prefix_first (p : Prefix) (first : Z) : outcome Prefix :=
  let n := Z.min first (bits (content_ p)) in
  f ← match flags_ p with [] => Ret [] | fl => cut fl n end;
  c ← cut (content_ p) n;
  Ret (mkPrefix n f c).

(** [getPrefix]: the argument is a [ssize_t], [len += size_] wraps. *)
Definition getPrefix (p : Prefix) (n : Z) : outcome Prefix :=
  if n =? - 2 ^ 63 then Undef "abs of the smallest ssize_t"
  else if bits (content_ p) <=? Z.abs n then Throw "len larger than prefix size."
  else Prefix_first p (u64 (if n <? 0 then n + size_ p else n)).

Definition getFullSize (p : Prefix) : outcome Prefix := Prefix_first p (bits (content_ p)).

(** [isActiveBit]: the bound is that of the content, whatever [b] is. *)
Definition isActiveBit (p : Prefix) (b : bytes) (pos : Z) : outcome bool :=
  if bits (content_ p) <=? pos
  then Throw "Can't detect active bit at pos, pos larger than prefix size or empty prefix"
  else x ← vec_at b (pos / 8); Ret (Z.land (Z.shiftr x (7 - pos mod 8)) 1 =? 1).

Definition isFlagActive (p : Prefix) (pos : Z) : outcome bool :=
  match flags_ p with [] => Ret true | f => isActiveBit p f pos end.

Definition isContentBitActive (p : Prefix) (pos : Z) : outcome bool := isActiveBit p (content_ p) pos.

(** [swapBit]: [(8 - bit) % 8] on [size_t]. *)
Definition swapBit (b : bytes) (bit : Z) : outcome bytes :=
  if bits b <=? bit then Throw "bit larger than prefix size."
  else let offset_bit := u64 (8 - bit) mod 8 in
       x ← vec_at b (bit / 8);
       Ret (<[Z.to_nat (bit / 8) := u8 (Z.lxor x (Z.shiftl 1 offset_bit))]> b).

Definition swapContentBit (p : Prefix) (bit : Z) : outcome Prefix :=
  c ← swapBit (content_ p) bit; Ret (mkPrefix (size_ p) (flags_ p) c).

Definition swapFlagBit (p : Prefix) (bit : Z) : outcome Prefix :=
  f ← swapBit (flags_ p) bit; Ret (mkPrefix (size_ p) f (content_ p)).

Definition getSibling (p : Prefix) : outcome Prefix :=
  if size_ p =? 0 then Ret p else swapContentBit p (u64 (size_ p - 1)).

(** What [hash] gives to [InfoHash::get]. *)
Definition label (p : Prefix) : bytes := content_ p ++ [u8 (size_ p)].

(** [commonBits]: the loop counts the bytes of the contents but runs to a number of
    bits; [n] is the number of rounds left. *)
Fixpoint commonBits_bytes (p1 p2 : Prefix) (n : nat) (i : Z) : outcome Z :=
  match n with
  | O => Ret i
  | S n' =>
      a ← vec_at (content_ p1) i;
      b ← vec_at (content_ p2) i;
      if negb (a =? b) then Ret i
      else f1 ← isFlagActive p1 i;
           if negb f1 then Ret i
           else f2 ← isFlagActive p2 i;
                if negb f2 then Ret i else commonBits_bytes p1 p2 n' (i + 1)
  end.

(** [Prefix::commonBits]; [None] when the loop that looks for the first bit of the
    difference does not end: eight shifts empty a byte. *)
Definition prefix_commonBits (p1 p2 : Prefix) : outcome (option Z) :=
  let longest := Z.min (size_ p1) (size_ p2) in
  i ← commonBits_bytes p1 p2 (Z.to_nat longest) 0;
  if i =? longest then Ret (Some (u32 (8 * longest)))
  else a ← vec_at (content_ p1) i;
       b ← vec_at (content_ p2) i;
       Ret (option_map (fun j => u32 (8 * i + j)) (lead_j 8 (Z.lxor a b) 0)).

(** [addPadding]: zeroes up to [size] bytes, then the bit after the prefix. *)
Definition addPadding (p : Prefix) (toP : bytes) (size : Z) : outcome bytes :=
  swapBit (toP ++ replicate (Z.to_nat (size - len toP)) 0) (u64 (size_ p + 1)).

Definition addPaddingContent (p : Prefix) (size : Z) : outcome Prefix :=
  c ← addPadding p (content_ p) size; Ret (mkPrefix (size_ p) (flags_ p) c).

Definition updateFlags (p : Prefix) : Prefix :=
  let csize := u64 (size_ p - bits (flags_ p)) in
  let f1 := flags_ p ++ replicate (Z.to_nat (csize / 8)) 255 in
  let f2 := if csize mod 8 =? 0 then f1 else f1 ++ [u8 (Z.shiftl 255 (8 - csize mod 8))] in
  mkPrefix (size_ p) (f2 ++ replicate (Z.to_nat (len (content_ p) - len f2)) 255) (content_ p).

(** [blobToString] and [Prefix::toString]. *)
Definition bit_char (b : bool) : Z := if b then 49 else 48.
Definition bitset8 (x : Z) : bytes := map (fun k => bit_char (Z.testbit x k)) [7; 6; 5; 4; 3; 2; 1; 0].

Definition blobToString (bl : bytes) : bytes :=
  let bn := len bl mod 8 in
  let n := len bl / 8 in
  concat (map (fun b => bitset8 b ++ str " ") bl) ++
  (if bn =? 0 then []
   else map (fun b => bit_char (negb (Z.land (nth (Z.to_nat n) bl 0) (Z.shiftl 1 (7 - b)) =? 0))) (seqZ 0 bn)).

Definition prefix_toString (p : Prefix) : bytes :=
  str "Prefix : " ++ [10; 9] ++ str "Content_ : " ++ [34] ++ blobToString (content_ p) ++ [34; 10; 9] ++
  str "Flags_   : " ++ [34] ++ blobToString (flags_ p) ++ [34; 10].

(** ** Keys *)

(** [Pht::Key] and [Pht::KeySpec]: maps from names, in order. *)
Abbreviation Key := (list (bytes * bytes)).
Abbreviation KeySpec := (list (bytes * Z)).

Fixpoint key_matches (k : Key) (spec : KeySpec) : bool :=
  match k, spec with
  | [], _ => true
  | (n, d) :: k', (n', s) :: spec' => bool_decide (n = n') && (len d <=? s) && key_matches k' spec'
  | _ :: _, [] => false
  end.

Definition validKey (spec : KeySpec) (k : Key) : bool :=
  (length k =? length spec)%nat && key_matches k spec.

(** [zcurve].  The position in the loops: the prefix whose turn it is, and the number
    of bits of the input byte that were taken ([mask] is [0x80 >> i]). *)
Definition shift_bit (diff c : Z) : Z :=
  if 0 <=? diff then Z.shiftr c diff else Z.shiftl c (Z.abs diff).

Fixpoint zc_byte (ps : list Prefix) (j : Z) (rounds : nat) (k : Z) (bit i mask flags content : Z) :
    outcome (Z * Z * Z * Z * Z) :=
  match rounds with
  | O => Ret (bit, i, mask, flags, content)
  | S rounds' =>
      p ← match ps !! Z.to_nat bit with Some p => Ret p | None => Undef "read past the end of a vector" end;
      cb ← vec_at (content_ p) j;
      fb ← vec_at (flags_ p) j;
      let diff := k - i in
      let c := Z.land cb mask in
      let f := Z.land fb mask in
      let content' := u8 (Z.lor content (shift_bit diff c)) in
      let flags' := u8 (Z.lor flags (shift_bit diff f)) in
      if bit + 1 =? Z.of_nat (length ps) then zc_byte ps j rounds' (k + 1) 0 (i + 1) (Z.shiftr mask 1) flags' content'
      else zc_byte ps j rounds' (k + 1) (bit + 1) i mask flags' content'
  end.

(** [for (int i = 0; i < 8; )]: one byte of the output per round; [None] when the
    rounds do not suffice. *)
Fixpoint zc_bits (ps : list Prefix) (j : Z) (rounds : nat) (bit i mask : Z) (out : Prefix) :
    outcome (option (Z * Prefix)) :=
  if negb (i <? 8) then Ret (Some (bit, out))
  else match rounds with
       | O => Ret None
       | S rounds' =>
           '(bit', i', mask', flags, content) ← zc_byte ps j 8 0 bit i mask 0 0;
           zc_bits ps j rounds' bit' i' mask'
             (mkPrefix (size_ out + 8) (flags_ out ++ [flags]) (content_ out ++ [content]))
       end.

Fixpoint zc_bytes (ps : list Prefix) (todo : nat) (j bit : Z) (out : Prefix) : outcome (option Prefix) :=
  match todo with
  | O => Ret (Some out)
  | S todo' =>
      r ← zc_bits ps j (length ps) bit 0 128 out;
      match r with
      | None => Ret None
      | Some (bit', out') => zc_bytes ps todo' (j + 1) bit' out'
      end
  end.

Definition zcurve (ps : list Prefix) : outcome (option Prefix) :=
  match ps with
  | [] => Undef "read past the end of a vector"
  | [p] => Ret (Some p)
  | p0 :: _ => zc_bytes ps (length (content_ p0)) 0 0 Prefix_default
  end.

(** [linearize]. *)
Fixpoint pad_all (max : Z) (k : Key) : outcome (list Prefix) :=
  match k with
  | [] => Ret []
  | (_, d) :: k' =>
      p ← addPaddingContent (Prefix_of_blob d []) max;
      ps ← pad_all max k';
      Ret (updateFlags p :: ps)
  end.

(** [std::max_element] on the sizes; its result is dereferenced. *)
Definition max_size (spec : KeySpec) : outcome Z :=
  match spec with
  | [] => Undef "dereference of the end of a map"
  | (_, s) :: spec' => Ret (fold_left (fun m e => if m <? e.2 then e.2 else m) spec' s)
  end.

Definition linearize (spec : KeySpec) (k : Key) : outcome (option Prefix) :=
  if negb (validKey spec k) then Throw "Key does not match the PHT key spec."
  else m ← max_size spec;
       ps ← pad_all (u64 (m + 1)) k;
       zcurve ps.

(** [findSplitLocation]: [vals] are the prefixes of the entries; [n] rounds from [i].
    With an empty content the bound of the loop wraps to [2 ^ 64 - 1]; only the first
    round can then end it. *)
Fixpoint diverges (compared : Prefix) (i : Z) (vals : list bytes) : outcome bool :=
  match vals with
  | [] => Ret false
  | v :: vals' =>
      a ← isContentBitActive (Prefix_of_blob v []) i;
      b ← isContentBitActive compared i;
      if negb (eqb a b) then Ret true else diverges compared i vals'
  end.

Fixpoint split_loop (compared : Prefix) (vals : list bytes) (n : nat) (i : Z) : outcome Z :=
  match n with
  | O => Ret (bits (content_ compared) - 1)
  | S n' =>
      d ← diverges compared i vals;
      if d : bool then Ret (i + 1) else split_loop compared vals n' (i + 1)
  end.

Definition findSplitLocation (compared : Prefix) (vals : list bytes) : outcome Z :=
  match content_ compared with
  | [] => d ← diverges compared 0 vals; Ret (if d : bool then 1 else 2 ^ 64 - 1)
  | _ => split_loop compared vals (Z.to_nat (bits (content_ compared) - 1)) 0
  end.

(** ** Bits of byte strings *)

Lemma getBit_app l1 l2 m : 0 <= m ->
  getBit (l1 ++ l2) m = if m <? bits l1 then getBit l1 m else getBit l2 (m - bits l1).
Proof.
  intros Hm. unfold len. destruct (Z.ltb_spec m (8 * Z.of_nat (length l1))) as [H|H].
  - rewrite !getBit_nth by lia. rewrite app_nth1; [done|]. apply Nat2Z.inj_lt. rewrite Z2Nat.id by (apply Z.div_pos; lia).
    apply Z.div_lt_upper_bound; lia.
  - rewrite !getBit_nth by lia. replace (m - 8 * Z.of_nat (length l1)) with (m + (- Z.of_nat (length l1)) * 8) by lia.
    rewrite Z.mod_add, Z.div_add by lia. assert (Z.of_nat (length l1) <= m / 8) by (apply Z.div_le_lower_bound; lia).
    rewrite app_nth2 by lia. do 2 f_equal. lia.
Qed.

Lemma getBit_byte b m : 0 <= m < 8 -> getBit [b] m = Z.testbit b (7 - m).
Proof. intros H. rewrite getBit_nth, Z.div_small, Z.mod_small by lia. done. Qed.

Lemma getBit_out l m : bits l <= m -> getBit l m = false.
Proof.
  unfold len. intros H. rewrite getBit_nth by lia. rewrite nth_overflow; [apply Z.bits_0|].
  apply Nat2Z.inj_le. assert (Z.of_nat (length l) <= m / 8) by (apply Z.div_le_lower_bound; lia). lia.
Qed.

Lemma byte_bits_inj a b : is_byte a -> is_byte b -> (forall k, 0 <= k < 8 -> Z.testbit a k = Z.testbit b k) -> a = b.
Proof.
  intros Ha Hb H. apply Z.bits_inj'. intros k Hk. destruct (decide (k < 8)); [apply H; lia|].
  by rewrite !(testbit_high 8) by (first [exact Ha|exact Hb|lia]).
Qed.

(** A byte string is its bits. *)
Lemma bytes_bits_inj a b :
  wf_bytes a -> wf_bytes b -> length a = length b -> (forall m, 0 <= m < bits a -> getBit a m = getBit b m) -> a = b.
Proof.
  intros Ha Hb Hl H. apply nth_ext with (d := 0) (d' := 0); [done|]. intros i Hi.
  apply byte_bits_inj; [by apply nth_wf..|]. intros k Hk.
  specialize (H (8 * Z.of_nat i + (7 - k)) ltac:(unfold len; lia)). rewrite !getBit_nth in H by lia.
  replace ((8 * Z.of_nat i + (7 - k)) / 8) with (Z.of_nat i) in H by (apply Z.div_unique with (r := 7 - k); lia).
  replace ((8 * Z.of_nat i + (7 - k)) mod 8) with (7 - k) in H by (apply Z.mod_unique with (q := Z.of_nat i); lia).
  rewrite Nat2Z.id in H. by replace (7 - (7 - k)) with k in H by lia.
Qed.

Lemma vec_at_nth v i : 0 <= i < len v -> vec_at v i = Ret (nth (Z.to_nat i) v 0).
Proof.
  intros H. unfold vec_at, len in *. destruct (v !! Z.to_nat i) eqn:E; [by erewrite nth_lookup_Some|].
  apply lookup_ge_None_1 in E. lia.
Qed.

Lemma vec_at_out v i : len v <= i -> vec_at v i = Undef "read past the end of a vector".
Proof. intros H. unfold vec_at, len in *. by rewrite lookup_ge_None_2 by lia. Qed.

Lemma len_app a b : len (a ++ b) = len a + len b.
Proof. unfold len. rewrite length_app. lia. Qed.

Lemma len_nonneg a : 0 <= len a.
Proof. unfold len. lia. Qed.
#[export] Hint Resolve len_nonneg : vb.

Lemma div8_len v n : 0 <= n < bits v -> 0 <= n / 8 < len v.
Proof. intros H. split; [apply Z.div_pos; lia|apply Z.div_lt_upper_bound; lia]. Qed.

Lemma mask_bits b r k :
  is_byte b -> 0 < r < 8 -> 0 <= k < 8 ->
  Z.testbit (u8 (Z.land b (Z.shiftl 255 (8 - r)))) (7 - k) = (k <? r) && Z.testbit b (7 - k).
Proof.
  intros Hb Hr Hk. unfold wrap. rewrite Z.mod_pow2_bits_low, Z.land_spec, Z.shiftl_spec by lia.
  rewrite andb_comm. f_equal. destruct (Z.ltb_spec k r).
  - replace 255 with (Z.ones 8) by done. apply Z.ones_spec_low. lia.
  - apply Z.testbit_neg_r. lia.
Qed.

(** Cutting keeps the first [n] bits and clears the others. *)
Lemma cut_spec v n : wf_bytes v -> 0 <= n <= bits v ->
  exists l, cut v n = Ret l /\ len l = (n + 7) / 8 /\ wf_bytes l /\
    forall m, 0 <= m -> getBit l m = (m <? n) && getBit v m.
Proof.
  intros Hv Hn. unfold cut, vec_first.
  assert (n / 8 <= len v) by (apply Z.div_le_upper_bound; lia). assert (0 <= n / 8) by (apply Z.div_pos; lia).
  pose proof (Z.div_mod n 8 ltac:(lia)) as Hd. pose proof (Z.mod_pos_bound n 8 ltac:(lia)).
  rewrite (proj2 (Z.leb_le _ _)) by done. cbn [mbind outcome_bind].
  assert (len (take (Z.to_nat (n / 8)) v) = n / 8) as Hlt by (unfold len in *; rewrite length_take; lia).
  assert (forall m, 0 <= m < 8 * (n / 8) -> getBit (take (Z.to_nat (n / 8)) v) m = getBit v m) as Hlow.
  { intros m Hm. rewrite <- (take_drop (Z.to_nat (n / 8)) v) at 2. rewrite getBit_app, Hlt by lia.
    by rewrite (proj2 (Z.ltb_lt _ _)) by lia. }
  destruct (Z.eqb_spec (n mod 8) 0) as [Hz|Hz].
  - eexists. split; [done|]. split; [rewrite Hlt; apply Z.div_unique with (r := 7); lia|]. split; [by apply Forall_take|].
    intros m Hm. destruct (Z.ltb_spec m n); [apply Hlow; lia|apply getBit_out; rewrite Hlt; lia].
  - assert (n / 8 < len v) by lia. rewrite vec_at_nth by lia. cbn [mbind outcome_bind]. eexists. split; [done|].
    set (b := nth (Z.to_nat (n / 8)) v 0). assert (is_byte b) by (by apply nth_wf).
    split; [rewrite len_app, Hlt; change (len [_]) with 1; apply Z.div_unique with (r := n mod 8 - 1); lia|].
    split; [apply Forall_app; split; [by apply Forall_take|constructor; auto with vb_wf]|].
    intros m Hm. rewrite getBit_app, Hlt by lia. destruct (Z.ltb_spec m (8 * (n / 8))).
    { rewrite Hlow by lia. by rewrite (proj2 (Z.ltb_lt _ _)) by lia. }
    destruct (decide (m - 8 * (n / 8) < 8)).
    + rewrite getBit_byte, mask_bits by (first [done|lia]). rewrite (getBit_nth v) by lia.
      replace (m / 8) with (n / 8) by (apply Z.div_unique with (r := m - 8 * (n / 8)); lia).
      replace (m mod 8) with (m - 8 * (n / 8)) by (apply Z.mod_unique with (q := n / 8); lia).
      f_equal. destruct (Z.ltb_spec m n), (Z.ltb_spec (m - 8 * (n / 8)) (n mod 8)); lia.
    + rewrite getBit_out by (change (len [_]) with 1; lia). by rewrite (proj2 (Z.ltb_ge _ _)) by lia.
Qed.

(** ** Sub-prefixes *)

(** Prefixes the code builds: bytes, and flags that are absent or cover the content. *)
Definition wf_prefix (p : Prefix) : Prop :=
  wf_bytes (content_ p) /\ wf_bytes (flags_ p) /\ (flags_ p = [] \/ length (flags_ p) = length (content_ p)) /\
  0 <= size_ p <= bits (content_ p) /\ bits (content_ p) < 2 ^ 63.

Lemma wf_prefix_flags p : wf_prefix p -> flags_ p = [] \/ len (flags_ p) = len (content_ p).
Proof. intros (_ & _ & [?|?] & _); [by left|right]. unfold len. lia. Qed.

Lemma Prefix_first_spec p n : wf_prefix p -> 0 <= n <= bits (content_ p) ->
  exists q, Prefix_first p n = Ret q /\ wf_prefix q /\ size_ q = n /\ len (content_ q) = (n + 7) / 8 /\
    forall m, 0 <= m -> getBit (content_ q) m = (m <? n) && getBit (content_ p) m.
Proof.
  intros Hp Hn. pose proof (wf_prefix_flags p Hp) as Hf. destruct Hp as (Hc & Hfl & _ & Hs & Hb).
  unfold Prefix_first. rewrite Z.min_l by lia. destruct (cut_spec _ n Hc ltac:(lia)) as (c & -> & Hlc & Hwc & Hbc).
  assert (exists f, match flags_ p with [] => Ret [] | fl => cut fl n end = Ret f /\ wf_bytes f /\
                    (f = [] \/ len f = (n + 7) / 8)) as (f & -> & Hwf & Hlf).
  { destruct (flags_ p) as [|x fl]; [exists []; auto|]. destruct Hf as [?|Hf]; [done|].
    destruct (cut_spec (x :: fl) n Hfl ltac:(lia)) as (f & -> & ? & ? & _). eauto. }
  cbn [mbind outcome_bind]. eexists. split; [done|]. cbn [size_ content_ flags_].
  assert (0 <= (n + 7) / 8 /\ n <= 8 * ((n + 7) / 8) /\ 8 * ((n + 7) / 8) <= bits (content_ p)).
  { pose proof (Z.div_mod (n + 7) 8 ltac:(lia)). pose proof (Z.mod_pos_bound (n + 7) 8 ltac:(lia)). lia. }
  split; [|done]. unfold wf_prefix. cbn [size_ content_ flags_]. split_and!; try done; try lia.
  destruct Hlf as [->|Hlf]; [by left|right]. unfold len in *. lia.
Qed.

Lemma getPrefix_spec p n : wf_prefix p -> 0 <= n < bits (content_ p) ->
  exists q, getPrefix p n = Ret q /\ wf_prefix q /\ size_ q = n /\ len (content_ q) = (n + 7) / 8 /\
    forall m, 0 <= m -> getBit (content_ q) m = (m <? n) && getBit (content_ p) m.
Proof.
  intros Hp Hn. pose proof Hp as (_ & _ & _ & _ & Hb). unfold getPrefix.
  destruct (Z.eqb_spec n (- 2 ^ 63)); [lia|]. rewrite Z.abs_eq, (proj2 (Z.leb_gt _ _)), (proj2 (Z.ltb_ge _ _)), wrap_small by lia.
  apply Prefix_first_spec; [done|lia].
Qed.

(** The parent: [getPrefix(-1)]. *)
Lemma getPrefix_parent p : wf_prefix p -> 1 <= size_ p -> 1 < bits (content_ p) ->
  getPrefix p (-1) = Prefix_first p (size_ p - 1).
Proof.
  intros (_ & _ & _ & Hs & Hb) H1 H2. unfold getPrefix. change (-1 =? - 2 ^ 63) with false. cbn match.
  change (Z.abs (-1)) with 1. rewrite (proj2 (Z.leb_gt _ _)) by lia. change (-1 <? 0) with true. cbn match.
  rewrite wrap_small by lia. f_equal. lia.
Qed.

(** The number of bits can be read off the bytes hashed. *)
Lemma label_size a b n m :
  len a = (n + 7) / 8 -> len b = (m + 7) / 8 -> 0 <= n -> 0 <= m -> a ++ [u8 n] = b ++ [u8 m] -> a = b /\ n = m.
Proof.
  intros La Lb Hn Hm H. apply app_inj_tail in H as [-> H]. split; [done|]. rewrite La in Lb.
  unfold wrap in H. change (2 ^ 8) with 256 in H.
  pose proof (Z.div_mod (n + 7) 8 ltac:(lia)). pose proof (Z.mod_pos_bound (n + 7) 8 ltac:(lia)).
  pose proof (Z.div_mod (m + 7) 8 ltac:(lia)). pose proof (Z.mod_pos_bound (m + 7) 8 ltac:(lia)).
  pose proof (Z.div_mod n 256 ltac:(lia)). pose proof (Z.div_mod m 256 ltac:(lia)). lia.
Qed.

(** The nodes of the tree have distinct labels: what [hash] digests for the first
    [n] bits of one key and the first [m] bits of another is the same exactly when
    [n = m] and the bits are the same. *)
Theorem label_identifies p q n m :
  wf_prefix p -> wf_prefix q -> 0 <= n < bits (content_ p) -> 0 <= m < bits (content_ q) ->
  exists a b, getPrefix p n = Ret a /\ getPrefix q m = Ret b /\
    (label a = label b <-> n = m /\ forall i, 0 <= i < n -> getBit (content_ p) i = getBit (content_ q) i).
Proof.
  intros Hp Hq Hn Hm. destruct (getPrefix_spec p n Hp Hn) as (a & Ha & (Hwa & _) & Sa & La & Ba).
  destruct (getPrefix_spec q m Hq Hm) as (b & Hb & (Hwb & _) & Sb & Lb & Bb).
  exists a, b. split; [done|]. split; [done|]. unfold label. rewrite Sa, Sb. split.
  - intros H. apply label_size in H as [H ->]; [|done..|lia|lia]. split; [done|]. intros i Hi.
    specialize (Ba i ltac:(lia)). specialize (Bb i ltac:(lia)). rewrite H, Bb in Ba.
    by rewrite (proj2 (Z.ltb_lt i m)) in Ba by lia.
  - intros [-> H]. f_equal. apply bytes_bits_inj; [done..|unfold len in *; lia|]. intros i Hi.
    rewrite Ba, Bb by lia. destruct (Z.ltb_spec i m); [|done]. apply H. lia.
Qed.

(** ** Siblings *)

(** The bit that [swapBit bit] changes. *)
Definition swapped (bit : Z) : Z := 8 * (bit / 8) + (bit - 1) mod 8.

Lemma u64_mod8 z : u64 z mod 8 = z mod 8.
Proof.
  unfold wrap. apply Z.mod_mod_divide. by exists (2 ^ 61).
Qed.

Lemma swapped_offset bit : 7 - u64 (8 - bit) mod 8 = (bit - 1) mod 8.
Proof.
  rewrite u64_mod8. pose proof (Z.div_mod (8 - bit) 8 ltac:(lia)). pose proof (Z.mod_pos_bound (8 - bit) 8 ltac:(lia)).
  pose proof (Z.div_mod (bit - 1) 8 ltac:(lia)). pose proof (Z.mod_pos_bound (bit - 1) 8 ltac:(lia)). lia.
Qed.

Lemma swapBit_spec b bit : wf_bytes b -> 0 <= bit < bits b ->
  exists b', swapBit b bit = Ret b' /\ length b' = length b /\ wf_bytes b' /\
    forall m, 0 <= m -> getBit b' m = if m =? swapped bit then negb (getBit b m) else getBit b m.
Proof.
  intros Hb Hbit. unfold swapBit. rewrite (proj2 (Z.leb_gt _ _)) by lia. pose proof (div8_len b bit Hbit) as Hi.
  rewrite vec_at_nth by lia. cbn [mbind outcome_bind]. eexists. split; [done|]. split; [apply length_insert|].
  split; [apply Forall_insert; auto with vb_wf|]. intros m Hm. rewrite !getBit_nth by lia.
  rewrite nth_insert by (unfold len in *; lia). pose proof (swapped_offset bit) as Ho.
  pose proof (Z.mod_pos_bound (bit - 1) 8 ltac:(lia)). pose proof (Z.mod_pos_bound m 8 ltac:(lia)).
  pose proof (Z.div_mod m 8 ltac:(lia)). assert (0 <= m / 8) by (apply Z.div_pos; lia). unfold swapped. case_decide as Hd.
  - assert (m / 8 = bit / 8) by lia. rewrite Hd. set (o := u64 (8 - bit) mod 8) in *. assert (0 <= o < 8) by lia.
    unfold wrap. rewrite Z.mod_pow2_bits_low, Z.lxor_spec, Z.shiftl_1_l, Z.pow2_bits_eqb by lia.
    destruct (Z.eqb_spec m (8 * (bit / 8) + (bit - 1) mod 8)), (Z.eqb_spec o (7 - m mod 8)); try lia;
      [apply xorb_true_r|apply xorb_false_r].
  - destruct (Z.eqb_spec m (8 * (bit / 8) + (bit - 1) mod 8)) as [E|]; [|done]. exfalso. apply Hd. f_equal.
    rewrite E. apply Z.div_unique with (r := (bit - 1) mod 8); lia.
Qed.

(** [getSibling] does not give the sibling: the sibling of a node differs from it in
    its last bit, which [getSibling] keeps.  It changes the bit before the last, or, for
    the first bit of a byte, the last bit of that byte, which is outside the prefix. *)
Theorem getSibling_not_sibling p :
  wf_prefix p -> 1 <= size_ p ->
  exists s, getSibling p = Ret s /\ size_ s = size_ p /\
    getBit (content_ s) (size_ p - 1) = getBit (content_ p) (size_ p - 1) /\
    let changed := if (size_ p - 1) mod 8 =? 0 then size_ p + 6 else size_ p - 2 in
    forall m, 0 <= m -> getBit (content_ s) m = (if m =? changed then negb else id) (getBit (content_ p) m).
Proof.
  intros (Hc & _ & _ & Hs & Hb) H1. unfold getSibling. destruct (Z.eqb_spec (size_ p) 0); [lia|].
  unfold swapContentBit. rewrite wrap_small by lia.
  destruct (swapBit_spec (content_ p) (size_ p - 1) Hc ltac:(lia)) as (c & -> & Hl & Hwc & Hbc).
  assert (swapped (size_ p - 1) = if (size_ p - 1) mod 8 =? 0 then size_ p + 6 else size_ p - 2) as Hsw.
  { unfold swapped. pose proof (Z.div_mod (size_ p - 1) 8 ltac:(lia)). pose proof (Z.mod_pos_bound (size_ p - 1) 8 ltac:(lia)).
    pose proof (Z.div_mod (size_ p - 1 - 1) 8 ltac:(lia)). pose proof (Z.mod_pos_bound (size_ p - 1 - 1) 8 ltac:(lia)).
    destruct (Z.eqb_spec ((size_ p - 1) mod 8) 0); lia. }
  eexists. split; [done|]. cbn [size_ content_]. split; [done|]. rewrite <- Hsw. split.
  - rewrite Hbc by lia. destruct (Z.eqb_spec (size_ p - 1) (swapped (size_ p - 1))) as [E|]; [|done].
    rewrite Hsw in E. destruct (_ =? 0); lia.
  - cbv zeta. intros m Hm. rewrite Hbc by lia. by destruct (m =? swapped _).
Qed.

(** ** Common bits *)

(** Every flag the loop of [commonBits] looks at is set. *)
Definition known (p : Prefix) : Prop := forall i, 0 <= i < len (content_ p) -> isFlagActive p i = Ret true.

Lemma commonBits_same p q n n' i :
  known p -> known q -> 0 <= i -> i + Z.of_nat n <= len (content_ p) -> len (content_ p) = len (content_ q) ->
  (forall t, i <= t < i + Z.of_nat n -> nth (Z.to_nat t) (content_ p) 0 = nth (Z.to_nat t) (content_ q) 0) ->
  commonBits_bytes p q (n + n') i = commonBits_bytes p q n' (i + Z.of_nat n).
Proof.
  intros Kp Kq. revert i. induction n as [|n IH]; intros i Hi Hn Hl H; [f_equal; lia|].
  cbn [Nat.add commonBits_bytes]. rewrite !vec_at_nth by lia. cbn [mbind outcome_bind].
  rewrite H, Z.eqb_refl, Kp by lia. cbn [negb mbind outcome_bind]. rewrite Kq by lia. cbn [negb].
  rewrite IH; [by replace (i + Z.of_nat (S n)) with (i + 1 + Z.of_nat n) by lia|lia..|]. intros t Ht. apply H. lia.
Qed.

Lemma first_difference (a b : bytes) : length a = length b -> a <> b ->
  exists l x y a' b', a = l ++ x :: a' /\ b = l ++ y :: b' /\ x <> y.
Proof.
  revert b. induction a as [|x a IH]; intros [|y b] Hl Hne; try done. injection Hl as Hl.
  destruct (decide (x = y)) as [->|Hxy]; [|by exists [], x, y, a, b].
  destruct (IH b Hl ltac:(congruence)) as (l & x' & y' & a' & b' & -> & -> & ?). by exists (y :: l), x', y', a', b'.
Qed.

Lemma nth_middle_Z (l : bytes) x a t : 0 <= t <= len l -> nth (Z.to_nat t) (l ++ x :: a) 0 = if t =? len l then x else nth (Z.to_nat t) l 0.
Proof.
  unfold len. intros Ht. destruct (Z.eqb_spec t (Z.of_nat (length l))) as [->|].
  - by rewrite Nat2Z.id, nth_middle.
  - apply app_nth1. lia.
Qed.

(** The leading bit of a difference of bytes. *)
Lemma lead_bits x y : is_byte x -> is_byte y -> x <> y ->
  exists j, lead_j 8 (Z.lxor x y) 0 = Some j /\ 0 <= j < 8 /\ Z.testbit x (7 - j) <> Z.testbit y (7 - j) /\
    forall k, 0 <= k < j -> Z.testbit x (7 - k) = Z.testbit y (7 - k).
Proof.
  intros Hx Hy Hne. pose proof (lxor_is_byte x y Hx Hy) as Hb.
  assert (Z.lxor x y <> 0) as Hz by (by rewrite Z.lxor_eq_0_iff). rewrite lead_j_byte by done.
  unfold is_byte in Hb. assert (0 <= Z.log2 (Z.lxor x y) < 8) as Hl.
  { split; [apply Z.log2_nonneg|apply Z.log2_lt_pow2; lia]. }
  eexists. split; [done|]. split; [lia|]. replace (7 - (7 - Z.log2 (Z.lxor x y))) with (Z.log2 (Z.lxor x y)) by lia. split.
  - pose proof (Z.bit_log2 (Z.lxor x y) ltac:(lia)) as H. rewrite Z.lxor_spec in H.
    intros E. by rewrite E, xorb_nilpotent in H.
  - intros k Hk. pose proof (Z.bits_above_log2 (Z.lxor x y) (7 - k) ltac:(lia) ltac:(lia)) as H.
    rewrite Z.lxor_spec in H. by apply xorb_eq.
Qed.

(** [Prefix::commonBits] gives the length of the longest common prefix of two
    different keys of a tree, and reads past the end of both when they are equal: its
    loop counts bytes up to a number of bits. *)
Theorem commonBits_keys p q :
  wf_prefix p -> wf_prefix q -> known p -> known q -> length (content_ p) = length (content_ q) ->
  len (content_ p) < Z.min (size_ p) (size_ q) -> bits (content_ p) < 2 ^ 32 ->
  if decide (content_ p = content_ q) then prefix_commonBits p q = Undef "read past the end of a vector"
  else exists r, prefix_commonBits p q = Ret (Some r) /\ 0 <= r < bits (content_ p) /\
    getBit (content_ p) r <> getBit (content_ q) r /\
    forall m, 0 <= m < r -> getBit (content_ p) m = getBit (content_ q) m.
Proof.
  intros Hp Hq Kp Kq Hl Hs H32. unfold prefix_commonBits. set (n := Z.min (size_ p) (size_ q)) in *.
  assert (len (content_ p) = len (content_ q)) as Hl' by (unfold len; lia). case_decide as Hd.
  - replace (Z.to_nat n) with (length (content_ p) + S (Z.to_nat n - length (content_ p) - 1))%nat by (unfold len in *; lia).
    rewrite (commonBits_same p q) by (first [done|unfold len in *; lia|intros; by rewrite Hd]). cbn [commonBits_bytes].
    by rewrite (vec_at_out (content_ p)) by (unfold len; lia).
  - destruct (first_difference _ _ Hl Hd) as (l & x & y & a & b & Ea & Eb & Hxy).
    pose proof Hp as (Hc & _). pose proof Hq as (Hc' & _). rewrite Ea in Hc. rewrite Eb in Hc'.
    apply Forall_app in Hc as [_ [Hx _]%Forall_cons]. apply Forall_app in Hc' as [_ [Hy _]%Forall_cons].
    assert (len l < len (content_ p)) by (rewrite Ea, len_app; unfold len; cbn [length]; lia).
    replace (Z.to_nat n) with (length l + S (Z.to_nat n - length l - 1))%nat by (unfold len in *; lia).
    rewrite (commonBits_same p q); try done; [|unfold len in *; lia|].
    2: { intros t Ht. rewrite Ea, Eb, !nth_middle_Z by (unfold len; lia). destruct (Z.eqb_spec t (len l)); [unfold len in *; lia|done]. }
    change (0 + Z.of_nat (length l)) with (len l). cbn [commonBits_bytes]. pose proof (len_nonneg l).
    assert (vec_at (content_ p) (len l) = Ret x) as Nx by (rewrite vec_at_nth, Ea, nth_middle_Z, Z.eqb_refl by lia; done).
    assert (vec_at (content_ q) (len l) = Ret y) as Ny by (rewrite vec_at_nth, Eb, nth_middle_Z, Z.eqb_refl by lia; done).
    rewrite Nx, Ny. cbn [mbind outcome_bind]. rewrite (proj2 (Z.eqb_neq x y) Hxy). cbn [negb mbind outcome_bind].
    destruct (Z.eqb_spec (len l) n); [lia|]. rewrite Nx, Ny. cbn [mbind outcome_bind].
    destruct (lead_bits x y Hx Hy Hxy) as (j & -> & Hj & Hdiff & Hsame). exists (8 * len l + j). cbn [option_map].
    rewrite wrap_small by lia. split; [done|]. split; [lia|]. rewrite Ea, Eb. clear Ea Eb Nx Ny.
    split; [rewrite !getBit_app by lia|intros m Hm; rewrite !getBit_app by lia].
    + rewrite (proj2 (Z.ltb_ge _ _)) by lia. replace (8 * len l + j - bits l) with j by lia.
      change (x :: a) with ([x] ++ a). change (y :: b) with ([y] ++ b). rewrite !getBit_app by lia.
      change (bits [x]) with 8. change (bits [y]) with 8. rewrite (proj2 (Z.ltb_lt _ _)), !getBit_byte by lia. done.
    + destruct (Z.ltb_spec m (bits l)); [done|]. change (x :: a) with ([x] ++ a). change (y :: b) with ([y] ++ b).
      rewrite !getBit_app by lia. change (bits [x]) with 8. change (bits [y]) with 8.
      rewrite (proj2 (Z.ltb_lt _ _)), !getBit_byte by lia. apply Hsame. lia.
Qed.

(** ** The Z-order curve *)

Lemma land_mask b i : 0 <= i < 8 -> Z.land b (Z.shiftr 128 i) = Z.b2z (Z.testbit b (7 - i)) * 2 ^ (7 - i).
Proof.
  intros Hi. assert (Z.shiftr 128 i = 2 ^ (7 - i)) as ->.
  { rewrite Z.shiftr_div_pow2 by lia. change 128 with (2 ^ 7). rewrite <- Z.pow_sub_r by lia. done. }
  apply Z.bits_inj'. intros k Hk. rewrite Z.land_spec, Z.pow2_bits_eqb by lia. destruct (Z.eqb_spec (7 - i) k) as [<-|Hne].
  - rewrite andb_true_r. destruct (Z.testbit b (7 - i)); cbn [Z.b2z]; [rewrite Z.mul_1_l; by rewrite Z.pow2_bits_true by lia|].
    by rewrite Z.mul_0_l, Z.bits_0.
  - rewrite andb_false_r. destruct (Z.testbit b (7 - i)); cbn [Z.b2z]; [|by rewrite Z.mul_0_l, Z.bits_0].
    rewrite Z.mul_1_l. symmetry. apply Z.pow2_bits_false. lia.
Qed.

Lemma shift_bit_pow i k b : 0 <= i < 8 -> 0 <= k < 8 ->
  shift_bit (k - i) (Z.b2z b * 2 ^ (7 - i)) = Z.b2z b * 2 ^ (7 - k).
Proof.
  intros Hi Hk. unfold shift_bit. destruct (Z.leb_spec 0 (k - i)).
  - rewrite Z.shiftr_div_pow2 by lia. replace (7 - i) with (7 - k + (k - i)) by lia. rewrite Z.pow_add_r, Z.mul_assoc by lia.
    apply Z.div_mul. lia.
  - rewrite Z.shiftl_mul_pow2 by lia. rewrite <- Z.mul_assoc, <- Z.pow_add_r by lia. do 2 f_equal. lia.
Qed.

(** The effect of one round on the byte that is built. *)
Lemma put_bit acc cb i k m : is_byte acc -> 0 <= i < 8 -> 0 <= k < 8 -> 0 <= m < 8 ->
  Z.testbit (u8 (Z.lor acc (shift_bit (k - i) (Z.land cb (Z.shiftr 128 i))))) (7 - m) =
  Z.testbit acc (7 - m) || ((m =? k) && Z.testbit cb (7 - i)).
Proof.
  intros Ha Hi Hk Hm. unfold wrap. rewrite Z.mod_pow2_bits_low, Z.lor_spec, land_mask, shift_bit_pow by lia. f_equal.
  destruct (Z.testbit cb (7 - i)); cbn [Z.b2z]; [|by rewrite Z.mul_0_l, Z.bits_0, andb_false_r].
  rewrite Z.mul_1_l, Z.pow2_bits_eqb, andb_true_r by lia. destruct (Z.eqb_spec (7 - k) (7 - m)), (Z.eqb_spec m k); lia.
Qed.

Section Zcurve.
Variables (ps : list Prefix) (L : nat).
Let N := Z.of_nat (length ps).

(** All the prefixes have [L] bytes of content and of flags. *)
Definition padded (p : Prefix) : Prop :=
  length (content_ p) = L /\ length (flags_ p) = L /\ wf_bytes (content_ p) /\ wf_bytes (flags_ p).

Hypothesis Hps : Forall padded ps.
Hypothesis HN : 0 < N.

(** Bit [t] of the curve: bit [t / N] of prefix [t mod N]. *)
Definition curve (f : Prefix -> bytes) (t : Z) : bool :=
  getBit (f (nth (Z.to_nat (t mod N)) ps Prefix_default)) (t / N).

Lemma nth_ps t : exists p, ps !! Z.to_nat (t mod N) = Some p /\ nth (Z.to_nat (t mod N)) ps Prefix_default = p /\ padded p.
Proof using HN Hps.
  pose proof (Z.mod_pos_bound t N HN). destruct (lookup_lt_is_Some_2 ps (Z.to_nat (t mod N))) as [p Hp]; [lia|].
  exists p. split; [done|]. split; [by apply nth_lookup_Some|]. rewrite Forall_lookup in Hps. eauto.
Qed.

(** A round of the inner loop takes bit [8 N j + t] of the curve. *)
Lemma curve_byte f p j t : 0 <= j -> 0 <= t < 8 * N -> nth (Z.to_nat (t mod N)) ps Prefix_default = p ->
  Z.testbit (nth (Z.to_nat j) (f p) 0) (7 - t / N) = curve f (8 * N * j + t).
Proof using HN.
  intros Hj Ht Hp. unfold curve. replace (8 * N * j + t) with (t + (8 * j) * N) by lia.
  rewrite Z.mod_add, Z.div_add by lia. rewrite Hp. assert (0 <= t / N < 8).
  { split; [apply Z.div_pos; lia|apply Z.div_lt_upper_bound; lia]. }
  rewrite getBit_nth by lia.
  replace ((t / N + 8 * j) / 8) with j by (apply Z.div_unique with (r := t / N); lia).
  by replace ((t / N + 8 * j) mod 8) with (t / N) by (apply Z.mod_unique with (q := j); lia).
Qed.

Lemma next_position t : 0 <= t ->
  (t mod N + 1 = N -> (t + 1) mod N = 0 /\ (t + 1) / N = t / N + 1) /\
  (t mod N + 1 <> N -> (t + 1) mod N = t mod N + 1 /\ (t + 1) / N = t / N).
Proof using HN.
  intros Ht. pose proof (Z.div_mod t N ltac:(lia)). pose proof (Z.mod_pos_bound t N HN). split; intros H1; split; symmetry.
  - apply Z.mod_unique with (q := t / N + 1); lia.
  - apply Z.div_unique with (r := 0); lia.
  - apply Z.mod_unique with (q := t / N); lia.
  - apply Z.div_unique with (r := t mod N + 1); lia.
Qed.

(** The byte after some rounds from round [k]: the bits before are those of [acc]. *)
Definition filled (f : Prefix -> bytes) (j t k : Z) (acc b : Z) : Prop :=
  is_byte b /\ forall m, 0 <= m < 8 ->
    Z.testbit b (7 - m) = if m <? k then Z.testbit acc (7 - m) else curve f (8 * N * j + t + (m - k)).

Definition clear_from (k acc : Z) : Prop := is_byte acc /\ forall m, k <= m < 8 -> Z.testbit acc (7 - m) = false.

Lemma filled_step f p j t k acc b :
  0 <= j -> 0 <= k < 8 -> 0 <= t < 8 * N -> nth (Z.to_nat (t mod N)) ps Prefix_default = p -> clear_from k acc ->
  let acc' := u8 (Z.lor acc (shift_bit (k - t / N) (Z.land (nth (Z.to_nat j) (f p) 0) (Z.shiftr 128 (t / N))))) in
  clear_from (k + 1) acc' /\ (filled f j (t + 1) (k + 1) acc' b -> filled f j t k acc b).
Proof using HN.
  intros Hj Hk Ht Hp [Ha Hc] acc'. assert (0 <= t / N < 8).
  { split; [apply Z.div_pos; lia|apply Z.div_lt_upper_bound; lia]. }
  assert (forall m, 0 <= m < 8 -> Z.testbit acc' (7 - m) = Z.testbit acc (7 - m) || ((m =? k) && curve f (8 * N * j + t))) as Hput.
  { intros m Hm. unfold acc'. rewrite put_bit by (first [done|lia]). by rewrite (curve_byte f p j t) by (first [done|lia]). }
  split.
  - split; [apply u8_is_byte|]. intros m Hm. rewrite Hput, Hc by lia. destruct (Z.eqb_spec m k); [lia|done].
  - intros [Hb Hbits]. split; [done|]. intros m Hm. rewrite Hbits by done.
    destruct (Z.ltb_spec m (k + 1)), (Z.ltb_spec m k); try lia.
    + rewrite Hput by lia. destruct (Z.eqb_spec m k); [lia|]. by rewrite orb_false_r.
    + rewrite Hput by lia. assert (m = k) as -> by lia. rewrite Z.eqb_refl, Hc by lia. cbn. f_equal. lia.
    + f_equal. lia.
Qed.

Lemma zc_byte_spec j rounds k t flags content :
  0 <= j < Z.of_nat L -> k + Z.of_nat rounds = 8 -> 0 <= k -> 0 <= t -> t + Z.of_nat rounds <= 8 * N ->
  clear_from k flags -> clear_from k content ->
  exists f c, zc_byte ps j rounds k (t mod N) (t / N) (Z.shiftr 128 (t / N)) flags content =
      Ret ((t + Z.of_nat rounds) mod N, (t + Z.of_nat rounds) / N, Z.shiftr 128 ((t + Z.of_nat rounds) / N), f, c) /\
    filled flags_ j t k flags f /\ filled content_ j t k content c.
Proof using HN Hps.
  intros Hj. revert k t flags content. induction rounds as [|r IH]; intros k t flags content Hk Hk0 Ht0 Ht Hf Hc.
  - exists flags, content. cbn [zc_byte]. rewrite Z.add_0_r. split; [done|].
    split; (split; [by apply Hf || apply Hc|]); intros m Hm; by rewrite (proj2 (Z.ltb_lt _ _)) by lia.
  - cbn [zc_byte]. destruct (nth_ps t) as (p & Hl & Hn & Hlc & Hlf & _ & _). rewrite Hl. cbn [mbind outcome_bind].
    rewrite !vec_at_nth by (unfold len; lia). cbn [mbind outcome_bind].
    destruct (filled_step content_ p j t k content 0 ltac:(lia) ltac:(lia) ltac:(lia) Hn Hc) as [Hc' _].
    destruct (filled_step flags_ p j t k flags 0 ltac:(lia) ltac:(lia) ltac:(lia) Hn Hf) as [Hf' _].
    destruct (next_position t Ht0) as [Hwrap Hnext].
    destruct (IH (k + 1) (t + 1) _ _ ltac:(lia) ltac:(lia) ltac:(lia) ltac:(lia) Hf' Hc') as (f & c & Hrun & Hff & Hfc).
    exists f, c. replace (t + Z.of_nat (S r)) with (t + 1 + Z.of_nat r) by lia. fold N. split.
    + destruct (Z.eqb_spec (t mod N + 1) N) as [E|E].
      * destruct (Hwrap E) as [H1 H2]. rewrite H1, H2 in Hrun. rewrite Z.shiftr_shiftr by lia. exact Hrun.
      * destruct (Hnext E) as [H1 H2]. rewrite H1, H2 in Hrun. exact Hrun.
    + split; [eapply (filled_step flags_ p)|eapply (filled_step content_ p)]; eauto; lia.
Qed.

(** The output after [M] bytes. *)
Definition built (out : Prefix) (M : Z) : Prop :=
  size_ out = 8 * M /\ len (content_ out) = M /\ len (flags_ out) = M /\ wf_bytes (content_ out) /\ wf_bytes (flags_ out) /\
  forall t, 0 <= t < 8 * M -> getBit (content_ out) t = curve content_ t /\ getBit (flags_ out) t = curve flags_ t.

Lemma append_bits f l b j t M : len l = M -> M = N * j + t / 8 -> t mod 8 = 0 -> filled f j t 0 0 b ->
  (forall s, 0 <= s < 8 * M -> getBit l s = curve f s) -> forall s, 0 <= s < 8 * (M + 1) -> getBit (l ++ [b]) s = curve f s.
Proof using Type.
  intros Hl HM Ht [_ Hb] Hold s Hs. rewrite getBit_app, Hl by lia. destruct (Z.ltb_spec s (8 * M)); [apply Hold; lia|].
  rewrite getBit_byte, Hb by lia. destruct (Z.ltb_spec (s - 8 * M) 0); [lia|]. f_equal.
  pose proof (Z.div_mod t 8 ltac:(lia)). lia.
Qed.

Lemma clear_zero : clear_from 0 0.
Proof using Type. split; [done|]. intros m _. apply Z.bits_0. Qed.

Lemma zc_bits_spec j rounds r out :
  0 <= j < Z.of_nat L -> 0 <= r -> r + Z.of_nat rounds = N -> built out (N * j + r) ->
  exists out', zc_bits ps j rounds ((8 * r) mod N) ((8 * r) / N) (Z.shiftr 128 ((8 * r) / N)) out = Ret (Some (0, out')) /\
    built out' (N * (j + 1)).
Proof using HN Hps.
  intros Hj. revert r out. induction rounds as [|n IH]; intros r out Hr Hn Hout.
  - assert (r = N) as -> by lia. cbn [zc_bits]. rewrite Z.div_mul, Z.mod_mul by lia. cbn. exists out.
    split; [done|]. by replace (N * (j + 1)) with (N * j + N) by lia.
  - assert (8 * r / N < 8) by (apply Z.div_lt_upper_bound; lia). cbn [zc_bits]. rewrite (proj2 (Z.ltb_lt _ _)) by lia. cbn [negb].
    destruct (zc_byte_spec j 8 0 (8 * r) 0 0 Hj ltac:(lia) ltac:(lia) ltac:(lia) ltac:(lia) clear_zero clear_zero)
      as (f & c & -> & Hf & Hc). cbn [mbind outcome_bind]. change (Z.of_nat 8) with 8.
    replace (8 * r + 8) with (8 * (r + 1)) by lia.
    destruct (IH (r + 1) (mkPrefix (size_ out + 8) (flags_ out ++ [f]) (content_ out ++ [c])) ltac:(lia) ltac:(lia))
      as (out' & Hrun & Hout'); [|eauto].
    destruct Hout as (Hs & Hlc & Hlf & Hwc & Hwf & Hbits). unfold built. cbn [size_ content_ flags_]. rewrite !len_app.
    change (len [f]) with 1. change (len [c]) with 1.
    assert (N * j + r = N * j + 8 * r / 8) as Hdiv by (rewrite (Z.mul_comm 8), Z.div_mul by lia; lia).
    assert ((8 * r) mod 8 = 0) as Hmod by (rewrite Z.mul_comm; by apply Z.mod_mul).
    split_and!; [lia|lia|lia|apply Forall_app; split; [done|repeat constructor; apply Hc]|apply Forall_app; split; [done|repeat constructor; apply Hf]|].
    intros t Ht. rewrite Z.add_assoc in Ht. split.
    + apply (append_bits content_ _ _ j (8 * r) (N * j + r)); try done. intros s Hs'. by apply Hbits.
    + apply (append_bits flags_ _ _ j (8 * r) (N * j + r)); try done. intros s Hs'. by apply Hbits.
Qed.

Lemma zc_bytes_spec todo j out :
  0 <= j -> j + Z.of_nat todo = Z.of_nat L -> built out (N * j) ->
  exists out', zc_bytes ps todo j 0 out = Ret (Some out') /\ built out' (N * Z.of_nat L).
Proof using HN Hps.
  revert j out. induction todo as [|n IH]; intros j out Hj Hn Hout; cbn [zc_bytes].
  - exists out. split; [done|]. by replace (Z.of_nat L) with j by lia.
  - destruct (zc_bits_spec j (length ps) 0 out ltac:(lia) ltac:(lia) ltac:(unfold N; lia)) as (out' & Hrun & Hout').
    { by rewrite Z.add_0_r. }
    rewrite Z.mul_0_r, Z.mod_0_l, Z.div_0_l in Hrun by lia. change (Z.shiftr 128 0) with 128 in Hrun. rewrite Hrun. cbn [mbind outcome_bind].
    apply IH; [lia..|]. done.
Qed.

Lemma built_nil : built Prefix_default 0.
Proof using Type. unfold built. cbn. split_and!; try done. intros; lia. Qed.
End Zcurve.

Lemma zcurve_built ps L : Forall (padded L) ps -> (2 <= length ps)%nat ->
  exists out, zcurve ps = Ret (Some out) /\ built ps out (Z.of_nat (length ps) * Z.of_nat L).
Proof.
  intros Hps H2.
  destruct (zc_bytes_spec ps L Hps ltac:(lia) L 0 Prefix_default ltac:(lia) ltac:(lia)) as (out & Hrun & Hb).
  { rewrite Z.mul_0_r. apply built_nil. }
  exists out. split; [|done]. destruct ps as [|p0 [|p1 rest]]; [cbn in H2; lia..|]. cbn [zcurve].
  assert (length (content_ p0) = L) as -> by (inversion_clear Hps as [|? ? Hp0]; apply Hp0). done.
Qed.

(** [zcurve] interleaves: from [n] prefixes of [L] bytes it makes one of [n L] bytes
    whose bit [t] is bit [t / n] of the prefix [t mod n], for the content and for the
    flags, whatever the number of prefixes; every loop ends. *)
Theorem zcurve_interleaves ps L :
  Forall (padded L) ps -> (2 <= length ps)%nat ->
  exists p, zcurve ps = Ret (Some p) /\ size_ p = 8 * (Z.of_nat (length ps) * Z.of_nat L) /\
    len (content_ p) = Z.of_nat (length ps) * Z.of_nat L /\ len (flags_ p) = Z.of_nat (length ps) * Z.of_nat L /\
    forall t, 0 <= t < size_ p ->
      let q := nth (Z.to_nat (t mod Z.of_nat (length ps))) ps Prefix_default in
      getBit (content_ p) t = getBit (content_ q) (t / Z.of_nat (length ps)) /\
      getBit (flags_ p) t = getBit (flags_ q) (t / Z.of_nat (length ps)).
Proof.
  intros Hps H2. destruct (zcurve_built ps L Hps H2) as (p & Hp & Hs & Hc & Hf & _ & _ & Hb).
  exists p. rewrite Hs. split_and!; try done.
Qed.

(** ** Keys *)

(** The content of a padded field: the data, a one, and zeroes. *)
Definition pad (max : Z) (d : bytes) : bytes := d ++ 128 :: replicate (Z.to_nat (max - len d - 1)) 0.

Lemma pad_field max d : wf_bytes d -> len d < max -> 8 * max < 2 ^ 63 ->
  addPaddingContent (Prefix_of_blob d []) max = Ret (mkPrefix (bits d) [] (pad max d)).
Proof.
  intros Hd Hlt Hmax. unfold addPaddingContent, addPadding, swapBit. cbn [size_ content_ flags_ Prefix_of_blob].
  pose proof (len_nonneg d). rewrite wrap_small by lia.
  set (v := d ++ replicate (Z.to_nat (max - len d)) 0).
  assert (len v = max) as Hv by (unfold v; rewrite len_app; unfold len in *; rewrite length_replicate; lia).
  rewrite Hv, (proj2 (Z.leb_gt _ _)) by lia.
  replace ((bits d + 1) / 8) with (len d) by (apply Z.div_unique with (r := 1); lia).
  rewrite u64_mod8. replace ((8 - (bits d + 1)) mod 8) with 7 by (apply Z.mod_unique with (q := - len d); lia).
  rewrite vec_at_nth by lia.
  assert (v = d ++ 0 :: replicate (Z.to_nat (max - len d - 1)) 0) as Hv'.
  { unfold v. f_equal. change (0 :: replicate (Z.to_nat (max - len d - 1)) 0) with (replicate (S (Z.to_nat (max - len d - 1))) 0).
    f_equal. lia. }
  rewrite Hv', nth_middle_Z, Z.eqb_refl by lia. cbn [mbind outcome_bind].
  replace (Z.to_nat (len d)) with (length d) by (unfold len; lia).
  do 2 f_equal. unfold pad. rewrite insert_app_r_alt, Nat.sub_diag by lia. done.
Qed.

Lemma len_pad max d : len d < max -> len (pad max d) = max.
Proof.
  intros H. unfold pad. rewrite len_app. unfold len in *. cbn [length]. rewrite length_replicate. lia.
Qed.

Lemma pad_wf max d : wf_bytes d -> wf_bytes (pad max d).
Proof.
  intros H. apply Forall_app. split; [done|]. constructor; [done|]. apply Forall_replicate. done.
Qed.

Lemma zeros_prefix (a b : bytes) n m : a ++ 128 :: replicate n 0 = b ++ 128 :: replicate m 0 -> a = b.
Proof.
  revert b. induction a as [|x a IH]; intros [|y b] H; [done|..]; cbn in H; injection H as E H.
  - destruct n as [|n]; [by destruct b|]. exfalso. assert (128 ∈ replicate (S n) 0) as H1 by (rewrite H; set_solver).
    by apply elem_of_replicate in H1 as [? _].
  - destruct m as [|m]; [by destruct a|]. exfalso. assert (128 ∈ replicate (S m) 0) as H1 by (rewrite <- H; set_solver).
    by apply elem_of_replicate in H1 as [? _].
  - f_equal; [done|eauto].
Qed.

Lemma pad_inj max d d' : pad max d = pad max d' -> d = d'.
Proof. apply zeros_prefix. Qed.

(** The flags of a padded field are all set. *)
Lemma updateFlags_pad max d : wf_bytes d -> len d < max -> 8 * max < 2 ^ 63 ->
  updateFlags (mkPrefix (bits d) [] (pad max d)) = mkPrefix (bits d) (replicate (Z.to_nat max) 255) (pad max d).
Proof.
  intros Hd Hlt Hmax. unfold updateFlags. cbn [size_ content_ flags_]. pose proof (len_nonneg d).
  change (bits []) with 0. rewrite Z.sub_0_r, wrap_small by lia.
  rewrite (Z.mul_comm 8), Z.mod_mul, Z.div_mul by lia. change (0 =? 0) with true. cbn match. rewrite app_nil_l, len_pad by done.
  f_equal. rewrite <- replicate_add. f_equal. unfold len in *. rewrite length_replicate. lia.
Qed.

Definition padded_key (max : Z) (d : bytes) : Prefix := mkPrefix (bits d) (replicate (Z.to_nat max) 255) (pad max d).

Definition wf_key (k : Key) : Prop := Forall (fun e => wf_bytes e.2) k.

Lemma pad_all_spec max k : wf_key k -> Forall (fun e => len e.2 < max) k -> 8 * max < 2 ^ 63 ->
  pad_all max k = Ret (map (fun e => padded_key max e.2) k).
Proof.
  intros Hk Hlt Hmax. induction k as [|[n d] k IH]; [done|]. apply Forall_cons in Hk as [Hd Hk]. apply Forall_cons in Hlt as [Hl Hlt].
  cbn [pad_all map]. rewrite pad_field by done. cbn [mbind outcome_bind]. rewrite IH by done. cbn [mbind outcome_bind].
  by rewrite updateFlags_pad.
Qed.

Lemma padded_key_padded max d : wf_bytes d -> len d < max -> padded (Z.to_nat max) (padded_key max d).
Proof.
  intros Hd Hlt. unfold padded, padded_key. cbn [content_ flags_]. split_and!.
  - pose proof (len_pad max d Hlt) as H. unfold len in *. lia.
  - apply length_replicate.
  - by apply pad_wf.
  - apply Forall_replicate. done.
Qed.

(** The largest size of the specification. *)
Lemma max_size_spec spec : spec <> [] ->
  exists m, max_size spec = Ret m /\ Forall (fun e => e.2 <= m) spec /\ exists e, e ∈ spec /\ e.2 = m.
Proof.
  destruct spec as [|[n s] spec]; [done|]. intros _. cbn [max_size]. eexists. split; [done|]. cut (
    let m := fold_left (fun m e => if m <? e.2 then e.2 else m) spec s in
    s <= m /\ Forall (fun e => e.2 <= m) spec /\ (m = s \/ exists e, e ∈ spec /\ e.2 = m)).
  { intros (H1 & H2 & H3). split; [by constructor|]. destruct H3 as [->|(e & He & <-)]; [exists (n, s)|exists e]; split; set_solver. }
  clear n. revert s. induction spec as [|[n t] spec IH]; intros s; cbn; [auto with lia|].
  destruct (IH (if s <? t then t else s)) as (H1 & H2 & H3). destruct (Z.ltb_spec s t).
  - split; [lia|]. split; [by constructor|]. destruct H3 as [->|(e & He & <-)]; [right; exists (n, t)|right; exists e]; split; set_solver.
  - split; [lia|]. split; [constructor; [cbn; lia|done]|]. destruct H3 as [->|(e & He & <-)]; [by left|right; exists e]; split; set_solver.
Qed.

Definition wf_spec (spec : KeySpec) : Prop := spec <> [] /\ Forall (fun e => 0 <= e.2 /\ 8 * (e.2 + 1) < 2 ^ 63) spec.

Lemma key_matches_fields k spec m : key_matches k spec = true -> length k = length spec -> Forall (fun e => e.2 <= m) spec ->
  map fst k = map fst spec /\ Forall (fun e => len e.2 < m + 1) k.
Proof.
  revert spec. induction k as [|[n d] k IH]; intros [|[n' s] spec] H Hl Hs; try done. cbn in H. zb.
  apply bool_decide_eq_true_1 in H as ->. injection Hl as Hl. apply Forall_cons in Hs as [Hs Hss].
  destruct (IH spec ltac:(done) Hl Hss) as [Hn1 Hn2]. cbn. split; [by f_equal|]. constructor; [cbn in *; lia|done].
Qed.

Lemma linearize_pads spec k : wf_spec spec -> wf_key k -> validKey spec k = true ->
  exists max, max_size spec = Ret max /\ linearize spec k = zcurve (map (fun e => padded_key (max + 1) e.2) k) /\
    map fst k = map fst spec /\ Forall (padded (Z.to_nat (max + 1))) (map (fun e => padded_key (max + 1) e.2) k) /\
    Forall (fun e => len e.2 < max + 1) k /\ length k = length spec.
Proof.
  intros [Hne Hspec] Hk Hv. unfold linearize. rewrite Hv. cbn [negb].
  destruct (max_size_spec spec Hne) as (m & Hm & Hle & (e & He & Hem)). exists m.
  unfold validKey in Hv. apply andb_true_iff in Hv as [Hl Hv]. apply Nat.eqb_eq in Hl.
  destruct (key_matches_fields k spec m Hv Hl Hle) as [Hnames Hlt].
  rewrite Forall_forall in Hspec. specialize (Hspec e He). rewrite Hm. cbn [mbind outcome_bind].
  rewrite wrap_small, pad_all_spec by (first [done|lia]). split_and!; try done.
  apply Forall_map. unfold wf_key in Hk. rewrite Forall_forall in Hk, Hlt |- *. intros x Hx. apply padded_key_padded; [by apply Hk|by apply Hlt].
Qed.

(** Content of the linearized key: the bits of the fields in turn. *)
Lemma linearize_bits spec k : wf_spec spec -> wf_key k -> validKey spec k = true ->
  exists max p, max_size spec = Ret max /\ linearize spec k = Ret (Some p) /\ wf_bytes (content_ p) /\
    length (content_ p) = (length spec * Z.to_nat (max + 1))%nat /\ map fst k = map fst spec /\
    Forall (fun e => len e.2 < max + 1) k /\ length k = length spec /\
    forall i b, (i < length spec)%nat -> 0 <= b < 8 * (max + 1) ->
      getBit (content_ p) (Z.of_nat i + b * Z.of_nat (length spec)) = getBit (pad (max + 1) (nth i (map snd k) [])) b.
Proof.
  intros Hspec Hk Hv. destruct (linearize_pads spec k Hspec Hk Hv) as (max & Hm & -> & Hn & Hp & Hlt & Hl).
  exists max. assert (forall i, (i < length spec)%nat -> content_ (nth i (map (fun e => padded_key (max + 1) e.2) k) Prefix_default) =
                                  pad (max + 1) (nth i (map snd k) [])) as Hnth.
  { intros i Hi. rewrite (nth_indep _ _ (padded_key (max + 1) [])) by (rewrite length_map; lia).
    rewrite <- (map_map snd (padded_key (max + 1))), map_nth. done. }
  destruct (decide (length spec = 1)%nat) as [H1|H1].
  - destruct k as [|[n d] [|]]; cbn in Hl; try lia. cbn [map zcurve]. eexists. split; [done|]. split; [done|].
    inversion_clear Hp as [|? ? (Hpl & _ & Hpw & _) _]. split; [done|]. rewrite H1. split; [etrans; [exact Hpl|lia]|]. split_and!; try done.
    intros i b Hi Hb. assert (i = 0)%nat as -> by lia. cbn. f_equal. lia.
  - destruct Hspec as [Hne _]. assert (length spec <> 0)%nat by (by destruct spec).
    destruct (zcurve_built _ _ Hp) as (p & -> & Hs & Hc & _ & Hw & _ & Hbits); [rewrite length_map; lia|].
    rewrite length_map, Hl in *. exists p. split_and!; try done; [unfold len in Hc; lia|]. intros i b Hi Hb.
    destruct (Hbits (Z.of_nat i + b * Z.of_nat (length spec))) as [-> _].
    { destruct Hnth with (i := i); [lia|]. nia. }
    unfold curve. rewrite length_map, Hl, Z.mod_add, Z.div_add, Z.mod_small, Z.div_small, Nat2Z.id, Z.add_0_l by lia. by rewrite Hnth.
Qed.

(** C34. Linearizing a valid key succeeds, and two valid keys give the same content only
    when they are the same key, fields of different lengths included: the exact match
    of a lookup, which compares contents, is a match of keys. *)
Theorem linearize_injective spec k k' :
  wf_spec spec -> wf_key k -> wf_key k' -> validKey spec k = true -> validKey spec k' = true ->
  exists p p', linearize spec k = Ret (Some p) /\ linearize spec k' = Ret (Some p') /\
    length (content_ p) = length (content_ p') /\ (content_ p = content_ p' <-> k = k').
Proof.
  intros Hs Hk Hk' Hv Hv'.
  destruct (linearize_bits spec k Hs Hk Hv) as (m & p & Hm & Hp & Hw & Hl & Hn & Hlt & Hlk & Hb).
  destruct (linearize_bits spec k' Hs Hk' Hv') as (m' & p' & Hm' & Hp' & Hw' & Hl' & Hn' & Hlt' & Hlk' & Hb').
  assert (m' = m) as -> by congruence. exists p, p'. split; [done|]. split; [done|]. split; [lia|].
  split; [|intros ->; congruence]. intros Hc.
  enough (map snd k = map snd k') as Hsnd.
  { clear - Hn Hn' Hsnd. rewrite <- Hn in Hn'. clear Hn. revert k' Hn' Hsnd. induction k as [|[a b] k IH]; intros [|[c d] k'] H1 H2; try done.
    cbn in H1, H2. injection H1 as -> H1. injection H2 as -> H2. f_equal. by apply IH. }
  apply nth_ext with (d := []) (d' := []); rewrite !length_map; [lia|]. intros i Hi. apply (pad_inj (m + 1)).
  assert (forall k0, length k0 = length spec -> Forall (fun e => len e.2 < m + 1) k0 -> wf_key k0 ->
            len (nth i (map snd k0) []) < m + 1 /\ wf_bytes (nth i (map snd k0) [])) as Hfield.
  { intros k0 Hl0 Hlt0 Hw0. rewrite (nth_indep _ _ (snd (([], []) : bytes * bytes))), map_nth by (rewrite length_map; lia).
    unfold wf_key in Hw0. rewrite Forall_forall in Hlt0, Hw0.
    assert (nth i k0 ([], []) ∈ k0) as Hin by (apply list_elem_of_In, nth_In; lia). auto. }
  destruct (Hfield k Hlk Hlt Hk) as [? ?]. destruct (Hfield k' Hlk' Hlt' Hk') as [? ?].
  apply bytes_bits_inj; [by apply pad_wf..| |].
  - pose proof (len_pad (m + 1) (nth i (map snd k) [])). pose proof (len_pad (m + 1) (nth i (map snd k') [])). unfold len in *. lia.
  - intros b Hbb. rewrite len_pad in Hbb by done. rewrite <- Hb, <- Hb' by lia. by rewrite Hc.
Qed.

(** ** Split points *)

Lemma isContentBitActive_bit p i : 0 <= i < bits (content_ p) -> isContentBitActive p i = Ret (getBit (content_ p) i).
Proof.
  intros Hi. unfold isContentBitActive, isActiveBit. rewrite (proj2 (Z.leb_gt _ _)) by lia.
  rewrite vec_at_nth by (by apply div8_len). cbn [mbind outcome_bind]. f_equal. rewrite getBit_nth by lia.
  pose proof (Z.mod_pos_bound i 8 ltac:(lia)). set (x := nth _ _ _). rewrite (Z.land_ones _ 1) by lia.
  replace (Z.testbit x (7 - i mod 8)) with (Z.testbit (Z.shiftr x (7 - i mod 8)) 0) by (rewrite Z.shiftr_spec by lia; f_equal; lia).
  rewrite Z.bit0_odd. change (2 ^ 1) with 2. rewrite Zmod_odd. by destruct (Z.odd _).
Qed.

Definition agrees (c : Prefix) (i : Z) (v : bytes) : Prop := getBit v i = getBit (content_ c) i.

Lemma diverges_spec c i vals : 0 <= i < bits (content_ c) -> Forall (fun v => length v = length (content_ c)) vals ->
  (diverges c i vals = Ret false /\ Forall (agrees c i) vals) \/
  (diverges c i vals = Ret true /\ exists v, v ∈ vals /\ ~ agrees c i v).
Proof.
  intros Hi Hv. induction Hv as [|v vals Hl Hv IH]; [by left|]. cbn [diverges].
  rewrite (isContentBitActive_bit (Prefix_of_blob v [])) by (cbn; unfold len in *; lia). cbn [mbind outcome_bind].
  rewrite (isContentBitActive_bit c) by done. cbn [mbind outcome_bind Prefix_of_blob content_].
  destruct (eqb (getBit v i) (getBit (content_ c) i)) eqn:E; cbn [negb].
  - apply eqb_prop in E. destruct IH as [[-> ?]|[-> (w & ? & ?)]]; [left|right]; split; try done; [by constructor|].
    exists w. split; [by right|done].
  - right. split; [done|]. exists v. split; [by left|]. intros H. rewrite H, eqb_reflx in E. done.
Qed.

Lemma split_loop_spec c vals n i :
  0 <= i -> i + Z.of_nat n = bits (content_ c) - 1 -> Forall (fun v => length v = length (content_ c)) vals ->
  exists loc, split_loop c vals n i = Ret loc /\ i <= loc <= bits (content_ c) - 1 /\
    (forall m, i <= m < loc - 1 -> Forall (agrees c m) vals) /\
    ((i < loc /\ exists v, v ∈ vals /\ ~ agrees c (loc - 1) v) \/
     (loc = bits (content_ c) - 1 /\ forall m, i <= m < loc -> Forall (agrees c m) vals)).
Proof.
  intros Hi Hn Hv. revert i Hi Hn. induction n as [|n IH]; intros i Hi Hn; cbn [split_loop].
  - eexists. split; [done|]. split; [lia|]. split; [intros; lia|]. right. split; [done|]. intros; lia.
  - destruct (diverges_spec c i vals ltac:(lia) Hv) as [[-> Hall]|[-> Hex]]; cbn [mbind outcome_bind].
    + destruct (IH (i + 1) ltac:(lia) ltac:(lia)) as (loc & -> & Hr & Hb & Hc). exists loc. split; [done|]. split; [lia|]. split.
      * intros m Hm. destruct (decide (m = i)) as [->|]; [done|]. apply Hb. lia.
      * destruct Hc as [[Hlt Hc]|[-> Hc]]; [left; split; [lia|done]|right]. split; [done|]. intros m Hm.
        destruct (decide (m = i)) as [->|]; [done|]. apply Hc. lia.
    + exists (i + 1). split; [done|]. split; [lia|]. split; [intros; lia|]. left. split; [lia|].
      by replace (i + 1 - 1) with i by lia.
Qed.

(** [findSplitLocation] gives the number of bits after which the compared key is told
    apart from one of the entries (one bit more than what it shares with all of them),
    and one bit less than the whole when no entry differs before. *)
Theorem findSplitLocation_spec c vals :
  content_ c <> [] -> Forall (fun v => length v = length (content_ c)) vals ->
  exists loc, findSplitLocation c vals = Ret loc /\ 0 <= loc <= bits (content_ c) - 1 /\
    (forall m, 0 <= m < loc - 1 -> Forall (agrees c m) vals) /\
    ((0 < loc /\ exists v, v ∈ vals /\ ~ agrees c (loc - 1) v) \/
     (loc = bits (content_ c) - 1 /\ forall m, 0 <= m < loc -> Forall (agrees c m) vals)).
Proof.
  intros Hne Hv. unfold findSplitLocation. assert (1 <= len (content_ c)) by (unfold len; destruct (content_ c); [done|cbn; lia]).
  destruct (split_loop_spec c vals (Z.to_nat (bits (content_ c) - 1)) 0 ltac:(lia) ltac:(lia) Hv) as (loc & Hl & H').
  exists loc. split; [|done]. by destruct (content_ c).
Qed.

Module PrefixDemo.
Definition spec : KeySpec := [(str "a", 1); (str "b", 2)].
Definition key : Key := [(str "a", [255]); (str "b", [])].
Definition other : Key := [(str "a", []); (str "b", [7; 0])].
Definition nine : Prefix := mkPrefix 9 [] [1; 128; 3].
Definition p1 : Prefix := Prefix_of_blob [1; 2] [].
Definition p2 : Prefix := Prefix_of_blob [1; 6] [].

Lemma blob_wf d : wf_bytes d -> bits d < 2 ^ 63 -> wf_prefix (Prefix_of_blob d []).
Proof. intros. unfold wf_prefix. cbn. pose proof (len_nonneg d). split_and!; first [done|by left|lia|constructor]. Qed.

Lemma blob_known d : known (Prefix_of_blob d []).
Proof. done. Qed.
End PrefixDemo.

Lemma label_identifies_witness : exists a b, getPrefix PrefixDemo.p1 14 = Ret a /\ getPrefix PrefixDemo.p2 13 = Ret b /\ label a <> label b.
Proof.
  destruct (label_identifies PrefixDemo.p1 PrefixDemo.p2 14 13) as (a & b & Ha & Hb & H).
  - apply PrefixDemo.blob_wf; [by_compute|done].
  - apply PrefixDemo.blob_wf; [by_compute|done].
  - by_compute.
  - by_compute.
  - exists a, b. split; [done|]. split; [done|]. intros E. apply H in E as [? _]. lia.
Defined.

Lemma getSibling_not_sibling_witness : exists s, getSibling PrefixDemo.nine = Ret s /\ getBit (content_ s) 8 = getBit (content_ PrefixDemo.nine) 8.
Proof.
  destruct (getSibling_not_sibling PrefixDemo.nine) as (s & H1 & _ & H2 & _); [|by_compute|by exists s].
  unfold wf_prefix. cbn. repeat split; first [by_compute|by left|idtac].
Defined.

Lemma commonBits_keys_witness : exists r, prefix_commonBits PrefixDemo.p1 PrefixDemo.p2 = Ret (Some r) /\ 0 <= r < 16.
Proof.
  pose proof (commonBits_keys PrefixDemo.p1 PrefixDemo.p2 ltac:(apply PrefixDemo.blob_wf; [by_compute|done])
    ltac:(apply PrefixDemo.blob_wf; [by_compute|done]) (PrefixDemo.blob_known _) (PrefixDemo.blob_known _) eq_refl ltac:(by_compute) ltac:(by_compute)) as H.
  destruct (decide _) as [E|_]; [discriminate E|]. destruct H as (r & H1 & H2 & _). exists r. split; [exact H1|exact H2].
Defined.

Lemma zcurve_interleaves_witness : exists p, zcurve [padded_key 2 [255]; padded_key 2 []] = Ret (Some p) /\ size_ p = 32.
Proof.
  destruct (zcurve_interleaves [padded_key 2 [255]; padded_key 2 []] 2) as (p & H1 & H2 & _).
  - constructor; [|constructor; [|constructor]]; apply (padded_key_padded 2); [by_compute|by_compute|constructor|by_compute].
  - by_compute.
  - exists p. split; [exact H1|exact H2].
Defined.

Lemma linearize_injective_witness : exists p p', linearize PrefixDemo.spec PrefixDemo.key = Ret (Some p) /\
  linearize PrefixDemo.spec PrefixDemo.other = Ret (Some p') /\ content_ p <> content_ p'.
Proof.
  destruct (linearize_injective PrefixDemo.spec PrefixDemo.key PrefixDemo.other) as (p & p' & H1 & H2 & _ & H3).
  - split; [done|]. repeat constructor; by_compute.
  - repeat constructor; by_compute.
  - repeat constructor; by_compute.
  - reflexivity.
  - reflexivity.
  - exists p, p'. split; [done|]. split; [done|]. intros E. apply H3 in E. discriminate E.
Defined.

Lemma findSplitLocation_spec_witness : exists loc, findSplitLocation PrefixDemo.p1 [[1; 6]] = Ret loc /\ 0 <= loc <= 15.
Proof.
  destruct (findSplitLocation_spec PrefixDemo.p1 [[1; 6]]) as (loc & H1 & H2 & _); [done|by constructor|].
  exists loc. split; [exact H1|exact H2].
Defined.
