(* ===== verification/PhtCache.v ===== *)
(** * PhtCache: the cache of the prefix hash tree

    Models [class Pht::Cache] (src/opendht-2.1.4/include/opendht/indexation/pht.h and
    src/indexation/pht.cpp): a binary tree whose nodes own their parents and only know
    their children weakly, so that the tree lives as long as the leaves the multimap
    [leaves_] holds.  Nodes are cells of a heap that only grows, an address is an index;
    a weak pointer can be locked while its node is an ancestor of a node that is owned. *)
From S2P Require Import Prelude StdMap InfoHash MsgPack Prefix.

Definition NODE_EXPIRE_TIME : Z := 5 * 60 * 10 ^ 9.
Definition MAX_ELEMENT : nat := 1024.

(** [struct Node]. *)
Record PNode := mkPN {
  last_reply : Z;
  parent : option nat;
  left_child : option nat;
  right_child : option nat;
}.
Definition PNode_make : PNode := mkPN 0 None None None.

Definition set_last (t : Z) (x : PNode) : PNode := mkPN t (parent x) (left_child x) (right_child x).
Definition set_parent (q : nat) (x : PNode) : PNode := mkPN (last_reply x) (Some q) (left_child x) (right_child x).

(** [bit ? right_child : left_child]. *)
Definition child (b : bool) (x : PNode) : option nat := if b then right_child x else left_child x.
Definition set_child (b : bool) (n : nat) (x : PNode) : PNode :=
  if b then mkPN (last_reply x) (parent x) (left_child x) (Some n)
  else mkPN (last_reply x) (parent x) (Some n) (right_child x).

(** The members of [Cache], with the heap of nodes. *)
Record Cache := mkCache {
  heap : list PNode;
  root_ : option nat;
  leaves_ : list (Z * option nat);
}.
Definition Cache_make : Cache := mkCache [] None [].

(** ** Ownership *)

(** A node and its ancestors.  A parent is older than its children, so [n] steps reach the
    root from the address [n]. *)
Fixpoint chain (h : list PNode) (fuel n : nat) : list nat :=
  n :: match fuel with
       | O => []
       | S fuel' => match h !! n with
                    | Some x => match parent x with Some q => chain h fuel' q | None => [] end
                    | None => []
                    end
       end.

(** What the shared pointers [owners] keep alive. *)
Definition owned (h : list PNode) (owners : list (option nat)) : list nat :=
  concat (map (fun o => match o with Some n => chain h n n | None => [] end) owners).

(** [w.lock()]. *)
Definition lock (h : list PNode) (owners : list (option nat)) (w : option nat) : option nat :=
  match w with
  | Some n => if bool_decide (n ∈ owned h owners) then Some n else None
  | None => None
  end.

Definition update (n : nat) (f : PNode -> PNode) (h : list PNode) : list PNode :=
  match h !! n with Some x => <[n := f x]> h | None => h end.

(** ** [Cache::insert] *)

(** The leaves that are too old, or too many, are erased from the front. *)
Fixpoint expire_leaves (now : Z) (max : option nat) (ls : list (Z * option nat)) : list (Z * option nat) :=
  match ls with
  | [] => []
  | (t, o) :: ls' =>
      if (t + NODE_EXPIRE_TIME <? now) || match max with Some m => (m <? length ls)%nat | None => false end
      then expire_leaves now max ls' else ls
  end.

(** The descent along the bits of the prefix from [i] on, [todo] of them. *)
Fixpoint insert_loop (p : Prefix) (now : Z) (owners : list (option nat)) (todo : nat) (i : Z) (curr : nat) (h : list PNode) :
    outcome (nat * list PNode) :=
  match todo with
  | O => Ret (curr, h)
  | S todo' =>
      b ← isContentBitActive p i;
      let w := match h !! curr with Some x => child b x | None => None end in
      let '(curr', h') :=
        match lock h (Some curr :: owners) w with
        | Some n => (n, h)
        | None => let n := length h in (n, update curr (set_child b n) (h ++ [set_parent curr PNode_make]))
        end in
      insert_loop p now owners todo' (i + 1) curr' (update curr' (set_last now) h')
  end.

Definition cache_insert (p : Prefix) (now : Z) (c : Cache) : outcome Cache :=
  let ls := expire_leaves now (Some MAX_ELEMENT) (leaves_ c) in
  let owners := map snd ls in
  let '(curr, h, r) :=
    match lock (heap c) owners (root_ c) with
    | Some n => (n, heap c, root_ c)
    | None => (length (heap c), heap c ++ [PNode_make], Some (length (heap c)))
    end in
  '(leaf, h') ← insert_loop p now owners (Z.to_nat (size_ p)) 0 curr (update curr (set_last now) h);
  Ret (mkCache h' r (mm_insert Z.ltb now (Some leaf) ls)).

(** ** [Cache::lookup] *)

(** [leaves_.find(t)] and its erasure: the first leaf with that time. *)
Fixpoint erase_time {A} (t : Z) (ls : list (Z * A)) : list (Z * A) :=
  match ls with
  | [] => []
  | e :: ls' => if e.1 =? t then ls' else e :: erase_time t ls'
  end.

(** The descent; [n] is the number of bits of the content left, at [pos + 1] the loop
    stops when none is. *)
Fixpoint lookup_loop (p : Prefix) (now : Z) (owners : list (option nat)) (n : nat) (pos : Z) (next curr : option nat) (last : Z) (h : list PNode) :
    outcome (Z * option nat * Z * list PNode) :=
  match lock h (curr :: owners) next with
  | None => Ret (pos, curr, last, h)
  | Some c =>
      match n with
      | O => Ret (pos + 1, curr, last, h)
      | S n' =>
          let last' := match h !! c with Some x => last_reply x | None => 0 end in
          let h' := update c (set_last now) h in
          b ← isContentBitActive p (pos + 1);
          lookup_loop p now owners n' (pos + 1) (match h' !! c with Some x => child b x | None => None end) (Some c) last' h'
      end
  end.

Definition cache_lookup (p : Prefix) (now : Z) (c : Cache) : outcome (Z * Cache) :=
  let ls := expire_leaves now None (leaves_ c) in
  '(pos, curr, last, h) ← lookup_loop p now (map snd ls) (Z.to_nat (bits (content_ p))) (-1) (root_ c) None now (heap c);
  Ret (pos, mkCache h (root_ c) (if 0 <=? pos then mm_insert Z.ltb now curr (erase_time last ls) else ls)).

(** ** The tree

    [at_path h r n bs]: the node [n] hangs at the end of the path [bs] from the root [r]. *)

Inductive at_path (h : list PNode) (r : option nat) : nat -> list bool -> Prop :=
| at_root n x : r = Some n -> h !! n = Some x -> parent x = None -> at_path h r n []
| at_child q n bs b x y : at_path h r q bs -> h !! q = Some x -> child b x = Some n ->
    h !! n = Some y -> parent y = Some q -> at_path h r n (bs ++ [b]).

(** The shape of the heap: parents are older, a child knows its parent, the two
    children of a node differ, and the root has no parent. *)
Record shape (h : list PNode) (r : option nat) : Prop := {
  older n x q : h !! n = Some x -> parent x = Some q -> (q < n)%nat;
  knows q x b n : h !! q = Some x -> child b x = Some n -> exists y, h !! n = Some y /\ parent y = Some q;
  two q x n : h !! q = Some x -> child true x = Some n -> child false x = Some n -> False;
  rooted n : r = Some n -> exists x, h !! n = Some x /\ parent x = None;
}.

Section Shape.
Context (h : list PNode) (r : option nat).

Lemma at_path_alloc n bs : at_path h r n bs -> is_Some (h !! n).
Proof. destruct 1; eauto. Qed.

Lemma at_nil_inv n : at_path h r n [] -> r = Some n.
Proof. intros H. inversion H as [|q n' bs b]; subst; [done|]. by destruct bs. Qed.

Lemma at_snoc_inv n bs b : at_path h r n (bs ++ [b]) ->
  exists q x y, at_path h r q bs /\ h !! q = Some x /\ child b x = Some n /\ h !! n = Some y /\ parent y = Some q.
Proof.
  intros H. remember (bs ++ [b]) as l eqn:E. destruct H as [|q n bs' b' x y Hq Hx Hc Hy Hp]; [by destruct bs|].
  apply app_inj_tail in E as [-> ->]. by exists q, x, y.
Qed.

(** A path leads to one node, and a node is on one path. *)
Lemma at_path_node n n' bs : at_path h r n bs -> at_path h r n' bs -> n = n'.
Proof.
  revert n n'. induction bs as [|b bs IH] using rev_ind; intros n n' H H'.
  - apply at_nil_inv in H, H'. congruence.
  - apply at_snoc_inv in H as (q & x & y & Hq & Hx & Hc & _). apply at_snoc_inv in H' as (q' & x' & y' & Hq' & Hx' & Hc' & _).
    rewrite (IH _ _ Hq Hq') in Hx. congruence.
Qed.

Lemma at_path_unique n bs bs' : shape h r -> at_path h r n bs -> at_path h r n bs' -> bs = bs'.
Proof.
  intros Hs H. revert bs'. induction H as [n x Hr Hx Hp|q n bs b x y Hq IH Hx Hc Hy Hp]; intros bs' H'.
  - destruct H' as [|q' n bs0 b' x' y' Hq' Hx' Hc' Hy' Hp']; [done|]. congruence.
  - destruct H' as [n x' Hr' Hx' Hp'|q' n bs0 b' x' y' Hq' Hx' Hc' Hy' Hp']; [congruence|].
    assert (q' = q) as -> by congruence. rewrite (IH bs0 Hq'). assert (x' = x) as -> by congruence. f_equal. f_equal.
    destruct b, b'; try done; exfalso; eapply (two h r Hs q x n); done.
Qed.

(** The nodes above. *)
Lemma at_path_prefix n bs bs' : at_path h r n bs -> bs' `prefix_of` bs -> exists n', at_path h r n' bs'.
Proof.
  intros H. revert bs'. induction H as [n x Hr Hx Hp|q n bs b x y Hq IH Hx Hc Hy Hp]; intros bs' Hpre.
  - apply prefix_nil_inv in Hpre as ->. exists n. by eapply at_root.
  - destruct (decide (bs' = bs ++ [b])) as [->|Hne]; [exists n; by eapply at_child|]. apply IH.
    destruct Hpre as [k Hk]. destruct k as [|k' k _] using rev_ind; [rewrite app_nil_r in Hk; congruence|].
    rewrite app_assoc in Hk. apply app_inj_tail in Hk as [-> _]. by exists k.
Qed.

Lemma chain_at n bs : shape h r -> at_path h r n bs -> forall fuel, (n <= fuel)%nat -> forall m,
  m ∈ chain h fuel n <-> exists bs', bs' `prefix_of` bs /\ at_path h r m bs'.
Proof.
  intros Hs. induction 1 as [n x Hr Hx Hp|q n bs b x y Hq IH Hx Hc Hy Hp]; intros fuel Hf m.
  - assert (chain h fuel n = [n]) as -> by (destruct fuel; cbn; [done|]; by rewrite Hx, Hp). rewrite list_elem_of_singleton. split.
    + intros ->. exists []. split; [done|]. by eapply at_root.
    + intros (bs' & ->%prefix_nil_inv & H). apply at_nil_inv in H. congruence.
  - pose proof (older h r Hs n y q Hy Hp) as Hlt. destruct fuel as [|fuel]; [lia|]. cbn [chain]. rewrite Hy, Hp, elem_of_cons, (IH fuel ltac:(lia) m). split.
    + intros [->|(bs' & Hpre & H)]; [exists (bs ++ [b]); split; [done|by eapply at_child]|]. exists bs'. split; [|done]. by apply prefix_app_r.
    + intros (bs' & Hpre & H). destruct (decide (bs' = bs ++ [b])) as [->|Hne].
      * left. eapply at_path_node; [exact H|by eapply at_child].
      * right. exists bs'. split; [|done]. destruct Hpre as [k Hk]. destruct k as [|k' k _] using rev_ind; [rewrite app_nil_r in Hk; congruence|].
        rewrite app_assoc in Hk. apply app_inj_tail in Hk as [-> _]. by exists k.
Qed.
End Shape.

(** ** What is cached

    The leaves as the paths they stand for; a null leaf stands for none. *)

Abbreviation cached := (list (Z * option (list bool))).

Definition leaf_at (h : list PNode) (r : option nat) (e : Z * option nat) (a : Z * option (list bool)) : Prop :=
  e.1 = a.1 /\ match e.2, a.2 with
               | Some n, Some bs => at_path h r n bs
               | None, None => True
               | _, _ => False
               end.

Definition repr (c : Cache) (l : cached) : Prop :=
  shape (heap c) (root_ c) /\ Forall2 (leaf_at (heap c) (root_ c)) (leaves_ c) l.

(** A path is known when a cached one goes through it. *)
Definition known (l : cached) (bs : list bool) : Prop := exists t bs', (t, Some bs') ∈ l /\ bs `prefix_of` bs'.

Lemma owned_known h r ls l n : shape h r -> Forall2 (leaf_at h r) ls l ->
  n ∈ owned h (map snd ls) <-> exists bs, known l bs /\ at_path h r n bs.
Proof.
  intros Hs Hl. unfold owned, known. induction Hl as [|[t o] [t' ob] ls l [Ht Ho] Hl IH]; cbn.
  - split; [intros H; by apply elem_of_nil in H|intros (bs & (? & ? & H & _) & _); by apply elem_of_nil in H].
  - rewrite elem_of_app, IH. cbn in Ht, Ho. subst t'. split.
    + intros [H|(bs & (t1 & bs' & Hin & Hp) & H)].
      * destruct o as [m|], ob as [bm|]; try done; [|by apply elem_of_nil in H].
        apply (chain_at h r m bm Hs Ho m ltac:(lia)) in H as (bs' & Hp & H). exists bs'. split; [|done]. exists t, bm. split; [left|done].
      * exists bs. split; [|done]. exists t1, bs'. split; [by right|done].
    + intros (bs & (t1 & bs' & Hin & Hp) & H). apply elem_of_cons in Hin as [[= -> <-]|Hin].
      * left. destruct o as [m|]; [|done]. apply (chain_at h r m bs' Hs Ho m ltac:(lia)). by exists bs.
      * right. exists bs. split; [|done]. by exists t1, bs'.
Qed.

(** Locking the pointer to the node of a path tells whether the path is known; the
    node the code stands on, [ex], only owns shorter paths. *)
Lemma lock_spec h r ls l ex bs w : shape h r -> Forall2 (leaf_at h r) ls l ->
  (forall q, ex = Some q -> exists bsq, at_path h r q bsq /\ (length bsq < length bs)%nat) ->
  (forall n, w = Some n <-> at_path h r n bs) ->
  match lock h (ex :: map snd ls) w with Some n => at_path h r n bs /\ known l bs | None => ~ known l bs end.
Proof.
  intros Hs Hl Hex Hw. assert (Hkn : known l bs -> exists n, at_path h r n bs).
  { intros (t & bs' & Hin & Hp). apply list_elem_of_lookup in Hin as [i Hi]. destruct (Forall2_lookup_r _ _ _ _ _ Hl Hi) as ([t0 o] & _ & [_ Ho]).
    cbn in Ho. destruct o as [m|]; [|done]. by eapply at_path_prefix. }
  unfold lock. destruct w as [n|].
  2:{ intros Hk. destruct (Hkn Hk) as [n Hn]. apply Hw in Hn. done. }
  assert (Hn : at_path h r n bs) by (by apply Hw).
  assert (Hin : n ∈ owned h (ex :: map snd ls) <-> known l bs).
  { unfold owned. cbn [map concat]. rewrite elem_of_app. fold (owned h (map snd ls)). rewrite (owned_known h r ls l n Hs Hl). split.
    - intros [H|(bs' & Hk & H)].
      + destruct ex as [q|]; [|by apply elem_of_nil in H]. destruct (Hex q eq_refl) as (bsq & Hq & Hlen).
        pose proof (proj1 (chain_at h r q bsq Hs Hq q ltac:(lia) n) H) as (bs' & Hp & Hm).
        pose proof (at_path_unique h r n bs bs' Hs Hn Hm) as E. apply prefix_length in Hp. rewrite E in Hlen. lia.
      + by rewrite (at_path_unique h r n bs bs' Hs Hn H).
    - intros Hk. right. by exists bs. }
  case_bool_decide as Hb; rewrite Hin in Hb; [done|done].
Qed.

Lemma root_pointer h r n : shape h r -> r = Some n <-> at_path h r n [].
Proof.
  intros Hs. split; [|apply at_nil_inv]. intros Hr. destruct (rooted h r Hs n Hr) as (x & Hx & Hp). by eapply at_root.
Qed.

Lemma child_pointer h r q x bs b n : shape h r -> at_path h r q bs -> h !! q = Some x -> child b x = Some n <-> at_path h r n (bs ++ [b]).
Proof.
  intros Hs Hq Hx. split.
  - intros Hc. destruct (knows h r Hs q x b n Hx Hc) as (y & Hy & Hp). by eapply at_child.
  - intros H. apply at_snoc_inv in H as (q' & x' & y & Hq' & Hx' & Hc & _). rewrite (at_path_node h r q' q bs Hq' Hq) in Hx'. congruence.
Qed.

(** ** Changes of the heap *)

(** Same pointers. *)
Definition same_links (h h' : list PNode) : Prop :=
  forall n, (fun x => (parent x, left_child x, right_child x)) <$> h !! n = (fun x => (parent x, left_child x, right_child x)) <$> h' !! n.

Lemma same_links_sym h h' : same_links h h' -> same_links h' h.
Proof. intros H n. by rewrite H. Qed.

Lemma links_lookup h h' n x : same_links h h' -> h !! n = Some x ->
  exists x', h' !! n = Some x' /\ parent x' = parent x /\ forall b, child b x' = child b x.
Proof.
  intros H Hx. specialize (H n). rewrite Hx in H. destruct (h' !! n) as [x'|]; [|done]. cbn in H. injection H as H1 H2 H3.
  exists x'. split; [done|]. split; [done|]. by intros [].
Qed.

Lemma links_at h h' r n bs : same_links h h' -> at_path h r n bs -> at_path h' r n bs.
Proof.
  intros Hl. induction 1 as [n x Hr Hx Hp|q n bs b x y Hq IH Hx Hc Hy Hp].
  - destruct (links_lookup _ _ _ _ Hl Hx) as (x' & Hx' & Hp' & _). eapply at_root; [done|exact Hx'|congruence].
  - destruct (links_lookup _ _ _ _ Hl Hx) as (x' & Hx' & _ & Hc'). destruct (links_lookup _ _ _ _ Hl Hy) as (y' & Hy' & Hp' & _).
    eapply at_child; [exact IH|exact Hx'|by rewrite Hc'|exact Hy'|congruence].
Qed.

Lemma links_shape h h' r : same_links h h' -> shape h r -> shape h' r.
Proof.
  intros Hl [H1 H2 H3 H4]. apply same_links_sym in Hl as Hl'. split.
  - intros n x q Hx Hp. destruct (links_lookup _ _ _ _ Hl' Hx) as (x' & Hx' & Hp' & _). apply (H1 n x' q Hx'). congruence.
  - intros q x b n Hx Hc. destruct (links_lookup _ _ _ _ Hl' Hx) as (x' & Hx' & _ & Hc'). destruct (H2 q x' b n Hx' ltac:(by rewrite Hc')) as (y & Hy & Hp).
    destruct (links_lookup _ _ _ _ Hl Hy) as (y' & Hy' & Hp' & _). exists y'. split; [done|congruence].
  - intros q x n Hx Ht Hf. destruct (links_lookup _ _ _ _ Hl' Hx) as (x' & Hx' & _ & Hc'). apply (H3 q x' n Hx'); by rewrite Hc'.
  - intros n Hr. destruct (H4 n Hr) as (x & Hx & Hp). destruct (links_lookup _ _ _ _ Hl Hx) as (x' & Hx' & Hp' & _). exists x'. split; [done|congruence].
Qed.

Lemma set_last_links n t h : same_links h (update n (set_last t) h).
Proof.
  unfold update. destruct (h !! n) as [x|] eqn:E; [|done]. intros m. destruct (decide (m = n)) as [->|Hne].
  - rewrite list_lookup_insert_eq by (by eapply lookup_lt_Some). by rewrite E.
  - by rewrite list_lookup_insert_ne by done.
Qed.

Lemma leaves_mono h h' r r' ls l : (forall n bs, at_path h r n bs -> known l bs -> at_path h' r' n bs) ->
  Forall2 (leaf_at h r) ls l -> Forall2 (leaf_at h' r') ls l.
Proof.
  intros H Hl. apply Forall2_same_length_lookup. split; [by eapply Forall2_length|]. intros i [t o] [t' ob] Hi Hi'.
  pose proof (Forall2_lookup_lr _ _ _ _ _ _ Hl Hi Hi') as [Ht Ho]. split; [done|]. cbn in *. destruct o as [n|], ob as [bs|]; try done.
  apply H; [done|]. exists t', bs. split; [by eapply list_elem_of_lookup_2|done].
Qed.

Lemma links_leaves h h' r ls l : same_links h h' -> Forall2 (leaf_at h r) ls l -> Forall2 (leaf_at h' r) ls l.
Proof. intros H. apply leaves_mono. intros n bs Hn _. by eapply links_at. Qed.

(** A new child in place of a pointer that could not be locked. *)
Section Grow.
Context (h : list PNode) (r : option nat) (q : nat) (x : PNode) (bsq : list bool) (b : bool).
Let n := length h.
Let h' := update q (set_child b n) (h ++ [set_parent q PNode_make]).

Lemma grow_lookup : h !! q = Some x -> forall m, h' !! m =
  if decide (m = q) then Some (set_child b n x) else if decide (m = n) then Some (set_parent q PNode_make) else h !! m.
Proof.
  intros Hx m. unfold h', update. assert (Hlt : (q < length h)%nat) by (by eapply lookup_lt_Some).
  rewrite (lookup_app_l h) by done. rewrite Hx. destruct (decide (m = q)) as [->|Hne].
  - rewrite list_lookup_insert_eq; [done|]. rewrite length_app. lia.
  - rewrite list_lookup_insert_ne by done. destruct (decide (m = n)) as [->|Hn].
    + unfold n. rewrite lookup_app_r by lia. by rewrite Nat.sub_diag.
    + destruct (decide (m < n)%nat); [by rewrite lookup_app_l|]. rewrite !lookup_ge_None_2; [done|unfold n in *; lia|rewrite length_app; cbn; unfold n in *; lia].
Qed.

Lemma set_child_same : child b (set_child b n x) = Some n.
Proof. by destruct b. Qed.
Lemma set_child_other b' : b' <> b -> child b' (set_child b n x) = child b' x.
Proof. by destruct b, b'. Qed.

Lemma grow_shape : shape h r -> h !! q = Some x -> shape h' r.
Proof.
  intros Hs Hx. pose proof (grow_lookup Hx) as Hl. assert (Hlt : (q < n)%nat) by (by eapply lookup_lt_Some).
  assert (Hpar : forall m, m <> n -> parent <$> h' !! m = parent <$> h !! m).
  { intros m Hm. rewrite Hl. destruct (decide (m = q)) as [->|]; [rewrite Hx; by destruct b|]. by rewrite decide_False. }
  assert (Hpn : parent <$> h' !! n = Some (Some q)) by (rewrite Hl, decide_False, decide_True by lia; done).
  assert (Hold : forall m, is_Some (h !! m) -> m <> n) by (intros m Hm%lookup_lt_is_Some; lia).
  split.
  - intros m y p Hy Hp. destruct (decide (m = n)) as [->|Hm].
    + rewrite Hy in Hpn. cbn in Hpn. assert (p = q) as -> by congruence. done.
    + specialize (Hpar m Hm). rewrite Hy in Hpar. destruct (h !! m) as [z|] eqn:Ez; [|done]. cbn in Hpar. apply (older h r Hs m z p Ez). congruence.
  - intros m y b' k Hy Hc. assert (k = n /\ m = q \/ (exists y0, h !! m = Some y0 /\ child b' y0 = Some k)) as [[-> ->]|(y0 & Hy0 & Hc0)].
    { rewrite Hl in Hy. destruct (decide (m = q)) as [->|Hm].
      - injection Hy as <-. destruct (decide (b' = b)) as [->|Hb]; [rewrite set_child_same in Hc; left; split; congruence|].
        right. exists x. split; [done|]. by rewrite <- set_child_other.
      - destruct (decide (m = n)) as [->|]; [injection Hy as <-; by destruct b'|]. right. by exists y. }
    + destruct (h' !! n) as [z|]; [|done]. exists z. split; [done|]. cbn in Hpn. congruence.
    + destruct (knows h r Hs m y0 b' k Hy0 Hc0) as (z & Hz & Hp). specialize (Hpar k (Hold k ltac:(by eexists))). rewrite Hz in Hpar.
      destruct (h' !! k) as [z'|]; [|done]. exists z'. split; [done|]. cbn in Hpar. congruence.
  - intros m y k Hy Ht Hf. rewrite Hl in Hy. assert (Hk : forall b', child b' x = Some n -> False).
    { intros b' Hc. destruct (knows h r Hs q x b' n Hx Hc) as (z & Hz & _). by apply (Hold n); [eexists|]. }
    destruct (decide (m = q)) as [->|Hm].
    + injection Hy as <-. destruct b; cbn in Ht, Hf; [injection Ht as <-; by apply (Hk false)|injection Hf as <-; by apply (Hk true)].
    + destruct (decide (m = n)); [by injection Hy as <-|]. by eapply (two h r Hs m y k).
  - intros m Hm. destruct (rooted h r Hs m Hm) as (z & Hz & Hp). specialize (Hpar m (Hold m ltac:(by eexists))). rewrite Hz in Hpar.
    destruct (h' !! m) as [z'|]; [|done]. exists z'. split; [done|]. cbn in Hpar. congruence.
Qed.

Lemma grow_at m bs : shape h r -> at_path h r q bsq -> h !! q = Some x -> at_path h r m bs -> ~ (bsq ++ [b]) `prefix_of` bs -> at_path h' r m bs.
Proof.
  intros Hs Hq Hx. pose proof (grow_lookup Hx) as Hl. pose proof (at_path_alloc h r) as Hal.
  assert (Hpar : forall k z, h !! k = Some z -> exists z', h' !! k = Some z' /\ parent z' = parent z).
  { intros k z Hz. rewrite Hl. destruct (decide (k = q)) as [->|]; [eexists; split; [done|]; rewrite Hx in Hz; injection Hz as <-; by destruct b|].
    rewrite decide_False by (apply lookup_lt_Some in Hz; unfold n; lia). by exists z. }
  induction 1 as [m z Hr Hz Hp|k m bs b' z y Hk IH Hz Hc Hy Hp]; intros Hnp.
  - destruct (Hpar m z Hz) as (z' & Hz' & Hp'). eapply at_root; [done|exact Hz'|congruence].
  - destruct (Hpar m y Hy) as (y' & Hy' & Hp'). destruct (Hpar k z Hz) as (z' & Hz' & _).
    assert (Hc' : child b' z' = Some m).
    { rewrite Hl in Hz'. destruct (decide (k = q)) as [->|Hkq].
      - injection Hz' as <-. assert (z = x) as -> by congruence. rewrite set_child_other; [done|]. intros ->. apply Hnp.
        by rewrite (at_path_unique h r q bs bsq Hs Hk Hq).
      - rewrite decide_False in Hz' by (apply lookup_lt_Some in Hz; unfold n; lia). congruence. }
    eapply at_child; [apply IH|exact Hz'|exact Hc'|exact Hy'|congruence]. intros Hpre. apply Hnp. by apply prefix_app_r.
Qed.

Lemma grow_new : shape h r -> at_path h r q bsq -> h !! q = Some x -> at_path h' r n (bsq ++ [b]).
Proof.
  intros Hs Hq Hx. assert (Hlt : (q < n)%nat) by (by eapply lookup_lt_Some).
  apply (at_child h' r q n bsq b (set_child b n x) (set_parent q PNode_make)); [apply (grow_at q bsq Hs Hq Hx Hq)| | | |].
  - intros Hp%prefix_length. rewrite length_app in Hp. cbn in Hp. lia.
  - rewrite (grow_lookup Hx), decide_True by done. reflexivity.
  - apply set_child_same.
  - rewrite (grow_lookup Hx), decide_False, decide_True by lia. reflexivity.
  - reflexivity.
Qed.
End Grow.

(** A new root, when no leaf keeps the old one. *)
Lemma new_root_shape h r : shape h r -> shape (h ++ [PNode_make]) (Some (length h)).
Proof.
  intros Hs. assert (Hnew : (h ++ [PNode_make]) !! length h = Some PNode_make) by (rewrite lookup_app_r by lia; by rewrite Nat.sub_diag).
  assert (Hold : forall m y, (h ++ [PNode_make]) !! m = Some y -> y = PNode_make \/ h !! m = Some y).
  { intros m y Hy. apply lookup_app_Some in Hy as [?|[_ Hy]]; [by right|]. left. by apply list_lookup_singleton_Some in Hy as [_ <-]. }
  split.
  - intros m y q [->|Hy]%Hold; [done|]. by apply (older h r Hs).
  - intros q y b k [->|Hy]%Hold; [by destruct b|]. intros Hc. destruct (knows h r Hs q y b k Hy Hc) as (z & Hz & Hp).
    exists z. split; [by apply lookup_app_l_Some|done].
  - intros q y k [->|Hy]%Hold; [done|]. apply (two h r Hs q y k Hy).
  - intros m [= <-]. by exists PNode_make.
Qed.

(** ** Insertion *)

(** The first [k] bits of a content. *)
Definition path_bits (p : Prefix) (k : nat) : list bool := map (fun i => getBit (content_ p) (Z.of_nat i)) (seq 0 k).

Lemma path_bits_S p k : path_bits p (S k) = path_bits p k ++ [getBit (content_ p) (Z.of_nat k)].
Proof. unfold path_bits. rewrite seq_S, map_app. done. Qed.

Lemma path_bits_length p k : length (path_bits p k) = k.
Proof. unfold path_bits. by rewrite length_map, length_seq. Qed.

Lemma prefix_snoc (l l' : list bool) b : l `prefix_of` l' -> l ++ [b] `prefix_of` l' \/ ~ l ++ [b] `prefix_of` l'.
Proof. destruct (decide (l ++ [b] `prefix_of` l')); auto. Qed.

Lemma insert_loop_spec p now ls l r : forall todo i curr h,
  shape h r -> Forall2 (leaf_at h r) ls l -> at_path h r curr (path_bits p i) -> Z.of_nat (i + todo) <= bits (content_ p) ->
  exists leaf h', insert_loop p now (map snd ls) todo (Z.of_nat i) curr h = Ret (leaf, h') /\
    shape h' r /\ Forall2 (leaf_at h' r) ls l /\ at_path h' r leaf (path_bits p (i + todo)).
Proof.
  induction todo as [|todo IH]; intros i curr h Hs Hl Hc Hb; cbn [insert_loop].
  { exists curr, h. rewrite Nat.add_0_r. done. }
  rewrite isContentBitActive_bit by lia. cbn [mbind outcome_bind]. set (b := getBit (content_ p) (Z.of_nat i)).
  destruct (at_path_alloc h r curr _ Hc) as [x Hx]. rewrite Hx.
  assert (Hpath : path_bits p (S i) = path_bits p i ++ [b]) by apply path_bits_S.
  pose proof (lock_spec h r ls l (Some curr) (path_bits p i ++ [b]) (child b x) Hs Hl) as Hk.
  replace (Z.of_nat i + 1) with (Z.of_nat (S i)) by lia. replace (i + S todo)%nat with (S i + todo)%nat by lia.
  assert (Hfin : forall curr' h', shape h' r -> Forall2 (leaf_at h' r) ls l -> at_path h' r curr' (path_bits p (S i)) ->
    exists leaf h'', insert_loop p now (map snd ls) todo (Z.of_nat (S i)) curr' (update curr' (set_last now) h') = Ret (leaf, h'') /\
      shape h'' r /\ Forall2 (leaf_at h'' r) ls l /\ at_path h'' r leaf (path_bits p (S i + todo))).
  { intros curr' h' Hs' Hl' Hc'. pose proof (set_last_links curr' now h') as Hlk.
    apply IH; [by eapply links_shape|by eapply links_leaves|by eapply links_at|lia]. }
  destruct (lock h (Some curr :: map snd ls) (child b x)) as [n|].
  - apply Hfin; [done..|]. rewrite Hpath. apply Hk.
    + intros q [= <-]. exists (path_bits p i). split; [done|]. rewrite length_app. cbn. lia.
    + intros m. by apply (child_pointer h r curr x).
  - assert (Hnk : ~ known l (path_bits p i ++ [b])).
    { apply Hk; [|intros m; by apply (child_pointer h r curr x)]. intros q [= <-]. exists (path_bits p i). split; [done|]. rewrite length_app. cbn. lia. }
    apply Hfin; [exact (grow_shape h r curr x b Hs Hx)| |rewrite Hpath; exact (grow_new h r curr x _ b Hs Hc Hx)].
    eapply leaves_mono; [|exact Hl]. intros m bs Hm Hkn. apply (grow_at h r curr x _ b m bs Hs Hc Hx Hm). intros Hpre. apply Hnk.
    destruct Hkn as (t & bs' & Hin & Hp). exists t, bs'. split; [done|]. by etrans.
Qed.

(** The leaves that are left, on paths. *)
Fixpoint expire_paths (now : Z) (max : option nat) (l : cached) : cached :=
  match l with
  | [] => []
  | (t, o) :: l' =>
      if (t + NODE_EXPIRE_TIME <? now) || match max with Some m => (m <? length l)%nat | None => false end
      then expire_paths now max l' else l
  end.

Lemma expire_repr h r now max ls l : Forall2 (leaf_at h r) ls l -> Forall2 (leaf_at h r) (expire_leaves now max ls) (expire_paths now max l).
Proof.
  induction 1 as [|[t o] [t' o'] ls l [Ht Ho] Hl IH]; [constructor|]. cbn [expire_leaves expire_paths]. cbn in Ht. subst t'.
  cbn [length]. rewrite (Forall2_length _ _ _ Hl). destruct (_ || _); [done|]. constructor; [by split|done].
Qed.

Lemma mm_insert_repr h r t o ob ls l : leaf_at h r (t, o) (t, ob) -> Forall2 (leaf_at h r) ls l ->
  Forall2 (leaf_at h r) (mm_insert Z.ltb t o ls) (mm_insert Z.ltb t ob l).
Proof.
  intros Hn. induction 1 as [|[t1 o1] [t2 o2] ls l [Ht Ho] Hl IH]; cbn; [by constructor|]. cbn in Ht. subst t2.
  destruct (t <? t1); [constructor; [done|by constructor]|]. constructor; [by split|done].
Qed.

Lemma cache_insert_repr p now c l : repr c l -> 0 <= size_ p <= bits (content_ p) ->
  exists c', cache_insert p now c = Ret c' /\
    repr c' (mm_insert Z.ltb now (Some (path_bits p (Z.to_nat (size_ p)))) (expire_paths now (Some MAX_ELEMENT) l)).
Proof.
  intros [Hs Hl] Hp. unfold cache_insert. set (ls := expire_leaves _ _ _). set (l' := expire_paths _ _ _).
  assert (Hl' : Forall2 (leaf_at (heap c) (root_ c)) ls l') by (by apply expire_repr).
  pose proof (lock_spec (heap c) (root_ c) ls l' None [] (root_ c) Hs Hl' ltac:(done) (fun n => root_pointer _ _ n Hs)) as Hk.
  change (lock (heap c) (None :: map snd ls) (root_ c)) with (lock (heap c) (map snd ls) (root_ c)) in Hk.
  assert (Hfin : forall curr h r, shape h r -> Forall2 (leaf_at h r) ls l' -> at_path h r curr [] ->
    exists c', ('(leaf, h') ← insert_loop p now (map snd ls) (Z.to_nat (size_ p)) 0 curr (update curr (set_last now) h);
      Ret (mkCache h' r (mm_insert Z.ltb now (Some leaf) ls))) = Ret c' /\
      repr c' (mm_insert Z.ltb now (Some (path_bits p (Z.to_nat (size_ p)))) l')).
  { intros curr h r Hs1 Hl1 Hc1. pose proof (set_last_links curr now h) as Hlk.
    destruct (insert_loop_spec p now ls l' r (Z.to_nat (size_ p)) 0 curr (update curr (set_last now) h)) as (leaf & h' & Hi & Hs' & Hl2 & Hleaf);
      [by eapply links_shape|by eapply links_leaves|by eapply links_at|lia|].
    change (Z.of_nat 0) with 0 in Hi. rewrite Hi. cbn [mbind outcome_bind]. eexists. split; [reflexivity|]. split; [done|].
    apply mm_insert_repr; [by split|done]. }
  destruct (lock (heap c) (map snd ls) (root_ c)) as [n|].
  - apply Hfin; [done..|]. apply Hk.
  - apply Hfin; [by eapply new_root_shape| |].
    + eapply leaves_mono; [|exact Hl']. intros n bs _ (t & bs' & Hin & _). destruct Hk. exists t, bs'. split; [done|]. apply prefix_nil.
    + apply root_pointer; [by eapply new_root_shape|done].
Qed.

(** ** Lookup *)

(** What is known of a key: the length of the longest cached prefix of its bits, -1 when
    nothing is cached. *)
Fixpoint lcp (a b : list bool) : nat :=
  match a, b with
  | x :: a', y :: b' => if eqb x y then S (lcp a' b') else O
  | _, _ => O
  end.

Definition cached_length (l : cached) (bs : list bool) : Z :=
  foldr (fun e m => match e.2 with Some a => Z.max (Z.of_nat (lcp a bs)) m | None => m end) (-1) l.

Lemma lcp_prefix a b j : (j <= length b)%nat -> (j <= lcp a b)%nat <-> take j b `prefix_of` a.
Proof.
  revert a j. induction b as [|y b IH]; intros a j Hj; cbn in Hj.
  { replace j with O by lia. split; [intros _; apply prefix_nil|lia]. }
  destruct j as [|j]; [split; [intros _; apply prefix_nil|lia]|]. destruct a as [|x a]; cbn [lcp take].
  { split; [lia|intros H; by apply prefix_nil_inv in H]. }
  destruct (eqb_spec x y) as [->|Hne].
  - rewrite <- Nat.succ_le_mono, (IH a j ltac:(lia)). split; [apply prefix_cons|by intros ?%prefix_cons_inv_2].
  - split; [lia|]. intros H. apply prefix_cons_inv_1 in H. congruence.
Qed.

Lemma known_length l bs j : (j <= length bs)%nat -> known l (take j bs) <-> Z.of_nat j <= cached_length l bs.
Proof.
  intros Hj. unfold known, cached_length. induction l as [|[t [a|]] l IH]; cbn [foldr snd].
  - split; [intros (? & ? & H & _); by apply elem_of_nil in H|lia].
  - pose proof (lcp_prefix a bs j Hj). split.
    + intros (t' & bs' & Hin & Hp). apply elem_of_cons in Hin as [[= -> ->]|Hin]; [apply H in Hp; lia|].
      assert (Z.of_nat j <= foldr (fun e m => match e.2 with Some a => Z.max (Z.of_nat (lcp a bs)) m | None => m end) (-1) l); [|lia].
      apply IH. by exists t', bs'.
    + intros Hle. destruct (decide (j <= lcp a bs)%nat) as [Hlt|Hlt].
      * exists t, a. split; [left|by apply H].
      * destruct (proj2 IH ltac:(lia)) as (t' & bs' & Hin & Hp). exists t', bs'. split; [by right|done].
  - rewrite <- IH. split; intros (t' & bs' & Hin & Hp); exists t', bs'; (split; [|done]).
    + by apply elem_of_cons in Hin as [[=]|Hin].
    + by right.
Qed.

Lemma path_bits_take p j k : (j <= k)%nat -> path_bits p j = take j (path_bits p k).
Proof. intros H. unfold path_bits. rewrite firstn_map. f_equal. rewrite take_seq. f_equal. lia. Qed.

Section Lookup.
Context (p : Prefix) (now : Z) (ls : list (Z * option nat)) (l : cached) (r : option nat).
Let N := Z.of_nat (length (content_ p)) * 8.
Abbreviation bp := (path_bits p).

Lemma update_last_other c c' t h : c' <> c -> update c (set_last t) h !! c' = h !! c'.
Proof. intros Hne. unfold update. destruct (h !! c); [|done]. by rewrite list_lookup_insert_ne. Qed.

(** Where the descent stands after [k] bits. *)
Definition stands (k : nat) (curr : option nat) (h : list PNode) : Prop :=
  match k with O => curr = None | S k' => exists q, curr = Some q /\ at_path h r q (bp k') end.

Lemma lock_step k w curr h : shape h r -> Forall2 (leaf_at h r) ls l -> (forall m, w = Some m <-> at_path h r m (bp k)) -> stands k curr h ->
  match lock h (curr :: map snd ls) w with Some n => at_path h r n (bp k) /\ known l (bp k) | None => ~ known l (bp k) end.
Proof.
  intros Hs Hl Hw Hc. apply lock_spec; [done..| |done]. intros q ->. destruct k as [|k]; [done|]. destruct Hc as (q' & [= <-] & Hq).
  exists (bp k). rewrite !path_bits_length. split; [done|lia].
Qed.

Lemma lookup_loop_eq n pos next curr last h : lookup_loop p now (map snd ls) n pos next curr last h =
  match lock h (curr :: map snd ls) next with
  | None => Ret (pos, curr, last, h)
  | Some c =>
      match n with
      | O => Ret (pos + 1, curr, last, h)
      | S n' =>
          let last' := match h !! c with Some x => last_reply x | None => 0 end in
          let h' := update c (set_last now) h in
          b ← isContentBitActive p (pos + 1);
          lookup_loop p now (map snd ls) n' (pos + 1) (match h' !! c with Some x => child b x | None => None end) (Some c) last' h'
      end
  end.
Proof. by destruct n. Qed.

Lemma lookup_loop_spec : forall n k w curr last h,
  shape h r -> Forall2 (leaf_at h r) ls l -> Z.of_nat k + Z.of_nat n = N ->
  (forall m, w = Some m <-> at_path h r m (bp k)) ->
  stands k curr h ->
  exists pos' curr' last' h', lookup_loop p now (map snd ls) n (Z.of_nat k - 1) w curr last h = Ret (pos', curr', last', h') /\
    same_links h h' /\ Z.of_nat k - 1 <= pos' <= N /\
    (forall j, (k <= j)%nat -> Z.of_nat j <= pos' -> known l (bp j)) /\ (pos' < N -> ~ known l (bp (Z.to_nat (pos' + 1)))) /\
    (let d := Z.min pos' (N - 1) in
     if d <=? Z.of_nat k - 1 then curr' = curr /\ last' = last
     else exists c x, curr' = Some c /\ at_path h r c (bp (Z.to_nat d)) /\ h !! c = Some x /\ last' = last_reply x).
Proof.
  induction n as [n IH] using lt_wf_ind. intros k w curr last h Hs Hl Hn Hw Hc. rewrite lookup_loop_eq.
  pose proof (lock_step k w curr h Hs Hl Hw Hc) as Hk. destruct (lock h (curr :: map snd ls) w) as [c|].
  2:{ exists (Z.of_nat k - 1), curr, last, h. split; [done|]. split; [done|]. split; [lia|]. split; [intros; lia|].
      split; [intros _; by replace (Z.to_nat (Z.of_nat k - 1 + 1)) with k by lia|]. cbn zeta. rewrite (proj2 (Z.leb_le _ _)) by lia. done. }
  destruct Hk as [Hat Hkn]. destruct n as [|n].
  - exists (Z.of_nat k - 1 + 1), curr, last, h. split; [done|]. split; [done|]. split; [lia|].
    split; [intros j H1 H2; by replace j with k by lia|]. split; [lia|]. cbn zeta. rewrite (proj2 (Z.leb_le _ _)) by lia. done.
  - replace (Z.of_nat k - 1 + 1) with (Z.of_nat k) by lia. rewrite isContentBitActive_bit by (unfold len, N in *; lia). cbn [mbind outcome_bind].
    destruct (at_path_alloc h r c _ Hat) as [x Hx]. rewrite Hx. set (h1 := update c (set_last now) h). pose proof (set_last_links c now h) as Hlk. fold h1 in Hlk.
    destruct (links_lookup _ _ _ _ Hlk Hx) as (x1 & Hx1 & _ & Hch). rewrite Hx1.
    destruct (IH n ltac:(lia) (S k) (child (getBit (content_ p) (Z.of_nat k)) x1) (Some c) (last_reply x) h1) as (pos' & curr' & last' & h' & He & Hlk' & Hr & Hj & Hnk & Hd).
    + by eapply links_shape.
    + by eapply links_leaves.
    + lia.
    + intros m. rewrite path_bits_S. apply (child_pointer h1 r c x1); [by eapply links_shape|by eapply links_at|done].
    + exists c. split; [done|by eapply links_at].
    + replace (Z.of_nat (S k) - 1) with (Z.of_nat k) in * by lia. exists pos', curr', last', h'. split; [exact He|]. split; [intros m; by rewrite (Hlk m), (Hlk' m)|].
      split; [lia|]. split; [|split; [done|]].
      * intros j Hkj Hjp. destruct (decide (j = k)) as [->|]; [done|]. apply Hj; lia.
      * cbn zeta in *. set (d := Z.min pos' (N - 1)) in *. assert (Z.of_nat k <= d) by lia. rewrite (proj2 (Z.leb_gt _ _)) by lia.
        destruct (Z.leb_spec d (Z.of_nat k)) as [Hdk|Hdk].
        -- destruct Hd as [-> ->]. exists c, x. replace (Z.to_nat d) with k by lia. done.
        -- destruct Hd as (c' & x' & -> & Hc' & Hx' & ->). exists c', x'. assert (Hh : at_path h r c' (bp (Z.to_nat d))) by (eapply links_at; [by apply same_links_sym|exact Hc']).
           split; [done|]. split; [exact Hh|]. split; [|done]. rewrite <- Hx'. symmetry. apply update_last_other. intros ->.
           pose proof (at_path_unique h r c _ _ Hs Hat Hh) as E. apply (f_equal length) in E. rewrite !path_bits_length in E. lia.
Qed.
End Lookup.

Lemma erase_time_repr h r t ls l : Forall2 (leaf_at h r) ls l -> Forall2 (leaf_at h r) (erase_time t ls) (erase_time t l).
Proof.
  induction 1 as [|[t1 o1] [t2 o2] ls l [Ht Ho] Hl IH]; cbn [erase_time fst]; [constructor|]. cbn in Ht. subst t2.
  destruct (t1 =? t); [done|]. constructor; [by split|done].
Qed.

Lemma cached_length_bound l bs : -1 <= cached_length l bs <= Z.of_nat (length bs).
Proof.
  unfold cached_length. induction l as [|[t [a|]] l IH]; cbn [foldr snd]; [lia| |done].
  assert (lcp a bs <= length bs)%nat; [|lia]. clear. revert bs. induction a as [|x a IH]; intros [|y bs]; cbn; try lia.
  destruct (eqb x y); [|lia]. specialize (IH bs). lia.
Qed.

(** The bits of a whole content. *)
Definition all_bits (p : Prefix) : list bool := path_bits p (8 * length (content_ p)).

Lemma cache_lookup_repr p now c l : repr c l ->
  let l1 := expire_paths now None l in
  let pos := cached_length l1 (all_bits p) in
  exists c', cache_lookup p now c = Ret (pos, c') /\
    (pos = -1 -> repr c' l1) /\
    (0 <= pos -> content_ p = [] -> repr c' (mm_insert Z.ltb now None (erase_time now l1))) /\
    (0 <= pos -> content_ p <> [] -> exists n x,
       let upto := path_bits p (Nat.min (Z.to_nat pos) (8 * length (content_ p) - 1)) in
       at_path (heap c) (root_ c) n upto /\ heap c !! n = Some x /\
       repr c' (mm_insert Z.ltb now (Some upto) (erase_time (last_reply x) l1))).
Proof.
  intros [Hs Hl] l1 pos. unfold cache_lookup. set (ls := expire_leaves now None (leaves_ c)).
  assert (Hl1 : Forall2 (leaf_at (heap c) (root_ c)) ls l1) by (by apply expire_repr).
  assert (Hbits : bits (content_ p) = Z.of_nat (8 * length (content_ p))) by (unfold len; lia). rewrite Hbits, Nat2Z.id.
  destruct (lookup_loop_spec p now ls l1 (root_ c) (8 * length (content_ p)) 0 (root_ c) None now (heap c) Hs Hl1 ltac:(lia) (fun n => root_pointer _ _ n Hs) eq_refl)
    as (pos' & curr & last & h & He & Hlk & Hr & Hj & Hnk & Hd). change (Z.of_nat 0 - 1) with (-1) in *. rewrite He. cbn [mbind outcome_bind].
  assert (Hpos : pos' = pos).
  { pose proof (cached_length_bound l1 (all_bits p)) as Hcb. fold pos in Hcb. unfold all_bits in Hcb. rewrite path_bits_length in Hcb.
    assert (Hkn : forall j, (j <= 8 * length (content_ p))%nat -> known l1 (path_bits p j) <-> Z.of_nat j <= pos).
    { intros j Hjn. rewrite (path_bits_take p j (8 * length (content_ p))) by done. apply known_length. by rewrite path_bits_length. }
    destruct (Z.lt_trichotomy pos' pos) as [Hlt|[?|Hgt]]; [|done|].
    - exfalso. apply Hnk; [lia|]. apply Hkn; lia.
    - exfalso. specialize (Hj (Z.to_nat pos') ltac:(lia) ltac:(lia)). apply Hkn in Hj; lia. }
  subst pos'. eexists. split; [reflexivity|]. pose proof (links_shape _ _ _ Hlk Hs) as Hs'. pose proof (links_leaves _ _ _ _ _ Hlk Hl1) as Hl'. split_and!.
  - intros Hneg. split; [done|]. cbn [leaves_ heap root_]. rewrite Hneg. exact Hl'.
  - intros H0 Hnil. rewrite Hnil in Hd. cbn zeta in Hd. rewrite (proj2 (Z.leb_le _ _)) in Hd by (cbn [length]; lia). destruct Hd as [-> ->].
    split; [done|]. cbn [leaves_ heap root_]. rewrite (proj2 (Z.leb_le _ _)) by done. apply mm_insert_repr; [by split|by apply erase_time_repr].
  - intros H0 Hne. assert (1 <= length (content_ p))%nat by (destruct (content_ p); [done|cbn; lia]). cbn zeta in Hd.
    rewrite (proj2 (Z.leb_gt _ _)) in Hd by lia. destruct Hd as (n & x & -> & Hn & Hx & ->). exists n, x. cbn zeta.
    replace (Nat.min (Z.to_nat pos) (8 * length (content_ p) - 1)) with (Z.to_nat (Z.min pos (Z.of_nat (length (content_ p)) * 8 - 1))) by lia.
    split; [done|]. split; [done|]. split; [done|]. cbn [leaves_ heap root_]. rewrite (proj2 (Z.leb_le _ _)) by done.
    apply mm_insert_repr; [split; [done|]; by eapply links_at|by apply erase_time_repr].
Qed.

(** C11. The cache is a set of paths: seen as the times and the paths of its leaves,
    inserting a prefix drops the leaves that are too old or too many and adds the bits
    of the prefix, whatever the sharing of nodes and the order in which branches died;
    looking a key up gives the length of its longest cached prefix, or -1, and
    replaces one leaf by the prefix found. Weak pointers to dead branches are never
    followed, and the heap stays a tree. *)
Theorem cache_refines_paths p now c l : repr c l -> 0 <= size_ p <= bits (content_ p) ->
  (exists c', cache_insert p now c = Ret c' /\
     repr c' (mm_insert Z.ltb now (Some (path_bits p (Z.to_nat (size_ p)))) (expire_paths now (Some MAX_ELEMENT) l))) /\
  (exists c' l', cache_lookup p now c = Ret (cached_length (expire_paths now None l) (all_bits p), c') /\ repr c' l' /\
     (l' = expire_paths now None l \/
      exists t o, l' = mm_insert Z.ltb now o (erase_time t (expire_paths now None l)) /\
        match o with Some bs => bs `prefix_of` all_bits p /\ known (expire_paths now None l) bs | None => content_ p = [] end)).
Proof.
  intros Hr Hp. split; [by apply cache_insert_repr|]. destruct (cache_lookup_repr p now c l Hr) as (c' & He & H1 & H2 & H3).
  exists c'. set (l1 := expire_paths now None l) in *. set (pos := cached_length l1 (all_bits p)) in *.
  destruct (Z.le_gt_cases 0 pos) as [Hpos|Hpos].
  2:{ pose proof (cached_length_bound l1 (all_bits p)). exists l1. split; [done|]. split; [apply H1; unfold pos in *; lia|by left]. }
  destruct (decide (content_ p = [])) as [Hnil|Hne].
  - eexists. split; [done|]. split; [by apply H2|]. right. by exists now, None.
  - destruct (H3 Hpos Hne) as (n & x & _ & _ & Hx). eexists. split; [done|]. split; [exact Hx|]. right. eexists _, (Some _). split; [done|].
    rewrite (path_bits_take p _ (8 * length (content_ p))) by lia. fold (all_bits p). split; [apply prefix_take|].
    apply known_length; unfold all_bits; rewrite ?path_bits_length; [lia|]. fold (all_bits p) pos. lia.
Qed.

Lemma Cache_make_repr : repr Cache_make [].
Proof. split; [|constructor]. split; cbn; intros *; rewrite ?lookup_nil; done. Qed.

Module CacheDemo.
Definition p : Prefix := mkPrefix 8 [] [255; 0].
Definition q : Prefix := mkPrefix 8 [] [128; 0].
Definition one : Cache := match cache_insert p 0 Cache_make with Ret c => c | _ => Cache_make end.

Lemma one_repr : repr one [(0, Some (replicate 8 true))].
Proof. destruct (cache_insert_repr p 0 Cache_make [] Cache_make_repr ltac:(by_compute)) as (c' & H & Hr). unfold one. rewrite H. exact Hr. Qed.

(** Looking a key up makes the cache forget the other keys of the leaf: eight bits of [p]
    are known, but after the lookup of a key that shares one bit with it, one is. *)
Example lookup_forgets :
  match cache_lookup p 1 one, cache_lookup q 1 one with
  | Ret (n, _), Ret (k, c) => n = 8 /\ k = 1 /\ match cache_lookup p 2 c with Ret (m, _) => m = 1 | _ => False end
  | _, _ => False
  end.
Proof. vm_compute. auto. Qed.
End CacheDemo.

Lemma cache_refines_paths_witness : exists c', cache_lookup CacheDemo.q 1 CacheDemo.one = Ret (1, c').
Proof.
  destruct (proj2 (cache_refines_paths CacheDemo.q 1 CacheDemo.one [(0, Some (replicate 8 true))] CacheDemo.one_repr ltac:(by_compute))) as (c' & _ & H & _).
  exists c'. exact H.
Defined.
