(* ===== verification/Pht.v ===== *)
(** * Pht: the prefix hash tree over the DHT

    Models the operations of [class Pht] (src/opendht-2.1.4/src/indexation/pht.cpp): the
    entries of the index and their wire format, the binary search for a leaf ([lookupStep],
    with the callbacks of its two [get]s in any order), [lookup], and what an insertion puts
    ([insert], [split], [getRealPrefix], [updateCanary], [checkPhtUpdate]).  The [DhtRunner]
    is what it answers to a [get] and the operations it is asked for; [InfoHash::get] is a
    parameter.  Callbacks run one at a time. *)
From S2P Require Import Prelude StdMap InfoHash Node MsgPack Value Prefix PhtCache.

Definition INDEX_PREFIX : bytes := str "index.pht.".
Definition MAX_NODE_ENTRY_COUNT : nat := 16.

(** ** Entries *)

Record IndexEntry := mkEntry { e_prefix : bytes; e_value : Hash * Z; e_name : bytes }.
Definition IndexEntry_make : IndexEntry := mkEntry [] (Hash_zero HASH_LEN, 0) [].

Section Entries.
Context {G : Gnutls}.

(** [MSGPACK_DEFINE_MAP(prefix, value)]: packing, and reading the members that are
    there. *)
Definition entry_obj (e : IndexEntry) : obj :=
  OMap [kv (str "prefix") (OBin (e_prefix e)); kv (str "value") (OArr [OBin (e_value e).1; OPos (e_value e).2])].
Definition entry_pack (e : IndexEntry) : bytes :=
  pack_map 2 ++ pack_string (str "prefix") ++ pack_binary (e_prefix e) ++
  pack_string (str "value") ++ pack_array 2 ++ hash_pack (e_value e).1 ++ pack_imp_uint64 (e_value e).2.

(** The conversion to [std::vector<uint8_t>] and to [std::pair<InfoHash, Id>]. *)
Definition as_blob (o : obj) : outcome bytes := match o with OBin s | OStr s => Ret s | _ => type_error end.
Definition as_value_pair (o : obj) : outcome (Hash * Z) :=
  match o with OArr [a; b] => h ← hash_unpack a; i ← as_uint 64 b; Ret (h, i) | _ => type_error end.

Definition string_key (e : obj * obj) : bool := match e.1 with OStr _ => true | _ => false end.
Fixpoint first_pair (key : bytes) (l : list (obj * obj)) : option obj :=
  match l with
  | (OStr k, v) :: l' => if bool_decide (k = key) then Some v else first_pair key l'
  | _ :: l' => first_pair key l'
  | [] => None
  end.

Definition entry_convert (o : obj) (e : IndexEntry) : outcome IndexEntry :=
  match o with
  | OMap l =>
      if negb (forallb string_key l) then type_error
      else
        p ← match first_pair (str "prefix") l with Some x => as_blob x | None => Ret (e_prefix e) end;
        v ← match first_pair (str "value") l with Some x => as_value_pair x | None => Ret (e_value e) end;
        Ret (mkEntry p v (e_name e))
  | _ => type_error
  end.

(** [packValue] and [unpackValue]. *)
Definition entry_packValue (e : IndexEntry) : Value :=
  mkValue 0 None (Hash_zero HASH_LEN) 0 (entry_pack e) (e_name e) 0 [] [] 0.

Definition entry_unpackValue (v : Value) : outcome IndexEntry :=
  msg ← unpack (v_data v);
  e ← entry_convert msg.1 IndexEntry_make;
  Ret (mkEntry (e_prefix e) (e_value e) (v_user_type v)).

Definition wf_entry (e : IndexEntry) : Prop :=
  wf_bytes (e_prefix e) /\ len (e_prefix e) < 2 ^ 32 /\ wf_hash HASH_LEN (e_value e).1 /\ 0 <= (e_value e).2 < 2 ^ 64.

(** An entry that is put is read back. *)
Lemma entry_roundtrip e : wf_entry e -> entry_unpackValue (entry_packValue e) = Ret e.
Proof.
  intros (Hp & Hl & [Hh1 Hh2] & Hi). unfold entry_unpackValue. cbn [v_data entry_packValue v_user_type].
  assert (Hb : entry_pack e = pack (entry_obj e) ++ []).
  { unfold entry_pack, entry_obj, hash_pack. rewrite pack_OMap. cbn [map concat]. rewrite !pack_kv_eq, pack_OBin, app_nil_r.
    cbn [pack]. cbn [map concat]. rewrite !app_nil_r, <- !app_assoc. reflexivity. }
  rewrite Hb, unpack_packed; [|clear Hb|constructor].
  - cbn [mbind outcome_bind fst]. unfold entry_convert, entry_obj.
    set (l := [_; _]). assert (forallb string_key l = true) as -> by reflexivity.
    assert (first_pair (str "prefix") l = Some (OBin (e_prefix e))) as -> by reflexivity.
    assert (first_pair (str "value") l = Some (OArr [OBin (e_value e).1; OPos (e_value e).2])) as -> by reflexivity.
    cbn [negb as_blob mbind outcome_bind as_value_pair]. rewrite hash_unpack_ok, as_uint_ok by done. by destruct e as [? [? ?] ?].
  - unfold entry_obj. cbn. unfold len. rewrite Hh1. split_and!; try done; try lia; repeat constructor; cbn; try done; try lia; auto using str_wf.
Qed.
End Entries.

(** ** The search for a leaf *)

(** [struct node_lookup_result]. *)
Record NodeRes := mkRes { r_done : bool; r_pht : bool }.
Definition NodeRes_make : NodeRes := mkRes false false.
Definition set_done (x : NodeRes) : NodeRes := mkRes true (r_pht x).
Definition set_pht (x : NodeRes) : NodeRes := mkRes (r_done x) true.

(** One call of [lookupStep] that asked the DHT: what its callbacks share. *)
Record Frame := mkFrame { f_p : Prefix; f_mid : Z; f_first : NodeRes; f_second : NodeRes }.

(** A [get] under way: the call it belongs to, which of the two it is, the values it still
    brings, and how it ends. *)
Record Get {G : Gnutls} := mkGet { g_frame : nat; g_second : bool; g_left : list Value; g_ok : bool }.

(** The calls of the application's callbacks. *)
Inductive Out :=
| OCb (vals : list IndexEntry) (p : Prefix)
| ODone (ok : bool).

(** The variables the steps of one search share, its frames and gets, the cache, and the
    callbacks made.  [s_max] is [max_common_prefix_len], absent for an exact search. *)
Record Search {G : Gnutls} := mkSearch {
  s_lo : Z;
  s_hi : Z;
  s_vals : list IndexEntry;
  s_max : option Z;
  s_frames : list Frame;
  s_gets : list Get;
  s_cache : Cache;
  s_out : list Out;
}.

Section Pht.
Context {G : Gnutls}.

Definition s_set_lo (lo : Z) (s : Search) : Search := mkSearch _ lo (s_hi s) (s_vals s) (s_max s) (s_frames s) (s_gets s) (s_cache s) (s_out s).
Definition s_set_hi (hi : Z) (s : Search) : Search := mkSearch _ (s_lo s) hi (s_vals s) (s_max s) (s_frames s) (s_gets s) (s_cache s) (s_out s).
Definition s_set_vals (v : list IndexEntry) (m : option Z) (s : Search) : Search := mkSearch _ (s_lo s) (s_hi s) v m (s_frames s) (s_gets s) (s_cache s) (s_out s).
Definition s_set_gets (g : list Get) (s : Search) : Search := mkSearch _ (s_lo s) (s_hi s) (s_vals s) (s_max s) (s_frames s) g (s_cache s) (s_out s).
Definition s_set_frame (i : nat) (f : Frame) (s : Search) : Search :=
  mkSearch _ (s_lo s) (s_hi s) (s_vals s) (s_max s) (<[i := f]> (s_frames s)) (s_gets s) (s_cache s) (s_out s).
Definition s_set_cache (c : Cache) (s : Search) : Search := mkSearch _ (s_lo s) (s_hi s) (s_vals s) (s_max s) (s_frames s) (s_gets s) c (s_out s).
Definition s_call (o : Out) (s : Search) : Search := mkSearch _ (s_lo s) (s_hi s) (s_vals s) (s_max s) (s_frames s) (s_gets s) (s_cache s) (s_out s ++ [o]).
Definition s_push (f : Frame) (gs : list Get) (s : Search) : Search :=
  mkSearch _ (s_lo s) (s_hi s) (s_vals s) (s_max s) (s_frames s ++ [f]) (s_gets s ++ gs) (s_cache s) (s_out s).

(** The name of the index and the canary, what a [get] of a key brings and whether it
    succeeds, [InfoHash::get]; the callbacks that are set and [all_values]. *)
Context (name_ : bytes) (dht_get : Hash -> list Value * bool) (infohash_get : bytes -> Hash).
Context (has_cb has_done all_values : bool).

Definition canary_ : bytes := name_ ++ str ".canary".

Definition prefix_hash (p : Prefix) : Hash := infohash_get (label p).

(** [pht_filter]: [user_type.compare(0, name_.size(), name_) == 0]. *)
Definition pht_filter (v : Value) : bool := bool_decide (take (length name_) (v_user_type v) = name_).

Definition get_for (i : nat) (second : bool) (p : Prefix) : Get :=
  let '(vs, ok) := dht_get (prefix_hash p) in mkGet _ i second (List.filter pht_filter vs) ok.

(** [lookupStep] and its [on_done], which call each other: a call is one or the other;
    [fuel] bounds how deep. *)
Inductive Call :=
| CStep (p : Prefix) (start : Z)
| COnDone (p : Prefix) (mid : Z) (first second : NodeRes) (ok : bool).

Definition done_call (ok : bool) (s : Search) : Search := if has_done then s_call (ODone ok) s else s.

Definition mid_of (start : Z) (s : Search) : Z := u32 (if 0 <=? start then start else Z.quot (s_lo s + s_hi s) 2).

Definition i32 (z : Z) : Z := if z <? 2 ^ 31 then z else z - 2 ^ 32.

Fixpoint run_call (fuel : nat) (now : Z) (c : Call) (s : Search) : option (outcome Search) :=
  match fuel with
  | O => None
  | S fuel' =>
      match c with
      | CStep p start =>
          let mid := mid_of start s in
          if s_lo s <=? s_hi s then
            Some (p1 ← getPrefix p mid;
                  let i := length (s_frames s) in
                  let f := mkFrame p mid NodeRes_make NodeRes_make in
                  if mid <? u64 (size_ p - 1)
                  then p2 ← getPrefix p (u32 (mid + 1)); Ret (s_push f [get_for i false p1; get_for i true p2] s)
                  else Ret (s_push f [get_for i false p1] s))
          else run_call fuel' now (COnDone p mid NodeRes_make NodeRes_make true) s
      | COnDone p mid first second ok =>
          let is_leaf := r_pht first && negb (r_pht second) in
          if negb ok then Some (Ret (done_call false s))
          else if is_leaf || (s_hi s <? s_lo s) then
            match (to_insert ← getPrefix p mid; c' ← cache_insert to_insert now (s_cache s); Ret (to_insert, c')) with
            | Ret (to_insert, c') =>
                let s1 := s_set_cache c' s in
                if has_cb then
                  let inner :=
                    match s_vals s1, s_max s1 with
                    | [], Some _ =>
                        if 0 <? mid then
                          match (p1 ← getPrefix p mid; sib ← getSibling p1; getFullSize sib) with
                          | Ret p_ => run_call fuel' now (CStep p_ (-1)) (s_set_hi (i32 (u32 (size_ p_))) (s_set_lo (i32 mid) s1))
                          | Throw w => Some (Throw w) | Undef w => Some (Undef w) | Terminate w => Some (Terminate w)
                          end
                        else Some (Ret s1)
                    | _, _ => Some (Ret s1)
                    end in
                  match inner with
                  | Some (Ret s2) => Some (Ret (done_call true (s_call (OCb (s_vals s2) to_insert) s2)))
                  | r => r
                  end
                else Some (Ret (done_call true s1))
            | Throw w => Some (Throw w) | Undef w => Some (Undef w) | Terminate w => Some (Terminate w)
            end
          else if r_pht first then run_call fuel' now (CStep p (-1)) (s_set_lo (i32 (u32 (mid + 1))) s)
          else Some (Ret (done_call false s))
      end
  end.

(** [on_get]: a canary marks the node, an entry is collected once.  [None] when the
    comparison with the entry never ends. *)
Definition on_get (p : Prefix) (v : Value) (s : Search) : option (outcome Search) :=
  match entry_unpackValue v with
  | Ret entry =>
      if existsb (fun ie => bool_decide (e_value ie = e_value entry)) (s_vals s) then Some (Ret s)
      else
        match s_max s with
        | Some m =>
            match prefix_commonBits p (Prefix_of_blob (e_prefix entry) []) with
            | Ret (Some common_bits) =>
                Some (Ret (match s_vals s with
                           | [] => s_set_vals [entry] (Some common_bits) s
                           | _ => if common_bits =? m then s_set_vals (s_vals s ++ [entry]) (Some m) s
                                  else if m <? common_bits then s_set_vals [entry] (Some common_bits) s else s
                           end))
            | Ret None => None
            | Throw w => Some (Throw w) | Undef w => Some (Undef w) | Terminate w => Some (Terminate w)
            end
        | None => Some (Ret (if all_values || bool_decide (e_prefix entry = content_ p) then s_set_vals (s_vals s ++ [entry]) None s else s))
        end
  | Throw w => Some (Throw w) | Undef w => Some (Undef w) | Terminate w => Some (Terminate w)
  end.

Definition mark (second : bool) (h : NodeRes -> NodeRes) (f : Frame) : Frame :=
  if second then mkFrame (f_p f) (f_mid f) (f_first f) (h (f_second f)) else mkFrame (f_p f) (f_mid f) (h (f_first f)) (f_second f).

(** The callback of a [get] for one value. *)
Definition on_value (g : Get) (v : Value) (s : Search) : option (outcome Search) :=
  match s_frames s !! g_frame g with
  | None => Some (Undef "no such call")
  | Some f =>
      if bool_decide (v_user_type v = canary_) then Some (Ret (s_set_frame (g_frame g) (mark (g_second g) set_pht f) s))
      else on_get (f_p f) v s
  end.

(** The callbacks of the two [get]s when they end. *)
Definition on_first_done (fuel : nat) (now : Z) (i : nat) (f : Frame) (ok : bool) (s : Search) : option (outcome Search) :=
  let f' := mark false set_done f in
  if negb ok then
    let s1 := s_set_frame i f' s in
    if has_done && r_done (f_second f) then run_call fuel now (COnDone (f_p f) (f_mid f) (f_first f') (f_second f) false) s1 else Some (Ret s1)
  else if negb (r_pht (f_first f)) then
    run_call fuel now (CStep (f_p f) (-1)) (s_set_hi (i32 (u32 (f_mid f - 1))) s)
  else
    let s1 := s_set_frame i f' s in
    if r_done (f_second f) || (u64 (size_ (f_p f) - 1) <=? f_mid f)
    then run_call fuel now (COnDone (f_p f) (f_mid f) (f_first f') (f_second f) true) s1 else Some (Ret s1).

Definition on_second_done (fuel : nat) (now : Z) (i : nat) (f : Frame) (ok : bool) (s : Search) : option (outcome Search) :=
  let f' := mark true set_done f in
  let s1 := s_set_frame i f' s in
  if negb ok then
    if has_done && r_done (f_first f) then run_call fuel now (COnDone (f_p f) (f_mid f) (f_first f) (f_second f') false) s1 else Some (Ret s1)
  else if r_done (f_first f) then run_call fuel now (COnDone (f_p f) (f_mid f) (f_first f) (f_second f') true) s1 else Some (Ret s1).

(** The [i]-th [get] under way makes progress: it brings a value, or ends. *)
Definition deliver (fuel : nat) (now : Z) (i : nat) (s : Search) : option (outcome Search) :=
  match s_gets s !! i with
  | None => Some (Ret s)
  | Some g =>
      match g_left g with
      | v :: vs => on_value g v (s_set_gets (<[i := mkGet _ (g_frame g) (g_second g) vs (g_ok g)]> (s_gets s)) s)
      | [] =>
          let s1 := s_set_gets (delete i (s_gets s)) s in
          match s_frames s !! g_frame g with
          | None => Some (Undef "no such call")
          | Some f => if g_second g then on_second_done fuel now (g_frame g) f (g_ok g) s1 else on_first_done fuel now (g_frame g) f (g_ok g) s1
          end
      end
  end.

(** A run: the [get]s progress in the order of a schedule. *)
Fixpoint run (fuel : nat) (now : Z) (sched : list nat) (s : Search) : option (outcome Search) :=
  match sched with
  | [] => Some (Ret s)
  | i :: sched' =>
      match deliver fuel now i s with
      | Some (Ret s') => run fuel now sched' s'
      | r => r
      end
  end.

(** The start of a search for the prefix [p], from the hint [start] of the cache. *)
Definition search_start (fuel : nat) (now : Z) (p : Prefix) (start : Z) (max : option Z) (c : Cache) : option (outcome Search) :=
  run_call fuel now (CStep p start) (mkSearch _ 0 (size_ p) [] max [] [] c []).

(** [lookup]: the key as a prefix, the hint of the cache, the search; what the callback of
    the application is given.  [None]: the key is never linearized, or [fuel] is short. *)
Definition lookup (fuel : nat) (spec : KeySpec) (k : Key) (exact_match : bool) (now : Z) (c : Cache) : option (outcome Search) :=
  match linearize spec k with
  | Ret (Some p) =>
      match cache_lookup p now c with
      | Ret (start, c') => search_start fuel now p start (if exact_match then None else Some 0) c'
      | Throw w => Some (Throw w) | Undef w => Some (Undef w) | Terminate w => Some (Terminate w)
      end
  | Ret None => None
  | Throw w => Some (Throw w) | Undef w => Some (Undef w) | Terminate w => Some (Terminate w)
  end.

Definition lookup_values (entries : list IndexEntry) : list (Hash * Z) := map e_value entries.

(** ** Insertions

    The operations asked from the DHT, in order: a [put], with the prefix whose parent may
    be updated when it ends and the creation time it is given, and a [listen] for a canary below the node, with what to insert
    again. *)

Inductive Cmd :=
| CPut (h : Hash) (v : Value) (update : option Prefix) (created : option Z)
| CListen (h : Hash) (full : Prefix) (e : IndexEntry) (time_p : Z).

Definition canary_value : Value := mkValue 0 None (Hash_zero HASH_LEN) 0 [] canary_ 0 [] [] 0.

Definition updateCanary (p : Prefix) : outcome (list Cmd) :=
  if size_ p =? 0 then Ret [CPut (prefix_hash p) canary_value (Some p) None]
  else sib ← getSibling p; Ret [CPut (prefix_hash p) canary_value (Some p) None; CPut (prefix_hash sib) canary_value None None].

(** The end of the first [put], with the toss of the coin. *)
Definition on_canary_put (coin : bool) (p : Prefix) : outcome (list Cmd) :=
  if negb (size_ p =? 0) && coin then q ← getPrefix p (-1); updateCanary q else Ret [].

Definition checkPhtUpdate (p : Prefix) (entry : IndexEntry) (time_p : Z) : outcome (list Cmd) :=
  let full := Prefix_of_blob (e_prefix entry) [] in
  if bits (content_ full) <=? bits (content_ p) then Ret []
  else next_prefix ← getPrefix full (size_ p + 1); Ret [CListen (prefix_hash next_prefix) full entry time_p].

(** What the listener does with a value: whether the entry is inserted again, which also
    ends it. *)
Definition on_listen (v : Value) : bool := bool_decide (v_user_type v = canary_).

Definition real_insert (p : Prefix) (entry : IndexEntry) (time_p now : Z) (c : Cache) : outcome (list Cmd * Cache) :=
  canaries ← updateCanary p;
  listens ← checkPhtUpdate p entry time_p;
  c' ← cache_insert p now c;
  Ret (canaries ++ listens ++ [CPut (prefix_hash p) (entry_packValue entry) None (Some time_p)], c').

(** [getRealPrefix]: either the root at once, or three [get]s that share a count. *)
Record OpState := mkOp { entry_count : Z; op_ended : Z; op_parent : Prefix }.

Definition getRealPrefix (p : Prefix) : outcome (option (OpState * list Hash)) :=
  if size_ p =? 0 then Ret None
  else
    parent ← getPrefix p (-1);
    sib ← getSibling p;
    Ret (Some (mkOp 0 0 parent, [prefix_hash parent; prefix_hash p; prefix_hash sib])).

Definition op_count (v : Value) (st : OpState) : OpState :=
  if bool_decide (v_user_type v = canary_) then st else mkOp (u32 (entry_count st + 1)) (op_ended st) (op_parent st).

(** The end of one of the [get]s: the prefix for [end_cb] after the last one. *)
Definition op_done (p : Prefix) (st : OpState) : OpState * option Prefix :=
  let st' := mkOp (entry_count st) (u32 (op_ended st + 1)) (op_parent st) in
  (st', if op_ended st' =? 3
        then Some (if entry_count st' <? Z.of_nat MAX_NODE_ENTRY_COUNT then op_parent st' else p) else None).

(** [split]: canaries from the split point up to the leaf that was found; [fuel]
    bounds the turns of the loop. *)
Fixpoint split_loop_canaries (fuel : nat) (full : Prefix) (loc stop : Z) : option (outcome (list Cmd)) :=
  if loc =? stop then Some (Ret [])
  else
    match fuel with
    | O => None
    | S fuel' =>
        match (q ← getPrefix full (if loc <? 2 ^ 63 then loc else loc - 2 ^ 64); updateCanary q) with
        | Ret cs =>
            match split_loop_canaries fuel' full (u64 (loc - 1)) stop with
            | Some (Ret cs') => Some (Ret (cs ++ cs'))
            | r => r
            end
        | r => Some r
        end
    end.

(** [Prefix(entry.prefix)], the whole key of an entry. *)
Definition full_of (e : IndexEntry) : Prefix := Prefix_of_blob (e_prefix e) [].

Definition split (insert : Prefix) (vals : list IndexEntry) (entry : IndexEntry) (time_p now : Z) (c : Cache) : option (outcome (list Cmd * Cache)) :=
  let full := Prefix_of_blob (e_prefix entry) [] in
  match (loc ← findSplitLocation full (map e_prefix vals); q ← getPrefix full loc; Ret (loc, q)) with
  | Ret (loc, prefix_to_insert) =>
      match split_loop_canaries (Z.to_nat (bits (content_ full))) full loc (u64 (size_ insert - 1)) with
      | Some (Ret cs) => Some ('(cs', c') ← real_insert prefix_to_insert entry time_p now c; Ret (cs ++ cs', c'))
      | Some (Throw w) => Some (Throw w) | Some (Undef w) => Some (Undef w) | Some (Terminate w) => Some (Terminate w)
      | None => None
      end
  | Throw w => Some (Throw w) | Undef w => Some (Undef w) | Terminate w => Some (Terminate w)
  end.

(** [insert]: nothing for an entry that has expired; else the search, of all the values of
    the nodes it meets. *)
Definition USER_DATA_expiration_time : Z := minutes 10.

Definition insert_start (fuel : nat) (kp : Prefix) (lo hi time_p now : Z) (c : Cache) : option (outcome (option Search)) :=
  if time_p + USER_DATA_expiration_time <? now then Some (Ret None)
  else
    match cache_lookup kp now c with
    | Ret (start, c') =>
        match run_call fuel now (CStep kp start) (mkSearch _ lo hi [] None [] [] c' []) with
        | Some (Ret s) => Some (Ret (Some s))
        | Some (Throw w) => Some (Throw w) | Some (Undef w) => Some (Undef w) | Some (Terminate w) => Some (Terminate w)
        | None => None
        end
    | Throw w => Some (Throw w) | Undef w => Some (Undef w) | Terminate w => Some (Terminate w)
    end.

(** What follows the search: the application hears of a failure, the operations of an
    insertion, or the count of the entries around the leaf. *)
Inductive Next :=
| NFailed
| NInsert (cs : list Cmd) (c : Cache)
| NCount (st : OpState) (gets : list Hash).

Definition insert_done (kp : Prefix) (entry : IndexEntry) (final_prefix : Prefix) (vals : list IndexEntry) (check_split : bool) (time_p now : Z)
    (ok : bool) (c : Cache) : option (outcome Next) :=
  let real p := match real_insert p entry time_p now c with
                | Ret (cs, c') => Some (Ret (NInsert cs c'))
                | Throw w => Some (Throw w) | Undef w => Some (Undef w) | Terminate w => Some (Terminate w)
                end in
  if negb ok then Some (Ret NFailed)
  else if negb check_split || (size_ final_prefix =? size_ kp) then real final_prefix
  else if (length vals <? MAX_NODE_ENTRY_COUNT)%nat then
    match getRealPrefix final_prefix with
    | Ret None => real final_prefix
    | Ret (Some (st, gets)) => Some (Ret (NCount st gets))
    | Throw w => Some (Throw w) | Undef w => Some (Undef w) | Terminate w => Some (Terminate w)
    end
  else
    match split final_prefix vals entry time_p now c with
    | Some (Ret (cs, c')) => Some (Ret (NInsert cs c'))
    | Some (Throw w) => Some (Throw w) | Some (Undef w) => Some (Undef w) | Some (Terminate w) => Some (Terminate w)
    | None => None
    end.

(** The public [insert]: the entry of a key and a value. *)
Definition insert_entry (spec : KeySpec) (k : Key) (v : Hash * Z) : outcome (option (Prefix * IndexEntry)) :=
  p ← linearize spec k; Ret (match p with Some p => Some (p, mkEntry (content_ p) v name_) | None => None end).

(** ** What a split puts *)

Definition canary_at (q : Prefix) : Cmd := CPut (prefix_hash q) canary_value (Some q) None.

Lemma getSibling_ok p : wf_prefix p -> exists s, getSibling p = Ret s.
Proof.
  intros (Hc & _ & _ & Hs & Hb). unfold getSibling. destruct (Z.eqb_spec (size_ p) 0); [by eexists|]. unfold swapContentBit. rewrite wrap_small by lia.
  destruct (swapBit_spec (content_ p) (size_ p - 1) Hc ltac:(lia)) as (c & -> & _). by eexists.
Qed.

Lemma updateCanary_ok p : wf_prefix p -> exists cs, updateCanary p = Ret (canary_at p :: cs).
Proof. intros Hp. unfold updateCanary. destruct (size_ p =? 0); [by eexists|]. destruct (getSibling_ok p Hp) as (s & ->). by eexists. Qed.

(** The loop of [split] ends, after a canary for each length. *)
Lemma split_loop_canaries_ok full s : wf_prefix full -> 0 <= s -> forall n fuel, s - 1 + Z.of_nat n < bits (content_ full) -> (n <= fuel)%nat ->
  exists cs, split_loop_canaries fuel full (u64 (s - 1 + Z.of_nat n)) (u64 (s - 1)) = Some (Ret cs) /\
    forall k q, s <= k < s + Z.of_nat n -> getPrefix full k = Ret q -> canary_at q ∈ cs.
Proof.
  intros Hp Hs. pose proof Hp as (_ & _ & _ & _ & Hb). induction n as [|n IH]; intros fuel Hn Hf.
  - exists []. rewrite Z.add_0_r. split; [destruct fuel; cbn; by rewrite Z.eqb_refl|]. intros k q Hk. lia.
  - destruct fuel as [|fuel]; [lia|]. set (loc := s - 1 + Z.of_nat (S n)) in *. rewrite (wrap_small 64 loc) by lia. cbn [split_loop_canaries].
    assert (Hne : (loc =? u64 (s - 1)) = false).
    { apply Z.eqb_neq. destruct (decide (s = 0)) as [->|]; [change (u64 (0 - 1)) with (2 ^ 64 - 1); lia|rewrite wrap_small by lia; lia]. }
    rewrite Hne, (proj2 (Z.ltb_lt _ _)) by lia. destruct (getPrefix_spec full loc Hp ltac:(lia)) as (q & Hq & Hwq & _). rewrite Hq. cbn [mbind outcome_bind].
    destruct (updateCanary_ok q Hwq) as (cs & ->). replace (loc - 1) with (s - 1 + Z.of_nat n) by lia. destruct (IH fuel ltac:(lia) ltac:(lia)) as (cs' & -> & Hcs').
    eexists. split; [done|]. intros k q' Hk Hq'. destruct (decide (k = loc)) as [->|]; [|apply elem_of_app; right; apply (Hcs' k); [lia|done]].
    rewrite Hq in Hq'. injection Hq' as <-. apply elem_of_app. left. left.
Qed.

Lemma real_insert_ok q entry time_p now c l : wf_prefix q -> repr c l -> size_ q < bits (e_prefix entry) -> wf_prefix (Prefix_of_blob (e_prefix entry) []) ->
  size_ q + 1 < bits (e_prefix entry) \/ bits (e_prefix entry) <= bits (content_ q) ->
  exists cs c' l', real_insert q entry time_p now c = Ret (canary_at q :: cs ++ [CPut (prefix_hash q) (entry_packValue entry) None (Some time_p)], c') /\ repr c' l'.
Proof.
  intros Hq Hc Hs Hf Hor. unfold real_insert. destruct (updateCanary_ok q Hq) as (cs & ->). cbn [mbind outcome_bind].
  assert (Hl : exists ls, checkPhtUpdate q entry time_p = Ret ls).
  { unfold checkPhtUpdate. cbn [content_ Prefix_of_blob]. destruct (Z.leb_spec (bits (e_prefix entry)) (bits (content_ q))); [by eexists|].
    destruct (getPrefix_spec _ (size_ q + 1) Hf) as (q' & -> & _); [cbn; destruct Hq as (_ & _ & _ & ? & _); lia|]. by eexists. }
  destruct Hl as (ls & ->). cbn [mbind outcome_bind]. pose proof Hq as (_ & _ & _ & Hsz & _). destruct (cache_insert_repr q now c l Hc Hsz) as (c' & -> & Hr).
  exists (cs ++ ls), c'. eexists. split; [|exact Hr]. cbn [mbind outcome_bind]. do 2 f_equal. cbn. by rewrite app_assoc.
Qed.

(** C19. [split] of a full leaf, for entries that share the bits of the leaf with the
    key: it ends and nothing fails; the entry is put at a prefix of the key that is
    longer than what the key shares with all of the entries (or one bit short of the
    key), after a canary was put at every prefix of the key from the leaf down to it,
    so that the search for the key walks down to the new leaf; and the cache still
    refines a list of paths. *)
Theorem split_covers insert vals entry time_p now c l : wf_prefix (full_of entry) -> 0 <= size_ insert < bits (e_prefix entry) -> repr c l ->
  Forall (fun v => length (e_prefix v) = length (e_prefix entry) /\ forall m, 0 <= m < size_ insert -> agrees (full_of entry) m (e_prefix v)) vals ->
  exists loc q cs c' l', split insert vals entry time_p now c = Some (Ret (cs ++ [CPut (prefix_hash q) (entry_packValue entry) None (Some time_p)], c')) /\
    getPrefix (full_of entry) loc = Ret q /\ size_ insert <= loc < bits (e_prefix entry) /\
    (forall k qk, size_ insert <= k <= loc -> getPrefix (full_of entry) k = Ret qk -> canary_at qk ∈ cs) /\
    (loc = bits (e_prefix entry) - 1 \/ exists v, v ∈ vals /\ ~ agrees (full_of entry) (loc - 1) (e_prefix v)) /\
    repr c' l'.
Proof.
  unfold full_of. set (full := Prefix_of_blob _ _). intros Hw Hi Hc Hv. change (e_prefix entry) with (content_ full) in Hi. unfold split. fold full. pose proof Hw as (_ & _ & _ & _ & Hb).
  destruct (findSplitLocation_spec full (map e_prefix vals)) as (loc & Hloc & Hr & _ & Hd).
  { intros E. rewrite E in Hi. unfold len in Hi. cbn in Hi. lia. }
  { apply Forall_fmap. eapply Forall_impl; [exact Hv|]. by intros v [? _]. }
  assert (Hge : size_ insert <= loc /\ (loc = bits (content_ full) - 1 \/ exists v, v ∈ vals /\ ~ agrees full (loc - 1) (e_prefix v))).
  { destruct Hd as [(Hpos & x & Hx & Hn)|[? _]]; [|split; [lia|by left]]. apply list_elem_of_fmap in Hx as (v & -> & Hx). split; [|right; by exists v].
    rewrite Forall_forall in Hv. destruct (Hv v Hx) as [_ Hag]. destruct (decide (loc - 1 < size_ insert)); [|lia]. exfalso. apply Hn, Hag. lia. }
  rewrite Hloc. cbn [mbind outcome_bind]. destruct (getPrefix_spec full loc Hw ltac:(lia)) as (q & Hq & Hwq & Hsz & Hlen & _). rewrite Hq.
  destruct (split_loop_canaries_ok full (size_ insert) Hw ltac:(lia) (Z.to_nat (loc - size_ insert + 1)) (Z.to_nat (bits (content_ full)))) as (cs & Hcs & Hall); [lia..|].
  replace (size_ insert - 1 + Z.of_nat (Z.to_nat (loc - size_ insert + 1))) with loc in Hcs by lia. rewrite (wrap_small 64 loc) in Hcs by lia. cbn [mbind outcome_bind]. rewrite Hcs.
  destruct (real_insert_ok q entry time_p now c l Hwq Hc) as (cs' & c' & l' & -> & Hc'); [cbn in *; lia|done| |].
  { rewrite Hsz, Hlen. destruct (decide (loc + 1 < bits (e_prefix entry))); [by left|right]. cbn in *. replace loc with (bits (e_prefix entry) - 1) by lia.
    replace (bits (e_prefix entry) - 1 + 7) with (6 + len (e_prefix entry) * 8) by lia. rewrite Z.div_add by lia. change (6 / 8) with 0. lia. }
  exists loc, q, (cs ++ canary_at q :: cs'), c', l'. change (content_ full) with (e_prefix entry) in *. split; [|split_and!; try done; try lia].
  - cbn [mbind outcome_bind]. by rewrite <- app_assoc.
  - intros k qk Hk Hqk. apply elem_of_app. left. apply (Hall k); [lia|done].
  - by destruct Hge.
Qed.
End Pht.

(** ** A small index *)

Module PhtDemo.
Definition G : Gnutls := GnutlsDemo.demo.
Definition name_ : bytes := INDEX_PREFIX ++ str "demo".

(** A hash that tells short labels apart. *)
Definition infohash_get (b : bytes) : Hash := take 20 (b ++ replicate 20 0).

Definition value (n : Z) : Hash * Z := (replicate 20 n, n).
Definition entry (x n : Z) : IndexEntry := mkEntry [x] (value n) name_.

(** The key 1010 0000; its leaf has two bits and holds the key's entry and another one. *)
Definition key : Prefix := Prefix_of_blob [160] [].
Definition dht_get (h : Hash) : list (@Value G) * bool :=
  let canary := canary_value (G := G) name_ in
  (if bool_decide (h = infohash_get [0]) || bool_decide (h = infohash_get [128; 1]) then [canary]
   else if bool_decide (h = infohash_get [128; 2])
   then [entry_packValue (G := G) (entry 160 7); canary; entry_packValue (G := G) (entry 191 8)]
   else [], true).
End PhtDemo.

Lemma split_covers_witness : exists loc q cs c', @split PhtDemo.G PhtDemo.name_ PhtDemo.infohash_get (mkPrefix 2 [] [128]) [PhtDemo.entry 191 8] (PhtDemo.entry 160 7) 0 0 Cache_make =
    Some (Ret (cs ++ [CPut (prefix_hash PhtDemo.infohash_get q) (entry_packValue (PhtDemo.entry 160 7)) None (Some 0)], c')) /\ 2 <= loc < 8.
Proof.
  destruct (split_covers (G := PhtDemo.G) PhtDemo.name_ PhtDemo.infohash_get (mkPrefix 2 [] [128]) [PhtDemo.entry 191 8] (PhtDemo.entry 160 7) 0 0 Cache_make [])
    as (loc & q & cs & c' & l' & H1 & _ & H2 & _).
  - unfold wf_prefix. cbn. split_and!; first [by_compute|by left|done].
  - done.
  - exact Cache_make_repr.
  - constructor; [|constructor]. split; [done|]. intros m Hm. assert (m = 0 \/ m = 1) as [->| ->] by (cbn in Hm; lia); reflexivity.
  - exists loc, q, cs, c'. split; [exact H1|exact H2].
Defined.
