(* ===== verification/PhtSearch.v ===== *)
(** * PhtSearch: the search of the prefix hash tree finds the leaf

    Proofs about [lookupStep] (Pht.v) in the exact mode that [lookup] and [insert] use: on a
    tree whose nodes along the key are the prefixes up to some length, and with a DHT that
    answers, the search ends whatever the order of the callbacks, reports once, and reports
    the leaf with the entries stored there. *)
From S2P Require Import Prelude StdMap InfoHash Node MsgPack Value Prefix PhtCache Pht.

Section Search.
Context {G : Gnutls} (name_ : bytes) (dht_get : Hash -> list Value * bool) (infohash_get : bytes -> Hash) (all_values : bool).
Context (p : Prefix) (N L B : Z).

Abbreviation call := (run_call name_ dht_get infohash_get true true).
Abbreviation progress := (deliver name_ dht_get infohash_get true true all_values).

(** The prefix of [j] bits of the key, and what a [get] for it brings. *)
Definition pre (j : Z) : Prefix := match getPrefix p j with Ret q => q | _ => Prefix_default end.
Definition ans (j : Z) : list Value := List.filter (pht_filter name_) (dht_get (prefix_hash infohash_get (pre j))).1.
Definition is_canary (v : Value) : bool := bool_decide (v_user_type v = canary_ name_).
Definition is_node (j : Z) : bool := existsb is_canary (ans j).

(** The tree along the key: the prefixes of at most [L] bits are nodes (none when [L] is
    -1), the DHT answers every [get], with less than [B] values, and the values of the
    index are entries or canaries. *)
Record tree : Prop := {
  t_wf : wf_prefix p;
  t_size : size_ p = N /\ N <= bits (content_ p);
  t_range : 1 <= N < 2 ^ 31;
  t_depth : -1 <= L < N;
  t_nodes j : 0 <= j < N -> is_node j = (j <=? L);
  t_answers j : 0 <= j < N -> (dht_get (prefix_hash infohash_get (pre j))).2 = true /\ Z.of_nat (length (ans j)) < B;
  t_entries j v : 0 <= j < N -> v ∈ ans j -> is_canary v = false -> exists e, entry_unpackValue v = Ret e;
}.

Definition matches (e : IndexEntry) : Prop := all_values = true \/ e_prefix e = content_ p.

(** Every matching entry among the values [d] was collected. *)
Definition collected (d : list Value) (vals : list IndexEntry) : Prop :=
  forall v e, v ∈ d -> is_canary v = false -> entry_unpackValue v = Ret e -> matches e -> exists e', e' ∈ vals /\ e_value e' = e_value e.

(** What is collected matches, and no value is there twice. *)
Definition good_vals (vals : list IndexEntry) : Prop := Forall matches vals /\ NoDup (map e_value vals).

Definition gkey_of (g : Get) : nat * bool := (g_frame g, g_second g).
Definition keys (s : Search) : list (nat * bool) := map gkey_of (s_gets s).
Definition res (w : bool) (f : Frame) : NodeRes := if w then f_second f else f_first f.
Definition target (w : bool) (f : Frame) : Z := if w then f_mid f + 1 else f_mid f.

(** A [get] under way: it has brought the values [d] and the canaries among them are
    noted. *)
Definition get_ok (fs : list Frame) (vals : list IndexEntry) (g : Get) : Prop :=
  exists f d, fs !! g_frame g = Some f /\ 0 <= f_mid f /\ target (g_second g) f < N /\ ans (target (g_second g) f) = d ++ g_left g /\
    res (g_second g) f = mkRes false (existsb is_canary d) /\ g_ok g = true /\ collected d vals.

(** A call whose [get]s can no longer move the search. *)
Definition dead (s : Search) (i : nat) : Prop :=
  forall f, s_frames s !! i = Some f -> ~ (i, false) ∈ keys s /\ (r_done (f_first f) = false \/ ~ (i, true) ∈ keys s).

(** The interval holds the leaf. *)
Definition interval (s : Search) : Prop := 0 <= s_lo s /\ (s_lo s = 0 \/ s_lo s <= L) /\ L <= s_hi s <= N.

(** The last call waits for its [get]s. *)
Definition waiting (s : Search) (a : nat) (f : Frame) : Prop :=
  s_lo s <= f_mid f <= s_hi s /\ f_mid f < N /\
  ((a, false) ∈ keys s \/ (r_done (f_first f) = true /\ r_pht (f_first f) = true /\ f_mid f <= L /\ collected (ans (f_mid f)) (s_vals s))) /\
  (if f_mid f <? N - 1 then (a, true) ∈ keys s \/ (r_done (f_second f) = true /\ r_pht (f_second f) = (f_mid f + 1 <=? L))
   else ~ (a, true) ∈ keys s /\ f_second f = NodeRes_make) /\
  ((a, false) ∈ keys s \/ (a, true) ∈ keys s).

Definition active (s : Search) : Prop :=
  s_out s = [] /\ interval s /\ exists a f, length (s_frames s) = S a /\ s_frames s !! a = Some f /\ waiting s a f /\ forall i, (i < a)%nat -> dead s i.

(** The report: the leaf, or the root when there is no tree, and the entries of the
    leaf. *)
Definition reported (out : list Out) : Prop :=
  exists vals, out = [OCb vals (pre (Z.max L 0)); ODone true] /\ good_vals vals /\ (0 <= L -> collected (ans L) vals).

Definition finished (s : Search) : Prop := reported (s_out s) /\ forall i, dead s i.

Record common (s : Search) : Prop := {
  c_max : s_max s = None;
  c_cache : exists l, repr (s_cache s) l;
  c_frames : Forall (fun f => f_p f = p) (s_frames s);
  c_gets : Forall (get_ok (s_frames s) (s_vals s)) (s_gets s);
  c_keys : NoDup (keys s);
  c_vals : good_vals (s_vals s);
}.

Definition inv (s : Search) : Prop := common s /\ (active s \/ finished s).

Definition work (gs : list Get) : Z := foldr (fun g n => 1 + Z.of_nat (length (g_left g)) + n) 0 gs.
Definition potential (s : Search) : Z := (match s_out s with [] => (s_hi s - s_lo s) * (2 * B) | _ => 0 end) + work (s_gets s).

(** ** Bookkeeping *)

Lemma collected_mono d vals vals' : collected d vals -> vals ⊆ vals' -> collected d vals'.
Proof. intros H Hs v e Hv Hc He Hm. destruct (H v e Hv Hc He Hm) as (e' & ? & ?). exists e'. split; [by apply Hs|done]. Qed.

Lemma collected_nil vals : collected [] vals.
Proof. intros v e Hv. by apply elem_of_nil in Hv. Qed.

Lemma collected_snoc d v vals : collected d vals -> collected [v] vals -> collected (d ++ [v]) vals.
Proof. intros H1 H2 x e [Hx|Hx]%elem_of_app; [by apply H1|by apply H2]. Qed.

Lemma get_ok_mono fs vals vals' g : vals ⊆ vals' -> get_ok fs vals g -> get_ok fs vals' g.
Proof. intros Hs (f & d & H1 & H2 & H3 & H4 & H5 & H6 & H7). exists f, d. split_and!; try done. by eapply collected_mono. Qed.

Lemma get_ok_app fs fs' vals g : get_ok fs vals g -> get_ok (fs ++ fs') vals g.
Proof. intros (f & d & H1 & H). exists f, d. split; [by apply lookup_app_l_Some|done]. Qed.

Lemma mark_mid w h f : f_mid (mark w h f) = f_mid f.
Proof. by destruct w. Qed.
Lemma mark_p w h f : f_p (mark w h f) = f_p f.
Proof. by destruct w. Qed.
Lemma mark_same w h f : res w (mark w h f) = h (res w f).
Proof. by destruct w. Qed.
Lemma mark_other w w' h f : w' <> w -> res w' (mark w h f) = res w' f.
Proof. by destruct w, w'. Qed.
Lemma mark_target w w' h f : target w' (mark w h f) = target w' f.
Proof. destruct w'; cbn; by rewrite mark_mid. Qed.

(** Marking the result of one [get] does not touch the others. *)
Lemma mark_get_ok fs vals i w h f g : fs !! i = Some f -> gkey_of g <> (i, w) -> get_ok fs vals g -> get_ok (<[i := mark w h f]> fs) vals g.
Proof.
  intros Hi Hk (f' & d & H1 & H2 & H3 & H4 & H5 & H6 & H7). destruct (decide (g_frame g = i)) as [E|Hne].
  - rewrite E in H1. assert (f' = f) as -> by congruence. exists (mark w h f), d. rewrite E, list_lookup_insert_eq by (by eapply lookup_lt_Some).
    rewrite mark_mid, mark_target, mark_other; [done|]. intros Ew. apply Hk. unfold gkey_of. congruence.
  - exists f', d. rewrite list_lookup_insert_ne by done. done.
Qed.

Lemma frames_mark fs i w h f : fs !! i = Some f -> Forall (fun f => f_p f = p) fs -> Forall (fun f => f_p f = p) (<[i := mark w h f]> fs).
Proof. intros Hi Hf. apply Forall_insert; [done|]. rewrite mark_p. by eapply Forall_lookup_1 in Hi; [|exact Hf]. Qed.

(** ** A step of the search *)

Lemma pre_spec j : tree -> 0 <= j < N -> getPrefix p j = Ret (pre j) /\ 0 <= size_ (pre j) <= bits (content_ (pre j)).
Proof.
  intros T Hj. destruct (t_size T) as [_ Hb]. destruct (getPrefix_spec p j (t_wf T) ltac:(lia)) as (q & Hq & Hw & _). unfold pre. rewrite Hq.
  split; [done|]. by destruct Hw as (_ & _ & _ & ? & _).
Qed.

Lemma work_app gs gs' : work (gs ++ gs') = work gs + work gs'.
Proof. induction gs as [|g gs IH]; [done|]. cbn [app work foldr]. fold (work (gs ++ gs')) (work gs). lia. Qed.

Lemma get_for_eq i w j : tree -> 0 <= j < N -> get_for name_ dht_get infohash_get i w (pre j) = mkGet _ i w (ans j) true.
Proof.
  intros T Hj. unfold get_for, ans. destruct (t_answers T j Hj) as [Ho _]. destruct (dht_get _) as [vs ok]. cbn in *. by subst.
Qed.

Lemma new_get_ok fs f vals i w : fs !! i = Some f -> 0 <= f_mid f -> target w f < N -> res w f = NodeRes_make ->
  get_ok fs vals (mkGet _ i w (ans (target w f)) true).
Proof. intros Hi H0 Ht Hr. exists f, []. cbn. split_and!; try done. apply collected_nil. Qed.

Lemma keys_frames s g : common s -> g ∈ s_gets s -> (g_frame g < length (s_frames s))%nat.
Proof.
  intros Hc Hg. pose proof (c_gets s Hc) as H. rewrite Forall_forall in H. destruct (H g Hg) as (f & _ & Hf & _). by eapply lookup_lt_Some.
Qed.

(** Asking for the middle of an interval. *)
Lemma issue fuel now start s : tree -> common s -> s_out s = [] -> interval s -> s_lo s <= s_hi s -> (forall i, dead s i) ->
  (start = -1 \/ (s_lo s <= start <= s_hi s /\ 0 <= start < N)) ->
  exists s', call (S fuel) now (CStep p start) s = Some (Ret s') /\ common s' /\ active s' /\ potential s' <= potential s + 2 * B.
Proof.
  intros T Hc Ho (Hi1 & Hi2 & Hi3) Hle Hd Hst. destruct (t_size T) as [Hsz Hb]. pose proof (t_range T) as HN. pose proof (t_depth T) as HL. cbn [run_call].
  assert (Hmid : exists mid, mid_of start s = mid /\ s_lo s <= mid <= s_hi s /\ 0 <= mid < N).
  { exists (if 0 <=? start then start else (s_lo s + s_hi s) / 2). unfold mid_of.
    assert (s_lo s <= (s_lo s + s_hi s) / 2 <= s_hi s /\ (s_lo s + s_hi s) / 2 < N).
    { pose proof (Z.div_mod (s_lo s + s_hi s) 2 ltac:(lia)). pose proof (Z.mod_pos_bound (s_lo s + s_hi s) 2 ltac:(lia)). lia. }
    destruct (Z.leb_spec 0 start); [|rewrite Z.quot_div_nonneg by lia]; rewrite wrap_small; lia. }
  destruct Hmid as (mid & -> & Hm1 & Hm2). rewrite (proj2 (Z.leb_le _ _)) by done.
  destruct (pre_spec mid T Hm2) as [-> _]. cbn [mbind outcome_bind]. rewrite Hsz, (wrap_small 64) by lia. set (a := length (s_frames s)). set (f := mkFrame p mid NodeRes_make NodeRes_make).
  assert (Hfa : (s_frames s ++ [f]) !! a = Some f) by (unfold a; rewrite lookup_app_r by lia; by rewrite Nat.sub_diag).
  assert (Hka : forall w, ~ (a, w) ∈ keys s).
  { intros w Hin. apply list_elem_of_fmap in Hin as (g & E & Hg). pose proof (keys_frames s g Hc Hg). unfold gkey_of in E. unfold a in E. injection E as E _. lia. }
  set (gs := mkGet _ a false (ans mid) true :: if mid <? N - 1 then [mkGet _ a true (ans (mid + 1)) true] else []).
  assert (Hcall : (if mid <? N - 1 then p2 ← getPrefix p (u32 (mid + 1)); Ret (s_push f [get_for name_ dht_get infohash_get a false (pre mid); get_for name_ dht_get infohash_get a true p2] s)
    else Ret (s_push f [get_for name_ dht_get infohash_get a false (pre mid)] s)) = Ret (s_push f gs s)).
  { unfold gs. destruct (Z.ltb_spec mid (N - 1)); [|by rewrite get_for_eq].
    rewrite wrap_small by lia. destruct (pre_spec (mid + 1) T ltac:(lia)) as [-> _]. cbn [mbind outcome_bind]. by rewrite !get_for_eq by (done || lia). }
  rewrite Hcall. exists (s_push f gs s). split; [done|].
  assert (Hgs : forall k, k ∈ map gkey_of gs -> k.1 = a).
  { intros k Hk. unfold gs in Hk. destruct (mid <? N - 1); cbn in Hk; rewrite ?elem_of_cons, elem_of_nil in Hk; unfold gkey_of in Hk; cbn in Hk; naive_solver. }
  assert (Hkeys : keys (s_push f gs s) = keys s ++ map gkey_of gs) by (unfold keys; cbn; by rewrite map_app).
  split; [|split].
  - split; cbn; try apply Hc.
    + apply Forall_app. split; [apply Hc|]. by constructor.
    + apply Forall_app. split; [eapply Forall_impl; [apply Hc|]; intros g; apply get_ok_app|]. unfold gs. constructor.
      * apply (new_get_ok _ f _ a false); cbn; (done || lia).
      * destruct (Z.ltb_spec mid (N - 1)); [|constructor]. constructor; [|constructor]. apply (new_get_ok _ f _ a true); cbn; (done || lia).
    + change (NoDup (keys (s_push f gs s))). rewrite Hkeys. apply NoDup_app. split; [apply Hc|]. split.
      * intros [k w] Hk Hk'. apply Hgs in Hk'. cbn in Hk'. subst k. by apply (Hka w).
      * unfold gs. destruct (mid <? N - 1); cbn; [|apply NoDup_singleton]. apply NoDup_cons. split; [|apply NoDup_singleton]. by intros [=]%list_elem_of_singleton.
  - split; [done|]. split; [unfold interval; cbn; lia|]. exists a, f. split; [cbn; rewrite length_app; cbn; unfold a; lia|]. split; [done|]. split.
    + unfold waiting. rewrite Hkeys. unfold gs. cbn [f_mid f s_lo s_hi s_push f_second]. split; [lia|]. split; [lia|]. split; [left; apply elem_of_app; right; cbn; left|]. split.
      * destruct (mid <? N - 1); cbn; [left; apply elem_of_app; right; right; left|]. split; [|done]. rewrite elem_of_app. intros [H|H]; [by apply (Hka true)|].
        apply elem_of_cons in H as [[=]|H]. by apply elem_of_nil in H.
      * left. apply elem_of_app. right. cbn. left.
    + intros i Hlt f' Hf'. cbn in Hf'. rewrite lookup_app_l in Hf' by (unfold a in Hlt; lia). destruct (Hd i f' Hf') as [H1 H2].
      assert (Hnew : forall w, ~ (i, w) ∈ map gkey_of gs) by (intros w Hw; apply Hgs in Hw; cbn in Hw; unfold a in *; lia).
      rewrite Hkeys. setoid_rewrite elem_of_app. split; [intros [?|?]; [done|by apply (Hnew false)]|]. destruct H2 as [?|H2]; [by left|right]. intros [?|?]; [done|by apply (Hnew true)].
  - unfold potential. cbn. rewrite Ho, work_app. assert (work gs <= 2 * B); [|lia]. unfold gs. cbn [work foldr g_left].
    pose proof (proj2 (t_answers T mid Hm2)). destruct (Z.ltb_spec mid (N - 1)); cbn; [pose proof (proj2 (t_answers T (mid + 1) ltac:(lia)))|]; lia.
Qed.

(** Reporting the leaf. *)
Lemma finish fuel now mid first second s : tree -> common s -> s_out s = [] -> (forall i, dead s i) -> mid = Z.max L 0 ->
  (0 <= L -> collected (ans L) (s_vals s)) -> r_pht first && negb (r_pht second) || (s_hi s <? s_lo s) = true ->
  exists s', call (S fuel) now (COnDone p mid first second true) s = Some (Ret s') /\ inv s' /\ potential s' = work (s_gets s).
Proof.
  intros T Hc Ho Hd Hm Hcol Hleaf. pose proof (t_range T). pose proof (t_depth T). destruct (pre_spec mid T ltac:(lia)) as [Hp Hw].
  destruct (c_cache s Hc) as (l & Hl). destruct (cache_insert_repr (pre mid) now (s_cache s) l Hl Hw) as (c' & Hins & Hr).
  cbn [run_call negb]. rewrite Hleaf, Hp. cbn [mbind outcome_bind]. rewrite Hins. cbn [s_vals s_max s_set_cache]. rewrite (c_max s Hc).
  exists (done_call true true (s_call (OCb (s_vals s) (pre mid)) (s_set_cache c' s))).
  split; [by destruct (s_vals s) eqn:E; cbn; rewrite ?E|]. split; [split|].
  - split; cbn; [apply Hc|by eexists|apply Hc..].
  - right. split; [|exact Hd]. exists (s_vals s). cbn. rewrite Ho, Hm. split_and!; [done|apply Hc|done].
  - unfold potential. cbn. by rewrite Ho.
Qed.

Lemma step_empty fuel now start s : s_hi s < s_lo s ->
  call (S fuel) now (CStep p start) s = call fuel now (COnDone p (mid_of start s) NodeRes_make NodeRes_make true) s.
Proof. intros H. cbn [run_call]. by rewrite (proj2 (Z.leb_gt _ _)). Qed.

(** The search goes on with an interval that holds the leaf. *)
Lemma step_on fuel now s : tree -> common s -> s_out s = [] -> interval s -> s_lo s - 1 <= s_hi s -> (forall i, dead s i) ->
  exists s', call (S (S fuel)) now (CStep p (-1)) s = Some (Ret s') /\ inv s' /\ potential s' <= potential s + 2 * B.
Proof.
  intros T Hc Ho Hi Hle Hd. destruct (decide (s_lo s <= s_hi s)) as [Hlt|Hgt].
  { destruct (issue (S fuel) now (-1) s T Hc Ho Hi Hlt Hd (or_introl eq_refl)) as (s' & H1 & H2 & H3 & H4). exists s'. split_and!; [done| |done]. split; [done|by left]. }
  destruct Hi as (Hi1 & Hi2 & Hi3). pose proof (t_depth T). assert (Hlo : s_lo s = 0) by lia. assert (Hhi : s_hi s = -1) by lia.
  destruct (finish fuel now 0 NodeRes_make NodeRes_make s T Hc Ho Hd) as (s' & H1 & H2 & H3); [lia|lia| |].
  { rewrite Hlo, Hhi. reflexivity. }
  exists s'. split; [|split; [done|unfold potential in *; rewrite H3, Ho, Hlo, Hhi; lia]].
  rewrite <- H1, step_empty by lia. unfold mid_of. rewrite Hlo, Hhi. reflexivity.
Qed.

(** ** Progress of a [get] *)

Lemma insert_perm {A} (l : list A) i x y : l !! i = Some x -> <[i := y]> l ≡ₚ y :: delete i l.
Proof. revert i. induction l as [|z l IH]; intros [|i] Hi; simplify_eq/=; [done|]. rewrite (IH i Hi). constructor. Qed.

Lemma work_perm gs gs' : gs ≡ₚ gs' -> work gs = work gs'.
Proof. unfold work. induction 1; cbn in *; lia. Qed.

Lemma keys_perm s i g : s_gets s !! i = Some g -> keys s ≡ₚ gkey_of g :: map gkey_of (delete i (s_gets s)).
Proof. intros Hi. unfold keys. rewrite (delete_Permutation _ _ _ Hi) at 1. reflexivity. Qed.

Lemma keys_delete s i g : common s -> s_gets s !! i = Some g ->
  NoDup (map gkey_of (delete i (s_gets s))) /\ forall k, k ∈ map gkey_of (delete i (s_gets s)) <-> k ∈ keys s /\ k <> gkey_of g.
Proof.
  intros Hc Hi. pose proof (keys_perm s i g Hi) as Hp. pose proof (c_keys s Hc) as Hn. rewrite Hp in Hn. apply NoDup_cons in Hn as [Hg Hn].
  split; [done|]. intros k. rewrite Hp, elem_of_cons. split; [intros Hk; split; [by right|congruence]|intros [[?|?] ?]; done].
Qed.

Lemma others_ok s i g h f : common s -> s_gets s !! i = Some g -> s_frames s !! g_frame g = Some f ->
  Forall (get_ok (<[g_frame g := mark (g_second g) h f]> (s_frames s)) (s_vals s)) (delete i (s_gets s)).
Proof.
  intros Hc Hi Hf. apply Forall_forall. intros g' Hg'. apply mark_get_ok; [done| |].
  - apply (proj2 (keys_delete s i g Hc Hi) (gkey_of g')). by apply list_elem_of_fmap_2.
  - pose proof (c_gets s Hc) as H. apply (Forall_delete _ _ i) in H. by eapply Forall_forall in H.
Qed.

(** A [get] that ended is gone, with or without its result being noted. *)
Lemma end_get s i g : common s -> s_gets s !! i = Some g -> common (s_set_gets (delete i (s_gets s)) s).
Proof.
  intros Hc Hi. split; cbn; try apply Hc; [by apply Forall_delete, Hc|by apply (keys_delete s i g)].
Qed.

Lemma end_get_mark s i g f h : common s -> s_gets s !! i = Some g -> s_frames s !! g_frame g = Some f ->
  common (s_set_frame (g_frame g) (mark (g_second g) h f) (s_set_gets (delete i (s_gets s)) s)).
Proof.
  intros Hc Hi Hf. split; cbn; try apply Hc; [by apply frames_mark, Hc|by apply others_ok|by apply (keys_delete s i g)].
Qed.

(** *** A value arrives *)

(** Nothing but the results of the [get]s under way and the entries changes. *)
Record grows (s s' : Search) : Prop := {
  gr_keys : keys s' = keys s;
  gr_interval : s_lo s' = s_lo s /\ s_hi s' = s_hi s;
  gr_out : s_out s' = s_out s;
  gr_vals : s_vals s ⊆ s_vals s';
  gr_length : length (s_frames s') = length (s_frames s);
  gr_frames j f' : s_frames s' !! j = Some f' -> exists f, s_frames s !! j = Some f /\ f_mid f' = f_mid f /\
    r_done (f_first f') = r_done (f_first f) /\ forall w, (j, w) ∈ keys s \/ res w f' = res w f;
}.

Lemma grows_dead s s' j : grows s s' -> dead s j -> dead s' j.
Proof. intros H Hd f' Hf'. destruct (gr_frames s s' H j f' Hf') as (f & Hf & _ & Hr & _). rewrite (gr_keys s s' H), Hr. by apply Hd. Qed.

Lemma grows_waiting s s' a f f' : grows s s' -> f_mid f' = f_mid f -> (forall w, (a, w) ∈ keys s \/ res w f' = res w f) -> waiting s a f -> waiting s' a f'.
Proof.
  intros H Hm Hr (H1 & H2 & H3 & H4 & H5). destruct (gr_interval s s' H) as [Hlo Hhi]. unfold waiting. rewrite (gr_keys s s' H), Hm, Hlo, Hhi.
  split_and!; try (done || lia).
  - destruct (Hr false) as [?|E]; [by left|]. cbn in E. rewrite E. destruct H3 as [?|(? & ? & ? & ?)]; [by left|right]. split_and!; try done. eapply collected_mono; [done|apply H].
  - destruct (f_mid f <? N - 1); destruct (Hr true) as [?|E]; try (cbn in E; rewrite E; done); [by left|by destruct H4].
Qed.

Lemma grows_status s s' : grows s s' -> active s \/ finished s -> active s' \/ finished s'.
Proof.
  intros H [(Ho & Hi & a & f & Hl & Hf & Hw & Hd)|[Ho Hd]].
  - left. split; [by rewrite (gr_out s s' H)|]. destruct (gr_interval s s' H) as [Hlo Hhi]. split; [unfold interval; by rewrite Hlo, Hhi|].
    destruct (lookup_lt_is_Some_2 (s_frames s') a) as [f' Hf']; [rewrite (gr_length s s' H); lia|].
    destruct (gr_frames s s' H a f' Hf') as (f0 & Hf0 & Hm & _ & Hr). assert (f0 = f) as -> by congruence.
    exists a, f'. split_and!; [by rewrite (gr_length s s' H)|done|by eapply grows_waiting|]. intros j Hj. eapply grows_dead; [done|by apply Hd].
  - right. split; [by rewrite (gr_out s s' H)|]. intros j. by eapply grows_dead.
Qed.

(** [on_get] in the exact mode. *)
Lemma on_get_exact s v e : entry_unpackValue v = Ret e -> s_max s = None -> good_vals (s_vals s) ->
  exists vals', on_get all_values p v s = Some (Ret (s_set_vals vals' None s)) /\ s_vals s ⊆ vals' /\ good_vals vals' /\ collected [v] vals'.
Proof.
  intros He Hm [Hg Hn]. unfold on_get. rewrite He, Hm. destruct (existsb _ _) eqn:Hex.
  - exists (s_vals s). split; [destruct s; cbn in *; by subst|]. split; [done|]. split; [done|]. intros v' e' ->%list_elem_of_singleton _ He' _.
    apply existsb_exists in Hex as (e0 & Hin & Heq%bool_decide_eq_true). exists e0. rewrite He in He'. injection He' as <-. split; [by apply list_elem_of_In|done].
  - assert (Hnew : ~ e_value e ∈ map e_value (s_vals s)).
    { intros (e0 & Heq & Hin)%list_elem_of_fmap. apply not_true_iff_false in Hex. apply Hex. apply existsb_exists. exists e0. split; [by apply list_elem_of_In|].
      by apply bool_decide_eq_true. }
    destruct (all_values || bool_decide (e_prefix e = content_ p)) eqn:Hmatch.
    + exists (s_vals s ++ [e]). split; [done|]. split; [set_solver|]. split.
      * split; [apply Forall_app; split; [done|]; constructor; [|done]|].
        { apply orb_true_iff in Hmatch as [?|?%bool_decide_eq_true]; [by left|by right]. }
        rewrite map_app. apply NoDup_app. split; [done|]. split; [|apply NoDup_singleton]. intros x Hx ->%list_elem_of_singleton. by apply Hnew.
      * intros v' e' ->%list_elem_of_singleton _ He' _. rewrite He in He'. injection He' as <-. exists e. split; [set_solver|done].
    + exists (s_vals s). split; [destruct s; cbn in *; by subst|]. split; [done|]. split; [done|]. intros v' e' ->%list_elem_of_singleton _ He' Hma. exfalso.
      rewrite He in He'. injection He' as <-. apply orb_false_iff in Hmatch as [? ?%bool_decide_eq_false]. destruct Hma; congruence.
Qed.

(** Taking a value from a [get]. *)
Definition take_value (i : nat) (g : Get) (vs : list Value) (s : Search) : Search :=
  s_set_gets (<[i := mkGet _ (g_frame g) (g_second g) vs (g_ok g)]> (s_gets s)) s.

Lemma take_keys i g vs s : s_gets s !! i = Some g -> keys (take_value i g vs s) = keys s.
Proof. intros Hi. unfold keys. cbn. rewrite (list_fmap_insert gkey_of). apply list_insert_id. by rewrite list_lookup_fmap, Hi. Qed.

Lemma take_work i g v vs s : s_gets s !! i = Some g -> g_left g = v :: vs -> work (s_gets (take_value i g vs s)) = work (s_gets s) - 1.
Proof.
  intros Hi Hg. cbn. rewrite (work_perm _ _ (insert_perm _ i g _ Hi)), (work_perm _ _ (delete_Permutation _ _ _ Hi)). cbn. rewrite Hg. cbn. fold (work (delete i (s_gets s))). lia.
Qed.

Lemma take_common i g v vs s h : s_gets s !! i = Some g -> g_left g = v :: vs -> common s -> forall f, s_frames s !! g_frame g = Some f -> forall vals,
  s_vals s ⊆ vals -> good_vals vals -> collected [v] vals -> (forall x, h (mkRes false x) = mkRes false (x || is_canary v)) ->
  common (s_set_vals vals None (s_set_frame (g_frame g) (mark (g_second g) h f) (take_value i g vs s))).
Proof.
  intros Hi Hg Hc f Hf vals Hv Hgood Hcol Hh. split; cbn; try apply Hc; try done.
  - by apply frames_mark, Hc.
  - rewrite (insert_perm _ i g _ Hi). constructor; [|eapply Forall_impl; [by eapply others_ok|]; intros g'; by apply get_ok_mono].
    pose proof (c_gets s Hc) as H. eapply Forall_lookup_1 in H; [|exact Hi]. destruct H as (f0 & d & H1 & H2 & H3 & H4 & H5 & H6 & H7). assert (f0 = f) as -> by congruence.
    exists (mark (g_second g) h f), (d ++ [v]). cbn. rewrite list_lookup_insert_eq by (by eapply lookup_lt_Some). rewrite mark_mid, mark_target, mark_same, H5, Hh.
    split_and!; try done.
    + by rewrite <- app_assoc, H4, Hg.
    + f_equal. rewrite existsb_app. cbn. by rewrite orb_false_r.
    + apply collected_snoc; [by eapply collected_mono|done].
  - change (NoDup (keys (take_value i g vs s))). rewrite take_keys by done. apply Hc.
Qed.

Lemma take_grows i g vs s h f vals : s_gets s !! i = Some g -> s_frames s !! g_frame g = Some f -> s_vals s ⊆ vals -> (forall x, r_done (h x) = r_done x) ->
  grows s (s_set_vals vals None (s_set_frame (g_frame g) (mark (g_second g) h f) (take_value i g vs s))).
Proof.
  intros Hi Hf Hv Hh. split; try done; [by apply (take_keys i g vs s)|apply length_insert|].
  cbn. intros j f' Hf'. destruct (decide (j = g_frame g)) as [->|Hne].
  - rewrite list_lookup_insert_eq in Hf' by (by eapply lookup_lt_Some). injection Hf' as <-. exists f. split; [done|]. split; [apply mark_mid|].
    split; [destruct (g_second g); [done|apply Hh]|]. intros w. destruct (decide (w = g_second g)) as [->|Hw]; [left|right; by apply mark_other].
    apply list_elem_of_fmap. exists g. split; [done|]. by eapply list_elem_of_lookup_2.
  - rewrite list_lookup_insert_ne in Hf' by done. exists f'. split_and!; try done. intros w. by right.
Qed.

(** A value that a [get] brings keeps the invariant. *)
Lemma value_arrives fuel now i g v vs s : tree -> inv s -> s_gets s !! i = Some g -> g_left g = v :: vs ->
  exists s', progress fuel now i s = Some (Ret s') /\ inv s' /\ potential s' = potential s - 1.
Proof.
  intros T [Hc Hs] Hi Hg. pose proof (c_gets s Hc) as H. eapply Forall_lookup_1 in H; [|exact Hi]. destruct H as (f & d & Hf & Hm & Ht & Ha & Hr & Hok & Hcol).
  assert (Hfp : f_p f = p) by (pose proof (c_frames s Hc) as Hfs; by eapply Forall_lookup_1 in Hfs).
  assert (Hfin : exists h vals, progress fuel now i s = Some (Ret (s_set_vals vals None (s_set_frame (g_frame g) (mark (g_second g) h f) (take_value i g vs s)))) /\
    s_vals s ⊆ vals /\ good_vals vals /\ collected [v] vals /\ (forall x, h (mkRes false x) = mkRes false (x || is_canary v)) /\ forall x, r_done (h x) = r_done x).
  { unfold deliver. rewrite Hi, Hg. unfold on_value. cbn [g_frame s_frames s_set_gets g_second]. fold (take_value i g vs s). rewrite Hf, Hfp. destruct (is_canary v) eqn:Hcan; unfold is_canary in Hcan; rewrite Hcan.
    - exists set_pht, (s_vals s). split; [unfold s_set_vals, s_set_frame; cbn; by rewrite (c_max s Hc)|]. split_and!; [done|apply Hc| |by intros []|done].
      intros v' e ->%list_elem_of_singleton Hf'. unfold is_canary in Hf'. congruence.
    - destruct (t_entries T (target (g_second g) f) v) as (e & He); [unfold target in *; destruct (g_second g); lia|rewrite Ha, Hg; set_solver|done|].
      destruct (on_get_exact (take_value i g vs s) v e He (c_max s Hc) (c_vals s Hc)) as (vals & H1 & H2 & H3 & H4).
      exists (fun x => x), vals. split; [|split_and!; try done; intros x; by rewrite orb_false_r]. rewrite H1. do 2 f_equal. unfold s_set_vals, s_set_frame. cbn.
      rewrite (list_insert_id (s_frames s)); [done|]. rewrite Hf. f_equal. by destruct (g_second g), f. }
  destruct Hfin as (h & vals & -> & Hv & Hgood & Hcv & Hh & Hhd). eexists. split; [done|]. split; [split|].
  - by eapply take_common.
  - by eapply grows_status; [apply take_grows|].
  - unfold potential. cbn [s_out s_set_vals s_set_frame take_value s_set_gets s_hi s_lo]. fold (take_value i g vs s). change (s_gets _) with (s_gets (take_value i g vs s)) at 1. rewrite (take_work i g v vs s) by done. lia.
Qed.

(** *** A [get] ends *)

Lemma B_pos : tree -> 0 < B.
Proof. intros T. pose proof (t_range T). destruct (t_answers T 0 ltac:(lia)). lia. Qed.

Lemma work_end s i g : s_gets s !! i = Some g -> g_left g = [] -> work (delete i (s_gets s)) = work (s_gets s) - 1.
Proof. intros Hi Hg. rewrite (work_perm (s_gets s) _ (delete_Permutation _ _ _ Hi)). cbn. rewrite Hg. fold (work (delete i (s_gets s))). cbn. lia. Qed.

(** Both [get]s of a node have ended: report the leaf or look deeper. *)
Lemma decide_on fuel now mid first second s : tree -> common s -> s_out s = [] -> interval s -> s_lo s <= mid <= s_hi s -> 0 <= mid < N -> mid <= L -> (forall i, dead s i) ->
  r_pht first = true -> r_pht second = (mid + 1 <=? L) -> collected (ans mid) (s_vals s) ->
  exists s', call (S (S (S fuel))) now (COnDone p mid first second true) s = Some (Ret s') /\ inv s' /\ potential s' <= potential s.
Proof.
  intros T Hc Ho Hi Hm1 Hm2 HmL Hd Hf Hs Hcol. pose proof (B_pos T) as HB. pose proof (t_range T). destruct (Z.leb_spec (mid + 1) L) as [Hlt|Hge].
  - destruct (step_on fuel now (s_set_lo (mid + 1) s) T) as (s' & H1 & H2 & H3); cbn; try done; [by destruct Hc; split|unfold interval in *; cbn; lia|unfold interval in *; lia|].
    exists s'. split; [|split; [done|]].
    + rewrite <- H1. change (call (S (S (S fuel))) now (COnDone p mid first second true) s) with
        (if r_pht first && negb (r_pht second) || (s_hi s <? s_lo s) then call 1 now (COnDone p mid first second true) s
         else if r_pht first then call (S (S fuel)) now (CStep p (-1)) (s_set_lo (i32 (u32 (mid + 1))) s) else Some (Ret (done_call true false s))).
      rewrite Hf, Hs. cbn [andb negb orb]. rewrite (proj2 (Z.ltb_ge _ _)) by lia. unfold i32. rewrite wrap_small by lia. by rewrite (proj2 (Z.ltb_lt _ _)) by lia.
    + unfold potential in H3 at 2. cbn [s_out s_set_lo s_hi s_lo s_gets] in H3. rewrite Ho in H3. unfold potential at 2. rewrite Ho.
      assert ((s_hi s - (mid + 1)) * (2 * B) + 2 * B <= (s_hi s - s_lo s) * (2 * B)) by nia. lia.
  - destruct (finish (S (S fuel)) now mid first second s T Hc Ho Hd) as (s' & H1 & H2 & H3); [lia|intros _; by replace L with mid by lia|by rewrite Hf, Hs|].
    exists s'. split_and!; try done. rewrite H3. unfold potential. rewrite Ho. nia.
Qed.

(** The frames and [get]s that are left. *)
Lemma end_dead s s1 j : (forall k, k ∈ keys s1 -> k ∈ keys s) -> (forall f', s_frames s1 !! j = Some f' -> exists f, s_frames s !! j = Some f /\ r_done (f_first f') = r_done (f_first f)) ->
  dead s j -> dead s1 j.
Proof.
  intros Hk Hf Hd f' Hf'. destruct (Hf f' Hf') as (f & Hf0 & Hr). destruct (Hd f Hf0) as [H1 H2]. rewrite Hr. split; [by intros ?%Hk|].
  destruct H2 as [?|H2]; [by left|right; by intros ?%Hk].
Qed.

Lemma get_under_way s i g : common s -> s_gets s !! i = Some g -> g_left g = [] -> tree -> exists f, s_frames s !! g_frame g = Some f /\ f_p f = p /\ 0 <= f_mid f /\ target (g_second g) f < N /\
  res (g_second g) f = mkRes false (target (g_second g) f <=? L) /\ g_ok g = true /\ collected (ans (target (g_second g) f)) (s_vals s).
Proof.
  intros Hc Hi Hg T. pose proof (c_gets s Hc) as H. eapply Forall_lookup_1 in H; [|exact Hi]. destruct H as (f & d & Hf & Hm & Ht & Ha & Hr & Hok & Hcol).
  exists f. pose proof (c_frames s Hc) as Hfs. eapply Forall_lookup_1 in Hfs; [|exact Hf]. rewrite Hg, app_nil_r in Ha. rewrite Ha. split_and!; try done.
  rewrite Hr, <- (t_nodes T (target (g_second g) f)) by (unfold target in *; destruct (g_second g); lia). unfold is_node. by rewrite Ha.
Qed.

(** A [get] under way is not marked as done. *)
Lemma under_way_not_done s j w f : common s -> (j, w) ∈ keys s -> s_frames s !! j = Some f -> r_done (res w f) = false.
Proof.
  intros Hc (g & E & Hg)%list_elem_of_fmap Hf. pose proof (c_gets s Hc) as H. rewrite Forall_forall in H. destruct (H g Hg) as (f0 & d & Hf0 & _ & _ & _ & Hr & _).
  unfold gkey_of in E. injection E as -> ->. assert (f0 = f) as -> by congruence. by rewrite Hr.
Qed.

(** The first [get] belongs to the last call. *)
Lemma first_is_last s i g : common s -> active s \/ finished s -> s_gets s !! i = Some g -> g_second g = false ->
  s_out s = [] /\ interval s /\ exists f, s_frames s !! g_frame g = Some f /\ waiting s (g_frame g) f /\ length (s_frames s) = S (g_frame g) /\ forall j, (j < g_frame g)%nat -> dead s j.
Proof.
  intros Hc Hs Hi Hw. assert (Hk : (g_frame g, false) ∈ keys s) by (apply list_elem_of_fmap; exists g; split; [unfold gkey_of; by rewrite Hw|by eapply list_elem_of_lookup_2]).
  pose proof (keys_frames s g Hc ltac:(by eapply list_elem_of_lookup_2)) as Hlt. destruct (lookup_lt_is_Some_2 _ _ Hlt) as [f Hf].
  destruct Hs as [(Ho & Hint & a & fa & Hl & Hfa & Hwa & Hd)|[_ Hd]]; [|by destruct (Hd (g_frame g) f Hf)].
  destruct (decide (g_frame g = a)) as [E|Hne]; [|destruct (Hd (g_frame g) ltac:(lia) f Hf); done].
  split_and!; try done. exists fa. rewrite E. by split_and!.
Qed.

Lemma i32_u32 z : - 2 ^ 31 <= z < 2 ^ 31 -> i32 (u32 z) = z.
Proof.
  intros Hz. unfold i32. destruct (decide (0 <= z)); [rewrite wrap_small by lia; by rewrite (proj2 (Z.ltb_lt _ _)) by lia|].
  unfold u32, wrap. replace (z mod 2 ^ 32) with (z + 2 ^ 32); [rewrite (proj2 (Z.ltb_ge _ _)) by lia; lia|]. apply (Z.mod_unique _ _ (-1)); lia.
Qed.

(** The state when the [get] at [i] has ended and its result is noted. *)
Definition ended (i : nat) (g : Get) (f : Frame) (s : Search) : Search :=
  s_set_frame (g_frame g) (mark (g_second g) set_done f) (s_set_gets (delete i (s_gets s)) s).

Lemma ended_frame i g f s j f' : s_frames s !! g_frame g = Some f -> s_frames (ended i g f s) !! j = Some f' ->
  (j = g_frame g /\ f' = mark (g_second g) set_done f) \/ (j <> g_frame g /\ s_frames s !! j = Some f').
Proof.
  intros Hf Hf'. cbn in Hf'. destruct (decide (j = g_frame g)) as [->|Hne].
  - rewrite list_lookup_insert_eq in Hf' by (by eapply lookup_lt_Some). injection Hf' as <-. by left.
  - rewrite list_lookup_insert_ne in Hf' by done. by right.
Qed.

Lemma ended_dead i g f s j : common s -> s_gets s !! i = Some g -> s_frames s !! g_frame g = Some f -> j <> g_frame g \/ g_second g = true -> dead s j -> dead (ended i g f s) j.
Proof.
  intros Hc Hi Hf Hj. apply end_dead; [intros k Hk; by apply (keys_delete s i g Hc Hi)|]. intros f' Hf'.
  destruct (ended_frame i g f s j f' Hf Hf') as [[-> ->]|[_ ?]]; [|by exists f']. exists f. split; [done|]. destruct Hj as [?|E]; [done|by rewrite E].
Qed.

Lemma ended_potential i g f s : s_gets s !! i = Some g -> g_left g = [] -> potential (ended i g f s) = potential s - 1.
Proof. intros Hi Hg. unfold potential, ended. cbn [s_out s_set_frame s_set_gets s_hi s_lo s_gets]. rewrite (work_end s i g Hi Hg). lia. Qed.

(** The first [get] of a call ends. *)
Lemma first_ends fuel now i g s : tree -> inv s -> s_gets s !! i = Some g -> g_left g = [] -> g_second g = false ->
  exists s', progress (S (S (S fuel))) now i s = Some (Ret s') /\ inv s' /\ potential s' < potential s.
Proof.
  intros T [Hc Hs] Hi Hg Hw. destruct (first_is_last s i g Hc Hs Hi Hw) as (Ho & Hint & f & Hf & Hwait & Hl & Hd).
  destruct (get_under_way s i g Hc Hi Hg T) as (f0 & Hf0 & Hp & Hm & Ht & Hr & Hok & Hcol). assert (f0 = f) as -> by congruence. rewrite Hw in Ht, Hr, Hcol. cbn in Ht, Hr, Hcol.
  destruct Hwait as (Hw1 & Hw2 & _ & Hw4 & _). pose proof (t_range T) as HN. pose proof (B_pos T) as HB. destruct (t_size T) as [Hsz _].
  assert (Hkd : forall k, k ∈ map gkey_of (delete i (s_gets s)) <-> k ∈ keys s /\ k <> (g_frame g, false)) by (intros k; rewrite (proj2 (keys_delete s i g Hc Hi)); unfold gkey_of; by rewrite Hw).
  unfold deliver. rewrite Hi, Hg, Hf, Hw, Hok. unfold on_first_done. cbn [negb]. rewrite Hr. cbn [r_pht]. destruct (Z.leb_spec (f_mid f) L) as [HmL|HmL]; cbn [negb].
  - pose proof (end_get_mark s i g f set_done Hc Hi Hf) as Hc'. pose proof (ended_potential i g f s Hi Hg) as Hpot. fold (ended i g f s) in Hc'.
    assert (He : s_set_frame (g_frame g) (mark false set_done f) (s_set_gets (delete i (s_gets s)) s) = ended i g f s) by (unfold ended; by rewrite Hw). rewrite He, Hp, Hsz, (wrap_small 64) by lia.
    assert (Hdone : r_done (f_second f) || (N - 1 <=? f_mid f) = true -> ~ (g_frame g, true) ∈ keys s /\ r_pht (f_second f) = (f_mid f + 1 <=? L)).
    { pose proof (t_depth T). intros Hor. destruct (Z.ltb_spec (f_mid f) (N - 1)); [|destruct Hw4 as [? Hs2]; split; [done|]; rewrite Hs2; symmetry; apply Z.leb_gt; lia].
      rewrite (proj2 (Z.leb_gt _ _)), orb_false_r in Hor by lia. assert (Hn : ~ (g_frame g, true) ∈ keys s) by (intros Hk; pose proof (under_way_not_done s _ _ f Hc Hk Hf) as Hu; cbn in Hu; congruence).
      split; [done|]. destruct Hw4 as [?|[_ ?]]; done. }
    destruct (r_done (f_second f) || (N - 1 <=? f_mid f)) eqn:Hor.
    + destruct (Hdone eq_refl) as [Hn Hs2]. destruct (decide_on fuel now (f_mid f) (f_first (mark false set_done f)) (f_second f) (ended i g f s) T Hc') as (s' & H1 & H2 & H3); try done.
      * intros j f' Hf'. destruct (ended_frame i g f s j f' Hf Hf') as [[-> _]|[Hne Hj]].
        { unfold keys, ended. cbn. rewrite !Hkd. split; [by intros [_ ?]|right; by intros [? _]]. }
        apply lookup_lt_Some in Hj as Hlt. apply (ended_dead i g f s j Hc Hi Hf); [by left| |done]. apply Hd. lia.
      * cbn. by rewrite Hr.
      * exists s'. split_and!; [done..|lia].
    + exists (ended i g f s). split; [done|]. split; [|lia]. split; [done|]. left. split; [done|]. split; [done|]. apply orb_false_iff in Hor as [Hor1 Hor2%Z.leb_gt].
      exists (g_frame g), (mark false set_done f). split; [cbn; by rewrite length_insert|]. split; [cbn; rewrite Hw; apply list_lookup_insert_eq; by eapply lookup_lt_Some|].
      split; [|intros j Hj; apply (ended_dead i g f s j Hc Hi Hf); [left; lia|by apply Hd]]. rewrite (proj2 (Z.ltb_lt _ _)) in Hw4 by lia.
      destruct Hw4 as [Hk|[? _]]; [|congruence]. assert ((g_frame g, true) ∈ keys (ended i g f s)) by (unfold keys, ended; cbn; by rewrite Hkd).
      unfold waiting. cbn [mark f_mid f_first f_second]. rewrite (proj2 (Z.ltb_lt _ _)) by lia. rewrite Hr. split; [done|]. split; [lia|]. split; [right; by split_and!|]. split; [by left|by right].
  - set (s1 := s_set_hi (i32 (u32 (f_mid f - 1))) (s_set_gets (delete i (s_gets s)) s)). rewrite Hp.
    assert (Hhi : s_hi s1 = f_mid f - 1) by (cbn; apply i32_u32; lia).
    destruct (step_on (S fuel) now s1 T) as (s' & H1 & H2 & H3); try done.
    + pose proof (end_get s i g Hc Hi) as []. by split.
    + unfold interval in *. rewrite Hhi. cbn. lia.
    + rewrite Hhi. cbn. lia.
    + intros j f' Hj. cbn in Hj. destruct (decide (j = g_frame g)) as [->|Hne].
      * assert (f' = f) as -> by congruence. unfold keys. cbn. rewrite Hkd, Hr. split; [by intros [_ ?]|by left].
      * apply lookup_lt_Some in Hj as Hlt. apply (end_dead s s1 j); [intros k Hk; unfold keys in Hk; cbn in Hk; by apply Hkd in Hk as [? _]|by eauto|apply Hd; lia|done].
    + exists s'. split_and!; [done..|]. unfold potential in H3 at 2. rewrite Hhi in H3. cbn [s1 s_out s_set_hi s_set_gets s_lo s_gets] in H3. rewrite (work_end s i g Hi Hg), Ho in H3.
      unfold potential at 2. rewrite Ho. assert ((f_mid f - 1 - s_lo s) * (2 * B) + 2 * B <= (s_hi s - s_lo s) * (2 * B)) by nia. lia.
Qed.

(** The second [get] of a call that the search has left ends. *)
Lemma left_call s i g f : common s -> s_gets s !! i = Some g -> g_second g = true -> s_frames s !! g_frame g = Some f -> dead s (g_frame g) -> r_done (f_first f) = false.
Proof.
  intros Hc Hi Hw Hf Hd. destruct (Hd f Hf) as [_ [?|Hn]]; [done|]. exfalso. apply Hn. apply list_elem_of_fmap. exists g.
  split; [unfold gkey_of; by rewrite Hw|by eapply list_elem_of_lookup_2].
Qed.

Lemma ended_waiting s i g f a fa : common s -> s_gets s !! i = Some g -> g_second g = true -> s_frames s !! g_frame g = Some f -> g_frame g <> a ->
  waiting s a fa -> waiting (ended i g f s) a fa.
Proof.
  intros Hc Hi Hw Hf Hne (H1 & H2 & H3 & H4 & H5). assert (Hk : forall w, (a, w) ∈ keys (ended i g f s) <-> (a, w) ∈ keys s).
  { intros w. unfold keys at 1. cbn. rewrite (proj2 (keys_delete s i g Hc Hi)). unfold gkey_of. split; [by intros [? _]|]. split; [done|congruence]. }
  unfold waiting. rewrite !(Hk false). destruct (f_mid fa <? N - 1); rewrite !(Hk true); exact (conj H1 (conj H2 (conj H3 (conj H4 H5)))).
Qed.

Lemma second_ends fuel now i g s : tree -> inv s -> s_gets s !! i = Some g -> g_left g = [] -> g_second g = true ->
  exists s', progress (S (S (S fuel))) now i s = Some (Ret s') /\ inv s' /\ potential s' < potential s.
Proof.
  intros T [Hc Hs] Hi Hg Hw. destruct (get_under_way s i g Hc Hi Hg T) as (f & Hf & Hp & Hm & Ht & Hr & Hok & _). rewrite Hw in Ht, Hr. cbn in Ht, Hr.
  pose proof (end_get_mark s i g f set_done Hc Hi Hf) as Hc'. pose proof (ended_potential i g f s Hi Hg) as Hpot. fold (ended i g f s) in Hc'.
  assert (He : s_set_frame (g_frame g) (mark true set_done f) (s_set_gets (delete i (s_gets s)) s) = ended i g f s) by (unfold ended; by rewrite Hw).
  assert (Hdead : forall j, dead s j -> dead (ended i g f s) j) by (intros j; apply (ended_dead i g f s j Hc Hi Hf); by right).
  unfold deliver. rewrite Hi, Hg, Hf, Hw, Hok. unfold on_second_done. cbn [negb]. rewrite He, Hp.
  assert (Hleft : r_done (f_first f) = false -> active (ended i g f s) \/ finished (ended i g f s) ->
    exists s', (if r_done (f_first f) then call (S (S (S fuel))) now (COnDone p (f_mid f) (f_first f) (f_second (mark true set_done f)) true) (ended i g f s)
                else Some (Ret (ended i g f s))) = Some (Ret s') /\ inv s' /\ potential s' < potential s) by (intros -> ?; exists (ended i g f s); split_and!; [done..|lia]).
  destruct Hs as [(Ho & Hint & a & fa & Hl & Hfa & Hwait & Hd)|[Ho Hd]];
    [|apply Hleft; [by apply (left_call s i g)|right; split; [done|]; intros j; by apply Hdead]].
  pose proof (lookup_lt_Some _ _ _ Hf) as Hlt. destruct (decide (g_frame g = a)) as [<-|Hne].
  - assert (fa = f) as -> by congruence. destruct Hwait as (Hw1 & Hw2 & Hw3 & Hw4 & _). pose proof (proj2 (keys_delete s i g Hc Hi)) as Hkd.
    assert (Hkt : ~ (g_frame g, true) ∈ keys (ended i g f s)) by (unfold keys; cbn; rewrite Hkd; unfold gkey_of; rewrite Hw; by intros [_ ?]).
    destruct (r_done (f_first f)) eqn:Hfd.
    + assert (Hn : ~ (g_frame g, false) ∈ keys s) by (intros Hk; pose proof (under_way_not_done s _ _ f Hc Hk Hf) as Hu; cbn in Hu; congruence).
      destruct Hw3 as [?|(_ & Hpht & HmL & Hcol)]; [done|].
      destruct (decide_on fuel now (f_mid f) (f_first f) (f_second (mark true set_done f)) (ended i g f s) T Hc') as (s' & H1 & H2 & H3); try done.
      * intros j f' Hf'. destruct (decide (j = g_frame g)) as [->|Hne]; [|].
        { split; [unfold keys; cbn; rewrite Hkd; by intros [? _]|by right]. }
        apply (Hdead j); [|done]. apply Hd. apply lookup_lt_Some in Hf'. cbn in Hf'. rewrite length_insert in Hf'. lia.
      * cbn. by rewrite Hr.
      * exists s'. split_and!; [done..|lia].
    + apply Hleft; [done|]. left. split; [done|]. split; [done|]. exists (g_frame g), (mark true set_done f). split; [cbn; by rewrite length_insert|].
      split; [cbn; rewrite Hw; apply list_lookup_insert_eq; by eapply lookup_lt_Some|]. split; [|intros j Hj; by apply Hdead, Hd].
      assert (Hk1 : (g_frame g, false) ∈ keys (ended i g f s)) by (destruct Hw3 as [?|[? _]]; [|congruence]; unfold keys; cbn; rewrite Hkd; unfold gkey_of; by rewrite Hw).
      unfold waiting. cbn [mark f_mid f_first f_second]. rewrite (proj2 (Z.ltb_lt _ _)) by lia. rewrite Hr. split; [done|]. split; [done|]. split; [by left|]. split; [by right|by left].
  - apply Hleft; [apply (left_call s i g); try done; apply Hd; lia|]. left. split; [done|]. split; [done|]. exists a, fa. split; [cbn; by rewrite length_insert|].
    split; [cbn; by rewrite list_lookup_insert_ne|]. split; [by apply ended_waiting|intros j Hj; by apply Hdead, Hd].
Qed.

(** Whatever a [get] brings, the search keeps its invariant and gets nearer to its end. *)
Lemma progress_ok fuel now i s : tree -> inv s -> (i < length (s_gets s))%nat ->
  exists s', progress (S (S (S fuel))) now i s = Some (Ret s') /\ inv s' /\ potential s' < potential s.
Proof.
  intros T Hinv Hi. destruct (lookup_lt_is_Some_2 _ _ Hi) as [g Hg]. destruct (g_left g) as [|v vs] eqn:Hl.
  - destruct (g_second g) eqn:Hw; [by apply (second_ends fuel now i g)|by apply (first_ends fuel now i g)].
  - destruct (value_arrives (S (S (S fuel))) now i g v vs s T Hinv Hg Hl) as (s' & H1 & H2 & H3). exists s'. split_and!; [done..|lia].
Qed.

(** ** The search as a whole *)

(** [n] deliveries, each to a [get] under way, lead from one state to another. *)
Inductive steps (now : Z) : nat -> Search -> Search -> Prop :=
| steps_refl s : steps now 0 s s
| steps_one n i s s' s'' : (i < length (s_gets s))%nat -> progress 3 now i s = Some (Ret s') -> steps now n s' s'' -> steps now (S n) s s''.

Lemma steps_inv now n s s' : tree -> steps now n s s' -> inv s -> inv s' /\ potential s' + Z.of_nat n <= potential s.
Proof.
  intros T H. induction H as [s|n i s s1 s2 Hi Hp _ IH]; intros Hs; [split; [done|lia]|].
  destruct (progress_ok 0 now i s T Hs Hi) as (s' & Hp' & Hs' & Hlt). rewrite Hp in Hp'. injection Hp' as <-. destruct (IH Hs'). split; [done|lia].
Qed.

Lemma work_nonneg gs : 0 <= work gs.
Proof. unfold work. induction gs; cbn; lia. Qed.

Lemma potential_nonneg s : tree -> inv s -> 0 <= potential s.
Proof.
  intros T [_ [(Ho & _ & a & f & _ & _ & (Hw & _) & _)|[(vals & Ho & _) _]]]; unfold potential; rewrite Ho; pose proof (work_nonneg (s_gets s)); pose proof (B_pos T); nia.
Qed.

Lemma inv_quiet s : inv s -> s_gets s = [] -> reported (s_out s).
Proof.
  intros [_ [(_ & _ & a & f & _ & _ & (_ & _ & _ & _ & Hk) & _)|[? _]]] Hg; [|done]. unfold keys in Hk. rewrite Hg in Hk. destruct Hk as [Hk|Hk]; by apply elem_of_nil in Hk.
Qed.

Lemma start_ok now start c l : tree -> repr c l -> start = -1 \/ 0 <= start < N ->
  exists s, search_start name_ dht_get infohash_get true true 3 now p start None c = Some (Ret s) /\ inv s /\ potential s <= (N + 1) * (2 * B).
Proof.
  intros T Hc Hst. destruct (t_size T) as [Hsz _]. pose proof (t_range T). pose proof (t_depth T). unfold search_start. rewrite Hsz. set (s0 := mkSearch _ 0 N [] None [] [] c []).
  destruct (issue 2 now start s0 T) as (s & H1 & H2 & H3 & H4); cbn; try done; [|unfold interval; cbn; lia|lia|lia|].
  { split; cbn; try done; [by exists l|constructor|split; constructor]. }
  exists s. split; [done|]. split; [split; [done|by left]|]. unfold potential in H4 at 2. cbn in H4. lia.
Qed.

(** C7. The exact search of the prefix hash tree ([lookupStep], as [lookup] and [insert]
    run it), started with no hint or with any hint of the cache, on a DHT that answers:
    whatever the order in which the two [get]s of each step bring their values and end, no
    callback fails, at most (N+1)*2B callbacks run, the application hears at most one
    report, and when no [get] is left it has been given exactly the leaf of the key (the
    root when there is no tree), with every matching entry stored there, no entry twice,
    followed by success. *)
Theorem search_finds_leaf now start c l : tree -> repr c l -> start = -1 \/ 0 <= start < N ->
  exists s, search_start name_ dht_get infohash_get true true 3 now p start None c = Some (Ret s) /\
    forall n s', steps now n s s' ->
      Z.of_nat n <= (N + 1) * (2 * B) /\
      (forall i, (i < length (s_gets s'))%nat -> exists s'', progress 3 now i s' = Some (Ret s'')) /\
      (s_out s' = [] \/ reported (s_out s')) /\
      (s_gets s' = [] -> reported (s_out s')).
Proof.
  intros T Hc Hst. destruct (start_ok now start c l T Hc Hst) as (s & H1 & H2 & H3). exists s. split; [done|]. intros n s' Hn.
  destruct (steps_inv now n s s' T Hn H2) as [Hi Hp]. pose proof (potential_nonneg s' T Hi). split; [lia|]. split; [|split; [|by apply inv_quiet]].
  - intros i Hlt. destruct (progress_ok 0 now i s' T Hi Hlt) as (s'' & ? & _). by exists s''.
  - destruct Hi as [_ [(? & _)|[? _]]]; [by left|by right].
Qed.
End Search.

(** ** The search on a small index *)

Module SearchDemo.
Import PhtDemo.

(** The checks of a node. *)
Definition readable (v : @Value G) : bool := is_canary name_ v || match entry_unpackValue v with Ret _ => true | _ => false end.
Definition node_check (j : Z) : bool :=
  let vs := ans (G := G) name_ dht_get infohash_get key j in
  eqb (is_node (G := G) name_ dht_get infohash_get key j) (j <=? 2) && (dht_get (prefix_hash infohash_get (pre key j))).2 &&
  (Z.of_nat (length vs) <? 4) && forallb readable vs.

Lemma nodes_checked : forallb node_check (seqZ 0 8) = true.
Proof. vm_refl. Qed.

Lemma node_ok j : 0 <= j < 8 -> is_node (G := G) name_ dht_get infohash_get key j = (j <=? 2) /\
  (dht_get (prefix_hash infohash_get (pre key j))).2 = true /\ Z.of_nat (length (ans (G := G) name_ dht_get infohash_get key j)) < 4 /\
  forall v, v ∈ ans (G := G) name_ dht_get infohash_get key j -> readable v = true.
Proof.
  intros Hj. pose proof nodes_checked as H. rewrite forallb_forall in H. specialize (H j). rewrite <- list_elem_of_In, elem_of_seqZ in H. specialize (H ltac:(lia)).
  unfold node_check in H. rewrite !andb_true_iff in H. destruct H as [[[H1 H2] H3] H4]. split_and!; [by apply eqb_prop|done|by apply Z.ltb_lt|].
  intros v Hv. rewrite forallb_forall in H4. apply H4. by apply list_elem_of_In.
Qed.

Lemma demo_tree : tree (G := G) name_ dht_get infohash_get key 8 2 4.
Proof.
  split; try done.
  - unfold wf_prefix. cbn. split_and!; first [by_compute|by left|done].
  - intros j Hj. by destruct (node_ok j Hj).
  - intros j Hj. by destruct (node_ok j Hj) as (_ & ? & ? & _).
  - intros j v Hj Hv Hc. destruct (node_ok j Hj) as (_ & _ & _ & Hr). specialize (Hr v Hv). unfold readable in Hr. rewrite Hc in Hr.
    destruct (entry_unpackValue v) as [e| | |]; [by exists e|done..].
Qed.

(** The searches of the key that always serve the oldest or the newest [get] first. *)
Definition out_of (newest : bool) : option (list Out) :=
  let fix go n s := match n with
                    | O => Some (s_out s)
                    | S n' => match deliver (G := G) name_ dht_get infohash_get true true false 3 0 (if newest then pred (length (s_gets s)) else 0%nat) s with
                              | Some (Ret s') => go n' s' | _ => None end
                    end in
  match search_start (G := G) name_ dht_get infohash_get true true 3 0 key (-1) None Cache_make with Some (Ret s) => go 40%nat s | _ => None end.

Example orders : out_of false = out_of true /\ out_of true = Some [OCb [entry 160 7] (mkPrefix 2 [] [128]); ODone true].
Proof. split; vm_refl. Qed.

(** With a [lookup] that goes through the key's padding. *)
Example lookup_linearized :
  match lookup (G := G) name_ dht_get infohash_get true true 3 [(str "k", 1)] [(str "k", [160])] true 0 Cache_make with
  | Some (Ret s) => match run (G := G) name_ dht_get infohash_get true true false 3 0 (replicate 40 0%nat) s with
                    | Some (Ret s') => map (fun o => match o with OCb _ q => size_ q | ODone _ => -1 end) (s_out s') = [2; -1]
                    | _ => False end
  | _ => False
  end.
Proof. vm_compute. reflexivity. Qed.

(** When a [get] fails the outcome depends on the order. Here the root is known, the
    [get] of the two-bit prefix fails: the search ends with an error when the one-bit
    prefix answered before, and reports the one-bit prefix as a leaf when it answers
    after. *)
Definition broken_get (h : Hash) : list (@Value G) * bool :=
  if bool_decide (h = infohash_get [128; 2]) then ([], false) else dht_get h.
Definition broken (sched : list nat) : option (list Out) :=
  match search_start (G := G) name_ broken_get infohash_get true true 3 0 key 1 None Cache_make with
  | Some (Ret s) => match run (G := G) name_ broken_get infohash_get true true false 3 0 sched s with Some (Ret s') => Some (s_out s') | _ => None end
  | _ => None
  end.
Example failure_order : broken [0; 0; 0]%nat = Some [ODone false] /\ broken [1; 0; 0]%nat = Some [OCb [] (mkPrefix 1 [] [128]); ODone true].
Proof. split; vm_refl. Qed.

(** When the [get] of the last prefix fails, nothing is ever reported. *)
Example failure_silent :
  match search_start (G := G) name_ (fun _ => ([], false)) infohash_get true true 3 0 key 7 None Cache_make with
  | Some (Ret s) => match deliver (G := G) name_ (fun _ => ([], false)) infohash_get true true false 3 0 0 s with
                    | Some (Ret s') => s_gets s' = [] /\ s_out s' = [] | _ => False end
  | _ => False
  end.
Proof. vm_compute. auto. Qed.
End SearchDemo.

Lemma search_finds_leaf_witness : exists s, search_start (G := PhtDemo.G) PhtDemo.name_ PhtDemo.dht_get PhtDemo.infohash_get true true 3 0 PhtDemo.key (-1) None Cache_make = Some (Ret s) /\
  forall n s', steps (G := PhtDemo.G) PhtDemo.name_ PhtDemo.dht_get PhtDemo.infohash_get false 0 n s s' -> Z.of_nat n <= 72.
Proof.
  destruct (search_finds_leaf (G := PhtDemo.G) PhtDemo.name_ PhtDemo.dht_get PhtDemo.infohash_get false PhtDemo.key 8 2 4 0 (-1) Cache_make []
    SearchDemo.demo_tree Cache_make_repr (or_introl eq_refl)) as (s & H1 & H2).
  exists s. split; [exact H1|]. intros n s' Hn. exact (proj1 (H2 n s' Hn)).
Defined.
