(* ===== verification/Client.v ===== *)
(** * Client: listeners, request handlers and sessions

    Models src/verified-blockchain/src/client.cpp (the listener callbacks and the
    two handlers the local system calls), peer.cpp (sign up, in and out) and the
    start of a node in node.cpp.  A local object whose [std::thread] is joinable
    ends the program when it goes out of scope, and so does an assignment to such a
    thread.  Keys and encryption are the class [Crypto]. *)
From S2P Require Import Prelude InfoHash Sha256 MsgPack SockAddr Node Ledger Token Asset Chain Transaction.

#[local] Open Scope vb_scope.

(** [InfoHash::get], private keys derived from a user and a password, encryption
    under the public key. *)
Class Crypto := {
  key : Type;
  infohash_get : bytes -> Hash;
  private_key : bytes -> bytes -> outcome key;
  encrypt : key -> bytes -> bytes;
  decrypt : key -> bytes -> outcome bytes;
}.

Section Client.
Context `{Env}.

(** [client::listenToRequests], [listenToCertificationRequests] and
    [listenToVerifications]: what the threads do. *)
Definition listen (t : token_kind) : M unit := u <- get user ;; emit (EListen t u).

(** The callback of [listenToRequests] leaves requests and responses to the run
    time, which is not called. *)
Definition onRequest (req : request) : M bool := ret true.

(** The callback of [listenToCertificationRequests]. *)
Definition onCertificationRequest (now clock : Z) (req : certifiedTx) : M bool :=
  if bool_decide (ct_type req = str "certify") then certify now clock req ;;; ret true
  else ret true.

(** The callback of [listenToCertifications]. *)
Definition onCertification (req : certifiedTx) : M bool :=
  if bool_decide (ct_type req = str "certified") then
    if ct_certification_status req then verify req ;;; ret true else ret true
  else ret true.

(** The callback of [listenToVerifications]. *)
Definition onVerification (clock : Z) (req : verifiedTx) : M bool :=
  me <- get user ;;
  if bool_decide (me = vt_party req) || bool_decide (me = vt_counterparty req) then
    if vt_verification_status req then
      trie_op transactionStore set_transactionStore
        (Insert (vt_txhash req) (dangling (pack_as verifiedTx_ad req))) ;;; ret true
    else ret true
  else verified clock req me ;;; ret true.

(** [client::startListening] on a client whose [listener] is joinable or not. *)
Definition startListening (joinable : bool) (userid : Hash) : M unit :=
  ss <- get sessions ;;
  upd (set_user userid (ss ++ [userid])) ;;;
  listen RToken ;;;
  if joinable then lift (Terminate "assignment to a joinable thread") else
  listen CToken ;;;
  lift (Terminate "assignment to a joinable thread").

(** [client::stopListening]; the argument is not used. *)
Definition stopListening (userid : Hash) : M unit :=
  u <- get user ;;
  emit (ECancel RToken u) ;;; emit (ECancel CToken u) ;;; emit (ECancel VToken u).

(** [client::handleOutboundRequest]. *)
Definition handleOutboundRequest (req : request) : M bool :=
  u <- get user ;;
  ok <- recordRequest (toString u) req ;;
  if ok then out req ;;; ret true else ret false.

(** [client::handleInboundResponse]. *)
Definition handleInboundResponse (resp : request) : M bool :=
  u <- get user ;;
  ok <- recordRequest (toString u) resp ;;
  if ok then in_ resp ;;; ret true else ret false.

(** [node::start()] on a local [node], which then goes out of scope with its worker
    joinable. *)
Definition start_local_node : M unit :=
  emit (ERun 4222) ;;;
  emit (EBootstrap (str "bootstrap.ring.cx") (str "4222")) ;;;
  lift (Terminate "destruction of a joinable thread").

Context `{Crypto}.

(** [peer::signup]. *)
Definition signup (isRunning : bool) (username pwd : bytes) : M Z :=
  (if isRunning then ret tt else start_local_node) ;;;
  let userid := infohash_get (username ++ pwd) in
  k <- lift (private_key userid pwd) ;;
  emit (EPutSigned (toString userid) (encrypt k userid)) ;;;
  ret 1.

(** The callback of [peer::signin] on the values found: the loop returns in its
    first round. *)
Definition onSigninValues (userid : Hash) (k : key) (values : list bytes) : M Z :=
  match values with
  | [] => lift (Undef "signin: no return")
  | v :: _ =>
      d <- lift (decrypt k v) ;;
      if bool_decide (userid = d) then
        upd (set_logged true) ;;; startListening false userid ;;; ret 1
      else ret 0
  end.

(** [peer::signin] up to the answer of the network. *)
Definition signin (isRunning : bool) (username pwd : bytes) : M bytes :=
  (if isRunning then ret tt else start_local_node) ;;;
  let userid := infohash_get (username ++ pwd) in
  k <- lift (private_key userid pwd) ;;
  emit (EGet (toString userid)) ;;;
  ret (toString userid).

(** [peer::signout]. *)
Definition signout (userid : Hash) : M Z :=
  emit EJoin ;;; emit EShutdown ;;; upd (set_logged false) ;;; stopListening userid ;;; ret 1.

End Client.

(** ** Theorems *)

Section theorems.
Context `{EnvLaws} `{Crypto}.

(** Outbound requests: a request that is already on record, or whose sender
    has no positive balance, is refused and nothing is sent; one that is recorded is
    sent to its addressee exactly once, marked as a request, with the verifying
    peers of the last transaction. *)
Theorem handleOutboundRequest_spec req s b tx rest :
  has_account s (toString (user s)) b -> bal_currency b = str "via" -> inserts_succeed ->
  GetLast 3 (transactionStore s) = pack_as certifiedTx_ad tx ++ rest ->
  packable certifiedTx_ad tx -> wf_bytes rest ->
  (is_Some (Select (astore s) (request_key req)) \/ bal_balance b <= 0 ->
     handleOutboundRequest req s = (Ret false, s)) /\
  (Select (astore s) (request_key req) = None -> 0 < bal_balance b ->
     exists s' sent, handleOutboundRequest req s = (Ret true, s') /\
       net s' = net s ++ [EPut (rq_sendTo req) (dangling (pack_as request_ad sent))] /\
       rq_kind sent = str "request" /\ rq_verifyingPeers sent = ct_previous_verifyingPeers tx /\
       rq_encodedRequest sent = rq_encodedRequest req /\
       is_Some (Select (astore s') (request_key req))).
Proof.
  intros Hb Hc Hi Hlast Hp Hr.
  unfold handleOutboundRequest. split.
  - intros Hor. unfold bind, get. cbn beta iota.
    by rewrite (recordRequest_refused _ _ _ _ Hb Hc Hor).
  - intros Hn Hpos.
    destruct (Hi (request_key req) (pack (hash_obj (rq_from req)) ++ pack_as assets_ad (new_asset req)) (astore s))
      as [t Ht].
    pose proof (recordRequest_new _ _ _ _ _ Hb Hc Hpos Hn Ht) as Hrec.
    unfold bind at 1 2, get at 1. cbn beta iota. rewrite Hrec. unfold out, bind, get, lift, put_dangling, emit, upd, ret.
    cbn [set_astore transactionStore nodes]. rewrite Hlast, decode_pack by (done || apply certifiedTx_ok).
    eexists _, _. split; [reflexivity|]. cbn [add_event net set_astore astore].
    split; [reflexivity|]. split_and!; [reflexivity..|]. rewrite (Select_Insert _ _ _ _ Ht). by eexists.
Qed.

(** The certification request that [in] sends is not acted upon: its type is
    never set, so the callback that receives it neither certifies nor changes
    anything. *)
Theorem certification_request_ignored now clock req s :
  onCertificationRequest now clock (certification_request req) s = (Ret true, s) /\
  onCertification (certification_request req) s = (Ret true, s).
Proof. split; reflexivity. Qed.

(** A session: signing up or in while the node is not running ends the
    program, and so does the answer that proves the user's identity, after the user
    is marked as logged in; a wrong first value is refused whatever follows it. *)
Theorem session_outcomes username pwd userid k v values s :
  (signup false username pwd s).1 = Terminate "destruction of a joinable thread" /\
  (signin false username pwd s).1 = Terminate "destruction of a joinable thread" /\
  (decrypt k v = Ret userid ->
     exists s', onSigninValues userid k (v :: values) s = (Terminate "assignment to a joinable thread", s') /\
       logged s' = true /\ user s' = userid /\
       net s' = net s ++ [EListen RToken userid; EListen CToken userid]) /\
  (forall d, decrypt k v = Ret d -> d <> userid -> onSigninValues userid k (v :: values) s = (Ret 0, s)).
Proof.
  split_and!; [reflexivity|reflexivity| |].
  - intros Hd. unfold onSigninValues, bind, lift. rewrite Hd, bool_decide_true by done.
    eexists. split; [reflexivity|]. cbn. by rewrite <- app_assoc.
  - intros d Hd Hne. unfold onSigninValues, bind, lift. rewrite Hd, bool_decide_false by congruence. done.
Qed.

End theorems.

(** ** Witnesses *)

Section witnesses.
Import Demo.

Definition sender_app : App :=
  set_transactionStore (<[str "h" := pack_as certifiedTx_ad sample_ctx]> (∅ : gmap bytes bytes))
    (set_cstore (<[toString (Hash_zero 20) := pack_as balances_ad (mkBalances 7 via)]> (∅ : gmap bytes bytes)) empty_app).

Lemma handleOutboundRequest_spec_witness :
  exists s', handleOutboundRequest sample_req sender_app = (Ret true, s') /\ net s' <> [].
Proof.
  destruct (handleOutboundRequest_spec sample_req sender_app (mkBalances 7 via) sample_ctx [])
    as [_ Hok]; [vm_compute; reflexivity|reflexivity|exact demo_inserts|vm_compute; reflexivity
    |exact sample_ctx_packable|constructor|].
  destruct Hok as (s' & sent & H1 & H2 & _); [apply lookup_empty|cbn; lia|].
  exists s'. split; [exact H1|]. rewrite H2. by destruct (net sender_app).
Defined.

#[local] Instance plain_crypto : Crypto := {|
  key := unit; infohash_get b := Hash_zero 20; private_key _ _ := Ret tt;
  encrypt _ b := b; decrypt _ b := Ret b |}.

Definition sample_key : key := tt.

Lemma session_outcomes_witness :
  exists s', onSigninValues (replicate 20 1) sample_key [replicate 20 1] empty_app =
    (Terminate "assignment to a joinable thread", s') /\ logged s' = true.
Proof.
  destruct (session_outcomes (str "u") (str "p") (replicate 20 1) sample_key (replicate 20 1) [] empty_app)
    as (_ & _ & H1 & _).
  destruct H1 as (s' & H2 & H3 & _); [reflexivity|]. exists s'. by split.
Defined.

End witnesses.
